(* ===== verification/_CoqProject ===== *)
-Q . S2P
Prelude.v
Search.v
PairingHeap.v
TransactionId.v
CurrentXids.v
Varsup.v
KnownAssigned.v
KnownAssignedTheorems.v
StandbyLocks.v
Snapshot.v
ProcArray.v
Running.v
RunningSteps.v
Horizons.v
SnapshotTheorems.v
SnapMgr.v
SnapMgrMemory.v
SnapMgrInvariant.v
SnapMgrSteps.v
SnapMgrRefs.v
SnapMgrXact.v
SnapMgrCalls.v
SnapMgrArray.v
SnapMgrTheorems.v
SnapshotText.v
SnapshotExport.v
SnapshotExportTheorems.v
Slru.v
SlruEntries.v
SlruDelete.v
CommitTs.v
XidPages.v
Clog.v
Subtrans.v
NewXid.v
Transam.v
HeapTuple.v
ComboCid.v
Visibility.v
MultiXactPages.v
MultiXact.v
Standby.v
StandbyTracking.v
StandbyRunning.v
StandbyCompletion.v
StandbyReplay.v
StandbyTheorems.v
RunningData.v
StandbyLogs.v
MultiXactHistory.v
MultiXactTheorems.v
MultiXactTruncate.v
VisibilitySpec.v
VisibilityTheorems.v
VisibilityGuarantees.v
System.v
