(* ===== verification/Prelude.v ===== *)
(** * Transactions, snapshots and tuple visibility in PostgreSQL

    The repository is the PostgreSQL 17 server with a build environment around
    it.  This development verifies the part of the server on which the
    correctness of every query rests: what a transaction id is, where the fate
    of a transaction is recorded, who is running, what a snapshot contains, and
    which version of a row a snapshot sees.  Paths below are relative to
    [src/workspace/postgres-src/src].

    ** The parts of the program and the files that model them

    - [Prelude]: machine integers, arrays by index, the early-return state
      monad [prog] in which C functions that change state and [return] from
      the middle are written, and its weakest-precondition rules [wp].
    - [Search]: [include/port/pg_lfind.h] on the vectors of [simd.h], and the
      binary searches of [xact.c] and [heapam_visibility.c].
    - [PairingHeap]: [backend/lib/pairingheap.c] on nodes in memory, with the
      trees they represent.
    - [TransactionId]: [include/access/transam.h] and the comparison functions
      of [transam.c], modulo 2^32; [xid_rank lo x] is the distance of an id
      above a bound, and [in_use lo x] says that an id is within half the id
      space of it.  On ids in use the modular comparisons are comparisons of
      ranks, which is how every later file reasons about order.
    - [CurrentXids]: the stack of transaction states of [xact.c], as far as
      ids go ([TransactionIdIsCurrentTransactionId], children of committed
      subtransactions, the list for parallel workers).
    - [Varsup]: [varsup.c] on [TransamVariables]: wraparound limits, object
      ids, advancing the counter in recovery.
    - [KnownAssigned]: the array of [procarray.c] in which a standby keeps the
      ids that run on its primary; [KnownAssignedTheorems]: that array as a
      sorted list.  [StandbyLocks]: the locks that [standby.c] holds for
      transactions of the primary; the lock manager is class [LockManager].
    - [Snapshot]: [SnapshotData] and [XidInMVCCSnapshot] of [snapmgr.c].
    - [ProcArray]: [procarray.c]: entries, ending transactions alone or in a
      group, dropping aborted subtransactions, [TransactionIdIsInProgress],
      [GetSnapshotData] with reuse, [ComputeXidHorizons], the approximate test
      [GlobalVisTestIsRemovableXid].  [Running] says what it means that a
      transaction tree runs and what a snapshot must contain; [RunningSteps]
      is the step relation of all backends and its invariant; [Horizons]
      treats the removal horizons; [SnapshotTheorems] has the guarantees.
    - [SnapMgr]: [snapmgr.c], the snapshots a backend holds: memory with
      addresses, the stack of active snapshots, the heap of registered ones,
      the references of resource owners, the xmin that the backend advertises
      in its entry.  [SnapMgrMemory] and [SnapMgrInvariant] have the invariant
      (counts, heap, reachable objects, the advertised xmin), [SnapMgrSteps],
      [SnapMgrRefs] and [SnapMgrXact] that each function keeps it, against
      class [ArrayLaws], what a backend relies on when others change the
      array; [SnapMgrCalls] is a session as a step relation, [SnapMgrArray]
      discharges [ArrayLaws] from [RunningSteps], [SnapMgrTheorems] has the
      guarantees.
    - [SnapshotText]: the C library's printing and scanning of numbers;
      [SnapshotExport]: the text file of an exported snapshot, its parser, and
      the form in shared memory for parallel workers;
      [SnapshotExportTheorems]: what exporting and importing guarantee.
    - [Slru]: [slru.c], the page cache over segment files that the logs share;
      [SlruEntries]: fields in its pages; [SlruDelete]: removing one segment;
      [XidPages]: which pages precede which when ids wrap.
    - [Clog], [Subtrans], [CommitTs]: [clog.c], [subtrans.c] and
      [commit_ts.c], clients of [Slru]; [Transam]: the lookups of [transam.c]
      through the first two and its cache.
    - [NewXid]: [GetNewTransactionId] of [varsup.c], which ties limits, the
      three logs and the array of running transactions together.
    - [Standby]: what a hot standby does with the records of the log: the
      recovery side of [procarray.c], the redo functions of [xact.c] and
      [standby.c], the checkpoint, oid and settings records of [xlog_redo] and
      [ApplyWalRecord] of [xlogrecovery.c], which also hands the records of
      the commit log, the commit timestamps and the multixacts to their redo
      functions.  It is written against class [RecoveryLogs], what it asks of
      the logs.  [StandbyTracking] has the invariant that ties the
      standby to the primary and the effect of commit, abort and assignment
      records, [StandbyRunning] that of a running-transactions record,
      [StandbyCompletion] which records move the counter of completions,
      [StandbyReplay] the primary as a step relation whose steps write
      records, and that replaying a record follows the step;
      [StandbyTheorems] has the guarantees.
    - [StandbyLogs]: the standby on top of [Clog], [Subtrans], [CommitTs] and
      [MultiXact], which discharge the laws that the files above assume of the
      logs.
    - [RunningData]: what a primary collects and logs for its standbys:
      [GetRunningTransactionData] and [LogStandbySnapshot].
    - [HeapTuple]: the visibility fields of [htup_details.h]; [ComboCid]:
      [combocid.c].
    - [MultiXactPages], [MultiXact]: [multixact.c], sets of transactions that
      lock or update one row, stored in two more logs: the layout of their
      pages, and all that creates, finds, limits, truncates and replays them.
      [MultiXactHistory] is the abstract store, a list of entries numbered
      without wraparound, and how the two logs represent it;
      [MultiXactTheorems] has creation and look-up, [MultiXactTruncate]
      truncation and limits.
    - [Visibility]: all of [heapam_visibility.c], with the multixact queries
      of [heapam.c] and [multixact.c].  [VisibilitySpec] states what the
      routines may assume of the other components (class [WorldLaws]), the
      meaning of a header and when hint bits tell the truth;
      [VisibilityTheorems] proves each routine against its specification;
      [VisibilityGuarantees] states the results.
    - [System]: all of it in one system of interleaved steps; the laws that
      visibility assumes are theorems there.

    ** How the code is rendered

    A record for each C structure, an inductive type for each enum, one
    definition for each function with the conditions and early returns of the
    source; loops are fixpoints on the list they walk over, or on fuel with a
    proof that the fuel given is enough.  32- and 64-bit arithmetic wraps
    around explicitly.  A function that may [ereport(ERROR)] returns the
    error.  Assertions are not code: where a proof needs one it is a
    hypothesis.  A function whose work is done under one lock is one atomic
    step of the state.  The logs are modelled down to the bits of a page, and
    a commit down to the single status change, because that is where
    atomicity is at stake.  The visibility routines take no lock on shared
    state, so there every question to another component is answered as of its
    own moment: class [World] gives the answers at each moment, and a routine
    advances a clock with each question.

    ** What the theorems show

    - Rows as of the snapshot ([System], [VisibilityGuarantees]): over every
      interleaving, [HeapTupleSatisfiesMVCC] shows exactly the rows whose
      inserter had committed when [GetSnapshotData] took the snapshot and
      whose deleter had not; it gives the same answer whenever it is asked;
      the other routines answer as of one moment of the call; hint bits are
      true and never reach disk before the commit record; what VACUUM removes
      nobody can see.
    - Running transactions ([SnapshotTheorems]): snapshots are exact, reuse is
      sound, what a snapshot leaves out stays finished, ending transactions
      ends those and no others, and horizons protect the readers they count.
    - Held snapshots ([SnapMgrTheorems], [PairingHeap]): whatever a backend
      calls and whatever others do, no freed snapshot is used, the horizons of
      all backends spare every snapshot that is held, a transaction above read
      committed keeps its verdicts, the advertised xmin advances when the last
      reference goes, the end of a transaction leaves nothing, and an import
      succeeds only while somebody protects the snapshot.
    - Handing snapshots on ([SnapshotExportTheorems]): an exported file is read
      back as the exporter's snapshot with the exporter's own ids as running,
      a failed export publishes nothing, a worker restores its leader's
      snapshot within the space estimated; and one case, an overflowed
      snapshot taken during recovery, in which an export loses the running
      ids.
    - Standbys ([StandbyLogs], [StandbyTheorems], [RunningData],
      [KnownAssignedTheorems], [StandbyLocks]): replaying everything that a primary logs simulates the
      primary, through crashes and checkpoints, down to the commit log of the
      standby whose pages are zeroed and truncated meanwhile; a snapshot on the
      standby, taken anew or used again, tells the truth about the primary as
      of the last record replayed and keeps doing so while replay goes on; a
      commit becomes visible all at once, whatever snapshot was used before; the running test answers as the primary would; what the primary
      collects opens its standbys; the array of known ids is a sorted list
      under every sequence of operations; the locks held are exactly those
      whose owners have not ended.
    - The logs ([Slru], [Clog], [Subtrans], [Transam]): committing a tree is
      atomic for every onlooker at every single bit change, lookups decide the
      recorded fate and terminate, reading through the cache loses no page,
      truncation keeps what is needed, WAL goes first.
    - Assignment ([NewXid], [CommitTs]): every assigned id has its page in each
      log and a blank entry when it is handed out, no entry of another id is
      lost, errors leave counter and array alone, ids are refused exactly past
      the stop limit; commit timestamps read back, are not truncated while
      needed and do not survive switching the module off.
    - Multixacts ([MultiXactTheorems], [MultiXactTruncate]): what is created is
      found again under its id by every process, through its cache or the
      pages, whatever others create meanwhile and wherever ids and offsets wrap
      around; a reader that has to wait for the next
      multixact is answered once it is stored; truncation up to a
      stored multixact takes nothing that is still needed (and up to one that
      is handed out but not stored it may, by example); space is refused exactly
      at the limit; and one race at the wraparound of the ids that hands out an
      id twice.
    - Ids and searches ([TransactionId], [Varsup], [CurrentXids], [ComboCid],
      [Search]): comparisons decide the order, limits stay within half the id
      space, the own-id test is exact in leader and worker, combo command ids
      decode to what was encoded, the vector search equals the plain loop.

    ** Bounds and fuel

    [recursion_fuel] in [Transam] and the fuel of [topmost_loop] in [Subtrans]
    are the distance of the id from [TransactionXmin] plus a constant: each
    step goes to an older parent, so they are never used up (theorems
    [did_commit_decides] and [topmost_terminates]).  The fuel of the loops in
    [Slru] is the number of slots or segments, that of [set_tree_loop] in
    [CommitTs] the number of subtransactions.  [SlruDeleteSegment] needs two
    passes ([SlruDelete]), [ExtendMultiXactMember] a round per page, the removal
    of member segments a round per segment; a look-up that waits is given the
    number of times it may wake up in vain ([wakes]).  Ids are in use within
    [0x7ffffff0] of the bound, which the limits of [Varsup] enforce; a history
    holds fewer than [0x7fffffff] multixacts, and its members end a segment
    before they begin again, which [offset_limit_kept] shows of the limit.
    The loops of [KnownAssigned] run over the slots of the array, its binary
    search has the number of slots as fuel, and the loops of [Standby] over
    ids have the distance between the ids, each round advancing by one.  The two
    passes of [merge_children] have the number of nodes in memory as fuel,
    which no list of siblings exceeds; numbers print with up to 20 decimal or
    16 hexadecimal digits, enough for 64 bits.

    ** Not modelled

    Locks, latches and memory barriers appear only as the atomicity of the
    steps.  This is coarser than the code in places: [GetSnapshotData] is one
    step although ids are assigned under another lock,
    [TransactionIdIsInProgress] is one although it asks the logs after it has
    released its lock, and so is [TruncateMultiXact], which does not exclude
    creation.  A failing call on a file has no partial effect, and failures of
    the final [close] and [fsync] are not told apart; an error that the code
    raises to PANIC in a critical section ([RecordNewMultiXact]) is an ordinary
    error.  [GetOldestNonRemovableTransactionId] is given the kind of horizon
    instead of the relation, and a member status that no enum value has is an
    error when it is read.  Error texts, statistics counters and debugging output have no
    effect on the modelled state.  Virtual transactions and recovery
    conflicts, the vacuum threshold of [multixact.c] that is computed in
    floating point, and the rest of the transaction state machine of [xact.c]
    are outside.  Of replay, invalidation messages, dropped files, the state files of
    prepared transactions, replication
    origins, flushing of the log, the control file, restart points, timelines
    and stop targets are left out.  The theorems on standbys assume that the
    logs at the redo point agree with the primary there, with no commit half
    recorded, that ids stay within [0x7ffffff0] of the oldest, that the commit
    log is truncated before them, that the 64-bit counter of completions does
    not wrap around, and that the ids of the subtransactions of
    prepared transactions were seen before a shutdown checkpoint; an array of
    known ids that is too small is an error they allow, and so is any error of
    the commit timestamps and multixacts, whose contents on the two sides are
    not compared.  Pages and buffers,
    WAL assembly, indexes, the executor, planner, parser and the processes
    around them need models of I/O and memory of their own.  The answers of
    components outside are arguments with the documented behaviour as
    hypotheses ([WorldLaws], [LockManagerLaws], [Environment],
    [PredicateLocksLaws] for [predicate.c], and an allocator that returns fresh
    addresses).  Of [snapmgr.c], the removal of exported files, the warnings
    about leaked snapshots and the SQL function are left out; a path is not
    cut at its maximal length.  The theorems on held snapshots are about a
    backend of a primary outside logical decoding, while no backend joins or
    leaves the array, with fewer than 2^32 references to a snapshot, and
    callers that pass on only what they hold.

    ** Plan

    Next is to discharge the law about members of [WorldLaws] from
    [MultiXactTheorems]. *)

From stdpp Require Export base numbers list gmap sorting.
From Stdlib Require Export ZArith Lia.

#[global] Open Scope Z_scope.

(** [lia] understands [/] and [mod] by constants throughout the development. *)
Ltac Zify.zify_post_hook ::= Z.div_mod_to_equations.

(** ** Machine integers

    A C unsigned integer of width [w] is a [Z] in [0 <= z < 2^w]; the
    conversions below are the C conversions to the fixed-width types. *)

Definition u8 (z : Z) : Z := z mod 0x100.
Definition u16 (z : Z) : Z := z mod 0x10000.
Definition u32 (z : Z) : Z := z mod 0x100000000.
Definition u64 (z : Z) : Z := z mod 0x10000000000000000.
Definition i32 (z : Z) : Z :=
  if u32 z <? 0x80000000 then u32 z else u32 z - 0x100000000.

Definition is_u8 (z : Z) : Prop := 0 <= z < 0x100.
Definition is_u16 (z : Z) : Prop := 0 <= z < 0x10000.
Definition is_u32 (z : Z) : Prop := 0 <= z < 0x100000000.
Definition is_u64 (z : Z) : Prop := 0 <= z < 0x10000000000000000.

(** Case analysis on every boolean comparison in sight, then arithmetic. *)
Ltac destruct_bools :=
  repeat match goal with
  | |- context [if ?b then _ else _] => destruct b eqn:?
  | H : context [if ?b then _ else _] |- _ => destruct b eqn:?
  end.

Ltac cint :=
  unfold i32, u8, u16, u32, u64, is_u8, is_u16, is_u32, is_u64 in *;
  destruct_bools; simpl in *; lia.

Create HintDb cint discriminated.

Lemma u32_range z : is_u32 (u32 z).
Proof. cint. Qed.
Lemma u64_range z : is_u64 (u64 z).
Proof. cint. Qed.
Lemma u8_range z : is_u8 (u8 z).
Proof. cint. Qed.
Lemma u32_small z : is_u32 z -> u32 z = z.
Proof. cint. Qed.
Lemma u64_small z : is_u64 z -> u64 z = z.
Proof. cint. Qed.
Lemma u8_small z : is_u8 z -> u8 z = z.
Proof. cint. Qed.
Lemma u32_u64 z : u32 (u64 z) = u32 z.
Proof. cint. Qed.
Lemma i32_range z : - 0x80000000 <= i32 z < 0x80000000.
Proof. cint. Qed.
Lemma i32_small z : - 0x80000000 <= z < 0x80000000 -> i32 z = z.
Proof. cint. Qed.
Lemma i32_congr z : exists k, i32 z = z + k * 0x100000000.
Proof.
  unfold i32, u32. destruct_bools.
  - exists (- (z / 0x100000000)). lia.
  - exists (- (z / 0x100000000) - 1). lia.
Qed.

#[export] Hint Resolve u8_range u32_range u64_range : cint.

(** ** Flag words

    [flag_set m f] is the C test [(m & f) != 0]. *)

Definition flag_set (m f : Z) : bool := negb (Z.land m f =? 0).

Lemma flag_set_lor m g f :
  flag_set (Z.lor m g) f = flag_set m f || flag_set g f.
Proof.
  unfold flag_set. rewrite Z.land_lor_distr_l.
  destruct (Z.land m f =? 0) eqn:E1, (Z.land g f =? 0) eqn:E2; simpl.
  - apply Z.eqb_eq in E1, E2. by rewrite E1, E2.
  - apply Z.eqb_eq in E1. apply Z.eqb_neq in E2. rewrite E1, Z.lor_0_l.
    by rewrite (proj2 (Z.eqb_neq _ _) E2).
  - apply Z.eqb_eq in E2. apply Z.eqb_neq in E1. rewrite E2, Z.lor_0_r.
    by rewrite (proj2 (Z.eqb_neq _ _) E1).
  - apply Z.eqb_neq in E1. apply Bool.negb_true_iff, Z.eqb_neq.
    rewrite Z.lor_eq_0_iff. tauto.
Qed.

(** A test against a mask disjoint from the bits being set is unaffected. *)
Lemma land_lor_disjoint m g f :
  Z.land g f = 0 -> Z.land (Z.lor m g) f = Z.land m f.
Proof. intros H. by rewrite Z.land_lor_distr_l, H, Z.lor_0_r. Qed.

(** Membership in explicit lists. *)
Ltac elem :=
  repeat first [rewrite elem_of_cons in * | rewrite elem_of_reverse in *]; tauto.

(** ** Arrays

    C arrays are lists indexed by [Z]; [znth] is only meaningful in range,
    and [zupd] writes one element. *)

Definition znth `{Inhabited A} (l : list A) (i : Z) : A := l !!! Z.to_nat i.
Definition zupd {A} (l : list A) (i : Z) (x : A) : list A := <[Z.to_nat i := x]> l.
Definition zlength {A} (l : list A) : Z := Z.of_nat (length l).

Section arrays.
Context `{Inhabited A}.
Implicit Types (l : list A) (i j : Z) (x : A).

Lemma zlength_zupd l i x : zlength (zupd l i x) = zlength l.
Proof. unfold zlength, zupd. by rewrite length_insert. Qed.

Lemma length_zupd l i x : length (zupd l i x) = length l.
Proof. apply length_insert. Qed.

Lemma znth_zupd_eq l i x : 0 <= i < zlength l -> znth (zupd l i x) i = x.
Proof.
  unfold zlength, znth, zupd. intros. apply list_lookup_total_insert_eq. lia.
Qed.

Lemma znth_zupd_ne l i j x : 0 <= i -> 0 <= j -> i <> j -> znth (zupd l i x) j = znth l j.
Proof.
  unfold znth, zupd. intros. apply list_lookup_total_insert_ne. lia.
Qed.
End arrays.

Lemma StronglySorted_lookup_total `{Inhabited A} (R : A -> A -> Prop) l (i k : nat) :
  StronglySorted R l -> (i < k)%nat -> (k < length l)%nat -> R (l !!! i) (l !!! k).
Proof.
  intros Hs. revert i k. induction Hs as [|x l Hs IH Hx]; intros i k Hik Hk; [simpl in Hk; lia|].
  destruct k as [|k]; [lia|]. destruct i as [|i]; simpl in *.
  - rewrite Forall_forall in Hx. apply Hx, list_elem_of_lookup_total_2. lia.
  - apply IH; lia.
Qed.

Create Rewrite HintDb arrays.
#[export] Hint Rewrite @zlength_zupd @length_zupd : arrays.

(** ** State with early return

    Most of the modelled C functions thread one mutable object and leave from
    the middle of nested conditionals.  [prog S R A] is a computation over a
    state [S] that either finishes with a value of type [A] or has executed a
    C [return] of type [R]. *)

Definition prog (S R A : Type) : Type := S -> S * (R + A).

Section prog.
Context {S R : Type}.

Definition pret {A} (a : A) : prog S R A := fun s => (s, inr a).
Definition preturn {A} (r : R) : prog S R A := fun s => (s, inl r).
Definition pbind {A B} (m : prog S R A) (k : A -> prog S R B) : prog S R B :=
  fun s => match m s with
           | (s', inl r) => (s', inl r)
           | (s', inr a) => k a s'
           end.
Definition pget {A} (f : S -> A) : prog S R A := fun s => (s, inr (f s)).
Definition pmod (f : S -> S) : prog S R unit := fun s => (f s, inr tt).
Definition pwhen (b : bool) (m : prog S R unit) : prog S R unit :=
  if b then m else pret tt.

Lemma pbind_assoc {A B C} (m : prog S R A) (k1 : A -> prog S R B) (k2 : B -> prog S R C) s :
  pbind (pbind m k1) k2 s = pbind m (fun a => pbind (k1 a) k2) s.
Proof. unfold pbind. by destruct (m s) as [s' [r|a]]. Qed.

Lemma pbind_run {A B} (m : prog S R A) (k : A -> prog S R B) s s' a : m s = (s', inr a) -> pbind m k s = k a s'.
Proof. unfold pbind. by intros ->. Qed.
End prog.

(** Run a whole function body: every path ends in [preturn]. *)
Definition prun {S R} (m : prog S R R) (s : S) : R * S :=
  match m s with (s', inl r) => (r, s') | (s', inr r) => (r, s') end.

(** The postcondition [Q] of a computation from state [s]: of its value, or of
    the value it returned early. *)
Definition wp {S R A} (m : prog S R A) (Q : R + A -> S -> Prop) (s : S) : Prop := Q (m s).2 (m s).1.

Lemma wp_bind {S R A B} (m : prog S R A) (k : A -> prog S R B) Q s :
  wp m (fun o s' => match o with inl r => Q (inl r) s' | inr a => wp (k a) Q s' end) s -> wp (pbind m k) Q s.
Proof. unfold wp, pbind. by destruct (m s) as [s' [r|a]]. Qed.

Lemma wp_ret {S R A} (a : A) (Q : R + A -> S -> Prop) s : Q (inr a) s -> wp (pret a) Q s.
Proof. done. Qed.
Lemma wp_return {S R A} (r : R) (Q : R + A -> S -> Prop) s : Q (inl r) s -> wp (preturn r) Q s.
Proof. done. Qed.
Lemma wp_get {S R A} (f : S -> A) (Q : R + A -> S -> Prop) s : Q (inr (f s)) s -> wp (pget f) Q s.
Proof. done. Qed.
Lemma wp_mod {S R} (f : S -> S) (Q : R + unit -> S -> Prop) s : Q (inr tt) (f s) -> wp (pmod f) Q s.
Proof. done. Qed.

Lemma wp_mono {S R A} (m : prog S R A) (Q Q' : R + A -> S -> Prop) s :
  (forall o s', Q o s' -> Q' o s') -> wp m Q s -> wp m Q' s.
Proof. intros H. apply H. Qed.

Lemma wp_prun {S R} (m : prog S R R) (Q : R -> S -> Prop) s :
  wp m (fun o s' => match o with inl r | inr r => Q r s' end) s -> Q (prun m s).1 (prun m s).2.
Proof. unfold wp, prun. by destruct (m s) as [s' [r|r]]. Qed.

(** A run whose result is known by evaluation. *)
Lemma result_eq {S R} (p : S * R) r : p.2 = r -> p = (p.1, r).
Proof. by destruct p; intros <-. Qed.

Declare Scope prog_scope.
Delimit Scope prog_scope with prog.
Notation "x <- m ;; k" := (pbind m (fun x => k))
  (at level 100, m at next level, right associativity) : prog_scope.
Notation "m ;;; k" := (pbind m (fun _ => k))
  (at level 100, right associativity) : prog_scope.
