(* ===== verification/Search.v ===== *)
(** * Searching arrays of transaction ids

    [pg_lfind32] of [src/include/port/pg_lfind.h] with the 128-bit vector
    operations of [src/include/port/simd.h] it uses (four 32-bit lanes), and
    the two binary searches that the transaction code writes out in line.
    An array is a list and a pointer into it is an offset. *)

From S2P Require Import Prelude.

(** ** Vectors *)

Definition nelem_per_vector : nat := 4.
Definition Vector32 : Type := list Z.

Definition vector32_load (base : list Z) (off : nat) : Vector32 := take nelem_per_vector (drop off base).
Definition vector32_broadcast (c : Z) : Vector32 := replicate nelem_per_vector c.
Definition vector32_eq (v1 v2 : Vector32) : Vector32 :=
  zip_with (fun a b => if a =? b then 0xffffffff else 0) v1 v2.
Definition vector32_or (v1 v2 : Vector32) : Vector32 := zip_with Z.lor v1 v2.

(** The test looks at the high bit of every byte. *)
Definition vector32_is_highbit_set (v : Vector32) : bool :=
  existsb (fun a => Z.testbit a 7 || Z.testbit a 15 || Z.testbit a 23 || Z.testbit a 31) v.

(** ** Linear search *)

Fixpoint pg_lfind32_one_by_one_helper (key : Z) (base : list Z) (nelem : nat) : bool :=
  match nelem, base with
  | S nelem, b :: base => if key =? b then true else pg_lfind32_one_by_one_helper key base nelem
  | _, _ => false
  end.

Definition pg_lfind32_simd_helper (keys : Vector32) (base : list Z) (off : nat) : bool :=
  let vals1 := vector32_load base off in
  let vals2 := vector32_load base (off + nelem_per_vector) in
  let vals3 := vector32_load base (off + nelem_per_vector * 2) in
  let vals4 := vector32_load base (off + nelem_per_vector * 3) in
  let result1 := vector32_eq keys vals1 in
  let result2 := vector32_eq keys vals2 in
  let result3 := vector32_eq keys vals3 in
  let result4 := vector32_eq keys vals4 in
  let tmp1 := vector32_or result1 result2 in
  let tmp2 := vector32_or result3 result4 in
  let result := vector32_or tmp1 tmp2 in
  vector32_is_highbit_set result.

Definition nelem_per_iteration : nat := 4 * nelem_per_vector.

(** The do-while loop over whole blocks; [true] when it returned from inside.
    Each iteration advances by a block, so the array's length is enough fuel. *)
Fixpoint lfind32_blocks (fuel : nat) (keys : Vector32) (base : list Z) (i tail_idx : nat) : bool :=
  match fuel with
  | O => false
  | S fuel =>
      if pg_lfind32_simd_helper keys base i then true
      else let i := (i + nelem_per_iteration)%nat in
           if (i <? tail_idx)%nat then lfind32_blocks fuel keys base i tail_idx else false
  end.

Definition pg_lfind32 (key : Z) (base : list Z) (nelem : nat) : bool :=
  let keys := vector32_broadcast key in
  let tail_idx := Z.to_nat (Z.ldiff (Z.of_nat nelem) (Z.of_nat nelem_per_iteration - 1)) in
  if (nelem <? nelem_per_iteration)%nat then pg_lfind32_one_by_one_helper key base nelem
  else if lfind32_blocks nelem keys base 0 tail_idx then true
  else pg_lfind32_simd_helper keys base (nelem - nelem_per_iteration).

(** ** Binary search

    [while (low <= high)] with [probe = a[middle]]; [eq] and [lt] are the two
    comparisons the caller uses.  The interval shrinks at every step. *)
Fixpoint binary_search (fuel : nat) (eq lt : Z -> Z -> bool) (a : list Z) (xid low high : Z) : bool :=
  match fuel with
  | O => false
  | S fuel =>
      if low <=? high then
        let middle := low + (high - low) / 2 in
        let probe := znth a middle in
        if eq probe xid then true
        else if lt probe xid then binary_search fuel eq lt a xid (middle + 1) high
        else binary_search fuel eq lt a xid low (middle - 1)
      else false
  end.

(** ** Correctness *)

Lemma one_by_one_spec key base nelem :
  pg_lfind32_one_by_one_helper key base nelem = existsb (Z.eqb key) (take nelem base).
Proof.
  revert base. induction nelem as [|n IH]; intros [|b base]; try done. simpl. rewrite IH. by destruct (key =? b).
Qed.

Lemma load_lanes base off : (off + nelem_per_vector <= length base)%nat ->
  exists a b c d, vector32_load base off = [a; b; c; d].
Proof.
  unfold vector32_load, nelem_per_vector. intros H.
  assert (length (drop off base) >= 4)%nat as Hl by (rewrite length_drop; lia).
  destruct (drop off base) as [|a [|b [|c [|d l]]]]; simpl in Hl; try lia.
  by exists a, b, c, d.
Qed.

Lemma block_split base off :
  take nelem_per_iteration (drop off base) =
  vector32_load base off ++ vector32_load base (off + nelem_per_vector) ++
  vector32_load base (off + nelem_per_vector * 2) ++ vector32_load base (off + nelem_per_vector * 3).
Proof.
  unfold vector32_load, nelem_per_iteration, nelem_per_vector.
  assert (forall n, drop (off + n) base = drop n (drop off base)) as Hd.
  { intros n. rewrite drop_drop. done. }
  rewrite !Hd. generalize (drop off base). intros l.
  change (4 * 4)%nat with (4 + (4 + (4 + 4)))%nat.
  by do 12 (destruct l as [|? l]; [done|]).
Qed.

(** One lane of the combined comparison. *)
Lemma lane_spec key a b c d :
  let l x := if key =? x then 0xffffffff else 0 in
  let r := Z.lor (Z.lor (l a) (l b)) (Z.lor (l c) (l d)) in
  Z.testbit r 7 || Z.testbit r 15 || Z.testbit r 23 || Z.testbit r 31
  = (key =? a) || (key =? b) || (key =? c) || (key =? d).
Proof. simpl. by destruct (key =? a), (key =? b), (key =? c), (key =? d). Qed.

Lemma simd_helper_spec key base off : (off + nelem_per_iteration <= length base)%nat ->
  pg_lfind32_simd_helper (vector32_broadcast key) base off
  = existsb (Z.eqb key) (take nelem_per_iteration (drop off base)).
Proof.
  intros H. rewrite block_split. unfold pg_lfind32_simd_helper, nelem_per_iteration, nelem_per_vector in *.
  destruct (load_lanes base off) as (a1 & a2 & a3 & a4 & ->); [unfold nelem_per_vector; lia|].
  destruct (load_lanes base (off + 4)) as (b1 & b2 & b3 & b4 & ->); [unfold nelem_per_vector; lia|].
  destruct (load_lanes base (off + 4 * 2)) as (c1 & c2 & c3 & c4 & ->); [unfold nelem_per_vector; lia|].
  destruct (load_lanes base (off + 4 * 3)) as (d1 & d2 & d3 & d4 & ->); [unfold nelem_per_vector; lia|].
  unfold vector32_is_highbit_set, vector32_broadcast, vector32_eq, vector32_or, nelem_per_vector.
  cbn [replicate zip_with existsb app].
  rewrite !lane_spec. repeat rewrite orb_false_r. repeat rewrite orb_assoc.
  apply eq_true_iff_eq. rewrite !orb_true_iff. tauto.
Qed.

(** What the search of a stretch of the array decides. *)
Lemma existsb_range key (base : list Z) off n :
  existsb (Z.eqb key) (take n (drop off base)) = true
  <-> exists i, (off <= i < off + n)%nat /\ base !! i = Some key.
Proof.
  rewrite existsb_exists. setoid_rewrite <- list_elem_of_In. split.
  - intros (x & Hx & <-%Z.eqb_eq). apply list_elem_of_lookup in Hx as [i Hi].
    apply lookup_take_Some in Hi as [Hi Hn]. rewrite lookup_drop in Hi.
    exists (off + i)%nat. split; [lia|done].
  - intros (i & Hi & Hl). exists key. split; [|apply Z.eqb_refl].
    apply list_elem_of_lookup. exists (i - off)%nat. apply lookup_take_Some. split; [|lia].
    rewrite lookup_drop. by replace (off + (i - off))%nat with i by lia.
Qed.

Lemma existsb_app_drop key (base : list Z) off i n :
  existsb (Z.eqb key) (take (n + i) (drop off base)) =
  existsb (Z.eqb key) (take i (drop off base)) || existsb (Z.eqb key) (take n (drop (off + i) base)).
Proof.
  apply eq_true_iff_eq. rewrite orb_true_iff, !existsb_range. split.
  - intros (j & Hj & Hl). destruct (decide (j < off + i)%nat); [left|right]; exists j; (split; [lia|done]).
  - intros [(j & Hj & Hl)|(j & Hj & Hl)]; exists j; (split; [lia|done]).
Qed.

Lemma lfind32_blocks_spec key base tail_idx fuel : forall i k,
  (tail_idx <= length base)%nat -> tail_idx = (i + S k * nelem_per_iteration)%nat -> (k < fuel)%nat ->
  lfind32_blocks fuel (vector32_broadcast key) base i tail_idx
  = existsb (Z.eqb key) (take (S k * nelem_per_iteration) (drop i base)).
Proof.
  unfold nelem_per_iteration, nelem_per_vector.
  induction fuel as [|fuel IH]; intros i k Hlen Ht Hk; [lia|].
  cbn [lfind32_blocks]. rewrite simd_helper_spec by (unfold nelem_per_iteration, nelem_per_vector; lia).
  unfold nelem_per_iteration, nelem_per_vector. change (4 * 4)%nat with 16%nat in *.
  replace (S k * 16)%nat with (k * 16 + 16)%nat by lia. rewrite existsb_app_drop.
  destruct (existsb (Z.eqb key) (take 16 (drop i base))) eqn:E; [done|].
  destruct k as [|k].
  - rewrite (proj2 (Nat.ltb_ge _ _)) by lia. done.
  - rewrite (proj2 (Nat.ltb_lt _ _)) by lia. rewrite (IH _ k) by lia. done.
Qed.

Lemma round_down n : (16 <= n)%nat ->
  exists k, Z.to_nat (Z.ldiff (Z.of_nat n) 15) = (S k * 16)%nat /\ (S k * 16 <= n < S k * 16 + 16)%nat.
Proof.
  intros H. exists (Z.to_nat (Z.of_nat n / 16) - 1)%nat.
  change 15 with (Z.ones 4). rewrite Z.ldiff_ones_r, Z.shiftr_div_pow2, Z.shiftl_mul_pow2 by lia.
  change (2 ^ 4) with 16. split; lia.
Qed.

Lemma lfind32_spec key base nelem : (nelem <= length base)%nat ->
  pg_lfind32 key base nelem = existsb (Z.eqb key) (take nelem base).
Proof.
  intros Hlen. unfold pg_lfind32.
  destruct (Nat.ltb_spec nelem nelem_per_iteration) as [|Hge]; [apply one_by_one_spec|].
  destruct (round_down nelem Hge) as (k & Et & Hk).
  change (Z.of_nat nelem_per_iteration - 1) with 15. rewrite Et.
  rewrite (lfind32_blocks_spec key base _ nelem 0 k)
    by (unfold nelem_per_iteration, nelem_per_vector; lia).
  rewrite simd_helper_spec by (unfold nelem_per_iteration, nelem_per_vector in *; lia).
  unfold nelem_per_iteration, nelem_per_vector in *. change (4 * 4)%nat with 16%nat in *.
  rewrite <- (drop_0 base) at 3. apply eq_true_iff_eq.
  trans (existsb (Z.eqb key) (take (S k * 16) (drop 0 base))
         || existsb (Z.eqb key) (take 16 (drop (nelem - 16) base)) = true).
  { by destruct (existsb _ (take (S k * 16) _)). }
  rewrite orb_true_iff, !existsb_range. split.
  - intros [(i & Hi & Hl)|(i & Hi & Hl)]; exists i; (split; [lia|done]).
  - intros (i & Hi & Hl). destruct (decide (i < S k * 16)%nat); [left|right]; exists i; (split; [lia|done]).
Qed.

(** ** The binary search

    It only answers yes for an element, and it finds element [j] when the
    elements before it compare less and those after it do not. *)

Section binary_search.
Context (lt : Z -> Z -> bool) (a : list Z) (xid : Z).

Lemma binary_search_sound fuel : forall low high, 0 <= low -> high < zlength a ->
  binary_search fuel Z.eqb lt a xid low high = true -> xid ∈ a.
Proof.
  induction fuel as [|fuel IH]; intros low high Hl Hh; [done|]. cbn [binary_search].
  destruct (Z.leb_spec low high); [|done].
  destruct (Z.eqb_spec (znth a (low + (high - low) / 2)) xid) as [<-|].
  - intros _. unfold znth, zlength in *. apply list_elem_of_lookup_total_2. lia.
  - destruct (lt _ _); apply IH; lia.
Qed.

Lemma binary_search_complete fuel j : forall low high,
  0 <= low <= j -> j <= high -> high - low < Z.of_nat fuel -> znth a j = xid ->
  (forall i, low <= i < j -> lt (znth a i) xid = true) ->
  (forall i, j < i <= high -> lt (znth a i) xid = false) ->
  binary_search fuel Z.eqb lt a xid low high = true.
Proof.
  induction fuel as [|fuel IH]; intros low high Hl Hh Hf Hj Hlt Hgt; [lia|]. cbn [binary_search].
  rewrite (proj2 (Z.leb_le low high)) by lia.
  set (middle := low + (high - low) / 2). assert (low <= middle <= high) by (unfold middle; lia).
  destruct (Z.eqb_spec (znth a middle) xid) as [|Hne]; [done|].
  assert (middle <> j) by congruence. assert (middle < j \/ j < middle) as [Hm|Hm] by lia.
  - rewrite Hlt by lia. apply IH; auto with lia.
  - rewrite Hgt by lia. apply IH; auto with lia.
Qed.

(** The whole array, strictly sorted by a rank that [lt] compares. *)
Lemma binary_search_sorted (r : Z -> Z) :
  (xid ∈ a -> StronglySorted (fun x y => r x < r y) a /\
              forall x, x ∈ a -> lt x xid = (r x <? r xid)) ->
  binary_search (S (length a)) Z.eqb lt a xid 0 (zlength a - 1) = true <-> xid ∈ a.
Proof.
  intros H. split; [apply binary_search_sound; unfold zlength; lia|]. intros Hin. destruct (H Hin) as [Hs Hlt].
  pose proof Hin as [j Hj]%list_elem_of_lookup. pose proof (lookup_lt_Some _ _ _ Hj) as Hjl.
  assert (forall i k, (i < k)%nat -> (k < length a)%nat -> r (a !!! i) < r (a !!! k)) as Hmono.
  { intros i k Hik Hk. by apply (StronglySorted_lookup_total (fun x y => r x < r y)). }
  assert (znth a (Z.of_nat j) = xid) as Ej.
  { unfold znth. rewrite Nat2Z.id. by apply list_lookup_total_correct. }
  apply (binary_search_complete _ (Z.of_nat j)); unfold zlength, znth in *; try lia.
  - intros i Hi. rewrite Hlt; [|apply list_elem_of_lookup_total_2; lia].
    apply Z.ltb_lt. rewrite <- Ej. apply Hmono; lia.
  - intros i Hi. rewrite Hlt; [|apply list_elem_of_lookup_total_2; lia].
    apply Z.ltb_ge. rewrite <- Ej. apply Z.lt_le_incl, Hmono; lia.
Qed.
End binary_search.

(** C40. The vectorised search finds the key exactly when the one-by-one
    search does, for every array and every length: neither the blocks nor the
    overlapping last block miss or invent an element. *)
Theorem lfind32_is_linear_search key base nelem :
  (nelem <= length base)%nat ->
  pg_lfind32 key base nelem = pg_lfind32_one_by_one_helper key base nelem /\
  (pg_lfind32 key base nelem = true <-> key ∈ take nelem base).
Proof.
  intros Hlen. rewrite lfind32_spec by done. split; [by rewrite one_by_one_spec|].
  rewrite existsb_exists. split.
  - intros (x & Hx & ->%Z.eqb_eq). by apply list_elem_of_In.
  - intros H. exists key. split; [by apply list_elem_of_In|apply Z.eqb_refl].
Qed.

Lemma lfind32_is_linear_search_witness :
  pg_lfind32 118 (seqZ 100 19) 19 = true /\ 118 ∈ take 19 (seqZ 100 19).
Proof.
  destruct (lfind32_is_linear_search 118 (seqZ 100 19) 19) as [_ H].
  - vm_compute. lia.
  - assert (pg_lfind32 118 (seqZ 100 19) 19 = true) as E by (vm_compute; reflexivity).
    split; [exact E|by apply H].
Defined.

(** The form in which the other components use the search. *)
Lemma lfind32_elem key l : pg_lfind32 key l (length l) = true <-> key ∈ l.
Proof.
  rewrite lfind32_spec by lia. rewrite take_ge, existsb_exists by done. split.
  - intros (x & Hx & ->%Z.eqb_eq). by apply list_elem_of_In.
  - intros H. exists key. split; [by apply list_elem_of_In|apply Z.eqb_refl].
Qed.
