(* ===== verification/PairingHeap.v ===== *)
(** * Pairing heaps

    [src/backend/lib/pairingheap.c] on the pointers it works with.  A node is
    a struct embedded in the caller's data; here the address of the node
    stands for the address of its container, and the memory that holds the
    nodes is a finite map.  Reading through NULL or an unknown address is a
    fault, and the specifications show that none happens.

    The first child and the next sibling of a node make the heap a binary
    tree with pointers back to the parent: [forest] is that tree, [repr] says
    that memory holds it, and every operation is shown to do on memory what a
    function on trees does.  The loops of [merge_children] run on fuel; the
    number of nodes in memory is enough. *)

From S2P Require Import Prelude.

Record pairingheap_node := MkNode {
  first_child : option positive;
  next_sibling : option positive;
  prev_or_parent : option positive;
}.

Notation Nodes := (gmap positive pairingheap_node).

Definition with_first_child (v : option positive) (n : pairingheap_node) : pairingheap_node :=
  MkNode v (next_sibling n) (prev_or_parent n).
Definition with_next_sibling (v : option positive) (n : pairingheap_node) : pairingheap_node :=
  MkNode (first_child n) v (prev_or_parent n).
Definition with_prev_or_parent (v : option positive) (n : pairingheap_node) : pairingheap_node :=
  MkNode (first_child n) (next_sibling n) v.

(** ** The operations *)

Section operations.
Context {R : Type} (fault : R) (ph_compare : positive -> positive -> Z).
Open Scope prog_scope.

Definition load (p : option positive) : prog Nodes R pairingheap_node := fun h =>
  match p with
  | Some x => match h !! x with Some n => (h, inr n) | None => (h, inl fault) end
  | None => (h, inl fault)
  end.

Definition store (p : option positive) (f : pairingheap_node -> pairingheap_node) : prog Nodes R unit := fun h =>
  match p with
  | Some x => match h !! x with Some n => (<[x := f n]> h, inr tt) | None => (h, inl fault) end
  | None => (h, inl fault)
  end.

Definition is_null (p : option positive) : bool := if p is None then true else false.

Definition merge (a b : option positive) : prog Nodes R (option positive) :=
  match a, b with
  | None, _ => pret b
  | _, None => pret a
  | Some x, Some y =>
      let '(a, b) := if ph_compare x y <? 0 then (b, a) else (a, b) in
      na <- load a ;;
      pwhen (negb (is_null (first_child na))) (store (first_child na) (with_prev_or_parent b)) ;;;
      store b (with_prev_or_parent a) ;;;
      na <- load a ;;
      store b (with_next_sibling (first_child na)) ;;;
      store a (with_first_child b) ;;;
      pret a
  end.

(** The first pass of [merge_children]: pairs from left to right. *)
Fixpoint merge_pairs (fuel : nat) (next pairs : option positive) : prog Nodes R (option positive) :=
  match fuel with
  | O => preturn fault
  | S fuel =>
      let curr := next in
      if is_null curr then pret pairs
      else
        nc <- load curr ;;
        if is_null (next_sibling nc) then store curr (with_next_sibling pairs) ;;; pret curr
        else
          nn <- load (next_sibling nc) ;;
          let next := next_sibling nn in
          curr <- merge curr (next_sibling nc) ;;
          store curr (with_next_sibling pairs) ;;;
          merge_pairs fuel next curr
  end.

(** The second pass: everything into one heap. *)
Fixpoint merge_list (fuel : nat) (newroot next : option positive) : prog Nodes R (option positive) :=
  match fuel with
  | O => preturn fault
  | S fuel =>
      if is_null next then pret newroot
      else
        let curr := next in
        nc <- load curr ;;
        newroot <- merge newroot curr ;;
        merge_list fuel newroot (next_sibling nc)
  end.

Definition merge_children (children : option positive) : prog Nodes R (option positive) :=
  if is_null children then pret children
  else
    nc <- load children ;;
    if is_null (next_sibling nc) then pret children
    else
      fuel <- pget (fun h : Nodes => S (size h)) ;;
      pairs <- merge_pairs fuel children None ;;
      np <- load pairs ;;
      merge_list fuel pairs (next_sibling np).

(** The heap is its root. *)
Definition detach_root (root : option positive) : prog Nodes R unit :=
  store root (with_prev_or_parent None) ;;; store root (with_next_sibling None).

Definition pairingheap_add (ph_root : option positive) (node : positive) : prog Nodes R (option positive) :=
  store (Some node) (with_first_child None) ;;;
  root <- merge ph_root (Some node) ;;
  detach_root root ;;;
  pret root.

Definition pairingheap_first (ph_root : option positive) : option positive := ph_root.
Definition pairingheap_is_empty (ph_root : option positive) : bool := is_null ph_root.

Definition pairingheap_is_singular (ph_root : option positive) : prog Nodes R bool :=
  if is_null ph_root then pret false
  else nr <- load ph_root ;; pret (is_null (first_child nr)).

(** The new root and the node that was removed. *)
Definition pairingheap_remove_first (ph_root : option positive) : prog Nodes R (option positive * option positive) :=
  nr <- load ph_root ;;
  root <- merge_children (first_child nr) ;;
  pwhen (negb (is_null root)) (detach_root root) ;;;
  pret (root, ph_root).

(** A node that is not the root.  [prev_ptr] is a field of the previous
    sibling or of the parent, as a way to set it. *)
Definition unlink_node (node : positive) : prog Nodes R unit :=
  nn <- load (Some node) ;;
  np <- load (prev_or_parent nn) ;;
  let prev_ptr := if decide (first_child np = Some node) then with_first_child else with_next_sibling in
  if negb (is_null (first_child nn)) then
    replacement <- merge_children (first_child nn) ;;
    node_now <- load (Some node) ;;
    store replacement (with_prev_or_parent (prev_or_parent node_now)) ;;;
    store replacement (with_next_sibling (next_sibling node_now)) ;;;
    store (prev_or_parent nn) (prev_ptr replacement) ;;;
    pwhen (negb (is_null (next_sibling nn))) (store (next_sibling nn) (with_prev_or_parent replacement))
  else
    store (prev_or_parent nn) (prev_ptr (next_sibling nn)) ;;;
    pwhen (negb (is_null (next_sibling nn))) (store (next_sibling nn) (with_prev_or_parent (prev_or_parent nn))).

Definition pairingheap_remove (ph_root : option positive) (node : positive) : prog Nodes R (option positive) :=
  if decide (ph_root = Some node) then
    r <- pairingheap_remove_first ph_root ;; pret r.1
  else
    unlink_node node ;;; pret ph_root.
End operations.

(** ** The trees *)

(** A list of sibling trees: the first node, its children, its siblings. *)
Inductive forest := Leaf | Tree (x : positive) (children siblings : forest).

Definition head (f : forest) : option positive := if f is Tree x _ _ then Some x else None.

Fixpoint elems (f : forest) : list positive :=
  match f with Leaf => [] | Tree x c r => x :: elems c ++ elems r end.

Notation tree := (positive * forest)%type.

Definition tree_elems (t : tree) : list positive := t.1 :: elems t.2.

Section trees.
Context (ph_compare : positive -> positive -> Z).

Definition merge_tree (s t : tree) : tree :=
  if ph_compare s.1 t.1 <? 0 then (t.1, Tree s.1 s.2 t.2) else (s.1, Tree t.1 t.2 s.2).

Fixpoint pair_up (f acc : forest) : forest :=
  match f with
  | Leaf => acc
  | Tree x c Leaf => Tree x c acc
  | Tree x c (Tree y d r) =>
      let t := merge_tree (x, c) (y, d) in pair_up r (Tree t.1 t.2 acc)
  end.

Fixpoint fold_up (t : tree) (f : forest) : tree :=
  match f with Leaf => t | Tree y d r => fold_up (merge_tree t (y, d)) r end.

Definition combine (f : forest) : option tree :=
  match pair_up f Leaf with Leaf => None | Tree x c r => Some (fold_up (x, c) r) end.

(** One tree put in front of its siblings. *)
Definition tree_cons (t : option tree) (r : forest) : forest :=
  match t with Some t => Tree t.1 t.2 r | None => r end.

Fixpoint remove_tree (x : positive) (f : forest) : forest :=
  match f with
  | Leaf => Leaf
  | Tree y c r => if decide (y = x) then tree_cons (combine c) r else Tree y (remove_tree x c) (remove_tree x r)
  end.

(** What these functions keep: the elements. *)
Lemma merge_tree_elems s t : tree_elems (merge_tree s t) ≡ₚ tree_elems s ++ tree_elems t.
Proof.
  destruct s as [x c], t as [y d]. unfold merge_tree, tree_elems. case_match; cbn.
  - by rewrite perm_swap, <- Permutation_middle.
  - by rewrite (Permutation_app_comm (elems c)).
Qed.

Lemma forest_ind2 (P : forest -> Prop) :
  P Leaf -> (forall x c, P (Tree x c Leaf)) -> (forall x c y d r, P r -> P (Tree x c (Tree y d r))) -> forall f, P f.
Proof.
  intros H0 H1 H2. fix IH 1. intros [|x c [|y d r]]; [done | apply H1 |]. apply H2, IH.
Qed.

Lemma pair_up_elems f : forall acc, elems (pair_up f acc) ≡ₚ elems f ++ elems acc.
Proof.
  induction f as [|x c|x c y d r IH] using forest_ind2; intros acc; cbn; [done|by rewrite app_nil_r|].
  rewrite IH. pose proof (merge_tree_elems (x, c) (y, d)) as Hm. unfold tree_elems in Hm. cbn in Hm |- *.
  rewrite app_comm_cons, Hm. cbn. solve_Permutation.
Qed.

Lemma fold_up_elems f : forall t, tree_elems (fold_up t f) ≡ₚ tree_elems t ++ elems f.
Proof.
  induction f as [|y d _ r IH]; intros t; cbn [fold_up elems]; [by rewrite app_nil_r|].
  by rewrite IH, merge_tree_elems, <- app_assoc.
Qed.

Definition opt_tree_elems (t : option tree) : list positive := match t with Some t => tree_elems t | None => [] end.

Lemma combine_elems f : opt_tree_elems (combine f) ≡ₚ elems f.
Proof.
  pose proof (pair_up_elems f Leaf) as H. cbn in H. rewrite app_nil_r in H. rewrite <- H. unfold combine.
  destruct (pair_up f Leaf); cbn; [done|]. by rewrite fold_up_elems.
Qed.

Lemma tree_cons_elems t r : elems (tree_cons t r) = opt_tree_elems t ++ elems r.
Proof. by destruct t. Qed.

Lemma remove_tree_notin x f : x ∉ elems f -> remove_tree x f = f.
Proof.
  induction f as [|y c IHc r IHr]; cbn; [done|]. intros H. rewrite decide_False by set_solver.
  by rewrite IHc, IHr by set_solver.
Qed.

Lemma remove_tree_elems x f : NoDup (elems f) -> x ∈ elems f -> elems f ≡ₚ x :: elems (remove_tree x f).
Proof.
  induction f as [|y c IHc r IHr]; cbn; [set_solver|]. rewrite NoDup_cons, NoDup_app. intros (Hy & Hc & Hd & Hr) Hx.
  destruct (decide (y = x)) as [->|Hne].
  - by rewrite tree_cons_elems, combine_elems.
  - cbn. rewrite perm_swap. apply perm_skip. destruct (decide (x ∈ elems c)) as [Hin|Hout].
    + rewrite (remove_tree_notin x r) by auto. by rewrite (IHc Hc Hin) at 1.
    + rewrite (remove_tree_notin x c) by done. rewrite IHr at 1 by set_solver. by rewrite Permutation_middle.
Qed.
End trees.

(** ** The heap order

    The root is a node with the largest key; [ph_compare] only has to agree
    with the keys on the nodes in question. *)

Section order.
Context (key : positive -> Z) (ph_compare : positive -> positive -> Z).

(** Nothing below a node exceeds it, nor the bound. *)
Fixpoint bounded (k : Z) (f : forest) : Prop :=
  match f with Leaf => True | Tree x c r => key x <= k /\ bounded (key x) c /\ bounded k r end.

Fixpoint ordered (f : forest) : Prop :=
  match f with Leaf => True | Tree x c r => bounded (key x) c /\ ordered r end.

Lemma bounded_elem k f : bounded k f -> forall y, y ∈ elems f -> key y <= k.
Proof.
  revert k. induction f as [|x c IHc r IHr]; cbn; [set_solver|]. intros k (Hx & Hc & Hr) y.
  rewrite elem_of_cons, elem_of_app. intros [->|[H|H]]; [done| |eauto]. specialize (IHc _ Hc y H). lia.
Qed.

Lemma bounded_ordered k f : bounded k f -> ordered f.
Proof. induction f; cbn; intuition. Qed.

Lemma ordered_bounded k f : ordered f -> (forall y, y ∈ elems f -> key y <= k) -> bounded k f.
Proof. induction f as [|x c _ r IH]; cbn; [done|]. intros [Hc Hr] Hk. split; [|split; [done|]]; [|apply IH; [done|]]; set_solver. Qed.

Definition compares (x y : positive) : Prop := (ph_compare x y <? 0) = (key x <? key y).
Definition compares_all (l : list positive) : Prop := forall x y, x ∈ l -> y ∈ l -> compares x y.

Lemma compares_all_sub l l' : l' ⊆ l -> compares_all l -> compares_all l'.
Proof. unfold compares_all. set_solver. Qed.

Definition tree_ordered (t : tree) : Prop := bounded (key t.1) t.2.

Lemma merge_tree_ordered s t : compares s.1 t.1 -> tree_ordered s -> tree_ordered t ->
  tree_ordered (merge_tree ph_compare s t).
Proof.
  destruct s as [x c], t as [y d]. unfold compares, merge_tree, tree_ordered. cbn. intros -> Hs Ht.
  destruct (Z.ltb_spec (key x) (key y)); cbn; repeat split; try done; lia.
Qed.

Lemma pair_up_ordered f : forall acc, compares_all (elems f) -> ordered f -> ordered acc ->
  ordered (pair_up ph_compare f acc).
Proof.
  induction f as [|x c|x c y d r IH] using forest_ind2; intros acc Hk Hf Ha; cbn in Hf |- *; [done|intuition|].
  destruct Hf as (Hc & Hd & Hr). apply IH; [|done|].
  - eapply compares_all_sub; [|exact Hk]. cbn. set_solver.
  - split; [|done]. apply (merge_tree_ordered (x, c) (y, d)); [|done..]. apply Hk; cbn; set_solver.
Qed.

Lemma fold_up_ordered f : forall t, compares_all (tree_elems t ++ elems f) -> tree_ordered t -> ordered f ->
  tree_ordered (fold_up ph_compare t f).
Proof.
  induction f as [|y d _ r IH]; intros t Hk Ht Hf; cbn; [done|]. destruct Hf as [Hd Hr]. apply IH; [| |done].
  - eapply compares_all_sub; [|exact Hk]. intros z. rewrite merge_tree_elems. cbn. unfold tree_elems. cbn. set_solver.
  - apply merge_tree_ordered; [|done..]. apply Hk; cbn; unfold tree_elems; set_solver.
Qed.

Lemma combine_ordered f t : compares_all (elems f) -> ordered f -> combine ph_compare f = Some t -> tree_ordered t.
Proof.
  intros Hk Hf. unfold combine. pose proof (pair_up_ordered f Leaf Hk Hf I) as Ho.
  pose proof (pair_up_elems ph_compare f Leaf) as He. cbn in He. rewrite app_nil_r in He.
  destruct (pair_up ph_compare f Leaf) as [|x c r]; [done|]. intros [= <-]. destruct Ho as [Hc Hr].
  apply fold_up_ordered; [|done..]. eapply compares_all_sub; [|exact Hk]. intros z. rewrite <- He. set_solver.
Qed.

Lemma tree_cons_bounded k f r : compares_all (elems f) -> bounded k f -> bounded k r ->
  bounded k (tree_cons (combine ph_compare f) r).
Proof.
  intros Hk Hf Hr. pose proof (combine_elems ph_compare f) as He.
  destruct (combine ph_compare f) as [[z e]|] eqn:E; cbn; [|done]. repeat split; [| |done].
  - apply (bounded_elem k f Hf). rewrite <- He. unfold opt_tree_elems, tree_elems. set_solver.
  - by apply (combine_ordered f (z, e) Hk (bounded_ordered _ _ Hf)).
Qed.

Lemma remove_tree_bounded x f : forall k, compares_all (elems f) -> bounded k f -> bounded k (remove_tree ph_compare x f).
Proof.
  induction f as [|y c IHc r IHr]; intros k Hk; cbn; [done|]. intros (Hy & Hc & Hr). cbn in Hk.
  assert (compares_all (elems c)) by (eapply compares_all_sub; [|exact Hk]; set_solver).
  destruct (decide (y = x)) as [->|].
  - apply tree_cons_bounded; [done| |done]. apply ordered_bounded; [by eapply bounded_ordered|].
    intros z Hz. pose proof (bounded_elem _ _ Hc z Hz). lia.
  - cbn. repeat split; [done|auto|]. apply IHr; [|done]. eapply compares_all_sub; [|exact Hk]. set_solver.
Qed.
End order.

(** Only the keys of the elements matter. *)
Lemma bounded_ext key key' k k' f : (forall x, x ∈ elems f -> key' x = key x) -> k' = k -> bounded key k f -> bounded key' k' f.
Proof.
  revert k k'. induction f as [|x c IHc r IHr]; intros k k' Hk ->; [done|]. cbn in Hk. cbn.
  rewrite (Hk x) by set_solver +. intros (? & ? & ?). split; [done|]. split; [eapply IHc|eapply IHr]; eauto; intros z Hz; apply Hk; set_solver +Hz.
Qed.

Lemma ordered_ext key key' f : (forall x, x ∈ elems f -> key' x = key x) -> ordered key f -> ordered key' f.
Proof.
  induction f as [|x c _ r IH]; intros Hk; [done|]. cbn in Hk |- *. intros [Hc Hr]. split.
  - eapply bounded_ext; [|apply Hk; set_solver +|exact Hc]. intros z Hz. apply Hk. set_solver +Hz.
  - apply IH; [|done]. intros z Hz. apply Hk. set_solver +Hz.
Qed.

(** ** Trees in memory *)

(** [prev] is what the first node points back to. *)
Fixpoint repr (h : Nodes) (prev : option positive) (f : forest) : Prop :=
  match f with
  | Leaf => True
  | Tree x c r => h !! x = Some (MkNode (head c) (head r) prev) /\ repr h (Some x) c /\ repr h (Some x) r
  end.

(** A subheap as [merge] takes it: only its children count. *)
Definition subheap (h : Nodes) (t : tree) : Prop :=
  exists n, h !! t.1 = Some n /\ first_child n = head t.2 /\ repr h (Some t.1) t.2.

(** Subheaps linked by [next_sibling]. *)
Fixpoint chain (h : Nodes) (f : forest) : Prop :=
  match f with
  | Leaf => True
  | Tree x c r => (exists n, h !! x = Some n /\ first_child n = head c /\ next_sibling n = head r) /\ repr h (Some x) c /\ chain h r
  end.

(** Only the nodes of [l] differ. *)
Definition only (l : list positive) (h h' : Nodes) : Prop := forall z, z ∉ l -> h' !! z = h !! z.

Lemma only_trans l l' h h' h'' : only l h h' -> only l' h' h'' -> only (l ++ l') h h''.
Proof. intros H H' z Hz. rewrite H', H; set_solver. Qed.
Lemma only_sub l l' h h' : l ⊆ l' -> only l h h' -> only l' h h'.
Proof. unfold only. set_solver. Qed.
Lemma only_insert x n h : only [x] h (<[x := n]> h).
Proof. intros z Hz. rewrite lookup_insert_ne; set_solver. Qed.

Lemma repr_ext h h' prev f : (forall z, z ∈ elems f -> h' !! z = h !! z) -> repr h prev f -> repr h' prev f.
Proof.
  revert prev. induction f as [|x c IHc r IHr]; intros prev He; cbn; [done|]. intros (Hx & Hc & Hr).
  rewrite He by (cbn; set_solver). repeat split; [done|apply IHc|apply IHr]; try done; intros z Hz; apply He; cbn; set_solver.
Qed.

Lemma repr_only l h h' prev f : only l h h' -> elems f ## l -> repr h prev f -> repr h' prev f.
Proof. intros Hl Hd. apply repr_ext. intros z Hz. apply Hl. set_solver. Qed.

Lemma chain_only l h h' f : only l h h' -> elems f ## l -> chain h f -> chain h' f.
Proof.
  intros Hl. induction f as [|x c _ r IH]; cbn; [done|]. intros Hd (Hx & Hc & Hr).
  rewrite Hl by set_solver. repeat split; [done| |apply IH; set_solver]. eapply repr_only; [done| |done]. set_solver.
Qed.

Lemma subheap_only l h h' t : only l h h' -> tree_elems t ## l -> subheap h t -> subheap h' t.
Proof.
  unfold tree_elems. intros Hl Hd (n & Hn & Hc & Hr). exists n. rewrite Hl by set_solver. repeat split; [done..|].
  eapply repr_only; [done| |done]. set_solver.
Qed.

Lemma repr_chain h prev f : repr h prev f -> chain h f.
Proof. revert prev. induction f as [|x c _ r IH]; intros prev; cbn; [done|]. intros (Hx & Hc & Hr). eauto 10. Qed.

Lemma chain_first h x c r : chain h (Tree x c r) -> subheap h (x, c).
Proof. intros ((n & ? & ? & _) & ? & _). by exists n. Qed.

Section memory.
Context {R : Type} (fault : R) (ph_compare : positive -> positive -> Z).

(** Reads and writes at a known address. *)
Lemma load_run h x n : h !! x = Some n -> load fault (Some x) h = (h, inr n).
Proof. unfold load. by intros ->. Qed.
Lemma store_run h x f n : h !! x = Some n -> store fault (Some x) f h = (<[x := f n]> h, inr tt).
Proof. unfold store. by intros ->. Qed.

(** A node gets a new predecessor. *)
Lemma repr_new_prev h prev prev' x c r : NoDup (elems (Tree x c r)) -> repr h prev (Tree x c r) ->
  repr (<[x := MkNode (head c) (head r) prev']> h) prev' (Tree x c r).
Proof.
  cbn. rewrite NoDup_cons. intros [Hx _] (Hn & Hc & Hr). rewrite lookup_insert_eq.
  repeat split; (eapply repr_only; [apply only_insert| |done]); set_solver.
Qed.

(** [if (p) p->prev_or_parent = q]. *)
Lemma set_prev_run h prev prev' f : NoDup (elems f) -> repr h prev f ->
  exists h', pwhen (negb (is_null (head f))) (store fault (head f) (with_prev_or_parent prev')) h = (h', inr tt) /\
    repr h' prev' f /\ only (match head f with Some x => [x] | None => [] end) h h'.
Proof.
  destruct f as [|x c r]; intros Hd Hr; cbn [head is_null negb pwhen].
  - exists h. by repeat split.
  - rewrite (store_run _ _ _ _ (proj1 Hr)). cbn. eexists. split; [done|]. split; [|apply only_insert].
    by apply (repr_new_prev h prev).
Qed.

(** ** The operations on memory do what the functions on trees do *)

Open Scope prog_scope.

(** The second half of [merge], when [a] is the larger. *)
Lemma link_run h x c y d : subheap h (x, c) -> subheap h (y, d) -> NoDup (x :: elems c ++ y :: elems d) ->
  exists h', (na <- load fault (Some x) ;;
              pwhen (negb (is_null (first_child na))) (store fault (first_child na) (with_prev_or_parent (Some y))) ;;;
              store fault (Some y) (with_prev_or_parent (Some x)) ;;;
              na <- load fault (Some x) ;;
              store fault (Some y) (with_next_sibling (first_child na)) ;;;
              store fault (Some x) (with_first_child (Some y)) ;;;
              pret (Some x)) h = (h', inr (Some x)) /\
    subheap h' (x, Tree y d c) /\ only (x :: y :: elems c) h h'.
Proof.
  intros (nx & Hx & Ex & Hc) (ny & Hy & Ey & Hd) Hnd. cbn in Hx, Ex, Hc, Hy, Ey, Hd.
  apply NoDup_cons in Hnd as [Hxn Hnd]. apply NoDup_app in Hnd as (Hcd & Hdis & Hnd).
  rewrite (pbind_run _ _ _ _ _ (load_run _ _ _ Hx)), Ex.
  destruct (set_prev_run h (Some x) (Some y) c Hcd Hc) as (h1 & E1 & Hc1 & O1). rewrite (pbind_run _ _ _ _ _ E1).
  assert (O1' : only (elems c) h h1) by (eapply only_sub; [|done]; destruct c; cbn; set_solver +).
  assert (Hx1 : h1 !! x = Some nx) by (rewrite O1'; [done|]; set_solver +Hxn).
  assert (Hy1 : h1 !! y = Some ny) by (rewrite O1'; [done|]; set_solver +Hdis).
  assert (Hne : x <> y) by set_solver +Hxn.
  rewrite (pbind_run _ _ _ _ _ (store_run _ _ _ _ Hy1)).
  erewrite pbind_run by (apply load_run; rewrite lookup_insert_ne by done; exact Hx1).
  erewrite pbind_run by (apply store_run, lookup_insert_eq). rewrite Ex.
  erewrite pbind_run by (apply store_run; rewrite !lookup_insert_ne by done; exact Hx1).
  eexists. split; [done|]. split.
  - eexists. cbn. rewrite lookup_insert_eq. split; [done|]. split; [done|].
    rewrite lookup_insert_ne, lookup_insert_eq by done. unfold with_next_sibling, with_prev_or_parent. cbn. rewrite Ey.
    split; [done|]. apply NoDup_cons in Hnd as [Hyn _].
    split; (eapply repr_ext; [|exact Hd || exact Hc1]); intros z Hz; rewrite !lookup_insert_ne by set_solver +Hz Hxn Hyn Hdis; [|done].
    apply O1'. set_solver +Hz Hdis.
  - intros z Hz. rewrite !lookup_insert_ne by set_solver +Hz. apply O1'. set_solver +Hz.
Qed.

Lemma merge_run h s t : subheap h s -> subheap h t -> NoDup (tree_elems s ++ tree_elems t) ->
  exists h', merge fault ph_compare (Some s.1) (Some t.1) h = (h', inr (Some (merge_tree ph_compare s t).1)) /\
    subheap h' (merge_tree ph_compare s t) /\ only (tree_elems s ++ tree_elems t) h h'.
Proof.
  destruct s as [x c], t as [y d]. unfold merge, merge_tree, tree_elems. cbn [fst snd]. intros Hs Ht Hnd.
  destruct (ph_compare x y <? 0); cbn [fst snd].
  - destruct (link_run h y d x c Ht Hs) as (h' & E & Hh & Ho); [by rewrite app_comm_cons, Permutation_app_comm|].
    exists h'. repeat split; [done..|]. eapply only_sub; [|done]. set_solver.
  - destruct (link_run h x c y d Hs Ht Hnd) as (h' & E & Hh & Ho).
    exists h'. repeat split; [done..|]. eapply only_sub; [|done]. set_solver.
Qed.

Lemma chain_push h t acc : subheap h t -> chain h acc -> NoDup (tree_elems t ++ elems acc) ->
  exists h', store fault (Some t.1) (with_next_sibling (head acc)) h = (h', inr tt) /\
    chain h' (Tree t.1 t.2 acc) /\ only [t.1] h h'.
Proof.
  destruct t as [x c]. unfold tree_elems. cbn [fst snd]. intros (n & Hn & Hc & Hr) Ha Hnd. cbn in Hn, Hc, Hr.
  rewrite (store_run _ _ _ _ Hn). eexists. split; [done|]. apply NoDup_cons in Hnd as [Hx _]. split; [|apply only_insert].
  split; [|split].
  - eexists. by rewrite lookup_insert_eq.
  - eapply repr_only; [apply only_insert| |done]. set_solver.
  - eapply chain_only; [apply only_insert| |done]. set_solver.
Qed.

Lemma merge_pairs_run f : forall fuel acc h, (length (elems f) < fuel)%nat -> chain h f -> chain h acc ->
  NoDup (elems f ++ elems acc) ->
  exists h', merge_pairs fault ph_compare fuel (head f) (head acc) h = (h', inr (head (pair_up ph_compare f acc))) /\
    chain h' (pair_up ph_compare f acc) /\ only (elems f) h h'.
Proof.
  induction f as [|x c|x c y d r IH] using forest_ind2; intros [|fuel] acc h Hf Hc Ha Hnd; cbn in Hf; try lia.
  - by exists h.
  - cbn [merge_pairs head is_null]. pose proof (chain_first _ _ _ _ Hc) as Hs. destruct Hc as ((n & Hn & _ & Hnx) & _).
    rewrite (pbind_run _ _ _ _ _ (load_run _ _ _ Hn)), Hnx. cbn [head is_null].
    cbn in Hnd. rewrite app_nil_r in Hnd. destruct (chain_push h (x, c) acc Hs Ha Hnd) as (h' & E & Hh & Ho).
    rewrite (pbind_run _ _ _ _ _ E). exists h'. split; [done|]. split; [done|]. eapply only_sub; [|done]. set_solver +.
  - cbn [merge_pairs head is_null]. pose proof (chain_first _ _ _ _ Hc) as Hs.
    destruct Hc as ((n & Hn & _ & Hnx) & _ & Hc). pose proof (chain_first _ _ _ _ Hc) as Ht.
    destruct Hc as ((m & Hm & _ & Hmx) & _ & Hr).
    rewrite (pbind_run _ _ _ _ _ (load_run _ _ _ Hn)), Hnx. cbn [head is_null].
    rewrite (pbind_run _ _ _ _ _ (load_run _ _ _ Hm)), Hmx.
    set (t := merge_tree ph_compare (x, c) (y, d)). pose proof (merge_tree_elems ph_compare (x, c) (y, d)) as He.
    assert (Hp : elems (Tree x c (Tree y d r)) ++ elems acc ≡ₚ (tree_elems (x, c) ++ tree_elems (y, d)) ++ elems r ++ elems acc)
      by (unfold tree_elems; cbn; solve_Permutation).
    rewrite Hp in Hnd. apply NoDup_app in Hnd as (Hnd1 & Hd1 & Hnd2).
    destruct (merge_run h (x, c) (y, d) Hs Ht Hnd1) as (h1 & E1 & H1 & O1). cbn [fst snd] in E1.
    rewrite (pbind_run _ _ _ _ _ E1). fold t.
    assert (Hda : forall z, z ∈ elems acc -> z ∉ tree_elems (x, c) ++ tree_elems (y, d)) by set_solver +Hd1.
    assert (Hdr : forall z, z ∈ elems r -> z ∉ tree_elems (x, c) ++ tree_elems (y, d)) by set_solver +Hd1.
    assert (Hta : NoDup (tree_elems t ++ elems acc)).
    { unfold t. rewrite He. apply NoDup_app. split; [done|]. split; [set_solver +Hda|]. by apply NoDup_app in Hnd2 as (_ & _ & ?). }
    destruct (chain_push h1 t acc H1) as (h2 & E2 & H2 & O2); [|done|].
    { eapply chain_only; [exact O1| |done]. exact Hda. }
    rewrite (pbind_run _ _ _ _ _ E2). cbn [pair_up]. fold t. change (Some t.1) with (head (Tree t.1 t.2 acc)).
    assert (Ht1 : forall z, z ∈ tree_elems t <-> z ∈ tree_elems (x, c) ++ tree_elems (y, d)) by (intros z; unfold t; by rewrite He).
    destruct (IH fuel (Tree t.1 t.2 acc) h2) as (h3 & E3 & H3 & O3); [rewrite length_app in Hf; cbn in Hf; rewrite length_app in Hf; lia| |done| |].
    + eapply chain_only; [exact O2| |]; [|eapply chain_only; [exact O1| |done]; exact Hdr].
      intros z Hz Hz2. apply (Hdr z Hz), Ht1. unfold tree_elems. set_solver +Hz2.
    + change (NoDup (elems r ++ tree_elems t ++ elems acc)). rewrite (Permutation_app_swap_app (elems r)).
      apply NoDup_app. split; [by apply NoDup_app in Hta as (? & _)|]. split; [|done]. intros z Hz%Ht1. set_solver +Hz Hd1.
    + exists h3. split; [done|]. split; [done|]. intros z Hz. cbn in Hz.
      assert (z ∉ tree_elems t) by (rewrite Ht1; unfold tree_elems; set_solver +Hz).
      rewrite O3, O2, O1 by (unfold tree_elems in *; set_solver). done.
Qed.

Lemma merge_list_run f : forall fuel t h, (length (elems f) < fuel)%nat -> subheap h t -> chain h f ->
  NoDup (tree_elems t ++ elems f) ->
  exists h', merge_list fault ph_compare fuel (Some t.1) (head f) h = (h', inr (Some (fold_up ph_compare t f).1)) /\
    subheap h' (fold_up ph_compare t f) /\ only (tree_elems t ++ elems f) h h'.
Proof.
  induction f as [|y d _ r IH]; intros [|fuel] t h Hf Ht Hc Hnd; cbn in Hf; try lia.
  - exists h. by repeat split.
  - cbn [merge_list head is_null]. pose proof (chain_first _ _ _ _ Hc) as Hy.
    destruct Hc as ((n & Hn & _ & Hnx) & _ & Hr). rewrite (pbind_run _ _ _ _ _ (load_run _ _ _ Hn)), Hnx.
    change (elems (Tree y d r)) with (tree_elems (y, d) ++ elems r) in Hnd |- *. rewrite app_assoc in Hnd |- *.
    apply NoDup_app in Hnd as (Hnd1 & Hd & Hnd2).
    destruct (merge_run h t (y, d) Ht Hy Hnd1) as (h1 & E1 & H1 & O1). cbn [fst] in E1. rewrite (pbind_run _ _ _ _ _ E1).
    pose proof (merge_tree_elems ph_compare t (y, d)) as He.
    destruct (IH fuel (merge_tree ph_compare t (y, d)) h1) as (h2 & E2 & H2 & O2).
    + rewrite length_app in Hf. lia.
    + done.
    + eapply chain_only; [exact O1| |done]. set_solver +Hd.
    + rewrite He. apply NoDup_app. by split.
    + exists h2. split; [done|]. split; [done|]. intros z Hz. rewrite O2, O1; [done|set_solver +Hz|]. rewrite He. done.
Qed.

(** Every node of the tree is in memory, so the loops have fuel enough. *)
Lemma repr_dom h prev f z : repr h prev f -> z ∈ elems f -> is_Some (h !! z).
Proof.
  revert prev. induction f as [|x c IHc r IHr]; intros prev; cbn; [set_solver|]. intros (Hx & Hc & Hr).
  rewrite elem_of_cons, elem_of_app. intros [->|[H|H]]; eauto.
Qed.

Lemma repr_size h prev f : repr h prev f -> NoDup (elems f) -> (length (elems f) <= size h)%nat.
Proof.
  intros Hr Hnd. rewrite <- size_dom, <- (size_list_to_set (C := gset positive)) by done.
  apply subseteq_size. intros z Hz%elem_of_list_to_set. apply elem_of_dom. by eapply repr_dom.
Qed.

Lemma merge_children_run h prev f : repr h prev f -> NoDup (elems f) ->
  exists h', merge_children fault ph_compare (head f) h = (h', inr (fst <$> combine ph_compare f)) /\
    (forall t, combine ph_compare f = Some t -> subheap h' t) /\ only (elems f) h h'.
Proof.
  intros Hr Hnd. pose proof (repr_size _ _ _ Hr Hnd) as Hs. pose proof (repr_chain _ _ _ Hr) as Hc.
  destruct f as [|x c r]; [by exists h|]. unfold merge_children. cbn [head is_null].
  rewrite (pbind_run _ _ _ _ _ (load_run _ _ _ (proj1 Hr))). destruct r as [|y d r].
  - cbn [next_sibling head is_null]. exists h. split; [done|]. split; [|done]. intros t [= <-]. by eapply chain_first.
  - cbn [next_sibling head is_null]. set (f := Tree x c (Tree y d r)) in *.
    destruct (merge_pairs_run f (S (size h)) Leaf h) as (h1 & E1 & H1 & O1); [lia|done|done|by rewrite app_nil_r|].
    erewrite pbind_run by reflexivity. change (Some x) with (head f). change None with (head Leaf) at 1.
    rewrite (pbind_run _ _ _ _ _ E1). pose proof (pair_up_elems ph_compare f Leaf) as He. cbn [elems] in He. rewrite app_nil_r in He.
    unfold combine. destruct (pair_up ph_compare f Leaf) as [|z e g] eqn:Ep.
    { apply Permutation_nil_l in He. done. }
    pose proof (chain_first _ _ _ _ H1) as Hz. destruct H1 as ((n & Hn & _ & Hnx) & _ & Hg). cbn [head].
    rewrite (pbind_run _ _ _ _ _ (load_run _ _ _ Hn)), Hnx.
    change (elems (Tree z e g)) with (tree_elems (z, e) ++ elems g) in He.
    destruct (merge_list_run g (S (size h)) (z, e) h1) as (h2 & E2 & H2 & O2); [|done|done|by rewrite He|].
    { apply Permutation_length in He. rewrite length_app in He. lia. }
    exists h2. split; [done|]. split; [by intros t [= <-]|]. intros w Hw. rewrite O2, O1; [done|done|]. by rewrite He.
Qed.

(** Detached, a subheap is a whole heap. *)
Lemma detach_run h t : subheap h t -> NoDup (tree_elems t) ->
  exists h', detach_root fault (Some t.1) h = (h', inr tt) /\ repr h' None (Tree t.1 t.2 Leaf) /\ only [t.1] h h'.
Proof.
  intros (n & Hn & Hc & Hr) [Hx _]%NoDup_cons. unfold detach_root.
  rewrite (pbind_run _ _ _ _ _ (store_run _ _ _ _ Hn)), (store_run _ _ _ _ (lookup_insert_eq _ _ _)), insert_insert_eq.
  eexists. split; [done|]. split; [|apply only_insert]. cbn. rewrite lookup_insert_eq, <- Hc. split; [done|]. split; [|done].
  eapply repr_only; [apply only_insert| |done]. set_solver +Hx.
Qed.

(** A tree put in place of a node: in front of the siblings [r], with [y] told
    about it. *)
Lemma relink_run h t p r y ny set_ptr : subheap h t -> repr h p r -> h !! y = Some ny -> NoDup (y :: tree_elems t ++ elems r) ->
  exists h', (store fault (Some t.1) (with_prev_or_parent (Some y)) ;;; store fault (Some t.1) (with_next_sibling (head r)) ;;;
              store fault (Some y) (set_ptr (Some t.1)) ;;;
              pwhen (negb (is_null (head r))) (store fault (head r) (with_prev_or_parent (Some t.1)))) h = (h', inr tt) /\
    repr h' (Some y) (Tree t.1 t.2 r) /\ h' !! y = Some (set_ptr (Some t.1) ny) /\ only (y :: t.1 :: elems r) h h'.
Proof.
  intros (n & Hn & Hc & Ht) Hr Hy [Hyn Hnd]%NoDup_cons. destruct t as [x c]. cbn [fst snd] in *. unfold tree_elems in *. cbn [fst snd] in *.
  apply NoDup_app in Hnd as ([Hxc _]%NoDup_cons & Hd & Hndr).
  assert (Hxr : x ∉ elems r) by set_solver +Hd. assert (Hxy : x <> y) by set_solver +Hyn.
  rewrite (pbind_run _ _ _ _ _ (store_run _ _ _ _ Hn)), (pbind_run _ _ _ _ _ (store_run _ _ _ _ (lookup_insert_eq _ _ _))), insert_insert_eq.
  erewrite pbind_run by (apply store_run; rewrite lookup_insert_ne by done; exact Hy).
  set (h1 := <[y := _]> (<[x := _]> h)).
  assert (O1 : only [y; x] h h1) by (intros z Hz; unfold h1; rewrite !lookup_insert_ne by set_solver +Hz; done).
  destruct (set_prev_run h1 p (Some x) r Hndr) as (h2 & E2 & H2 & O2).
  { eapply repr_only; [exact O1| |done]. set_solver +Hxr Hyn. }
  rewrite E2. exists h2. split; [done|].
  assert (O2' : only (elems r) h1 h2) by (eapply only_sub; [|exact O2]; destruct r; cbn; set_solver +).
  split; [|split].
  - cbn. rewrite O2' by done. unfold h1 at 1. rewrite lookup_insert_ne, lookup_insert_eq by done. cbn. rewrite <- Hc.
    split; [done|]. split; [|done].
    eapply repr_only; [exact O2'|set_solver +Hd|]. eapply repr_only; [exact O1|set_solver +Hxc Hyn|done].
  - rewrite O2' by set_solver +Hyn. unfold h1. by rewrite lookup_insert_eq.
  - intros z Hz. rewrite O2', O1 by set_solver +Hz. done.
Qed.

Lemma unlink_here h x c r y ny : h !! x = Some (MkNode (head c) (head r) (Some y)) -> repr h (Some x) c -> repr h (Some x) r ->
  h !! y = Some ny -> NoDup (y :: x :: elems c ++ elems r) ->
  exists h', unlink_node fault ph_compare x h = (h', inr tt) /\
    repr h' (Some y) (tree_cons (combine ph_compare c) r) /\
    h' !! y = Some ((if decide (first_child ny = Some x) then with_first_child else with_next_sibling)
                      (head (tree_cons (combine ph_compare c) r)) ny) /\
    only (y :: x :: elems c ++ elems r) h h'.
Proof.
  intros Hx Hc Hr Hy [Hyn [Hxn Hnd]%NoDup_cons]%NoDup_cons. pose proof Hnd as (Hndc & Hd & Hndr)%NoDup_app. unfold unlink_node.
  rewrite (pbind_run _ _ _ _ _ (load_run _ _ _ Hx)). cbn [first_child next_sibling prev_or_parent].
  rewrite (pbind_run _ _ _ _ _ (load_run _ _ _ Hy)). set (set_ptr := if decide _ then _ else _). clearbody set_ptr.
  destruct (merge_children_run h (Some x) c Hc Hndc) as (h1 & E1 & H1 & O1). pose proof (combine_elems ph_compare c) as He.
  destruct c as [|z d e].
  - cbn [head is_null negb]. rewrite (pbind_run _ _ _ _ _ (store_run _ _ _ _ Hy)).
    destruct (set_prev_run (<[y := set_ptr (head r) ny]> h) (Some x) (Some y) r Hndr) as (h2 & E2 & H2 & O2).
    { eapply repr_only; [apply only_insert| |done]. set_solver +Hyn. }
    assert (O2' : only (elems r) (<[y := set_ptr (head r) ny]> h) h2) by (eapply only_sub; [|exact O2]; destruct r; cbn; set_solver +).
    rewrite E2. exists h2. split; [done|]. split; [done|]. split.
    + rewrite O2' by set_solver +Hyn. by rewrite lookup_insert_eq.
    + intros w Hw. rewrite O2' by set_solver +Hw. rewrite lookup_insert_ne; [done|set_solver +Hw].
  - cbn [head is_null negb]. cbn [head] in E1. rewrite (pbind_run _ _ _ _ _ E1).
    destruct (combine ph_compare (Tree z d e)) as [t|]; [|by apply Permutation_nil_l in He]. specialize (H1 t eq_refl).
    cbn [opt_tree_elems] in He.
    assert (Hx1 : h1 !! x = h !! x) by (apply O1; set_solver +Hxn). rewrite Hx in Hx1.
    rewrite (pbind_run _ _ _ _ _ (load_run _ _ _ Hx1)). cbn [fmap option_fmap option_map prev_or_parent next_sibling].
    destruct (relink_run h1 t (Some x) r y ny set_ptr) as (h2 & E2 & H2 & Hy2 & O2); [done| | | |].
    + eapply repr_only; [exact O1| |done]. set_solver +Hd.
    + rewrite O1; [done|set_solver +Hyn].
    + rewrite He. apply NoDup_cons. split; [set_solver +Hyn|done].
    + exists h2. split; [done|]. split; [done|]. split; [done|]. intros w Hw. rewrite O2, O1; [done|set_solver +Hw|].
      assert (t.1 ∈ elems (Tree z d e)) by (rewrite <- He; unfold tree_elems; set_solver +). set_solver.
Qed.

Lemma unlink_run x f : forall h prev y c r, f = Tree y c r -> repr h prev f -> NoDup (elems f) -> x ∈ elems c ++ elems r ->
  exists h', unlink_node fault ph_compare x h = (h', inr tt) /\ repr h' prev (remove_tree ph_compare x f) /\ only (elems f) h h'.
Proof.
  induction f as [|y c IHc r IHr]; [done|]. intros h prev ? ? ? [= <- <- <-] (Hy & Hc & Hr) Hnd Hx.
  pose proof Hnd as [Hyn (Hndc & Hd & Hndr)%NoDup_app]%NoDup_cons. cbn [elems remove_tree]. rewrite decide_False by set_solver +Hx Hyn.
  destruct (decide (x ∈ elems c)) as [Hin|Hout].
  - rewrite (remove_tree_notin _ x r) by auto. destruct c as [|z d e]; [set_solver +Hin|].
    destruct (decide (z = x)) as [->|Hne].
    + destruct Hc as (Hz & Hcd & Hce). destruct (unlink_here h x d e y _ Hz Hcd Hce Hy) as (h' & E & H' & Hy' & O).
      { apply NoDup_cons. split; [set_solver +Hyn|done]. }
      cbn [head first_child] in Hy'. rewrite decide_True in Hy' by done. exists h'. cbn [remove_tree]. rewrite decide_True by done.
      repeat split; [done|done|done| |].
      * eapply repr_only; [exact O| |done]. set_solver +Hd Hyn.
      * eapply only_sub; [|exact O]. cbn. set_solver +.
    + destruct (IHc h (Some y) z d e eq_refl Hc Hndc) as (h' & E & H' & O); [set_solver +Hin Hne|]. exists h'. split; [done|].
      split; [|eapply only_sub; [|exact O]; set_solver +]. cbn [repr]. rewrite O by set_solver +Hyn. rewrite Hy.
      split; [cbn [remove_tree]; by rewrite decide_False|]. split; [done|]. eapply repr_only; [exact O| |done]. set_solver +Hd.
  - rewrite (remove_tree_notin _ x c) by auto. destruct r as [|z d e]; [set_solver +Hx Hout|].
    destruct (decide (z = x)) as [->|Hne].
    + destruct Hr as (Hz & Hcd & Hce). destruct (unlink_here h x d e y _ Hz Hcd Hce Hy) as (h' & E & H' & Hy' & O).
      { apply NoDup_cons. split; [set_solver +Hyn|done]. }
      cbn [head first_child] in Hy'. rewrite decide_False in Hy' by (destruct c; cbn; set_solver +Hout).
      exists h'. cbn [remove_tree]. rewrite decide_True by done. repeat split; [done|done| |done|].
      * eapply repr_only; [exact O| |done]. set_solver +Hd Hyn.
      * eapply only_sub; [|exact O]. cbn. set_solver +.
    + destruct (IHr h (Some y) z d e eq_refl Hr Hndr) as (h' & E & H' & O); [set_solver +Hx Hout Hne|]. exists h'. split; [done|].
      split; [|eapply only_sub; [|exact O]; set_solver +]. cbn [repr]. rewrite O by set_solver +Hyn. rewrite Hy.
      split; [cbn [remove_tree]; by rewrite decide_False|]. split; [|done]. eapply repr_only; [exact O| |done]. set_solver +Hd.
Qed.

(** ** Whole heaps *)

(** [ph_root] heads a heap with the elements [l]: a tree in memory that is
    ordered by the keys. *)
Record is_heap (key : positive -> Z) (h : Nodes) (ph_root : option positive) (l : list positive) : Prop := {
  heap_compares : compares_all key ph_compare l;
  heap_tree : exists f, (forall x c r, f = Tree x c r -> r = Leaf) /\ head f = ph_root /\ repr h None f /\
    ordered key f /\ elems f ≡ₚ l;
  heap_nodup : NoDup l;
}.

Lemma is_heap_empty key h : is_heap key h None [].
Proof. split; [by intros x y Hx%elem_of_nil| |constructor]. exists Leaf. by repeat split. Qed.

Lemma is_heap_tree key h t l : compares_all key ph_compare l -> repr h None (Tree t.1 t.2 Leaf) -> tree_ordered key t ->
  NoDup l -> tree_elems t ≡ₚ l -> is_heap key h (Some t.1) l.
Proof.
  intros Hk Hr Ho Hnd He. split; [done| |done]. exists (Tree t.1 t.2 Leaf). split; [by intros ??? [= _ _ <-]|].
  split; [done|]. split; [done|]. split; [done|]. cbn. by rewrite app_nil_r.
Qed.

(** Changes to other nodes do not matter, nor does the order of the list. *)
Lemma is_heap_only key h h' root l l' : only l' h h' -> l ## l' -> is_heap key h root l -> is_heap key h' root l.
Proof.
  intros Ho Hd [Hk (f & Hf & Hh & Hr & Hof & He) Hnd]. split; [done| |done]. exists f. split; [done|]. split; [done|].
  split; [|done]. eapply repr_only; [exact Ho| |done]. intros z. rewrite He. apply Hd.
Qed.

#[export] Instance is_heap_perm key h root : Proper (Permutation ==> iff) (is_heap key h root).
Proof.
  intros l l' Hl. split; intros [Hk (f & Hf & Hh & Hr & Ho & He) Hnd]; (split; [|exists f; repeat split; try done|]).
  - eapply compares_all_sub; [|done]. intros z. by rewrite Hl.
  - by rewrite He.
  - by rewrite <- Hl.
  - eapply compares_all_sub; [|done]. intros z. by rewrite Hl.
  - by rewrite He.
  - by rewrite Hl.
Qed.

(** A heap with elements, taken apart. *)
Lemma is_heap_cases key h root l : is_heap key h root l ->
  (root = None /\ l = []) \/
  exists t, root = Some t.1 /\ repr h None (Tree t.1 t.2 Leaf) /\ tree_ordered key t /\ tree_elems t ≡ₚ l.
Proof.
  intros [Hk (f & Hf & Hh & Hr & Ho & He) Hnd]. destruct f as [|x c r]; [left|right].
  - split; [done|]. cbn in He. by apply Permutation_nil_l in He.
  - rewrite (Hf x c r eq_refl) in *. exists (x, c). cbn in Ho, He. rewrite app_nil_r in He.
    split; [done|]. split; [done|]. split; [by destruct Ho|done].
Qed.

(** ** Specifications *)

Lemma subheap_of_repr h prev x c r : repr h prev (Tree x c r) -> subheap h (x, c).
Proof. intros (Hx & Hc & _). eexists. by split. Qed.

(** Adding a node that is not in the heap. *)
Lemma add_run key h root l x : is_heap key h root l -> is_Some (h !! x) -> x ∉ l -> compares_all key ph_compare (x :: l) ->
  exists h' root', pairingheap_add fault ph_compare root x h = (h', inr root') /\
    is_heap key h' root' (x :: l) /\ only (x :: l) h h'.
Proof.
  intros Hh [n Hx] Hxl Hk. unfold pairingheap_add. rewrite (pbind_run _ _ _ _ _ (store_run _ _ _ _ Hx)).
  set (h1 := <[x := _]> h). assert (O1 : only [x] h h1) by apply only_insert.
  assert (Hs : subheap h1 (x, Leaf)) by (eexists; unfold h1; cbn; rewrite lookup_insert_eq; done).
  assert (Hnd : NoDup (x :: l)) by (apply NoDup_cons; split; [done|apply Hh]).
  destruct (is_heap_cases _ _ _ _ Hh) as [[-> ->]|(t & -> & Hr & Ho & He)].
  - cbn [merge]. erewrite pbind_run by reflexivity.
    destruct (detach_run h1 (x, Leaf) Hs) as (h2 & E2 & H2 & O2); [apply NoDup_singleton|]. cbn [fst] in E2.
    rewrite (pbind_run _ _ _ _ _ E2). exists h2, (Some x). split; [done|].
    split; [by apply (is_heap_tree key h2 (x, Leaf))|]. intros z Hz. by rewrite O2, O1.
  - assert (Ht : subheap h1 t).
    { destruct t as [y c]. eapply subheap_only; [exact O1| |by eapply subheap_of_repr]. intros z Hz. rewrite He in Hz. set_solver +Hz Hxl. }
    assert (Hp : tree_elems t ++ tree_elems (x, Leaf) ≡ₚ x :: l) by (rewrite He, Permutation_app_comm; done).
    destruct (merge_run h1 t (x, Leaf) Ht Hs) as (h2 & E2 & H2 & O2); [by rewrite Hp|]. cbn [fst] in E2.
    rewrite (pbind_run _ _ _ _ _ E2). pose proof (merge_tree_elems ph_compare t (x, Leaf)) as Hm. rewrite Hp in Hm.
    destruct (detach_run h2 _ H2) as (h3 & E3 & H3 & O3); [by rewrite Hm|]. rewrite (pbind_run _ _ _ _ _ E3).
    eexists h3, _. split; [done|]. split.
    + apply is_heap_tree; [done|done| |done|done]. apply merge_tree_ordered; [|done|done].
      apply Hk; [|set_solver +]. rewrite <- He. unfold tree_elems. set_solver +.
    + intros z Hz. rewrite O3, O2, O1; [done|set_solver +Hz|by rewrite Hp|].
      intros ->%list_elem_of_singleton. apply Hz. rewrite <- Hm. unfold tree_elems. set_solver +.
Qed.

(** Removing the first node. *)
Lemma remove_first_run key h x l : is_heap key h (Some x) l ->
  exists h' root' l', pairingheap_remove_first fault ph_compare (Some x) h = (h', inr (root', Some x)) /\
    is_heap key h' root' l' /\ l ≡ₚ x :: l' /\ only l' h h'.
Proof.
  intros Hh. destruct (is_heap_cases _ _ _ _ Hh) as [[? _]|([y c] & [= ->] & (Hy & Hc & _) & Ho & He)]; [done|].
  cbn [fst snd] in *. unfold pairingheap_remove_first. rewrite (pbind_run _ _ _ _ _ (load_run _ _ _ Hy)). cbn [first_child].
  pose proof (heap_nodup _ _ _ _ Hh) as Hnd. rewrite <- He in Hnd. apply NoDup_cons in Hnd as [Hyc Hnd]. cbn [snd] in Hnd.
  destruct (merge_children_run h (Some y) c Hc Hnd) as (h1 & E1 & H1 & O1). rewrite (pbind_run _ _ _ _ _ E1).
  pose proof (combine_elems ph_compare c) as Hp.
  assert (Hkc : compares_all key ph_compare (elems c)).
  { eapply compares_all_sub; [|apply Hh]. intros z Hz. rewrite <- He. unfold tree_elems. set_solver +Hz. }
  destruct (combine ph_compare c) as [t|] eqn:Ec; cbn [fmap option_fmap option_map is_null negb pwhen].
  - specialize (H1 t eq_refl). cbn [opt_tree_elems] in Hp. destruct (detach_run h1 t H1) as (h2 & E2 & H2 & O2); [by rewrite Hp|].
    rewrite (pbind_run _ _ _ _ _ E2). exists h2, (Some t.1), (elems c). split; [done|]. split; [|split; [by rewrite <- He|]].
    + apply is_heap_tree; [done|done| |done|done]. apply (combine_ordered key ph_compare c t Hkc); [|done]. by eapply bounded_ordered.
    + intros z Hz. rewrite O2, O1; [done|done|]. intros ->%list_elem_of_singleton. apply Hz. rewrite <- Hp. unfold tree_elems. set_solver +.
  - cbn [opt_tree_elems] in Hp. apply Permutation_nil_l in Hp. erewrite pbind_run by reflexivity.
    exists h1, None, []. split; [done|]. split; [apply is_heap_empty|]. rewrite <- Hp in O1. split; [|done].
    rewrite <- He. unfold tree_elems. cbn. by rewrite <- Hp.
Qed.

(** Removing any node. *)
Lemma remove_run key h root l x : is_heap key h root l -> x ∈ l ->
  exists h' root' l', pairingheap_remove fault ph_compare root x h = (h', inr root') /\
    is_heap key h' root' l' /\ l ≡ₚ x :: l' /\ only l h h'.
Proof.
  intros Hh Hx. unfold pairingheap_remove. case_decide as Hd.
  - subst root. destruct (remove_first_run key h x l Hh) as (h' & root' & l' & E & Hh' & Hp & O).
    rewrite (pbind_run _ _ _ _ _ E). exists h', root', l'. split; [done|]. split; [done|]. split; [done|].
    eapply only_sub; [|exact O]. intros z Hz. rewrite Hp. set_solver +Hz.
  - destruct (is_heap_cases _ _ _ _ Hh) as [[_ ->]|([y c] & -> & Hr & Ho & He)]; [set_solver +Hx|]. cbn [fst snd] in *.
    pose proof (heap_nodup _ _ _ _ Hh) as Hnd. assert (He' : elems (Tree y c Leaf) ≡ₚ l) by (cbn; by rewrite app_nil_r).
    assert (Hxc : x ∈ elems c) by (rewrite <- He in Hx; unfold tree_elems in Hx; cbn in Hx; set_solver +Hx Hd).
    rewrite <- He' in Hnd.
    destruct (unlink_run x _ h None y c Leaf eq_refl Hr Hnd) as (h' & E & H' & O); [set_solver +Hxc|].
    rewrite (pbind_run _ _ _ _ _ E). cbn [remove_tree] in H'. rewrite decide_False in H' by congruence.
    pose proof Hnd as [_ Hndc]%NoDup_cons. cbn in Hndc. rewrite app_nil_r in Hndc.
    pose proof (remove_tree_elems ph_compare x c Hndc Hxc) as Hc.
    assert (Hl : l ≡ₚ x :: tree_elems (y, remove_tree ph_compare x c)) by (rewrite <- He; unfold tree_elems; cbn; rewrite Hc; apply perm_swap).
    exists h', (Some y), (tree_elems (y, remove_tree ph_compare x c)). split; [done|]. split; [|split; [done|]].
    + apply (is_heap_tree key h' (y, remove_tree ph_compare x c)); [|done| | |done].
      * eapply compares_all_sub; [|apply Hh]. intros z Hz. rewrite Hl. set_solver +Hz.
      * apply remove_tree_bounded; [|done]. eapply compares_all_sub; [|apply Hh]. intros z Hz. rewrite <- He. unfold tree_elems. set_solver +Hz.
      * rewrite He' in Hnd. rewrite Hl in Hnd. by apply NoDup_cons in Hnd as [_ ?].
    + intros z Hz. apply O. by rewrite He'.
Qed.

(** The first node has the largest key. *)
Lemma first_max key h x l : is_heap key h (Some x) l -> x ∈ l /\ forall y, y ∈ l -> key y <= key x.
Proof.
  intros Hh. destruct (is_heap_cases _ _ _ _ Hh) as [[? _]|([z c] & [= ->] & Hr & Ho & He)]; [done|]. cbn [fst snd] in *.
  split; [rewrite <- He; unfold tree_elems; set_solver +|]. intros y. rewrite <- He. unfold tree_elems. cbn.
  intros [->|Hy]%elem_of_cons; [done|]. by eapply bounded_elem.
Qed.

Lemma is_heap_none key h root l : is_heap key h root l -> root = None <-> l = [].
Proof.
  intros Hh. destruct (is_heap_cases _ _ _ _ Hh) as [[-> ->]|(t & -> & _ & _ & He)]; [done|].
  split; [done|]. intros ->. by apply Permutation_nil_r in He.
Qed.

Lemma singular_run key h root l : is_heap key h root l ->
  pairingheap_is_singular fault root h = (h, inr (bool_decide (length l = 1%nat))).
Proof.
  intros Hh. destruct (is_heap_cases _ _ _ _ Hh) as [[-> ->]|([x c] & -> & (Hx & _) & _ & He)]; [done|].
  unfold pairingheap_is_singular. cbn [fst is_null]. rewrite (pbind_run _ _ _ _ _ (load_run _ _ _ Hx)). unfold pret. do 2 f_equal.
  apply Permutation_length in He. unfold tree_elems in He. cbn in He. rewrite <- He. destruct c; cbn; [by rewrite bool_decide_true|].
  rewrite bool_decide_false; [done|lia].
Qed.
End memory.

Lemma is_heap_ext key key' cmp cmp' h root l : (forall x, x ∈ l -> key' x = key x) -> compares_all key' cmp' l ->
  is_heap cmp key h root l -> is_heap cmp' key' h root l.
Proof.
  intros Hk Hc [_ (f & Hf & Hh & Hr & Ho & He) Hnd]. split; [done| |done]. exists f. split; [done|]. split; [done|]. split; [done|].
  split; [|done]. eapply ordered_ext; [|exact Ho]. intros x Hx. apply Hk. by rewrite <- He.
Qed.

(** ** Nodes stay in memory *)

Section same_nodes.
Context {R : Type} (fault : R) (ph_compare : positive -> positive -> Z).

Definition same_nodes {A} (m : prog Nodes R A) : Prop := forall h, dom (m h).1 = dom h.

Create HintDb nodes discriminated.

Lemma same_nodes_bind {A B} (m : prog Nodes R A) (k : A -> prog Nodes R B) :
  same_nodes m -> (forall a, same_nodes (k a)) -> same_nodes (pbind m k).
Proof. intros Hm Hk h. unfold pbind. specialize (Hm h). destruct (m h) as [h' [r|a]]; [done|]. rewrite Hk. done. Qed.
Lemma same_nodes_ret {A} (a : A) : same_nodes (pret a).
Proof. done. Qed.
Lemma same_nodes_return {A} (r : R) : same_nodes (preturn (A := A) r).
Proof. done. Qed.
Lemma same_nodes_get {A} (f : Nodes -> A) : same_nodes (pget f).
Proof. done. Qed.
Lemma same_nodes_load p : same_nodes (load fault p).
Proof. intros h. unfold load. by repeat case_match. Qed.
Lemma same_nodes_store p f : same_nodes (store fault p f).
Proof.
  intros h. unfold store. destruct p as [x|]; [|done]. destruct (h !! x) eqn:E; [|done]. cbn. rewrite dom_insert_L.
  apply elem_of_dom_2 in E. set_solver +E.
Qed.
Lemma same_nodes_when b m : same_nodes m -> same_nodes (pwhen b m).
Proof. by destruct b. Qed.
#[local] Hint Resolve same_nodes_bind same_nodes_ret same_nodes_return same_nodes_get same_nodes_load same_nodes_store same_nodes_when : nodes.

Lemma same_nodes_merge a b : same_nodes (merge fault ph_compare a b).
Proof. unfold merge. destruct a, b; auto with nodes. destruct (_ <? 0); auto 10 with nodes. Qed.
#[local] Hint Resolve same_nodes_merge : nodes.

Lemma same_nodes_pairs fuel : forall next pairs, same_nodes (merge_pairs fault ph_compare fuel next pairs).
Proof. induction fuel as [|fuel IH]; intros next pairs; cbn [merge_pairs]; auto with nodes. repeat (case_match || (apply same_nodes_bind; [|intros ?]) || auto with nodes). Qed.
Lemma same_nodes_list fuel : forall root next, same_nodes (merge_list fault ph_compare fuel root next).
Proof. induction fuel as [|fuel IH]; intros root next; cbn [merge_list]; auto with nodes. destruct (is_null next); auto with nodes. Qed.
#[local] Hint Resolve same_nodes_pairs same_nodes_list : nodes.
Lemma same_nodes_children c : same_nodes (merge_children fault ph_compare c).
Proof.
  unfold merge_children. destruct (is_null c); auto with nodes. apply same_nodes_bind; [auto with nodes|]. intros n.
  destruct (is_null _); auto 10 with nodes.
Qed.
#[local] Hint Resolve same_nodes_children : nodes.

Lemma same_nodes_add root x : same_nodes (pairingheap_add fault ph_compare root x).
Proof. unfold pairingheap_add, detach_root. auto 10 with nodes. Qed.

Lemma same_nodes_remove_first root : same_nodes (pairingheap_remove_first fault ph_compare root).
Proof. unfold pairingheap_remove_first, detach_root. auto 10 with nodes. Qed.

Lemma same_nodes_remove root x : same_nodes (pairingheap_remove fault ph_compare root x).
Proof.
  unfold pairingheap_remove, pairingheap_remove_first, detach_root, unlink_node. case_decide; [auto 10 with nodes|].
  repeat (apply same_nodes_bind; [|intros ?]); auto with nodes. destruct (negb _); auto 10 with nodes.
Qed.
End same_nodes.

(** ** A priority queue *)

Section queue.
Context {R : Type} (fault : R) (ph_compare : positive -> positive -> Z) (h0 : Nodes).

(** The states of a heap that is used as documented: a node is added when it
    is not in the heap, and removed when it is.  The list is what the heap is
    meant to hold. *)
Inductive used : Nodes -> option positive -> list positive -> Prop :=
  | used_new : used h0 None []
  | used_add h root l x h' root' :
      used h root l -> is_Some (h0 !! x) -> x ∉ l -> pairingheap_add fault ph_compare root x h = (h', inr root') -> used h' root' (x :: l)
  | used_remove_first h root l h' root' x l' :
      used h root l -> pairingheap_remove_first fault ph_compare root h = (h', inr (root', Some x)) -> l ≡ₚ x :: l' -> used h' root' l'
  | used_remove h root l h' root' x l' :
      used h root l -> pairingheap_remove fault ph_compare root x h = (h', inr root') -> l ≡ₚ x :: l' -> used h' root' l'.

Lemma used_heap key : (forall x y, is_Some (h0 !! x) -> is_Some (h0 !! y) -> compares key ph_compare x y) ->
  forall h root l, used h root l -> is_heap ph_compare key h root l /\ dom h = dom h0 /\ forall x, x ∈ l -> is_Some (h0 !! x).
Proof.
  intros Hk. induction 1 as [|h root l x h' root' _ (Hh & Hd & Hl) Hx Hxl E|h root l h' root' x l' _ (Hh & Hd & Hl) E Hp|h root l h' root' x l' _ (Hh & Hd & Hl) E Hp].
  - split; [apply is_heap_empty|]. split; [done|]. intros x Hx. set_solver +Hx.
  - assert (Hl' : forall z, z ∈ x :: l -> is_Some (h0 !! z)) by (intros z [->|Hz]%elem_of_cons; auto).
    destruct (add_run fault ph_compare key h root l x Hh) as (h1 & root1 & E1 & H1 & _); [by rewrite <- elem_of_dom, Hd, elem_of_dom|done| |].
    { intros y z Hy Hz. apply Hk; by apply Hl'. }
    rewrite E in E1. injection E1 as <- <-. split; [done|]. split; [|done]. pose proof (same_nodes_add fault ph_compare root x h) as Hs. rewrite E in Hs. by rewrite <- Hd.
  - destruct root as [y|]; [|by cbn in E]. destruct (remove_first_run fault ph_compare key h y l Hh) as (h1 & root1 & l1 & E1 & H1 & Hp1 & O1).
    rewrite E in E1. injection E1 as <- <- <-. rewrite Hp in Hp1. apply Permutation_cons_inv in Hp1.
    split; [by rewrite Hp1|]. split; [|intros z Hz; apply Hl; rewrite Hp; by right].
    pose proof (same_nodes_remove_first fault ph_compare (Some x) h) as Hs. rewrite E in Hs. by rewrite <- Hd.
  - assert (Hx : x ∈ l) by (rewrite Hp; left). destruct (remove_run fault ph_compare key h root l x Hh Hx) as (h1 & root1 & l1 & E1 & H1 & Hp1 & O1).
    rewrite E in E1. injection E1 as <- <-. rewrite Hp in Hp1. apply Permutation_cons_inv in Hp1.
    split; [by rewrite Hp1|]. split; [|intros z Hz; apply Hl; rewrite Hp; by right].
    pose proof (same_nodes_remove fault ph_compare root x h) as Hs. rewrite E in Hs. by rewrite <- Hd.
Qed.

(** C20. The pairing heap is a priority queue.  However it has been used, on
    nodes linked through pointers and merged in two passes, it holds exactly
    the nodes that were added and not removed; its first node compares at
    least as high as every other; and adding, removing the first and removing
    any node return, without following a wrong pointer, in every state in
    which they are allowed. *)
Theorem pairingheap_priority_queue key h root l : (forall x y, is_Some (h0 !! x) -> is_Some (h0 !! y) -> compares key ph_compare x y) ->
  used h root l ->
  NoDup l /\ (root = None <-> l = []) /\
  (forall x, root = Some x -> x ∈ l /\ forall y, y ∈ l -> 0 <= ph_compare x y) /\
  (forall x, is_Some (h0 !! x) -> x ∉ l -> exists h' root', pairingheap_add fault ph_compare root x h = (h', inr root')) /\
  (forall x, root = Some x -> exists h' root', pairingheap_remove_first fault ph_compare root h = (h', inr (root', Some x))) /\
  (forall x, x ∈ l -> exists h' root', pairingheap_remove fault ph_compare root x h = (h', inr root')) /\
  pairingheap_is_singular fault root h = (h, inr (bool_decide (length l = 1%nat))).
Proof.
  intros Hk Hu. destruct (used_heap key Hk _ _ _ Hu) as (Hh & Hd & Hl). split; [apply Hh|]. split; [by eapply is_heap_none|]. split; [|split; [|split; [|split]]].
  - intros x ->. destruct (first_max ph_compare key h x l Hh) as [Hx Hmax]. split; [done|]. intros y Hy. specialize (Hmax y Hy).
    pose proof (Hk x y (Hl x Hx) (Hl y Hy)) as E. unfold compares in E. lia.
  - intros x Hx Hxl. destruct (add_run fault ph_compare key h root l x Hh) as (h' & root' & E & _); [by rewrite <- elem_of_dom, Hd, elem_of_dom|done| |eauto].
    assert (Hl' : forall z, z ∈ x :: l -> is_Some (h0 !! z)) by (intros z [->|Hz]%elem_of_cons; auto). intros y z Hy Hz. apply Hk; by apply Hl'.
  - intros x ->. destruct (remove_first_run fault ph_compare key h x l Hh) as (h' & root' & l' & E & _). eauto.
  - intros x Hx. destruct (remove_run fault ph_compare key h root l x Hh Hx) as (h' & root' & l' & E & _). eauto.
  - by eapply singular_run.
Qed.
End queue.

(** Four nodes, ordered by their addresses. *)
Definition demo_nodes : Nodes := list_to_map ((fun x => (x, MkNode None None None)) <$> [1; 2; 3; 4])%positive.
Definition demo_compare (x y : positive) : Z := Zpos x - Zpos y.

#[local] Ltac add_all := first [apply used_new|eapply used_add; [add_all|by eexists|set_solver +|vm_compute; reflexivity]].

Lemma pairingheap_priority_queue_witness : exists h, used tt demo_compare demo_nodes h (Some 4%positive) [3; 1; 4; 2]%positive /\
  exists h' root', pairingheap_remove_first tt demo_compare (Some 4%positive) h = (h', inr (root', Some 4%positive)).
Proof.
  assert (Hu : exists h, used tt demo_compare demo_nodes h (Some 4%positive) [3; 1; 4; 2]%positive).
  { eexists. add_all. }
  destruct Hu as [h Hu]. exists h. split; [done|].
  apply (pairingheap_priority_queue tt demo_compare demo_nodes (fun x => Zpos x) h (Some 4%positive) [3; 1; 4; 2]%positive); [|done|done].
  intros x y _ _. unfold compares, demo_compare. lia.
Defined.
