(* ===== verification/TransactionId.v ===== *)
(** * Transaction identifiers

    The 32-bit [TransactionId] and the 64-bit [FullTransactionId]:
    [src/include/access/transam.h], the comparison functions of
    [src/backend/access/transam/transam.c] and [FullXidRelativeTo] of
    [src/backend/storage/ipc/procarray.c]. *)

From S2P Require Import Prelude.

Definition InvalidTransactionId : Z := 0.
Definition BootstrapTransactionId : Z := 1.
Definition FrozenTransactionId : Z := 2.
Definition FirstNormalTransactionId : Z := 3.
Definition MaxTransactionId : Z := 0xFFFFFFFF.

Definition TransactionIdIsValid (xid : Z) : bool := negb (xid =? InvalidTransactionId).
Definition TransactionIdIsNormal (xid : Z) : bool := FirstNormalTransactionId <=? xid.
Definition TransactionIdEquals (id1 id2 : Z) : bool := id1 =? id2.

(** ** Modulo-2^32 comparison *)

Definition TransactionIdPrecedes (id1 id2 : Z) : bool :=
  if negb (TransactionIdIsNormal id1) || negb (TransactionIdIsNormal id2)
  then id1 <? id2
  else i32 (id1 - id2) <? 0.

Definition TransactionIdPrecedesOrEquals (id1 id2 : Z) : bool :=
  if negb (TransactionIdIsNormal id1) || negb (TransactionIdIsNormal id2)
  then id1 <=? id2
  else i32 (id1 - id2) <=? 0.

Definition TransactionIdFollows (id1 id2 : Z) : bool :=
  if negb (TransactionIdIsNormal id1) || negb (TransactionIdIsNormal id2)
  then id2 <? id1
  else 0 <? i32 (id1 - id2).

Definition TransactionIdFollowsOrEquals (id1 id2 : Z) : bool :=
  if negb (TransactionIdIsNormal id1) || negb (TransactionIdIsNormal id2)
  then id2 <=? id1
  else 0 <=? i32 (id1 - id2).

Definition NormalTransactionIdPrecedes (id1 id2 : Z) : bool := i32 (id1 - id2) <? 0.
Definition NormalTransactionIdFollows (id1 id2 : Z) : bool := 0 <? i32 (id1 - id2).

(** [while (--nxids >= 0) if (Precedes (result, xids[nxids])) ...] scans the
    array from its end. *)
Fixpoint TransactionIdLatest_loop (result : Z) (xids_rev : list Z) : Z :=
  match xids_rev with
  | [] => result
  | x :: rest =>
      TransactionIdLatest_loop (if TransactionIdPrecedes result x then x else result) rest
  end.

Definition TransactionIdLatest (mainxid : Z) (xids : list Z) : Z :=
  TransactionIdLatest_loop mainxid (reverse xids).

(** ** 64-bit identifiers *)

Record FullTransactionId := MkFullTransactionId { value : Z }.

#[export] Instance FullTransactionId_eq_dec : EqDecision FullTransactionId.
Proof. solve_decision. Defined.

Definition EpochFromFullTransactionId (x : FullTransactionId) : Z :=
  u32 (Z.shiftr (value x) 32).
Definition XidFromFullTransactionId (x : FullTransactionId) : Z := u32 (value x).
Definition FullTransactionIdFromEpochAndXid (epoch xid : Z) : FullTransactionId :=
  MkFullTransactionId (Z.lor (u64 (Z.shiftl epoch 32)) xid).
Definition FullTransactionIdFromU64 (v : Z) : FullTransactionId := MkFullTransactionId v.

Definition FullTransactionIdPrecedes (a b : FullTransactionId) : bool := value a <? value b.
Definition FullTransactionIdFollows (a b : FullTransactionId) : bool := value b <? value a.
Definition FullTransactionIdFollowsOrEquals (a b : FullTransactionId) : bool :=
  value b <=? value a.
Definition FullTransactionIdIsValid (x : FullTransactionId) : bool :=
  TransactionIdIsValid (XidFromFullTransactionId x).
Definition FirstNormalFullTransactionId : FullTransactionId :=
  FullTransactionIdFromEpochAndXid 0 FirstNormalTransactionId.

(** [(dest)++; if (dest < FirstNormal) dest = FirstNormal]. *)
Definition TransactionIdAdvance (dest : Z) : Z :=
  let dest := u32 (dest + 1) in
  if dest <? FirstNormalTransactionId then FirstNormalTransactionId else dest.

(** [while (xid < FirstNormal) xid--]: at most three steps below
    [FirstNormalTransactionId] are needed to wrap to the top of the range. *)
Fixpoint xid_retreat_loop (fuel : nat) (xid : Z) : Z :=
  match fuel with
  | O => xid
  | S fuel =>
      if xid <? FirstNormalTransactionId then xid_retreat_loop fuel (u32 (xid - 1)) else xid
  end.

Definition TransactionIdRetreat (dest : Z) : Z := xid_retreat_loop 3 (u32 (dest - 1)).

Definition TransactionIdRetreatedBy (xid amount : Z) : Z :=
  xid_retreat_loop 3 (u32 (xid - amount)).

(** [while (XidFromFullTransactionId(dest) < FirstNormal) dest->value +/- 1]. *)
Fixpoint full_skip_loop (fuel : nat) (delta : Z) (dest : FullTransactionId) : FullTransactionId :=
  match fuel with
  | O => dest
  | S fuel =>
      if XidFromFullTransactionId dest <? FirstNormalTransactionId
      then full_skip_loop fuel delta (MkFullTransactionId (u64 (value dest + delta)))
      else dest
  end.

Definition FullTransactionIdAdvance (dest : FullTransactionId) : FullTransactionId :=
  let dest := MkFullTransactionId (u64 (value dest + 1)) in
  if FullTransactionIdPrecedes dest FirstNormalFullTransactionId then dest
  else full_skip_loop 3 1 dest.

Definition FullTransactionIdRetreat (dest : FullTransactionId) : FullTransactionId :=
  let dest := MkFullTransactionId (u64 (value dest - 1)) in
  if FullTransactionIdPrecedes dest FirstNormalFullTransactionId then dest
  else full_skip_loop 3 (-1) dest.

Definition TransactionIdOlder (a b : Z) : Z :=
  if negb (TransactionIdIsValid a) then b
  else if negb (TransactionIdIsValid b) then a
  else if TransactionIdPrecedes a b then a else b.

Definition FullTransactionIdNewer (a b : FullTransactionId) : FullTransactionId :=
  if negb (FullTransactionIdIsValid a) then b
  else if negb (FullTransactionIdIsValid b) then a
  else if FullTransactionIdFollows a b then a else b.

Definition FullTransactionIdFromAllowableAt (nextFullXid : FullTransactionId) (xid : Z)
  : FullTransactionId :=
  if negb (TransactionIdIsNormal xid) then FullTransactionIdFromEpochAndXid 0 xid
  else
    let epoch := EpochFromFullTransactionId nextFullXid in
    let epoch := if XidFromFullTransactionId nextFullXid <? xid then u32 (epoch - 1) else epoch in
    FullTransactionIdFromEpochAndXid epoch xid.

(** [rel + (int32) (xid - rel_xid)], computed in [uint64]. *)
Definition FullXidRelativeTo (rel : FullTransactionId) (xid : Z) : FullTransactionId :=
  let rel_xid := XidFromFullTransactionId rel in
  FullTransactionIdFromU64 (u64 (value rel + i32 (xid - rel_xid))).

(** ** Basic facts *)

#[export] Hint Unfold TransactionIdIsNormal TransactionIdIsValid InvalidTransactionId
  FirstNormalTransactionId : cint.

Ltac xid :=
  unfold TransactionIdPrecedes, TransactionIdPrecedesOrEquals, TransactionIdFollows,
    TransactionIdFollowsOrEquals, NormalTransactionIdPrecedes, NormalTransactionIdFollows,
    TransactionIdIsNormal, TransactionIdIsValid, TransactionIdEquals, InvalidTransactionId,
    BootstrapTransactionId, FrozenTransactionId, FirstNormalTransactionId in *;
  cint.

(** Shifting an epoch and or-ing an xid is addition: the fields do not overlap. *)
Lemma epoch_lor_xid epoch xid :
  is_u32 epoch -> is_u32 xid ->
  Z.lor (u64 (Z.shiftl epoch 32)) xid = epoch * 0x100000000 + xid.
Proof.
  intros He Hx. rewrite Z.shiftl_mul_pow2 by lia.
  change (2 ^ 32) with 0x100000000.
  rewrite u64_small by cint.
  rewrite Z.add_nocarry_lxor, Z.lxor_lor; [done| |];
    (apply Z.bits_inj'; intros n Hn; rewrite Z.land_spec, Z.bits_0;
     change 0x100000000 with (2 ^ 32); rewrite <- Z.shiftl_mul_pow2 by lia;
     rewrite Z.shiftl_spec by lia; destruct (Z.ltb_spec n 32);
     [rewrite Z.testbit_neg_r by lia; done|
      rewrite <- (Z.mod_small xid (2 ^ 32)) by (unfold is_u32 in Hx; lia);
      rewrite Z.mod_pow2_bits_high by lia; by rewrite andb_false_r]).
Qed.

Lemma epoch_xid_split f :
  is_u64 (value f) ->
  value f = EpochFromFullTransactionId f * 0x100000000 + XidFromFullTransactionId f.
Proof.
  intros H. unfold EpochFromFullTransactionId, XidFromFullTransactionId.
  rewrite Z.shiftr_div_pow2 by lia. change (2 ^ 32) with 0x100000000. cint.
Qed.

Lemma FullTransactionIdFromEpochAndXid_value epoch xid :
  is_u32 epoch -> is_u32 xid ->
  value (FullTransactionIdFromEpochAndXid epoch xid) = epoch * 0x100000000 + xid.
Proof. intros. by apply epoch_lor_xid. Qed.

Lemma FirstNormalFullTransactionId_value : value FirstNormalFullTransactionId = 3.
Proof. reflexivity. Qed.

(** A full identifier whose low 32 bits are a normal xid. *)
Definition full_normal (f : FullTransactionId) : Prop :=
  is_u64 (value f) /\ FirstNormalTransactionId <= XidFromFullTransactionId f.

(** ** Comparison in a window of 2^31

    All identifiers in use at one time lie within 2^31 of each other, and there
    the 32-bit comparisons are the comparisons of the full identifiers. *)

Lemma xid_diff_window a b :
  - 0x80000000 <= value a - value b < 0x80000000 ->
  i32 (XidFromFullTransactionId a - XidFromFullTransactionId b) = value a - value b.
Proof. unfold XidFromFullTransactionId. cint. Qed.

Lemma full_normal_is_normal f :
  full_normal f -> TransactionIdIsNormal (XidFromFullTransactionId f) = true.
Proof. intros [_ H]. by apply Z.leb_le. Qed.

Lemma full_normal_xid_u32 f : is_u32 (XidFromFullTransactionId f).
Proof. apply u32_range. Qed.

#[export] Hint Resolve full_normal_is_normal full_normal_xid_u32 : cint.

Section window.
Context (a b : FullTransactionId).
Context (Ha : full_normal a) (Hb : full_normal b).
Context (Hw : - 0x80000000 <= value a - value b < 0x80000000).

Lemma TransactionIdPrecedes_window :
  TransactionIdPrecedes (XidFromFullTransactionId a) (XidFromFullTransactionId b) =
  FullTransactionIdPrecedes a b.
Proof.
  unfold TransactionIdPrecedes. rewrite !full_normal_is_normal by done. simpl.
  rewrite xid_diff_window by done. unfold FullTransactionIdPrecedes. lia.
Qed.

Lemma TransactionIdPrecedesOrEquals_window :
  TransactionIdPrecedesOrEquals (XidFromFullTransactionId a) (XidFromFullTransactionId b) =
  (value a <=? value b).
Proof.
  unfold TransactionIdPrecedesOrEquals. rewrite !full_normal_is_normal by done. simpl.
  rewrite xid_diff_window by done. lia.
Qed.

Lemma TransactionIdFollows_window :
  TransactionIdFollows (XidFromFullTransactionId a) (XidFromFullTransactionId b) =
  FullTransactionIdFollows a b.
Proof.
  unfold TransactionIdFollows. rewrite !full_normal_is_normal by done. simpl.
  rewrite xid_diff_window by done. unfold FullTransactionIdFollows. lia.
Qed.

Lemma TransactionIdFollowsOrEquals_window :
  TransactionIdFollowsOrEquals (XidFromFullTransactionId a) (XidFromFullTransactionId b) =
  FullTransactionIdFollowsOrEquals a b.
Proof.
  unfold TransactionIdFollowsOrEquals. rewrite !full_normal_is_normal by done. simpl.
  rewrite xid_diff_window by done. unfold FullTransactionIdFollowsOrEquals. lia.
Qed.
End window.

(** ** Ranks

    Relative to a lower bound [lo] of the ids in use, an id has a rank; ids of
    rank below 2^31 are compared by it. *)

Section rank.
Context (lo : Z).

Definition xid_rank (xid : Z) : Z := u32 (xid - lo).

Definition in_use (xid : Z) : Prop :=
  is_u32 xid /\ TransactionIdIsNormal xid = true /\ xid_rank xid < 0x80000000.

Lemma rank_inj a b : is_u32 a -> is_u32 b -> xid_rank a = xid_rank b -> a = b.
Proof. unfold xid_rank. cint. Qed.

Lemma rank_diff a b : xid_rank a < 0x80000000 -> xid_rank b < 0x80000000 ->
  i32 (a - b) = xid_rank a - xid_rank b.
Proof. unfold xid_rank. cint. Qed.

Lemma precedes_rank a b : in_use a -> in_use b -> TransactionIdPrecedes a b = (xid_rank a <? xid_rank b).
Proof.
  intros (_ & Ha & Hra) (_ & Hb & Hrb). unfold TransactionIdPrecedes. rewrite Ha, Hb. cbn [negb orb].
  rewrite rank_diff by done. lia.
Qed.

Lemma normal_precedes_rank a b : in_use a -> in_use b -> NormalTransactionIdPrecedes a b = (xid_rank a <? xid_rank b).
Proof.
  intros (_ & Ha & Hra) (_ & Hb & Hrb). unfold NormalTransactionIdPrecedes. rewrite rank_diff by done. lia.
Qed.

Lemma precedes_eq_rank a b : in_use a -> in_use b -> TransactionIdPrecedesOrEquals a b = (xid_rank a <=? xid_rank b).
Proof.
  intros (_ & Ha & Hra) (_ & Hb & Hrb). unfold TransactionIdPrecedesOrEquals. rewrite Ha, Hb. cbn [negb orb].
  rewrite rank_diff by done. lia.
Qed.

Lemma follows_eq_rank a b : in_use a -> in_use b -> TransactionIdFollowsOrEquals a b = (xid_rank b <=? xid_rank a).
Proof.
  intros (_ & Ha & Hra) (_ & Hb & Hrb). unfold TransactionIdFollowsOrEquals. rewrite Ha, Hb. cbn [negb orb].
  rewrite rank_diff by done. lia.
Qed.

Lemma follows_rank a b : in_use a -> in_use b -> TransactionIdFollows a b = (xid_rank b <? xid_rank a).
Proof.
  intros (_ & Ha & Hra) (_ & Hb & Hrb). unfold TransactionIdFollows. rewrite Ha, Hb. cbn [negb orb].
  rewrite rank_diff by done. lia.
Qed.

Lemma in_use_valid a : in_use a -> TransactionIdIsValid a = true.
Proof.
  intros (_ & Ha & _). unfold TransactionIdIsValid, TransactionIdIsNormal, FirstNormalTransactionId, InvalidTransactionId in *. lia.
Qed.

Lemma older_rank a b : in_use a -> in_use b ->
  in_use (TransactionIdOlder a b) /\ xid_rank (TransactionIdOlder a b) = Z.min (xid_rank a) (xid_rank b).
Proof.
  intros Ha Hb. unfold TransactionIdOlder. rewrite !in_use_valid by done. cbn [negb].
  rewrite precedes_rank by done. destruct (Z.ltb_spec (xid_rank a) (xid_rank b)); split; (done || lia).
Qed.

(** The id after [xid]: no id in use lies between. *)
Lemma advance_rank xid a : in_use xid -> xid_rank xid < 0x7ffffff0 -> in_use a ->
  in_use (TransactionIdAdvance xid) /\
  (xid_rank a < xid_rank (TransactionIdAdvance xid) <-> xid_rank a <= xid_rank xid).
Proof.
  unfold in_use, TransactionIdAdvance, TransactionIdIsNormal, FirstNormalTransactionId, xid_rank.
  intros (Hx & Hn & Hr) Hlt (Ha & Han & Har). cint.
Qed.

Lemma advance_rank_le xid : in_use xid -> xid_rank (TransactionIdAdvance xid) <= xid_rank xid + 4.
Proof.
  unfold in_use, TransactionIdAdvance, TransactionIdIsNormal, FirstNormalTransactionId, xid_rank.
  intros (Hx & Hn & Hr). cint.
Qed.

(** An id that is not the first in use has a predecessor in use. *)
Lemma retreat_rank xid a b : in_use xid -> in_use b -> xid_rank b < xid_rank xid -> in_use a ->
  in_use (TransactionIdRetreat xid) /\
  (xid_rank a <= xid_rank (TransactionIdRetreat xid) <-> xid_rank a < xid_rank xid).
Proof.
  unfold in_use, TransactionIdRetreat, xid_retreat_loop, TransactionIdIsNormal, FirstNormalTransactionId, xid_rank.
  intros (Hx & Hn & Hr) (Hb & Hbn & Hbr) Hlt (Ha & Han & Har). cint.
Qed.
End rank.

(** The latest of several ids in use. *)
Lemma latest_loop_rank lo l : forall x, Forall (in_use lo) (x :: l) ->
  TransactionIdLatest_loop x l ∈ x :: l /\
  (forall y, y ∈ x :: l -> xid_rank lo y <= xid_rank lo (TransactionIdLatest_loop x l)).
Proof.
  induction l as [|z l IH]; intros x Hu; simpl.
  - split; [by left|]. by intros y ->%list_elem_of_singleton.
  - apply Forall_cons in Hu as [Hx Hu]. pose proof Hu as Hzu. apply Forall_cons in Hzu as [Hz Hl].
    rewrite (precedes_rank lo) by done. destruct (Z.ltb_spec (xid_rank lo x) (xid_rank lo z)) as [Hlt|Hge].
    + destruct (IH z Hu) as [Hin Hmax]. split; [by right|].
      intros y [->|Hy]%elem_of_cons; [specialize (Hmax z ltac:(by left)); lia|by apply Hmax].
    + destruct (IH x) as [Hin Hmax]; [by constructor|]. split.
      * apply elem_of_cons in Hin as [->|Hin]; [by left|by right; right].
      * intros y [->|[->|Hy]%elem_of_cons]%elem_of_cons; [apply Hmax; by left|specialize (Hmax x ltac:(by left)); lia|].
        apply Hmax. by right.
Qed.

Lemma latest_rank lo x l : Forall (in_use lo) (x :: l) ->
  TransactionIdLatest x l ∈ x :: l /\
  (forall y, y ∈ x :: l -> xid_rank lo y <= xid_rank lo (TransactionIdLatest x l)).
Proof.
  intros [Hx Hl]%Forall_cons. unfold TransactionIdLatest.
  destruct (latest_loop_rank lo (reverse l) x) as [Hin Hmax]; [constructor; [done|by apply Forall_reverse]|].
  split; [|intros y Hy; apply Hmax]; revert Hin; rewrite !elem_of_cons, ?elem_of_reverse; [done|].
  by apply elem_of_cons in Hy.
Qed.

(** The four modulo-2^32 comparisons of transam.c decide the order of the
    full (epoch-extended) transaction ids whenever both are normal and lie in
    the same half-open window [-2^31 <= a - b < 2^31]. *)
Theorem comparisons_in_window (a b : FullTransactionId) :
  full_normal a -> full_normal b ->
  - 0x80000000 <= value a - value b < 0x80000000 ->
  let x := XidFromFullTransactionId a in
  let y := XidFromFullTransactionId b in
  TransactionIdPrecedes x y = FullTransactionIdPrecedes a b /\
  TransactionIdPrecedesOrEquals x y = (value a <=? value b) /\
  TransactionIdFollows x y = FullTransactionIdFollows a b /\
  TransactionIdFollowsOrEquals x y = FullTransactionIdFollowsOrEquals a b.
Proof.
  intros Ha Hb Hw x y. subst x y.
  auto using TransactionIdPrecedes_window, TransactionIdPrecedesOrEquals_window,
    TransactionIdFollows_window, TransactionIdFollowsOrEquals_window.
Qed.

Lemma comparisons_in_window_witness :
  TransactionIdPrecedes 0xFFFFFFF0 5 = true.
Proof.
  apply (comparisons_in_window (MkFullTransactionId 0xFFFFFFF0) (MkFullTransactionId 0x100000005));
    repeat split; vm_compute; congruence.
Defined.

(** ** Stepping through the identifier space *)

(** Identifiers the 64-bit counter can hold: normal ones, and the three special
    ones of epoch zero. *)
Definition full_ok (f : FullTransactionId) : Prop :=
  is_u64 (value f) /\ (value f < 3 \/ 3 <= XidFromFullTransactionId f).

Lemma full_skip_loop_up f :
  0 <= value f < 0x10000000000000000 - 4 ->
  value (full_skip_loop 3 1 f) =
    value f + (if XidFromFullTransactionId f <? 3 then 3 - XidFromFullTransactionId f else 0).
Proof.
  intros H. unfold full_skip_loop, XidFromFullTransactionId, FirstNormalTransactionId. simpl.
  cint.
Qed.

Lemma full_skip_loop_down f :
  3 <= value f < 0x10000000000000000 ->
  value (full_skip_loop 3 (-1) f) =
    value f - (if XidFromFullTransactionId f <? 3 then XidFromFullTransactionId f + 1 else 0).
Proof.
  intros H. unfold full_skip_loop, XidFromFullTransactionId, FirstNormalTransactionId. simpl.
  cint.
Qed.

Lemma FullTransactionIdAdvance_value f :
  full_ok f -> value f < 0x10000000000000000 - 5 ->
  value (FullTransactionIdAdvance f) =
    value f + 1 + (if (3 <=? value f) && (XidFromFullTransactionId f =? 0xFFFFFFFF) then 3 else 0).
Proof.
  intros [H0 H1] Hlt. unfold FullTransactionIdAdvance, FullTransactionIdPrecedes.
  rewrite FirstNormalFullTransactionId_value. cbn [value].
  assert (E : u64 (value f + 1) = value f + 1) by cint. rewrite E.
  destruct (Z.ltb_spec (value f + 1) 3); cbn [value].
  - destruct (3 <=? value f) eqn:?; simpl; lia.
  - rewrite full_skip_loop_up by (cbn [value]; unfold is_u64 in *; lia).
    unfold XidFromFullTransactionId in *. cbn [value]. cint.
Qed.

Lemma FullTransactionIdRetreat_value f :
  full_ok f -> 0 < value f ->
  value (FullTransactionIdRetreat f) =
    value f - 1 - (if (3 <? value f) && (XidFromFullTransactionId f =? 3) then 3 else 0).
Proof.
  intros [H0 H1] Hlt. unfold FullTransactionIdRetreat, FullTransactionIdPrecedes.
  rewrite FirstNormalFullTransactionId_value. cbn [value].
  assert (E : u64 (value f - 1) = value f - 1) by cint. rewrite E.
  destruct (Z.ltb_spec (value f - 1) 3); cbn [value].
  - destruct (3 <? value f) eqn:?; simpl; [|lia].
    unfold XidFromFullTransactionId. cint.
  - rewrite full_skip_loop_down by (cbn [value]; unfold is_u64 in *; lia).
    unfold XidFromFullTransactionId in *. cbn [value]. cint.
Qed.

Lemma full_eq (f g : FullTransactionId) : value f = value g -> f = g.
Proof. destruct f, g. simpl. by intros ->. Qed.

(** Advancing the 64-bit counter yields the least larger identifier that is
    admissible (so it never hands out an identifier whose 32-bit part is
    special), and retreating undoes it. *)
Theorem advance_is_successor (f : FullTransactionId) :
  full_ok f -> value f < 0x10000000000000000 - 5 ->
  let g := FullTransactionIdAdvance f in
  full_ok g /\ value f < value g /\
  (forall h, full_ok h -> value f < value h -> value g <= value h) /\
  FullTransactionIdRetreat g = f.
Proof.
  intros Hf Hlt g.
  pose proof (FullTransactionIdAdvance_value f Hf Hlt) as Hg. fold g in Hg.
  assert (Hok : full_ok g).
  { unfold full_ok, XidFromFullTransactionId in *. cint. }
  split_and!; [done|unfold full_ok in *; cint| |].
  - intros h Hh Hfh. unfold full_ok, XidFromFullTransactionId in *. cint.
  - apply full_eq. rewrite FullTransactionIdRetreat_value by (done || (unfold full_ok in *; cint)).
    unfold full_ok, XidFromFullTransactionId in *. cint.
Qed.

Lemma advance_is_successor_witness :
  value (FullTransactionIdAdvance (MkFullTransactionId 0xFFFFFFFF)) = 0x100000003 /\
  FullTransactionIdRetreat (FullTransactionIdAdvance (MkFullTransactionId 0xFFFFFFFF))
    = MkFullTransactionId 0xFFFFFFFF.
Proof.
  split; [reflexivity|].
  apply (advance_is_successor (MkFullTransactionId 0xFFFFFFFF)); [|reflexivity].
  split; [split; vm_compute; congruence|right; vm_compute; congruence].
Defined.

(** ** Recovering the epoch *)

(** Both ways of widening a 32-bit xid recover the full identifier it came
    from: relative to the next identifier to be assigned when the xid was
    allowable then, and relative to any identifier within 2^31 of it. *)
Theorem widening_recovers_full (rel f : FullTransactionId) :
  full_normal f -> is_u64 (value rel) ->
  (value f <= value rel < value f + 0x100000000 ->
   FullTransactionIdFromAllowableAt rel (XidFromFullTransactionId f) = f) /\
  (- 0x80000000 <= value f - value rel < 0x80000000 ->
   FullXidRelativeTo rel (XidFromFullTransactionId f) = f).
Proof.
  intros Hf Hr. split; intros Hw; apply full_eq.
  - unfold FullTransactionIdFromAllowableAt. rewrite full_normal_is_normal by done.
    cbn [negb]. destruct Hf as [Hf _].
    pose proof (epoch_xid_split rel Hr) as Er. pose proof (epoch_xid_split f Hf) as Ef.
    assert (is_u32 (EpochFromFullTransactionId rel)) by apply u32_range.
    assert (is_u32 (EpochFromFullTransactionId f)) by apply u32_range.
    assert (is_u32 (XidFromFullTransactionId rel)) by apply u32_range.
    assert (is_u32 (XidFromFullTransactionId f)) by apply u32_range.
    rewrite FullTransactionIdFromEpochAndXid_value; cint.
  - unfold FullXidRelativeTo. simpl. rewrite xid_diff_window by lia.
    destruct Hf. cint.
Qed.

Lemma widening_recovers_full_witness :
  FullTransactionIdFromAllowableAt (MkFullTransactionId 0x200000010) 0xFFFFFFF0
    = MkFullTransactionId 0x1FFFFFFF0.
Proof.
  apply (widening_recovers_full (MkFullTransactionId 0x200000010) (MkFullTransactionId 0x1FFFFFFF0));
    repeat split; vm_compute; congruence.
Defined.

(** ** The latest of a transaction tree *)

Lemma TransactionIdLatest_loop_window m l :
  full_normal m -> Forall full_normal l ->
  (forall f g, f ∈ m :: l -> g ∈ m :: l -> value f - value g < 0x80000000) ->
  exists r, r ∈ m :: l /\ (forall f, f ∈ m :: l -> value f <= value r) /\
    TransactionIdLatest_loop (XidFromFullTransactionId m) (XidFromFullTransactionId <$> l)
      = XidFromFullTransactionId r.
Proof.
  revert m. induction l as [|x l IH]; intros m Hm Hl Hw; simpl.
  { exists m. split; [elem|]. split; [|done]. intros f Hf.
    apply list_elem_of_singleton in Hf. by subst. }
  apply Forall_cons in Hl as [Hx Hl].
  assert (Hmx : - 0x80000000 <= value m - value x < 0x80000000).
  { pose proof (Hw m x ltac:(elem) ltac:(elem)).
    pose proof (Hw x m ltac:(elem) ltac:(elem)). lia. }
  rewrite TransactionIdPrecedes_window by done. unfold FullTransactionIdPrecedes.
  destruct (Z.ltb_spec (value m) (value x)) as [Hlt|Hge].
  - destruct (IH x Hx Hl) as (r & Hin & Hmax & Heq).
    { intros f g Hf Hg. apply Hw; elem. }
    exists r. split; [elem|]. split; [|done]. intros f Hf.
    apply elem_of_cons in Hf as [->|Hf]; [|auto].
    specialize (Hmax x ltac:(elem)). lia.
  - destruct (IH m Hm Hl) as (r & Hin & Hmax & Heq).
    { intros f g Hf Hg. apply Hw; elem. }
    exists r. split; [elem|]. split; [|done]. intros f Hf.
    apply elem_of_cons in Hf as [->|Hf]; [apply Hmax; elem|].
    apply elem_of_cons in Hf as [->|Hf]; [|apply Hmax; elem].
    specialize (Hmax m ltac:(elem)). lia.
Qed.

(** [TransactionIdLatest] returns the xid of the latest member of a
    transaction tree, whatever the order of the children array and whether or
    not the tree straddles an epoch boundary. *)
Theorem latest_is_maximum (m : FullTransactionId) (l : list FullTransactionId) :
  full_normal m -> Forall full_normal l ->
  (forall f g, f ∈ m :: l -> g ∈ m :: l -> value f - value g < 0x80000000) ->
  exists r, r ∈ m :: l /\ (forall f, f ∈ m :: l -> value f <= value r) /\
    TransactionIdLatest (XidFromFullTransactionId m) (XidFromFullTransactionId <$> l)
      = XidFromFullTransactionId r.
Proof.
  intros Hm Hl Hw. unfold TransactionIdLatest. rewrite <- fmap_reverse.
  destruct (TransactionIdLatest_loop_window m (reverse l)) as (r & Hin & Hmax & Heq);
    [done|by rewrite Forall_reverse| |].
  { intros f g Hf Hg. apply Hw; elem. }
  exists r. split_and!; [elem| |done]. intros f Hf. apply Hmax. elem.
Qed.

Lemma latest_is_maximum_witness :
  exists r, TransactionIdLatest 0xFFFFFFF0 [0xFFFFFFF5; 4; 0xFFFFFFF7] = r /\ r = 4.
Proof.
  pose proof (latest_is_maximum (MkFullTransactionId 0xFFFFFFF0)
    [MkFullTransactionId 0xFFFFFFF5; MkFullTransactionId 0x100000004;
     MkFullTransactionId 0xFFFFFFF7]) as H.
  destruct H as (r & Hin & Hmax & Heq).
  - repeat split; vm_compute; congruence.
  - repeat constructor; vm_compute; congruence.
  - intros f g Hf Hg. set_unfold in Hf. set_unfold in Hg.
    repeat match goal with H : _ \/ _ |- _ => destruct H | H : False |- _ => destruct H end;
      subst; vm_compute; congruence.
  - eexists. split; [exact Heq|].
    specialize (Hmax (MkFullTransactionId 0x100000004) ltac:(elem)). simpl in Hmax.
    set_unfold in Hin.
    repeat match goal with H : _ \/ _ |- _ => destruct H | H : False |- _ => destruct H end;
      subst; simpl in *; try lia. reflexivity.
Defined.
