(* ===== verification/CurrentXids.v ===== *)
(** * Which transaction ids are mine

    The part of [src/backend/access/transam/xact.c] that answers whether a
    transaction id belongs to the running transaction: the stack of
    (sub)transaction states with the ids of their subcommitted children, and
    the sorted array that stands in for it in a parallel worker.  The stack
    is a list, innermost level first; an array is a list and its count the
    list's length.  [None] is [ereport(ERROR)]. *)

From S2P Require Import Prelude.
From S2P Require Import Search.
From S2P Require Import TransactionId.

Inductive TransState :=
  TRANS_DEFAULT | TRANS_START | TRANS_INPROGRESS | TRANS_COMMIT | TRANS_ABORT | TRANS_PREPARE.

#[export] Instance TransState_eq_dec : EqDecision TransState.
Proof. solve_decision. Defined.

Record TransactionStateData := MkTransactionState {
  fullTransactionId : FullTransactionId;
  ts_state : TransState;
  childXids : list Z;
  maxChildXids : Z;
}.

Record XactState := MkXactState {
  CurrentTransactionState : list TransactionStateData;
  XactTopFullTransactionId : FullTransactionId;
  ParallelCurrentXids : list Z;
}.

Definition InvalidFullTransactionId : FullTransactionId := MkFullTransactionId 0.

Definition GetTopTransactionIdIfAny (st : XactState) : Z :=
  XidFromFullTransactionId (XactTopFullTransactionId st).

(** The walk up the stack. *)
Fixpoint current_in_stack (xid : Z) (stack : list TransactionStateData) : bool :=
  match stack with
  | [] => false
  | s :: rest =>
      if decide (ts_state s = TRANS_ABORT) then current_in_stack xid rest
      else if negb (FullTransactionIdIsValid (fullTransactionId s)) then current_in_stack xid rest
      else if TransactionIdEquals xid (XidFromFullTransactionId (fullTransactionId s)) then true
      else if binary_search (S (length (childXids s))) TransactionIdEquals TransactionIdPrecedes
                (childXids s) xid 0 (zlength (childXids s) - 1)
      then true
      else current_in_stack xid rest
  end.

Definition TransactionIdIsCurrentTransactionId (st : XactState) (xid : Z) : bool :=
  if negb (TransactionIdIsNormal xid) then false
  else if TransactionIdEquals xid (GetTopTransactionIdIfAny st) then true
  else if 0 <? zlength (ParallelCurrentXids st) then
    binary_search (S (length (ParallelCurrentXids st))) Z.eqb Z.ltb (ParallelCurrentXids st) xid
      0 (zlength (ParallelCurrentXids st) - 1)
  else current_in_stack xid (CurrentTransactionState st).

(** ** End of a subtransaction *)

Definition MAX_CHILD_XIDS : Z := 0x3fffffff / 4.

Definition set_children (s : TransactionStateData) (l : list Z) (max : Z) : TransactionStateData :=
  MkTransactionState (fullTransactionId s) (ts_state s) l max.

Definition set_stack (st : XactState) (stack : list TransactionStateData) : XactState :=
  MkXactState stack (XactTopFullTransactionId st) (ParallelCurrentXids st).

Definition AtSubCommit_childXids (st : XactState) : option XactState :=
  match CurrentTransactionState st with
  | s :: parent :: rest =>
      let new_nChildXids := zlength (childXids parent) + zlength (childXids s) + 1 in
      max ← (if maxChildXids parent <? new_nChildXids then
               let new_maxChildXids := Z.min (new_nChildXids * 2) MAX_CHILD_XIDS in
               if new_maxChildXids <? new_nChildXids then None else Some new_maxChildXids
             else Some (maxChildXids parent));
      let parent :=
        set_children parent
          (childXids parent ++ XidFromFullTransactionId (fullTransactionId s) :: childXids s) max in
      Some (set_stack st (set_children s [] 0 :: parent :: rest))
  | _ => None
  end.

Definition AtSubAbort_childXids (st : XactState) : XactState :=
  match CurrentTransactionState st with
  | s :: rest => set_stack st (set_children s [] 0 :: rest)
  | [] => st
  end.

Definition PopTransaction (st : XactState) : option XactState :=
  match CurrentTransactionState st with
  | s :: parent :: rest => Some (set_stack st (parent :: rest))
  | _ => None
  end.

Definition xactGetCommittedChildren (st : XactState) : list Z :=
  match CurrentTransactionState st with s :: _ => childXids s | [] => [] end.

(** ** Parallel workers *)

Record SerializedTransactionState := MkSerializedTransactionState {
  topFullTransactionId : FullTransactionId;
  currentFullTransactionId : FullTransactionId;
  parallelCurrentXids : list Z;
}.

Definition level_xids (s : TransactionStateData) : list Z :=
  (if FullTransactionIdIsValid (fullTransactionId s)
   then [XidFromFullTransactionId (fullTransactionId s)] else []) ++ childXids s.

Definition workspace_xids (st : XactState) : list Z := CurrentTransactionState st ≫= level_xids.

(** [qsort] with [xidComparator], the numerical order. *)
Definition SerializeTransactionState (st : XactState) : SerializedTransactionState :=
  MkSerializedTransactionState (XactTopFullTransactionId st)
    (match CurrentTransactionState st with
     | s :: _ => fullTransactionId s | [] => InvalidFullTransactionId end)
    (if 0 <? zlength (ParallelCurrentXids st) then ParallelCurrentXids st
     else merge_sort Z.le (workspace_xids st)).

Definition EstimateTransactionStateSpace (header : Z) (st : XactState) : Z :=
  header + 4 * zlength (workspace_xids st).

(** The state of a worker that has just started its transaction. *)
Definition StartParallelWorkerTransaction (tstate : SerializedTransactionState) : XactState :=
  MkXactState [MkTransactionState (currentFullTransactionId tstate) TRANS_INPROGRESS [] 0]
    (topFullTransactionId tstate) (parallelCurrentXids tstate).

(** ** Specification *)

(** The ids that are mine: the top-level id, and either the array handed to a
    parallel worker or what the levels that are not being aborted hold. *)
Definition level_has (s : TransactionStateData) (xid : Z) : Prop :=
  ts_state s <> TRANS_ABORT /\ FullTransactionIdIsValid (fullTransactionId s) = true /\ xid ∈ level_xids s.

Definition in_levels (stack : list TransactionStateData) (xid : Z) : Prop :=
  exists s, s ∈ stack /\ level_has s xid.

Definition is_current (st : XactState) (xid : Z) : Prop :=
  TransactionIdIsNormal xid = true /\
  (xid = GetTopTransactionIdIfAny st \/
   match ParallelCurrentXids st with
   | [] => in_levels (CurrentTransactionState st) xid
   | l => xid ∈ l
   end).

(** Ids in the order of their assignment: the low halves of full ids that
    ascend and lie within 2^31 of each other. *)
Definition xids_ascending (l : list Z) : Prop :=
  exists fs, l = XidFromFullTransactionId <$> fs /\ Forall full_normal fs /\
    StronglySorted (fun a b => value a < value b) fs /\
    (forall a b, a ∈ fs -> b ∈ fs -> value b - value a < 0x80000000).

(** Outermost level first: the order in which the ids were assigned. *)
Definition stack_xids (stack : list TransactionStateData) : list Z := reverse stack ≫= level_xids.

Record stack_ok (stack : list TransactionStateData) : Prop := {
  so_ascending : xids_ascending (stack_xids stack);
  so_children : forall s, s ∈ stack -> FullTransactionIdIsValid (fullTransactionId s) = false -> childXids s = [];
  so_parents : StronglySorted (fun inner outer => FullTransactionIdIsValid (fullTransactionId inner) = true ->
                                 FullTransactionIdIsValid (fullTransactionId outer) = true) stack;
}.

Record xact_ok (st : XactState) : Prop := {
  xo_stack : stack_ok (CurrentTransactionState st);
  xo_parallel : StronglySorted Z.lt (ParallelCurrentXids st);
  xo_top : ParallelCurrentXids st = [] ->
    fullTransactionId <$> last (CurrentTransactionState st) = Some (XactTopFullTransactionId st);
}.

(** ** Ascending arrays *)

Lemma StronglySorted_app_parts {A} (R : A -> A -> Prop) l1 l2 :
  StronglySorted R (l1 ++ l2) -> StronglySorted R l1 /\ StronglySorted R l2.
Proof.
  induction l1 as [|x l1 IH]; simpl; [split; [constructor|done]|].
  intros H. apply StronglySorted_inv in H as [H Hx]. destruct (IH H) as [H1 H2].
  split; [|done]. constructor; [done|]. by apply Forall_app in Hx as [? _].
Qed.

Lemma StronglySorted_fmap {A B} (R : A -> A -> Prop) (Q : B -> B -> Prop) (f : A -> B) l :
  (forall x y, x ∈ l -> y ∈ l -> R x y -> Q (f x) (f y)) -> StronglySorted R l -> StronglySorted Q (f <$> l).
Proof.
  intros Hf Hs. induction Hs as [|x l Hs IH Hx]; simpl; constructor.
  - apply IH. intros y z Hy Hz. apply Hf; by right.
  - rewrite Forall_forall in Hx. apply Forall_forall. intros y (z & -> & Hz)%list_elem_of_fmap.
    apply Hf; [by left|by right|by apply Hx].
Qed.

Lemma xids_ascending_app l1 l2 : xids_ascending (l1 ++ l2) -> xids_ascending l1 /\ xids_ascending l2.
Proof.
  intros (fs & E & Hn & Hs & Hw). symmetry in E. apply fmap_app_inv in E as (f1 & f2 & -> & -> & ->).
  apply Forall_app in Hn as [??]. apply StronglySorted_app_parts in Hs as [??].
  split; [exists f1|exists f2]; split_and!; try done; intros; apply Hw; apply elem_of_app; tauto.
Qed.

Lemma xids_ascending_search l xid : xids_ascending l ->
  binary_search (S (length l)) TransactionIdEquals TransactionIdPrecedes l xid 0 (zlength l - 1) = true <-> xid ∈ l.
Proof.
  intros (fs & -> & Hn & Hs & Hw). rewrite Forall_forall in Hn.
  apply (binary_search_sorted _ _ _ (fun x => i32 (x - xid))).
  intros (f & -> & Hf)%list_elem_of_fmap.
  assert (forall g, g ∈ fs -> i32 (XidFromFullTransactionId g - XidFromFullTransactionId f) = value g - value f) as Hd.
  { intros g Hg. apply xid_diff_window. pose proof (Hw f g Hf Hg). pose proof (Hw g f Hg Hf). lia. }
  split.
  - revert Hs. apply StronglySorted_fmap. intros g h Hg Hh ?. rewrite !Hd by done. lia.
  - intros x (g & -> & Hg)%list_elem_of_fmap. unfold TransactionIdPrecedes.
    rewrite !full_normal_is_normal by auto. simpl. by rewrite (Z.sub_diag (XidFromFullTransactionId f)).
Qed.

Lemma stack_xids_cons s stack : stack_xids (s :: stack) = stack_xids stack ++ level_xids s.
Proof. unfold stack_xids. rewrite reverse_cons, bind_app. simpl. by rewrite app_nil_r. Qed.

Lemma stack_ok_tail s stack : stack_ok (s :: stack) -> stack_ok stack.
Proof.
  intros [Ha Hc Hp]. split.
  - rewrite stack_xids_cons in Ha. by apply xids_ascending_app in Ha as [? _].
  - intros t Ht. apply Hc. by right.
  - by apply StronglySorted_inv in Hp as [? _].
Qed.

Lemma stack_ok_children s stack : stack_ok (s :: stack) -> xids_ascending (childXids s).
Proof.
  intros [Ha _ _]. rewrite stack_xids_cons in Ha. apply xids_ascending_app in Ha as [_ Ha].
  by apply xids_ascending_app in Ha as [_ ?].
Qed.

Lemma in_levels_cons s stack xid : in_levels (s :: stack) xid <-> level_has s xid \/ in_levels stack xid.
Proof.
  unfold in_levels. setoid_rewrite elem_of_cons. split.
  - intros (t & [->|?] & ?); [by left|right; by exists t].
  - intros [?|(t & ? & ?)]; [by exists s; auto|exists t; auto].
Qed.

Lemma current_in_stack_spec xid stack : stack_ok stack ->
  current_in_stack xid stack = true <-> in_levels stack xid.
Proof.
  induction stack as [|s stack IH]; intros Hok; cbn [current_in_stack].
  { split; [done|]. intros (s & Hs & _). by apply not_elem_of_nil in Hs. }
  rewrite in_levels_cons, <- (IH (stack_ok_tail _ _ Hok)). unfold level_has.
  destruct (decide (ts_state s = TRANS_ABORT)) as [Hst|Hst]; [tauto|].
  destruct (FullTransactionIdIsValid (fullTransactionId s)) eqn:Ev; cbn [negb]; [|intuition congruence].
  pose proof (xids_ascending_search _ xid (stack_ok_children _ _ Hok)) as Hb.
  unfold level_xids. rewrite Ev, elem_of_app, list_elem_of_singleton, <- Hb, <- Z.eqb_eq.
  unfold TransactionIdEquals at 1. destruct (xid =? _), (binary_search _ _ _ _ _ _ _); intuition congruence.
Qed.

Lemma parallel_search l xid : StronglySorted Z.lt l ->
  binary_search (S (length l)) Z.eqb Z.ltb l xid 0 (zlength l - 1) = true <-> xid ∈ l.
Proof. intros Hs. apply (binary_search_sorted _ _ _ id). intros _. by split. Qed.

Lemma is_current_spec st xid : xact_ok st ->
  TransactionIdIsCurrentTransactionId st xid = true <-> is_current st xid.
Proof.
  intros [Hs Hp _]. unfold TransactionIdIsCurrentTransactionId, is_current, TransactionIdEquals.
  destruct (TransactionIdIsNormal xid); cbn [negb]; [|intuition congruence].
  destruct (Z.eqb_spec xid (GetTopTransactionIdIfAny st)) as [|Hne]; [tauto|].
  destruct (ParallelCurrentXids st) as [|p l] eqn:E.
  - simpl. rewrite current_in_stack_spec by done. tauto.
  - rewrite (proj2 (Z.ltb_lt _ _)) by (unfold zlength; simpl; lia). rewrite parallel_search by done. tauto.
Qed.

(** ** Subtransaction end *)

Lemma xids_ascending_NoDup l : xids_ascending l -> NoDup l.
Proof.
  intros (fs & -> & Hn & Hs & Hw). apply NoDup_fmap_2_strong.
  - intros f g Hf Hg E. apply full_eq. pose proof (Hw f g Hf Hg). pose proof (Hw g f Hg Hf).
    pose proof (xid_diff_window f g ltac:(lia)) as Hd. rewrite E, Z.sub_diag in Hd. change (i32 0) with 0 in Hd. lia.
  - clear Hn Hw. induction Hs as [|f fs Hs IH Hf]; constructor; [|done].
    intros Hin. rewrite Forall_forall in Hf. specialize (Hf f Hin). lia.
Qed.

Lemma AtSubCommit_shape st s parent rest st' :
  CurrentTransactionState st = s :: parent :: rest -> AtSubCommit_childXids st = Some st' ->
  exists max, st' = set_stack st (set_children s [] 0 ::
    set_children parent (childXids parent ++ XidFromFullTransactionId (fullTransactionId s) :: childXids s) max :: rest).
Proof.
  unfold AtSubCommit_childXids. intros -> H. apply bind_Some in H as (max & _ & [= <-]). by exists max.
Qed.

Lemma level_xids_valid s : FullTransactionIdIsValid (fullTransactionId s) = true ->
  level_xids s = XidFromFullTransactionId (fullTransactionId s) :: childXids s.
Proof. unfold level_xids. by intros ->. Qed.

(** Handing a level's ids to its parent keeps the sequence of all ids. *)
Lemma stack_xids_merge s parent rest max :
  FullTransactionIdIsValid (fullTransactionId s) = true ->
  let parent' := set_children parent (childXids parent ++ XidFromFullTransactionId (fullTransactionId s) :: childXids s) max in
  level_xids parent' = level_xids parent ++ level_xids s /\
  stack_xids (parent' :: rest) = stack_xids (s :: parent :: rest).
Proof.
  intros Hv parent'. assert (level_xids parent' = level_xids parent ++ level_xids s) as E.
  { rewrite (level_xids_valid s Hv). unfold level_xids at 1 2. simpl. by rewrite <- app_assoc. }
  split; [done|]. by rewrite !stack_xids_cons, E, <- app_assoc.
Qed.

Lemma stack_ok_merge s parent rest max :
  FullTransactionIdIsValid (fullTransactionId s) = true -> stack_ok (s :: parent :: rest) ->
  stack_ok (set_children parent (childXids parent ++ XidFromFullTransactionId (fullTransactionId s) :: childXids s) max :: rest).
Proof.
  intros Hv Hok. pose proof (stack_ok_tail _ _ Hok) as Hok1. destruct Hok as [Ha Hc Hp]. split.
  - by rewrite (proj2 (stack_xids_merge s parent rest max Hv)).
  - apply StronglySorted_inv in Hp as [_ Hp]. rewrite Forall_forall in Hp.
    intros t [->|Ht]%elem_of_cons Ev; simpl in Ev; [|apply Hc; [by do 2 right|done]].
    specialize (Hp parent ltac:(by left) Hv). congruence.
  - destruct Hok1 as [_ _ Hp1]. apply StronglySorted_inv in Hp1 as [H1 H2]. by constructor.
Qed.

(** A transaction that is not a parallel worker, with a live subtransaction
    that has an id on top of a live parent. *)
Record in_subxact (st : XactState) (s parent : TransactionStateData) (rest : list TransactionStateData) : Prop := {
  is_stack : CurrentTransactionState st = s :: parent :: rest;
  is_leader : ParallelCurrentXids st = [];
  is_valid : FullTransactionIdIsValid (fullTransactionId s) = true;
  is_live : ts_state s <> TRANS_ABORT /\ ts_state parent <> TRANS_ABORT;
}.

Lemma parent_valid st s parent rest : xact_ok st -> in_subxact st s parent rest ->
  FullTransactionIdIsValid (fullTransactionId parent) = true.
Proof.
  intros [[_ _ Hp] _ _] [E _ Hv _]. rewrite E in Hp. apply StronglySorted_inv in Hp as [_ Hp].
  rewrite Forall_forall in Hp. apply Hp; [by left|done].
Qed.

Lemma sub_commit_current st s parent rest st1 st2 : xact_ok st -> in_subxact st s parent rest ->
  AtSubCommit_childXids st = Some st1 -> PopTransaction st1 = Some st2 ->
  xact_ok st2 /\ (forall xid, is_current st2 xid <-> is_current st xid).
Proof.
  intros Hok Hin H1 H2. pose proof (parent_valid _ _ _ _ Hok Hin) as Hpv. destruct Hin as [E Hl Hv [Hs Hp]].
  destruct (AtSubCommit_shape _ _ _ _ _ E H1) as [max ->]. injection H2 as <-.
  destruct (stack_xids_merge s parent rest max Hv) as [Hlx Hsx].
  pose proof Hok as [Hso Hpo Hto]. rewrite E in Hso. split.
  - split; simpl; [by apply stack_ok_merge|done|]. intros _. rewrite <- Hto, E by done. by destruct rest.
  - intros xid. unfold is_current, GetTopTransactionIdIfAny. simpl. rewrite Hl, E, !in_levels_cons.
    unfold level_has at 1. rewrite Hlx, elem_of_app. unfold level_has. simpl. tauto.
Qed.

Lemma stack_xids_elem stack xid : xid ∈ stack_xids stack <-> exists s, s ∈ stack /\ xid ∈ level_xids s.
Proof.
  unfold stack_xids. rewrite list_elem_of_bind. setoid_rewrite elem_of_reverse.
  split; intros (s & ? & ?); by exists s.
Qed.

Lemma top_in_stack st stack : fullTransactionId <$> last stack = Some (XactTopFullTransactionId st) ->
  TransactionIdIsNormal (GetTopTransactionIdIfAny st) = true ->
  GetTopTransactionIdIfAny st ∈ stack_xids stack.
Proof.
  intros (t & Ht & E)%fmap_Some Hn. apply stack_xids_elem. exists t. split; [by apply last_Some_elem_of|].
  unfold GetTopTransactionIdIfAny in *. rewrite E in *. rewrite level_xids_valid; [by left|].
  unfold FullTransactionIdIsValid, TransactionIdIsValid, TransactionIdIsNormal, FirstNormalTransactionId in *.
  apply negb_true_iff, Z.eqb_neq. unfold InvalidTransactionId. lia.
Qed.

Lemma sub_abort_current st s parent rest st2 : xact_ok st -> in_subxact st s parent rest ->
  PopTransaction (AtSubAbort_childXids st) = Some st2 ->
  xact_ok st2 /\ (forall xid, is_current st2 xid <-> is_current st xid /\ xid ∉ level_xids s).
Proof.
  intros Hok Hin H2. destruct Hin as [E Hl Hv [Hs Hp]].
  unfold AtSubAbort_childXids in H2. rewrite E in H2. injection H2 as <-.
  destruct Hok as [Hso Hpo Hto]. rewrite E in Hso. split.
  - split; simpl; [by eapply stack_ok_tail|done|]. intros _. by rewrite <- Hto, E by done.
  - intros xid. unfold is_current, GetTopTransactionIdIfAny. simpl. rewrite Hl, E, (in_levels_cons s).
    pose proof (xids_ascending_NoDup _ (so_ascending _ Hso)) as Hnd.
    rewrite stack_xids_cons, NoDup_app in Hnd. destruct Hnd as (_ & Hnd & _).
    specialize (Hnd xid). split.
    + intros (Hn & Hx). assert (xid ∈ stack_xids (parent :: rest)) as Hm; [|tauto].
      destruct Hx as [->|(t & Ht & _ & _ & Hx)]; [|apply stack_xids_elem; by exists t].
      apply (top_in_stack st); [|done]. by rewrite <- (Hto Hl), E.
    + unfold level_has. tauto.
Qed.

(** ** Parallel workers *)

Lemma sorted_lt_of_NoDup l : NoDup l -> StronglySorted Z.le l -> StronglySorted Z.lt l.
Proof.
  intros Hnd Hs. induction Hs as [|x l Hs IH Hx]; constructor; apply NoDup_cons in Hnd as [Hni Hnd]; [by apply IH|].
  rewrite Forall_forall in Hx. apply Forall_forall. intros y Hy. specialize (Hx y Hy).
  assert (x <> y) by (intros ->; done). lia.
Qed.

Lemma workspace_elem st xid : xid ∈ workspace_xids st <-> xid ∈ stack_xids (CurrentTransactionState st).
Proof.
  rewrite stack_xids_elem. unfold workspace_xids. rewrite list_elem_of_bind.
  split; intros (s & ? & ?); by exists s.
Qed.

Lemma workspace_NoDup st : stack_ok (CurrentTransactionState st) -> NoDup (workspace_xids st).
Proof.
  intros [Ha _ _]. apply xids_ascending_NoDup in Ha. unfold workspace_xids, stack_xids in *.
  by rewrite reverse_Permutation in Ha.
Qed.

Lemma workspace_sorted st : stack_ok (CurrentTransactionState st) ->
  StronglySorted Z.lt (merge_sort Z.le (workspace_xids st)).
Proof.
  intros Hok. apply sorted_lt_of_NoDup; [|apply StronglySorted_merge_sort; apply _].
  rewrite merge_sort_Permutation. by apply workspace_NoDup.
Qed.

(** No level is being aborted: the state in which workers are launched. *)
Definition all_live (st : XactState) : Prop := forall s, s ∈ CurrentTransactionState st -> ts_state s <> TRANS_ABORT.

Lemma in_levels_workspace st xid : xact_ok st -> all_live st ->
  in_levels (CurrentTransactionState st) xid <-> xid ∈ workspace_xids st.
Proof.
  intros [[_ Hc _] _ _] Hl. rewrite workspace_elem, stack_xids_elem. split.
  - intros (s & Hs & _ & _ & Hx). by exists s.
  - intros (s & Hs & Hx). exists s. split; [done|]. split_and!; [by apply Hl| |done].
    destruct (FullTransactionIdIsValid (fullTransactionId s)) eqn:E; [done|].
    unfold level_xids in Hx. rewrite E, (Hc s Hs E) in Hx. by apply not_elem_of_nil in Hx.
Qed.

(** ** Properties *)

(** A transaction id is reported as belonging to the current transaction
    exactly when it is the top-level id, or is held by a level of the stack
    that is not being aborted (its own id or a subcommitted child's), or, in a
    parallel worker, is in the array the leader sent: neither binary search
    misses an entry, although one of the arrays is in modulo-2^32 order. *)
Theorem current_xid_exact st xid :
  xact_ok st -> TransactionIdIsCurrentTransactionId st xid = true <-> is_current st xid.
Proof. apply is_current_spec. Qed.

(** The end of a subtransaction.  When it commits, its ids go to the
    parent in an order that keeps the search correct and exactly the same ids
    remain mine; when it aborts, its id and its children's ids stop being
    mine and nothing else changes.  Committing fails only at the limit on the
    number of committed subtransactions. *)
Theorem subxact_end_current st s parent rest :
  xact_ok st -> in_subxact st s parent rest ->
  (zlength (childXids parent) + zlength (childXids s) + 1 <= MAX_CHILD_XIDS ->
   is_Some (AtSubCommit_childXids st)) /\
  (forall st1 st2, AtSubCommit_childXids st = Some st1 -> PopTransaction st1 = Some st2 ->
     xact_ok st2 /\
     forall xid, TransactionIdIsCurrentTransactionId st2 xid = TransactionIdIsCurrentTransactionId st xid) /\
  (forall st2, PopTransaction (AtSubAbort_childXids st) = Some st2 ->
     xact_ok st2 /\
     forall xid, TransactionIdIsCurrentTransactionId st2 xid = true <->
                 TransactionIdIsCurrentTransactionId st xid = true /\ xid ∉ level_xids s).
Proof.
  intros Hok Hin. split_and!.
  - intros Hlim. unfold AtSubCommit_childXids. rewrite (is_stack _ _ _ _ Hin).
    destruct (_ <? _); [|by eexists]. rewrite (proj2 (Z.ltb_ge _ _)); [by eexists|].
    unfold zlength in *. lia.
  - intros st1 st2 H1 H2. destruct (sub_commit_current _ _ _ _ _ _ Hok Hin H1 H2) as [Hok2 Hc].
    split; [done|]. intros xid. apply eq_true_iff_eq. by rewrite !is_current_spec.
  - intros st2 H2. destruct (sub_abort_current _ _ _ _ _ Hok Hin H2) as [Hok2 Hc].
    split; [done|]. intros xid. by rewrite !is_current_spec.
Qed.

(** A parallel worker considers exactly the leader's transaction ids its
    own, whether the leader is an ordinary backend or itself a worker. *)
Theorem worker_shares_current st xid :
  xact_ok st -> all_live st ->
  TransactionIdIsCurrentTransactionId (StartParallelWorkerTransaction (SerializeTransactionState st)) xid
  = TransactionIdIsCurrentTransactionId st xid.
Proof.
  intros Hok Hl. apply eq_true_iff_eq. rewrite (is_current_spec st) by done.
  unfold TransactionIdIsCurrentTransactionId, is_current, TransactionIdEquals, GetTopTransactionIdIfAny.
  cbn [StartParallelWorkerTransaction SerializeTransactionState XactTopFullTransactionId ParallelCurrentXids
       CurrentTransactionState parallelCurrentXids topFullTransactionId currentFullTransactionId].
  destruct (TransactionIdIsNormal xid); cbn [negb]; [|intuition congruence].
  destruct (Z.eqb_spec xid (XidFromFullTransactionId (XactTopFullTransactionId st))) as [|Hne]; [tauto|].
  destruct (ParallelCurrentXids st) as [|p l] eqn:E.
  - pose proof (in_levels_workspace st xid Hok Hl) as Hw. cbn [zlength length Z.of_nat Z.ltb Z.compare].
    pose proof (merge_sort_Permutation Z.le (workspace_xids st)) as Hp.
    rewrite Hw. assert (xid ∈ workspace_xids st <-> xid ∈ merge_sort Z.le (workspace_xids st)) as -> by by rewrite Hp.
    destruct (merge_sort Z.le (workspace_xids st)) as [|y m] eqn:Em.
    + apply Permutation_nil_l in Hp. cbn [zlength length Z.of_nat Z.ltb Z.compare].
      split; [|rewrite elem_of_nil; tauto]. intros Hc. exfalso. revert Hc. cbn [current_in_stack ts_state].
      rewrite decide_False by done. cbn [fullTransactionId]. destruct (CurrentTransactionState st) as [|s rest] eqn:Es; [done|].
      unfold workspace_xids in Hp. rewrite Es in Hp. simpl in Hp. symmetry in Hp. apply app_nil in Hp as [Hp _].
      unfold level_xids in Hp. by destruct (FullTransactionIdIsValid (fullTransactionId s)).
    + rewrite (proj2 (Z.ltb_lt _ _)) by (unfold zlength; simpl; lia). rewrite parallel_search; [tauto|].
      rewrite <- Em. apply workspace_sorted, Hok.
  - rewrite !(proj2 (Z.ltb_lt _ _)) by (unfold zlength; simpl; lia).
    rewrite parallel_search; [tauto|]. rewrite <- E. apply Hok.
Qed.

(** Transaction 100 with the subcommitted child 101, inside subtransaction
    103 with the subcommitted child 104. *)
Definition demo_xact : XactState :=
  MkXactState [MkTransactionState (MkFullTransactionId 103) TRANS_INPROGRESS [104] 8;
               MkTransactionState (MkFullTransactionId 100) TRANS_INPROGRESS [101] 8]
    (MkFullTransactionId 100) [].

Lemma demo_xact_ok : xact_ok demo_xact.
Proof.
  split; simpl; [split| |done].
  - exists (MkFullTransactionId <$> [100; 101; 103; 104]). split; [reflexivity|]. simpl. split_and!.
    + apply Forall_forall. intros f. rewrite !elem_of_cons, !elem_of_nil.
      intros [->|[->|[->|[->|[]]]]]; split; by vm_compute.
    + repeat first [apply SSorted_nil | apply SSorted_cons | apply List.Forall_nil | apply List.Forall_cons];
        simpl; lia.
    + intros a b. rewrite !elem_of_cons, !elem_of_nil.
      intros [->|[->|[->|[->|[]]]]] [->|[->|[->|[->|[]]]]]; simpl; lia.
  - intros s. rewrite !elem_of_cons, elem_of_nil. intros [->|[->|[]]]; done.
  - repeat constructor.
  - constructor.
Qed.

Lemma current_xid_exact_witness :
  TransactionIdIsCurrentTransactionId demo_xact 101 = true /\ is_current demo_xact 101.
Proof.
  pose proof (current_xid_exact demo_xact 101 demo_xact_ok) as H.
  assert (TransactionIdIsCurrentTransactionId demo_xact 101 = true) as E by (vm_compute; reflexivity).
  split; [exact E|by apply H].
Defined.

Lemma subxact_end_current_witness :
  exists st1 st2 st3, AtSubCommit_childXids demo_xact = Some st1 /\ PopTransaction st1 = Some st2 /\
    TransactionIdIsCurrentTransactionId st2 104 = TransactionIdIsCurrentTransactionId demo_xact 104 /\
    PopTransaction (AtSubAbort_childXids demo_xact) = Some st3 /\
    ~ TransactionIdIsCurrentTransactionId st3 104 = true.
Proof.
  destruct (subxact_end_current demo_xact
    (MkTransactionState (MkFullTransactionId 103) TRANS_INPROGRESS [104] 8)
    (MkTransactionState (MkFullTransactionId 100) TRANS_INPROGRESS [101] 8) []) as (_ & H1 & H2).
  - apply demo_xact_ok.
  - by split.
  - eexists _, _, _. split; [reflexivity|]. split; [reflexivity|].
    destruct (H1 _ _ eq_refl eq_refl) as [_ Hc]. split; [apply Hc|]. split; [reflexivity|].
    destruct (H2 _ eq_refl) as [_ Ha]. rewrite Ha. intros [_ Hn]. apply Hn.
    vm_compute. right. left.
Defined.

Lemma worker_shares_current_witness :
  TransactionIdIsCurrentTransactionId (StartParallelWorkerTransaction (SerializeTransactionState demo_xact)) 104 = true.
Proof.
  rewrite (worker_shares_current demo_xact 104 demo_xact_ok); [reflexivity|].
  intros s. simpl. rewrite !elem_of_cons, elem_of_nil. intros [->|[->|[]]]; done.
Defined.

(** While the top level itself is being aborted its id is still reported as
    current: the test against the top-level id comes before the walk that
    skips aborting levels. *)
Lemma aborting_top_is_current :
  TransactionIdIsCurrentTransactionId
    (MkXactState [MkTransactionState (MkFullTransactionId 100) TRANS_ABORT [] 0] (MkFullTransactionId 100) []) 100 = true.
Proof. reflexivity. Qed.
