(* ===== verification/Varsup.v ===== *)
(** * Transaction id limits and object ids

    [TransamVariables] (declared in [src/include/access/transam.h]) and the
    functions of [src/backend/access/transam/varsup.c] that work on it alone.
    Allocating a transaction id also extends the logs and changes the array of
    running transactions and is modelled in [NewXid]. *)

From S2P Require Import Prelude.
From S2P Require Import TransactionId.

Record TransamVariablesData := MkTransamVariables {
  nextOid : Z;
  oidCount : Z;
  nextXid : FullTransactionId;
  oldestXid : Z;
  xidVacLimit : Z;
  xidWarnLimit : Z;
  xidStopLimit : Z;
  xidWrapLimit : Z;
  oldestXidDB : Z;
  latestCompletedXid : FullTransactionId;
  xactCompletionCount : Z;
  oldestClogXid : Z;
}.

Definition FirstGenbkiObjectId : Z := 10000.
Definition FirstUnpinnedObjectId : Z := 12000.
Definition FirstNormalObjectId : Z := 16384.
Definition VAR_OID_PREFETCH : Z := 8192.

Definition set_oids (tv : TransamVariablesData) (oid count : Z) : TransamVariablesData :=
  MkTransamVariables oid count (nextXid tv) (oldestXid tv) (xidVacLimit tv) (xidWarnLimit tv)
    (xidStopLimit tv) (xidWrapLimit tv) (oldestXidDB tv) (latestCompletedXid tv) (xactCompletionCount tv)
    (oldestClogXid tv).
Definition set_next_xid (tv : TransamVariablesData) (f : FullTransactionId) : TransamVariablesData :=
  MkTransamVariables (nextOid tv) (oidCount tv) f (oldestXid tv) (xidVacLimit tv) (xidWarnLimit tv)
    (xidStopLimit tv) (xidWrapLimit tv) (oldestXidDB tv) (latestCompletedXid tv) (xactCompletionCount tv)
    (oldestClogXid tv).
Definition set_limits (tv : TransamVariablesData) (oldest vac warn stop wrap db : Z) : TransamVariablesData :=
  MkTransamVariables (nextOid tv) (oidCount tv) (nextXid tv) oldest vac warn stop wrap db
    (latestCompletedXid tv) (xactCompletionCount tv) (oldestClogXid tv).
Definition set_completed (tv : TransamVariablesData) (f : FullTransactionId) (n : Z) : TransamVariablesData :=
  MkTransamVariables (nextOid tv) (oidCount tv) (nextXid tv) (oldestXid tv) (xidVacLimit tv) (xidWarnLimit tv)
    (xidStopLimit tv) (xidWrapLimit tv) (oldestXidDB tv) f n (oldestClogXid tv).
Definition set_clog_oldest (tv : TransamVariablesData) (x : Z) : TransamVariablesData :=
  MkTransamVariables (nextOid tv) (oidCount tv) (nextXid tv) (oldestXid tv) (xidVacLimit tv) (xidWarnLimit tv)
    (xidStopLimit tv) (xidWrapLimit tv) (oldestXidDB tv) (latestCompletedXid tv) (xactCompletionCount tv) x.

(** Shared memory starts zeroed. *)
Definition VarsupShmemInit : TransamVariablesData :=
  MkTransamVariables 0 0 (MkFullTransactionId 0) 0 0 0 0 0 0 (MkFullTransactionId 0) 0 0.

Definition ReadNextFullTransactionId (tv : TransamVariablesData) : FullTransactionId := nextXid tv.

Definition AdvanceNextFullTransactionIdPastXid (xid : Z) (tv : TransamVariablesData) : TransamVariablesData :=
  let next_xid := XidFromFullTransactionId (nextXid tv) in
  if negb (TransactionIdFollowsOrEquals xid next_xid) then tv
  else
    let xid := TransactionIdAdvance xid in
    let epoch := EpochFromFullTransactionId (nextXid tv) in
    let epoch := if xid <? next_xid then u32 (epoch + 1) else epoch in
    set_next_xid tv (FullTransactionIdFromEpochAndXid epoch xid).

Definition AdvanceOldestClogXid (oldest_datfrozenxid : Z) (tv : TransamVariablesData) : TransamVariablesData :=
  if TransactionIdPrecedes (oldestClogXid tv) oldest_datfrozenxid
  then set_clog_oldest tv oldest_datfrozenxid else tv.

(** A limit computed upwards skips the special ids, one computed downwards
    steps back over them. *)
Definition limit_up (x : Z) : Z :=
  let x := u32 x in if x <? FirstNormalTransactionId then u32 (x + FirstNormalTransactionId) else x.
Definition limit_down (x : Z) : Z :=
  let x := u32 x in if x <? FirstNormalTransactionId then u32 (x - FirstNormalTransactionId) else x.

(** The new limits, and whether autovacuum is signalled and a warning given. *)
Definition SetTransactionIdLimit (autovacuum_freeze_max_age : Z) (IsUnderPostmaster InRecovery : bool)
    (oldest_datfrozenxid oldest_datoid : Z) (tv : TransamVariablesData) : TransamVariablesData * bool * bool :=
  let xidWrapLimit := limit_up (oldest_datfrozenxid + Z.shiftr MaxTransactionId 1) in
  let xidStopLimit := limit_down (xidWrapLimit - 3000000) in
  let xidWarnLimit := limit_down (xidWrapLimit - 40000000) in
  let xidVacLimit := limit_up (oldest_datfrozenxid + autovacuum_freeze_max_age) in
  let tv := set_limits tv oldest_datfrozenxid xidVacLimit xidWarnLimit xidStopLimit xidWrapLimit oldest_datoid in
  let curXid := XidFromFullTransactionId (nextXid tv) in
  (tv, TransactionIdFollowsOrEquals curXid xidVacLimit && IsUnderPostmaster && negb InRecovery,
   TransactionIdFollowsOrEquals curXid xidWarnLimit && negb InRecovery).

(** [db_exists]: the lookup of [oldestXidDB] in the catalog cache. *)
Definition ForceTransactionIdLimitUpdate (db_exists : Z -> bool) (tv : TransamVariablesData) : bool :=
  if negb (TransactionIdIsNormal (oldestXid tv)) then true
  else if negb (TransactionIdIsValid (xidVacLimit tv)) then true
  else if TransactionIdFollowsOrEquals (XidFromFullTransactionId (nextXid tv)) (xidVacLimit tv) then true
  else negb (db_exists (oldestXidDB tv)).

(** The debugging assertion, as the condition it evaluates. *)
Definition AssertTransactionIdInAllowableRange (xid : Z) (tv : TransamVariablesData) : bool :=
  if negb (TransactionIdIsNormal xid) then true
  else
    let oldest_xid := oldestXid tv in
    let next_xid := XidFromFullTransactionId (nextXid tv) in
    TransactionIdFollowsOrEquals xid oldest_xid || TransactionIdPrecedesOrEquals xid next_xid.

(** ** Object ids

    [None] is [elog(ERROR)]; the middle component is the value given to
    [XLogPutNextOid], when it is called. *)

Definition oid_wraparound (IsPostmasterEnvironment : bool) (tv : TransamVariablesData) : TransamVariablesData :=
  if nextOid tv <? FirstNormalObjectId then
    if IsPostmasterEnvironment then set_oids tv FirstNormalObjectId 0
    else if nextOid tv <? FirstGenbkiObjectId then set_oids tv FirstNormalObjectId 0
    else tv
  else tv.

Definition GetNewObjectId (RecoveryInProgress IsPostmasterEnvironment : bool) (tv : TransamVariablesData)
  : option (Z * option Z * TransamVariablesData) :=
  if RecoveryInProgress then None
  else
    let tv := oid_wraparound IsPostmasterEnvironment tv in
    let log := oidCount tv =? 0 in
    let tv := if log then set_oids tv (nextOid tv) VAR_OID_PREFETCH else tv in
    let result := nextOid tv in
    Some (result, if log then Some (u32 (nextOid tv + VAR_OID_PREFETCH)) else None,
          set_oids tv (u32 (nextOid tv + 1)) (u32 (oidCount tv - 1))).

Definition SetNextObjectId (IsPostmasterEnvironment : bool) (oid : Z) (tv : TransamVariablesData) : option TransamVariablesData :=
  if IsPostmasterEnvironment then None
  else if oid <? nextOid tv then None
  else Some (set_oids tv oid 0).

Definition StopGeneratingPinnedObjectIds (IsPostmasterEnvironment : bool) (tv : TransamVariablesData) : option TransamVariablesData :=
  SetNextObjectId IsPostmasterEnvironment FirstUnpinnedObjectId tv.

(** ** Limits *)

Lemma limit_up_rank o d : is_u32 o -> 3 <= o -> 0 <= d < 0x80000000 ->
  is_u32 (limit_up (o + d)) /\ 3 <= limit_up (o + d) /\ d <= xid_rank o (limit_up (o + d)) <= d + 3.
Proof. unfold limit_up, xid_rank, FirstNormalTransactionId. cint. Qed.

Lemma limit_down_rank o w d : is_u32 w -> 0 <= d < 0x80000000 -> d + 3 <= xid_rank o w ->
  is_u32 (limit_down (w - d)) /\ 3 <= limit_down (w - d) /\
  xid_rank o w - d - 3 <= xid_rank o (limit_down (w - d)) <= xid_rank o w - d.
Proof. unfold limit_down, xid_rank, FirstNormalTransactionId. cint. Qed.

Section limits.
Context (oldest max_age db : Z) (up rec : bool) (tv : TransamVariablesData).
Context (Ho : is_u32 oldest) (Hn : TransactionIdIsNormal oldest = true) (Ha : 100000 <= max_age <= 2000000000).

Lemma limit_ranks :
  let tv' := (SetTransactionIdLimit max_age up rec oldest db tv).1.1 in
  let rank := xid_rank oldest in
  in_use oldest (xidVacLimit tv') /\ in_use oldest (xidWarnLimit tv') /\ in_use oldest (xidStopLimit tv') /\
  max_age <= rank (xidVacLimit tv') <= max_age + 3 /\
  0x7fffffff <= rank (xidWrapLimit tv') <= 0x7fffffff + 3 /\
  rank (xidWrapLimit tv') - 3000003 <= rank (xidStopLimit tv') <= rank (xidWrapLimit tv') - 3000000 /\
  rank (xidWrapLimit tv') - 40000003 <= rank (xidWarnLimit tv') <= rank (xidWrapLimit tv') - 40000000.
Proof.
  unfold TransactionIdIsNormal, FirstNormalTransactionId in *. apply Z.leb_le in Hn.
  unfold SetTransactionIdLimit, in_use, TransactionIdIsNormal, FirstNormalTransactionId.
  cbn [fst set_limits xidVacLimit xidWarnLimit xidStopLimit xidWrapLimit].
  change (Z.shiftr MaxTransactionId 1) with 0x7fffffff.
  destruct (limit_up_rank oldest 0x7fffffff) as (Hw1 & Hw2 & Hw3); [done..|].
  set (w := limit_up (oldest + 0x7fffffff)) in *.
  destruct (limit_up_rank oldest max_age) as (Hv1 & Hv2 & Hv3); [done|done|lia|].
  destruct (limit_down_rank oldest w 3000000) as (Hs1 & Hs2 & Hs3); [done|done|lia|].
  destruct (limit_down_rank oldest w 40000000) as (Hr1 & Hr2 & Hr3); [done|done|lia|].
  rewrite !Z.leb_le. split_and!; (done || lia).
Qed.
End limits.

(** An id at most at the wrap limit is measured against the stop limit by its
    distance from the oldest id. *)
Lemma stop_limit_reached x stop wrap o : is_u32 x -> TransactionIdIsNormal x = true -> in_use o stop ->
  xid_rank o x <= wrap -> 0x7fffffff <= wrap <= 0x7fffffff + 3 -> wrap - 3000003 <= xid_rank o stop ->
  TransactionIdFollowsOrEquals x stop = (xid_rank o stop <=? xid_rank o x).
Proof.
  intros Hx Hn (Hs & Hsn & Hsr). unfold TransactionIdFollowsOrEquals. rewrite Hn, Hsn. cbn [negb orb]. unfold xid_rank in *. cint.
Qed.

(** C38. The wraparound limits set from the oldest frozen id: counted from that
    id, autovacuum is forced first, then come the warnings, then the refusal
    to assign ids, 3 million ids before the wrap limit, which lies halfway
    round, 0x7fffffff ids ahead (or up to three more where it would be a special
    id); the limits themselves are never special ids.  Any two ids up to the
    stop limit are compared by their distance from the oldest one, and the test
    that refuses an id up to the wrap limit refuses exactly those at or past the
    stop limit. *)
Theorem wraparound_limits oldest max_age db up rec tv :
  is_u32 oldest -> TransactionIdIsNormal oldest = true -> 100000 <= max_age <= 2000000000 ->
  let tv' := (SetTransactionIdLimit max_age up rec oldest db tv).1.1 in
  let rank := xid_rank oldest in
  max_age <= rank (xidVacLimit tv') < rank (xidWarnLimit tv') /\
  rank (xidWarnLimit tv') < rank (xidStopLimit tv') < rank (xidWrapLimit tv') /\
  3000000 <= rank (xidWrapLimit tv') - rank (xidStopLimit tv') <= 3000003 /\
  0x7fffffff <= rank (xidWrapLimit tv') <= 0x7fffffff + 3 /\
  TransactionIdIsNormal (xidVacLimit tv') = true /\ TransactionIdIsNormal (xidWarnLimit tv') = true /\
  TransactionIdIsNormal (xidStopLimit tv') = true /\
  oldestXid tv' = oldest /\
  (forall x y, is_u32 x -> is_u32 y -> TransactionIdIsNormal x = true -> TransactionIdIsNormal y = true ->
    rank x <= rank (xidStopLimit tv') -> rank y <= rank (xidStopLimit tv') ->
    TransactionIdPrecedes x y = (rank x <? rank y)) /\
  (forall x, is_u32 x -> TransactionIdIsNormal x = true -> rank x <= rank (xidWrapLimit tv') ->
    TransactionIdFollowsOrEquals x (xidStopLimit tv') = (rank (xidStopLimit tv') <=? rank x)).
Proof.
  intros Ho Hn Ha. destruct (limit_ranks oldest max_age db up rec tv Ho Hn Ha) as (H1 & H2 & H3 & H4 & H5 & H6 & H7).
  intros tv' rank. subst tv' rank. split_and!; try (done || lia); [apply H1|apply H2|apply H3| |].
  - intros x y Hx Hy Hxn Hyn Hxr Hyr. apply (precedes_rank oldest); (split_and!; [done..|lia]).
  - intros x Hx Hxn Hxr. by eapply stop_limit_reached; [..|exact Hxr|exact H5|lia].
Qed.

Lemma wraparound_limits_witness :
  exists tv', (SetTransactionIdLimit 200000000 true false 4294000000 1 VarsupShmemInit).1.1 = tv' /\
    0x7fffffff <= xid_rank 4294000000 (xidWrapLimit tv') <= 0x7fffffff + 3.
Proof.
  destruct (wraparound_limits 4294000000 200000000 1 true false VarsupShmemInit) as (_ & _ & _ & H & _).
  - vm_compute. split; congruence.
  - reflexivity.
  - lia.
  - eexists. split; [reflexivity|exact H].
Defined.

(** The assertion's condition is far weaker than the range it names: an id
    that precedes the oldest one passes, because it precedes the next one. *)
Lemma allowable_range_passes_old_xid :
  exists tv, oldestXid tv = 1000 /\ nextXid tv = MkFullTransactionId 2000 /\
    TransactionIdPrecedes 500 (oldestXid tv) = true /\ AssertTransactionIdInAllowableRange 500 tv = true.
Proof.
  exists (set_limits (set_next_xid VarsupShmemInit (MkFullTransactionId 2000)) 1000 0 0 0 0 0). by vm_compute.
Qed.

(** ** Object ids *)

(** [logged] is the latest value written to the WAL: the ids handed out since
    then lie below it, and a restart continues from it. *)
Definition oids_ok (logged : Z) (tv : TransamVariablesData) : Prop :=
  is_u32 (nextOid tv) /\ 0 <= oidCount tv <= VAR_OID_PREFETCH /\
  (oidCount tv <> 0 -> logged = u32 (nextOid tv + oidCount tv)).

(** In normal operation an object id is never in the range reserved for
    initdb, it always lies within the prefetched range that has been logged,
    at most [VAR_OID_PREFETCH] below the logged value, so that a restart from
    the logged value cannot hand it out again, and the counter keeps this
    invariant through wraparound. *)
Theorem new_object_id logged tv :
  oids_ok logged tv ->
  exists oid log tv', GetNewObjectId false true tv = Some (oid, log, tv') /\
    let logged' := default logged log in
    oids_ok logged' tv' /\
    is_u32 oid /\ FirstNormalObjectId <= oid /\
    0 < u32 (logged' - oid) <= VAR_OID_PREFETCH /\
    (log = None -> nextOid tv' = u32 (oid + 1) /\ oidCount tv' = oidCount tv - 1).
Proof.
  intros (Ho & Hc & Hl). unfold GetNewObjectId, oid_wraparound, oids_ok, VAR_OID_PREFETCH, FirstNormalObjectId in *.
  destruct (Z.ltb_spec (nextOid tv) 16384) as [Hw|Hw].
  - eexists _, _, _. split; [reflexivity|]. cbn. split_and!; (cint || done).
  - destruct (Z.eqb_spec (oidCount tv) 0) as [E|E]; (eexists _, _, _; split; [reflexivity|]);
      cbn [default from_option nextOid oidCount set_oids id].
    + split_and!; (cint || done).
    + specialize (Hl E). subst logged. split_and!; (cint || done).
Qed.

Lemma new_object_id_witness :
  exists oid log tv', GetNewObjectId false true (set_oids VarsupShmemInit 0xffffffff 1) = Some (oid, log, tv') /\
    FirstNormalObjectId <= oid.
Proof.
  destruct (new_object_id 0 (set_oids VarsupShmemInit 0xffffffff 1)) as (oid & log & tv' & H1 & _ & _ & H2 & _).
  - split_and!; vm_compute; (congruence || split; congruence).
  - exists oid, log, tv'. split; [exact H1|exact H2].
Defined.

(** ** Following the ids seen in recovery *)

Lemma advance_past_value f n : full_normal f -> full_normal n ->
  value n <= value f < value n + 0x80000000 -> value f < 0xfffffffe00000000 ->
  let xid := TransactionIdAdvance (XidFromFullTransactionId f) in
  let epoch := EpochFromFullTransactionId n in
  value (FullTransactionIdFromEpochAndXid
           (if xid <? XidFromFullTransactionId n then u32 (epoch + 1) else epoch) xid)
  = value (FullTransactionIdAdvance f).
Proof.
  intros [Hf Hfn] [Hn Hnn] Hle Hmax xid epoch.
  assert (is_u32 epoch /\ is_u32 xid) as [He Hx].
  { split; [apply u32_range|]. unfold xid, TransactionIdAdvance, FirstNormalTransactionId. cint. }
  rewrite FullTransactionIdFromEpochAndXid_value by (done || case_match; auto with cint).
  rewrite FullTransactionIdAdvance_value by (lia || (split; [done|by right])).
  pose proof (epoch_xid_split f Hf) as Ef. pose proof (epoch_xid_split n Hn) as En. fold epoch in En.
  pose proof (full_normal_xid_u32 f) as Hfu. pose proof (full_normal_xid_u32 n) as Hnu.
  assert (is_u32 (EpochFromFullTransactionId f)) as Hef by apply u32_range.
  unfold xid, TransactionIdAdvance, FirstNormalTransactionId in *.
  set (xf := XidFromFullTransactionId f) in *. set (xn := XidFromFullTransactionId n) in *.
  set (ef := EpochFromFullTransactionId f) in *. clearbody xf xn ef epoch. clear xid Hx.
  rewrite Ef, En in *. cint.
Qed.

(** Replaying a WAL record with a transaction id moves the next id to
    assign past it, in the right epoch, and never moves it back: the new
    value is the successor of the record's full id when that id is not below
    the counter, and the counter is left alone otherwise. *)
Theorem advance_next_past tv f :
  full_normal f -> full_normal (nextXid tv) ->
  - 0x80000000 <= value f - value (nextXid tv) < 0x80000000 -> value f < 0xfffffffe00000000 ->
  let tv' := AdvanceNextFullTransactionIdPastXid (XidFromFullTransactionId f) tv in
  nextXid tv' = (if value (nextXid tv) <=? value f then FullTransactionIdAdvance f else nextXid tv) /\
  value f < value (nextXid tv') /\ value (nextXid tv) <= value (nextXid tv').
Proof.
  intros Hf Hn Hw Hmax. unfold AdvanceNextFullTransactionIdPastXid.
  rewrite TransactionIdFollowsOrEquals_window by done. unfold FullTransactionIdFollowsOrEquals.
  destruct (Z.leb_spec (value (nextXid tv)) (value f)) as [Hle|Hlt]; cbn [negb]; [|split; [done|]; simpl; lia].
  cbn [nextXid set_next_xid]. pose proof (advance_past_value f (nextXid tv) Hf Hn ltac:(lia) Hmax) as E.
  apply full_eq in E. rewrite E. split; [done|].
  rewrite FullTransactionIdAdvance_value by (lia || (destruct Hf; split; [done|by right])).
  destruct (_ && _); lia.
Qed.

Lemma advance_next_past_witness :
  let tv := set_next_xid VarsupShmemInit (MkFullTransactionId 0x1fffffff0) in
  nextXid (AdvanceNextFullTransactionIdPastXid 5 tv) = MkFullTransactionId 0x200000006.
Proof.
  intros tv. destruct (advance_next_past tv (MkFullTransactionId 0x200000005)) as [H _].
  - split; by vm_compute.
  - split; by vm_compute.
  - simpl. lia.
  - simpl. lia.
  - exact H.
Defined.
