(* ===== verification/KnownAssigned.v ===== *)
(** * The ids known to run on the primary

    The KnownAssignedXids part of [src/backend/storage/ipc/procarray.c]: during
    hot standby the startup process keeps the ids that are running on the
    primary in a sorted array with gaps, between a tail and a head pointer.
    The parallel arrays [KnownAssignedXids] and [KnownAssignedXidsValid] are
    the two components of the entries of one list. *)

From S2P Require Import Prelude.
From S2P Require Import TransactionId.

Record KnownAssigned := MkKnownAssigned {
  maxKnownAssignedXids : Z;
  numKnownAssignedXids : Z;
  tailKnownAssignedXids : nat;
  headKnownAssignedXids : nat;
  slots : list (Z * bool);
}.

(** The static variables of [KnownAssignedXidsCompress], and how often the
    clock has been read. *)
Record Compressor := MkCompressor {
  transactionEndsCounter : Z;
  lastCompressTs : Z;
  readings : nat;
}.

Inductive KAXCompressReason := KAX_NO_SPACE | KAX_PRUNE | KAX_TRANSACTION_END | KAX_STARTUP_PROCESS_IDLE.

Inductive KnownAssignedError := KAX_OutOfOrder | KAX_TooMany.

Definition KAX_COMPRESS_FREQUENCY : Z := 128.
Definition KAX_COMPRESS_IDLE_INTERVAL : Z := 1000.
Definition TimestampTzPlusMilliseconds (tz ms : Z) : Z := tz + ms * 1000.

Definition set_slots (ka : KnownAssigned) (num : Z) (tail head : nat) (a : list (Z * bool)) : KnownAssigned :=
  MkKnownAssigned (maxKnownAssignedXids ka) num tail head a.

(** The array as [CreateSharedProcArray] sets it up, over the memory [a]. *)
Definition init_known (a : list (Z * bool)) : KnownAssigned := MkKnownAssigned (zlength a) 0 0 0 a.

(** [KnownAssignedXids[i]] and [KnownAssignedXidsValid[i]]. *)
Definition xid_at (a : list (Z * bool)) (i : nat) : Z := fst (a !!! i).
Definition valid_at (a : list (Z * bool)) (i : nat) : bool := snd (a !!! i).

(** ** Compressing *)

(** [for (i = tail; i < head; i++)] with [n] entries to go. *)
Fixpoint compress_loop (n i compress_index : nat) (a : list (Z * bool)) : list (Z * bool) * nat :=
  match n with
  | O => (a, compress_index)
  | S n =>
      if valid_at a i
      then compress_loop n (S i) (S compress_index) (<[compress_index := (xid_at a i, true)]> a)
      else compress_loop n (S i) compress_index a
  end.

Definition nelements (ka : KnownAssigned) : Z :=
  Z.of_nat (headKnownAssignedXids ka) - Z.of_nat (tailKnownAssignedXids ka).

Section compress.
(** The readings of the clock, in order. *)
Context (GetCurrentTimestamp : nat -> Z).

Definition compress_now (ka : KnownAssigned) (c : Compressor) : KnownAssigned * Compressor :=
  let '(a, compress_index) :=
    compress_loop (headKnownAssignedXids ka - tailKnownAssignedXids ka) (tailKnownAssignedXids ka) 0 (slots ka) in
  (set_slots ka (numKnownAssignedXids ka) 0 compress_index a,
   MkCompressor (transactionEndsCounter c) (GetCurrentTimestamp (readings c)) (S (readings c))).

Definition KnownAssignedXidsCompress (reason : KAXCompressReason) (s : KnownAssigned * Compressor)
  : KnownAssigned * Compressor :=
  let '(ka, c) := s in
  if nelements ka =? numKnownAssignedXids ka then
    match reason with KAX_NO_SPACE => compress_now ka c | _ => (ka, c) end
  else
    match reason with
    | KAX_TRANSACTION_END =>
        let counter := transactionEndsCounter c in
        let c := MkCompressor (u32 (counter + 1)) (lastCompressTs c) (readings c) in
        if negb (counter mod KAX_COMPRESS_FREQUENCY =? 0) then (ka, c)
        else if nelements ka <? 2 * numKnownAssignedXids ka then (ka, c)
        else compress_now ka c
    | KAX_STARTUP_PROCESS_IDLE =>
        if negb (lastCompressTs c =? 0) then
          let compress_after := TimestampTzPlusMilliseconds (lastCompressTs c) KAX_COMPRESS_IDLE_INTERVAL in
          let now := GetCurrentTimestamp (readings c) in
          let c := MkCompressor (transactionEndsCounter c) (lastCompressTs c) (S (readings c)) in
          if now <? compress_after then (ka, c) else compress_now ka c
        else compress_now ka c
    | KAX_NO_SPACE | KAX_PRUNE => compress_now ka c
    end.

(** ** Adding *)

(** How many ids there are from [next_xid] to [to_xid] when they cross the
    wrap point. *)
Fixpoint count_xids (fuel : nat) (next_xid to_xid nxids : Z) : Z :=
  match fuel with
  | O => nxids
  | S fuel =>
      if TransactionIdPrecedes next_xid to_xid
      then count_xids fuel (TransactionIdAdvance next_xid) to_xid (nxids + 1)
      else nxids
  end.

Definition nxids_between (from_xid to_xid : Z) : Z :=
  if from_xid <=? to_xid then i32 (to_xid - from_xid + 1)
  else count_xids (Z.to_nat (u32 (to_xid - from_xid))) from_xid to_xid 1.

Fixpoint add_loop (n : nat) (next_xid : Z) (head : nat) (a : list (Z * bool)) : list (Z * bool) * nat :=
  match n with
  | O => (a, head)
  | S n => add_loop n (TransactionIdAdvance next_xid) (S head) (<[head := (next_xid, true)]> a)
  end.

Definition insert_at_head (from_xid nxids : Z) (ka : KnownAssigned) : KnownAssigned :=
  let '(a, head) := add_loop (Z.to_nat nxids) from_xid (headKnownAssignedXids ka) (slots ka) in
  set_slots ka (numKnownAssignedXids ka + nxids) (tailKnownAssignedXids ka) head a.

Definition no_room (ka : KnownAssigned) (nxids : Z) : bool :=
  maxKnownAssignedXids ka <? Z.of_nat (headKnownAssignedXids ka) + nxids.

(** Even an invalid last entry has a correctly sequenced id. *)
Definition out_of_order (ka : KnownAssigned) (from_xid : Z) : bool :=
  (tailKnownAssignedXids ka <? headKnownAssignedXids ka)%nat
  && TransactionIdFollowsOrEquals (xid_at (slots ka) (headKnownAssignedXids ka - 1)) from_xid.

Definition KnownAssignedXidsAdd (from_xid to_xid : Z)
  : prog (KnownAssigned * Compressor) KnownAssignedError unit :=
  (let nxids := nxids_between from_xid to_xid in
   ka <- pget fst ;;
   pwhen (out_of_order ka from_xid) (preturn KAX_OutOfOrder) ;;;
   pwhen (no_room ka nxids)
     (pmod (KnownAssignedXidsCompress KAX_NO_SPACE) ;;;
      ka <- pget fst ;;
      pwhen (no_room ka nxids) (preturn KAX_TooMany)) ;;;
   pmod (fun s => (insert_at_head from_xid nxids s.1, s.2)))%prog.
End compress.

(** ** Searching and removing *)

(** The binary search; the result is an index or -1. *)
Fixpoint known_search (fuel : nat) (a : list (Z * bool)) (xid first last : Z) : Z :=
  match fuel with
  | O => -1
  | S fuel =>
      if first <=? last then
        let mid_index := (first + last) / 2 in
        let mid_xid := xid_at a (Z.to_nat mid_index) in
        if xid =? mid_xid then mid_index
        else if TransactionIdPrecedes xid mid_xid then known_search fuel a xid first (mid_index - 1)
        else known_search fuel a xid (mid_index + 1) last
      else -1
  end.

(** The first valid entry from [i] on, of [n]. *)
Fixpoint skip_invalid (n i : nat) (a : list (Z * bool)) : nat :=
  match n with
  | O => i
  | S n => if valid_at a i then i else skip_invalid n (S i) a
  end.

(** Advance the tail over invalid entries, to the start if none is left. *)
Definition settle (tail : nat) (ka : KnownAssigned) : KnownAssigned :=
  let head := headKnownAssignedXids ka in
  let tail := skip_invalid (head - tail) tail (slots ka) in
  if (head <=? tail)%nat then set_slots ka (numKnownAssignedXids ka) 0 0 (slots ka)
  else set_slots ka (numKnownAssignedXids ka) tail head (slots ka).

Definition invalidate (i : nat) (a : list (Z * bool)) : list (Z * bool) := <[i := (xid_at a i, false)]> a.

Definition KnownAssignedXidsSearch (xid : Z) (remove : bool) (ka : KnownAssigned) : bool * KnownAssigned :=
  let tail := tailKnownAssignedXids ka in
  let head := headKnownAssignedXids ka in
  let result_index :=
    known_search (S (head - tail)) (slots ka) xid (Z.of_nat tail) (Z.of_nat head - 1) in
  if result_index <? 0 then (false, ka)
  else
    let i := Z.to_nat result_index in
    if negb (valid_at (slots ka) i) then (false, ka)
    else if remove then
      let ka := set_slots ka (numKnownAssignedXids ka - 1) tail head (invalidate i (slots ka)) in
      (true, if (i =? tail)%nat then settle (S tail) ka else ka)
    else (true, ka).

Definition KnownAssignedXidExists (ka : KnownAssigned) (xid : Z) : bool := (KnownAssignedXidsSearch xid false ka).1.

Definition KnownAssignedXidsRemove (xid : Z) (ka : KnownAssigned) : KnownAssigned :=
  (KnownAssignedXidsSearch xid true ka).2.

Definition KnownAssignedXidsRemoveTree (GetCurrentTimestamp : nat -> Z) (xid : Z) (subxids : list Z)
    (s : KnownAssigned * Compressor) : KnownAssigned * Compressor :=
  let '(ka, c) := s in
  let ka := if TransactionIdIsValid xid then KnownAssignedXidsRemove xid ka else ka in
  let ka := foldl (fun ka x => KnownAssignedXidsRemove x ka) ka subxids in
  KnownAssignedXidsCompress GetCurrentTimestamp KAX_TRANSACTION_END (ka, c).

(** Mark entries invalid from the tail up to the first one not preceding
    [removeXid]; the second result counts them. *)
Fixpoint prune_loop (prepared : Z -> bool) (removeXid : Z) (n i : nat) (a : list (Z * bool)) (count : Z)
  : list (Z * bool) * Z :=
  match n with
  | O => (a, count)
  | S n =>
      if valid_at a i then
        let knownXid := xid_at a i in
        if TransactionIdFollowsOrEquals knownXid removeXid then (a, count)
        else if negb (prepared knownXid) then prune_loop prepared removeXid n (S i) (invalidate i a) (count + 1)
        else prune_loop prepared removeXid n (S i) a count
      else prune_loop prepared removeXid n (S i) a count
  end.

Definition KnownAssignedXidsReset (ka : KnownAssigned) : KnownAssigned := set_slots ka 0 0 0 (slots ka).

(** [prepared] is [StandbyTransactionIdIsPrepared] of twophase.c. *)
Definition KnownAssignedXidsRemovePreceding (GetCurrentTimestamp : nat -> Z) (prepared : Z -> bool) (removeXid : Z)
    (s : KnownAssigned * Compressor) : KnownAssigned * Compressor :=
  let '(ka, c) := s in
  if negb (TransactionIdIsValid removeXid) then (set_slots ka 0 0 0 (slots ka), c)
  else
    let tail := tailKnownAssignedXids ka in
    let head := headKnownAssignedXids ka in
    let '(a, count) := prune_loop prepared removeXid (head - tail) tail (slots ka) 0 in
    let ka := settle tail (set_slots ka (numKnownAssignedXids ka - count) tail head a) in
    KnownAssignedXidsCompress GetCurrentTimestamp KAX_PRUNE (ka, c).

(** ** Reading *)

(** [xmin] is lowered to the first valid id, and everything from [xmax] on is
    left out. *)
Fixpoint get_loop (n i count : nat) (a : list (Z * bool)) (xmin xmax : Z) : Z * list Z :=
  match n with
  | O => (xmin, [])
  | S n =>
      if valid_at a i then
        let knownXid := xid_at a i in
        let xmin := if (count =? 0)%nat && TransactionIdPrecedes knownXid xmin then knownXid else xmin in
        if TransactionIdIsValid xmax && TransactionIdFollowsOrEquals knownXid xmax then (xmin, [])
        else let '(xmin, xarray) := get_loop n (S i) (S count) a xmin xmax in (xmin, knownXid :: xarray)
      else get_loop n (S i) count a xmin xmax
  end.

Definition KnownAssignedXidsGetAndSetXmin (ka : KnownAssigned) (xmin xmax : Z) : Z * list Z :=
  get_loop (headKnownAssignedXids ka - tailKnownAssignedXids ka) (tailKnownAssignedXids ka) 0 (slots ka) xmin xmax.

Definition KnownAssignedXidsGet (ka : KnownAssigned) (xmax : Z) : list Z :=
  (KnownAssignedXidsGetAndSetXmin ka InvalidTransactionId xmax).2.

Fixpoint oldest_loop (n i : nat) (a : list (Z * bool)) : Z :=
  match n with
  | O => InvalidTransactionId
  | S n => if valid_at a i then xid_at a i else oldest_loop n (S i) a
  end.

Definition KnownAssignedXidsGetOldestXmin (ka : KnownAssigned) : Z :=
  oldest_loop (headKnownAssignedXids ka - tailKnownAssignedXids ka) (tailKnownAssignedXids ka) (slots ka).

(** ** The entries between tail and head *)

Definition window (ka : KnownAssigned) : list (Z * bool) :=
  drop (tailKnownAssignedXids ka) (take (headKnownAssignedXids ka) (slots ka)).

Fixpoint valids (l : list (Z * bool)) : list Z :=
  match l with
  | [] => []
  | (x, b) :: l => if b then x :: valids l else valids l
  end.

(** What the array stands for: the valid ids, in order. *)
Definition KnownAssignedXids (ka : KnownAssigned) : list Z := valids (window ka).

Definition marked (l : list Z) : list (Z * bool) := (fun x => (x, true)) <$> l.

Lemma valids_app l k : valids (l ++ k) = valids l ++ valids k.
Proof. induction l as [|[x []] l IH]; simpl; [done| |done]. by rewrite IH. Qed.

Lemma valids_marked l : valids (marked l) = l.
Proof. induction l as [|x l IH]; simpl; [done|]. by f_equal. Qed.

Lemma marked_fst l : (marked l).*1 = l.
Proof. unfold marked. rewrite <- list_fmap_compose. apply list_fmap_id. Qed.

Lemma elem_of_valids x l : x ∈ valids l <-> (x, true) ∈ l.
Proof.
  induction l as [|[y []] l IH]; simpl; rewrite ?elem_of_cons, ?IH; [by rewrite !elem_of_nil| |]; naive_solver.
Qed.

Lemma valids_fst x l : x ∈ valids l -> x ∈ l.*1.
Proof. rewrite elem_of_valids, list_elem_of_fmap. by exists (x, true). Qed.

Lemma length_valids l : (length (valids l) <= length l)%nat.
Proof. induction l as [|[x []] l IH]; simpl; lia. Qed.

Lemma list_filter_id {A} (P : A -> Prop) `{forall x, Decision (P x)} (l : list A) : (forall x, x ∈ l -> P x) -> filter P l = l.
Proof.
  induction l as [|x l IH]; intros Hl; [done|]. rewrite filter_cons_True by (apply Hl; by left).
  f_equal. apply IH. intros y Hy. apply Hl. by right.
Qed.

(** The [n] entries from [i] on, as the loops meet them. *)
Definition segment {A} (i n : nat) (a : list A) : list A := take n (drop i a).

Section segments.
Context `{Inhabited A}.
Implicit Types (a : list A).

Lemma segment_S i n a : (i < length a)%nat -> segment i (S n) a = a !!! i :: segment (S i) n a.
Proof.
  intros Hi. unfold segment. destruct (lookup_lt_is_Some_2 a i Hi) as [x Hx].
  rewrite (drop_S a x i Hx). simpl. by rewrite (list_lookup_total_correct a i x Hx).
Qed.

Lemma segment_insert i n k x a : (k < i)%nat -> segment i n (<[k := x]> a) = segment i n a.
Proof. intros. unfold segment. by rewrite drop_insert_lt. Qed.

Lemma segment_window i h a : (i <= h)%nat -> segment i (h - i) a = drop i (take h a).
Proof. intros. unfold segment. rewrite take_drop_commute. f_equal. f_equal. lia. Qed.

Lemma take_insert_snoc i x a : (i < length a)%nat -> take (S i) (<[i := x]> a) = take i a ++ [x].
Proof.
  intros. erewrite take_S_r by (by apply list_lookup_insert_eq). by rewrite take_insert_ge.
Qed.
End segments.

Ltac by_lia := first [done | lia].

Lemma valids_segment i n a : (i < length a)%nat ->
  valids (segment i (S n) a) = (if valid_at a i then [xid_at a i] else []) ++ valids (segment (S i) n a).
Proof.
  intros. rewrite segment_S by done. unfold valid_at, xid_at. simpl. by destruct (a !!! i) as [x []].
Qed.

Lemma compress_loop_spec n : forall i c a a' c', (c <= i)%nat -> (i + n <= length a)%nat ->
  compress_loop n i c a = (a', c') ->
  length a' = length a /\ c' = (c + length (valids (segment i n a)))%nat /\
  take c' a' = take c a ++ marked (valids (segment i n a)).
Proof.
  induction n as [|n IH]; intros i c a a' c' Hc Hn E; simpl in E.
  - injection E as <- <-. unfold segment, marked. simpl. rewrite app_nil_r. split_and!; by_lia.
  - rewrite valids_segment by lia. destruct (valid_at a i) eqn:Hv.
    + apply IH in E as (Hl & Hc' & Ht); [|lia|rewrite length_insert; lia].
      rewrite length_insert in Hl. rewrite segment_insert in Hc', Ht by lia.
      rewrite take_insert_snoc in Ht by lia. rewrite length_app, Ht, <- app_assoc. simpl. split_and!; by_lia.
    + apply IH in E as (Hl & Hc' & Ht); [|lia..]. by rewrite Ht.
Qed.

(** Successive ids. *)
Fixpoint xids_from (n : nat) (x : Z) : list Z :=
  match n with O => [] | S n => x :: xids_from n (TransactionIdAdvance x) end.

Lemma length_xids_from n x : length (xids_from n x) = n.
Proof. revert x. induction n; intros; simpl; auto. Qed.

Lemma add_loop_spec n : forall x h a a' h', (h + n <= length a)%nat -> add_loop n x h a = (a', h') ->
  length a' = length a /\ h' = (h + n)%nat /\ take h' a' = take h a ++ marked (xids_from n x).
Proof.
  induction n as [|n IH]; intros x h a a' h' Hn E; simpl in E.
  - injection E as <- <-. simpl. rewrite app_nil_r, Nat.add_0_r. done.
  - apply IH in E as (Hl & Hh & Ht); [|rewrite length_insert; lia].
    rewrite length_insert in Hl. rewrite take_insert_snoc in Ht by lia.
    rewrite Ht, <- app_assoc. simpl. split_and!; by_lia.
Qed.

Lemma skip_invalid_spec n : forall i a, (i + n <= length a)%nat ->
  let j := skip_invalid n i a in
  (i <= j <= i + n)%nat /\ valids (segment i n a) = valids (segment j (i + n - j) a) /\
  ((j < i + n)%nat -> valid_at a j = true).
Proof.
  induction n as [|n IH]; intros i a Hn; simpl.
  - rewrite Nat.add_0_r, Nat.sub_diag. split_and!; by_lia.
  - destruct (valid_at a i) eqn:Hv.
    + replace (i + S n - i)%nat with (S n) by lia. split_and!; by_lia.
    + destruct (IH (S i) a ltac:(lia)) as (Hj & He & Hval). rewrite valids_segment, Hv by lia. simpl.
      replace (i + S n)%nat with (S i + n)%nat by lia. split_and!; by_lia.
Qed.

Lemma slot_eta a i : a !!! i = (xid_at a i, valid_at a i).
Proof. unfold xid_at, valid_at. by destruct (a !!! i). Qed.

Lemma take_S_total a i : (i < length a)%nat -> take (S i) a = take i a ++ [(xid_at a i, valid_at a i)].
Proof.
  intros. rewrite <- slot_eta. apply take_S_r. apply list_lookup_lookup_total_lt. done.
Qed.

(** What pruning does to the entries. *)
Fixpoint prune_list (prepared : Z -> bool) (r : Z) (l : list (Z * bool)) : list (Z * bool) :=
  match l with
  | [] => []
  | (x, true) :: l => if TransactionIdFollowsOrEquals x r then (x, true) :: l else (x, prepared x) :: prune_list prepared r l
  | (x, false) :: l => (x, false) :: prune_list prepared r l
  end.

Lemma prune_list_cons prepared r x b l :
  prune_list prepared r ((x, b) :: l) =
  if b && TransactionIdFollowsOrEquals x r then (x, true) :: l else (x, b && prepared x) :: prune_list prepared r l.
Proof. by destruct b. Qed.

Lemma prune_loop_spec prepared r n : forall i a k a' k', (i + n <= length a)%nat ->
  prune_loop prepared r n i a k = (a', k') ->
  a' = take i a ++ prune_list prepared r (segment i n a) ++ drop (i + n) a /\
  k' = k + zlength (valids (segment i n a)) - zlength (valids (prune_list prepared r (segment i n a))).
Proof.
  unfold zlength. induction n as [|n IH]; intros i a k a' k' Hn E; simpl in E.
  - injection E as <- <-. unfold segment. simpl. rewrite Nat.add_0_r, take_drop. split; by_lia.
  - rewrite segment_S, slot_eta, prune_list_cons by lia.
    assert (drop i a = (xid_at a i, valid_at a i) :: drop (S i) a) as Hd
      by (rewrite <- slot_eta; apply drop_S, list_lookup_lookup_total_lt; lia).
    replace (i + S n)%nat with (S i + n)%nat by lia. simpl valids. simpl andb.
    destruct (valid_at a i) eqn:Hv; [destruct (TransactionIdFollowsOrEquals (xid_at a i) r) eqn:Hf|].
    + injection E as <- <-. simpl. unfold segment. rewrite <- (drop_drop a n (S i) : _ = drop (S (i + n)) a), take_drop, <- Hd, take_drop.
      split; by_lia.
    + destruct (prepared (xid_at a i)) eqn:Hp; simpl in E.
      * apply IH in E as [-> ->]; [|lia]. rewrite take_S_total, Hv, <- app_assoc by lia. simpl. split; by_lia.
      * unfold invalidate in E. apply IH in E as [-> ->]; [|rewrite length_insert; lia].
        rewrite take_insert_snoc, segment_insert, drop_insert_lt, <- app_assoc by lia. simpl. split; by_lia.
    + apply IH in E as [-> ->]; [|lia]. rewrite take_S_total, Hv, <- app_assoc by lia. simpl. split; by_lia.
Qed.

(** ** Order

    Relative to a lower bound of the ids in use, the entries ascend, the
    invalid ones among them included. *)

Lemma valids_sublist l : valids l `sublist_of` l.*1.
Proof. induction l as [|[x []] l IH]; simpl; by constructor. Qed.

Lemma StronglySorted_sublist {A} (R : A -> A -> Prop) l k :
  l `sublist_of` k -> StronglySorted R k -> StronglySorted R l.
Proof.
  induction 1 as [|x l k Hs IH|x l k Hs IH]; intros H; [done|..]; apply StronglySorted_inv in H as [H Hx]; [|auto].
  constructor; [auto|]. rewrite Forall_forall in *. intros y Hy. apply Hx. by eapply elem_of_sublist.
Qed.

Section ordered.
Context (lo : Z).
Abbreviation rank := (xid_rank lo).
Abbreviation in_use := (in_use lo).

Definition ascending (l : list Z) : Prop := StronglySorted (fun x y => rank x < rank y) l /\ Forall in_use l.

Lemma ascending_sublist l k : l `sublist_of` k -> ascending k -> ascending l.
Proof.
  intros Hs [H1 H2]. split; [by eapply StronglySorted_sublist|]. rewrite Forall_forall in *.
  intros x Hx. by eapply H2, elem_of_sublist.
Qed.

Lemma ascending_app l k : ascending (l ++ k) <-> ascending l /\ ascending k /\ (forall x y, x ∈ l -> y ∈ k -> rank x < rank y).
Proof. unfold ascending. rewrite StronglySorted_app, Forall_app. naive_solver. Qed.

Lemma ascending_nil : ascending [].
Proof. split; constructor. Qed.

Lemma ascending_cons x l : ascending (x :: l) <-> in_use x /\ ascending l /\ (forall y, y ∈ l -> rank x < rank y).
Proof. unfold ascending. rewrite StronglySorted_cons, Forall_cons, (Forall_forall (fun y => rank x < rank y)). tauto. Qed.

Lemma ascending_use l x : ascending l -> x ∈ l -> in_use x.
Proof. intros [_ H]. rewrite Forall_forall in H. auto. Qed.

Record ka_ok (ka : KnownAssigned) : Prop := {
  ka_len : zlength (slots ka) = maxKnownAssignedXids ka;
  ka_ptrs : (tailKnownAssignedXids ka <= headKnownAssignedXids ka <= length (slots ka))%nat;
  ka_num : numKnownAssignedXids ka = zlength (KnownAssignedXids ka);
  ka_sorted : ascending (window ka).*1;
  ka_tail : forall x b w, window ka = (x, b) :: w -> b = true;
}.

Lemma known_ascending ka : ka_ok ka -> ascending (KnownAssignedXids ka).
Proof. intros H. eapply ascending_sublist; [apply valids_sublist|apply (ka_sorted _ H)]. Qed.

(** *** The ids of a range *)

(** [to] is [n] steps from [x]. *)
Fixpoint steps (n : nat) (x to : Z) : Prop :=
  match n with
  | O => x = to
  | S n => rank x < rank to /\ steps n (TransactionIdAdvance x) to
  end.

Lemma xids_from_range n : forall x to, in_use x -> in_use to -> rank to < 0x7ffffff0 -> steps n x to ->
  ascending (xids_from (S n) x) /\
  (forall y, y ∈ xids_from (S n) x <-> in_use y /\ rank x <= rank y <= rank to).
Proof.
  induction n as [|n IH]; intros x to Hx Hto Hr Hs.
  - simpl in Hs. subst to. split.
    { apply ascending_cons. split; [done|]. split; [apply ascending_nil|]. by intros y []%elem_of_nil. }
    intros y. simpl. rewrite list_elem_of_singleton. split; [by intros ->|].
    intros [Hy ?]. apply (rank_inj lo); [apply Hy|apply Hx|lia].
  - destruct Hs as [Hlt Hs]. destruct (advance_rank lo x x Hx ltac:(lia) Hx) as [Ha Hax].
    destruct (IH _ _ Ha Hto Hr Hs) as [Has Hm]. change (xids_from (S (S n)) x) with (x :: xids_from (S n) (TransactionIdAdvance x)).
    split.
    + apply ascending_cons. split; [done|]. split; [done|]. intros y [_ ?]%Hm. lia.
    + intros y. rewrite elem_of_cons, Hm. split.
      * intros [->|[Hy ?]]; split; [done|lia|done|lia].
      * intros [Hy ?]. destruct (advance_rank lo x y Hx ltac:(lia) Hy) as [_ Hay].
        destruct (decide (rank y <= rank x)); [left; apply (rank_inj lo); [apply Hy|apply Hx|lia]|right; split; [done|lia]].
Qed.

Lemma steps_plain n : forall x to, in_use x -> in_use to -> rank x <= rank to -> to = x + Z.of_nat n -> steps n x to.
Proof.
  induction n as [|n IH]; intros x to Hx Hto Hle E; simpl; [lia|].
  assert (TransactionIdAdvance x = x + 1) as ->.
  { destruct Hx as (Hx & Hn & _), Hto as (Hto & _ & _). unfold TransactionIdAdvance, FirstNormalTransactionId.
    unfold TransactionIdIsNormal, FirstNormalTransactionId in Hn. cint. }
  assert (rank x < rank to /\ rank (x + 1) = rank x + 1) as [Hlt H1].
  { destruct Hx as (Hx & Hn & ?), Hto as (Hto & _ & ?). unfold xid_rank in *. cint. }
  split; [done|]. apply IH; [|done|lia|lia].
  destruct Hx as (Hx & Hn & ?), Hto as (Hto & _ & ?). split_and!; [cint|xid|lia].
Qed.

Lemma count_xids_spec to fuel : forall x k, in_use x -> in_use to -> rank to < 0x7ffffff0 -> rank x <= rank to ->
  rank to - rank x <= Z.of_nat fuel -> exists n, count_xids fuel x to k = k + Z.of_nat n /\ steps n x to.
Proof.
  induction fuel as [|fuel IH]; intros x k Hx Hto Hr Hle Hf; simpl.
  - exists O. split; [lia|]. apply (rank_inj lo); [apply Hx|apply Hto|lia].
  - rewrite (precedes_rank lo) by done. destruct (Z.ltb_spec (rank x) (rank to)) as [Hlt|Hge].
    + destruct (advance_rank lo x to Hx ltac:(lia) Hto) as [Ha Hat].
      destruct (advance_rank lo x x Hx ltac:(lia) Hx) as [_ Hax].
      destruct (IH (TransactionIdAdvance x) (k + 1)) as (n & -> & Hs); [done..|lia|lia|].
      exists (S n). simpl. split; [lia|done].
    + exists O. split; [lia|]. apply (rank_inj lo); [apply Hx|apply Hto|lia].
Qed.

Lemma nxids_between_spec from to : in_use from -> in_use to -> rank from <= rank to -> rank to < 0x7ffffff0 ->
  exists n, nxids_between from to = Z.of_nat (S n) /\ steps n from to.
Proof.
  intros Hf Ht Hle Hr. unfold nxids_between. destruct (Z.leb_spec from to) as [H|H].
  - exists (Z.to_nat (to - from)). split; [|apply steps_plain; [done..|lia]].
    destruct Hf as (? & _ & ?), Ht as (? & _ & ?). unfold xid_rank in *. cint.
  - destruct (count_xids_spec to (Z.to_nat (u32 (to - from))) from 1) as (n & -> & Hs); [done..| |].
    + destruct Hf as (? & _ & ?), Ht as (? & _ & ?). unfold xid_rank in *. cint.
    + exists n. split; [lia|done].
Qed.

(** *** Compression and insertion keep the array in order *)

Lemma valids_window ka : ka_ok ka ->
  KnownAssignedXids ka =
  valids (segment (tailKnownAssignedXids ka) (headKnownAssignedXids ka - tailKnownAssignedXids ka) (slots ka)).
Proof. intros H. unfold KnownAssignedXids, window. rewrite segment_window; [done|apply (ka_ptrs _ H)]. Qed.

Lemma compress_now_spec clock ka c : ka_ok ka ->
  let ka' := (compress_now clock ka c).1 in
  ka_ok ka' /\ KnownAssignedXids ka' = KnownAssignedXids ka /\ maxKnownAssignedXids ka' = maxKnownAssignedXids ka /\
  window ka' = marked (KnownAssignedXids ka) /\ Z.of_nat (headKnownAssignedXids ka') = numKnownAssignedXids ka.
Proof.
  intros H. unfold compress_now. destruct (compress_loop _ _ _ _) as [a' c'] eqn:E. cbv zeta. simpl fst.
  pose proof (ka_ptrs _ H) as Hp. apply compress_loop_spec in E as (Hl & Hc & Ht); [|lia|lia].
  rewrite <- valids_window in Hc, Ht by done. simpl in Ht.
  set (ka' := set_slots _ _ _ _ _).
  assert (window ka' = marked (KnownAssignedXids ka)) as Hw by exact Ht.
  assert (KnownAssignedXids ka' = KnownAssignedXids ka) as Hk.
  { unfold KnownAssignedXids at 1. by rewrite Hw, valids_marked. }
  pose proof (length_valids (segment (tailKnownAssignedXids ka) (headKnownAssignedXids ka - tailKnownAssignedXids ka) (slots ka))) as Hv.
  rewrite <- valids_window in Hv by done. unfold segment in Hv. rewrite length_take in Hv.
  split; [|split_and!; [done..|simpl; rewrite (ka_num _ H); unfold zlength; lia]].
  split; simpl.
  - unfold zlength. rewrite Hl. apply (ka_len _ H).
  - rewrite Hl. lia.
  - rewrite Hk. apply (ka_num _ H).
  - rewrite Hw, marked_fst. by apply known_ascending.
  - rewrite Hw. intros x b w. by destruct (KnownAssignedXids ka); simpl; [|intros [= _ <- _]].
Qed.

Lemma compress_spec clock reason ka c : ka_ok ka ->
  let ka' := (KnownAssignedXidsCompress clock reason (ka, c)).1 in
  ka_ok ka' /\ KnownAssignedXids ka' = KnownAssignedXids ka /\ maxKnownAssignedXids ka' = maxKnownAssignedXids ka /\
  (reason = KAX_NO_SPACE -> window ka' = marked (KnownAssignedXids ka) /\ Z.of_nat (headKnownAssignedXids ka') = numKnownAssignedXids ka).
Proof.
  intros H. unfold KnownAssignedXidsCompress. pose proof (fun c => compress_now_spec clock ka c H) as Hc. cbv zeta in *.
  destruct reason; destruct_bools; simpl fst; repeat split; try congruence; try apply Hc; try apply H; apply H.
Qed.

(** No id from [from] on has been entered. *)
Definition beyond (ka : KnownAssigned) (from : Z) : Prop := forall x, x ∈ (window ka).*1 -> rank x < rank from.

Lemma insert_at_head_spec from to n ka : ka_ok ka -> in_use from -> in_use to -> rank to < 0x7ffffff0 ->
  steps n from to -> beyond ka from -> no_room ka (Z.of_nat (S n)) = false ->
  let ka' := insert_at_head from (Z.of_nat (S n)) ka in
  ka_ok ka' /\ KnownAssignedXids ka' = KnownAssignedXids ka ++ xids_from (S n) from /\
  maxKnownAssignedXids ka' = maxKnownAssignedXids ka /\ window ka' = window ka ++ marked (xids_from (S n) from).
Proof.
  intros H Hf Hto Hr Hs Hb Hroom. unfold insert_at_head. rewrite Nat2Z.id.
  destruct (add_loop _ _ _ _) as [a' h'] eqn:E. cbv zeta.
  pose proof (ka_ptrs _ H) as Hp. pose proof (ka_len _ H) as Hlen. unfold zlength in Hlen.
  unfold no_room in Hroom. apply Z.ltb_ge in Hroom.
  apply add_loop_spec in E as (Hl & Hh & Ht); [|lia].
  set (ka' := set_slots _ _ _ _ _).
  assert (window ka' = window ka ++ marked (xids_from (S n) from)) as Hw.
  { unfold window. simpl. rewrite Ht. apply drop_app_le. rewrite length_take. lia. }
  assert (KnownAssignedXids ka' = KnownAssignedXids ka ++ xids_from (S n) from) as Hk.
  { unfold KnownAssignedXids. by rewrite Hw, valids_app, valids_marked. }
  destruct (xids_from_range n from to Hf Hto Hr Hs) as [Hasc Hm].
  split; [|done]. split.
  - unfold zlength. simpl. by rewrite Hl.
  - simpl. lia.
  - rewrite Hk. unfold zlength. rewrite length_app, length_xids_from. simpl. rewrite (ka_num _ H). unfold zlength. lia.
  - rewrite Hw, fmap_app, marked_fst. apply ascending_app. split; [apply (ka_sorted _ H)|]. split; [done|].
    intros x y Hx [_ Hy]%Hm. apply Hb in Hx. lia.
  - rewrite Hw. intros x b w. destruct (window ka) as [|[x0 b0] w0] eqn:E0; simpl; intros [= <- <- <-]; [done|].
    by apply (ka_tail _ H _ _ _ E0).
Qed.

(** An operation that enters no ids. *)
Record shrinks (ka ka' : KnownAssigned) : Prop := {
  sh_ok : ka_ok ka';
  sh_max : maxKnownAssignedXids ka' = maxKnownAssignedXids ka;
  sh_window : forall x, x ∈ (window ka').*1 -> x ∈ (window ka).*1;
}.

Lemma shrinks_refl ka : ka_ok ka -> shrinks ka ka.
Proof. by split. Qed.
Lemma shrinks_trans ka1 ka2 ka3 : shrinks ka1 ka2 -> shrinks ka2 ka3 -> shrinks ka1 ka3.
Proof. intros [? ? ?] [? ? ?]. split; [done|congruence|auto]. Qed.

Lemma compress_shrinks clock reason ka c : ka_ok ka ->
  shrinks ka (KnownAssignedXidsCompress clock reason (ka, c)).1.
Proof.
  intros H. unfold KnownAssignedXidsCompress.
  assert (forall c, shrinks ka (compress_now clock ka c).1) as Hc.
  { intros c0. destruct (compress_now_spec clock ka c0 H) as (Hok & _ & Hm & Hw & _). split; [done..|].
    rewrite Hw, marked_fst. intros x. apply valids_fst. }
  destruct reason; destruct_bools; try apply Hc; by apply shrinks_refl.
Qed.

Definition xid_range (from to : Z) (l : list Z) : Prop :=
  ascending l /\ (forall y, y ∈ l <-> in_use y /\ rank from <= rank y <= rank to).

Lemma window_last ka : ka_ok ka -> (tailKnownAssignedXids ka < headKnownAssignedXids ka)%nat ->
  exists w, (window ka).*1 = w ++ [xid_at (slots ka) (headKnownAssignedXids ka - 1)].
Proof.
  intros H Hlt. pose proof (ka_ptrs _ H). unfold window.
  destruct (headKnownAssignedXids ka) as [|h]; [lia|]. replace (S h - 1)%nat with h by lia. rewrite take_S_total by lia. rewrite drop_app_le by (rewrite length_take; lia). rewrite fmap_app. eauto.
Qed.

Lemma out_of_order_spec ka from : ka_ok ka -> in_use from -> out_of_order ka from = false <-> beyond ka from.
Proof.
  intros H Hf. unfold out_of_order. destruct (Nat.ltb_spec (tailKnownAssignedXids ka) (headKnownAssignedXids ka)) as [Hlt|Hge]; simpl.
  - destruct (window_last ka H Hlt) as [w Hw]. pose proof (ka_sorted _ H) as Hs. unfold beyond. rewrite Hw in Hs |- *.
    assert (in_use (xid_at (slots ka) (headKnownAssignedXids ka - 1))) as Hu by (eapply ascending_use; [done|set_solver]).
    rewrite (follows_eq_rank lo) by done. apply ascending_app in Hs as (_ & _ & Hs). rewrite Z.leb_gt. split.
    + intros Hr x [Hx| ->%list_elem_of_singleton]%elem_of_app; [|done]. specialize (Hs x _ Hx ltac:(by left)). lia.
    + intros Hx. apply Hx. set_solver.
  - split; [|done]. intros _ x. unfold window. rewrite drop_ge by (rewrite length_take; lia). intros []%elem_of_nil.
Qed.

(** The outcome of adding the ids [new], the first of which is [from]. *)
Record added (ka : KnownAssigned) (from : Z) (new : list Z) (s : KnownAssigned * Compressor)
    (r : KnownAssignedError + unit) : Prop := {
  ad_ok : ka_ok s.1;
  ad_max : maxKnownAssignedXids s.1 = maxKnownAssignedXids ka;
  ad_window : forall x, x ∈ (window s.1).*1 -> x ∈ (window ka).*1 \/ x ∈ new;
  ad_result :
    match r with
    | inl KAX_OutOfOrder => ~ beyond ka from /\ KnownAssignedXids s.1 = KnownAssignedXids ka
    | inl KAX_TooMany => beyond ka from /\ KnownAssignedXids s.1 = KnownAssignedXids ka /\
        maxKnownAssignedXids ka < zlength (KnownAssignedXids ka) + zlength new
    | inr _ => beyond ka from /\ KnownAssignedXids s.1 = KnownAssignedXids ka ++ new /\
        zlength (KnownAssignedXids ka) + zlength new <= maxKnownAssignedXids ka
    end;
}.

Lemma known_fits ka : ka_ok ka -> zlength (KnownAssignedXids ka) <= Z.of_nat (headKnownAssignedXids ka).
Proof.
  intros H. pose proof (length_valids (window ka)) as Hv. fold (KnownAssignedXids ka) in Hv.
  unfold window in Hv. rewrite length_drop, length_take in Hv. unfold zlength. lia.
Qed.

Lemma add_spec clock from to ka c : ka_ok ka -> in_use from -> in_use to -> rank from <= rank to -> rank to < 0x7ffffff0 ->
  exists new, xid_range from to new /\
  added ka from new (KnownAssignedXidsAdd clock from to (ka, c)).1 (KnownAssignedXidsAdd clock from to (ka, c)).2.
Proof.
  intros H Hf Hto Hle Hr. destruct (nxids_between_spec from to Hf Hto Hle Hr) as (n & Hn & Hs).
  pose proof (xids_from_range n from to Hf Hto Hr Hs) as Hrange.
  exists (xids_from (S n) from). split; [done|].
  destruct (KnownAssignedXidsAdd clock from to (ka, c)) as [s' r] eqn:E. cbn [fst snd].
  unfold KnownAssignedXidsAdd, pbind, pwhen, pget, pmod, preturn, pret in E. rewrite Hn in E. cbn [fst] in E.
  assert (zlength (xids_from (S n) from) = Z.of_nat (S n)) as Hlen by (unfold zlength; by rewrite length_xids_from).
  assert (forall ka1 c1, ka_ok ka1 -> KnownAssignedXids ka1 = KnownAssignedXids ka -> shrinks ka ka1 -> beyond ka from ->
    no_room ka1 (Z.of_nat (S n)) = false -> added ka from (xids_from (S n) from) (insert_at_head from (Z.of_nat (S n)) ka1, c1) (inr tt)) as Hins.
  { intros ka1 c1 H1 Hk Hsh Hb Hroom.
    destruct (insert_at_head_spec from to n ka1) as (? & Hk' & Hm & Hw); try done; [intros x Hx; by apply Hb, (sh_window _ _ Hsh)|].
    split; cbn [fst]; [done|by rewrite Hm, (sh_max _ _ Hsh)| |].
    - rewrite Hw, fmap_app, marked_fst. intros x [Hx|Hx]%elem_of_app; [left; by apply (sh_window _ _ Hsh)|by right].
    - rewrite Hk', Hk. split_and!; [done..|]. pose proof (known_fits ka1 H1) as Hfit. rewrite Hk in Hfit.
      unfold no_room in Hroom. apply Z.ltb_ge in Hroom. rewrite <- (sh_max _ _ Hsh). lia. }
  destruct (out_of_order ka from) eqn:Ho.
  - injection E as <- <-. split; [done..|by left|]. split; [|done].
    intros Hb. apply out_of_order_spec in Hb; [congruence|done..].
  - apply out_of_order_spec in Ho; [|done..]. destruct (no_room ka (Z.of_nat (S n))) eqn:Hroom.
    2:{ injection E as <- <-. by apply Hins. }
    destruct (compress_spec clock KAX_NO_SPACE ka c H) as (H1 & Hk & Hm & Hc).
    pose proof (compress_shrinks clock KAX_NO_SPACE ka c H) as Hsh.
    destruct (KnownAssignedXidsCompress clock KAX_NO_SPACE (ka, c)) as [ka1 c1]. cbn [fst] in *.
    destruct (no_room ka1 (Z.of_nat (S n))) eqn:Hroom1; injection E as <- <-; [|by apply Hins].
    split; [done..|intros x Hx; left; by apply (sh_window _ _ Hsh)|]. split_and!; [done..|].
    destruct (Hc eq_refl) as [_ Hh]. rewrite (ka_num _ H) in Hh. unfold no_room in Hroom1. apply Z.ltb_lt in Hroom1. lia.
Qed.

(** *** Search *)

Lemma known_search_spec a xid fuel : forall first last lo' hi',
  0 <= lo' <= first -> first <= last + 1 -> last + 1 <= hi' -> hi' <= zlength a -> last - first < Z.of_nat fuel ->
  in_use xid -> (forall i, lo' <= i < hi' -> in_use (xid_at a (Z.to_nat i))) ->
  (forall i, lo' <= i < first -> rank (xid_at a (Z.to_nat i)) < rank xid) ->
  (forall i, last < i < hi' -> rank xid < rank (xid_at a (Z.to_nat i))) ->
  (forall i j, lo' <= i < j -> j < hi' -> rank (xid_at a (Z.to_nat i)) < rank (xid_at a (Z.to_nat j))) ->
  let r := known_search fuel a xid first last in
  (r = -1 /\ forall i, lo' <= i < hi' -> xid_at a (Z.to_nat i) <> xid) \/
  (lo' <= r < hi' /\ xid_at a (Z.to_nat r) = xid).
Proof.
  induction fuel as [|fuel IH]; intros first last l' h' Hl Hfl Hlh Hh Hf Hx Hu Hlow Hhigh Hs; simpl.
  - left. split; [done|]. intros i Hi E. destruct (decide (i < first)); [specialize (Hlow i)|specialize (Hhigh i)]; rewrite E in *; lia.
  - destruct (Z.leb_spec first last) as [Hle|Hgt].
    2:{ left. split; [done|]. intros i Hi E. destruct (decide (i < first)); [specialize (Hlow i)|specialize (Hhigh i)]; rewrite E in *; lia. }
    set (m := (first + last) / 2). assert (first <= m <= last) as Hm by (subst m; lia).
    destruct (Z.eqb_spec xid (xid_at a (Z.to_nat m))) as [E|Hne]; [right; split; [lia|done]|].
    rewrite (precedes_rank lo) by (done || apply Hu; lia).
    destruct (Z.ltb_spec (rank xid) (rank (xid_at a (Z.to_nat m)))) as [Hlt|Hge].
    + apply IH; try done; [lia..|]. intros i Hi. destruct (decide (i = m)) as [->|]; [done|].
      destruct (decide (last < i)); [apply Hhigh; lia|]. specialize (Hs m i). lia.
    + assert (rank (xid_at a (Z.to_nat m)) < rank xid) as Hgt.
      { destruct (decide (rank xid = rank (xid_at a (Z.to_nat m)))) as [E|]; [|lia].
        destruct Hne. apply (rank_inj lo); [apply Hx|apply (Hu m); lia|done]. }
      apply IH; try done; [lia..|]. intros i Hi. destruct (decide (i = m)) as [->|]; [done|].
      destruct (decide (i < first)); [apply Hlow; lia|]. specialize (Hs i m). lia.
Qed.

Lemma window_lookup ka i : ka_ok ka -> (tailKnownAssignedXids ka <= i < headKnownAssignedXids ka)%nat ->
  window ka !! (i - tailKnownAssignedXids ka)%nat = Some (slots ka !!! i).
Proof.
  intros H Hi. pose proof (ka_ptrs _ H). unfold window. rewrite lookup_drop, lookup_take_lt by lia.
  replace (tailKnownAssignedXids ka + (i - tailKnownAssignedXids ka))%nat with i by lia.
  apply list_lookup_lookup_total_lt. lia.
Qed.

Lemma window_xid ka i : ka_ok ka -> (tailKnownAssignedXids ka <= i < headKnownAssignedXids ka)%nat ->
  (window ka).*1 !! (i - tailKnownAssignedXids ka)%nat = Some (xid_at (slots ka) i).
Proof. intros. by rewrite list_lookup_fmap, window_lookup. Qed.

Lemma length_window ka : ka_ok ka -> length (window ka) = (headKnownAssignedXids ka - tailKnownAssignedXids ka)%nat.
Proof. intros H. pose proof (ka_ptrs _ H). unfold window. rewrite length_drop, length_take. lia. Qed.

(** What the search returns. *)
Definition found_at (ka : KnownAssigned) (xid : Z) : Z :=
  known_search (S (headKnownAssignedXids ka - tailKnownAssignedXids ka)) (slots ka) xid
    (Z.of_nat (tailKnownAssignedXids ka)) (Z.of_nat (headKnownAssignedXids ka) - 1).

Lemma found_at_spec ka xid : ka_ok ka -> in_use xid ->
  (found_at ka xid = -1 /\ xid ∉ (window ka).*1) \/
  (exists i, found_at ka xid = Z.of_nat i /\ (tailKnownAssignedXids ka <= i < headKnownAssignedXids ka)%nat /\ xid_at (slots ka) i = xid).
Proof.
  intros H Hx. pose proof (ka_ptrs _ H) as Hp. pose proof (ka_sorted _ H) as Hasc.
  assert (forall i, Z.of_nat (tailKnownAssignedXids ka) <= i < Z.of_nat (headKnownAssignedXids ka) ->
    (window ka).*1 !! (Z.to_nat i - tailKnownAssignedXids ka)%nat = Some (xid_at (slots ka) (Z.to_nat i))) as Hwin.
  { intros i Hi. apply window_xid; [done|lia]. }
  destruct (known_search_spec (slots ka) xid (S (headKnownAssignedXids ka - tailKnownAssignedXids ka))
    (Z.of_nat (tailKnownAssignedXids ka)) (Z.of_nat (headKnownAssignedXids ka) - 1)
    (Z.of_nat (tailKnownAssignedXids ka)) (Z.of_nat (headKnownAssignedXids ka))) as [[Hr Hno]|[Hr Hfound]];
    try (done || lia || (unfold zlength; lia)).
  - intros i Hi. eapply ascending_use; [done|]. by eapply list_elem_of_lookup_2, Hwin.
  - intros i j Hi Hj. destruct Hasc as [Hasc _].
    rewrite <- (list_lookup_total_correct _ _ _ (Hwin i ltac:(lia))), <- (list_lookup_total_correct _ _ _ (Hwin j ltac:(lia))).
    apply (StronglySorted_lookup_total (fun x y => rank x < rank y)); [done|lia|].
    apply (lookup_lt_Some _ _ _ (Hwin j ltac:(lia))).
  - left. split; [done|]. intros (k & Hk)%list_elem_of_lookup. pose proof (lookup_lt_Some _ _ _ Hk) as Hlt.
    rewrite length_fmap, length_window in Hlt by done.
    apply (Hno (Z.of_nat (tailKnownAssignedXids ka + k))); [lia|].
    specialize (Hwin (Z.of_nat (tailKnownAssignedXids ka + k)) ltac:(lia)).
    replace (Z.to_nat (Z.of_nat (tailKnownAssignedXids ka + k)) - tailKnownAssignedXids ka)%nat with k in Hwin by lia. congruence.
  - right. eexists (Z.to_nat (found_at ka xid)). unfold found_at. split_and!; [lia..|done].
Qed.

Lemma ascending_NoDup l : ascending l -> NoDup l.
Proof.
  induction l as [|x l IH]; intros H; constructor; apply ascending_cons in H as (_ & H & Hx); [|auto].
  intros Hin%Hx. lia.
Qed.

(** The entry that the search has found. *)
Lemma window_split ka i : ka_ok ka -> (tailKnownAssignedXids ka <= i < headKnownAssignedXids ka)%nat ->
  exists l k, window ka = l ++ (xid_at (slots ka) i, valid_at (slots ka) i) :: k /\ length l = (i - tailKnownAssignedXids ka)%nat /\
    xid_at (slots ka) i ∉ l.*1 /\ xid_at (slots ka) i ∉ k.*1.
Proof.
  intros H Hi. pose proof (window_lookup ka i H Hi) as Hl. rewrite slot_eta in Hl.
  apply list_elem_of_split_length in Hl as (l & k & Hw & Hlen).
  exists l, k. split; [done|]. split; [done|]. pose proof (ascending_NoDup _ (ka_sorted _ H)) as Hnd.
  rewrite Hw, fmap_app in Hnd. simpl in Hnd. apply NoDup_app in Hnd as (_ & Hd & Hnd). apply NoDup_cons in Hnd as [Hk _].
  split; [|done]. intros Hx. apply (Hd _ Hx). by left.
Qed.

Lemma exists_spec ka xid : ka_ok ka -> in_use xid ->
  KnownAssignedXidExists ka xid = bool_decide (xid ∈ KnownAssignedXids ka).
Proof.
  intros H Hx. unfold KnownAssignedXidExists, KnownAssignedXidsSearch. fold (found_at ka xid).
  destruct (found_at_spec ka xid H Hx) as [[-> Hno]|(i & -> & Hi & Hxi)]; simpl.
  - symmetry. apply bool_decide_eq_false. by intros ?%valids_fst.
  - destruct (Z.ltb_spec (Z.of_nat i) 0) as [|_]; [lia|]. rewrite Nat2Z.id.
    destruct (window_split ka i H Hi) as (l & k & Hw & _ & Hl & Hk). rewrite Hxi in *.
    assert (xid ∈ KnownAssignedXids ka <-> valid_at (slots ka) i = true) as Hv.
    { unfold KnownAssignedXids. rewrite Hw, elem_of_valids, elem_of_app, elem_of_cons. split; [|by intros ->; auto].
      intros [Hin|[[= ->]|Hin]]; [destruct Hl|done|destruct Hk]; by apply (list_elem_of_fmap_2 fst _ (xid, true)). }
    destruct (valid_at (slots ka) i); simpl; symmetry; [by apply bool_decide_eq_true, Hv|].
    apply bool_decide_eq_false. by intros ?%Hv.
Qed.

(** *** Removal *)

Lemma settle_spec t ka : zlength (slots ka) = maxKnownAssignedXids ka ->
  (t <= headKnownAssignedXids ka <= length (slots ka))%nat ->
  let w := drop t (take (headKnownAssignedXids ka) (slots ka)) in
  numKnownAssignedXids ka = zlength (valids w) -> ascending w.*1 ->
  ka_ok (settle t ka) /\ KnownAssignedXids (settle t ka) = valids w /\
  maxKnownAssignedXids (settle t ka) = maxKnownAssignedXids ka /\ (forall x, x ∈ (window (settle t ka)).*1 -> x ∈ w.*1).
Proof.
  intros Hlen Hp w Hnum Hasc. unfold settle.
  destruct (skip_invalid_spec (headKnownAssignedXids ka - t) t (slots ka)) as (Hj & He & Hv); [lia|].
  set (j := skip_invalid _ _ _) in *. replace (t + (headKnownAssignedXids ka - t))%nat with (headKnownAssignedXids ka) in * by lia.
  rewrite !segment_window in He by lia. fold w in He.
  destruct (Nat.leb_spec (headKnownAssignedXids ka) j) as [Hge|Hlt].
  - rewrite (drop_ge _ j) in He by (rewrite length_take; lia). simpl in He. rewrite He in Hnum |- *.
    split_and!; [|done..|]; [|intros x []%elem_of_nil]. split; simpl; try done; [lia|apply ascending_nil].
  - assert (w = take (j - t) w ++ drop j (take (headKnownAssignedXids ka) (slots ka))) as Hw.
    { subst w. rewrite <- (take_drop (j - t) (drop t _)) at 1. f_equal. rewrite drop_drop. f_equal. lia. }
    split_and!; [|done..|].
    + split; simpl; [done|lia|by rewrite Hnum, He| |].
      * rewrite Hw, fmap_app in Hasc. by apply ascending_app in Hasc as (_ & ? & _).
      * unfold window. simpl. intros x b k. rewrite <- segment_window by lia.
        replace (headKnownAssignedXids ka - j)%nat with (S (headKnownAssignedXids ka - S j)) by lia.
        rewrite segment_S, slot_eta, Hv by lia. by intros [= _ <- _].
    + intros x Hx. rewrite Hw, fmap_app. apply elem_of_app. by right.
Qed.

Lemma valids_filter_ne x b l k : x ∉ l.*1 -> x ∉ k.*1 ->
  valids (l ++ (x, false) :: k) = filter (fun y => y <> x) (valids (l ++ (x, b) :: k)).
Proof.
  intros Hl Hk. assert (forall m, x ∉ m.*1 -> filter (fun y => y <> x) (valids m) = valids m) as Hf.
  { intros m Hm. apply list_filter_id. intros y Hy ->. by apply Hm, valids_fst. }
  rewrite !valids_app, filter_app, Hf by done. f_equal. simpl. destruct b; [|by rewrite Hf].
  rewrite filter_cons_False by (intros Hn; by apply Hn). by rewrite Hf.
Qed.

Lemma invalidate_window ka i l k x b : ka_ok ka -> (tailKnownAssignedXids ka <= i < headKnownAssignedXids ka)%nat ->
  xid_at (slots ka) i = x -> window ka = l ++ (x, b) :: k -> length l = (i - tailKnownAssignedXids ka)%nat ->
  drop (tailKnownAssignedXids ka) (take (headKnownAssignedXids ka) (invalidate i (slots ka))) = l ++ (x, false) :: k.
Proof.
  intros H Hi Hx Hw Hl. unfold invalidate. rewrite Hx, take_insert_lt, drop_insert_ge by lia. fold (window ka).
  rewrite Hw, <- Hl. by rewrite insert_app_r_alt, Nat.sub_diag by lia.
Qed.

Lemma invalidate_spec ka xid i : ka_ok ka -> (tailKnownAssignedXids ka <= i < headKnownAssignedXids ka)%nat ->
  xid_at (slots ka) i = xid -> valid_at (slots ka) i = true ->
  let ka1 := set_slots ka (numKnownAssignedXids ka - 1) (tailKnownAssignedXids ka) (headKnownAssignedXids ka) (invalidate i (slots ka)) in
  let ka' := if (i =? tailKnownAssignedXids ka)%nat then settle (S (tailKnownAssignedXids ka)) ka1 else ka1 in
  shrinks ka ka' /\ KnownAssignedXids ka' = filter (fun y => y <> xid) (KnownAssignedXids ka).
Proof.
  intros H Hi Hx Hv ka1. destruct (window_split ka i H Hi) as (l & k & Hw & Hlen & Hl & Hk).
  rewrite Hx, Hv in *. pose proof (invalidate_window ka i l k xid true H Hi Hx Hw Hlen) as Hw1.
  pose proof (valids_filter_ne xid true l k Hl Hk) as Hval. rewrite <- Hw in Hval. fold (KnownAssignedXids ka) in Hval.
  assert (zlength (slots ka1) = maxKnownAssignedXids ka1) as Hlen1.
  { simpl. unfold invalidate, zlength. rewrite length_insert. apply (ka_len _ H). }
  pose proof (ka_ptrs _ H) as Hp. assert (length (slots ka1) = length (slots ka)) as Hls by apply length_insert.
  assert (numKnownAssignedXids ka1 = zlength (valids (l ++ (xid, false) :: k))) as Hnum1.
  { simpl. rewrite (ka_num _ H). unfold KnownAssignedXids. rewrite Hw, !valids_app. unfold zlength.
    rewrite !length_app. simpl. lia. }
  assert (forall a, (l ++ (xid, a) :: k).*1 = (window ka).*1) as Hfst by (intros; by rewrite Hw, !fmap_app).
  pose proof (ka_sorted _ H) as Hs.
  destruct (Nat.eqb_spec i (tailKnownAssignedXids ka)) as [E|Hne].
  - destruct l; [|simpl in Hlen; lia]. simpl in Hw1, Hval, Hnum1.
    assert (drop (S (tailKnownAssignedXids ka)) (take (headKnownAssignedXids ka) (slots ka1)) = k) as Hwk.
    { rewrite <- Nat.add_1_r, <- drop_drop. simpl slots. by rewrite Hw1. }
    assert (S (tailKnownAssignedXids ka) <= headKnownAssignedXids ka1 <= length (slots ka1))%nat as Hp1 by (rewrite Hls; simpl; lia).
    rewrite Hw in Hs. simpl in Hs. apply ascending_cons in Hs as (_ & Hs & _). rewrite <- Hwk in Hs, Hnum1.
    destruct (settle_spec (S (tailKnownAssignedXids ka)) ka1 Hlen1 Hp1 Hnum1 Hs) as (? & HK & HM & HW).
    change (headKnownAssignedXids ka1) with (headKnownAssignedXids ka) in HK, HW. rewrite Hwk in HK, HW.
    split; [split; [done..|]|by rewrite HK].
    intros x Hin. rewrite Hw. right. by apply HW.
  - assert (window ka1 = l ++ (xid, false) :: k) as Hwin by exact Hw1.
    split; [split; [split|done|]|]; unfold KnownAssignedXids; rewrite ?Hwin, ?Hfst; try done.
    + rewrite Hls. simpl. lia.
    + intros x b w. destruct l as [|[x0 b0] l]; [simpl in Hlen; lia|]. simpl. intros [= <- <- <-].
      by apply (ka_tail _ H x0 _ (l ++ (xid, true) :: k)).
Qed.

Lemma remove_spec ka xid : ka_ok ka -> in_use xid ->
  shrinks ka (KnownAssignedXidsRemove xid ka) /\
  KnownAssignedXids (KnownAssignedXidsRemove xid ka) = filter (fun y => y <> xid) (KnownAssignedXids ka).
Proof.
  intros H Hx. pose proof (exists_spec ka xid H Hx) as Hex.
  unfold KnownAssignedXidExists, KnownAssignedXidsRemove, KnownAssignedXidsSearch in *. fold (found_at ka xid) in *.
  assert (xid ∉ KnownAssignedXids ka -> shrinks ka ka /\ KnownAssignedXids ka = filter (fun y => y <> xid) (KnownAssignedXids ka)) as Hnone.
  { intros Hn. split; [by apply shrinks_refl|]. symmetry. apply list_filter_id. by intros y Hy ->. }
  destruct (found_at_spec ka xid H Hx) as [[Hf Hno]|(i & Hf & Hi & Hxi)]; rewrite Hf in *; simpl in *.
  - apply Hnone. by intros ?%valids_fst.
  - destruct (Z.ltb_spec (Z.of_nat i) 0) as [|_]; [lia|]. rewrite Nat2Z.id in *.
    destruct (valid_at (slots ka) i) eqn:Hv; simpl in *; [|by symmetry in Hex; apply bool_decide_eq_false in Hex; apply Hnone].
    by apply invalidate_spec.
Qed.

Lemma remove_all_spec l : forall ka, ka_ok ka -> Forall in_use l ->
  let ka' := foldl (fun ka x => KnownAssignedXidsRemove x ka) ka l in
  shrinks ka ka' /\ (forall x, x ∈ KnownAssignedXids ka' <-> x ∈ KnownAssignedXids ka /\ x ∉ l).
Proof.
  induction l as [|y l IH]; intros ka H Hl; simpl.
  - split; [by apply shrinks_refl|]. set_solver.
  - apply Forall_cons in Hl as [Hy Hl]. destruct (remove_spec ka y H Hy) as [Hsh Hk].
    destruct (IH _ (sh_ok _ _ Hsh) Hl) as [Hsh' Hk']. split; [by eapply shrinks_trans|].
    intros x. rewrite Hk', Hk, list_elem_of_filter, not_elem_of_cons. tauto.
Qed.

Lemma remove_tree_spec clock xid l ka c : ka_ok ka -> (TransactionIdIsValid xid = true -> in_use xid) -> Forall in_use l ->
  let ka' := (KnownAssignedXidsRemoveTree clock xid l (ka, c)).1 in
  shrinks ka ka' /\
  (forall x, in_use x -> x ∈ KnownAssignedXids ka' <-> x ∈ KnownAssignedXids ka /\ x <> xid /\ x ∉ l).
Proof.
  intros H Hx Hl. unfold KnownAssignedXidsRemoveTree. set (ka1 := if TransactionIdIsValid xid then _ else _).
  assert (shrinks ka ka1 /\ forall x, in_use x -> x ∈ KnownAssignedXids ka1 <-> x ∈ KnownAssignedXids ka /\ x <> xid) as [Hsh Hk].
  { subst ka1. destruct (TransactionIdIsValid xid) eqn:Hv.
    - destruct (remove_spec ka xid H (Hx eq_refl)) as [Hsh Hk]. split; [done|]. intros x _.
      rewrite Hk, list_elem_of_filter. tauto.
    - split; [by apply shrinks_refl|]. intros x Hux. apply in_use_valid in Hux.
      split; [intros ?; split; [done|congruence]|tauto]. }
  destruct (remove_all_spec l ka1 (sh_ok _ _ Hsh) Hl) as [Hsh2 Hk2]. cbv zeta.
  set (ka2 := foldl _ _ _) in *.
  destruct (compress_spec clock KAX_TRANSACTION_END ka2 c (sh_ok _ _ Hsh2)) as (_ & Hk3 & _).
  split; [eapply shrinks_trans; [done|]; eapply shrinks_trans; [done|]; apply compress_shrinks, Hsh2|].
  intros x Hux. rewrite Hk3, Hk2, Hk by done. tauto.
Qed.

(** *** Pruning *)

Lemma prune_list_fst prepared r l : (prune_list prepared r l).*1 = l.*1.
Proof.
  induction l as [|[x b] l IH]; [done|]. rewrite prune_list_cons.
  destruct (b && TransactionIdFollowsOrEquals x r); simpl; [done|]. by f_equal.
Qed.

Lemma prune_list_spec prepared r l : in_use r -> ascending l.*1 ->
  forall x, x ∈ valids (prune_list prepared r l) <-> x ∈ valids l /\ (rank r <= rank x \/ prepared x = true).
Proof.
  intros Hr. induction l as [|[y b] l IH]; intros Hs x; [simpl; set_solver|].
  simpl in Hs. apply ascending_cons in Hs as (Hy & Hs & Hlt). specialize (IH Hs).
  rewrite prune_list_cons, (follows_eq_rank lo) by done.
  destruct b; simpl; [|apply IH]. destruct (Z.leb_spec (rank r) (rank y)) as [Hle|Hgt].
  - split; [|tauto]. intros Hin. split; [done|]. left. apply elem_of_cons in Hin as [->|Hin%valids_fst%Hlt]; lia.
  - destruct (prepared y) eqn:Hp; simpl; rewrite ?elem_of_cons, IH; [naive_solver|].
    split; [tauto|]. intros [[->|Hin] Hor]; [|tauto]. destruct Hor as [?|?]; [lia|congruence].
Qed.

Lemma prune_spec clock prepared r ka c : ka_ok ka -> in_use r ->
  let ka' := (KnownAssignedXidsRemovePreceding clock prepared r (ka, c)).1 in
  shrinks ka ka' /\
  (forall x, x ∈ KnownAssignedXids ka' <-> x ∈ KnownAssignedXids ka /\ (rank r <= rank x \/ prepared x = true)).
Proof.
  intros H Hr. unfold KnownAssignedXidsRemovePreceding. rewrite (in_use_valid lo r Hr). cbn [negb].
  destruct (prune_loop _ _ _ _ _ _) as [a k] eqn:E. cbv zeta. pose proof (ka_ptrs _ H) as Hp.
  apply prune_loop_spec in E as [Ha Hk]; [|lia]. rewrite segment_window in Ha, Hk by lia. fold (window ka) in Ha, Hk.
  set (ka1 := set_slots _ _ _ _ _).
  assert (length (prune_list prepared r (window ka)) = length (window ka)) as Hpl.
  { by rewrite <- (length_fmap fst), prune_list_fst, length_fmap. }
  rewrite length_window in Hpl by done.
  assert (length (slots ka1) = length (slots ka)) as Hls.
  { simpl. rewrite Ha, !length_app, length_take, length_drop, Hpl. lia. }
  assert (drop (tailKnownAssignedXids ka) (take (headKnownAssignedXids ka1) (slots ka1)) = prune_list prepared r (window ka)) as Hw.
  { simpl. rewrite Ha, app_assoc, take_app_length', drop_app_length'; [done|..]; rewrite ?length_app, length_take; lia. }
  destruct (settle_spec (tailKnownAssignedXids ka) ka1) as (H1 & HK & HM & HW).
  { unfold zlength. rewrite Hls. apply (ka_len _ H). }
  { rewrite Hls. simpl. lia. }
  { rewrite Hw. simpl. rewrite Hk, (ka_num _ H). unfold KnownAssignedXids. lia. }
  { rewrite Hw, prune_list_fst. apply (ka_sorted _ H). }
  rewrite Hw in HK, HW. rewrite prune_list_fst in HW.
  destruct (compress_spec clock KAX_PRUNE _ c H1) as (_ & HK2 & _).
  split; [eapply shrinks_trans; [by split|]; by apply compress_shrinks|].
  intros x. rewrite HK2, HK. apply prune_list_spec; [done|apply (ka_sorted _ H)].
Qed.

Lemma reset_spec ka : ka_ok ka -> shrinks ka (KnownAssignedXidsReset ka) /\ KnownAssignedXids (KnownAssignedXidsReset ka) = [].
Proof.
  intros H. split; [|done]. split; [split; try done; [apply (ka_len _ H)|simpl; lia|apply ascending_nil]|done|]. intros x []%elem_of_nil.
Qed.

(** *** Reading *)

Fixpoint known_scan (l : list Z) (count : nat) (xmin xmax : Z) : Z * list Z :=
  match l with
  | [] => (xmin, [])
  | x :: l =>
      let xmin := if (count =? 0)%nat && TransactionIdPrecedes x xmin then x else xmin in
      if TransactionIdIsValid xmax && TransactionIdFollowsOrEquals x xmax then (xmin, [])
      else let '(xmin, k) := known_scan l (S count) xmin xmax in (xmin, x :: k)
  end.

Lemma get_loop_scan n a xmax : forall i count xmin, (i + n <= length a)%nat ->
  get_loop n i count a xmin xmax = known_scan (valids (segment i n a)) count xmin xmax.
Proof.
  induction n as [|n IH]; intros i count xmin Hn; [done|]. rewrite valids_segment by lia. simpl.
  destruct (valid_at a i); simpl; [|apply IH; lia]. by rewrite IH by lia.
Qed.

Lemma known_scan_spec xmax l : in_use xmax -> ascending l -> forall count xmin,
  known_scan l count xmin xmax =
  (match l with
   | x :: _ => if (count =? 0)%nat && TransactionIdPrecedes x xmin then x else xmin
   | [] => xmin end,
   filter (fun x => rank x < rank xmax) l).
Proof.
  intros Hm. induction l as [|x l IH]; intros Hs count xmin; [done|].
  apply ascending_cons in Hs as (Hx & Hs & Hlt). simpl known_scan.
  rewrite (in_use_valid lo xmax Hm), (follows_eq_rank lo) by done. simpl andb.
  destruct (Z.leb_spec (rank xmax) (rank x)) as [Hle|Hgt].
  - rewrite filter_cons_False by lia. f_equal. symmetry. apply elem_of_nil_inv.
    intros y [Hr Hy%Hlt]%list_elem_of_filter. lia.
  - rewrite filter_cons_True by lia. rewrite IH by done. by destruct l.
Qed.

Lemma get_spec ka xmin xmax : ka_ok ka -> in_use xmax ->
  KnownAssignedXidsGetAndSetXmin ka xmin xmax =
  (match KnownAssignedXids ka with
   | x :: _ => if TransactionIdPrecedes x xmin then x else xmin
   | [] => xmin end,
   filter (fun x => rank x < rank xmax) (KnownAssignedXids ka)).
Proof.
  intros H Hm. unfold KnownAssignedXidsGetAndSetXmin. pose proof (ka_ptrs _ H).
  rewrite get_loop_scan, <- valids_window by (done || lia). rewrite known_scan_spec by (done || by apply known_ascending). done.
Qed.

Lemma oldest_loop_head n a : forall i, (i + n <= length a)%nat ->
  oldest_loop n i a = default InvalidTransactionId (head (valids (segment i n a))).
Proof.
  induction n as [|n IH]; intros i Hn; [done|]. rewrite valids_segment by lia. simpl.
  destruct (valid_at a i); [done|]. apply IH. lia.
Qed.

Lemma oldest_spec ka : ka_ok ka ->
  KnownAssignedXidsGetOldestXmin ka = default InvalidTransactionId (head (KnownAssignedXids ka)).
Proof.
  intros H. pose proof (ka_ptrs _ H). unfold KnownAssignedXidsGetOldestXmin.
  by rewrite oldest_loop_head, <- valids_window by (done || lia).
Qed.

Lemma ascending_ext l : forall k, ascending l -> ascending k -> (forall x, x ∈ l <-> x ∈ k) -> l = k.
Proof.
  intros k [Hl Ul] [Hk Uk] Hiff. apply (StronglySorted_unique_strong (fun x y => rank x < rank y)); try done.
  - intros x y _ _. lia.
  - apply NoDup_Permutation; [by apply ascending_NoDup..|done].
Qed.

Lemma init_known_ok a : ka_ok (init_known a).
Proof. split; simpl; try done; [lia|apply ascending_nil]. Qed.
End ordered.
