(* ===== verification/KnownAssignedTheorems.v ===== *)
(** * The known-assigned ids as a sorted set

    The array of [KnownAssigned] implements a sorted set of ids: whatever
    sequence of operations the startup process and its readers perform, they
    see what the set would show, for any contents of the memory at the start
    and any readings of the clock that compression consults. *)

From S2P Require Import Prelude.
From S2P Require Import TransactionId.
From S2P Require Import KnownAssigned.

Inductive ka_op :=
| KaAdd (from_xid to_xid : Z)
| KaRemoveTree (xid : Z) (subxids : list Z)
| KaPrune (prepared : Z -> bool) (removeXid : Z)
| KaIdle
| KaReset
| KaExists (xid : Z)
| KaGet (xmin xmax : Z)
| KaOldest.

Inductive ka_answer :=
| NoAnswer
| Failed (e : KnownAssignedError)
| Present (b : bool)
| Listed (xmin : Z) (xids : list Z)
| Oldest (xid : Z).

Definition ka_step (clock : nat -> Z) (o : ka_op) (s : KnownAssigned * Compressor)
  : (KnownAssigned * Compressor) * ka_answer :=
  match o with
  | KaAdd from_xid to_xid =>
      let '(s, r) := KnownAssignedXidsAdd clock from_xid to_xid s in
      (s, match r with inl e => Failed e | inr _ => NoAnswer end)
  | KaRemoveTree xid subxids => (KnownAssignedXidsRemoveTree clock xid subxids s, NoAnswer)
  | KaPrune prepared removeXid => (KnownAssignedXidsRemovePreceding clock prepared removeXid s, NoAnswer)
  | KaIdle => (KnownAssignedXidsCompress clock KAX_STARTUP_PROCESS_IDLE s, NoAnswer)
  | KaReset => ((KnownAssignedXidsReset s.1, s.2), NoAnswer)
  | KaExists xid => (s, Present (KnownAssignedXidExists s.1 xid))
  | KaGet xmin xmax => let '(xmin, xids) := KnownAssignedXidsGetAndSetXmin s.1 xmin xmax in (s, Listed xmin xids)
  | KaOldest => (s, Oldest (KnownAssignedXidsGetOldestXmin s.1))
  end.

Fixpoint ka_run (clock : nat -> Z) (ops : list ka_op) (s : KnownAssigned * Compressor)
  : (KnownAssigned * Compressor) * list ka_answer :=
  match ops with
  | [] => (s, [])
  | o :: ops =>
      let '(s, a) := ka_step clock o s in
      let '(s, l) := ka_run clock ops s in (s, a :: l)
  end.

Section refinement.
Context (lo max : Z).
Abbreviation rank := (xid_rank lo).
Abbreviation in_use := (in_use lo).

(** What an operation means for the set, with its answer. *)
Inductive ka_means : ka_op -> list Z -> ka_answer -> list Z -> Prop :=
| MeansAdd from to new L : xid_range lo from to new -> zlength L + zlength new <= max ->
    ka_means (KaAdd from to) L NoAnswer (L ++ new)
| MeansFull from to new L : xid_range lo from to new -> max < zlength L + zlength new ->
    ka_means (KaAdd from to) L (Failed KAX_TooMany) L
| MeansRemoveTree xid subxids L :
    ka_means (KaRemoveTree xid subxids) L NoAnswer (filter (fun x => x <> xid /\ x ∉ subxids) L)
| MeansPrune prepared r L : TransactionIdIsValid r = true ->
    ka_means (KaPrune prepared r) L NoAnswer (filter (fun x => rank r <= rank x \/ prepared x = true) L)
| MeansClear prepared L : ka_means (KaPrune prepared InvalidTransactionId) L NoAnswer []
| MeansIdle L : ka_means KaIdle L NoAnswer L
| MeansReset L : ka_means KaReset L NoAnswer []
| MeansExists xid L : ka_means (KaExists xid) L (Present (bool_decide (xid ∈ L))) L
| MeansGet xmin xmax L :
    ka_means (KaGet xmin xmax) L
      (Listed (match L with x :: _ => if TransactionIdPrecedes x xmin then x else xmin | [] => xmin end)
         (filter (fun x => rank x < rank xmax) L)) L
| MeansOldest L : ka_means KaOldest L (Oldest (default InvalidTransactionId (head L))) L.

Inductive ka_means_run : list ka_op -> list Z -> list ka_answer -> list Z -> Prop :=
| MeansNil L : ka_means_run [] L [] L
| MeansCons o ops L a L1 l L2 : ka_means o L a L1 -> ka_means_run ops L1 l L2 -> ka_means_run (o :: ops) L (a :: l) L2.

(** Ids in use throughout, entered in ascending order: [t] is the rank of the
    last one. *)
Definition ka_legal (t : Z) (o : ka_op) : Prop :=
  match o with
  | KaAdd from to => in_use from /\ in_use to /\ t < rank from /\ rank from <= rank to /\ rank to < 0x7ffffff0
  | KaRemoveTree xid subxids => (TransactionIdIsValid xid = true -> in_use xid) /\ Forall in_use subxids
  | KaPrune _ r => TransactionIdIsValid r = true -> in_use r
  | KaExists xid => in_use xid
  | KaGet _ xmax => in_use xmax
  | _ => True
  end.

Definition ka_last (t : Z) (o : ka_op) : Z := match o with KaAdd _ to => rank to | _ => t end.

Fixpoint ka_legal_run (t : Z) (ops : list ka_op) : Prop :=
  match ops with
  | [] => True
  | o :: ops => ka_legal t o /\ ka_legal_run (ka_last t o) ops
  end.

Record ka_at (t : Z) (ka : KnownAssigned) : Prop := {
  at_ok : ka_ok lo ka;
  at_max : maxKnownAssignedXids ka = max;
  at_below : forall x, x ∈ (window ka).*1 -> rank x <= t;
}.

Lemma shrinks_at t ka ka' : ka_at t ka -> shrinks lo ka ka' -> ka_at t ka'.
Proof. intros [? ? ?] [? ? ?]. split; [done|congruence|auto]. Qed.

Lemma filter_ascending (P : Z -> Prop) `{forall x, Decision (P x)} l k : ascending lo l -> ascending lo k ->
  (forall x, x ∈ k <-> x ∈ l /\ P x) -> k = filter P l.
Proof.
  intros Hl Hk Hiff. apply (ascending_ext lo); [done|by eapply ascending_sublist; [apply sublist_filter|]|].
  intros x. rewrite Hiff, list_elem_of_filter. tauto.
Qed.

Lemma ka_step_means clock o t ka c : ka_at t ka -> ka_legal t o ->
  let '(s, a) := ka_step clock o (ka, c) in
  ka_at (ka_last t o) s.1 /\ ka_means o (KnownAssignedXids ka) a (KnownAssignedXids s.1).
Proof.
  intros Hat Hl. pose proof (at_ok _ _ Hat) as Hok. pose proof (known_ascending lo ka Hok) as Hasc.
  destruct o as [from to|xid subxids|prepared r| | |xid|xmin xmax|]; simpl in Hl; simpl ka_last.
  - destruct Hl as (Hf & Hto & Ht & Hle & Hr). cbn [ka_step].
    destruct (add_spec lo clock from to ka c Hok Hf Hto Hle Hr) as (new & Hnew & Hadd).
    destruct (KnownAssignedXidsAdd clock from to (ka, c)) as [s r]. simpl in Hadd. destruct Hadd as [Hok' Hmax Hwin Hres].
    rewrite (at_max _ _ Hat) in Hmax, Hres. split.
    + split; [done..|]. intros x [Hx|Hx]%Hwin; [apply (at_below _ _ Hat) in Hx; lia|]. apply (proj2 Hnew) in Hx. lia.
    + destruct r as [[]|[]].
      * destruct Hres as [Hb _]. destruct Hb. intros x Hx. apply (at_below _ _ Hat) in Hx. lia.
      * destruct Hres as (_ & -> & ?). by apply MeansFull with new.
      * destruct Hres as (_ & -> & ?). by apply MeansAdd.
  - destruct Hl as [Hx Hs]. cbn [ka_step]. destruct (remove_tree_spec lo clock xid subxids ka c Hok Hx Hs) as [Hsh Hk].
    split; [by eapply shrinks_at|]. erewrite (filter_ascending (fun x => x <> xid /\ x ∉ subxids)); [constructor|done| |].
    + apply known_ascending, (sh_ok _ _ _ Hsh).
    + intros x. split; [|intros [Hin ?]; apply Hk; [by eapply ascending_use|done]].
      intros Hin. apply Hk; [|done]. eapply ascending_use; [apply known_ascending, (sh_ok _ _ _ Hsh)|done].
  - cbn [ka_step]. destruct (TransactionIdIsValid r) eqn:Hv.
    + destruct (prune_spec lo clock prepared r ka c Hok (Hl eq_refl)) as [Hsh Hk]. split; [by eapply shrinks_at|].
      erewrite (filter_ascending (fun x => rank r <= rank x \/ prepared x = true)); [by constructor|done| |done].
      apply known_ascending, (sh_ok _ _ _ Hsh).
    + destruct (reset_spec lo ka Hok) as [Hsh Hk]. unfold KnownAssignedXidsRemovePreceding. rewrite Hv. cbn [negb].
      split; [by eapply shrinks_at|]. apply negb_false_iff, Z.eqb_eq in Hv. subst r. simpl. constructor.
  - cbn [ka_step]. destruct (compress_spec lo clock KAX_STARTUP_PROCESS_IDLE ka c Hok) as (_ & Hk & _).
    split; [eapply shrinks_at; [done|by apply compress_shrinks]|]. rewrite Hk. constructor.
  - destruct (reset_spec lo ka Hok) as [Hsh Hk]. simpl. split; [by eapply shrinks_at|]. constructor.
  - simpl. split; [done|]. rewrite (exists_spec lo ka xid Hok Hl). constructor.
  - cbn [ka_step fst]. rewrite (get_spec lo ka xmin xmax Hok Hl). split; [done|]. constructor.
  - simpl. split; [done|]. rewrite (oldest_spec lo ka Hok). constructor.
Qed.

Lemma ka_run_means clock ops : forall t s, ka_at t s.1 -> ka_legal_run t ops ->
  let '(s', l) := ka_run clock ops s in
  ka_ok lo s'.1 /\ ka_means_run ops (KnownAssignedXids s.1) l (KnownAssignedXids s'.1).
Proof.
  induction ops as [|o ops IH]; intros t [ka c] Hat Hl; simpl.
  - split; [apply Hat|constructor].
  - destruct Hl as [Ho Hl]. pose proof (ka_step_means clock o t ka c Hat Ho) as Hstep.
    destruct (ka_step clock o (ka, c)) as [s1 a]. destruct Hstep as [Hat1 Hm].
    specialize (IH _ s1 Hat1 Hl). destruct (ka_run clock ops s1) as [s2 l]. destruct IH as [Hok Hr].
    split; [done|]. by econstructor.
Qed.
End refinement.

(** C18. The array with gaps between head and tail, its binary search, its
    lazy compression and its pruning implement a sorted set of ids: any
    sequence of operations, with any compression the clock and the counters
    provoke, returns what the set returns, running out of space exactly when
    the set has no room. *)
Theorem known_assigned_refines lo clock (ops : list ka_op) (memory : list (Z * bool)) (c : Compressor) :
  ka_legal_run lo (-1) ops ->
  let '(s, answers) := ka_run clock ops (init_known memory, c) in
  ka_means_run lo (zlength memory) ops [] answers (KnownAssignedXids s.1).
Proof.
  intros Hl. pose proof (ka_run_means lo (zlength memory) clock ops (-1) (init_known memory, c)) as H.
  destruct (ka_run clock ops (init_known memory, c)) as [s l]. apply H; [|done].
  split; [apply init_known_ok|done|]. intros x []%elem_of_nil.
Qed.

(** C29. The array stays well formed whatever is done to it: entries ascend in
    the modular order even where they have been invalidated, none is left
    behind the oldest valid one, the counter counts the valid ones and the
    pointers stay within the allotted memory. *)
Theorem known_assigned_well_formed lo clock (ops : list ka_op) (memory : list (Z * bool)) (c : Compressor) :
  ka_legal_run lo (-1) ops ->
  ka_ok lo (ka_run clock ops (init_known memory, c)).1.1.
Proof.
  intros Hl. pose proof (ka_run_means lo (zlength memory) clock ops (-1) (init_known memory, c)) as H.
  destruct (ka_run clock ops (init_known memory, c)) as [s l]. apply H; [|done].
  split; [apply init_known_ok|done|]. intros x []%elem_of_nil.
Qed.

(** Ids on both sides of the wrap point in an array of four entries: two
    removals leave gaps, the insertion that does not fit compresses them out,
    and the next one fails. *)
Definition demo_ka_ops : list ka_op :=
  [KaAdd 4294967294 3; KaRemoveTree 4294967295 []; KaExists 4294967295; KaExists 3; KaAdd 4 5; KaGet 100 5; KaAdd 6 6;
   KaPrune (fun x => x =? 4294967294) 4; KaOldest; KaGet 100 100].
Definition demo_memory : list (Z * bool) := replicate 4 (77, true).

Lemma demo_ka_legal : ka_legal_run 4294967000 (-1) demo_ka_ops.
Proof.
  assert (forall x, x ∈ [4294967294; 4294967295; 3; 4; 5; 6; 100] -> in_use 4294967000 x) as Hu.
  { intros x Hx. repeat (apply elem_of_cons in Hx as [->|Hx]; [by vm_compute|]). by apply not_elem_of_nil in Hx. }
  unfold demo_ka_ops. cbn [ka_legal_run ka_legal ka_last]. split_and!; try done; try (intros _); try (by constructor); try (apply Hu; elem);
    vm_compute; congruence.
Qed.

Lemma known_assigned_refines_witness :
  (ka_run (fun _ => 0) demo_ka_ops (init_known demo_memory, MkCompressor 0 0 0)).2 =
    [NoAnswer; NoAnswer; Present false; Present true; NoAnswer; Listed 4294967294 [4294967294; 3; 4]; Failed KAX_TooMany;
     NoAnswer; Oldest 4294967294; Listed 4294967294 [4294967294; 4; 5]] /\
  exists L, ka_means_run 4294967000 4 demo_ka_ops []
    (ka_run (fun _ => 0) demo_ka_ops (init_known demo_memory, MkCompressor 0 0 0)).2 L.
Proof.
  split; [by vm_compute|].
  pose proof (known_assigned_refines 4294967000 (fun _ => 0) demo_ka_ops demo_memory (MkCompressor 0 0 0) demo_ka_legal) as H.
  destruct (ka_run _ _ _) as [s l]. eexists. exact H.
Defined.

Lemma known_assigned_well_formed_witness :
  let ka := (ka_run (fun _ => 0) demo_ka_ops (init_known demo_memory, MkCompressor 0 0 0)).1.1 in
  ka_ok 4294967000 ka /\ KnownAssignedXids ka = [4294967294; 4; 5].
Proof.
  split; [|by vm_compute].
  exact (known_assigned_well_formed 4294967000 (fun _ => 0) demo_ka_ops demo_memory (MkCompressor 0 0 0) demo_ka_legal).
Defined.
