(* ===== verification/StandbyLocks.v ===== *)
(** * Exclusive locks during hot standby

    The locking part of [src/backend/storage/ipc/standby.c]: the startup
    process holds, for every transaction of the primary, the
    AccessExclusiveLocks the log has reported of it.  [RecoveryLockHash] is
    the set of known locks and [RecoveryLockXidHash] maps an id to the chain
    of its locks, the most recent first. *)

From S2P Require Import Prelude.
From S2P Require Import TransactionId.

Record xl_standby_lock := MkStandbyLock { lock_xid : Z; dbOid : Z; relOid : Z }.

#[export] Instance xl_standby_lock_eq_dec : EqDecision xl_standby_lock.
Proof. solve_decision. Defined.

#[export] Instance xl_standby_lock_countable : Countable xl_standby_lock.
Proof.
  apply (inj_countable' (fun l => (lock_xid l, dbOid l, relOid l)) (fun '(x, d, r) => MkStandbyLock x d r)).
  by intros [].
Defined.

(** ** What is used of the lock manager

    [LockAcquire] and [LockRelease] (lock.c) with [sessionLock] count how
    often this process holds the lock on a relation; a release says whether
    there was a lock to release. *)
Class LockManager (LM : Type) := {
  LockAcquire : Z * Z -> LM -> LM;
  LockRelease : Z * Z -> LM -> bool * LM;
  nlocks : LM -> Z * Z -> nat;
}.

Class LockManagerLaws (LM : Type) `{LockManager LM} := {
  acquire_counts : forall t lm u, nlocks (LockAcquire t lm) u = ((if decide (u = t) then 1 else 0) + nlocks lm u)%nat;
  release_counts : forall t lm u, nlocks (LockRelease t lm).2 u = (nlocks lm u - (if decide (u = t) then 1 else 0))%nat;
  release_result : forall t lm, (LockRelease t lm).1 = bool_decide (0 < nlocks lm t)%nat;
}.

(** [SET_LOCKTAG_RELATION]. *)
Definition locktag (l : xl_standby_lock) : Z * Z := (dbOid l, relOid l).

(** How many of a set of locks are on a relation. *)
Definition locks_on (h : gset xl_standby_lock) (u : Z * Z) : nat := size (filter (fun l => locktag l = u) h).

Lemma locks_on_add h l u : l ∉ h ->
  locks_on ({[ l ]} ∪ h) u = ((if decide (u = locktag l) then 1 else 0) + locks_on h u)%nat.
Proof.
  intros Hl. unfold locks_on. destruct (decide (u = locktag l)) as [->|Hne].
  - assert (filter (fun k => locktag k = locktag l) ({[ l ]} ∪ h)
      = ({[ l ]} ∪ filter (fun k => locktag k = locktag l) h : gset xl_standby_lock)) as ->
      by (apply set_eq; intros x; set_unfold; intuition congruence).
    rewrite size_union by set_solver. by rewrite size_singleton.
  - assert (filter (fun k => locktag k = u) ({[ l ]} ∪ h : gset xl_standby_lock) = filter (fun k => locktag k = u) h) as ->
      by (apply set_eq; intros x; set_unfold; intuition congruence). done.
Qed.

Lemma locks_on_remove h l u : l ∈ h ->
  locks_on (h ∖ {[ l ]}) u = (locks_on h u - (if decide (u = locktag l) then 1 else 0))%nat.
Proof.
  intros Hl. assert (h = {[ l ]} ∪ (h ∖ {[ l ]})) as E by (by apply union_difference_singleton_L).
  rewrite E at 2. rewrite locks_on_add by set_solver. destruct (decide (u = locktag l)); lia.
Qed.

Lemma locks_on_pos h l : l ∈ h -> (0 < locks_on h (locktag l))%nat.
Proof.
  intros Hl. rewrite (union_difference_singleton_L l h Hl), locks_on_add by set_solver.
  rewrite decide_True by done. lia.
Qed.

Lemma locks_on_empty u : locks_on ∅ u = 0%nat.
Proof.
  unfold locks_on. assert (filter (fun l => locktag l = u) (∅ : gset xl_standby_lock) = ∅) as -> by set_solver.
  apply size_empty.
Qed.

Section locks.
Context {LM : Type} `{LockManager LM}.

(** [missed] counts the releases that found no lock, which are logged. *)
Record StandbyLocks := MkStandbyLocks {
  RecoveryLockHash : gset xl_standby_lock;
  RecoveryLockXidHash : gmap Z (list xl_standby_lock);
  lockmgr : LM;
  missed : nat;
}.

(** The two questions are to transam.c. *)
Definition StandbyAcquireAccessExclusiveLock (TransactionIdDidCommit TransactionIdDidAbort : Z -> bool) (key : xl_standby_lock) (s : StandbyLocks) : StandbyLocks :=
  let xid := lock_xid key in
  if negb (TransactionIdIsValid xid) || TransactionIdDidCommit xid || TransactionIdDidAbort xid then s
  else
    let head := default [] (RecoveryLockXidHash s !! xid) in
    if decide (key ∈ RecoveryLockHash s) then
      MkStandbyLocks (RecoveryLockHash s) (<[xid := head]> (RecoveryLockXidHash s)) (lockmgr s) (missed s)
    else
      MkStandbyLocks ({[ key ]} ∪ RecoveryLockHash s) (<[xid := key :: head]> (RecoveryLockXidHash s))
        (LockAcquire (locktag key) (lockmgr s)) (missed s).

Fixpoint StandbyReleaseXidEntryLocks (chain : list xl_standby_lock) (s : StandbyLocks) : StandbyLocks :=
  match chain with
  | [] => s
  | entry :: next =>
      let '(released, lm) := LockRelease (locktag entry) (lockmgr s) in
      StandbyReleaseXidEntryLocks next
        (MkStandbyLocks (RecoveryLockHash s ∖ {[ entry ]}) (RecoveryLockXidHash s) lm
           (if released then missed s else S (missed s)))
  end.

(** Release the chain of one id and remove its entry. *)
Definition release_entry (xid : Z) (chain : list xl_standby_lock) (s : StandbyLocks) : StandbyLocks :=
  let s := StandbyReleaseXidEntryLocks chain s in
  MkStandbyLocks (RecoveryLockHash s) (delete xid (RecoveryLockXidHash s)) (lockmgr s) (missed s).

(** [hash_seq_search] visits every entry once. *)
Definition StandbyReleaseAllLocks (s : StandbyLocks) : StandbyLocks :=
  foldl (fun s e => release_entry e.1 e.2 s) s (map_to_list (RecoveryLockXidHash s)).

Definition StandbyReleaseLocks (xid : Z) (s : StandbyLocks) : StandbyLocks :=
  if TransactionIdIsValid xid then
    match RecoveryLockXidHash s !! xid with
    | Some chain => release_entry xid chain s
    | None => s
    end
  else StandbyReleaseAllLocks s.

Definition StandbyReleaseLockTree (xid : Z) (subxids : list Z) (s : StandbyLocks) : StandbyLocks :=
  foldl (fun s x => StandbyReleaseLocks x s) (StandbyReleaseLocks xid s) subxids.

(** The question is to twophase.c. *)
Definition StandbyReleaseOldLocks (StandbyTransactionIdIsPrepared : Z -> bool) (oldxid : Z) (s : StandbyLocks) : StandbyLocks :=
  foldl (fun s e =>
    if StandbyTransactionIdIsPrepared e.1 then s
    else if negb (TransactionIdPrecedes e.1 oldxid) then s
    else release_entry e.1 e.2 s) s (map_to_list (RecoveryLockXidHash s)).

(** ** Invariant

    Every chain belongs to its id and has no duplicates, the set is the union
    of the chains, and the lock manager counts, for every relation, the locks
    in the set. *)

Record locks_ok (s : StandbyLocks) : Prop := {
  lk_chain : forall xid chain, RecoveryLockXidHash s !! xid = Some chain ->
    NoDup chain /\ forall l, l ∈ chain <-> l ∈ RecoveryLockHash s /\ lock_xid l = xid;
  lk_listed : forall l, l ∈ RecoveryLockHash s -> is_Some (RecoveryLockXidHash s !! lock_xid l);
  lk_held : forall u, nlocks (lockmgr s) u = locks_on (RecoveryLockHash s) u;
  lk_valid : forall l, l ∈ RecoveryLockHash s -> TransactionIdIsValid (lock_xid l) = true;
}.

Context `{!LockManagerLaws LM}.

Lemma release_chain_spec chain : forall s, NoDup chain -> (forall l, l ∈ chain -> l ∈ RecoveryLockHash s) ->
  (forall u, nlocks (lockmgr s) u = locks_on (RecoveryLockHash s) u) ->
  let s' := StandbyReleaseXidEntryLocks chain s in
  RecoveryLockHash s' = RecoveryLockHash s ∖ list_to_set chain /\ RecoveryLockXidHash s' = RecoveryLockXidHash s /\
  (forall u, nlocks (lockmgr s') u = locks_on (RecoveryLockHash s') u) /\ missed s' = missed s.
Proof.
  induction chain as [|e chain IH]; intros s Hnd Hin Hheld; simpl.
  - split_and!; [set_solver|done..].
  - apply NoDup_cons in Hnd as [He Hnd]. assert (e ∈ RecoveryLockHash s) as Hes by (apply Hin; by left).
    pose proof (release_counts (locktag e) (lockmgr s)) as Hc. pose proof (release_result (locktag e) (lockmgr s)) as Hr.
    destruct (LockRelease (locktag e) (lockmgr s)) as [b lm]. simpl in Hc, Hr.
    rewrite bool_decide_eq_true_2 in Hr by (rewrite Hheld; by apply locks_on_pos). subst b.
    destruct (IH (MkStandbyLocks (RecoveryLockHash s ∖ {[ e ]}) (RecoveryLockXidHash s) lm (missed s))) as (H1 & H2 & H3 & H4); simpl.
    + done.
    + intros l Hl. apply elem_of_difference. split; [apply Hin; by right|]. intros ->%elem_of_singleton. done.
    + intros u. by rewrite Hc, Hheld, locks_on_remove.
    + split_and!; [rewrite H1; simpl; set_solver|done..].
Qed.

Lemma release_entry_spec xid chain s : locks_ok s -> RecoveryLockXidHash s !! xid = Some chain ->
  let s' := release_entry xid chain s in
  locks_ok s' /\ (forall l, l ∈ RecoveryLockHash s' <-> l ∈ RecoveryLockHash s /\ lock_xid l <> xid) /\
  RecoveryLockXidHash s' = delete xid (RecoveryLockXidHash s) /\ missed s' = missed s.
Proof.
  intros Hok Hx. destruct (lk_chain _ Hok xid chain Hx) as [Hnd Hchain].
  destruct (release_chain_spec chain s Hnd) as (H1 & H2 & H3 & H4); [intros l Hl; by apply Hchain|apply (lk_held _ Hok)|].
  unfold release_entry. set (s1 := StandbyReleaseXidEntryLocks chain s) in *.
  assert (forall l, l ∈ RecoveryLockHash s1 <-> l ∈ RecoveryLockHash s /\ lock_xid l <> xid) as Hin.
  { intros l. rewrite H1, elem_of_difference, elem_of_list_to_set, Hchain. tauto. }
  cbv zeta. simpl. split; [|by rewrite H2]. split; simpl.
  - intros y c Hy. rewrite H2 in Hy. apply lookup_delete_Some in Hy as [Hne Hy].
    destruct (lk_chain _ Hok y c Hy) as [? Hc]. split; [done|]. intros l. rewrite Hc, Hin. naive_solver.
  - intros l [Hl Hne]%Hin. rewrite H2, lookup_delete_ne by done. by apply (lk_listed _ Hok).
  - done.
  - intros l [Hl _]%Hin. by apply (lk_valid _ Hok).
Qed.

(** A walk over the table that releases the ids [p] picks. *)
Definition release_where (p : Z -> bool) (es : list (Z * list xl_standby_lock)) (s : StandbyLocks) : StandbyLocks :=
  foldl (fun s e => if p e.1 then release_entry e.1 e.2 s else s) s es.

Lemma release_where_spec p es : forall s, locks_ok s -> NoDup es.*1 ->
  (forall e, e ∈ es -> RecoveryLockXidHash s !! e.1 = Some e.2) ->
  let s' := release_where p es s in
  locks_ok s' /\ missed s' = missed s /\
  (forall l, l ∈ RecoveryLockHash s' <-> l ∈ RecoveryLockHash s /\ ~ (lock_xid l ∈ es.*1 /\ p (lock_xid l) = true)).
Proof.
  induction es as [|[x chain] es IH]; intros s Hok Hnd Hes; simpl.
  - split_and!; [done..|]. set_solver.
  - simpl in Hnd. apply NoDup_cons in Hnd as [Hx Hnd].
    assert (RecoveryLockXidHash s !! x = Some chain) as Hxc by (apply (Hes (x, chain)); by left).
    destruct (p x) eqn:Hp.
    + destruct (release_entry_spec x chain s Hok Hxc) as (Hok1 & Hin1 & Hm1 & Hmiss1).
      destruct (IH (release_entry x chain s) Hok1 Hnd) as (Hok2 & Hmiss2 & Hin2).
      { intros e He. rewrite Hm1, lookup_delete_ne; [apply Hes; by right|]. intros ->. apply Hx.
        by apply list_elem_of_fmap_2. }
      split_and!; [done|congruence|]. intros l. rewrite Hin2, Hin1, elem_of_cons.
      destruct (decide (lock_xid l = x)) as [E|]; [rewrite E, Hp|]; tauto.
    + destruct (IH s Hok Hnd) as (Hok2 & Hmiss2 & Hin2); [intros e He; apply Hes; by right|].
      split_and!; [done..|]. intros l. rewrite Hin2, elem_of_cons.
      destruct (decide (lock_xid l = x)) as [E|]; [rewrite E, Hp; intuition congruence|tauto].
Qed.

Lemma release_table_spec p s : locks_ok s ->
  let s' := release_where p (map_to_list (RecoveryLockXidHash s)) s in
  locks_ok s' /\ missed s' = missed s /\
  (forall l, l ∈ RecoveryLockHash s' <-> l ∈ RecoveryLockHash s /\ p (lock_xid l) = false).
Proof.
  intros Hok. destruct (release_where_spec p (map_to_list (RecoveryLockXidHash s)) s Hok) as (H1 & H2 & H3).
  - apply NoDup_fst_map_to_list.
  - intros [x c] He. by apply elem_of_map_to_list in He.
  - split_and!; [done..|]. intros l. rewrite H3. split.
    + intros [Hl Hn]. split; [done|]. apply not_true_iff_false. intros Hp. apply Hn. split; [|done].
      destruct (lk_listed _ Hok l Hl) as [c Hc]. apply (list_elem_of_fmap_2 fst _ (lock_xid l, c)). by apply elem_of_map_to_list.
    + intros [Hl Hp]. split; [done|]. rewrite Hp. by intros [_ ?].
Qed.

Lemma release_locks_spec xid s : locks_ok s ->
  let s' := StandbyReleaseLocks xid s in
  locks_ok s' /\ missed s' = missed s /\
  (forall l, l ∈ RecoveryLockHash s' <-> l ∈ RecoveryLockHash s /\ TransactionIdIsValid xid = true /\ lock_xid l <> xid).
Proof.
  intros Hok. unfold StandbyReleaseLocks. destruct (TransactionIdIsValid xid) eqn:Hv.
  - destruct (RecoveryLockXidHash s !! xid) as [chain|] eqn:Hx.
    + destruct (release_entry_spec xid chain s Hok Hx) as (? & Hin & _ & ?). split_and!; [done..|].
      intros l. rewrite Hin. tauto.
    + split_and!; [done..|]. intros l. split; [|tauto]. intros Hl. split_and!; [done..|]. intros <-.
      apply (lk_listed _ Hok) in Hl as [? ?]. congruence.
  - destruct (release_table_spec (fun _ => true) s Hok) as (? & ? & Hin). split_and!; [done..|].
    intros l. unfold release_where in Hin. unfold StandbyReleaseAllLocks. rewrite Hin. intuition congruence.
Qed.

Lemma release_list_spec xids : forall s, locks_ok s ->
  let s' := foldl (fun s x => StandbyReleaseLocks x s) s xids in
  locks_ok s' /\ missed s' = missed s /\
  (forall l, l ∈ RecoveryLockHash s' <->
     l ∈ RecoveryLockHash s /\ Forall (fun x => TransactionIdIsValid x = true) xids /\ lock_xid l ∉ xids).
Proof.
  induction xids as [|x xids IH]; intros s Hok; simpl.
  - split_and!; [done..|]. intros l. split; [|tauto]. intros Hl. split_and!; [done|constructor|apply not_elem_of_nil].
  - destruct (release_locks_spec x s Hok) as (Hok1 & Hm1 & Hin1). destruct (IH _ Hok1) as (Hok2 & Hm2 & Hin2).
    split_and!; [done|congruence|]. intros l. rewrite Hin2, Hin1, Forall_cons, not_elem_of_cons. tauto.
Qed.
End locks.

Arguments StandbyLocks : clear implicits.

(** ** Any sequence of operations *)

Inductive lock_op :=
| OpAcquire (committed aborted : Z -> bool) (key : xl_standby_lock)
| OpReleaseTree (xid : Z) (subxids : list Z)
| OpReleaseOld (prepared : Z -> bool) (oldxid : Z)
| OpReleaseAll.

Definition lock_step {LM} `{LockManager LM} (s : StandbyLocks LM) (o : lock_op) : StandbyLocks LM :=
  match o with
  | OpAcquire committed aborted key => StandbyAcquireAccessExclusiveLock committed aborted key s
  | OpReleaseTree xid subxids => StandbyReleaseLockTree xid subxids s
  | OpReleaseOld prepared oldxid => StandbyReleaseOldLocks prepared oldxid s
  | OpReleaseAll => StandbyReleaseAllLocks s
  end.

(** What each operation means for the set of locks: an unfinished transaction
    gets its lock, an ended tree loses its locks, and so do transactions that
    neither run nor are prepared. *)
Definition lock_meaning (h : gset xl_standby_lock) (o : lock_op) : gset xl_standby_lock :=
  match o with
  | OpAcquire committed aborted key =>
      let xid := lock_xid key in
      if TransactionIdIsValid xid && negb (committed xid) && negb (aborted xid) then {[ key ]} ∪ h else h
  | OpReleaseTree xid subxids =>
      if forallb TransactionIdIsValid (xid :: subxids) then filter (fun l => lock_xid l ∉ xid :: subxids) h else ∅
  | OpReleaseOld prepared oldxid =>
      filter (fun l => prepared (lock_xid l) = true \/ TransactionIdPrecedes (lock_xid l) oldxid = false) h
  | OpReleaseAll => ∅
  end.

Section meaning.
Context {LM : Type} `{LockManagerLaws LM}.

Lemma acquire_spec committed aborted key (s : StandbyLocks LM) : locks_ok s ->
  let s' := lock_step s (OpAcquire committed aborted key) in
  locks_ok s' /\ missed s' = missed s /\ RecoveryLockHash s' = lock_meaning (RecoveryLockHash s) (OpAcquire committed aborted key).
Proof.
  intros Hok. simpl. unfold StandbyAcquireAccessExclusiveLock.
  destruct (TransactionIdIsValid (lock_xid key)) eqn:Hv; simpl; [|done].
  destruct (committed (lock_xid key)), (aborted (lock_xid key)); simpl; try done.
  assert (NoDup (default [] (RecoveryLockXidHash s !! lock_xid key)) /\
    forall l, l ∈ default [] (RecoveryLockXidHash s !! lock_xid key) <-> l ∈ RecoveryLockHash s /\ lock_xid l = lock_xid key) as [Hnd Hc].
  { destruct (RecoveryLockXidHash s !! lock_xid key) as [c|] eqn:Hx; simpl; [by apply (lk_chain _ Hok)|].
    split; [constructor|]. intros l. rewrite elem_of_nil. split; [done|]. intros [Hl E].
    apply (lk_listed _ Hok) in Hl as [c Hl]. congruence. }
  destruct (decide (key ∈ RecoveryLockHash s)) as [Hin|Hout]; simpl.
  - split_and!; [|done|set_solver]. split; simpl; [|..|apply Hok|apply Hok].
    + intros x c. destruct (decide (x = lock_xid key)) as [->|Hne].
      * rewrite lookup_insert_eq. by intros [= <-].
      * rewrite lookup_insert_ne by done. apply (lk_chain _ Hok).
    + intros l Hl. apply (lk_listed _ Hok) in Hl. destruct (decide (lock_xid l = lock_xid key)) as [->|Hne].
      * rewrite lookup_insert_eq. eauto.
      * by rewrite lookup_insert_ne by done.
  - split_and!; [|done|done]. split; simpl.
    + intros x c. destruct (decide (x = lock_xid key)) as [->|Hne].
      * rewrite lookup_insert_eq. intros [= <-]. split; [constructor; [rewrite Hc; tauto|done]|].
        intros l. rewrite elem_of_cons, Hc, elem_of_union, elem_of_singleton. intuition congruence.
      * rewrite lookup_insert_ne by done. intros Hx. destruct (lk_chain _ Hok x c Hx) as [? Hl]. split; [done|].
        intros l. rewrite Hl, elem_of_union, elem_of_singleton. intuition congruence.
    + intros l Hl. destruct (decide (lock_xid l = lock_xid key)) as [->|Hne]; [rewrite lookup_insert_eq; eauto|].
      rewrite lookup_insert_ne by done. apply (lk_listed _ Hok). set_solver.
    + intros u. by rewrite acquire_counts, (lk_held _ Hok), locks_on_add.
    + intros l [->%elem_of_singleton|Hl]%elem_of_union; [done|by apply (lk_valid _ Hok)].
Qed.

Lemma lock_step_spec o (s : StandbyLocks LM) : locks_ok s ->
  locks_ok (lock_step s o) /\ missed (lock_step s o) = missed s /\
  RecoveryLockHash (lock_step s o) = lock_meaning (RecoveryLockHash s) o.
Proof.
  intros Hok. destruct o as [committed aborted key|xid subxids|prepared oldxid|]; [by apply acquire_spec|..].
  - destruct (release_list_spec (xid :: subxids) s Hok) as (? & ? & Hin). split_and!; [done..|].
    apply set_eq. intros l. simpl lock_step. unfold StandbyReleaseLockTree. simpl foldl in Hin. rewrite Hin.
    unfold lock_meaning. destruct (forallb TransactionIdIsValid (xid :: subxids)) eqn:Hv.
    + rewrite elem_of_filter. rewrite forallb_forall in Hv. split; [tauto|]. intros [? ?]. split_and!; [done| |done].
      apply Forall_forall. intros x Hx. by apply Hv, list_elem_of_In.
    + split; [|by intros ?%elem_of_empty]. intros (_ & Hf & _). exfalso. apply not_true_iff_false in Hv. apply Hv.
      apply forallb_forall. intros x Hx. rewrite Forall_forall in Hf. apply Hf. by apply list_elem_of_In.
  - destruct (release_table_spec (fun x => negb (prepared x) && TransactionIdPrecedes x oldxid) s Hok) as (H1 & H2 & H3).
    assert (lock_step s (OpReleaseOld prepared oldxid) =
      release_where (fun x => negb (prepared x) && TransactionIdPrecedes x oldxid) (map_to_list (RecoveryLockXidHash s)) s) as ->.
    { simpl. unfold StandbyReleaseOldLocks, release_where. generalize (map_to_list (RecoveryLockXidHash s)).
      intros es. clear H1 H2 H3 Hok. revert s. induction es as [|e es IH]; intros t; [done|]. simpl. rewrite IH.
      by destruct (prepared e.1), (TransactionIdPrecedes e.1 oldxid). }
    split_and!; [done..|]. apply set_eq. intros l. rewrite H3. simpl. rewrite elem_of_filter.
    destruct (prepared (lock_xid l)), (TransactionIdPrecedes (lock_xid l) oldxid); simpl; intuition congruence.
  - destruct (release_table_spec (fun _ => true) s Hok) as (H1 & H2 & H3). split_and!; [done..|].
    apply set_eq. intros l. unfold release_where in H3. simpl. unfold StandbyReleaseAllLocks. rewrite H3, elem_of_empty. intuition congruence.
Qed.

(** C28. Over any sequence of lock records, ends of transactions and prunings,
    the startup process holds exactly the locks of the transactions that are
    unfinished as far as the log says: the table is the set that the
    operations mean, the lock manager counts for each relation the locks in
    it, every chain leads to its locks, and no release ever finds its lock
    missing. *)
Theorem standby_locks_exact (lm : LM) (ops : list lock_op) :
  (forall u, nlocks lm u = 0%nat) ->
  let s := foldl lock_step (MkStandbyLocks ∅ ∅ lm 0) ops in
  RecoveryLockHash s = foldl lock_meaning ∅ ops /\
  (forall u, nlocks (lockmgr s) u = locks_on (RecoveryLockHash s) u) /\
  (forall l, l ∈ RecoveryLockHash s <-> exists chain, RecoveryLockXidHash s !! lock_xid l = Some chain /\ l ∈ chain) /\
  missed s = 0%nat.
Proof.
  intros Hlm. assert (forall s0 : StandbyLocks LM, locks_ok s0 -> let s := foldl lock_step s0 ops in
    locks_ok s /\ RecoveryLockHash s = foldl lock_meaning (RecoveryLockHash s0) ops /\ missed s = missed s0) as Hrun.
  { induction ops as [|o ops IH]; intros s0 Hok; [done|]. destruct (lock_step_spec o s0 Hok) as (Hok1 & Hm1 & Hh1).
    destruct (IH _ Hok1) as (? & E & ?). simpl. rewrite E, Hh1. split_and!; [done..|congruence]. }
  destruct (Hrun (MkStandbyLocks ∅ ∅ lm 0)) as (Hok & Hh & Hm).
  { split; simpl; [done|by intros l ?%elem_of_empty|by intros u; rewrite Hlm, locks_on_empty|by intros l ?%elem_of_empty]. }
  cbv zeta. split; [done|]. split; [apply (lk_held _ Hok)|]. split; [|done].
  intros l. split.
  - intros Hl. destruct (lk_listed _ Hok l Hl) as [c Hc]. exists c. split; [done|]. by apply (lk_chain _ Hok _ _ Hc).
  - intros (c & Hc & Hl). apply (lk_chain _ Hok _ _ Hc) in Hl. tauto.
Qed.
End meaning.

(** A lock manager that is a table of counts. *)
#[export] Instance counting_locks : LockManager (gmap (Z * Z) nat) := {|
  LockAcquire t lm := <[t := S (default O (lm !! t))]> lm;
  LockRelease t lm := (bool_decide (0 < default O (lm !! t))%nat, <[t := pred (default O (lm !! t))]> lm);
  nlocks lm t := default O (lm !! t);
|}.

#[export] Instance counting_laws : LockManagerLaws (gmap (Z * Z) nat).
Proof.
  split; simpl; intros t lm; [..|done]; intros u;
    (destruct (decide (u = t)) as [->|Hne]; [rewrite lookup_insert_eq|rewrite lookup_insert_ne by done]; simpl; lia).
Qed.

Definition demo_lock_ops : list lock_op :=
  [OpAcquire (fun _ => false) (fun _ => false) (MkStandbyLock 10 5 100);
   OpAcquire (fun _ => false) (fun _ => false) (MkStandbyLock 12 5 100);
   OpAcquire (fun _ => false) (fun _ => false) (MkStandbyLock 11 5 101);
   OpAcquire (fun x => x =? 9) (fun _ => false) (MkStandbyLock 9 5 102);
   OpReleaseTree 10 [12]].

Lemma standby_locks_exact_witness :
  let s := foldl lock_step (MkStandbyLocks ∅ ∅ (∅ : gmap (Z * Z) nat) 0) demo_lock_ops in
  elements (RecoveryLockHash s) = [MkStandbyLock 11 5 101] /\ nlocks (lockmgr s) (5, 101) = 1%nat /\
  nlocks (lockmgr s) (5, 100) = 0%nat /\ missed s = 0%nat.
Proof.
  destruct (standby_locks_exact (∅ : gmap (Z * Z) nat) demo_lock_ops) as (H1 & H2 & _ & H4);
    [by intros u; simpl; rewrite lookup_empty|].
  cbv zeta. rewrite H4, !H2, H1. repeat split; vm_compute; reflexivity.
Defined.
