(* ===== verification/Snapshot.v ===== *)
(** * Snapshots

    [SnapshotData] of [src/include/utils/snapshot.h] and the membership test
    [XidInMVCCSnapshot] of [src/backend/utils/time/snapmgr.c].  The lookup of
    a subtransaction's topmost parent is a parameter here; [Subtrans] models
    the function behind it. *)

From S2P Require Import Prelude.
From S2P Require Import Search.
From S2P Require Import TransactionId.

Inductive SnapshotType :=
  | SNAPSHOT_MVCC | SNAPSHOT_SELF | SNAPSHOT_ANY | SNAPSHOT_TOAST | SNAPSHOT_DIRTY
  | SNAPSHOT_HISTORIC_MVCC | SNAPSHOT_NON_VACUUMABLE.

(** A visibility test: two horizons.  A snapshot points to one of the four
    that a backend maintains, so the pointer is the kind of relation. *)
Record GlobalVisState := MkGlobalVisState {
  definitely_needed : FullTransactionId;
  maybe_needed : FullTransactionId;
}.

Inductive GlobalVisHorizonKind := VISHORIZON_SHARED | VISHORIZON_CATALOG | VISHORIZON_DATA | VISHORIZON_TEMP.

Record SnapshotData := MkSnapshot {
  snapshot_type : SnapshotType;
  snap_xmin : Z;
  snap_xmax : Z;
  xip : list Z;
  subxip : list Z;
  suboverflowed : bool;
  takenDuringRecovery : bool;
  curcid : Z;
  speculativeToken : Z;
  vistest : GlobalVisHorizonKind;
  snapXactCompletionCount : Z;
}.

(** [pg_lfind32] over a whole array of the snapshot. *)
Definition xid_listed (xid : Z) (a : list Z) : bool := pg_lfind32 xid a (length a).

Definition XidInMVCCSnapshot (SubTransGetTopmostTransaction : Z -> Z) (xid : Z) (snapshot : SnapshotData) : bool :=
  if TransactionIdPrecedes xid (snap_xmin snapshot) then false
  else if TransactionIdFollowsOrEquals xid (snap_xmax snapshot) then true
  else if negb (takenDuringRecovery snapshot) then
    if negb (suboverflowed snapshot) then
      if xid_listed xid (subxip snapshot) then true
      else xid_listed xid (xip snapshot)
    else
      let xid := SubTransGetTopmostTransaction xid in
      if TransactionIdPrecedes xid (snap_xmin snapshot) then false
      else xid_listed xid (xip snapshot)
  else
    if suboverflowed snapshot then
      let xid := SubTransGetTopmostTransaction xid in
      if TransactionIdPrecedes xid (snap_xmin snapshot) then false
      else xid_listed xid (subxip snapshot)
    else xid_listed xid (subxip snapshot).

(** The verdict in terms of ranks, for ids in use. *)
Section verdict.
Context (lo : Z) (topmost : Z -> Z) (snap : SnapshotData).
Context (Hmin : in_use lo (snap_xmin snap)) (Hmax : in_use lo (snap_xmax snap)).

Lemma xid_listed_elem xid a : xid_listed xid a = true <-> xid ∈ a.
Proof. apply lfind32_elem. Qed.

Lemma snapshot_below_xmin xid : in_use lo xid -> xid_rank lo xid < xid_rank lo (snap_xmin snap) ->
  XidInMVCCSnapshot topmost xid snap = false.
Proof.
  intros Hx Hlt. unfold XidInMVCCSnapshot. rewrite (precedes_rank lo) by done.
  by rewrite (proj2 (Z.ltb_lt _ _) Hlt).
Qed.

Lemma snapshot_above_xmax xid : in_use lo xid ->
  xid_rank lo (snap_xmin snap) <= xid_rank lo (snap_xmax snap) <= xid_rank lo xid ->
  XidInMVCCSnapshot topmost xid snap = true.
Proof.
  intros Hx Hle. unfold XidInMVCCSnapshot. rewrite (precedes_rank lo), (follows_eq_rank lo) by done.
  rewrite (proj2 (Z.ltb_ge _ _)), (proj2 (Z.leb_le _ _)) by lia. done.
Qed.

Lemma snapshot_between xid : in_use lo xid ->
  xid_rank lo (snap_xmin snap) <= xid_rank lo xid < xid_rank lo (snap_xmax snap) ->
  takenDuringRecovery snap = false ->
  XidInMVCCSnapshot topmost xid snap = true <->
  if suboverflowed snap
  then TransactionIdPrecedes (topmost xid) (snap_xmin snap) = false /\ topmost xid ∈ xip snap
  else xid ∈ subxip snap \/ xid ∈ xip snap.
Proof.
  intros Hx Hr Hrec. unfold XidInMVCCSnapshot. rewrite (precedes_rank lo), (follows_eq_rank lo) by done.
  rewrite (proj2 (Z.ltb_ge _ _)), (proj2 (Z.leb_gt _ _)) by lia. rewrite Hrec. cbn [negb].
  destruct (suboverflowed snap); cbn [negb].
  - rewrite <- xid_listed_elem. destruct (TransactionIdPrecedes _ _), (xid_listed _ _); intuition congruence.
  - rewrite <- !xid_listed_elem. destruct (xid_listed xid (subxip snap)), (xid_listed xid (xip snap)); intuition congruence.
Qed.
End verdict.
