(* ===== verification/ProcArray.v ===== *)
(** * The array of running transactions

    [src/backend/storage/ipc/procarray.c]: which transaction ids are running,
    the snapshots taken of them, the end of transactions and the horizons
    below which nobody can see deleted rows.  Every function that holds
    [ProcArrayLock] is one step on the shared state.  A PGPROC and its entries
    in the dense arrays of [ProcGlobal] are one record, and its offset
    ([pgxactoff]) is its position in the list. *)

From S2P Require Import Prelude.
From S2P Require Import Search.
From S2P Require Import TransactionId.
From S2P Require Import Varsup.
From S2P Require Import KnownAssigned.
From S2P Require Import Snapshot.

Definition PGPROC_MAX_CACHED_SUBXIDS : Z := 64.
Definition PROC_IN_VACUUM : Z := 0x02.
Definition PROC_IN_SAFE_IC : Z := 0x04.
Definition PROC_VACUUM_FOR_WRAPAROUND : Z := 0x08.
Definition PROC_IN_LOGICAL_DECODING : Z := 0x10.
Definition PROC_AFFECTS_ALL_HORIZONS : Z := 0x20.
Definition PROC_VACUUM_STATE_MASK : Z :=
  Z.lor PROC_IN_VACUUM (Z.lor PROC_IN_SAFE_IC PROC_VACUUM_FOR_WRAPAROUND).
Definition InvalidOid : Z := 0.

Record PGPROC := MkPGPROC {
  pgprocno : Z;
  pid : Z;
  proc_xid : Z;
  proc_xmin : Z;
  subxids : list Z;
  sub_overflowed : bool;
  statusFlags : Z;
  databaseId : Z;
}.

#[export] Instance PGPROC_inhabited : Inhabited PGPROC := populate (MkPGPROC 0 0 0 0 [] false 0 0).

(** The shared part: the array, the replication slots' horizons, and
    [TransamVariables]. *)
Record ProcArrayStruct := MkProcArray {
  procs : list PGPROC;
  maxProcs : Z;
  knownAssigned : KnownAssigned;
  lastOverflowedXid : Z;
  replication_slot_xmin : Z;
  replication_slot_catalog_xmin : Z;
  TransamVariables : TransamVariablesData;
  RecoveryInProgress : bool;
}.

(** The part of it that belongs to one backend. *)
Record BackendState := MkBackend {
  my_pgxactoff : nat;
  MyDatabaseId : Z;
  RecentXmin : Z;
  TransactionXmin : Z;
  cachedXidIsNotInProgress : Z;
  ComputeXidHorizonsResultLastXmin : Z;
  GlobalVisSharedRels : GlobalVisState;
  GlobalVisCatalogRels : GlobalVisState;
  GlobalVisDataRels : GlobalVisState;
  GlobalVisTempRels : GlobalVisState;
}.

Definition set_procs (pa : ProcArrayStruct) (l : list PGPROC) : ProcArrayStruct :=
  MkProcArray l (maxProcs pa) (knownAssigned pa) (lastOverflowedXid pa) (replication_slot_xmin pa)
    (replication_slot_catalog_xmin pa) (TransamVariables pa) (RecoveryInProgress pa).
Definition set_transam (pa : ProcArrayStruct) (tv : TransamVariablesData) : ProcArrayStruct :=
  MkProcArray (procs pa) (maxProcs pa) (knownAssigned pa) (lastOverflowedXid pa) (replication_slot_xmin pa)
    (replication_slot_catalog_xmin pa) tv (RecoveryInProgress pa).
Definition set_latest (pa : ProcArrayStruct) (f : FullTransactionId) : ProcArrayStruct :=
  set_transam pa (set_completed (TransamVariables pa) f (xactCompletionCount (TransamVariables pa))).
Definition bump_completion (pa : ProcArrayStruct) : ProcArrayStruct :=
  set_transam pa (set_completed (TransamVariables pa) (latestCompletedXid (TransamVariables pa))
                    (u64 (xactCompletionCount (TransamVariables pa) + 1))).

Definition set_cached (be : BackendState) (xid : Z) : BackendState :=
  MkBackend (my_pgxactoff be) (MyDatabaseId be) (RecentXmin be) (TransactionXmin be) xid
    (ComputeXidHorizonsResultLastXmin be) (GlobalVisSharedRels be) (GlobalVisCatalogRels be)
    (GlobalVisDataRels be) (GlobalVisTempRels be).
Definition set_xmins (be : BackendState) (recent transaction : Z) : BackendState :=
  MkBackend (my_pgxactoff be) (MyDatabaseId be) recent transaction (cachedXidIsNotInProgress be)
    (ComputeXidHorizonsResultLastXmin be) (GlobalVisSharedRels be) (GlobalVisCatalogRels be)
    (GlobalVisDataRels be) (GlobalVisTempRels be).
Definition set_vis (be : BackendState) (last : Z) (shared catalog data temp : GlobalVisState) : BackendState :=
  MkBackend (my_pgxactoff be) (MyDatabaseId be) (RecentXmin be) (TransactionXmin be)
    (cachedXidIsNotInProgress be) last shared catalog data temp.

(** ** A new id

    The part of [GetNewTransactionId] (varsup.c) that, under [XidGenLock],
    advances the counter and puts the id into the array. *)
Definition advertise_xid (isSubXact : bool) (off : nat) (xid : Z) (pa : ProcArrayStruct) : ProcArrayStruct :=
  let tv := TransamVariables pa in
  let pa := set_transam pa (set_next_xid tv (FullTransactionIdAdvance (nextXid tv))) in
  let p := procs pa !!! off in
  let p' :=
    if negb isSubXact then
      MkPGPROC (pgprocno p) (pid p) xid (proc_xmin p) (subxids p) (sub_overflowed p) (statusFlags p) (databaseId p)
    else if zlength (subxids p) <? PGPROC_MAX_CACHED_SUBXIDS then
      MkPGPROC (pgprocno p) (pid p) (proc_xid p) (proc_xmin p) (subxids p ++ [xid]) (sub_overflowed p)
        (statusFlags p) (databaseId p)
    else
      MkPGPROC (pgprocno p) (pid p) (proc_xid p) (proc_xmin p) (subxids p) true (statusFlags p) (databaseId p) in
  set_procs pa (<[off := p']> (procs pa)).

(** ** Membership *)

(** Where the new entry goes: after every smaller-or-equal process number. *)
Fixpoint insert_proc (proc : PGPROC) (l : list PGPROC) : list PGPROC :=
  match l with
  | [] => [proc]
  | p :: rest => if pgprocno proc <? pgprocno p then proc :: l else p :: insert_proc proc rest
  end.

(** [None]: too many clients. *)
Definition ProcArrayAdd (proc : PGPROC) (pa : ProcArrayStruct) : option ProcArrayStruct :=
  if maxProcs pa <=? zlength (procs pa) then None
  else Some (set_procs pa (insert_proc proc (procs pa))).

Definition MaintainLatestCompletedXid (latestXid : Z) (pa : ProcArrayStruct) : ProcArrayStruct :=
  let cur_latest := latestCompletedXid (TransamVariables pa) in
  if TransactionIdPrecedes (XidFromFullTransactionId cur_latest) latestXid
  then set_latest pa (FullXidRelativeTo cur_latest latestXid)
  else pa.

Definition MaintainLatestCompletedXidRecovery (latestXid : Z) (pa : ProcArrayStruct) : ProcArrayStruct :=
  let cur_latest := latestCompletedXid (TransamVariables pa) in
  let rel := nextXid (TransamVariables pa) in
  if negb (FullTransactionIdIsValid cur_latest)
     || TransactionIdPrecedes (XidFromFullTransactionId cur_latest) latestXid
  then set_latest pa (FullXidRelativeTo rel latestXid)
  else pa.

Definition ProcArrayRemove (myoff : nat) (latestXid : Z) (pa : ProcArrayStruct) : ProcArrayStruct :=
  let pa := if TransactionIdIsValid latestXid
            then bump_completion (MaintainLatestCompletedXid latestXid pa) else pa in
  set_procs pa (take myoff (procs pa) ++ drop (S myoff) (procs pa)).

(** ** End of a transaction *)

Definition clear_vacuum_state (flags : Z) : Z :=
  if flag_set flags PROC_VACUUM_STATE_MASK then Z.ldiff flags PROC_VACUUM_STATE_MASK else flags.

(** The transaction fields of the entry, cleared. *)
Definition cleared_proc (p : PGPROC) (flags : Z) : PGPROC :=
  MkPGPROC (pgprocno p) (pid p) InvalidTransactionId InvalidTransactionId
    (if (0 <? zlength (subxids p)) || sub_overflowed p then [] else subxids p)
    (if (0 <? zlength (subxids p)) || sub_overflowed p then false else sub_overflowed p)
    flags (databaseId p).

Definition ProcArrayEndTransactionInternal (pgxactoff : nat) (latestXid : Z) (pa : ProcArrayStruct) : ProcArrayStruct :=
  let p := procs pa !!! pgxactoff in
  let pa := set_procs pa (<[pgxactoff := cleared_proc p (clear_vacuum_state (statusFlags p))]> (procs pa)) in
  bump_completion (MaintainLatestCompletedXid latestXid pa).

(** The group leader's walk: the members in list order, each with the xid it
    left in [procArrayGroupMemberXid]. *)
Fixpoint ProcArrayGroupClearXid (members : list (nat * Z)) (pa : ProcArrayStruct) : ProcArrayStruct :=
  match members with
  | [] => pa
  | (off, latestXid) :: rest => ProcArrayGroupClearXid rest (ProcArrayEndTransactionInternal off latestXid pa)
  end.

(** [lock_free] is the outcome of [LWLockConditionalAcquire]; when it fails,
    [followers] are the processes that have joined the group by the time its
    leader gets the lock, the most recent first: the leader is the last. *)
Definition ProcArrayEndTransaction (lock_free : bool) (followers : list (nat * Z)) (pgxactoff : nat)
    (latestXid : Z) (pa : ProcArrayStruct) : ProcArrayStruct :=
  if TransactionIdIsValid latestXid then
    if lock_free then ProcArrayEndTransactionInternal pgxactoff latestXid pa
    else ProcArrayGroupClearXid (followers ++ [(pgxactoff, latestXid)]) pa
  else
    let p := procs pa !!! pgxactoff in
    set_procs pa (<[pgxactoff := MkPGPROC (pgprocno p) (pid p) (proc_xid p) InvalidTransactionId
                                    (subxids p) (sub_overflowed p)
                                    (clear_vacuum_state (statusFlags p)) (databaseId p)]> (procs pa)).

Definition ProcArrayClearTransaction (pgxactoff : nat) (pa : ProcArrayStruct) : ProcArrayStruct :=
  let p := procs pa !!! pgxactoff in
  bump_completion (set_procs pa (<[pgxactoff := cleared_proc p (statusFlags p)]> (procs pa))).

(** One entry of the subxid cache goes: the last entry takes its place.  The
    scan is from the end. *)
Fixpoint find_last (xid : Z) (n : nat) (a : list Z) : option nat :=
  match n with
  | O => None
  | S j => if TransactionIdEquals (a !!! j) xid then Some j else find_last xid j a
  end.

Definition remove_subxid (a : list Z) (xid : Z) : list Z :=
  match find_last xid (length a) a with
  | Some j => take (length a - 1) (<[j := a !!! (length a - 1)%nat]> a)
  | None => a
  end.

Definition XidCacheRemoveRunningXids (pgxactoff : nat) (xid : Z) (xids : list Z) (latestXid : Z)
    (pa : ProcArrayStruct) : ProcArrayStruct :=
  let p := procs pa !!! pgxactoff in
  let a := foldl remove_subxid (subxids p) (reverse xids ++ [xid]) in
  let p := MkPGPROC (pgprocno p) (pid p) (proc_xid p) (proc_xmin p) a (sub_overflowed p)
             (statusFlags p) (databaseId p) in
  bump_completion (MaintainLatestCompletedXid latestXid (set_procs pa (<[pgxactoff := p]> (procs pa)))).

(** ** Is a transaction running? *)

(** The loop over the array.  [inl tt]: found running; [inr xids]: not found,
    with the main ids that have uncached children. *)
Fixpoint scan_procs (xid : Z) (mypgxactoff pgxactoff : nat) (l : list PGPROC) (xids : list Z) : unit + list Z :=
  match l with
  | [] => inr xids
  | proc :: rest =>
      let continue := scan_procs xid mypgxactoff (S pgxactoff) rest in
      if (pgxactoff =? mypgxactoff)%nat then continue xids
      else
        let pxid := proc_xid proc in
        if negb (TransactionIdIsValid pxid) then continue xids
        else if TransactionIdEquals pxid xid then inl tt
        else if TransactionIdPrecedes xid pxid then continue xids
        else if existsb (fun cxid => TransactionIdEquals cxid xid) (reverse (subxids proc)) then inl tt
        else if sub_overflowed proc then continue (xids ++ [pxid])
        else continue xids
  end.

(** The functions of other modules that the test consults. *)
Section in_progress.
Context (TransactionIdIsCurrentTransactionId TransactionIdDidAbort : Z -> bool).
Context (SubTransGetTopmostTransaction : Z -> Z).

Definition TransactionIdIsInProgress (pa : ProcArrayStruct) (be : BackendState) (xid : Z) : bool * BackendState :=
  if TransactionIdPrecedes xid (RecentXmin be) then (false, be)
  else if TransactionIdEquals (cachedXidIsNotInProgress be) xid then (false, be)
  else if TransactionIdIsCurrentTransactionId xid then (true, be)
  else if TransactionIdPrecedes (XidFromFullTransactionId (latestCompletedXid (TransamVariables pa))) xid then (true, be)
  else
    match scan_procs xid (my_pgxactoff be) 0 (procs pa) [] with
    | inl _ => (true, be)
    | inr xids =>
        if RecoveryInProgress pa && KnownAssignedXidExists (knownAssigned pa) xid then (true, be)
        else
          let xids := if RecoveryInProgress pa && TransactionIdPrecedesOrEquals xid (lastOverflowedXid pa)
                      then KnownAssignedXidsGet (knownAssigned pa) xid else xids in
          if (length xids =? 0)%nat then (false, set_cached be xid)
          else if TransactionIdDidAbort xid then (false, set_cached be xid)
          else
            let topxid := SubTransGetTopmostTransaction xid in
            if negb (TransactionIdEquals topxid xid) && xid_listed topxid xids then (true, be)
            else (false, set_cached be xid)
    end.
End in_progress.

(** ** Is it the main id of an active backend? *)

Definition TransactionIdIsActive (pa : ProcArrayStruct) (be : BackendState) (xid : Z) : bool :=
  if TransactionIdPrecedes xid (RecentXmin be) then false
  else existsb (fun p => TransactionIdIsValid (proc_xid p) && negb (pid p =? 0) && TransactionIdEquals (proc_xid p) xid)
         (procs pa).

(** ** Snapshots *)

(** What the loop collects. *)
Record Collected := MkCollected {
  col_xmin : Z;
  col_xip : list Z;
  col_subxip : list Z;
  col_suboverflowed : bool;
}.

Fixpoint collect_xids (xmax : Z) (mypgxactoff pgxactoff : nat) (l : list PGPROC) (c : Collected) : Collected :=
  match l with
  | [] => c
  | proc :: rest =>
      let continue := collect_xids xmax mypgxactoff (S pgxactoff) rest in
      let xid := proc_xid proc in
      if xid =? InvalidTransactionId then continue c
      else if (pgxactoff =? mypgxactoff)%nat then continue c
      else if negb (NormalTransactionIdPrecedes xid xmax) then continue c
      else if flag_set (statusFlags proc) (Z.lor PROC_IN_LOGICAL_DECODING PROC_IN_VACUUM) then continue c
      else
        let xmin := if NormalTransactionIdPrecedes xid (col_xmin c) then xid else col_xmin c in
        let xip := col_xip c ++ [xid] in
        if col_suboverflowed c then continue (MkCollected xmin xip (col_subxip c) true)
        else if sub_overflowed proc then continue (MkCollected xmin xip (col_subxip c) true)
        else continue (MkCollected xmin xip (col_subxip c ++ subxids proc) false)
  end.

Definition set_proc_xmin (pa : ProcArrayStruct) (off : nat) (x : Z) : ProcArrayStruct :=
  let p := procs pa !!! off in
  set_procs pa (<[off := MkPGPROC (pgprocno p) (pid p) (proc_xid p) x (subxids p) (sub_overflowed p)
                           (statusFlags p) (databaseId p)]> (procs pa)).

(** [if (!TransactionIdIsValid(MyProc->xmin)) MyProc->xmin = TransactionXmin = xmin;
    RecentXmin = xmin]. *)
Definition install_xmin (xmin : Z) (pa : ProcArrayStruct) (be : BackendState) : ProcArrayStruct * BackendState :=
  let unset := negb (TransactionIdIsValid (proc_xmin (procs pa !!! my_pgxactoff be))) in
  (if unset then set_proc_xmin pa (my_pgxactoff be) xmin else pa,
   set_xmins be xmin (if unset then xmin else TransactionXmin be)).

Definition set_snap_curcid (s : SnapshotData) (cid : Z) : SnapshotData :=
  MkSnapshot (snapshot_type s) (snap_xmin s) (snap_xmax s) (xip s) (subxip s) (suboverflowed s)
    (takenDuringRecovery s) cid (speculativeToken s) (vistest s) (snapXactCompletionCount s).

(** [cid] is [GetCurrentCommandId(false)]. *)
Definition GetSnapshotDataReuse (cid : Z) (snapshot : SnapshotData) (pa : ProcArrayStruct) (be : BackendState)
  : option (SnapshotData * (ProcArrayStruct * BackendState)) :=
  if snapXactCompletionCount snapshot =? 0 then None
  else if negb (xactCompletionCount (TransamVariables pa) =? snapXactCompletionCount snapshot) then None
  else Some (set_snap_curcid snapshot cid, install_xmin (snap_xmin snapshot) pa be).

Definition newer_definitely (v : GlobalVisState) (f : FullTransactionId) : FullTransactionId :=
  FullTransactionIdNewer f (definitely_needed v).
Definition newer_maybe (v : GlobalVisState) (f : FullTransactionId) : FullTransactionId :=
  FullTransactionIdNewer (maybe_needed v) f.

(** The bookkeeping for [GlobalVisTest] at the end of taking a snapshot. *)
Definition snapshot_update_vis (latest_completed : FullTransactionId) (oldestxid xmin myxid slot_xmin slot_catalog_xmin : Z)
    (be : BackendState) : BackendState :=
  let oldestfxid := FullXidRelativeTo latest_completed oldestxid in
  let def_vis_xid_data := TransactionIdOlder xmin slot_xmin in
  let def_vis_xid := TransactionIdOlder slot_catalog_xmin def_vis_xid_data in
  let def_vis_fxid := FullXidRelativeTo latest_completed def_vis_xid in
  let def_vis_fxid_data := FullXidRelativeTo latest_completed def_vis_xid_data in
  let temp := if TransactionIdIsNormal myxid then FullXidRelativeTo latest_completed myxid
              else FullTransactionIdAdvance latest_completed in
  set_vis be (ComputeXidHorizonsResultLastXmin be)
    (MkGlobalVisState (newer_definitely (GlobalVisSharedRels be) def_vis_fxid) (newer_maybe (GlobalVisSharedRels be) oldestfxid))
    (MkGlobalVisState (newer_definitely (GlobalVisCatalogRels be) def_vis_fxid) (newer_maybe (GlobalVisCatalogRels be) oldestfxid))
    (MkGlobalVisState (newer_definitely (GlobalVisDataRels be) def_vis_fxid_data) (newer_maybe (GlobalVisDataRels be) oldestfxid))
    (MkGlobalVisState temp temp).

(** xmin and xmax before the loop. *)
Definition snapshot_xmax (pa : ProcArrayStruct) : Z := TransactionIdAdvance (XidFromFullTransactionId (latestCompletedXid (TransamVariables pa))).
Definition snapshot_xmin0 (pa : ProcArrayStruct) (be : BackendState) : Z :=
  let myxid := proc_xid (procs pa !!! my_pgxactoff be) in
  if TransactionIdIsNormal myxid && NormalTransactionIdPrecedes myxid (snapshot_xmax pa) then myxid else snapshot_xmax pa.

(** What is gathered while the lock is held. *)
Definition snapshot_collect (pa : ProcArrayStruct) (be : BackendState) : Collected :=
  let xmax := snapshot_xmax pa in
  let xmin := snapshot_xmin0 pa be in
  if negb (RecoveryInProgress pa) then
    collect_xids xmax (my_pgxactoff be) 0 (procs pa) (MkCollected xmin [] [] false)
  else
    let '(xmin, a) := KnownAssignedXidsGetAndSetXmin (knownAssigned pa) xmin xmax in
    MkCollected xmin [] a (TransactionIdPrecedesOrEquals xmin (lastOverflowedXid pa)).

Definition GetSnapshotData (cid : Z) (snapshot : SnapshotData) (pa : ProcArrayStruct) (be : BackendState)
  : SnapshotData * (ProcArrayStruct * BackendState) :=
  match GetSnapshotDataReuse cid snapshot pa be with
  | Some r => r
  | None =>
      let latest_completed := latestCompletedXid (TransamVariables pa) in
      let myxid := proc_xid (procs pa !!! my_pgxactoff be) in
      let c := snapshot_collect pa be in
      let '(pa', be') := install_xmin (col_xmin c) pa be in
      let be' := snapshot_update_vis latest_completed (oldestXid (TransamVariables pa)) (col_xmin c) myxid
                   (replication_slot_xmin pa) (replication_slot_catalog_xmin pa) be' in
      (MkSnapshot (snapshot_type snapshot) (col_xmin c) (snapshot_xmax pa) (col_xip c) (col_subxip c)
         (col_suboverflowed c) (RecoveryInProgress pa) cid (speculativeToken snapshot) (vistest snapshot)
         (xactCompletionCount (TransamVariables pa)), (pa', be'))
  end.

(** ** Horizons *)

Record ComputeXidHorizonsResult := MkHorizons {
  h_latest_completed : FullTransactionId;
  slot_xmin : Z;
  slot_catalog_xmin : Z;
  oldest_considered_running : Z;
  shared_oldest_nonremovable : Z;
  shared_oldest_nonremovable_raw : Z;
  catalog_oldest_nonremovable : Z;
  data_oldest_nonremovable : Z;
  temp_oldest_nonremovable : Z;
}.

(** The three horizons that the loop lowers. *)
Definition horizons_step (MyDatabaseId : Z) (in_recovery : bool) (acc : Z * Z * Z) (proc : PGPROC) : Z * Z * Z :=
  let '(running, shared, data) := acc in
  let xmin := TransactionIdOlder (proc_xmin proc) (proc_xid proc) in
  if negb (TransactionIdIsValid xmin) then acc
  else
    let running := TransactionIdOlder running xmin in
    if flag_set (statusFlags proc) (Z.lor PROC_IN_VACUUM PROC_IN_LOGICAL_DECODING) then (running, shared, data)
    else
      let shared := TransactionIdOlder shared xmin in
      let data :=
        if (databaseId proc =? MyDatabaseId) || (MyDatabaseId =? InvalidOid)
           || flag_set (statusFlags proc) PROC_AFFECTS_ALL_HORIZONS || in_recovery
        then TransactionIdOlder data xmin else data in
      (running, shared, data).

Definition ComputeXidHorizons_result (pa : ProcArrayStruct) (be : BackendState) : ComputeXidHorizonsResult :=
  let initial := TransactionIdAdvance (XidFromFullTransactionId (latestCompletedXid (TransamVariables pa))) in
  let myxid := proc_xid (procs pa !!! my_pgxactoff be) in
  let temp := if TransactionIdIsValid myxid then myxid else initial in
  let '(running, shared, data) :=
    foldl (horizons_step (MyDatabaseId be) (RecoveryInProgress pa)) (initial, initial, initial) (procs pa) in
  let kaxmin := KnownAssignedXidsGetOldestXmin (knownAssigned pa) in
  let older x := if RecoveryInProgress pa then TransactionIdOlder x kaxmin else x in
  let running := older running in
  let shared_raw := TransactionIdOlder (older shared) (replication_slot_xmin pa) in
  let data := TransactionIdOlder (older data) (replication_slot_xmin pa) in
  let shared := TransactionIdOlder shared_raw (replication_slot_catalog_xmin pa) in
  let catalog := TransactionIdOlder data (replication_slot_catalog_xmin pa) in
  let running := TransactionIdOlder (TransactionIdOlder (TransactionIdOlder running shared) catalog) data in
  MkHorizons (latestCompletedXid (TransamVariables pa)) (replication_slot_xmin pa) (replication_slot_catalog_xmin pa)
    running shared shared_raw catalog data temp.

Definition GlobalVisUpdateApply (h : ComputeXidHorizonsResult) (be : BackendState) : BackendState :=
  let maybe x := FullXidRelativeTo (h_latest_completed h) x in
  let upd v x := MkGlobalVisState (FullTransactionIdNewer (maybe x) (definitely_needed v)) (maybe x) in
  set_vis be (RecentXmin be)
    (upd (GlobalVisSharedRels be) (shared_oldest_nonremovable h))
    (upd (GlobalVisCatalogRels be) (catalog_oldest_nonremovable h))
    (upd (GlobalVisDataRels be) (data_oldest_nonremovable h))
    (MkGlobalVisState (maybe (temp_oldest_nonremovable h)) (maybe (temp_oldest_nonremovable h))).

(** The computation ends by updating the approximate horizons. *)
Definition ComputeXidHorizons (pa : ProcArrayStruct) (be : BackendState) : ComputeXidHorizonsResult * BackendState :=
  let h := ComputeXidHorizons_result pa be in (h, GlobalVisUpdateApply h be).

Definition GetOldestNonRemovableTransactionId (kind : GlobalVisHorizonKind) (pa : ProcArrayStruct) (be : BackendState)
  : Z * BackendState :=
  let '(h, be) := ComputeXidHorizons pa be in
  (match kind with
   | VISHORIZON_SHARED => shared_oldest_nonremovable h
   | VISHORIZON_CATALOG => catalog_oldest_nonremovable h
   | VISHORIZON_DATA => data_oldest_nonremovable h
   | VISHORIZON_TEMP => temp_oldest_nonremovable h
   end, be).

Definition GetOldestTransactionIdConsideredRunning (pa : ProcArrayStruct) (be : BackendState) : Z * BackendState :=
  let '(h, be) := ComputeXidHorizons pa be in (oldest_considered_running h, be).

Definition GlobalVisTestFor (kind : GlobalVisHorizonKind) (be : BackendState) : GlobalVisState :=
  match kind with
  | VISHORIZON_SHARED => GlobalVisSharedRels be
  | VISHORIZON_CATALOG => GlobalVisCatalogRels be
  | VISHORIZON_DATA => GlobalVisDataRels be
  | VISHORIZON_TEMP => GlobalVisTempRels be
  end.

Definition GlobalVisTestShouldUpdate (state : GlobalVisState) (be : BackendState) : bool :=
  if negb (TransactionIdIsValid (ComputeXidHorizonsResultLastXmin be)) then true
  else if FullTransactionIdFollowsOrEquals (maybe_needed state) (definitely_needed state) then false
  else negb (RecentXmin be =? ComputeXidHorizonsResultLastXmin be).

(** The state is one of the backend's own, so an update changes it too. *)
Definition GlobalVisTestIsRemovableFullXid (kind : GlobalVisHorizonKind) (fxid : FullTransactionId)
    (pa : ProcArrayStruct) (be : BackendState) : bool * BackendState :=
  let state := GlobalVisTestFor kind be in
  if FullTransactionIdPrecedes fxid (maybe_needed state) then (true, be)
  else if FullTransactionIdFollowsOrEquals fxid (definitely_needed state) then (false, be)
  else if GlobalVisTestShouldUpdate state be then
    let '(_, be) := ComputeXidHorizons pa be in
    (FullTransactionIdPrecedes fxid (maybe_needed (GlobalVisTestFor kind be)), be)
  else (false, be).

Definition GlobalVisTestIsRemovableXid (kind : GlobalVisHorizonKind) (xid : Z)
    (pa : ProcArrayStruct) (be : BackendState) : bool * BackendState :=
  GlobalVisTestIsRemovableFullXid kind (FullXidRelativeTo (definitely_needed (GlobalVisTestFor kind be)) xid) pa be.
