(* ===== verification/Running.v ===== *)
(** * Running transactions: correctness of the array

    What [ProcArray]'s functions mean.  The parents of subtransactions are
    fixed by [topmost] (the function behind [SubTransGetTopmostTransaction])
    and [aborted] says which subtransactions the commit log records as
    aborted.  Ids are compared by their rank above a bound [lo]. *)

From S2P Require Import Prelude.
From S2P Require Import Search.
From S2P Require Import TransactionId.
From S2P Require Import Varsup.
From S2P Require Import Snapshot.
From S2P Require Import ProcArray.

Section running.
Context (lo : Z) (topmost : Z -> Z).

Abbreviation rank := (xid_rank lo).
Abbreviation in_use := (in_use lo).

(** What [Subtrans] promises: a parent comes before its children. *)
Record topmost_ok : Prop := {
  top_in_use : forall x, in_use x -> in_use (topmost x);
  top_le : forall x, in_use x -> rank (topmost x) <= rank x;
}.

(** The transaction tree of an entry: its main id, the subtransactions in its
    cache and, once the cache has overflowed, every child that the commit log
    does not show as aborted. *)
Definition runs_in (aborted : Z -> bool) (p : PGPROC) (x : Z) : Prop :=
  TransactionIdIsValid (proc_xid p) = true /\
  (x = proc_xid p \/ x ∈ subxids p \/
   (sub_overflowed p = true /\ topmost x = proc_xid p /\ topmost x <> x /\ aborted x = false)).

Definition runs (aborted : Z -> bool) (pa : ProcArrayStruct) (x : Z) : Prop :=
  exists p, p ∈ procs pa /\ runs_in aborted p x.

(** Some entry other than number [my] of a stretch that starts at [i]. *)
Definition other (my i : nat) (l : list PGPROC) (P : PGPROC -> Prop) : Prop :=
  exists k p, (i + k)%nat <> my /\ l !! k = Some p /\ P p.

Definition runs_elsewhere (aborted : Z -> bool) (pa : ProcArrayStruct) (my : nat) (x : Z) : Prop :=
  other my 0 (procs pa) (fun p => runs_in aborted p x).

Definition latest (pa : ProcArrayStruct) : Z := XidFromFullTransactionId (latestCompletedXid (TransamVariables pa)).

(** The entries of the array agree with the transaction trees, and what is
    neither running nor aborted has been counted as completed. *)
Definition next (pa : ProcArrayStruct) : Z := XidFromFullTransactionId (nextXid (TransamVariables pa)).

Definition assigned (pa : ProcArrayStruct) (x : Z) : Prop := in_use x /\ rank x < rank (next pa).

Record proc_ok (aborted : Z -> bool) (nx : Z) (p : PGPROC) : Prop := {
  po_xid : TransactionIdIsValid (proc_xid p) = true ->
    in_use (proc_xid p) /\ rank (proc_xid p) < nx /\ topmost (proc_xid p) = proc_xid p;
  po_sub : forall s, s ∈ subxids p -> in_use s /\ rank s < nx /\ topmost s = proc_xid p /\ s <> proc_xid p;
  po_nodup : NoDup (subxids p);
  po_none : TransactionIdIsValid (proc_xid p) = false -> subxids p = [] /\ sub_overflowed p = false;
  po_cache : TransactionIdIsValid (proc_xid p) = true -> sub_overflowed p = false ->
    forall x, in_use x -> rank x < nx -> topmost x = proc_xid p -> topmost x <> x -> aborted x = false -> x ∈ subxids p;
  po_xmin : TransactionIdIsValid (proc_xmin p) = true -> in_use (proc_xmin p);
}.

Record pa_ok (aborted : Z -> bool) (pa : ProcArrayStruct) : Prop := {
  pk_latest : full_normal (latestCompletedXid (TransamVariables pa)) /\ in_use (latest pa);
  pk_next : full_normal (nextXid (TransamVariables pa)) /\ in_use (next pa) /\
    rank (latest pa) < rank (next pa) < 0x7ffffff0;
  pk_procs : forall p, p ∈ procs pa -> proc_ok aborted (rank (next pa)) p;
  pk_distinct : forall i j p q, procs pa !! i = Some p -> procs pa !! j = Some q ->
    TransactionIdIsValid (proc_xid p) = true -> proc_xid p = proc_xid q -> i = j;
  pk_completed : forall x, assigned pa x -> rank (latest pa) < rank x -> runs aborted pa x \/ aborted x = true;
}.

(** ** Facts about trees *)

Lemma runs_in_topmost aborted nx p x : proc_ok aborted nx p -> runs_in aborted p x -> topmost x = proc_xid p.
Proof.
  intros Hp (Hv & [->|[Hs|(_ & Ht & _)]]); [by apply (po_xid _ _ _ Hp)|by apply (po_sub _ _ _ Hp)|done].
Qed.

(** A transaction is in at most one entry. *)
Lemma runs_in_unique aborted pa i j p q x : pa_ok aborted pa ->
  procs pa !! i = Some p -> procs pa !! j = Some q -> runs_in aborted p x -> runs_in aborted q x -> i = j.
Proof.
  intros Hok Hi Hj Hp Hq. eapply (pk_distinct _ _ Hok _ _ _ _ Hi Hj); [apply Hp|].
  assert (forall k r, procs pa !! k = Some r -> runs_in aborted r x -> topmost x = proc_xid r) as H.
  { intros k r Hk. eapply runs_in_topmost, (pk_procs _ _ Hok). by eapply list_elem_of_lookup_2. }
  by rewrite <- (H _ _ Hi Hp), <- (H _ _ Hj Hq).
Qed.

Lemma runs_in_rank aborted nx p x : topmost_ok -> proc_ok aborted nx p -> in_use x -> runs_in aborted p x ->
  rank (proc_xid p) <= rank x.
Proof. intros Ht Hp Hx Hr. rewrite <- (runs_in_topmost _ _ _ _ Hp Hr). by apply top_le. Qed.

Lemma other_nil my i P : other my i [] P <-> False.
Proof. split; [|done]. by intros (k & p & _ & [=] & _). Qed.

Lemma other_cons my i p l P : other my i (p :: l) P <-> (i <> my /\ P p) \/ other my (S i) l P.
Proof.
  split.
  - intros ([|k] & q & Hk & Hq & HP); simpl in Hq.
    + left. injection Hq as ->. split; [lia|done].
    + right. exists k, q. split; [lia|done].
  - intros [[Hi HP]|(k & q & Hk & Hq & HP)].
    + exists 0%nat, p. split; [lia|done].
    + exists (S k), q. split; [lia|done].
Qed.

Lemma other_iff my i l P Q : (forall p, p ∈ l -> P p <-> Q p) -> other my i l P <-> other my i l Q.
Proof.
  intros H. split; intros (k & p & Hk & Hp & HP); exists k, p; (split_and!; [done..|]);
    apply (H p); [by eapply list_elem_of_lookup_2|done|by eapply list_elem_of_lookup_2|done].
Qed.

(** ** The scan *)

Section scan.
Context (aborted : Z -> bool) (nx : Z) (Htop : topmost_ok) (x : Z) (Hx : in_use x).

(** The answers that the scan gives itself, and the entries it leaves for the
    lookup of the topmost parent. *)
Definition found (p : PGPROC) : Prop :=
  TransactionIdIsValid (proc_xid p) = true /\ (x = proc_xid p \/ x ∈ subxids p).
Definition pending (p : PGPROC) : Prop :=
  TransactionIdIsValid (proc_xid p) = true /\ sub_overflowed p = true /\ rank (proc_xid p) <= rank x.

Lemma existsb_equals l : existsb (fun c => TransactionIdEquals c x) (reverse l) = true <-> x ∈ l.
Proof.
  rewrite existsb_exists. setoid_rewrite <- list_elem_of_In. setoid_rewrite elem_of_reverse. split.
  - intros (y & Hy & E). unfold TransactionIdEquals in E. apply Z.eqb_eq in E. by subst y.
  - intros H. exists x. split; [done|apply Z.eqb_refl].
Qed.

Lemma scan_procs_spec my l : forall i acc, (forall p, p ∈ l -> proc_ok aborted nx p) ->
  match scan_procs x my i l acc with
  | inl _ => other my i l found
  | inr xids => ~ other my i l found /\
                (forall y, y ∈ xids <-> y ∈ acc \/ other my i l (fun p => pending p /\ y = proc_xid p))
  end.
Proof.
  induction l as [|p l IH]; intros i acc Hl; cbn [scan_procs].
  { split; [|intros y]; rewrite other_nil; tauto. }
  assert (forall q, q ∈ l -> proc_ok aborted nx q) as Hl' by (intros; apply Hl; by right).
  assert (~ (i <> my /\ found p) -> (forall acc', (forall y, y ∈ acc' <-> y ∈ acc \/ (i <> my /\ pending p /\ y = proc_xid p)) ->
    match scan_procs x my (S i) l acc' with
    | inl _ => other my i (p :: l) found
    | inr xids => ~ other my i (p :: l) found /\
                  (forall y, y ∈ xids <-> y ∈ acc \/ other my i (p :: l) (fun p => pending p /\ y = proc_xid p))
    end)) as Hstep.
  { intros Hnf acc' Hacc. specialize (IH (S i) acc' Hl'). destruct (scan_procs x my (S i) l acc') as [u|xids].
    - rewrite other_cons. by right.
    - destruct IH as [IH1 IH2]. rewrite other_cons. split; [tauto|].
      intros y. rewrite IH2, Hacc, other_cons. tauto. }
  unfold found, pending in Hstep.
  destruct (Nat.eqb_spec i my) as [->|Hi]; [apply Hstep; [tauto|intros; tauto]|].
  pose proof (Hl p ltac:(by left)) as Hp.
  destruct (TransactionIdIsValid (proc_xid p)) eqn:Ev; cbn [negb]; [|apply Hstep; [intuition congruence|intros; intuition congruence]].
  unfold TransactionIdEquals at 1. destruct (Z.eqb_spec (proc_xid p) x) as [E|Hne].
  { rewrite other_cons. left. split; [done|]. split; [done|by left]. }
  destruct (po_xid _ _ _ Hp Ev) as (Hu & _ & Ht). rewrite (precedes_rank lo) by done.
  assert (x ∈ subxids p -> rank (proc_xid p) <= rank x) as Hsub.
  { intros Hs. destruct (po_sub _ _ _ Hp x Hs) as (_ & _ & <- & _). by apply (top_le Htop). }
  destruct (Z.ltb_spec (rank x) (rank (proc_xid p))).
  { apply Hstep; [|intros y; split; [tauto|]; intros [|(_ & (_ & _ & ?) & _)]; [done|lia]].
    intros (_ & _ & [->|Hs]); [done|]. specialize (Hsub Hs). lia. }
  destruct (existsb _ _) eqn:Ee.
  { rewrite existsb_equals in Ee. rewrite other_cons. left. split; [done|]. split; [done|by right]. }
  assert (x ∉ subxids p) by (rewrite <- existsb_equals, Ee; done).
  destruct (sub_overflowed p); apply Hstep; intros; try (rewrite elem_of_app, list_elem_of_singleton);
    intuition congruence.
Qed.
End scan.

(** ** Is it running? *)

Section in_progress.
Context (is_current aborted : Z -> bool) (Htop : topmost_ok).

(** What the test decides, seen from the backend of entry [my]: it is mine,
    or it is newer than everything completed, or another entry has it. *)
Definition considered_running (pa : ProcArrayStruct) (my : nat) (x : Z) : Prop :=
  is_current x = true \/ rank (latest pa) < rank x \/ runs_elsewhere aborted pa my x.

(** The backend's two shortcuts tell the truth. *)
Record backend_ok (pa : ProcArrayStruct) (be : BackendState) : Prop := {
  bk_xmin : in_use (RecentXmin be);
  bk_below : forall x, in_use x -> rank x < rank (RecentXmin be) -> ~ considered_running pa (my_pgxactoff be) x;
  bk_cached : in_use (cachedXidIsNotInProgress be) ->
    ~ considered_running pa (my_pgxactoff be) (cachedXidIsNotInProgress be);
}.

Lemma backend_ok_cached pa be x : backend_ok pa be -> ~ considered_running pa (my_pgxactoff be) x ->
  backend_ok pa (set_cached be x).
Proof. intros [H1 H2 H3] Hn. split; simpl; auto. Qed.

Lemma runs_elsewhere_split pa my x :
  runs_elsewhere aborted pa my x <->
  other my 0 (procs pa) (found x) \/
  (aborted x = false /\ topmost x <> x /\
   other my 0 (procs pa) (fun p => (TransactionIdIsValid (proc_xid p) = true /\ sub_overflowed p = true) /\ topmost x = proc_xid p)).
Proof.
  unfold runs_elsewhere, runs_in, found. split.
  - intros (k & p & Hk & Hp & Hv & [->|[?|(Ho & Ht & Hne & Ha)]]); [left|left|right]; [exists k, p; tauto..|].
    split_and!; [done..|]. exists k, p. tauto.
  - intros [(k & p & Hk & Hp & Hv & [->|Hs])|(Ha & Hne & k & p & Hk & Hp & [Hv Ho] & Ht)]; exists k, p; tauto.
Qed.

Lemma in_progress_spec pa be x : pa_ok aborted pa -> backend_ok pa be -> RecoveryInProgress pa = false -> in_use x ->
  let r := TransactionIdIsInProgress is_current aborted topmost pa be x in
  (r.1 = true <-> considered_running pa (my_pgxactoff be) x) /\ backend_ok pa r.2.
Proof.
  intros Hpa Hbe Hrec Hx. unfold TransactionIdIsInProgress, TransactionIdEquals.
  rewrite (precedes_rank lo) by (done || apply (bk_xmin _ _ Hbe)).
  destruct (Z.ltb_spec (rank x) (rank (RecentXmin be))) as [Hlt|_].
  { split; [|done]. simpl. pose proof (bk_below _ _ Hbe x Hx Hlt). intuition congruence. }
  destruct (Z.eqb_spec (cachedXidIsNotInProgress be) x) as [<-|_].
  { split; [|done]. simpl. pose proof (bk_cached _ _ Hbe Hx). intuition congruence. }
  destruct (is_current x) eqn:Ec; [split; [|done]; simpl; unfold considered_running; tauto|].
  destruct (pk_latest _ _ Hpa) as (_ & Hl).
  rewrite (precedes_rank lo) by done. fold (latest pa).
  destruct (Z.ltb_spec (rank (latest pa)) (rank x)) as [Hlt|Hge];
    [split; [|done]; simpl; unfold considered_running; tauto|].
  assert (considered_running pa (my_pgxactoff be) x <-> runs_elsewhere aborted pa (my_pgxactoff be) x) as Hcr.
  { unfold considered_running. split; [|tauto]. intros [|[|]]; [congruence|lia|done]. }
  pose proof (scan_procs_spec aborted _ Htop x Hx (my_pgxactoff be) (procs pa) 0 [] (pk_procs _ _ Hpa)) as Hscan.
  pose proof (runs_elsewhere_split pa (my_pgxactoff be) x) as Hsplit. rewrite <- Hcr in Hsplit.
  pose proof (backend_ok_cached pa be x Hbe) as Hcache.
  destruct (scan_procs _ _ _ _ _) as [u|xids]; [split; [|done]; simpl; tauto|].
  destruct Hscan as [Hnf Hxids]. rewrite Hrec. cbn [andb].
  assert (forall y, y ∈ xids <-> other (my_pgxactoff be) 0 (procs pa) (fun p => pending x p /\ y = proc_xid p)) as Hxids'.
  { intros y. rewrite Hxids, elem_of_nil. tauto. }
  assert (topmost x ∈ xids <-> other (my_pgxactoff be) 0 (procs pa)
    (fun p => (TransactionIdIsValid (proc_xid p) = true /\ sub_overflowed p = true) /\ topmost x = proc_xid p)) as Htx.
  { rewrite Hxids'. apply other_iff. intros p _. unfold pending. pose proof (top_le Htop x Hx).
    split; [tauto|]. intros ((? & ?) & E). rewrite <- E in *. tauto. }
  rewrite <- Htx in Hsplit.
  destruct (Nat.eqb_spec (length xids) 0) as [E0|_].
  { apply nil_length_inv in E0. subst xids. rewrite elem_of_nil in Hsplit. split; [|apply Hcache; tauto]. simpl. intuition congruence. }
  destruct (aborted x) eqn:Ea; [split; [|apply Hcache; intuition congruence]; simpl; intuition congruence|].
  rewrite <- xid_listed_elem in Hsplit.
  destruct (Z.eqb_spec (topmost x) x) as [Et|Et]; cbn [negb andb].
  { split; [simpl; intuition congruence|apply Hcache; intuition congruence]. }
  destruct (xid_listed (topmost x) xids); (split; [simpl; intuition congruence|]); [done|apply Hcache; intuition congruence].
Qed.
End in_progress.

(** ** Taking a snapshot *)

(** Lazy VACUUM and logical decoding are left out of snapshots. *)
Definition unflagged (p : PGPROC) : bool :=
  negb (flag_set (statusFlags p) (Z.lor PROC_IN_LOGICAL_DECODING PROC_IN_VACUUM)).

Section collect.
Context (aborted : Z -> bool) (nx : Z) (xmax : Z) (Hxmax : in_use xmax).

Definition snapped (p : PGPROC) : Prop :=
  TransactionIdIsValid (proc_xid p) = true /\ unflagged p = true /\ rank (proc_xid p) < rank xmax.

Record collected_from (my i : nat) (l : list PGPROC) (c c' : Collected) : Prop := {
  cf_use : in_use (col_xmin c');
  cf_le : rank (col_xmin c') <= rank (col_xmin c);
  cf_low : forall p, other my i l (fun q => q = p /\ snapped q) -> rank (col_xmin c') <= rank (proc_xid p);
  cf_xip : forall y, y ∈ col_xip c' <-> y ∈ col_xip c \/ other my i l (fun p => snapped p /\ y = proc_xid p);
  cf_over : col_suboverflowed c' = true <->
    col_suboverflowed c = true \/ other my i l (fun p => snapped p /\ sub_overflowed p = true);
  cf_sub : col_suboverflowed c' = false -> forall y, y ∈ col_subxip c' <->
    y ∈ col_subxip c \/ other my i l (fun p => snapped p /\ y ∈ subxids p);
}.

Lemma collect_skip my i p l c c' : ~ (i <> my /\ snapped p) ->
  collected_from my (S i) l c c' -> collected_from my i (p :: l) c c'.
Proof.
  intros Hn [H1 H2 H3 H4 H5 H6]. split; try done.
  - intros q Ho. rewrite other_cons in Ho. destruct Ho as [(Hi & -> & Hs)|Ho]; [tauto|by apply H3].
  - intros y. rewrite H4, other_cons. tauto.
  - rewrite H5, other_cons. tauto.
  - intros Hf y. rewrite (H6 Hf), other_cons. tauto.
Qed.

Lemma collect_take my i p l c c1 c' : i <> my -> snapped p -> 
  in_use (col_xmin c1) -> rank (col_xmin c1) <= Z.min (rank (col_xmin c)) (rank (proc_xid p)) ->
  col_xip c1 = col_xip c ++ [proc_xid p] ->
  (col_suboverflowed c1 = true <-> col_suboverflowed c = true \/ sub_overflowed p = true) ->
  (col_suboverflowed c1 = false -> col_subxip c1 = col_subxip c ++ subxids p) ->
  collected_from my (S i) l c1 c' -> collected_from my i (p :: l) c c'.
Proof.
  intros Hi Hs Hu Hle Hx Ho Hsx [H1 H2 H3 H4 H5 H6]. split; try done.
  - lia.
  - intros q Hoq. rewrite other_cons in Hoq. destruct Hoq as [(_ & -> & _)|Hoq]; [lia|by apply H3].
  - intros y. rewrite H4, other_cons, Hx, elem_of_app, list_elem_of_singleton. tauto.
  - rewrite H5, other_cons, Ho. tauto.
  - intros Hf y. assert (col_suboverflowed c1 = false) as Hf1.
    { destruct (col_suboverflowed c1); [|done]. assert (col_suboverflowed c' = true) by tauto. congruence. }
    rewrite (H6 Hf), other_cons, (Hsx Hf1), elem_of_app. tauto.
Qed.

Lemma collect_spec my l : forall i c, (forall p, p ∈ l -> proc_ok aborted nx p) ->
  in_use (col_xmin c) -> collected_from my i l c (collect_xids xmax my i l c).
Proof.
  induction l as [|p l IH]; intros i c Hl Hc; cbn [collect_xids].
  { split; try done; intros; rewrite ?other_nil in *; tauto. }
  assert (forall c1, in_use (col_xmin c1) -> collected_from my (S i) l c1 (collect_xids xmax my (S i) l c1)) as IH'.
  { intros c1. apply IH. intros q Hq. apply Hl. by right. }
  clear IH. pose proof (Hl p ltac:(by left)) as Hp. unfold InvalidTransactionId.
  assert (TransactionIdIsValid (proc_xid p) = negb (proc_xid p =? 0)) as Ev by done.
  destruct (Z.eqb_spec (proc_xid p) 0) as [E0|E0].
  { apply collect_skip; [|by apply IH']. unfold snapped. rewrite Ev. intros (_ & [=] & _). }
  destruct (Nat.eqb_spec i my) as [->|Hi]; [apply collect_skip; [tauto|by apply IH']|].
  destruct (po_xid _ _ _ Hp Ev) as (Hu & _ & _). rewrite !(normal_precedes_rank lo) by done.
  destruct (Z.ltb_spec (rank (proc_xid p)) (rank xmax)); cbn [negb].
  2:{ apply collect_skip; [|by apply IH']. unfold snapped. lia. }
  destruct (flag_set (statusFlags p) _) eqn:Ef.
  { apply collect_skip; [|by apply IH']. unfold snapped, unflagged. rewrite Ef. intros (_ & _ & [=] & _). }
  assert (snapped p) as Hs by (split_and!; [done|unfold unflagged; by rewrite Ef|done]).
  set (xmin := if _ <? _ then proc_xid p else col_xmin c).
  assert (in_use xmin /\ rank xmin <= Z.min (rank (col_xmin c)) (rank (proc_xid p))) as [Hmu Hmr].
  { unfold xmin. destruct (Z.ltb_spec (rank (proc_xid p)) (rank (col_xmin c))); (split; [done|lia]). }
  destruct (col_suboverflowed c) eqn:Ec; [|destruct (sub_overflowed p) eqn:Eo];
    (eapply collect_take; [exact Hi|exact Hs| | | | | |apply IH'; exact Hmu]); cbn; try done; rewrite ?Ec, ?Eo; try tauto;
    intuition congruence.
Qed.
End collect.

(** What a snapshot says about a transaction that is not the taker's own. *)
Record snapshot_valid (aborted : Z -> bool) (pa : ProcArrayStruct) (my : nat) (snap : SnapshotData) : Prop := {
  sv_use : in_use (snap_xmin snap) /\ in_use (snap_xmax snap) /\ rank (snap_xmin snap) <= rank (snap_xmax snap);
  sv_running : forall x, in_use x -> other my 0 (procs pa) (fun p => unflagged p = true /\ runs_in aborted p x) ->
    XidInMVCCSnapshot topmost x snap = true;
  sv_future : forall x, in_use x -> rank (latest pa) < rank x -> XidInMVCCSnapshot topmost x snap = true;
  sv_done : forall x, in_use x -> XidInMVCCSnapshot topmost x snap = true ->
    rank (latest pa) < rank x \/ runs_elsewhere aborted pa my x \/ aborted x = true;
}.

Section fresh.
Context (aborted : Z -> bool) (pa : ProcArrayStruct) (be : BackendState).
Context (Htop : topmost_ok) (Hpa : pa_ok aborted pa) (Hrec : RecoveryInProgress pa = false).
Context (Hmy : exists p, procs pa !! my_pgxactoff be = Some p).

Abbreviation my := (my_pgxactoff be).
Abbreviation c := (snapshot_collect pa be).

Lemma snapshot_bounds : in_use (snapshot_xmax pa) /\ in_use (snapshot_xmin0 pa be) /\
  rank (snapshot_xmin0 pa be) <= rank (snapshot_xmax pa) /\
  (forall x, in_use x -> rank x < rank (snapshot_xmax pa) <-> rank x <= rank (latest pa)).
Proof.
  destruct (pk_latest _ _ Hpa) as (_ & Hl). destruct (pk_next _ _ Hpa) as (_ & _ & Hlt).
  pose proof (fun a => advance_rank lo (latest pa) a Hl ltac:(lia)) as Hadv.
  assert (in_use (snapshot_xmax pa)) as Hx by (by apply (Hadv (latest pa) Hl)).
  split_and!; [done| | |intros x Hux; by apply (Hadv x Hux)].
  all: unfold snapshot_xmin0; destruct Hmy as [p Hp]; rewrite (list_lookup_total_correct _ _ _ Hp);
    destruct (TransactionIdIsNormal (proc_xid p)) eqn:En; cbn [andb]; try done.
  all: assert (in_use (proc_xid p)) as Hpu.
  1,3: apply (po_xid _ _ _ (pk_procs _ _ Hpa p (list_elem_of_lookup_2 _ _ _ Hp)));
    unfold TransactionIdIsNormal, TransactionIdIsValid, FirstNormalTransactionId, InvalidTransactionId in *; lia.
  all: rewrite (normal_precedes_rank lo) by done; destruct (Z.ltb_spec (rank (proc_xid p)) (rank (snapshot_xmax pa))); (done || lia).
Qed.

Lemma snapshot_collect_spec :
  collected_from (snapshot_xmax pa) my 0 (procs pa) (MkCollected (snapshot_xmin0 pa be) [] [] false) c.
Proof.
  destruct snapshot_bounds as (H1 & H2 & _). unfold snapshot_collect. rewrite Hrec. cbn [negb].
  apply (collect_spec aborted (rank (next pa))); [done|apply Hpa|done].
Qed.

(** An entry whose tree has an id below xmax is among the collected ones. *)
Lemma tree_snapped p x : p ∈ procs pa -> in_use x -> rank x < rank (snapshot_xmax pa) ->
  TransactionIdIsValid (proc_xid p) = true -> unflagged p = true -> topmost x = proc_xid p ->
  snapped (snapshot_xmax pa) p.
Proof.
  intros Hp Hx Hlt Hv Hf Ht. split_and!; [done..|]. rewrite <- Ht. pose proof (top_le Htop x Hx). lia.
Qed.

(** How the snapshot recognises a member of an entry's tree. *)
Definition in_tree (over : bool) (x : Z) (p : PGPROC) : Prop :=
  TransactionIdIsValid (proc_xid p) = true /\ unflagged p = true /\
  if over then topmost x = proc_xid p else x = proc_xid p \/ x ∈ subxids p.

Lemma in_tree_topmost over x p : p ∈ procs pa -> in_tree over x p -> topmost x = proc_xid p.
Proof.
  intros Hp (Hv & _ & Ht). pose proof (pk_procs _ _ Hpa p Hp) as Hok. destruct over; [done|].
  destruct Ht as [->|Hs]; [by apply (po_xid _ _ _ Hok)|by apply (po_sub _ _ _ Hok)].
Qed.

Lemma in_tree_low over x : in_use x -> rank x < rank (snapshot_xmax pa) ->
  other my 0 (procs pa) (in_tree over x) ->
  other my 0 (procs pa) (fun p => in_tree over x p /\ snapped (snapshot_xmax pa) p) /\
  rank (col_xmin c) <= rank (topmost x) <= rank x.
Proof.
  intros Hx Hlt (k & p & Hk & Hp & Ht). pose proof (list_elem_of_lookup_2 _ _ _ Hp) as Hin.
  pose proof (in_tree_topmost over x p Hin Ht) as E.
  assert (snapped (snapshot_xmax pa) p) as Hs by (apply (tree_snapped p x); [done..|apply Ht|apply Ht|done]).
  split; [by exists k, p|]. split; [|by apply (top_le Htop)]. rewrite E.
  apply (cf_low _ _ _ _ _ _ snapshot_collect_spec). by exists k, p.
Qed.

Lemma fresh_snapshot_verdict st tok vt cid n x : in_use x ->
  XidInMVCCSnapshot topmost x
    (MkSnapshot st (col_xmin c) (snapshot_xmax pa) (col_xip c) (col_subxip c) (col_suboverflowed c) false cid tok vt n) = true
  <-> rank (latest pa) < rank x \/ other my 0 (procs pa) (in_tree (col_suboverflowed c) x).
Proof.
  intros Hx. set (snap := MkSnapshot _ _ _ _ _ _ _ _ _ _ _).
  destruct snapshot_bounds as (Hmax & Hmin0 & Hle0 & Hlt). specialize (Hlt x Hx).
  pose proof snapshot_collect_spec as [Hu Hle _ Hxip _ Hsub]. cbn [col_xmin col_xip col_subxip] in *.
  destruct (decide (rank x < rank (snapshot_xmax pa))) as [Hl|Hl].
  2:{ rewrite (snapshot_above_xmax lo) by (done || simpl; lia). split; [left; lia|done]. }
  pose proof (in_tree_low (col_suboverflowed c) x Hx Hl) as Hlow.
  destruct (decide (rank x < rank (col_xmin c))) as [Hm|Hm].
  { rewrite (snapshot_below_xmin lo) by done. split; [done|]. intros [|H]; [lia|]. apply Hlow in H as [_ ?]. lia. }
  rewrite (snapshot_between lo) by (done || simpl; lia). cbn [suboverflowed xip subxip snap].
  destruct (col_suboverflowed c) eqn:Eo.
  - rewrite Hxip, elem_of_nil, (precedes_rank lo) by (done || by apply (top_in_use Htop)). split.
    + intros [_ [[]|(k & p & Hk & Hp & (Hv & Hf & _) & E)]]. right. exists k, p. by split_and!.
    + intros [|H]; [lia|]. apply Hlow in H as [(k & p & Hk & Hp & Ht & Hs) Hr].
      split; [apply Z.ltb_ge; simpl; lia|]. right. exists k, p. split_and!; try done. apply Ht.
  - rewrite (Hsub eq_refl), Hxip, !elem_of_nil. split.
    + intros [[[]|(k & p & Hk & Hp & (Hv & Hf & _) & E)]|[[]|(k & p & Hk & Hp & (Hv & Hf & _) & E)]];
        right; exists k, p; unfold in_tree; split_and!; try done; first [by right|by left].
    + intros [|H]; [lia|]. apply Hlow in H as [(k & p & Hk & Hp & (_ & _ & [E|E]) & Hs) _];
        [right|left]; right; exists k, p; by split_and!.
Qed.

Lemma fresh_snapshot_valid st tok vt cid n :
  snapshot_valid aborted pa my
    (MkSnapshot st (col_xmin c) (snapshot_xmax pa) (col_xip c) (col_subxip c) (col_suboverflowed c) false cid tok vt n).
Proof.
  destruct snapshot_bounds as (Hmax & Hmin0 & Hle0 & _).
  pose proof snapshot_collect_spec as [Hu Hle _ _ Hov _]. cbn [col_xmin col_suboverflowed] in *.
  split; [simpl; split_and!; (done || lia)| | |]; intros x Hx; rewrite fresh_snapshot_verdict by done.
  - intros (k & p & Hk & Hp & Hf & Hr). destruct (decide (rank (latest pa) < rank x)) as [|Hl]; [by left|right].
    pose proof (list_elem_of_lookup_2 _ _ _ Hp) as Hin. pose proof (pk_procs _ _ Hpa p Hin) as Hok.
    exists k, p. split_and!; [done..|]. split_and!; [apply Hr|done|].
    pose proof (runs_in_topmost _ _ _ _ Hok Hr) as Et. destruct (col_suboverflowed c) eqn:Eo; [done|].
    destruct Hr as (Hv & [->|[Hs|(Ho & _)]]); [by left|by right|]. exfalso.
    assert (snapped (snapshot_xmax pa) p) as Hsn.
    { apply (tree_snapped p x); try done. apply snapshot_bounds; [done|lia]. }
    assert (col_suboverflowed c = true); [|congruence]. rewrite Eo. apply Hov. right. by exists k, p.
  - intros. by left.
  - intros Hin0. destruct (decide (rank (latest pa) < rank x)) as [|Hl]; [by left|right].
    destruct Hin0 as [|(k & p & Hk & Hp & Ht)]; [lia|].
    pose proof (list_elem_of_lookup_2 _ _ _ Hp) as Hin. pose proof (pk_procs _ _ Hpa p Hin) as Hok.
    pose proof (in_tree_topmost _ x p Hin Ht) as Et. destruct Ht as (Hv & Hf & Ht).
    destruct (aborted x) eqn:Ea; [by right|left]. exists k, p. split_and!; try done. split; [done|].
    destruct (decide (topmost x = x)) as [E|E]; [left; congruence|].
    destruct (sub_overflowed p) eqn:Eo; [right; right; done|right; left].
    apply (po_cache _ _ _ Hok); try done. destruct (pk_next _ _ Hpa) as (_ & _ & ?). lia.
Qed.
End fresh.

(** ** Steps of the array

    The changes that backends make, each under the lock, with the commit log's
    record of aborted ids. *)

Definition proc_at (pa : ProcArrayStruct) (off : nat) (p : PGPROC) : Prop :=
  procs pa !! off = Some p /\ TransactionIdIsValid (proc_xid p) = true.

(** Every id of the tree is at or below [latestXid], an id in use. *)
Definition latest_of (aborted : Z -> bool) (pa : ProcArrayStruct) (p : PGPROC) (latestXid : Z) : Prop :=
  assigned pa latestXid /\ forall x, assigned pa x -> runs_in aborted p x -> rank x <= rank latestXid.

(** The wraparound limits and the width of the full counter leave room for
    another id. *)
Definition room (pa : ProcArrayStruct) : Prop :=
  rank (next pa) < 0x7fffffe0 /\ value (nextXid (TransamVariables pa)) < 0xfffffffffffffff0.

Inductive pa_step : (Z -> bool) * ProcArrayStruct -> (Z -> bool) * ProcArrayStruct -> Prop :=
  | step_assign_top aborted pa off p :
      procs pa !! off = Some p -> TransactionIdIsValid (proc_xid p) = false ->
      topmost (next pa) = next pa -> room pa ->
      pa_step (aborted, pa) (aborted, advertise_xid false off (next pa) pa)
  | step_assign_sub aborted pa off p :
      proc_at pa off p -> topmost (next pa) = proc_xid p -> room pa ->
      pa_step (aborted, pa) (aborted, advertise_xid true off (next pa) pa)
  | step_abort_recorded aborted aborted' pa :
      (forall x, aborted x = true -> aborted' x = true) ->
      pa_step (aborted, pa) (aborted', pa)
  | step_end aborted pa off p latestXid :
      proc_at pa off p -> latest_of aborted pa p latestXid ->
      pa_step (aborted, pa) (aborted, ProcArrayEndTransactionInternal off latestXid pa)
  | step_subabort aborted pa off p xid xids latestXid :
      proc_at pa off p -> assigned pa latestXid ->
      (forall x, x ∈ xid :: xids -> aborted x = true /\ rank x <= rank latestXid) ->
      pa_step (aborted, pa) (aborted, XidCacheRemoveRunningXids off xid xids latestXid pa)
  | step_xmin aborted pa off p x :
      procs pa !! off = Some p -> in_use x ->
      pa_step (aborted, pa) (aborted, set_proc_xmin pa off x).
End running.
