(* ===== verification/RunningSteps.v ===== *)
(** * Running transactions: every change of the array

    Each step of [Running.pa_step] keeps the array's invariant, changes the
    set of running transactions in exactly the intended way, and leaves
    finished transactions finished; from this follow the guarantees about
    snapshots: they are exact when taken, may be reused while no transaction
    has completed, and stay right for ever. *)

From stdpp Require Import relations.
From S2P Require Import Prelude.
From S2P Require Import Search.
From S2P Require Import TransactionId.
From S2P Require Import Varsup.
From S2P Require Import Snapshot.
From S2P Require Import ProcArray.
From S2P Require Import Running.

Section steps.
Context (lo : Z) (topmost : Z -> Z) (Htop : topmost_ok lo topmost).

Abbreviation rank := (xid_rank lo).
Abbreviation in_use := (in_use lo).
Abbreviation pa_ok := (pa_ok lo topmost).
Abbreviation proc_ok := (proc_ok lo topmost).
Abbreviation assigned := (assigned lo).
Abbreviation runs := (runs topmost).
Abbreviation runs_in := (runs_in topmost).
Abbreviation pa_step := (pa_step lo topmost).

Lemma runs_lookup aborted pa x : runs aborted pa x <-> exists i p, procs pa !! i = Some p /\ runs_in aborted p x.
Proof.
  split.
  - intros (p & [i Hi]%list_elem_of_lookup & Hr). by exists i, p.
  - intros (i & p & Hi & Hr). exists p. split; [by eapply list_elem_of_lookup_2|done].
Qed.

(** ** One entry changes *)

Lemma update_lookup pa pa' off p p' i q : procs pa !! off = Some p -> procs pa' = <[off := p']> (procs pa) ->
  procs pa' !! i = Some q <-> (i = off /\ q = p') \/ (i <> off /\ procs pa !! i = Some q).
Proof.
  intros Hoff Hprocs. rewrite Hprocs, list_lookup_insert_Some. pose proof (lookup_lt_Some _ _ _ Hoff).
  split; intros; intuition (subst; auto).
Qed.

Section update.
Context (aborted aborted' : Z -> bool) (pa pa' : ProcArrayStruct) (off : nat) (p p' : PGPROC).
Context (Hok : pa_ok aborted pa) (Hoff : procs pa !! off = Some p).
Context (Hprocs : procs pa' = <[off := p']> (procs pa)).

Lemma update_runs x : runs aborted' pa' x <->
  runs_in aborted' p' x \/ exists i q, i <> off /\ procs pa !! i = Some q /\ runs_in aborted' q x.
Proof.
  rewrite runs_lookup. setoid_rewrite (fun i q => update_lookup pa pa' off p p' i q Hoff Hprocs). split.
  - intros (i & q & [[-> ->]|[Hi Hq]] & Hr); [by left|right; by exists i, q].
  - intros [Hr|(i & q & Hi & Hq & Hr)]; [exists off, p'; auto|exists i, q; auto].
Qed.

Lemma entry_update_ok :
  full_normal (latestCompletedXid (TransamVariables pa')) -> in_use (latest pa') ->
  full_normal (nextXid (TransamVariables pa')) -> in_use (next pa') ->
  rank (latest pa') < rank (next pa') < 0x7ffffff0 ->
  proc_ok aborted' (rank (next pa')) p' ->
  (forall i q, i <> off -> procs pa !! i = Some q -> proc_ok aborted' (rank (next pa')) q) ->
  (TransactionIdIsValid (proc_xid p') = true -> forall i q, i <> off -> procs pa !! i = Some q -> proc_xid q <> proc_xid p') ->
  (forall x, assigned pa' x -> rank (latest pa') < rank x -> runs aborted' pa' x \/ aborted' x = true) ->
  pa_ok aborted' pa'.
Proof.
  intros H1 H2 H3 H4 H5 Hp' Hq Hd Hc. split; [done|done| | |done].
  - intros q [i Hi]%list_elem_of_lookup. apply (update_lookup pa pa' off p p' _ _ Hoff Hprocs) in Hi as [[-> ->]|[Hi Hl]]; [done|by eapply Hq].
  - intros i j q r Hi Hj Hv E. apply (update_lookup pa pa' off p p' _ _ Hoff Hprocs) in Hi, Hj.
    destruct Hi as [[-> ->]|[Hi Hl]], Hj as [[-> ->]|[Hj Hr]].
    + done.
    + exfalso. by apply (Hd Hv j r Hj Hr).
    + exfalso. rewrite E in Hv. by apply (Hd Hv i q Hi Hl).
    + by eapply (pk_distinct _ _ _ _ Hok).
Qed.
End update.

(** The ids that the array and the commit log together call finished. *)
Definition finished (aborted : Z -> bool) (pa : ProcArrayStruct) (x : Z) : Prop :=
  assigned pa x /\ rank x <= rank (latest pa) /\ ~ runs aborted pa x.

(** ** Recording aborts *)

Lemma runs_in_more_aborted aborted aborted' p x : (forall x, aborted x = true -> aborted' x = true) ->
  runs_in aborted' p x -> runs_in aborted p x.
Proof.
  intros Ha (Hv & [|[|(? & ? & ? & Hx)]]); (split; [done|]); [by left|by right; left|right; right].
  split_and!; try done. destruct (aborted x) eqn:E; [|done]. by rewrite (Ha x E) in Hx.
Qed.

Lemma proc_ok_more_aborted aborted aborted' nx p : (forall x, aborted x = true -> aborted' x = true) ->
  proc_ok aborted nx p -> proc_ok aborted' nx p.
Proof.
  intros Ha [H1 H2 H3 H4 H5 H6]. split; try done. intros Hv Ho x ????. intros Hx. apply H5; try done.
  destruct (aborted x) eqn:E; [|done]. by rewrite (Ha x E) in Hx.
Qed.

Lemma abort_recorded_ok aborted aborted' pa : (forall x, aborted x = true -> aborted' x = true) ->
  pa_ok aborted pa -> pa_ok aborted' pa.
Proof.
  intros Ha [H1 H2 H3 H4 H5]. split; try done.
  - intros p Hp. eapply proc_ok_more_aborted; eauto.
  - intros x Hx Hl. destruct (H5 x Hx Hl) as [(p & Hp & Hr)|]; [|right; by apply Ha].
    destruct (aborted' x) eqn:E; [by right|left]. exists p. split; [done|].
    destruct Hr as (Hv & [|[|(? & ? & ? & _)]]); (split; [done|]); [by left|by right; left|right; right; done].
Qed.

(** ** Completion *)

Lemma relative_xid rel x : is_u32 x -> XidFromFullTransactionId (FullXidRelativeTo rel x) = x.
Proof.
  intros Hx. unfold FullXidRelativeTo, FullTransactionIdFromU64, XidFromFullTransactionId. cbn [value].
  rewrite u32_u64. destruct (i32_congr (x - u32 (value rel))) as [k ->]. cint.
Qed.

Lemma relative_normal rel x : in_use x -> full_normal (FullXidRelativeTo rel x).
Proof.
  intros (Hx & Hn & _). split; [apply u64_range|]. rewrite relative_xid by done.
  by apply Z.leb_le.
Qed.

Lemma maintain_latest L pa : in_use L -> in_use (latest pa) -> full_normal (latestCompletedXid (TransamVariables pa)) ->
  let pa' := MaintainLatestCompletedXid L pa in
  procs pa' = procs pa /\ next pa' = next pa /\ nextXid (TransamVariables pa') = nextXid (TransamVariables pa) /\
  in_use (latest pa') /\ full_normal (latestCompletedXid (TransamVariables pa')) /\
  rank (latest pa') = Z.max (rank (latest pa)) (rank L) /\ RecoveryInProgress pa' = RecoveryInProgress pa /\
  xactCompletionCount (TransamVariables pa') = xactCompletionCount (TransamVariables pa).
Proof.
  intros HL Hl Hn. unfold MaintainLatestCompletedXid. fold (latest pa). rewrite (precedes_rank lo) by done.
  destruct (Z.ltb_spec (rank (latest pa)) (rank L)); cbn zeta; [|split_and!; (done || lia)].
  assert (latest (set_latest pa (FullXidRelativeTo (latestCompletedXid (TransamVariables pa)) L)) = L) as E.
  { apply relative_xid, HL. }
  rewrite E. split_and!; try done; [by apply relative_normal|lia].
Qed.

Lemma cleared_proc_ok aborted nx p f : 
  let p' := cleared_proc p f in
  proc_ok aborted nx p' /\ (forall x, ~ runs_in aborted p' x) /\ subxids p' = [] /\ TransactionIdIsValid (proc_xid p') = false.
Proof.
  intros p'. assert (subxids p' = [] /\ sub_overflowed p' = false) as [Hs Ho].
  { unfold p', cleared_proc. cbn [subxids sub_overflowed]. destruct (sub_overflowed p); rewrite ?orb_true_r; [done|].
    rewrite orb_false_r. unfold zlength. destruct (subxids p); [done|]. simpl. done. }
  split_and!; try done; [split; rewrite ?Hs, ?Ho; try done|by intros x []].
  - intros s Hin. by apply not_elem_of_nil in Hin.
  - constructor.
Qed.

Section end_transaction.
Context (aborted : Z -> bool) (pa : ProcArrayStruct) (off : nat) (p : PGPROC) (L : Z).
Context (Hok : pa_ok aborted pa) (Hp : proc_at pa off p) (HL : latest_of lo topmost aborted pa p L).

Abbreviation pa' := (ProcArrayEndTransactionInternal off L pa).
Abbreviation p' := (cleared_proc p (clear_vacuum_state (statusFlags p))).

Lemma end_shape : procs pa' = <[off := p']> (procs pa) /\ next pa' = next pa /\
  nextXid (TransamVariables pa') = nextXid (TransamVariables pa) /\
  in_use (latest pa') /\ full_normal (latestCompletedXid (TransamVariables pa')) /\
  rank (latest pa') = Z.max (rank (latest pa)) (rank L).
Proof.
  unfold ProcArrayEndTransactionInternal. rewrite (list_lookup_total_correct _ _ _ (proj1 Hp)).
  destruct (pk_latest _ _ _ _ Hok) as [H1 H2].
  destruct (maintain_latest L (set_procs pa (<[off := p']> (procs pa)))) as (E1 & E2 & E3 & E4 & E5 & E6 & _);
    [apply HL|done|done|]. by split_and!.
Qed.

Lemma end_transaction_ok : pa_ok aborted pa' /\
  (forall x, runs aborted pa' x <-> runs aborted pa x /\ ~ runs_in aborted p x).
Proof.
  destruct end_shape as (E1 & E2 & E3 & E4 & E5 & E6). destruct Hp as [Hoff Hv].
  destruct (cleared_proc_ok aborted (rank (next pa)) p (clear_vacuum_state (statusFlags p))) as (Hp1 & Hp2 & _ & Hp4).
  pose proof (pk_next _ _ _ _ Hok) as (Hn1 & Hn2 & Hn3).
  assert (forall x, runs aborted pa' x <-> runs aborted pa x /\ ~ runs_in aborted p x) as Hruns.
  { intros x. rewrite (update_runs aborted pa pa' off p p' Hoff E1 x), runs_lookup. split.
    - intros [Hr|(i & q & Hi & Hq & Hr)]; [by apply Hp2 in Hr|]. split; [by exists i, q|].
      intros Hr'. apply Hi. by eapply (runs_in_unique lo topmost).
    - intros [(i & q & Hq & Hr) Hn]. right. exists i, q. split_and!; try done. intros ->. congruence. }
  split; [|done]. apply (entry_update_ok aborted aborted pa pa' off p p' Hok Hoff E1); rewrite ?E2, ?E3; try done.
  - rewrite E6. destruct HL as [[_ HL1] _]. lia.
  - intros i q _ Hq. eapply pk_procs; [exact Hok|]. by eapply list_elem_of_lookup_2.
  - intros x Hx Hl. assert (assigned pa x) as Hx' by (unfold Running.assigned in *; by rewrite <- E2).
    rewrite Hruns. destruct (pk_completed _ _ _ _ Hok x Hx') as [Hr|]; [lia| |by right].
    left. split; [done|]. intros Hr'. pose proof (proj2 HL x Hx' Hr'). lia.
Qed.
End end_transaction.

(** ** Aborting subtransactions *)

Lemma find_last_spec x a n : (n <= length a)%nat ->
  match find_last x n a with
  | Some j => (j < n)%nat /\ a !! j = Some x
  | None => forall j, (j < n)%nat -> a !! j <> Some x
  end.
Proof.
  induction n as [|n IH]; intros Hn; cbn [find_last]; [lia|]. unfold TransactionIdEquals.
  pose proof (list_lookup_lookup_total_lt a n ltac:(lia)) as En.
  destruct (Z.eqb_spec (a !!! n) x) as [<-|Hne]; [split; [lia|done]|].
  specialize (IH ltac:(lia)). destruct (find_last x n a) as [j|].
  - destruct IH. split; [lia|done].
  - intros j Hj. destruct (decide (j = n)) as [->|]; [congruence|]. apply IH. lia.
Qed.

Lemma insert_middle (l1 l2 : list Z) x y : <[length l1 := y]> (l1 ++ x :: l2) = l1 ++ y :: l2.
Proof. rewrite insert_app_r_alt by lia. by rewrite Nat.sub_diag. Qed.

(** The last entry fills the gap. *)
Lemma fill_gap (a : list Z) j x : a !! j = Some x ->
  x :: take (length a - 1) (<[j := a !!! (length a - 1)%nat]> a) ≡ₚ a.
Proof.
  intros (l1 & l2 & -> & ->)%list_elem_of_split_length.
  destruct l2 as [|z l2 _] using rev_ind.
  - rewrite length_app. cbn [length]. replace (length l1 + 1 - 1)%nat with (length l1) by lia.
    rewrite list_lookup_total_middle by done. rewrite insert_middle, take_app_length.
    by rewrite (Permutation_app_comm l1).
  - rewrite length_app. cbn [length]. rewrite length_app. simpl.
    replace (length l1 + S (length l2 + 1) - 1)%nat with (length l1 + S (length l2))%nat by lia.
    rewrite lookup_total_app_r by lia. replace (length l1 + S (length l2) - length l1)%nat with (S (length l2)) by lia.
    simpl. rewrite lookup_total_app_r by lia. rewrite Nat.sub_diag. simpl.
    rewrite insert_middle, app_comm_cons, app_assoc, take_app_length' by (rewrite length_app; simpl; lia).
    solve_Permutation.
Qed.

Lemma remove_subxid_spec a x : NoDup a ->
  NoDup (remove_subxid a x) /\ forall y, y ∈ remove_subxid a x <-> y ∈ a /\ y <> x.
Proof.
  intros Hnd. unfold remove_subxid. pose proof (find_last_spec x a (length a) ltac:(lia)) as Hf.
  destruct (find_last x (length a) a) as [j|].
  - destruct Hf as [_ Hj]. pose proof (fill_gap a j x Hj) as Hp. rewrite <- Hp in Hnd.
    apply NoDup_cons in Hnd as [Hni Hnd]. split; [done|]. intros y.
    assert (y ∈ a <-> y = x \/ y ∈ take (length a - 1) (<[j := a !!! (length a - 1)%nat]> a)) as ->.
    { by rewrite <- elem_of_cons, Hp. }
    split; [|tauto]. intros Hy. split; [by right|]. by intros ->.
  - split; [done|]. intros y. split; [|tauto]. intros Hy. split; [done|]. intros ->.
    apply list_elem_of_lookup in Hy as [j Hj]. apply (Hf j); [by eapply lookup_lt_Some|done].
Qed.

Lemma remove_subxids_spec l : forall a, NoDup a ->
  NoDup (foldl remove_subxid a l) /\ forall y, y ∈ foldl remove_subxid a l <-> y ∈ a /\ y ∉ l.
Proof.
  induction l as [|x l IH]; intros a Hnd; simpl.
  - split; [done|]. intros y. rewrite elem_of_nil. tauto.
  - destruct (remove_subxid_spec a x Hnd) as [Hnd' Hx]. destruct (IH _ Hnd') as [H1 H2].
    split; [done|]. intros y. rewrite H2, Hx, elem_of_cons. tauto.
Qed.

Section subabort.
Context (aborted : Z -> bool) (pa : ProcArrayStruct) (off : nat) (p : PGPROC) (xid : Z) (xids : list Z) (L : Z).
Context (Hok : pa_ok aborted pa) (Hp : proc_at pa off p) (HL : assigned pa L).
Context (Hab : forall x, x ∈ xid :: xids -> aborted x = true /\ rank x <= rank L).

Abbreviation pa' := (XidCacheRemoveRunningXids off xid xids L pa).
Abbreviation a' := (foldl remove_subxid (subxids p) (reverse xids ++ [xid])).
Abbreviation p' := (MkPGPROC (pgprocno p) (pid p) (proc_xid p) (proc_xmin p) a' (sub_overflowed p) (statusFlags p) (databaseId p)).

Lemma subabort_shape : procs pa' = <[off := p']> (procs pa) /\ next pa' = next pa /\
  nextXid (TransamVariables pa') = nextXid (TransamVariables pa) /\
  in_use (latest pa') /\ full_normal (latestCompletedXid (TransamVariables pa')) /\
  rank (latest pa') = Z.max (rank (latest pa)) (rank L).
Proof.
  unfold XidCacheRemoveRunningXids. rewrite (list_lookup_total_correct _ _ _ (proj1 Hp)).
  destruct (pk_latest _ _ _ _ Hok) as [H1 H2].
  destruct (maintain_latest L (set_procs pa (<[off := p']> (procs pa)))) as (E1 & E2 & E3 & E4 & E5 & E6 & _);
    [apply HL|done|done|]. by split_and!.
Qed.

Lemma removed_elem y : proc_ok aborted (rank (next pa)) p -> y ∈ a' <-> y ∈ subxids p /\ y ∉ xid :: xids.
Proof.
  intros Hpo. rewrite (proj2 (remove_subxids_spec _ _ (po_nodup _ _ _ _ _ Hpo))).
  rewrite elem_of_app, elem_of_reverse, list_elem_of_singleton, elem_of_cons. tauto.
Qed.

Lemma subabort_ok : pa_ok aborted pa' /\
  (forall x, runs aborted pa' x <-> runs aborted pa x /\ ~ (runs_in aborted p x /\ x <> proc_xid p /\ x ∈ xid :: xids)).
Proof.
  destruct subabort_shape as (E1 & E2 & E3 & E4 & E5 & E6). destruct Hp as [Hoff Hv].
  pose proof (pk_procs _ _ _ _ Hok p (list_elem_of_lookup_2 _ _ _ Hoff)) as Hpo.
  pose proof (pk_next _ _ _ _ Hok) as (Hn1 & Hn2 & Hn3).
  assert (forall x, runs_in aborted p' x <-> runs_in aborted p x /\ ~ (x <> proc_xid p /\ x ∈ xid :: xids)) as Hr'.
  { intros x. unfold Running.runs_in. cbn [proc_xid subxids sub_overflowed]. rewrite (removed_elem x Hpo).
    pose proof (Hab x) as Ha. destruct (decide (x ∈ xid :: xids)) as [Hin|Hin]; [|tauto].
    destruct (Ha Hin) as [Ha' _]. rewrite Ha'. destruct (decide (x = proc_xid p)) as [->|]; [tauto|]. intuition congruence. }
  assert (forall x, runs aborted pa' x <-> runs aborted pa x /\ ~ (runs_in aborted p x /\ x <> proc_xid p /\ x ∈ xid :: xids)) as Hruns.
  { intros x. rewrite (update_runs aborted pa pa' off p p' Hoff E1 x), Hr', runs_lookup. split.
    - intros [[Hr Hn]|(i & q & Hi & Hq & Hr)]; [split; [by exists off, p|tauto]|]. split; [by exists i, q|].
      intros [Hr2 _]. apply Hi. by eapply (runs_in_unique lo topmost).
    - intros [(i & q & Hq & Hr) Hn]. destruct (decide (i = off)) as [->|Hi]; [left|right; by exists i, q].
      replace q with p in * by congruence. tauto. }
  split; [|done]. apply (entry_update_ok aborted aborted pa pa' off p p' Hok Hoff E1); rewrite ?E2, ?E3; try done.
  - rewrite E6. destruct HL as [_ HL1]. lia.
  - destruct Hpo as [H1 H2 H3 H4 H5 H6]. split; cbn [proc_xid subxids sub_overflowed proc_xmin]; try done.
    + intros s Hs. apply removed_elem in Hs as [Hs _]; [by apply H2|by split].
    + by apply remove_subxids_spec.
    + congruence.
    + intros _ Ho x ?????. rewrite removed_elem by by split. split; [by apply H5|]. intros Hin.
      destruct (Hab x Hin). congruence.
  - intros i q _ Hq. eapply pk_procs; [exact Hok|]. by eapply list_elem_of_lookup_2.
  - intros _ i q Hi Hq E. apply Hi. symmetry. eapply (pk_distinct _ _ _ _ Hok); eauto.
  - intros x Hx Hl. assert (assigned pa x) as Hx' by (unfold Running.assigned in *; by rewrite <- E2).
    rewrite Hruns. destruct (pk_completed _ _ _ _ Hok x Hx') as [Hr|]; [lia| |by right].
    left. split; [done|]. intros (_ & _ & Hin). destruct (Hab x Hin). lia.
Qed.
End subabort.

(** ** Assigning an id *)

Lemma advance_xid f : full_normal f -> value f < 0xfffffffffffffff0 ->
  full_normal (FullTransactionIdAdvance f) /\
  XidFromFullTransactionId (FullTransactionIdAdvance f) = TransactionIdAdvance (XidFromFullTransactionId f).
Proof.
  intros [Hf Hn] Hlt. assert (full_ok f) as Hok by (split; [done|by right]).
  pose proof (FullTransactionIdAdvance_value f Hok ltac:(lia)) as E.
  assert (XidFromFullTransactionId (FullTransactionIdAdvance f) = TransactionIdAdvance (XidFromFullTransactionId f)) as Ex.
  { unfold XidFromFullTransactionId at 1. rewrite E. unfold TransactionIdAdvance, XidFromFullTransactionId, FirstNormalTransactionId in *.
    destruct (Z.eqb_spec (u32 (value f)) 0xFFFFFFFF) as [E'|E']; cint. }
  split; [|done]. split; [rewrite E; unfold is_u64 in *; case_match; lia|]. rewrite Ex.
  unfold TransactionIdAdvance, FirstNormalTransactionId. cint.
Qed.

Section assign.
Context (aborted : Z -> bool) (isSub : bool) (pa : ProcArrayStruct) (off : nat) (p : PGPROC).
Context (Hok : pa_ok aborted pa) (Hoff : procs pa !! off = Some p) (Hroom : room lo pa).
Context (Hv : TransactionIdIsValid (proc_xid p) = isSub).
Context (Htm : topmost (next pa) = if isSub then proc_xid p else next pa).

Abbreviation x := (next pa).
Abbreviation pa' := (advertise_xid isSub off x pa).
Abbreviation p' := (procs pa' !!! off).

Lemma next_bounds : in_use (next pa') /\ full_normal (nextXid (TransamVariables pa')) /\
  rank (next pa') < 0x7ffffff0 /\ (forall y, in_use y -> rank y < rank (next pa') <-> rank y <= rank x).
Proof.
  destruct (pk_next _ _ _ _ Hok) as (Hn & Hu & Hr). destruct Hroom as [Hr1 Hr2].
  destruct (advance_xid _ Hn Hr2) as [Hn' E].
  assert (next pa' = TransactionIdAdvance x) as En by exact E. rewrite En.
  pose proof (fun y => advance_rank lo x y Hu ltac:(lia)) as Ha.
  split_and!; [by apply (Ha x)|done| |intros y Hy; by apply Ha].
  pose proof (advance_rank_le lo x Hu). lia.
Qed.

Lemma assign_shape : procs pa' = <[off := p']> (procs pa) /\ latest pa' = latest pa /\
  latestCompletedXid (TransamVariables pa') = latestCompletedXid (TransamVariables pa) /\
  xactCompletionCount (TransamVariables pa') = xactCompletionCount (TransamVariables pa) /\
  RecoveryInProgress pa' = RecoveryInProgress pa /\
  proc_xid p' = (if isSub then proc_xid p else x) /\ proc_xmin p' = proc_xmin p /\ statusFlags p' = statusFlags p /\
  (if isSub then (subxids p' = subxids p ++ [x] /\ sub_overflowed p' = sub_overflowed p) \/
                 (subxids p' = subxids p /\ sub_overflowed p' = true)
   else subxids p' = subxids p /\ sub_overflowed p' = sub_overflowed p).
Proof.
  pose proof (lookup_lt_Some _ _ _ Hoff) as Hlen.
  assert (forall q, <[off := q]> (procs pa) !!! off = q) as Hq by (intros; by apply list_lookup_total_insert_eq).
  unfold advertise_xid. cbn [procs set_procs set_transam]. rewrite (list_lookup_total_correct _ _ _ Hoff), Hq.
  destruct isSub; cbn [negb]; [destruct (zlength (subxids p) <? _)|]; split_and!; try done; [by left|by right].
Qed.

Lemma fresh_id : in_use x /\ rank (latest pa) < rank x /\ (forall y, assigned pa y -> y <> x) /\
  (forall i q, procs pa !! i = Some q -> proc_xid q <> x /\ x ∉ subxids q).
Proof.
  destruct (pk_next _ _ _ _ Hok) as (Hn & Hu & Hr).
  assert (forall y, assigned pa y -> y <> x) as Hne by (intros y [_ Hy] ->; lia).
  split_and!; [done|lia|done|]. intros i q Hq.
  pose proof (pk_procs _ _ _ _ Hok q (list_elem_of_lookup_2 _ _ _ Hq)) as Hqo. split.
  - intros E. assert (TransactionIdIsValid (proc_xid q) = true) as Hqv by (rewrite E; by eapply in_use_valid).
    destruct (po_xid _ _ _ _ _ Hqo Hqv) as (? & ? & _). apply (Hne (proc_xid q)); [by split|done].
  - intros Hs. destruct (po_sub _ _ _ _ _ Hqo x Hs) as (? & ? & _). by apply (Hne x).
Qed.
(** The only id that the new counter adds is the assigned one. *)
Lemma new_assigned y : in_use y -> rank y < rank (next pa') -> y = x \/ assigned pa y.
Proof.
  intros Hy Hr. apply next_bounds in Hr; [|done]. destruct (decide (rank y = rank x)) as [E|E].
  - left. eapply rank_inj; [apply Hy|apply (pk_next _ _ _ _ Hok)|done].
  - right. split; [done|lia].
Qed.

Lemma proc_ok_other q : proc_ok aborted (rank x) q -> topmost x = x \/ topmost x <> proc_xid q ->
  proc_ok aborted (rank (next pa')) q.
Proof.
  intros [H1 H2 H3 H4 H5 H6] Hne. pose proof next_bounds as (_ & _ & _ & Hb). split; try done.
  - intros Hqv. destruct (H1 Hqv) as (Hu & Hr & Ht). split_and!; try done. apply Hb; [done|lia].
  - intros s Hs. destruct (H2 s Hs) as (Hu & Hr & Ht & Hn). split_and!; try done. apply Hb; [done|lia].
  - intros Hqv Ho y Hy Hr Ht Hn Ha. destruct (new_assigned y Hy Hr) as [->|[_ Hr']]; [tauto|by apply H5].
Qed.

Lemma proc_ok_assigned : proc_ok aborted (rank (next pa')) p'.
Proof.
  pose proof (pk_procs _ _ _ _ Hok p (list_elem_of_lookup_2 _ _ _ Hoff)) as [H1 H2 H3 H4 H5 H6].
  destruct assign_shape as (_ & _ & _ & _ & _ & Ex & Em & _ & Hs). destruct fresh_id as (Hxu & _ & _ & Hf).
  destruct (Hf off p Hoff) as [Hfx Hfs]. pose proof next_bounds as (_ & _ & _ & Hb).
  destruct (pk_next _ _ _ _ Hok) as (_ & _ & Hnr).
  assert (forall y, in_use y -> rank y <= rank x -> rank y < rank (next pa')) as Hlt by (intros; by apply Hb).
  destruct isSub.
  - destruct (H1 Hv) as (Hpu & Hpr & Hpt). destruct Hs as [[Es Eo]|[Es Eo]]; split; rewrite ?Ex, ?Em, ?Es, ?Eo; try done.
    all: try (intros _; split_and!; [done|apply Hlt; [done|lia]|done]).
    + intros s [Hs| ->%list_elem_of_singleton]%elem_of_app.
      * destruct (H2 s Hs) as (? & ? & ? & ?). split_and!; try done. apply Hlt; [done|lia].
      * split_and!; first [done|by apply Hlt|congruence].
    + apply NoDup_app. split_and!; [done| |apply NoDup_singleton].
      intros s Hs ->%list_elem_of_singleton. done.
    + congruence.
    + intros _ Ho y Hy Hr Ht Hn Ha. apply elem_of_app. rewrite list_elem_of_singleton.
      destruct (new_assigned y Hy Hr) as [->|[_ Hr']]; [by right|left; by apply H5].
    + intros s Hs. destruct (H2 s Hs) as (? & ? & ? & ?). split_and!; try done. apply Hlt; [done|lia].
    + congruence.
  - destruct (H4 Hv) as [Esn Eon]. destruct Hs as [Es Eo]. rewrite Esn in Es. rewrite Eon in Eo.
    split; rewrite ?Ex, ?Em, ?Es, ?Eo; try done.
    + intros _. split_and!; [done|by apply Hlt|done].
    + intros s Hs. by apply not_elem_of_nil in Hs.
    + constructor.
    + intros _ _ y Hy Hr Ht Hn Ha. exfalso. pose proof (top_le _ _ Htop y Hy) as Hle. rewrite Ht in Hle.
      destruct (new_assigned y Hy Hr) as [->|[_ Hr']]; [congruence|lia].
Qed.

Lemma assign_runs_in y : assigned pa y -> runs_in aborted p' y <-> runs_in aborted p y.
Proof.
  intros Hy. pose proof (pk_procs _ _ _ _ Hok p (list_elem_of_lookup_2 _ _ _ Hoff)) as Hpo.
  destruct assign_shape as (_ & _ & _ & _ & _ & Ex & Em & _ & Hs). destruct fresh_id as (Hxu & _ & Hne & _).
  specialize (Hne y Hy). unfold Running.runs_in. rewrite Ex. destruct isSub.
  - destruct Hs as [[-> ->]|[-> ->]].
    + rewrite elem_of_app, list_elem_of_singleton. tauto.
    + split; [|tauto]. intros (_ & [?|[?|(_ & Ht & Hn & Ha)]]); (split; [done|]); [by left|by right; left|].
      destruct (sub_overflowed p) eqn:Eo; [by right; right|right; left].
      apply (po_cache _ _ _ _ _ Hpo); try done; apply Hy.
  - destruct Hs as [-> ->], (po_none _ _ _ _ _ Hpo Hv) as [-> ->]. rewrite elem_of_nil, Hv. intuition congruence.
Qed.

Lemma assign_ok : pa_ok aborted pa' /\
  (forall y, assigned pa y -> runs aborted pa' y <-> runs aborted pa y) /\
  (runs_in aborted p' x \/ aborted x = true).
Proof.
  destruct assign_shape as (E1 & E2 & E3 & _ & _ & Ex & _ & _ & Hs). pose proof next_bounds as (Hb1 & Hb2 & Hb3 & Hb4).
  destruct fresh_id as (Hxu & Hxl & Hne & Hf). pose proof (pk_latest _ _ _ _ Hok) as [Hl1 Hl2].
  assert (forall y, assigned pa y -> runs aborted pa' y <-> runs aborted pa y) as Hruns.
  { intros y Hy. rewrite (update_runs aborted pa pa' off p p' Hoff E1 y), (assign_runs_in y Hy), runs_lookup. split.
    - intros [|(i & q & _ & ? & ?)]; [by exists off, p|by exists i, q].
    - intros (i & q & Hq & Hr). destruct (decide (i = off)) as [->|]; [left; congruence|right; by exists i, q]. }
  assert (runs_in aborted p' x \/ aborted x = true) as Hx.
  { destruct (aborted x) eqn:Ea; [by right|left]. unfold Running.runs_in. rewrite Ex. destruct isSub.
    - split; [done|]. destruct Hs as [[-> _]|[_ ->]]; [right; left; apply elem_of_app; right; by apply list_elem_of_singleton|].
      right; right. split_and!; try done. destruct (Hf off p Hoff). congruence.
    - split; [by eapply in_use_valid|by left]. }
  split_and!; [|done|done].
  apply (entry_update_ok aborted aborted pa pa' off p p' Hok Hoff E1); rewrite ?E2, ?E3; try done.
  - split; [|lia]. apply Hb4; [done|lia].
  - apply proc_ok_assigned.
  - intros i q Hi Hq. pose proof (pk_procs _ _ _ _ Hok q (list_elem_of_lookup_2 _ _ _ Hq)) as Hqo.
    apply proc_ok_other; [done|]. destruct isSub; [right|by left]. intros E. apply Hi.
    eapply (pk_distinct _ _ _ _ Hok); [exact Hq|exact Hoff| |congruence]. congruence.
  - rewrite Ex. intros _ i q Hi Hq E. destruct isSub; [|by apply (proj1 (Hf i q Hq))].
    apply Hi. symmetry. eapply (pk_distinct _ _ _ _ Hok); eauto.
  - intros y [Hy Hr] Hl. destruct (new_assigned y Hy Hr) as [->|Hya].
    + destruct Hx as [Hx|]; [left|by right]. apply (update_runs aborted pa pa' off p p' Hoff E1). by left.
    + rewrite (Hruns y Hya). by apply (pk_completed _ _ _ _ Hok).
Qed.
End assign.

(** ** A new xmin *)

(** An entry may change its xmin and its flags without any effect on the
    transactions that run. *)
Lemma metadata_ok aborted pa off p p' : pa_ok aborted pa -> procs pa !! off = Some p ->
  proc_xid p' = proc_xid p -> subxids p' = subxids p -> sub_overflowed p' = sub_overflowed p ->
  (TransactionIdIsValid (proc_xmin p') = true -> in_use (proc_xmin p')) ->
  let pa' := set_procs pa (<[off := p']> (procs pa)) in
  pa_ok aborted pa' /\ (forall y, runs aborted pa' y <-> runs aborted pa y).
Proof.
  intros Hok Hoff Ex Es Eo Hx pa'. assert (procs pa' = <[off := p']> (procs pa)) as E1 by done.
  assert (forall y, runs_in aborted p' y <-> runs_in aborted p y) as Hr by (intros; unfold Running.runs_in; by rewrite Ex, Es, Eo).
  assert (forall y, runs aborted pa' y <-> runs aborted pa y) as Hruns.
  { intros y. rewrite (update_runs aborted pa pa' off p p' Hoff E1 y), runs_lookup, Hr. split.
    - intros [|(i & q & _ & ? & ?)]; [by exists off, p|by exists i, q].
    - intros (i & q & Hq & Hrq). destruct (decide (i = off)) as [->|]; [left; congruence|right; by exists i, q]. }
  split; [|done]. pose proof (pk_procs _ _ _ _ Hok) as Hps.
  destruct (pk_latest _ _ _ _ Hok), (pk_next _ _ _ _ Hok) as (? & ? & ?).
  apply (entry_update_ok aborted aborted pa pa' off p p' Hok Hoff E1); try done.
  - destruct (Hps p (list_elem_of_lookup_2 _ _ _ Hoff)). split; rewrite ?Ex, ?Es, ?Eo; done.
  - intros i q _ Hq. apply Hps. by eapply list_elem_of_lookup_2.
  - rewrite Ex. intros Hv i q Hi Hq E. apply Hi. symmetry. by eapply (pk_distinct _ _ _ _ Hok _ _ p q).
  - intros y. rewrite Hruns. apply (pk_completed _ _ _ _ Hok).
Qed.

Lemma xmin_ok aborted pa off p x : pa_ok aborted pa -> procs pa !! off = Some p -> in_use x ->
  pa_ok aborted (set_proc_xmin pa off x) /\
  (forall y, runs aborted (set_proc_xmin pa off x) y <-> runs aborted pa y).
Proof.
  intros Hok Hoff Hx. unfold set_proc_xmin. rewrite (list_lookup_total_correct _ _ _ Hoff).
  by apply (metadata_ok aborted pa off p).
Qed.

(** ** All steps *)

Definition state_ok (s : (Z -> bool) * ProcArrayStruct) : Prop := pa_ok s.1 s.2.

Lemma step_ok s s' : state_ok s -> pa_step s s' -> state_ok s'.
Proof.
  unfold state_ok. intros Hok Hstep. destruct Hstep; cbn [fst snd] in *.
  - by eapply (assign_ok aborted false).
  - by eapply (assign_ok aborted true); [done|apply H|done|apply H|done].
  - by eapply abort_recorded_ok.
  - by eapply end_transaction_ok.
  - by eapply subabort_ok.
  - by eapply xmin_ok.
Qed.

(** No step revives a transaction, takes back a completion or an assignment. *)
Lemma step_effect s s' : state_ok s -> pa_step s s' ->
  (forall y, assigned s.2 y -> runs s'.1 s'.2 y -> runs s.1 s.2 y) /\
  rank (latest s.2) <= rank (latest s'.2) /\ rank (next s.2) <= rank (next s'.2).
Proof.
  unfold state_ok. intros Hok Hstep. destruct Hstep as [aborted pa off p Hoff Hv Ht Hr|aborted pa off p [Hoff Hv] Ht Hr|aborted aborted' pa Ha|
    aborted pa off p L Hp HL|aborted pa off p xid xids L Hp HL Hab|aborted pa off p x Hoff Hx]; cbn [fst snd] in *.
  - destruct (assign_ok aborted false pa off p Hok Hoff Hr Hv Ht) as (_ & Hruns & _).
    destruct (next_bounds aborted false pa off Hok Hr) as (_ & _ & _ & Hb).
    split_and!; [intros y Hy; by apply Hruns|done|]. apply Z.lt_le_incl, Hb; [apply Hok|done].
  - destruct (assign_ok aborted true pa off p Hok Hoff Hr Hv Ht) as (_ & Hruns & _).
    destruct (next_bounds aborted true pa off Hok Hr) as (_ & _ & _ & Hb).
    split_and!; [intros y Hy; by apply Hruns|done|]. apply Z.lt_le_incl, Hb; [apply Hok|done].
  - split_and!; [|done..]. intros y _ (q & Hq & Hr). exists q. split; [done|by eapply runs_in_more_aborted].
  - destruct (end_transaction_ok aborted pa off p L Hok Hp HL) as [_ Hruns].
    destruct (end_shape aborted pa off p L Hok Hp HL) as (_ & -> & _ & _ & _ & ->).
    split_and!; [intros y _; by rewrite Hruns; intros []|lia|lia].
  - destruct (subabort_ok aborted pa off p xid xids L Hok Hp HL Hab) as [_ Hruns].
    destruct (subabort_shape aborted pa off p xid xids L Hok Hp HL) as (_ & -> & _ & _ & _ & ->).
    split_and!; [intros y _; by rewrite Hruns; intros []|lia|lia].
  - destruct (xmin_ok aborted pa off p x Hok Hoff Hx) as [_ Hruns]. split_and!; [intros y _; by rewrite Hruns|done..].
Qed.

Lemma finished_step s s' x : state_ok s -> pa_step s s' -> finished s.1 s.2 x -> finished s'.1 s'.2 x.
Proof.
  intros Hok Hstep (Hx & Hl & Hn). destruct (step_effect s s' Hok Hstep) as (H1 & H2 & H3).
  split_and!; [split; [apply Hx|destruct Hx; lia]|lia|]. intros Hr. by apply Hn, H1.
Qed.

(** ** Ending several transactions at once *)

Definition members_ok (aborted : Z -> bool) (pa : ProcArrayStruct) (members : list (nat * Z)) : Prop :=
  NoDup members.*1 /\
  forall off L, (off, L) ∈ members -> exists p, proc_at pa off p /\ latest_of lo topmost aborted pa p L.

(** [x] belongs to the tree of one of the members. *)
Definition in_members (aborted : Z -> bool) (pa : ProcArrayStruct) (members : list (nat * Z)) (x : Z) : Prop :=
  exists off L p, (off, L) ∈ members /\ procs pa !! off = Some p /\ runs_in aborted p x.

Lemma group_clear_spec aborted members : forall pa, pa_ok aborted pa -> members_ok aborted pa members ->
  let pa' := ProcArrayGroupClearXid members pa in
  pa_ok aborted pa' /\ next pa' = next pa /\ rank (latest pa) <= rank (latest pa') /\
  (forall off L, (off, L) ∈ members -> rank L <= rank (latest pa')) /\
  (forall x, runs aborted pa' x <-> runs aborted pa x /\ ~ in_members aborted pa members x).
Proof.
  induction members as [|[off L] members IH]; intros pa Hok [Hnd Hm]; cbn [ProcArrayGroupClearXid].
  - split_and!; try done; [intros ?? Hin; by apply not_elem_of_nil in Hin|].
    intros x. split; [|tauto]. intros Hr. split; [done|]. intros (? & ? & ? & Hin & _). by apply not_elem_of_nil in Hin.
  - destruct (Hm off L ltac:(by left)) as (p & Hp & HL).
    destruct (end_transaction_ok aborted pa off p L Hok Hp HL) as [Hok1 Hruns1].
    destruct (end_shape aborted pa off p L Hok Hp HL) as (E1 & E2 & _ & _ & _ & E6).
    set (pa1 := ProcArrayEndTransactionInternal off L pa) in *. simpl in Hnd. apply NoDup_cons in Hnd as [Hni Hnd].
    assert (forall off' L', (off', L') ∈ members -> off' <> off) as Hne.
    { intros off' L' Hin ->. apply Hni, list_elem_of_fmap. by exists (off, L'). }
    assert (forall i q, i <> off -> procs pa1 !! i = Some q <-> procs pa !! i = Some q) as Hlk.
    { intros i q Hi. rewrite (update_lookup pa pa1 off p _ _ _ (proj1 Hp) E1). intuition. }
    destruct (IH pa1) as (Hok' & En & Hl & HL' & Hruns); [done| |].
    { split; [done|]. intros off' L' Hin. destruct (Hm off' L') as (q & [Hq Hqv] & [HLa HLb]); [by right|].
      exists q. assert (off' <> off) by by eapply Hne. split; [split; [by apply Hlk|done]|].
      split; [unfold Running.assigned in *; by rewrite E2|]. intros x Hx. apply HLb. unfold Running.assigned in *. by rewrite <- E2. }
    split_and!; [done|by rewrite En|lia| |].
    + intros off' L' [[= -> ->]|Hin]%elem_of_cons; [lia|by eapply HL'].
    + intros x. rewrite Hruns, Hruns1. unfold in_members. setoid_rewrite elem_of_cons. split.
      * intros [[Hr Hn] Hn2]. split; [done|]. intros (o & L2 & q & [[= -> ->]|Hin] & Hq & Hrq).
        -- apply Hn. destruct Hp as [Hp _]. congruence.
        -- apply Hn2. exists o, L2, q. split_and!; [done|apply Hlk; [by eapply Hne|done]|done].
      * intros [Hr Hn]. split; [split; [done|]|].
        -- intros Hrp. apply Hn. exists off, L, p. split_and!; [by left|apply Hp|done].
        -- intros (o & L2 & q & Hin & Hq & Hrq). apply Hn. exists o, L2, q.
           split_and!; [by right|apply Hlk; [by eapply Hne|done]|done].
Qed.

(** ** Reusing a snapshot *)

(** The same entries run the same ids. *)
Lemma valid_transfer aborted pa aborted' pa' my snap : pa_ok aborted pa ->
  latest pa' = latest pa -> (forall x, aborted x = true -> aborted' x = true) ->
  (forall x, assigned pa x -> other my 0 (procs pa') (fun p => unflagged p = true /\ runs_in aborted' p x) ->
     other my 0 (procs pa) (fun p => unflagged p = true /\ runs_in aborted p x)) ->
  (forall x, assigned pa x -> runs_elsewhere topmost aborted pa my x ->
     runs_elsewhere topmost aborted' pa' my x \/ aborted' x = true) ->
  snapshot_valid lo topmost aborted pa my snap -> snapshot_valid lo topmost aborted' pa' my snap.
Proof.
  intros Hok El Ha Hd Hu [H1 H2 H3 H4].
  assert (forall x, in_use x -> rank x <= rank (latest pa) -> assigned pa x) as Has.
  { intros x Hx Hl. split; [done|]. destruct (pk_next _ _ _ _ Hok) as (_ & _ & ?). lia. }
  split; [done| |by rewrite El|]; intros x Hx; destruct (decide (rank (latest pa) < rank x)) as [Hl|Hl].
  - intros _. by apply H3.
  - intros Ho. apply H2; [done|]. apply Hd; [apply Has; [done|lia]|done].
  - intros _. left. by rewrite El.
  - intros Hin. destruct (H4 x Hx Hin) as [|[Hr|Hr]]; [lia| |right; right; by apply Ha].
    right. apply Hu; [apply Has; [done|lia]|done].
Qed.

(** The entries are related one by one. *)
Lemma other_transfer my i l l' (P Q : PGPROC -> Prop) :
  (forall k q, (i + k)%nat <> my -> l !! k = Some q -> P q -> exists q', l' !! k = Some q' /\ Q q') ->
  other my i l P -> other my i l' Q.
Proof. intros H (k & q & Hk & Hq & HP). destruct (H k q Hk Hq HP) as (q' & Hq' & HQ). by exists k, q'. Qed.

Lemma valid_entry aborted pa pa' my snap off p p' : pa_ok aborted pa -> procs pa !! off = Some p ->
  procs pa' = <[off := p']> (procs pa) -> latest pa' = latest pa -> statusFlags p' = statusFlags p ->
  (forall x, assigned pa x -> runs_in aborted p' x <-> runs_in aborted p x) ->
  snapshot_valid lo topmost aborted pa my snap -> snapshot_valid lo topmost aborted pa' my snap.
Proof.
  intros Hok Hoff E El Ef Hr. pose proof (fun i q => update_lookup pa pa' off p p' i q Hoff E) as Hlk.
  apply valid_transfer; [done|done|done| |].
  - intros x Hx. apply other_transfer. intros k q Hk Hq [Hqf Hqr].
    apply Hlk in Hq as [[-> ->]|[Hne Hq]]; [exists p|exists q]; split_and!; try done.
    + unfold unflagged in *. by rewrite <- Ef.
    + by apply Hr.
  - intros x Hx Ho. left. revert Ho. apply other_transfer. intros k q Hk Hq Hqr.
    destruct (decide (k = off)) as [->|Hne].
    + exists p'. split; [apply Hlk; by left|]. apply Hr; [done|]. congruence.
    + exists q. split; [apply Hlk; by right|done].
Qed.

(** Steps during which no transaction completes. *)
Definition quiet_step (s s' : (Z -> bool) * ProcArrayStruct) : Prop :=
  pa_step s s' /\ xactCompletionCount (TransamVariables s'.2) = xactCompletionCount (TransamVariables s.2).

Lemma count_bumped n : u64 (n + 1) <> n.
Proof. cint. Qed.

Lemma quiet_step_valid s s' my snap : state_ok s -> quiet_step s s' ->
  snapshot_valid lo topmost s.1 s.2 my snap -> snapshot_valid lo topmost s'.1 s'.2 my snap.
Proof.
  unfold state_ok. intros Hok [Hstep Hc]. destruct Hstep as [aborted pa off p Hoff Hv Ht Hr|aborted pa off p [Hoff Hv] Ht Hr|aborted aborted' pa Ha|
    aborted pa off p L Hp HL|aborted pa off p xid xids L Hp HL Hab|aborted pa off p x Hoff Hx]; cbn [fst snd] in *.
  - destruct (assign_shape false pa off p Hoff Hv Ht) as (E1 & E2 & _ & _ & _ & _ & _ & Ef & _).
    by apply (valid_entry aborted pa _ my snap off p _ Hok Hoff E1 E2 Ef (assign_runs_in aborted false pa off p Hok Hoff Hv Ht)).
  - destruct (assign_shape true pa off p Hoff Hv Ht) as (E1 & E2 & _ & _ & _ & _ & _ & Ef & _).
    by apply (valid_entry aborted pa _ my snap off p _ Hok Hoff E1 E2 Ef (assign_runs_in aborted true pa off p Hok Hoff Hv Ht)).
  - apply valid_transfer; [done..| |].
    + intros x _. apply other_transfer. intros k q _ Hq [Hqf Hqr]. exists q. split_and!; try done. by eapply runs_in_more_aborted.
    + intros x _ (k & q & Hk & Hq & Hv & Hr). destruct (aborted' x) eqn:Ea; [by right|left]. exists k, q. split_and!; try done.
      split; [done|]. destruct Hr as [|[|(? & ? & ? & _)]]; [by left|by right; left|by right; right].
  - exfalso. revert Hc. unfold ProcArrayEndTransactionInternal, MaintainLatestCompletedXid. case_match; apply count_bumped.
  - exfalso. revert Hc. unfold XidCacheRemoveRunningXids, MaintainLatestCompletedXid. case_match; apply count_bumped.
  - unfold set_proc_xmin. rewrite (list_lookup_total_correct _ _ _ Hoff).
    by apply (valid_entry aborted pa _ my snap off p (MkPGPROC (pgprocno p) (pid p) (proc_xid p) x (subxids p)
      (sub_overflowed p) (statusFlags p) (databaseId p)) Hok Hoff).
Qed.
End steps.
