(* ===== verification/Horizons.v ===== *)
(** * Horizons: correctness

    The oldest ids that VACUUM must keep, computed by
    [ProcArray.ComputeXidHorizons], protect every snapshot that a backend
    they are meant for holds or will take. *)

From stdpp Require Import relations.
From S2P Require Import Prelude.
From S2P Require Import Search.
From S2P Require Import TransactionId.
From S2P Require Import Varsup.
From S2P Require Import Snapshot.
From S2P Require Import KnownAssigned.
From S2P Require Import ProcArray.
From S2P Require Import Running.
From S2P Require Import RunningSteps.

Section horizons.
Context (lo : Z) (topmost : Z -> Z) (Htop : topmost_ok lo topmost).

Abbreviation rank := (xid_rank lo).
Abbreviation in_use := (in_use lo).

(** An id that may be missing. *)
Definition opt_in_use (x : Z) : Prop := TransactionIdIsValid x = true -> in_use x.

Lemma older_val a b : in_use a -> opt_in_use b -> in_use (TransactionIdOlder a b) /\
  rank (TransactionIdOlder a b) = if TransactionIdIsValid b then Z.min (rank a) (rank b) else rank a.
Proof.
  intros Ha Hb. destruct (TransactionIdIsValid b) eqn:E; [by apply older_rank; [|apply Hb]|].
  unfold TransactionIdOlder. by rewrite (in_use_valid lo a Ha), E.
Qed.

Lemma older_opt a b : in_use a -> opt_in_use b ->
  in_use (TransactionIdOlder a b) /\ rank (TransactionIdOlder a b) <= rank a /\
  (TransactionIdIsValid b = true -> rank (TransactionIdOlder a b) <= rank b).
Proof.
  intros Ha Hb. destruct (older_val a b Ha Hb) as [H1 H2]. rewrite H2.
  destruct (TransactionIdIsValid b); split_and!; (done || lia).
Qed.

Lemma older_mono a a' b : in_use a -> in_use a' -> opt_in_use b -> rank a <= rank a' ->
  rank (TransactionIdOlder a b) <= rank (TransactionIdOlder a' b).
Proof.
  intros Ha Ha' Hb Hle. destruct (older_val a b Ha Hb) as [_ ->], (older_val a' b Ha' Hb) as [_ ->].
  destruct (TransactionIdIsValid b); lia.
Qed.

Lemma older_both a b : opt_in_use a -> opt_in_use b ->
  opt_in_use (TransactionIdOlder a b) /\
  (TransactionIdIsValid a = true -> TransactionIdIsValid (TransactionIdOlder a b) = true /\ rank (TransactionIdOlder a b) <= rank a) /\
  (TransactionIdIsValid b = true -> TransactionIdIsValid (TransactionIdOlder a b) = true /\ rank (TransactionIdOlder a b) <= rank b).
Proof.
  intros Ha Hb. destruct (TransactionIdIsValid a) eqn:Ea.
  - destruct (older_opt a b (Ha Ea) Hb) as (H1 & H2 & H3).
    split_and!; intros; [by intros _|split; [by eapply in_use_valid|done]|split; [by eapply in_use_valid|by apply H3]].
  - unfold TransactionIdOlder. rewrite Ea. cbn [negb]. split; [done|]. split; [done|]. intros Hv. split; [done|lia].
Qed.

(** ** The loop *)

(** The entries whose snapshots a horizon takes into account. *)
Definition counts_for (kind : GlobalVisHorizonKind) (db : Z) (rec : bool) (p : PGPROC) : bool :=
  unflagged p &&
  match kind with
  | VISHORIZON_SHARED => true
  | VISHORIZON_CATALOG | VISHORIZON_DATA =>
      (databaseId p =? db) || (db =? InvalidOid) || flag_set (statusFlags p) PROC_AFFECTS_ALL_HORIZONS || rec
  | VISHORIZON_TEMP => false
  end.

(** [h] is not after any id that the entry advertises. *)
Definition covers (h : Z) (p : PGPROC) : Prop :=
  (TransactionIdIsValid (proc_xid p) = true -> rank h <= rank (proc_xid p)) /\
  (TransactionIdIsValid (proc_xmin p) = true -> rank h <= rank (proc_xmin p)).

Definition not_after (h' h : Z) : Prop := in_use h' /\ rank h' <= rank h.

Lemma covers_not_after h' h p : not_after h' h -> covers h p -> covers h' p.
Proof. intros [_ H] [H1 H2]. split; intros Hv; [specialize (H1 Hv)|specialize (H2 Hv)]; lia. Qed.

Lemma not_after_trans a b c : not_after a b -> not_after b c -> not_after a c.
Proof. intros [? ?] [? ?]. split; [done|lia]. Qed.

Definition entry_ids (p : PGPROC) : Prop := opt_in_use (proc_xid p) /\ opt_in_use (proc_xmin p).

Lemma horizons_step_spec db rec running shared data p : entry_ids p -> in_use running -> in_use shared -> in_use data ->
  let '(running', shared', data') := horizons_step db rec (running, shared, data) p in
  not_after running' running /\ not_after shared' shared /\ not_after data' data /\
  (rank running <= rank shared <= rank data -> rank running' <= rank shared' <= rank data') /\
  covers running' p /\
  (counts_for VISHORIZON_SHARED db rec p = true -> covers shared' p) /\
  (counts_for VISHORIZON_DATA db rec p = true -> covers data' p).
Proof.
  intros [Hx Hm] Hr Hs Hd. unfold horizons_step. destruct (older_both _ _ Hm Hx) as (Hu & Hm' & Hx').
  set (o := TransactionIdOlder (proc_xmin p) (proc_xid p)) in *.
  assert (forall h, in_use h -> not_after (TransactionIdOlder h o) h /\ covers (TransactionIdOlder h o) p) as Hold.
  { intros h Hh. destruct (older_opt h o Hh Hu) as (H1 & H2 & H3). split; [by split|].
    split; intros Hv; [destruct (Hx' Hv) as [Hov ?]|destruct (Hm' Hv) as [Hov ?]]; specialize (H3 Hov); lia. }
  destruct (TransactionIdIsValid o) eqn:Eo; cbn [negb].
  2:{ assert (covers running p /\ covers shared p /\ covers data p) as (? & ? & ?).
      { split_and!; split; intros Hv; [destruct (Hx' Hv)|destruct (Hm' Hv)|destruct (Hx' Hv)|destruct (Hm' Hv)|destruct (Hx' Hv)|destruct (Hm' Hv)]; congruence. }
      split_and!; try done; split; (done || lia). }
  destruct (Hold running Hr) as [[? ?] ?], (Hold shared Hs) as [[? ?] ?], (Hold data Hd) as [[? ?] ?].
  pose proof (older_mono running shared o Hr Hs Hu) as Hm1. pose proof (older_mono shared data o Hs Hd Hu) as Hm2.
  assert (unflagged p = negb (flag_set (statusFlags p) (Z.lor PROC_IN_VACUUM PROC_IN_LOGICAL_DECODING))) as Ef by done.
  unfold counts_for. rewrite Ef. destruct (flag_set _ (Z.lor PROC_IN_VACUUM PROC_IN_LOGICAL_DECODING)); cbn [negb andb].
  { split_and!; try done; intros; split; (done || lia). }
  destruct (_ || rec); split_and!; try done; intros; split; (done || lia).
Qed.

Lemma horizons_loop_spec db rec l : forall running shared data, (forall p, p ∈ l -> entry_ids p) ->
  in_use running -> in_use shared -> in_use data ->
  let '(running', shared', data') := foldl (horizons_step db rec) (running, shared, data) l in
  not_after running' running /\ not_after shared' shared /\ not_after data' data /\
  (rank running <= rank shared <= rank data -> rank running' <= rank shared' <= rank data') /\
  (forall p, p ∈ l -> covers running' p) /\
  (forall p, p ∈ l -> counts_for VISHORIZON_SHARED db rec p = true -> covers shared' p) /\
  (forall p, p ∈ l -> counts_for VISHORIZON_DATA db rec p = true -> covers data' p).
Proof.
  induction l as [|p l IH]; intros running shared data Hl Hr Hs Hd; cbn [foldl].
  { split_and!; try (split; (done || lia)); intros p Hp; by apply not_elem_of_nil in Hp. }
  pose proof (horizons_step_spec db rec running shared data p (Hl p ltac:(by left)) Hr Hs Hd) as Hstep.
  destruct (horizons_step db rec (running, shared, data) p) as [[r1 s1] d1].
  destruct Hstep as (H1 & H2 & H3 & Hord & H4 & H5 & H6).
  specialize (IH r1 s1 d1 ltac:(intros; apply Hl; by right) (proj1 H1) (proj1 H2) (proj1 H3)).
  destruct (foldl _ _ l) as [[r2 s2] d2]. destruct IH as (I1 & I2 & I3 & Iord & I4 & I5 & I6).
  split_and!; [by eapply not_after_trans..|intros; apply Iord, Hord; done| | |]; intros q [->|Hq]%elem_of_cons; intros; auto;
    eapply covers_not_after; eauto.
Qed.

(** ** The result *)

(** The corrections after the loop, for hot standby and replication slots. *)
Lemma adjust_spec (rec : bool) ka sl ct r s d : in_use r -> in_use s -> in_use d ->
  opt_in_use ka -> opt_in_use sl -> opt_in_use ct -> rank r <= rank s <= rank d ->
  let older x := if rec then TransactionIdOlder x ka else x in
  let s2 := TransactionIdOlder (older s) sl in let d2 := TransactionIdOlder (older d) sl in
  let s3 := TransactionIdOlder s2 ct in let c3 := TransactionIdOlder d2 ct in
  let r4 := TransactionIdOlder (TransactionIdOlder (TransactionIdOlder (older r) s3) c3) d2 in
  not_after r4 r /\ not_after s3 s /\ not_after c3 d /\ not_after d2 d /\
  rank r4 <= rank s3 /\ rank s3 <= rank c3 /\ rank c3 <= rank d2 /\
  (TransactionIdIsValid sl = true -> rank s3 <= rank sl) /\ (TransactionIdIsValid ct = true -> rank s3 <= rank ct).
Proof.
  intros Hr Hs Hd Hka Hsl Hct Hord older s2 d2 s3 c3 r4.
  assert (forall x, in_use x -> in_use (older x) /\ rank (older x) <= rank x) as Hold.
  { intros x Hx. unfold older. destruct rec; [|by split]. by destruct (older_opt x ka Hx Hka) as (? & ? & _). }
  assert (rank (older s) <= rank (older d)) as Hsd by (unfold older; destruct rec; [apply older_mono|]; (done || lia)).
  destruct (Hold r Hr) as [Ur Er], (Hold s Hs) as [Us Es], (Hold d Hd) as [Ud Ed].
  destruct (older_val _ sl Us Hsl) as [Us2 Es2], (older_val _ sl Ud Hsl) as [Ud2 Ed2]. fold s2 d2 in Us2, Es2, Ud2, Ed2.
  destruct (older_val _ ct Us2 Hct) as [Us3 Es3], (older_val _ ct Ud2 Hct) as [Uc3 Ec3]. fold s3 c3 in Us3, Es3, Uc3, Ec3.
  destruct (older_rank lo _ _ Ur Us3) as [U1 E1]. destruct (older_rank lo _ _ U1 Uc3) as [U2 E2].
  destruct (older_rank lo _ _ U2 Ud2) as [U3 E3]. fold r4 in U3, E3. clearbody r4 s3 c3 d2 s2.
  unfold not_after. destruct (TransactionIdIsValid sl), (TransactionIdIsValid ct); split_and!; try done; intros; try done; lia.
Qed.

Section result.
Context (aborted : Z -> bool) (pa : ProcArrayStruct) (be : BackendState).
Context (Hok : pa_ok lo topmost aborted pa).
Context (Hslot : opt_in_use (replication_slot_xmin pa)) (Hcat : opt_in_use (replication_slot_catalog_xmin pa)).
Context (Hka : ka_ok lo (knownAssigned pa)).

Abbreviation h := (ComputeXidHorizons_result pa be).

Lemma oldest_known : opt_in_use (KnownAssignedXidsGetOldestXmin (knownAssigned pa)).
Proof.
  rewrite (oldest_spec lo _ Hka). pose proof (known_ascending lo _ Hka) as Hs.
  destruct (KnownAssignedXids (knownAssigned pa)); [done|]. intros _. by apply ascending_cons in Hs as (? & _).
Qed.

Lemma entries_ids p : p ∈ procs pa -> entry_ids p.
Proof.
  intros Hp. destruct (pk_procs _ _ _ _ Hok p Hp) as [H1 _ _ _ _ H6]. split; [|done]. intros Hv. by apply H1.
Qed.

(** The horizon of a kind covers the entries it counts, and the wider
    horizons are no later than the narrower ones. *)
Lemma horizons_spec :
  (forall p, p ∈ procs pa -> covers (oldest_considered_running h) p) /\
  (forall p, p ∈ procs pa -> counts_for VISHORIZON_SHARED (MyDatabaseId be) (RecoveryInProgress pa) p = true ->
     covers (shared_oldest_nonremovable h) p) /\
  (forall p, p ∈ procs pa -> counts_for VISHORIZON_DATA (MyDatabaseId be) (RecoveryInProgress pa) p = true ->
     covers (data_oldest_nonremovable h) p /\ covers (catalog_oldest_nonremovable h) p) /\
  (in_use (oldest_considered_running h) /\ in_use (shared_oldest_nonremovable h) /\
   in_use (catalog_oldest_nonremovable h) /\ in_use (data_oldest_nonremovable h)) /\
  rank (oldest_considered_running h) <= rank (shared_oldest_nonremovable h) /\
  rank (shared_oldest_nonremovable h) <= rank (catalog_oldest_nonremovable h) /\
  rank (catalog_oldest_nonremovable h) <= rank (data_oldest_nonremovable h) /\
  rank (data_oldest_nonremovable h) <= rank (snapshot_xmax pa) /\
  (TransactionIdIsValid (replication_slot_xmin pa) = true ->
     rank (shared_oldest_nonremovable h) <= rank (replication_slot_xmin pa)) /\
  (TransactionIdIsValid (replication_slot_catalog_xmin pa) = true ->
     rank (shared_oldest_nonremovable h) <= rank (replication_slot_catalog_xmin pa)).
Proof.
  pose proof (pk_latest _ _ _ _ Hok) as [_ Hl]. pose proof (pk_next _ _ _ _ Hok) as (_ & _ & Hn).
  assert (in_use (snapshot_xmax pa)) as Hi by (apply (advance_rank lo (latest pa) (latest pa)); (done || lia)).
  unfold ComputeXidHorizons_result. fold (snapshot_xmax pa). set (initial := snapshot_xmax pa) in *.
  pose proof (horizons_loop_spec (MyDatabaseId be) (RecoveryInProgress pa) (procs pa) initial initial initial
    entries_ids Hi Hi Hi) as Hloop.
  destruct (foldl _ _ _) as [[r s] d]. destruct Hloop as (H1 & H2 & H3 & Hord & H4 & H5 & H6).
  pose proof (adjust_spec (RecoveryInProgress pa) _ _ _ r s d (proj1 H1) (proj1 H2) (proj1 H3) oldest_known Hslot Hcat
    (Hord ltac:(lia))) as Hadj. cbv zeta in Hadj.
  destruct Hadj as (A1 & A2 & A3 & A4 & A5 & A6 & A7 & A8 & A9). destruct H3 as [_ H3].
  cbn [oldest_considered_running shared_oldest_nonremovable data_oldest_nonremovable catalog_oldest_nonremovable].
  split_and!; try (done || apply A1 || apply A2 || apply A3 || apply A4).
  - intros p Hp. eapply covers_not_after; [exact A1|auto].
  - intros p Hp Hc. eapply covers_not_after; [exact A2|auto].
  - intros p Hp Hc. split; [eapply covers_not_after; [exact A4|auto]|eapply covers_not_after; [exact A3|auto]].
  - etrans; [apply A4|done].
Qed.
End result.
End horizons.
