(* ===== verification/SnapshotTheorems.v ===== *)
(** * Snapshots and running transactions: the guarantees

    The theorems about [ProcArray]'s operations, from the lemmas of [Running],
    [RunningSteps] and [Horizons], each with an array on which it applies. *)

From stdpp Require Import relations.
From S2P Require Import Prelude.
From S2P Require Import Search.
From S2P Require Import TransactionId.
From S2P Require Import Varsup.
From S2P Require Import Snapshot.
From S2P Require Import KnownAssigned.
From S2P Require Import ProcArray.
From S2P Require Import Running.
From S2P Require Import RunningSteps.
From S2P Require Import Horizons.

Section theorems.
Context (lo : Z) (topmost : Z -> Z).

Abbreviation rank := (xid_rank lo).
Abbreviation in_use := (in_use lo).
Abbreviation pa_ok := (pa_ok lo topmost).
Abbreviation assigned := (assigned lo).
Abbreviation runs := (runs topmost).
Abbreviation runs_in := (runs_in topmost).
Abbreviation finished := (finished lo topmost).
Abbreviation snapshot_valid := (snapshot_valid lo topmost).
Abbreviation state_ok := (state_ok lo topmost).
Abbreviation pa_step := (pa_step lo topmost).

(** ** Along an execution *)

Lemma steps_ok s s' : topmost_ok lo topmost -> state_ok s -> rtc pa_step s s' -> state_ok s'.
Proof. intros Ht Hok. induction 1 as [|s1 s2 s3 Hs _ IH]; [done|]. apply IH. by eapply step_ok. Qed.

Lemma finished_steps s s' x : topmost_ok lo topmost -> state_ok s -> rtc pa_step s s' ->
  finished s.1 s.2 x -> finished s'.1 s'.2 x.
Proof.
  intros Ht Hok Hs. revert Hok. induction Hs as [|s1 s2 s3 Hs _ IH]; [done|]. intros Hok Hx.
  apply IH; [by eapply step_ok|by eapply finished_step].
Qed.

Lemma quiet_steps_valid s s' my snap : topmost_ok lo topmost -> state_ok s -> rtc (quiet_step lo topmost) s s' ->
  snapshot_valid s.1 s.2 my snap -> snapshot_valid s'.1 s'.2 my snap.
Proof.
  intros Ht Hok Hs. revert Hok. induction Hs as [|s1 s2 s3 Hs _ IH]; [done|]. intros Hok Hv.
  apply IH; [eapply step_ok; [done|exact Hok|apply Hs]|by eapply quiet_step_valid].
Qed.

Lemma quiet_count s s' : rtc (quiet_step lo topmost) s s' ->
  xactCompletionCount (TransamVariables s'.2) = xactCompletionCount (TransamVariables s.2).
Proof. induction 1 as [|s1 s2 s3 [_ Hc] _ IH]; [done|congruence]. Qed.

(** An id that a snapshot leaves out has finished, unless it belongs to the
    taker or to an entry that snapshots ignore. *)
Lemma unlisted_finished aborted pa my snap x : pa_ok aborted pa -> snapshot_valid aborted pa my snap -> in_use x ->
  XidInMVCCSnapshot topmost x snap = false ->
  (forall k p, procs pa !! k = Some p -> runs_in aborted p x -> k <> my /\ unflagged p = true) ->
  finished aborted pa x.
Proof.
  intros Hok [_ Hrun Hfut _] Hx Hout Hmine.
  assert (rank x <= rank (latest pa)) as Hl.
  { destruct (decide (rank (latest pa) < rank x)) as [Hl|]; [|lia]. rewrite (Hfut x Hx Hl) in Hout. done. }
  split_and!; [split; [done|]|done|].
  - destruct (pk_next _ _ _ _ Hok) as (_ & _ & ?). lia.
  - intros (p & [k Hk]%list_elem_of_lookup & Hr). destruct (Hmine k p Hk Hr) as [Hne Hf].
    rewrite Hrun in Hout; [done|done|]. by exists k, p.
Qed.

(** ** Taking a snapshot *)

(** What makes reuse of the snapshot kept from the last call sound. *)
Definition reusable (aborted : Z -> bool) (pa : ProcArrayStruct) (my : nat) (snap : SnapshotData) : Prop :=
  snapXactCompletionCount snap <> 0 -> xactCompletionCount (TransamVariables pa) = snapXactCompletionCount snap ->
  snapshot_valid aborted pa my snap.

Lemma valid_curcid aborted pa my snap cid : snapshot_valid aborted pa my snap ->
  snapshot_valid aborted pa my (set_snap_curcid snap cid).
Proof. intros [H1 H2 H3 H4]. by split. Qed.

Lemma get_snapshot_valid aborted pa be old cid : topmost_ok lo topmost -> pa_ok aborted pa ->
  RecoveryInProgress pa = false -> (exists p, procs pa !! my_pgxactoff be = Some p) ->
  reusable aborted pa (my_pgxactoff be) old ->
  let r := GetSnapshotData cid old pa be in
  snapshot_valid aborted pa (my_pgxactoff be) r.1 /\ curcid r.1 = cid /\
  xactCompletionCount (TransamVariables pa) = snapXactCompletionCount r.1 /\ RecentXmin r.2.2 = snap_xmin r.1 /\
  r.2.1 = (install_xmin (snap_xmin r.1) pa be).1.
Proof.
  intros Ht Hok Hrec Hmy Hold. unfold GetSnapshotData, GetSnapshotDataReuse.
  destruct (Z.eqb_spec (snapXactCompletionCount old) 0) as [|Hnz];
    [|destruct (Z.eqb_spec (xactCompletionCount (TransamVariables pa)) (snapXactCompletionCount old)) as [E|]; cbn [negb]].
  2:{ split_and!; try done. apply valid_curcid. by apply Hold. }
  all: rewrite Hrec; cbn; split_and!; try done; by apply fresh_snapshot_valid.
Qed.

Lemma install_xmin_steps aborted pa be x : (exists p, procs pa !! my_pgxactoff be = Some p) -> in_use x ->
  rtc (quiet_step lo topmost) (aborted, pa) (aborted, (install_xmin x pa be).1).
Proof.
  intros [p Hp] Hx. unfold install_xmin. cbn [fst]. case_match; [|done].
  apply rtc_once. split; [by eapply step_xmin|done].
Qed.

(** C6. [GetSnapshotData], whether it scans the array or reuses the snapshot
    kept from the previous call, returns a snapshot that tells the truth about
    every id in use as of this moment: what another backend runs (its main id,
    its cached children and the children dropped on overflow), and everything
    not yet assigned or completed, is in it; what is in it is of that kind or
    an aborted subtransaction.  The array stays well formed, runs the same
    transactions, and the snapshot may be reused from here on. *)
Theorem snapshot_exact aborted pa be old cid : topmost_ok lo topmost -> pa_ok aborted pa ->
  RecoveryInProgress pa = false -> (exists p, procs pa !! my_pgxactoff be = Some p) ->
  reusable aborted pa (my_pgxactoff be) old ->
  let '(snap, (pa', be')) := GetSnapshotData cid old pa be in
  snapshot_valid aborted pa (my_pgxactoff be) snap /\ curcid snap = cid /\ RecentXmin be' = snap_xmin snap /\
  pa_ok aborted pa' /\ (forall x, runs aborted pa' x <-> runs aborted pa x) /\
  reusable aborted pa' (my_pgxactoff be) snap /\
  (forall p, procs pa !! my_pgxactoff be = Some p -> proc_xmin p = InvalidTransactionId ->
     proc_xmin (procs pa' !!! my_pgxactoff be) = snap_xmin snap).
Proof.
  intros Ht Hok Hrec Hmy Hold. pose proof (get_snapshot_valid aborted pa be old cid Ht Hok Hrec Hmy Hold) as H.
  destruct (GetSnapshotData cid old pa be) as [snap [pa' be']]. cbn [fst snd] in H.
  destruct H as (Hv & Hc & Hn & Hr & Epa). pose proof (sv_use _ _ _ _ _ _ Hv) as (Hu & _).
  pose proof (install_xmin_steps aborted pa be (snap_xmin snap) Hmy Hu) as Hs. rewrite <- Epa in Hs.
  split_and!; [done..| | | |].
  - refine (steps_ok (aborted, pa) (aborted, pa') Ht Hok _). eapply rtc_subrel; [|exact Hs]. by intros ?? [? _].
  - intros x. rewrite Epa. unfold install_xmin. cbn [fst]. destruct Hmy as [p Hp]. case_match; [|done].
    by apply (xmin_ok lo topmost aborted pa _ p).
  - intros _ _. by apply (quiet_steps_valid (aborted, pa) (aborted, pa')).
  - intros p Hp E. rewrite Epa. unfold install_xmin, set_proc_xmin. rewrite (list_lookup_total_correct _ _ _ Hp), E. simpl.
    by rewrite list_lookup_total_insert_eq by by eapply lookup_lt_Some.
Qed.

(** A snapshot kept over any number of steps in which no transaction
    completed (ids may have been assigned, aborts recorded, xmins set) and
    handed out again by [GetSnapshotData] is as good as one taken now. *)
Theorem snapshot_reuse_sound s s' be be' old cid cid' : topmost_ok lo topmost -> state_ok s ->
  RecoveryInProgress s.2 = false -> (exists p, procs s.2 !! my_pgxactoff be = Some p) ->
  snapXactCompletionCount old = 0 -> my_pgxactoff be' = my_pgxactoff be ->
  let '(snap, (pa1, _)) := GetSnapshotData cid old s.2 be in
  rtc (quiet_step lo topmost) (s.1, pa1) s' ->
  snapXactCompletionCount snap <> 0 ->
  let snap' := (GetSnapshotData cid' snap s'.2 be').1 in
  snap' = set_snap_curcid snap cid' /\ snapshot_valid s'.1 s'.2 (my_pgxactoff be') snap'.
Proof.
  intros Ht Hok Hrec Hmy Hnew Eoff. destruct s as [aborted pa]. cbn [fst snd] in *. unfold RunningSteps.state_ok in Hok. cbn [fst snd] in Hok.
  assert (reusable aborted pa (my_pgxactoff be) old) as Hold by (intros ?; congruence).
  pose proof (get_snapshot_valid aborted pa be old cid Ht Hok Hrec Hmy Hold) as H.
  destruct (GetSnapshotData cid old pa be) as [snap [pa' be1]]. cbn [fst snd] in H.
  destruct H as (Hv & _ & En & _ & Epa). pose proof (sv_use _ _ _ _ _ _ Hv) as (Hu & _).
  pose proof (install_xmin_steps aborted pa be (snap_xmin snap) Hmy Hu) as Hs. rewrite <- Epa in Hs.
  intros Hs' Hnz. assert (rtc (quiet_step lo topmost) (aborted, pa) s') as Hq by by etrans.
  pose proof (quiet_count _ _ Hq) as Ec. cbn [snd] in Ec. rewrite En in Ec. unfold GetSnapshotData, GetSnapshotDataReuse.
  rewrite (proj2 (Z.eqb_neq _ _) Hnz), (proj2 (Z.eqb_eq _ _) Ec). cbn [negb fst]. split; [done|].
  apply valid_curcid. rewrite Eoff. eapply (quiet_steps_valid (aborted, pa) s'); [done..|done].
Qed.

(** C12. What a snapshot treats as finished stays finished: an id that a
    snapshot taken now leaves out, and that is neither the taker's own nor
    run by an entry that snapshots ignore, is not running after any sequence
    of assignments, commits, aborts and subtransaction aborts, by any
    backends. *)
Theorem snapshot_final s s' be old cid x : topmost_ok lo topmost -> state_ok s -> RecoveryInProgress s.2 = false ->
  (exists p, procs s.2 !! my_pgxactoff be = Some p) -> reusable s.1 s.2 (my_pgxactoff be) old ->
  in_use x -> XidInMVCCSnapshot topmost x (GetSnapshotData cid old s.2 be).1 = false ->
  (forall k p, procs s.2 !! k = Some p -> runs_in s.1 p x -> k <> my_pgxactoff be /\ unflagged p = true) ->
  rtc pa_step s s' -> state_ok s' /\ rank x <= rank (latest s'.2) /\ ~ runs s'.1 s'.2 x.
Proof.
  intros Ht Hok Hrec Hmy Hold Hx Hout Hmine Hs. split; [by eapply steps_ok|].
  pose proof (get_snapshot_valid s.1 s.2 be old cid Ht Hok Hrec Hmy Hold) as (Hv & _).
  pose proof (unlisted_finished _ _ _ _ _ Hok Hv Hx Hout Hmine) as Hf.
  by apply (finished_steps s s' x Ht Hok Hs) in Hf as (_ & ? & ?).
Qed.

(** ** Is it running? *)

(** C27. [TransactionIdIsInProgress] is exact for every id that has been
    assigned and not recorded as aborted: it is running precisely if it
    belongs to this backend or to the transaction tree of another entry,
    including children that the other entry's cache had no room for.  Its two
    shortcuts (older than RecentXmin, same id as last time) are still truthful
    after the call. *)
Theorem in_progress_exact is_current aborted pa be x : topmost_ok lo topmost -> pa_ok aborted pa ->
  backend_ok lo topmost is_current aborted pa be -> RecoveryInProgress pa = false ->
  assigned pa x -> aborted x = false ->
  (forall p, procs pa !! my_pgxactoff be = Some p -> runs_in aborted p x -> is_current x = true) ->
  let r := TransactionIdIsInProgress is_current aborted topmost pa be x in
  (r.1 = true <-> is_current x = true \/ runs_elsewhere topmost aborted pa (my_pgxactoff be) x) /\
  backend_ok lo topmost is_current aborted pa r.2.
Proof.
  intros Ht Hok Hbe Hrec Hx Ha Hown. pose proof (in_progress_spec lo topmost is_current aborted Ht pa be x Hok Hbe Hrec (proj1 Hx)) as [H1 H2].
  split; [|done]. rewrite H1. unfold considered_running. split; [|tauto].
  intros [|[Hl|]]; [by left| |by right].
  destruct (pk_completed _ _ _ _ Hok x Hx Hl) as [(p & [k Hk]%list_elem_of_lookup & Hr)|]; [|congruence].
  destruct (decide (k = my_pgxactoff be)) as [->|Hne]; [left; by eapply Hown|right]. by exists k, p.
Qed.

(** ** Ending transactions *)

(** The entries that a call clears. *)
Definition ending (lock_free : bool) (followers : list (nat * Z)) (off : nat) (L : Z) : list (nat * Z) :=
  if TransactionIdIsValid L then (if lock_free then [(off, L)] else followers ++ [(off, L)]) else [].

(** [ProcArrayEndTransaction] ends exactly the transactions it is asked
    to end: alone or on behalf of a group whose members queued up behind it,
    afterwards the array runs what it ran before minus the trees of those
    entries, all of which are finished, and it is still well formed. *)
Theorem end_transaction_exact aborted pa lock_free followers off p L : topmost_ok lo topmost -> pa_ok aborted pa ->
  procs pa !! off = Some p -> members_ok lo topmost aborted pa (ending lock_free followers off L) ->
  let pa' := ProcArrayEndTransaction lock_free followers off L pa in
  pa_ok aborted pa' /\
  (forall x, runs aborted pa' x <-> runs aborted pa x /\ ~ in_members topmost aborted pa (ending lock_free followers off L) x) /\
  (forall x, assigned pa x -> in_members topmost aborted pa (ending lock_free followers off L) x -> finished aborted pa' x).
Proof.
  intros Ht Hok Hp Hm. unfold ProcArrayEndTransaction, ending in *. destruct (TransactionIdIsValid L) eqn:EL.
  2:{ rewrite (list_lookup_total_correct _ _ _ Hp). cbn zeta.
      match goal with |- context [<[off := ?q]> _] => destruct (metadata_ok lo topmost aborted pa off p q) as [Hok' Hr] end; try done.
      split_and!; [done| |by intros x _ (? & ? & ? & ?%not_elem_of_nil & _)].
      intros x. rewrite Hr. split; [|tauto]. split; [done|]. by intros (? & ? & ? & ?%not_elem_of_nil & _). }
  set (members := if lock_free then _ else _) in *.
  assert ((if lock_free then ProcArrayEndTransactionInternal off L pa else ProcArrayGroupClearXid (followers ++ [(off, L)]) pa)
    = ProcArrayGroupClearXid members pa) as -> by (unfold members; by destruct lock_free).
  destruct (group_clear_spec lo topmost aborted members pa Hok Hm) as (Hok' & En & Hl & HL & Hr).
  cbn zeta. split_and!; [done..|]. intros x Hx Hin.
  split_and!; [unfold Running.assigned; by rewrite En| |rewrite Hr; tauto].
  destruct Hin as (o & L' & q & Ho & Hq & Hrq). destruct (proj2 Hm o L' Ho) as (q' & [Hq' _] & [_ HL']).
  specialize (HL o L' Ho). replace q' with q in * by congruence. specialize (HL' x Hx Hrq). lia.
Qed.

(** ** Horizons *)

(** C10. The removal horizon protects every reader it is meant for.  Below the
    value of [GetOldestNonRemovableTransactionId] for shared, catalog or
    ordinary tables, no entry that counts for the horizon runs any id; no
    snapshot of such an entry, with an xmin at or after the one it advertises,
    contains one; and an id that nobody runs now is, from here on, missing
    from every valid snapshot of every backend unless it aborted. *)
Theorem horizon_protects s s' kind be x : topmost_ok lo topmost -> state_ok s -> kind <> VISHORIZON_TEMP ->
  opt_in_use lo (replication_slot_xmin s.2) -> opt_in_use lo (replication_slot_catalog_xmin s.2) ->
  ka_ok lo (knownAssigned s.2) -> in_use x ->
  rank x < rank (GetOldestNonRemovableTransactionId kind s.2 be).1 ->
  (forall p, p ∈ procs s.2 -> counts_for kind (MyDatabaseId be) (RecoveryInProgress s.2) p = true ->
     ~ runs_in s.1 p x /\
     (TransactionIdIsValid (proc_xmin p) = true -> forall snap, in_use (snap_xmin snap) ->
        rank (proc_xmin p) <= rank (snap_xmin snap) -> XidInMVCCSnapshot topmost x snap = false)) /\
  (~ runs s.1 s.2 x -> rtc pa_step s s' -> forall my snap, snapshot_valid s'.1 s'.2 my snap ->
     XidInMVCCSnapshot topmost x snap = true -> s'.1 x = true).
Proof.
  intros Ht Hok Hk Hs1 Hs2 Hka Hx Hlt. pose proof (horizons_spec lo topmost s.1 s.2 be Hok Hs1 Hs2 Hka) as H.
  pose proof (pk_latest _ _ _ _ Hok) as [_ Hl]. pose proof (pk_next _ _ _ _ Hok) as (_ & _ & Hn).
  unfold GetOldestNonRemovableTransactionId, ComputeXidHorizons in Hlt. cbn [fst] in Hlt.
  set (h := match kind with VISHORIZON_SHARED => _ | _ => _ end) in Hlt.
  destruct H as (_ & H1 & H2 & _ & _ & H3 & H4 & H5 & _).
  assert (rank h <= rank (snapshot_xmax s.2)) as Hh by (unfold h; destruct kind; (done || lia)).
  split.
  - intros p Hp Hc. assert (covers lo h p) as [Hcx Hcm].
    { unfold h. destruct kind; [by apply H1|apply H2; [done|exact Hc]|by apply H2|done]. }
    split.
    + intros Hr. pose proof (runs_in_rank _ _ _ _ _ _ Ht (pk_procs _ _ _ _ Hok p Hp) Hx Hr). specialize (Hcx (proj1 Hr)). lia.
    + intros Hv snap Hu Hle. specialize (Hcm Hv). apply (snapshot_below_xmin lo); [done|done|lia].
  - intros Hnr Hs my snap Hval Hin.
    assert (rank x <= rank (latest s.2)) as Hxl by (apply (advance_rank lo (latest s.2) x Hl); [lia|done|unfold snapshot_xmax, latest in *; lia]).
    assert (finished s.1 s.2 x) as Hf by (split_and!; [split; [done|lia]|done|done]).
    apply (finished_steps s s' x Ht Hok Hs) in Hf as (_ & Hxl' & Hnr').
    destruct (sv_done _ _ _ _ _ _ Hval x Hx Hin) as [|[(k & p & _ & Hp & Hr)|]]; [lia| |done].
    exfalso. apply Hnr'. exists p. split; [by eapply list_elem_of_lookup_2|done].
Qed.

(** The order that [ComputeXidHorizons] asserts of its results always
    holds: nothing considered running is older than any horizon, shared tables
    keep at least as much as catalogs, catalogs as much as ordinary tables,
    and the replication slots are respected. *)
Theorem horizons_ordered aborted pa be : pa_ok aborted pa -> (exists p, procs pa !! my_pgxactoff be = Some p) ->
  opt_in_use lo (replication_slot_xmin pa) -> opt_in_use lo (replication_slot_catalog_xmin pa) ->
  ka_ok lo (knownAssigned pa) ->
  let h := (ComputeXidHorizons pa be).1 in
  TransactionIdPrecedesOrEquals (oldest_considered_running h) (shared_oldest_nonremovable h) = true /\
  TransactionIdPrecedesOrEquals (shared_oldest_nonremovable h) (catalog_oldest_nonremovable h) = true /\
  TransactionIdPrecedesOrEquals (shared_oldest_nonremovable h) (data_oldest_nonremovable h) = true /\
  TransactionIdPrecedesOrEquals (catalog_oldest_nonremovable h) (data_oldest_nonremovable h) = true /\
  TransactionIdPrecedesOrEquals (oldest_considered_running h) (temp_oldest_nonremovable h) = true /\
  (TransactionIdIsValid (slot_xmin h) = true ->
     TransactionIdPrecedesOrEquals (oldest_considered_running h) (slot_xmin h) = true) /\
  (TransactionIdIsValid (slot_catalog_xmin h) = true ->
     TransactionIdPrecedesOrEquals (oldest_considered_running h) (slot_catalog_xmin h) = true).
Proof.
  intros Hok [p Hp] Hs1 Hs2 Hka h. pose proof (horizons_spec lo topmost aborted pa be Hok Hs1 Hs2 Hka) as H.
  change (ComputeXidHorizons_result pa be) with h in H.
  destruct H as (Hcov & _ & _ & (U1 & U2 & U3 & U4) & O1 & O2 & O3 & O4 & O5 & O6).
  assert (forall a b, in_use a -> in_use b -> rank a <= rank b -> TransactionIdPrecedesOrEquals a b = true) as Hle.
  { intros a b Ha Hb Hr. rewrite (precedes_eq_rank lo) by done. by apply Z.leb_le. }
  assert (slot_xmin h = replication_slot_xmin pa /\ slot_catalog_xmin h = replication_slot_catalog_xmin pa /\
    temp_oldest_nonremovable h = if TransactionIdIsValid (proc_xid p) then proc_xid p else snapshot_xmax pa) as (E1 & E2 & E3).
  { unfold h, ComputeXidHorizons, ComputeXidHorizons_result. rewrite (list_lookup_total_correct _ _ _ Hp).
    by destruct (foldl _ _ _) as [[? ?] ?]. }
  pose proof (pk_latest _ _ _ _ Hok) as [_ Hl]. pose proof (pk_next _ _ _ _ Hok) as (_ & _ & Hn).
  pose proof (list_elem_of_lookup_2 _ _ _ Hp) as Hin.
  split_and!; try (apply Hle; (done || lia)).
  - rewrite E3. destruct (TransactionIdIsValid (proc_xid p)) eqn:Ev.
    + apply Hle; [done|by apply (pk_procs _ _ _ _ Hok p Hin)|by apply (Hcov p Hin)].
    + apply Hle; [done|apply (advance_rank lo (latest pa) (latest pa)); (done || lia)|lia].
  - rewrite E1. intros Hv. apply Hle; [done|by apply Hs1|specialize (O5 Hv); lia].
  - rewrite E2. intros Hv. apply Hle; [done|by apply Hs2|specialize (O6 Hv); lia].
Qed.
End theorems.

(** ** An array on which they apply

    Id 10 runs with its child 12, id 14 runs, 11, 13 and 15 have completed,
    and entry 0 is a backend about to take its snapshot. *)

Definition demo_top (x : Z) : Z := if x =? 12 then 10 else x.
Definition demo_tv : TransamVariablesData :=
  MkTransamVariables 20000 0 (MkFullTransactionId 16) 3 0 0 0 0 0 (MkFullTransactionId 15) 7 3.
Definition demo_pa : ProcArrayStruct :=
  MkProcArray [MkPGPROC 0 100 0 0 [] false 0 5; MkPGPROC 1 101 10 10 [12] false 0 5; MkPGPROC 2 102 14 0 [] false 0 5]
    8 (init_known []) 0 0 0 demo_tv false.
Definition demo_vis : GlobalVisState := MkGlobalVisState (MkFullTransactionId 3) (MkFullTransactionId 3).
Definition demo_be : BackendState := MkBackend 0 5 3 3 0 0 demo_vis demo_vis demo_vis demo_vis.
Definition demo_old : SnapshotData := MkSnapshot SNAPSHOT_MVCC 0 0 [] [] false false 0 0 VISHORIZON_DATA 0.
Definition no_aborts : Z -> bool := fun _ => false.

Lemma demo_in_use x : 3 <= x < 100 -> in_use 3 x.
Proof. intros Hx. unfold in_use, TransactionIdIsNormal, FirstNormalTransactionId, xid_rank. split_and!; cint. Qed.

Lemma demo_topmost_ok : topmost_ok 3 demo_top.
Proof.
  split; intros x Hx; unfold demo_top; destruct (Z.eqb_spec x 12) as [->|]; try done; try lia.
Qed.

Lemma demo_rank x : 3 <= x < 100 -> xid_rank 3 x = x - 3.
Proof. unfold xid_rank. cint. Qed.

Lemma rank_lt_bound x : in_use 3 x -> xid_rank 3 x < 13 -> 3 <= x < 16.
Proof. unfold in_use, TransactionIdIsNormal, FirstNormalTransactionId, xid_rank. cint. Qed.

Lemma demo_procs_ok p : p ∈ procs demo_pa -> proc_ok 3 demo_top no_aborts 13 p.
Proof.
  intros [->|[->|[->|[]%elem_of_nil]%elem_of_cons]%elem_of_cons]%elem_of_cons; split; simpl; try done.
  all: try (intros s Hs; apply list_elem_of_singleton in Hs as ->; split_and!; (done || by apply demo_in_use)).
  all: try (by intros s ?%not_elem_of_nil).
  all: try (apply NoDup_nil_2 || apply NoDup_singleton).
  all: try (intros _; split_and!; (done || by apply demo_in_use)).
  all: try (intros _; by apply demo_in_use).
  all: intros _ _ x Hx Hr Ht Hne _; unfold demo_top in *; destruct (Z.eqb_spec x 12) as [->|]; try done; by left.
Qed.

Lemma demo_pa_ok : pa_ok 3 demo_top no_aborts demo_pa.
Proof.
  split.
  - split; [split; [done|by vm_compute]|by apply demo_in_use].
  - split_and!; [split; [done|by vm_compute]|by apply demo_in_use|by vm_compute|by vm_compute].
  - apply demo_procs_ok.
  - intros i j p q Hi Hj Hv E. 
    destruct i as [|[|[|i]]], j as [|[|[|j]]]; simpl in Hi, Hj; simplify_eq; try done.
  - intros x [Hx Hr] Hl. change (xid_rank 3 (next demo_pa)) with 13 in Hr.
    change (xid_rank 3 (latest demo_pa)) with 12 in Hl. pose proof (rank_lt_bound x Hx Hr). rewrite demo_rank in Hl by lia. lia.
Qed.

Lemma demo_my_entry : exists p, procs demo_pa !! my_pgxactoff demo_be = Some p.
Proof. by eexists. Qed.

Lemma demo_old_reusable : reusable 3 demo_top no_aborts demo_pa 0 demo_old.
Proof. by intros []. Qed.

Lemma demo_entries_of x k p : procs demo_pa !! k = Some p -> x = 13 -> ~ runs_in demo_top no_aborts p x.
Proof.
  intros Hk -> (Hv & Hr). destruct k as [|[|[|k]]]; simpl in Hk; simplify_eq; simpl in Hr; try done.
  - destruct Hr as [|[?%list_elem_of_singleton|(? & _)]]; done.
  - destruct Hr as [|[?%not_elem_of_nil|(? & _)]]; done.
Qed.

Lemma snapshot_exact_witness :
  let '(snap, _) := GetSnapshotData 1 demo_old demo_pa demo_be in
  xip snap = [10; 14] /\ subxip snap = [12] /\ snap_xmin snap = 10 /\ snap_xmax snap = 16 /\
  snapshot_valid 3 demo_top no_aborts demo_pa 0 snap.
Proof.
  pose proof (snapshot_exact 3 demo_top no_aborts demo_pa demo_be demo_old 1 demo_topmost_ok demo_pa_ok eq_refl
    demo_my_entry demo_old_reusable) as H.
  destruct (GetSnapshotData 1 demo_old demo_pa demo_be) as [snap [pa' be']] eqn:E.
  vm_compute in E. injection E as <- _ _. split_and!; try done. apply H.
Defined.

Definition demo_state : (Z -> bool) * ProcArrayStruct := (no_aborts, demo_pa).
Definition demo_taken : SnapshotData * (ProcArrayStruct * BackendState) := GetSnapshotData 1 demo_old demo_pa demo_be.

(** After the snapshot the same backend gets id 16. *)
Lemma demo_quiet : quiet_step 3 demo_top (no_aborts, demo_taken.2.1)
  (no_aborts, advertise_xid false 0 16 demo_taken.2.1).
Proof.
  split; [|done]. change 16 with (next demo_taken.2.1). eapply step_assign_top; [done..|].
  split; [by vm_compute|by vm_compute].
Qed.

Lemma snapshot_reuse_sound_witness :
  let snap := (GetSnapshotData 2 demo_taken.1 (advertise_xid false 0 16 demo_taken.2.1) demo_be).1 in
  xip snap = [10; 14] /\ curcid snap = 2 /\
  snapshot_valid 3 demo_top no_aborts (advertise_xid false 0 16 demo_taken.2.1) 0 snap.
Proof.
  pose proof (snapshot_reuse_sound 3 demo_top demo_state (no_aborts, advertise_xid false 0 16 demo_taken.2.1)
    demo_be demo_be demo_old 1 2 demo_topmost_ok demo_pa_ok eq_refl demo_my_entry eq_refl eq_refl) as H.
  split_and!; [by vm_compute|by vm_compute|].
  apply H; [|done]. apply rtc_once, demo_quiet.
Defined.

Lemma demo_latest_of off p L : procs demo_pa !! off = Some p -> (off = 1%nat /\ L = 12) \/ (off = 2%nat /\ L = 14) ->
  proc_at demo_pa off p /\ latest_of 3 demo_top no_aborts demo_pa p L.
Proof.
  intros Hp [[-> ->]|[-> ->]]; simpl in Hp; simplify_eq; (split; [by split|]); split;
    try (split; [by apply demo_in_use|by vm_compute]); intros x _ (_ & [->|[Hs|(? & _)]]); try done.
  - by apply list_elem_of_singleton in Hs as ->.
  - by apply not_elem_of_nil in Hs.
Qed.

(** The transaction of entry 1 ends. *)
Lemma demo_end_step : pa_step 3 demo_top demo_state (no_aborts, ProcArrayEndTransactionInternal 1 12 demo_pa).
Proof.
  destruct (demo_latest_of 1 (MkPGPROC 1 101 10 10 [12] false 0 5) 12) as [H1 H2]; [done|by left|].
  by eapply step_end.
Qed.

Lemma snapshot_final_witness : 
  let pa' := ProcArrayEndTransactionInternal 1 12 demo_pa in
  XidInMVCCSnapshot demo_top 13 demo_taken.1 = false /\ xid_rank 3 13 <= xid_rank 3 (latest pa') /\
  ~ runs demo_top no_aborts pa' 13.
Proof.
  split; [by vm_compute|].
  apply (snapshot_final 3 demo_top demo_state (no_aborts, ProcArrayEndTransactionInternal 1 12 demo_pa) demo_be demo_old 1 13
    demo_topmost_ok demo_pa_ok eq_refl demo_my_entry demo_old_reusable); [by apply demo_in_use|by vm_compute| |].
  - intros k p Hk Hr. by apply (demo_entries_of 13 k p Hk) in Hr.
  - apply rtc_once, demo_end_step.
Defined.

Lemma demo_backend_ok : backend_ok 3 demo_top no_aborts no_aborts demo_pa demo_be.
Proof.
  split; [by apply demo_in_use| |].
  - intros x _ Hr. change (xid_rank 3 (RecentXmin demo_be)) with 0 in Hr. unfold xid_rank in Hr. pose proof (u32_range (x - 3)) as [? _]. lia.
  - by intros (_ & [=] & _).
Qed.

Lemma in_progress_exact_witness :
  (TransactionIdIsInProgress no_aborts no_aborts demo_top demo_pa demo_be 12).1 = true /\
  runs_elsewhere demo_top no_aborts demo_pa 0 12.
Proof.
  split; [by vm_compute|].
  destruct (in_progress_exact 3 demo_top no_aborts no_aborts demo_pa demo_be 12 demo_topmost_ok demo_pa_ok demo_backend_ok
    eq_refl) as [[H _] _]; [split; [by apply demo_in_use|by vm_compute]|done|by intros p [= <-] (? & _)|].
  destruct H as [|H]; [by vm_compute|done|done].
Defined.

Lemma end_transaction_exact_witness :
  let pa' := ProcArrayEndTransaction false [(1%nat, 12)] 2 14 demo_pa in
  (proc_xid <$> procs pa') = [0; 0; 0] /\ finished 3 demo_top no_aborts pa' 12.
Proof.
  split; [by vm_compute|].
  destruct (end_transaction_exact 3 demo_top no_aborts demo_pa false [(1%nat, 12)] 2 (MkPGPROC 2 102 14 0 [] false 0 5) 14
    demo_topmost_ok demo_pa_ok eq_refl) as (_ & _ & H).
  - split; [by apply (bool_decide_unpack _); vm_compute|]. intros off L Hin.
    assert ((off = 1%nat /\ L = 12) \/ (off = 2%nat /\ L = 14)) as Hcase.
    { apply elem_of_cons in Hin as [[= -> ->]|Hin]; [by left|]. apply list_elem_of_singleton in Hin as [= -> ->]. by right. }
    destruct (procs demo_pa !! off) as [p|] eqn:Ep; [exists p; by apply demo_latest_of|].
    by destruct Hcase as [[-> _]|[-> _]].
  - apply H; [split; [by apply demo_in_use|by vm_compute]|].
    exists 1%nat, 12, (MkPGPROC 1 101 10 10 [12] false 0 5). split_and!; [by left|done|]. split; [done|]. right. left. by left.
Defined.

Lemma horizon_protects_witness :
  (GetOldestNonRemovableTransactionId VISHORIZON_DATA demo_pa demo_be).1 = 10 /\
  ~ runs_in demo_top no_aborts (MkPGPROC 1 101 10 10 [12] false 0 5) 9.
Proof.
  split; [by vm_compute|].
  destruct (horizon_protects 3 demo_top demo_state demo_state VISHORIZON_DATA demo_be 9 demo_topmost_ok demo_pa_ok) as [H _];
    try done; [apply init_known_ok|].
  apply (H (MkPGPROC 1 101 10 10 [12] false 0 5)); [by right; left|by vm_compute].
Defined.

Lemma horizons_ordered_witness :
  let h := (ComputeXidHorizons demo_pa demo_be).1 in
  oldest_considered_running h = 10 /\ temp_oldest_nonremovable h = 16 /\
  TransactionIdPrecedesOrEquals (oldest_considered_running h) (temp_oldest_nonremovable h) = true.
Proof.
  split_and!; [by vm_compute|by vm_compute|].
  apply (horizons_ordered 3 demo_top no_aborts demo_pa demo_be demo_pa_ok demo_my_entry); try done.
  apply init_known_ok.
Defined.
