(* ===== verification/SnapMgr.v ===== *)
(** * The snapshot manager

    [src/backend/utils/time/snapmgr.c], the part of one backend: the static
    snapshots, the stack of active snapshots, the registered snapshots in
    their pairing heap, and the advertised xmin that has to protect them all.

    A [Snapshot] is an address.  Memory holds, for every address, the data of
    the snapshot with its reference counts, and the heap node embedded in it.
    The three static structs have fixed addresses; copies come from the
    allocator, a parameter that returns any unused address, and [pfree] makes
    their addresses unknown again, so a use after free is a [Fault].

    Of the callers and the other modules the file takes as arguments what it
    asks them: the isolation level, the command counter, parallel mode.
    Serializable transactions pass through predicate.c, an interface here.
    Resource owners are the multiset of what they remember. *)

From S2P Require Import Prelude.
From S2P Require Import TransactionId.
From S2P Require Import Varsup.
From S2P Require Import Snapshot.
From S2P Require Import ProcArray.
From S2P Require Import PairingHeap.

(** A [SnapshotData] with the fields that only this module uses. *)
Record SnapshotObject := MkObject {
  snap_data : SnapshotData;
  active_count : Z;
  regd_count : Z;
  copied : bool;
  snap_lsn : Z;
  whenTaken : Z;
}.

Record ActiveSnapshotElt := MkActive { as_snap : positive; as_level : Z }.

Definition CurrentSnapshotData : positive := 1%positive.
Definition SecondarySnapshotData : positive := 2%positive.
Definition CatalogSnapshotData : positive := 3%positive.

(** The static variables, memory, and what belongs to the array of running
    transactions.  [OldestActiveSnapshot] is the snapshot of the element it
    points to.  [ResourceOwners] has one pair for every remembered reference. *)
Record SnapMgr := MkSnapMgr {
  objects : gmap positive SnapshotObject;
  ph_nodes : Nodes;
  CurrentSnapshot : option positive;
  SecondarySnapshot : option positive;
  CatalogSnapshot : option positive;
  HistoricSnapshot : option positive;
  ActiveSnapshot : list ActiveSnapshotElt;
  OldestActiveSnapshot : option positive;
  RegisteredSnapshots : option positive;
  FirstSnapshotSet : bool;
  FirstXactSnapshot : option positive;
  exportedSnapshots : list positive;
  ResourceOwners : list (Z * positive);
  sm_array : ProcArrayStruct;
  sm_backend : BackendState;
}.

(** The static structs and variables when a backend starts. *)
Definition static_snapshot : SnapshotObject :=
  MkObject (MkSnapshot SNAPSHOT_MVCC 0 0 [] [] false false 0 0 VISHORIZON_SHARED 0) 0 0 false 0 0.

Definition initial_SnapMgr (pa : ProcArrayStruct) (be : BackendState) : SnapMgr :=
  let at_statics {A} (x : A) : gmap positive A := {[ CurrentSnapshotData := x; SecondarySnapshotData := x; CatalogSnapshotData := x ]} in
  MkSnapMgr (at_statics static_snapshot) (at_statics (MkNode None None None))
    None None None None [] None None false None [] [] pa be.

Inductive SnapError :=
  | Fault
  | ParallelOperation
  | SourceNotRunning
  | NotOwned
  | SerializableFailed.

Inductive XactIsolation := XACT_READ_COMMITTED | XACT_REPEATABLE_READ | XACT_SERIALIZABLE.
Definition IsolationUsesXactSnapshot (i : XactIsolation) : bool := if i is XACT_READ_COMMITTED then false else true.
Definition IsolationIsSerializable (i : XactIsolation) : bool := if i is XACT_SERIALIZABLE then true else false.

(** What the functions ask other modules at the time of the call. *)
Record CallEnv := MkCallEnv {
  XactIsoLevel : XactIsolation;
  IsInParallelMode : bool;
  GetCurrentCommandId : Z;
  RelationInvalidatesSnapshotsOnly : Z -> bool;
  RelationHasSysCache : Z -> bool;
}.

(** predicate.c: taking and adopting a snapshot for a serializable
    transaction; [None] is an error. *)
Class PredicateLocks := {
  GetSerializableTransactionSnapshot :
    Z -> SnapshotData -> ProcArrayStruct -> BackendState -> option (SnapshotData * (ProcArrayStruct * BackendState));
  SetSerializableTransactionSnapshot : SnapshotData -> ProcArrayStruct -> BackendState -> option (ProcArrayStruct * BackendState);
}.

(** [GetSerializableTransactionSnapshotInt] calls [GetSnapshotData] on its
    argument, and for an import leaves the installed xmin as it is. *)
Class PredicateLocksLaws `{PredicateLocks} := {
  serializable_takes : forall cid s pa be r, GetSerializableTransactionSnapshot cid s pa be = Some r -> r = GetSnapshotData cid s pa be;
  serializable_adopts : forall s pa be r, SetSerializableTransactionSnapshot s pa be = Some r -> r = (pa, be);
}.

(** ** Setters *)

Definition set_data (o : SnapshotObject) (d : SnapshotData) : SnapshotObject :=
  MkObject d (active_count o) (regd_count o) (copied o) (snap_lsn o) (whenTaken o).
Definition set_active_count (o : SnapshotObject) (n : Z) : SnapshotObject :=
  MkObject (snap_data o) n (regd_count o) (copied o) (snap_lsn o) (whenTaken o).
Definition set_regd_count (o : SnapshotObject) (n : Z) : SnapshotObject :=
  MkObject (snap_data o) (active_count o) n (copied o) (snap_lsn o) (whenTaken o).

Section setters.
Context (st : SnapMgr).

Definition set_memory (m : gmap positive SnapshotObject) (n : Nodes) : SnapMgr :=
  MkSnapMgr m n (CurrentSnapshot st) (SecondarySnapshot st) (CatalogSnapshot st) (HistoricSnapshot st) (ActiveSnapshot st)
    (OldestActiveSnapshot st) (RegisteredSnapshots st) (FirstSnapshotSet st) (FirstXactSnapshot st) (exportedSnapshots st)
    (ResourceOwners st) (sm_array st) (sm_backend st).
Definition set_heap (n : Nodes) (root : option positive) : SnapMgr :=
  MkSnapMgr (objects st) n (CurrentSnapshot st) (SecondarySnapshot st) (CatalogSnapshot st) (HistoricSnapshot st) (ActiveSnapshot st)
    (OldestActiveSnapshot st) root (FirstSnapshotSet st) (FirstXactSnapshot st) (exportedSnapshots st)
    (ResourceOwners st) (sm_array st) (sm_backend st).
(** [CurrentSnapshot], [SecondarySnapshot], [FirstXactSnapshot], [FirstSnapshotSet]. *)
Definition set_xact_snapshots (cur sec first : option positive) (isset : bool) : SnapMgr :=
  MkSnapMgr (objects st) (ph_nodes st) cur sec (CatalogSnapshot st) (HistoricSnapshot st) (ActiveSnapshot st)
    (OldestActiveSnapshot st) (RegisteredSnapshots st) isset first (exportedSnapshots st)
    (ResourceOwners st) (sm_array st) (sm_backend st).
Definition set_special (cat hist : option positive) : SnapMgr :=
  MkSnapMgr (objects st) (ph_nodes st) (CurrentSnapshot st) (SecondarySnapshot st) cat hist (ActiveSnapshot st)
    (OldestActiveSnapshot st) (RegisteredSnapshots st) (FirstSnapshotSet st) (FirstXactSnapshot st) (exportedSnapshots st)
    (ResourceOwners st) (sm_array st) (sm_backend st).
Definition set_active (stack : list ActiveSnapshotElt) (oldest : option positive) : SnapMgr :=
  MkSnapMgr (objects st) (ph_nodes st) (CurrentSnapshot st) (SecondarySnapshot st) (CatalogSnapshot st) (HistoricSnapshot st) stack
    oldest (RegisteredSnapshots st) (FirstSnapshotSet st) (FirstXactSnapshot st) (exportedSnapshots st)
    (ResourceOwners st) (sm_array st) (sm_backend st).
Definition set_exported (l : list positive) : SnapMgr :=
  MkSnapMgr (objects st) (ph_nodes st) (CurrentSnapshot st) (SecondarySnapshot st) (CatalogSnapshot st) (HistoricSnapshot st)
    (ActiveSnapshot st) (OldestActiveSnapshot st) (RegisteredSnapshots st) (FirstSnapshotSet st) (FirstXactSnapshot st) l
    (ResourceOwners st) (sm_array st) (sm_backend st).
Definition set_owners (l : list (Z * positive)) : SnapMgr :=
  MkSnapMgr (objects st) (ph_nodes st) (CurrentSnapshot st) (SecondarySnapshot st) (CatalogSnapshot st) (HistoricSnapshot st)
    (ActiveSnapshot st) (OldestActiveSnapshot st) (RegisteredSnapshots st) (FirstSnapshotSet st) (FirstXactSnapshot st)
    (exportedSnapshots st) l (sm_array st) (sm_backend st).
Definition set_shared (pa : ProcArrayStruct) (be : BackendState) : SnapMgr :=
  MkSnapMgr (objects st) (ph_nodes st) (CurrentSnapshot st) (SecondarySnapshot st) (CatalogSnapshot st) (HistoricSnapshot st)
    (ActiveSnapshot st) (OldestActiveSnapshot st) (RegisteredSnapshots st) (FirstSnapshotSet st) (FirstXactSnapshot st)
    (exportedSnapshots st) (ResourceOwners st) pa be.
End setters.

(** [MyProc->xmin]. *)
Definition my_xmin (st : SnapMgr) : Z := proc_xmin (procs (sm_array st) !!! my_pgxactoff (sm_backend st)).

(** [MyProc->xmin = TransactionXmin = x]. *)
Definition set_my_xmin (x : Z) (st : SnapMgr) : SnapMgr :=
  set_shared st (set_proc_xmin (sm_array st) (my_pgxactoff (sm_backend st)) x) (set_xmins (sm_backend st) (RecentXmin (sm_backend st)) x).

Definition snap_xmin_at (m : gmap positive SnapshotObject) (p : positive) : Z :=
  match m !! p with Some o => snap_xmin (snap_data o) | None => InvalidTransactionId end.

Definition xmin_cmp (m : gmap positive SnapshotObject) (a b : positive) : Z :=
  if TransactionIdPrecedes (snap_xmin_at m a) (snap_xmin_at m b) then 1
  else if TransactionIdFollows (snap_xmin_at m a) (snap_xmin_at m b) then -1
  else 0.

(** [memcpy] of the struct and the arrays it needs; a subxip array that is not
    copied is NULL. *)
Definition keeps_subxip (s : SnapshotData) : bool := negb (suboverflowed s) || takenDuringRecovery s.
Definition copy_data (s : SnapshotData) : SnapshotData :=
  MkSnapshot (snapshot_type s) (snap_xmin s) (snap_xmax s) (xip s) (if keeps_subxip s then subxip s else [])
    (suboverflowed s) (takenDuringRecovery s) (curcid s) (speculativeToken s) (vistest s) 0.

(** ** Adopting an xmin (procarray.c)

    [vxids] is the field [vxid] of the entries, by their index. *)

Record VirtualTransactionId := MkVxid { procNumber : Z; localTransactionId : Z }.

Definition PROC_XMIN_FLAGS : Z := Z.lor PROC_IN_VACUUM PROC_IN_SAFE_IC.

(** The entry of the source transaction, as the loop accepts it. *)
Definition imports_from (xmin : Z) (source : VirtualTransactionId) (MyDatabaseId : Z) (vxid : VirtualTransactionId) (proc : PGPROC) : bool :=
  if flag_set (statusFlags proc) PROC_IN_VACUUM then false
  else if negb (procNumber vxid =? procNumber source) then false
  else if negb (localTransactionId vxid =? localTransactionId source) then false
  else if negb (databaseId proc =? MyDatabaseId) then false
  else TransactionIdIsNormal (proc_xmin proc) && TransactionIdPrecedesOrEquals (proc_xmin proc) xmin.

Fixpoint find_source (xmin : Z) (source : VirtualTransactionId) (MyDatabaseId : Z) (vxids : nat -> VirtualTransactionId)
    (index : nat) (l : list PGPROC) : bool :=
  match l with
  | [] => false
  | proc :: l =>
      if imports_from xmin source MyDatabaseId (vxids index) proc then true
      else find_source xmin source MyDatabaseId vxids (S index) l
  end.

Definition ProcArrayInstallImportedXmin (vxids : nat -> VirtualTransactionId) (xmin : Z) (sourcevxid : option VirtualTransactionId)
    (st : SnapMgr) : bool * SnapMgr :=
  match sourcevxid with
  | None => (false, st)
  | Some source =>
      if find_source xmin source (MyDatabaseId (sm_backend st)) vxids 0 (procs (sm_array st))
      then (true, set_my_xmin xmin st)
      else (false, st)
  end.

Definition set_proc_flags (pa : ProcArrayStruct) (off : nat) (flags : Z) : ProcArrayStruct :=
  let p := procs pa !!! off in
  set_procs pa (<[off := MkPGPROC (pgprocno p) (pid p) (proc_xid p) (proc_xmin p) (subxids p) (sub_overflowed p)
                           flags (databaseId p)]> (procs pa)).

(** The source is the entry at index [proc]. *)
Definition ProcArrayInstallRestoredXmin (xmin : Z) (proc : nat) (st : SnapMgr) : bool * SnapMgr :=
  let source := procs (sm_array st) !!! proc in
  let my := my_pgxactoff (sm_backend st) in
  if (databaseId source =? MyDatabaseId (sm_backend st)) && TransactionIdIsNormal (proc_xmin source) &&
     TransactionIdPrecedesOrEquals (proc_xmin source) xmin
  then
    let st := set_my_xmin xmin st in
    let flags := Z.lor (Z.land (statusFlags (procs (sm_array st) !!! my)) (Z.lnot PROC_XMIN_FLAGS)) (Z.land (statusFlags source) PROC_XMIN_FLAGS) in
    (true, set_shared st (set_proc_flags (sm_array st) my flags) (sm_backend st))
  else (false, st).

(** ** The operations *)

Section operations.
Context (palloc : gset positive -> positive) `{PredicateLocks}.
Open Scope prog_scope.

Abbreviation M := (prog SnapMgr SnapError).

Definition load_snapshot (p : positive) : M SnapshotObject := fun st =>
  match objects st !! p with Some o => (st, inr o) | None => (st, inl Fault) end.

Definition store_snapshot (p : positive) (f : SnapshotObject -> SnapshotObject) : M unit :=
  o <- load_snapshot p ;; pmod (fun st => set_memory st (<[p := f o]> (objects st)) (ph_nodes st)).

(** An operation on [RegisteredSnapshots]. *)
Definition on_heap (m : (positive -> positive -> Z) -> option positive -> prog Nodes SnapError (option positive)) : M unit := fun st =>
  match m (xmin_cmp (objects st)) (RegisteredSnapshots st) (ph_nodes st) with
  | (n, inl e) => (set_heap st n (RegisteredSnapshots st), inl e)
  | (n, inr root) => (set_heap st n root, inr tt)
  end.

Definition heap_add (p : positive) : M unit := on_heap (fun cmp root => pairingheap_add Fault cmp root p).
Definition heap_remove (p : positive) : M unit := on_heap (fun cmp root => pairingheap_remove Fault cmp root p).

Definition heap_singular : M bool := fun st =>
  (st, (pairingheap_is_singular Fault (RegisteredSnapshots st) (ph_nodes st)).2).

Definition SnapshotResetXmin : M unit :=
  active <- pget ActiveSnapshot ;;
  if negb (bool_decide (active = [])) then pret tt
  else
    root <- pget RegisteredSnapshots ;;
    match pairingheap_first root with
    | None => pmod (set_my_xmin InvalidTransactionId)
    | Some p =>
        minSnapshot <- load_snapshot p ;;
        xmin <- pget my_xmin ;;
        pwhen (TransactionIdPrecedes xmin (snap_xmin (snap_data minSnapshot)))
          (pmod (set_my_xmin (snap_xmin (snap_data minSnapshot))))
    end.

(** [MemoryContextAlloc] of a snapshot with these contents. *)
Definition palloc_snapshot (o : SnapshotObject) : M positive := fun st =>
  let p := palloc (dom (objects st)) in
  (set_memory st (<[p := o]> (objects st)) (<[p := MkNode None None None]> (ph_nodes st)), inr p).

Definition CopySnapshot (snapshot : positive) : M positive :=
  o <- load_snapshot snapshot ;;
  palloc_snapshot (MkObject (copy_data (snap_data o)) 0 0 true (snap_lsn o) (whenTaken o)).

Definition FreeSnapshot (snapshot : positive) : M unit :=
  _o <- load_snapshot snapshot ;;
  pmod (fun st => set_memory st (delete snapshot (objects st)) (delete snapshot (ph_nodes st))).

Definition free_unreferenced (snapshot : positive) : M bool :=
  o <- load_snapshot snapshot ;;
  if (active_count o =? 0) && (regd_count o =? 0) then FreeSnapshot snapshot ;;; pret true else pret false.

(** [GetSnapshotData] into a static struct, which also resets its counts. *)
Definition take_snapshot (cid : Z) (p : positive) : M positive :=
  o <- load_snapshot p ;;
  r <- pget (fun st => GetSnapshotData cid (snap_data o) (sm_array st) (sm_backend st)) ;;
  pmod (fun st => set_shared st r.2.1 r.2.2) ;;;
  store_snapshot p (fun _ => MkObject r.1 0 0 false 0 0) ;;;
  pret p.

Definition take_serializable (cid : Z) (p : positive) : M positive :=
  o <- load_snapshot p ;;
  r <- pget (fun st => GetSerializableTransactionSnapshot cid (snap_data o) (sm_array st) (sm_backend st)) ;;
  match r with
  | None => preturn SerializableFailed
  | Some r =>
      pmod (fun st => set_shared st r.2.1 r.2.2) ;;;
      store_snapshot p (fun _ => MkObject r.1 0 0 false 0 0) ;;;
      pret p
  end.

Definition InvalidateCatalogSnapshot : M unit :=
  cat <- pget CatalogSnapshot ;;
  match cat with
  | None => pret tt
  | Some p =>
      heap_remove p ;;;
      pmod (fun st => set_special st None (HistoricSnapshot st)) ;;;
      SnapshotResetXmin
  end.

Definition InvalidateCatalogSnapshotConditionally : M unit :=
  cat <- pget CatalogSnapshot ;;
  active <- pget ActiveSnapshot ;;
  if negb (is_null cat) && bool_decide (active = []) then
    singular <- heap_singular ;;
    pwhen singular InvalidateCatalogSnapshot
  else pret tt.

Definition HistoricSnapshotActive (st : SnapMgr) : bool := negb (is_null (HistoricSnapshot st)).

(** Copy the transaction's first snapshot and keep it to the end. *)
Definition keep_first_snapshot (p : positive) : M positive :=
  copy <- CopySnapshot p ;;
  pmod (fun st => set_xact_snapshots st (Some copy) (SecondarySnapshot st) (Some copy) (FirstSnapshotSet st)) ;;;
  store_snapshot copy (fun o => set_regd_count o (u32 (regd_count o + 1))) ;;;
  heap_add copy ;;;
  pret copy.

Definition set_current (p : positive) : M unit :=
  pmod (fun st => set_xact_snapshots st (Some p) (SecondarySnapshot st) (FirstXactSnapshot st) (FirstSnapshotSet st)).
Definition set_first_set : M unit :=
  pmod (fun st => set_xact_snapshots st (CurrentSnapshot st) (SecondarySnapshot st) (FirstXactSnapshot st) true).

Definition GetTransactionSnapshot (env : CallEnv) : M (option positive) :=
  historic <- pget HistoricSnapshotActive ;;
  if historic then pget HistoricSnapshot
  else
    isset <- pget FirstSnapshotSet ;;
    if negb isset then
      InvalidateCatalogSnapshot ;;;
      if IsInParallelMode env then preturn ParallelOperation
      else
        (if IsolationUsesXactSnapshot (XactIsoLevel env) then
           p <- (if IsolationIsSerializable (XactIsoLevel env)
                 then take_serializable (GetCurrentCommandId env) CurrentSnapshotData
                 else take_snapshot (GetCurrentCommandId env) CurrentSnapshotData) ;;
           set_current p ;;;
           _p <- keep_first_snapshot p ;; pret tt
         else
           p <- take_snapshot (GetCurrentCommandId env) CurrentSnapshotData ;;
           set_current p) ;;;
        set_first_set ;;;
        pget CurrentSnapshot
    else if IsolationUsesXactSnapshot (XactIsoLevel env) then pget CurrentSnapshot
    else
      InvalidateCatalogSnapshot ;;;
      p <- take_snapshot (GetCurrentCommandId env) CurrentSnapshotData ;;
      set_current p ;;;
      pget CurrentSnapshot.

Definition GetLatestSnapshot (env : CallEnv) : M (option positive) :=
  if IsInParallelMode env then preturn ParallelOperation
  else
    isset <- pget FirstSnapshotSet ;;
    if negb isset then GetTransactionSnapshot env
    else
      p <- take_snapshot (GetCurrentCommandId env) SecondarySnapshotData ;;
      pmod (fun st => set_xact_snapshots st (CurrentSnapshot st) (Some p) (FirstXactSnapshot st) (FirstSnapshotSet st)) ;;;
      pget SecondarySnapshot.

Definition GetOldestSnapshot : M (option positive) :=
  root <- pget RegisteredSnapshots ;;
  registered <- (match pairingheap_first root with
                 | Some p => o <- load_snapshot p ;; pret (Some p, snap_lsn o)
                 | None => pret (None, 0)
                 end) ;;
  oldest <- pget OldestActiveSnapshot ;;
  match oldest with
  | Some a =>
      o <- load_snapshot a ;;
      if (registered.2 =? 0) || (snap_lsn o <? registered.2) then pret (Some a) else pret registered.1
  | None => pret registered.1
  end.

Definition GetNonHistoricCatalogSnapshot (env : CallEnv) (relid : Z) : M (option positive) :=
  cat <- pget CatalogSnapshot ;;
  pwhen (negb (is_null cat) && negb (RelationInvalidatesSnapshotsOnly env relid) && negb (RelationHasSysCache env relid))
    InvalidateCatalogSnapshot ;;;
  cat <- pget CatalogSnapshot ;;
  pwhen (is_null cat)
    (p <- take_snapshot (GetCurrentCommandId env) CatalogSnapshotData ;;
     pmod (fun st => set_special st (Some p) (HistoricSnapshot st)) ;;;
     heap_add p) ;;;
  pget CatalogSnapshot.

Definition GetCatalogSnapshot (env : CallEnv) (relid : Z) : M (option positive) :=
  historic <- pget HistoricSnapshotActive ;;
  if historic then pget HistoricSnapshot else GetNonHistoricCatalogSnapshot env relid.

Definition set_curcid_at (p : option positive) (cid : Z) : M unit :=
  match p with
  | Some p => store_snapshot p (fun o => set_data o (set_snap_curcid (snap_data o) cid))
  | None => pret tt
  end.

Definition SnapshotSetCommandId (cid : Z) : M unit :=
  isset <- pget FirstSnapshotSet ;;
  if negb isset then pret tt
  else
    cur <- pget CurrentSnapshot ;;
    set_curcid_at cur cid ;;;
    sec <- pget SecondarySnapshot ;;
    set_curcid_at sec cid.

(** The fields taken over from an imported snapshot. *)
Definition adopt_data (s source : SnapshotData) : SnapshotData :=
  MkSnapshot (snapshot_type s) (snap_xmin source) (snap_xmax source) (xip source) (subxip source) (suboverflowed source)
    (takenDuringRecovery source) (curcid s) (speculativeToken s) (vistest s) 0.

(** [sourceproc] is the index of the leader's entry, for a parallel worker. *)
Definition install_source_xmin (vxids : nat -> VirtualTransactionId) (xmin : Z) (sourcevxid : option VirtualTransactionId)
    (sourceproc : option nat) (st : SnapMgr) : bool * SnapMgr :=
  match sourceproc with
  | Some proc => ProcArrayInstallRestoredXmin xmin proc st
  | None => ProcArrayInstallImportedXmin vxids xmin sourcevxid st
  end.

Definition SetTransactionSnapshot (env : CallEnv) (vxids : nat -> VirtualTransactionId) (sourcesnap : SnapshotData)
    (sourcevxid : option VirtualTransactionId) (sourceproc : option nat) : M unit :=
  InvalidateCatalogSnapshot ;;;
  p <- take_snapshot (GetCurrentCommandId env) CurrentSnapshotData ;;
  set_current p ;;;
  store_snapshot p (fun o => set_data o (adopt_data (snap_data o) sourcesnap)) ;;;
  st <- pget (fun st => st) ;;
  let installed := install_source_xmin vxids (snap_xmin sourcesnap) sourcevxid sourceproc st in
  if negb installed.1 then preturn SourceNotRunning
  else
    pmod (fun _ => installed.2) ;;;
    pwhen (IsolationUsesXactSnapshot (XactIsoLevel env))
      (o <- load_snapshot p ;;
       adopted <- pget (fun st => if IsolationIsSerializable (XactIsoLevel env)
                                  then SetSerializableTransactionSnapshot (snap_data o) (sm_array st) (sm_backend st)
                                  else Some (sm_array st, sm_backend st)) ;;
       match adopted with
       | None => preturn SerializableFailed
       | Some r => pmod (fun st => set_shared st r.1 r.2)
       end ;;;
       _p <- keep_first_snapshot p ;; pret tt) ;;;
    set_first_set.

Definition RestoreTransactionSnapshot (env : CallEnv) (vxids : nat -> VirtualTransactionId) (snapshot : SnapshotData)
    (source_pgproc : nat) : M unit :=
  SetTransactionSnapshot env vxids snapshot None (Some source_pgproc).

(** ** Active snapshots *)

Definition PushActiveSnapshotWithLevel (snapshot : positive) (snap_level : Z) : M unit :=
  o <- load_snapshot snapshot ;;
  cur <- pget CurrentSnapshot ;;
  sec <- pget SecondarySnapshot ;;
  snap <- (if bool_decide (Some snapshot = cur) || bool_decide (Some snapshot = sec) || negb (copied o)
           then CopySnapshot snapshot else pret snapshot) ;;
  store_snapshot snap (fun o => set_active_count o (u32 (active_count o + 1))) ;;;
  pmod (fun st => set_active st (MkActive snap snap_level :: ActiveSnapshot st)
                    (match OldestActiveSnapshot st with None => Some snap | Some a => Some a end)).

(** [level] is [GetCurrentTransactionNestLevel()]. *)
Definition PushActiveSnapshot (level : Z) (snapshot : positive) : M unit := PushActiveSnapshotWithLevel snapshot level.

Definition PushCopiedSnapshot (level : Z) (snapshot : positive) : M unit :=
  copy <- CopySnapshot snapshot ;; PushActiveSnapshot level copy.

Definition UpdateActiveSnapshotCommandId (env : CallEnv) : M unit :=
  stack <- pget ActiveSnapshot ;;
  match stack with
  | [] => preturn Fault
  | elt :: _ =>
      o <- load_snapshot (as_snap elt) ;;
      let save_curcid := curcid (snap_data o) in
      let cid := GetCurrentCommandId env in
      if IsInParallelMode env && negb (save_curcid =? cid) then preturn ParallelOperation
      else store_snapshot (as_snap elt) (fun o => set_data o (set_snap_curcid (snap_data o) cid))
  end.

(** Drop the reference of the topmost element and the element. *)
Definition drop_top (elt : ActiveSnapshotElt) (next : list ActiveSnapshotElt) : M unit :=
  store_snapshot (as_snap elt) (fun o => set_active_count o (u32 (active_count o - 1))) ;;;
  _freed <- free_unreferenced (as_snap elt) ;;
  pmod (fun st => set_active st next (if bool_decide (next = []) then None else OldestActiveSnapshot st)).

Definition PopActiveSnapshot : M unit :=
  stack <- pget ActiveSnapshot ;;
  match stack with
  | [] => preturn Fault
  | elt :: next => drop_top elt next ;;; SnapshotResetXmin
  end.

Definition GetActiveSnapshot : M positive :=
  stack <- pget ActiveSnapshot ;;
  match stack with [] => preturn Fault | elt :: _ => pret (as_snap elt) end.

Definition ActiveSnapshotSet (st : SnapMgr) : bool := negb (bool_decide (ActiveSnapshot st = [])).

Fixpoint relabel_levels (level : Z) (stack : list ActiveSnapshotElt) : list ActiveSnapshotElt :=
  match stack with
  | [] => []
  | active :: next =>
      if as_level active <? level then stack
      else MkActive (as_snap active) (level - 1) :: relabel_levels level next
  end.

Definition AtSubCommit_Snapshot (level : Z) : M unit :=
  pmod (fun st => set_active st (relabel_levels level (ActiveSnapshot st)) (OldestActiveSnapshot st)).

Fixpoint drop_levels (level : Z) (stack : list ActiveSnapshotElt) : M unit :=
  match stack with
  | [] => pret tt
  | elt :: next => if level <=? as_level elt then drop_top elt next ;;; drop_levels level next else pret tt
  end.

Definition AtSubAbort_Snapshot (level : Z) : M unit :=
  stack <- pget ActiveSnapshot ;;
  drop_levels level stack ;;;
  SnapshotResetXmin.

(** ** Registered snapshots *)

Definition RegisterSnapshotOnOwner (owner : Z) (snapshot : option positive) : M (option positive) :=
  match snapshot with
  | None => pret None
  | Some snapshot =>
      o <- load_snapshot snapshot ;;
      snap <- (if copied o then pret snapshot else CopySnapshot snapshot) ;;
      store_snapshot snap (fun o => set_regd_count o (u32 (regd_count o + 1))) ;;;
      pmod (fun st => set_owners st ((owner, snap) :: ResourceOwners st)) ;;;
      o <- load_snapshot snap ;;
      pwhen (regd_count o =? 1) (heap_add snap) ;;;
      pret (Some snap)
  end.

Definition RegisterSnapshot (CurrentResourceOwner : Z) (snapshot : option positive) : M (option positive) :=
  match snapshot with
  | None => pret None
  | Some _ => RegisterSnapshotOnOwner CurrentResourceOwner snapshot
  end.

Definition UnregisterSnapshotNoOwner (snapshot : positive) : M unit :=
  store_snapshot snapshot (fun o => set_regd_count o (u32 (regd_count o - 1))) ;;;
  o <- load_snapshot snapshot ;;
  pwhen (regd_count o =? 0) (heap_remove snapshot) ;;;
  freed <- free_unreferenced snapshot ;;
  pwhen freed SnapshotResetXmin.

(** One instance of the reference is forgotten, or it is an error. *)
Fixpoint forget (e : Z * positive) (l : list (Z * positive)) : option (list (Z * positive)) :=
  match l with
  | [] => None
  | x :: l => if decide (x = e) then Some l else cons x <$> forget e l
  end.

Definition UnregisterSnapshotFromOwner (owner : Z) (snapshot : option positive) : M unit :=
  match snapshot with
  | None => pret tt
  | Some snapshot =>
      owners <- pget ResourceOwners ;;
      match forget (owner, snapshot) owners with
      | None => preturn NotOwned
      | Some l =>
          pmod (fun st => set_owners st l) ;;;
          UnregisterSnapshotNoOwner snapshot
      end
  end.

Definition UnregisterSnapshot (CurrentResourceOwner : Z) (snapshot : option positive) : M unit :=
  match snapshot with
  | None => pret tt
  | Some _ => UnregisterSnapshotFromOwner CurrentResourceOwner snapshot
  end.

(** Releasing a resource owner: [ResOwnerReleaseSnapshot] on each of its
    references. *)
Fixpoint release_refs (refs : list (Z * positive)) : M unit :=
  match refs with
  | [] => pret tt
  | e :: refs =>
      owners <- pget ResourceOwners ;;
      match forget e owners with
      | None => preturn NotOwned
      | Some l => pmod (fun st => set_owners st l) ;;; UnregisterSnapshotNoOwner e.2 ;;; release_refs refs
      end
  end.

Definition ResourceOwnerReleaseSnapshots (owner : Z) : M unit :=
  owners <- pget ResourceOwners ;;
  release_refs (filter (fun e => e.1 = owner) owners).

(** [ExportSnapshot] as far as memory goes: a copy that stays registered. *)
Definition keep_exported (snapshot : positive) : M positive :=
  copy <- CopySnapshot snapshot ;;
  pmod (fun st => set_exported st (exportedSnapshots st ++ [copy])) ;;;
  store_snapshot copy (fun o => set_regd_count o (u32 (regd_count o + 1))) ;;;
  heap_add copy ;;;
  pret copy.

(** ** End of transaction *)

Fixpoint remove_exported (l : list positive) : M unit :=
  match l with [] => pret tt | p :: l => heap_remove p ;;; remove_exported l end.

Definition AtEOXact_Snapshot (resetXmin : bool) : M unit :=
  first <- pget FirstXactSnapshot ;;
  match first with Some p => heap_remove p | None => pret tt end ;;;
  pmod (fun st => set_xact_snapshots st (CurrentSnapshot st) (SecondarySnapshot st) None (FirstSnapshotSet st)) ;;;
  exported <- pget exportedSnapshots ;;
  remove_exported exported ;;;
  pmod (fun st => set_exported st []) ;;;
  InvalidateCatalogSnapshot ;;;
  pmod (fun st => set_active st [] None) ;;;
  pmod (fun st => set_heap st (ph_nodes st) None) ;;;
  pmod (fun st => set_xact_snapshots st None None (FirstXactSnapshot st) false) ;;;
  pwhen resetXmin SnapshotResetXmin.

(** [AtCommit_Memory], [AtCleanup_Memory]: every copy was allocated in
    [TopTransactionContext], which is deleted. *)
Definition delete_TopTransactionContext : M unit :=
  pmod (fun st =>
    let statics := filter (fun e => copied e.2 = false) (objects st) in
    set_memory st statics (filter (fun e => is_Some (statics !! e.1)) (ph_nodes st))).

(** ** Questions *)

Definition ThereAreNoPriorRegisteredSnapshots : M bool :=
  root <- pget RegisteredSnapshots ;;
  singular <- heap_singular ;;
  pret (pairingheap_is_empty root || singular).

Definition HaveRegisteredOrActiveSnapshot : M bool :=
  active <- pget ActiveSnapshotSet ;;
  if active then pret true
  else
    cat <- pget CatalogSnapshot ;;
    singular <- heap_singular ;;
    if negb (is_null cat) && singular then pret false
    else root <- pget RegisteredSnapshots ;; pret (negb (pairingheap_is_empty root)).

Definition XactHasExportedSnapshots (st : SnapMgr) : bool := negb (bool_decide (exportedSnapshots st = [])).

Definition SetupHistoricSnapshot (historic_snapshot : positive) : M unit :=
  pmod (fun st => set_special st (CatalogSnapshot st) (Some historic_snapshot)).
Definition TeardownHistoricSnapshot : M unit :=
  pmod (fun st => set_special st (CatalogSnapshot st) None).
End operations.
