(* ===== verification/SnapMgrMemory.v ===== *)
(** * The snapshot manager: memory and references

    Who may hold a reference to which snapshot, and what the reference counts,
    the heap of registered snapshots and the advertised xmin owe to the
    holders.  [memory] relates memory to the multiset of registered
    references, the multiset of active references and the catalog snapshot;
    the lemmas say how each primitive step of [SnapMgr] moves one reference. *)

From S2P Require Import Prelude.
From S2P Require Import TransactionId.
From S2P Require Import Varsup.
From S2P Require Import Snapshot.
From S2P Require Import ProcArray.
From S2P Require Import PairingHeap.
From S2P Require Import SnapMgr.

(** How often an address occurs. *)
Definition occ (p : positive) (l : list positive) : Z := Z.of_nat (length (filter (eq p) l)).

Lemma occ_cons p q l : occ p (q :: l) = (if decide (p = q) then 1 else 0) + occ p l.
Proof. unfold occ. rewrite filter_cons. destruct (decide (p = q)); cbn [length]; lia. Qed.
Lemma occ_nonneg p l : 0 <= occ p l.
Proof. unfold occ. lia. Qed.
Lemma occ_le p l : occ p l <= Z.of_nat (length l).
Proof. unfold occ. apply Nat2Z.inj_le, length_filter. Qed.
Lemma occ_zero p l : occ p l = 0 <-> p ∉ l.
Proof.
  unfold occ. split.
  - intros H0 Hp. assert (p ∈ filter (eq p) l) as Hf by (by apply list_elem_of_filter). destruct (filter (eq p) l); [set_solver +Hf|cbn in H0; lia].
  - intros Hp. destruct (filter (eq p) l) as [|x k] eqn:E; [done|].
    assert (x ∈ filter (eq p) l) as [<- ?]%list_elem_of_filter by (rewrite E; left). done.
Qed.
#[export] Instance occ_perm p : Proper (Permutation ==> eq) (occ p).
Proof. intros l l' Hl. unfold occ. by rewrite Hl. Qed.

Section memory.
Context (lo : Z).

Abbreviation rank := (xid_rank lo).
Abbreviation in_use := (in_use lo).
Abbreviation Objects := (gmap positive SnapshotObject).

Definition statics : list positive := [CurrentSnapshotData; SecondarySnapshotData; CatalogSnapshotData].

(** The advertised xmin [xm] covers the snapshot at [p], which is not newer
    than a snapshot taken now, whose xmin is [fl]. *)
Definition covered (ob : Objects) (xm fl : Z) (p : positive) : Prop :=
  exists o, ob !! p = Some o /\ in_use (snap_xmin (snap_data o)) /\ in_use xm /\
    rank xm <= rank (snap_xmin (snap_data o)) <= rank fl.

Definition heap_key (ob : Objects) (p : positive) : Z := - rank (snap_xmin_at ob p).

(** [R] and [A] are the registered and the active references, [l] is what the
    heap contains. *)
Record memory (ob : Objects) (nd : Nodes) (root : option positive) (R A l : list positive) (xm fl : Z) : Prop := {
  m_static : forall p, p ∈ statics -> is_Some (ob !! p);
  m_copied : forall p o, ob !! p = Some o -> copied o = true <-> p ∉ statics;
  m_nodes : dom nd = dom ob;
  m_regd : forall p o, ob !! p = Some o -> copied o = true -> regd_count o = occ p R /\ occ p R < 0x100000000;
  m_active : forall p o, ob !! p = Some o -> copied o = true -> active_count o = occ p A /\ occ p A < 0x100000000;
  m_dynamic : forall p, p ∈ R \/ p ∈ A -> p ∉ statics;
  m_heap : is_heap (xmin_cmp ob) (heap_key ob) nd root l;
  m_covered : forall p, p ∈ R \/ p ∈ A \/ p ∈ l -> covered ob xm fl p;
}.

Lemma xmin_cmp_key ob x y : in_use (snap_xmin_at ob x) -> in_use (snap_xmin_at ob y) -> compares (heap_key ob) (xmin_cmp ob) x y.
Proof.
  intros Hx Hy. unfold compares, xmin_cmp, heap_key. rewrite (precedes_rank lo), (follows_rank lo) by done.
  destruct (Z.ltb_spec (rank (snap_xmin_at ob x)) (rank (snap_xmin_at ob y))),
    (Z.ltb_spec (rank (snap_xmin_at ob y)) (rank (snap_xmin_at ob x))); symmetry; (apply Z.ltb_lt || apply Z.ltb_ge); lia.
Qed.

Lemma covered_at ob xm fl p : covered ob xm fl p -> in_use (snap_xmin_at ob p).
Proof. intros (o & Ho & Hu & _). unfold snap_xmin_at. by rewrite Ho. Qed.

Lemma covered_all ob xm fl l : (forall p, p ∈ l -> covered ob xm fl p) -> compares_all (heap_key ob) (xmin_cmp ob) l.
Proof. intros Hl x y Hx Hy. apply xmin_cmp_key; eapply covered_at; eauto. Qed.

(** Time passes: newer snapshots, the same xmin. *)
Lemma memory_later ob nd root R A l xm fl fl' : rank fl <= rank fl' -> memory ob nd root R A l xm fl -> memory ob nd root R A l xm fl'.
Proof.
  intros Hle [H1 H2 H3 H4 H5 H6 H7 H8]. split; try done. intros p Hp. destruct (H8 p Hp) as (o & ? & ? & ? & ?).
  exists o. split; [done|]. split; [done|]. split; [done|]. lia.
Qed.

(** Another xmin that covers everything. *)
Lemma memory_xmin ob nd root R A l xm xm' fl : in_use xm' ->
  (forall p o, p ∈ R \/ p ∈ A \/ p ∈ l -> ob !! p = Some o -> rank xm' <= rank (snap_xmin (snap_data o))) ->
  memory ob nd root R A l xm fl -> memory ob nd root R A l xm' fl.
Proof.
  intros Hu Hle [H1 H2 H3 H4 H5 H6 H7 H8]. split; try done. intros p Hp. destruct (H8 p Hp) as (o & Ho & ? & ? & ?).
  exists o. split; [done|]. split; [done|]. split; [done|]. specialize (Hle p o Hp Ho). lia.
Qed.

Lemma memory_xmin_none ob nd root xm xm' fl : memory ob nd root [] [] [] xm fl -> memory ob nd root [] [] [] xm' fl.
Proof. intros [H1 H2 H3 H4 H5 H6 H7 H8]. split; try done. set_solver +. Qed.

(** References only matter as multisets. *)
Lemma memory_perm ob nd root R R' A A' l l' xm fl : R ≡ₚ R' -> A ≡ₚ A' -> l ≡ₚ l' ->
  memory ob nd root R A l xm fl -> memory ob nd root R' A' l' xm fl.
Proof.
  intros HR HA Hl [H1 H2 H3 H4 H5 H6 H7 H8]. split; try done.
  - intros p o Ho Hc. rewrite <- HR. by apply H4.
  - intros p o Ho Hc. rewrite <- HA. by apply H5.
  - intros p. rewrite <- HR, <- HA. apply H6.
  - by rewrite <- Hl.
  - intros p. rewrite <- HR, <- HA, <- Hl. apply H8.
Qed.

(** Changes of the objects that keep the xmin of what is in the heap. *)
Lemma heap_objects ob ob' nd root l xm fl : (forall p, p ∈ l -> covered ob' xm fl p /\ snap_xmin_at ob' p = snap_xmin_at ob p) ->
  is_heap (xmin_cmp ob) (heap_key ob) nd root l -> is_heap (xmin_cmp ob') (heap_key ob') nd root l.
Proof.
  intros Hl. apply is_heap_ext; [|eapply covered_all; intros p Hp; apply (Hl p Hp)].
  intros p Hp. unfold heap_key. by destruct (Hl p Hp) as [_ ->].
Qed.

(** A new object nobody refers to. *)
Lemma memory_alloc ob nd root R A l xm fl q o n : q ∉ dom ob -> copied o = true -> regd_count o = 0 -> active_count o = 0 ->
  memory ob nd root R A l xm fl -> memory (<[q := o]> ob) (<[q := n]> nd) root R A l xm fl.
Proof.
  intros Hq Hc Hr Ha [H1 H2 H3 H4 H5 H6 H7 H8].
  assert (Hne : forall p o', ob !! p = Some o' -> q <> p) by (intros p o' Hp ->; apply Hq; by apply elem_of_dom_2 in Hp).
  assert (Href : forall p, p ∈ R \/ p ∈ A \/ p ∈ l -> q <> p) by (intros p Hp; destruct (H8 p Hp) as (? & ? & _); eauto).
  assert (Hcov : forall p, p ∈ R \/ p ∈ A \/ p ∈ l -> covered (<[q:=o]> ob) xm fl p).
  { intros p Hp. destruct (H8 p Hp) as (o' & Ho' & ?). exists o'. by rewrite lookup_insert_ne by eauto. }
  assert (occ q R = 0 /\ occ q A = 0) as [HR0 HA0] by (split; apply occ_zero; intros Hin; eapply Href; eauto).
  split.
  - intros p Hp. destruct (H1 p Hp) as [o' Ho']. rewrite lookup_insert_ne by eauto. by exists o'.
  - intros p o'. rewrite lookup_insert_Some. intros [[<- <-]|[_ Ho']]; [|by apply H2]. split; [|done]. intros _ Hs.
    destruct (H1 q Hs) as [? ?]. by eapply Hne.
  - by rewrite !dom_insert_L, H3.
  - intros p o'. rewrite lookup_insert_Some. intros [[<- <-]|[_ Ho']]; [intros _; lia|by apply H4].
  - intros p o'. rewrite lookup_insert_Some. intros [[<- <-]|[_ Ho']]; [intros _; lia|by apply H5].
  - done.
  - eapply heap_objects; [|eapply is_heap_only; [apply only_insert| |exact H7]].
    + intros p Hp. split; [by apply Hcov; right; right|]. unfold snap_xmin_at. rewrite lookup_insert_ne; [done|]. apply Href. tauto.
    + intros p Hp Hpq%list_elem_of_singleton. eapply Href; [right; right; exact Hp|done].
  - done.
Qed.

(** An object with other contents.  While there are references its xmin stays. *)
Lemma memory_store ob nd root R R' A A' l xm fl p o o' : ob !! p = Some o -> copied o' = copied o ->
  (forall q, q <> p -> occ q R' = occ q R /\ occ q A' = occ q A) -> (p ∈ R' \/ p ∈ A' -> copied o = true) ->
  (copied o = true -> regd_count o' = occ p R' /\ occ p R' < 0x100000000 /\ active_count o' = occ p A' /\ occ p A' < 0x100000000) ->
  (p ∈ R' \/ p ∈ A' \/ p ∈ l -> covered ob xm fl p /\ snap_xmin (snap_data o') = snap_xmin (snap_data o)) ->
  memory ob nd root R A l xm fl -> memory (<[p := o']> ob) nd root R' A' l xm fl.
Proof.
  intros Ho Hc Hocc Hdyn Hcnt Hcov [H1 H2 H3 H4 H5 H6 H7 H8].
  assert (Hin : forall q, q <> p -> (q ∈ R' <-> q ∈ R) /\ (q ∈ A' <-> q ∈ A)).
  { intros q Hq. destruct (Hocc q Hq) as [E1 E2]. pose proof (occ_zero q R'). pose proof (occ_zero q R).
    pose proof (occ_zero q A'). pose proof (occ_zero q A). rewrite E1 in *. rewrite E2 in *.
    destruct (decide (q ∈ R')), (decide (q ∈ R)), (decide (q ∈ A')), (decide (q ∈ A)); tauto. }
  assert (Hcov' : forall q, q ∈ R' \/ q ∈ A' \/ q ∈ l -> covered (<[p:=o']> ob) xm fl q).
  { intros q Hq. destruct (decide (q = p)) as [->|Hne].
    - destruct (Hcov Hq) as [(o1 & Ho1 & Hu & Hxu & Hle) E]. rewrite Ho in Ho1. injection Ho1 as <-. exists o'. by rewrite lookup_insert_eq, E.
    - destruct (H8 q) as (o1 & Ho1 & ?); [destruct (Hin q Hne); tauto|]. exists o1. by rewrite lookup_insert_ne by done. }
  split.
  - intros q Hq. destruct (decide (q = p)) as [->|Hne]; [rewrite lookup_insert_eq; eauto|rewrite lookup_insert_ne by done; auto].
  - intros q o1. rewrite lookup_insert_Some. intros [[<- <-]|[_ Ho1]]; [rewrite Hc|]; by apply H2.
  - rewrite dom_insert_L, H3. apply elem_of_dom_2 in Ho. set_solver +Ho.
  - intros q o1. rewrite lookup_insert_Some. intros [[<- <-]|[Hne Ho1]] Hc1; [rewrite Hc in Hc1; destruct (Hcnt Hc1); tauto|].
    destruct (Hocc q) as [-> _]; [done|]. by apply H4.
  - intros q o1. rewrite lookup_insert_Some. intros [[<- <-]|[Hne Ho1]] Hc1; [rewrite Hc in Hc1; destruct (Hcnt Hc1); tauto|].
    destruct (Hocc q) as [_ ->]; [done|]. by apply H5.
  - intros q Hq. destruct (decide (q = p)) as [->|Hne]; [by apply (H2 p o Ho), Hdyn|]. apply H6. destruct (Hin q Hne). tauto.
  - eapply heap_objects; [|exact H7]. intros q Hq. split; [by apply Hcov'; right; right|]. unfold snap_xmin_at.
    destruct (decide (q = p)) as [->|Hne]; [|by rewrite lookup_insert_ne]. rewrite lookup_insert_eq, Ho. apply Hcov. tauto.
  - done.
Qed.

Section primitives.
Context (ob : Objects) (nd : Nodes) (root : option positive) (R A l : list positive) (xm fl : Z).

(** A reference comes or goes. *)
Lemma memory_regd_inc p o : ob !! p = Some o -> copied o = true -> regd_count o < 0xffffffff -> covered ob xm fl p ->
  memory ob nd root R A l xm fl ->
  memory (<[p := set_regd_count o (u32 (regd_count o + 1))]> ob) nd root (p :: R) A l xm fl.
Proof.
  intros Ho Hc Hb Hcov Hm. destruct (m_regd _ _ _ _ _ _ _ _ Hm p o Ho Hc) as [E1 _], (m_active _ _ _ _ _ _ _ _ Hm p o Ho Hc) as [E2 ?].
  pose proof (occ_nonneg p R). eapply memory_store; [done|done| | | | |exact Hm].
  - intros q Hq. rewrite occ_cons, decide_False by done. done.
  - done.
  - intros _. rewrite occ_cons, decide_True by done. cbn. rewrite u32_small by (unfold is_u32; lia). lia.
  - done.
Qed.

Lemma memory_regd_dec p o : ob !! p = Some o -> memory ob nd root (p :: R) A l xm fl ->
  copied o = true /\ regd_count o = 1 + occ p R /\
  memory (<[p := set_regd_count o (u32 (regd_count o - 1))]> ob) nd root R A l xm fl.
Proof.
  intros Ho Hm. pose proof (m_dynamic _ _ _ _ _ _ _ _ Hm p ltac:(left; left)) as Hs. apply (m_copied _ _ _ _ _ _ _ _ Hm p o Ho) in Hs as Hc.
  destruct (m_regd _ _ _ _ _ _ _ _ Hm p o Ho Hc) as [E1 Hb], (m_active _ _ _ _ _ _ _ _ Hm p o Ho Hc) as [E2 ?].
  rewrite occ_cons, decide_True in E1, Hb by done. pose proof (occ_nonneg p R). split; [done|]. split; [done|].
  eapply memory_store; [done|done| | | | |exact Hm].
  - intros q Hq. rewrite occ_cons, decide_False by done. done.
  - done.
  - intros _. cbn. rewrite u32_small by (unfold is_u32; lia). lia.
  - intros _. split; [|done]. apply (m_covered _ _ _ _ _ _ _ _ Hm). left. left.
Qed.

Lemma memory_active_inc p o : ob !! p = Some o -> copied o = true -> active_count o < 0xffffffff -> covered ob xm fl p ->
  memory ob nd root R A l xm fl ->
  memory (<[p := set_active_count o (u32 (active_count o + 1))]> ob) nd root R (p :: A) l xm fl.
Proof.
  intros Ho Hc Hb Hcov Hm. destruct (m_regd _ _ _ _ _ _ _ _ Hm p o Ho Hc) as [E1 ?], (m_active _ _ _ _ _ _ _ _ Hm p o Ho Hc) as [E2 _].
  pose proof (occ_nonneg p A). eapply memory_store; [done|done| | | | |exact Hm].
  - intros q Hq. rewrite occ_cons, decide_False by done. done.
  - done.
  - intros _. rewrite occ_cons, decide_True by done. cbn. rewrite u32_small by (unfold is_u32; lia). lia.
  - done.
Qed.

Lemma memory_active_dec p o : ob !! p = Some o -> memory ob nd root R (p :: A) l xm fl ->
  copied o = true /\ memory (<[p := set_active_count o (u32 (active_count o - 1))]> ob) nd root R A l xm fl.
Proof.
  intros Ho Hm. pose proof (m_dynamic _ _ _ _ _ _ _ _ Hm p ltac:(right; left)) as Hs. apply (m_copied _ _ _ _ _ _ _ _ Hm p o Ho) in Hs as Hc.
  destruct (m_regd _ _ _ _ _ _ _ _ Hm p o Ho Hc) as [E1 ?], (m_active _ _ _ _ _ _ _ _ Hm p o Ho Hc) as [E2 Hb].
  rewrite occ_cons, decide_True in E2, Hb by done. pose proof (occ_nonneg p A). split; [done|].
  eapply memory_store; [done|done| | | | |exact Hm].
  - intros q Hq. rewrite occ_cons, decide_False by done. done.
  - done.
  - intros _. cbn. rewrite u32_small by (unfold is_u32; lia). lia.
  - intros _. split; [|done]. apply (m_covered _ _ _ _ _ _ _ _ Hm). right. left. left.
Qed.

(** Contents change, not the counts. *)
Lemma memory_data p o d : ob !! p = Some o -> snap_xmin d = snap_xmin (snap_data o) -> memory ob nd root R A l xm fl ->
  memory (<[p := set_data o d]> ob) nd root R A l xm fl.
Proof.
  intros Ho Hd Hm. eapply memory_store; [done|done|done| | | |exact Hm].
  - intros Hin. apply (m_copied _ _ _ _ _ _ _ _ Hm p o Ho). by apply (m_dynamic _ _ _ _ _ _ _ _ Hm).
  - intros Hc. destruct (m_regd _ _ _ _ _ _ _ _ Hm p o Ho Hc), (m_active _ _ _ _ _ _ _ _ Hm p o Ho Hc). done.
  - intros Hin. split; [by apply (m_covered _ _ _ _ _ _ _ _ Hm)|done].
Qed.

(** A static struct that nobody refers to is overwritten. *)
Lemma memory_static p o : p ∈ statics -> p ∉ l -> copied o = false -> memory ob nd root R A l xm fl ->
  memory (<[p := o]> ob) nd root R A l xm fl.
Proof.
  intros Hs Hl Hc Hm. destruct (m_static _ _ _ _ _ _ _ _ Hm p Hs) as [o0 Ho0].
  assert (copied o0 = false) as Hc0 by (destruct (copied o0) eqn:E; [|done]; by apply (m_copied _ _ _ _ _ _ _ _ Hm p o0 Ho0) in E).
  assert (Hn : ~ (p ∈ R \/ p ∈ A)) by (intros Hin; by apply (m_dynamic _ _ _ _ _ _ _ _ Hm p Hin)).
  eapply memory_store; [done|congruence|done| | | |exact Hm]; [tauto|congruence|tauto].
Qed.

(** Nobody refers to the object any more. *)
Lemma memory_free p : p ∉ statics -> p ∉ R -> p ∉ A -> p ∉ l -> memory ob nd root R A l xm fl ->
  memory (delete p ob) (delete p nd) root R A l xm fl.
Proof.
  intros Hs HR HA Hl [H1 H2 H3 H4 H5 H6 H7 H8].
  assert (Hcov : forall q, q ∈ R \/ q ∈ A \/ q ∈ l -> covered (delete p ob) xm fl q).
  { intros q Hq. destruct (H8 q Hq) as (o & Ho & ?). exists o. rewrite lookup_delete_ne; [done|]. intros <-. tauto. }
  split; try done.
  - intros q Hq. rewrite lookup_delete_ne by (by intros <-). by apply H1.
  - intros q o [_ Ho]%lookup_delete_Some. by apply H2.
  - by rewrite !dom_delete_L, H3.
  - intros q o [_ Ho]%lookup_delete_Some. by apply H4.
  - intros q o [_ Ho]%lookup_delete_Some. by apply H5.
  - eapply heap_objects; [|eapply (is_heap_only _ _ _ _ _ _ [p]); [| |exact H7]].
    + intros q Hq. split; [by apply Hcov; right; right|]. unfold snap_xmin_at. by rewrite lookup_delete_ne by (by intros <-).
    + intros q Hq. rewrite lookup_delete_ne; [done|set_solver +Hq].
    + set_solver +Hl.
Qed.
End primitives.

(** Only the static structs remain. *)
Lemma memory_reset ob nd root R A l xm xm' fl fl' : memory ob nd root R A l xm fl ->
  memory (filter (fun e => copied e.2 = false) ob)
    (filter (fun e => is_Some ((filter (fun e => copied e.2 = false) ob : Objects) !! e.1)) nd) None [] [] [] xm' fl'.
Proof.
  intros [H1 H2 H3 H4 H5 H6 H7 H8]. split; try set_solver +.
  - intros p Hp. destruct (H1 p Hp) as [o Ho]. exists o. apply map_lookup_filter_Some. split; [done|]. cbn.
    destruct (copied o) eqn:E; [|done]. by apply (H2 p o Ho) in E.
  - intros p o [Ho _]%map_lookup_filter_Some. by apply H2.
  - apply set_eq. intros p. rewrite !elem_of_dom. split.
    + intros [n [_ Hn]%map_lookup_filter_Some]. exact Hn.
    + intros [o Ho]. assert (p ∈ dom nd) as [n Hn]%elem_of_dom.
      { rewrite H3. apply map_lookup_filter_Some in Ho as [Ho _]. by apply elem_of_dom_2 in Ho. }
      exists n. apply map_lookup_filter_Some. split; [done|]. cbn. by exists o.
  - intros p o [_ Hc]%map_lookup_filter_Some Hc'. cbn in Hc. congruence.
  - intros p o [_ Hc]%map_lookup_filter_Some Hc'. cbn in Hc. congruence.
  - apply is_heap_empty.
Qed.
End memory.
