(* ===== verification/SnapMgrInvariant.v ===== *)
(** * The snapshot manager: its invariant

    What the array of running transactions promises to the snapshot manager
    is a class here: a snapshot taken now has the xmin [floor], which never
    moves backwards.  Against it every operation of [SnapMgr] is shown to keep
    [snapmgr_ok]: reference counts are exact, the heap holds exactly the
    registered snapshots, and the advertised xmin covers every snapshot that
    somebody holds. *)

From S2P Require Import Prelude.
From S2P Require Import TransactionId.
From S2P Require Import Varsup.
From S2P Require Import Snapshot.
From S2P Require Import ProcArray.
From S2P Require Import PairingHeap.
From S2P Require Import SnapMgr.
From S2P Require Import SnapMgrMemory.

(** The xmin of a snapshot taken now by the backend with entry [my]. *)
Definition floor (pa : ProcArrayStruct) (my : nat) : Z :=
  let vis := MkGlobalVisState (MkFullTransactionId 0) (MkFullTransactionId 0) in
  col_xmin (snapshot_collect pa (MkBackend my 0 0 0 0 0 vis vis vis vis)).

Definition completions (pa : ProcArrayStruct) : Z := xactCompletionCount (TransamVariables pa).

(** What the array promises to the backend with entry [my]: [step] is what
    happens to it between the backend's own calls. *)
Class ArrayLaws (lo : Z) (my : nat) (inv : ProcArrayStruct -> Prop) (step : ProcArrayStruct -> ProcArrayStruct -> Prop) := {
  al_entry : forall pa, inv pa -> is_Some (procs pa !! my);
  al_floor : forall pa, inv pa -> in_use lo (floor pa my);
  al_xmin : forall pa x, inv pa -> x = InvalidTransactionId \/ in_use lo x -> inv (set_proc_xmin pa my x);
  al_flags : forall pa f, inv pa -> inv (set_proc_flags pa my f);
  al_step : forall pa pa', inv pa -> step pa pa' -> inv pa';
  al_forward : forall pa pa', inv pa -> step pa pa' -> xid_rank lo (floor pa my) <= xid_rank lo (floor pa' my);
  al_count : forall pa pa', inv pa -> step pa pa' -> completions pa <= completions pa';
  al_quiet : forall pa pa', inv pa -> step pa pa' -> completions pa' = completions pa -> floor pa' my = floor pa my;
}.

(** Advertising an xmin does not change what a snapshot contains. *)
Lemma collect_xmin_irrelevant xmax my x : forall l i k p c, l !! k = Some p ->
  collect_xids xmax my i (<[k := MkPGPROC (pgprocno p) (pid p) (proc_xid p) x (subxids p) (sub_overflowed p)
                                   (statusFlags p) (databaseId p)]> l) c = collect_xids xmax my i l c.
Proof.
  induction l as [|q l IH]; intros i [|k] p c Hk; cbn in Hk; try done.
  - injection Hk as ->. done.
  - cbn [insert list_insert collect_xids]. repeat (case_match; try done); by apply IH.
Qed.

Lemma snapshot_xmin_irrelevant pa k x be : is_Some (procs pa !! k) ->
  snapshot_collect (set_proc_xmin pa k x) be = snapshot_collect pa be.
Proof.
  intros [p Hp]. assert (E : snapshot_xmin0 (set_proc_xmin pa k x) be = snapshot_xmin0 pa be).
  { unfold snapshot_xmin0. change (snapshot_xmax (set_proc_xmin pa k x)) with (snapshot_xmax pa).
    replace (proc_xid (procs (set_proc_xmin pa k x) !!! my_pgxactoff be)) with (proc_xid (procs pa !!! my_pgxactoff be)); [done|].
    unfold set_proc_xmin. cbn. destruct (decide (k = my_pgxactoff be)) as [<-|Hne]; [|by rewrite list_lookup_total_insert_ne].
    rewrite list_lookup_total_insert_eq by (by eapply lookup_lt_Some). done. }
  unfold snapshot_collect. rewrite E. change (snapshot_xmax (set_proc_xmin pa k x)) with (snapshot_xmax pa).
  unfold set_proc_xmin. cbn [RecoveryInProgress set_procs procs knownAssigned lastOverflowedXid].
  rewrite (list_lookup_total_correct _ _ _ Hp), (collect_xmin_irrelevant _ _ _ _ _ _ _ _ Hp). done.
Qed.

Lemma floor_set_xmin pa my x : is_Some (procs pa !! my) -> floor (set_proc_xmin pa my x) my = floor pa my.
Proof. intros Hp. unfold floor. by rewrite snapshot_xmin_irrelevant. Qed.

(** Nor do the flags of the own entry. *)
Lemma collect_own_irrelevant xmax my p' : forall l i c, (i <= my)%nat -> (my - i < length l)%nat ->
  collect_xids xmax my i (<[(my - i)%nat := p']> l) c = collect_xids xmax my i l c.
Proof.
  induction l as [|q l IH]; intros i c Hi Hk; cbn in Hk; [lia|]. destruct (decide (i = my)) as [->|Hne].
  - rewrite Nat.sub_diag. cbn [insert list_insert collect_xids]. rewrite Nat.eqb_refl. by destruct (_ =? _), (_ =? _).
  - replace (my - i)%nat with (S (my - S i)) by lia. cbn [insert list_insert collect_xids].
    repeat (case_match; try done); apply IH; lia.
Qed.

Lemma floor_set_flags pa my f : is_Some (procs pa !! my) -> floor (set_proc_flags pa my f) my = floor pa my.
Proof.
  intros [p Hp]. unfold floor. set (be := MkBackend my _ _ _ _ _ _ _ _ _).
  assert (E : snapshot_xmin0 (set_proc_flags pa my f) be = snapshot_xmin0 pa be).
  { unfold snapshot_xmin0. cbn. rewrite list_lookup_total_insert_eq by (by eapply lookup_lt_Some). done. }
  unfold snapshot_collect. rewrite E. change (snapshot_xmax (set_proc_flags pa my f)) with (snapshot_xmax pa).
  unfold set_proc_flags. cbn [RecoveryInProgress set_procs procs knownAssigned lastOverflowedXid my_pgxactoff be].
  destruct (negb (RecoveryInProgress pa)); [|done]. f_equal.
  pose proof (collect_own_irrelevant (snapshot_xmax pa) my (MkPGPROC (pgprocno (procs pa !!! my)) (pid (procs pa !!! my)) (proc_xid (procs pa !!! my))
    (proc_xmin (procs pa !!! my)) (subxids (procs pa !!! my)) (sub_overflowed (procs pa !!! my)) f (databaseId (procs pa !!! my)))
    (procs pa) 0 (MkCollected (snapshot_xmin0 pa be) [] [] false) ltac:(lia)) as H.
  rewrite Nat.sub_0_r in H. apply H. by eapply lookup_lt_Some.
Qed.

Lemma floor_collect pa be : col_xmin (snapshot_collect pa be) = floor pa (my_pgxactoff be).
Proof. done. Qed.

Section invariant.
Context (lo : Z) (my : nat) (inv : ProcArrayStruct -> Prop) (step : ProcArrayStruct -> ProcArrayStruct -> Prop).
Context `{HA : !ArrayLaws lo my inv step}.
Context (palloc : gset positive -> positive) (Hpalloc : forall d, palloc d ∉ d).
Context `{HP : PredicateLocks} `{HL : !PredicateLocksLaws}.

Abbreviation rank := (xid_rank lo).
Abbreviation in_use := (in_use lo).
Abbreviation M := (prog SnapMgr SnapError).

(** ** The advertised xmin *)

(** A kept snapshot that may be reused is as good as a new one. *)
Definition reuse_ok (pa : ProcArrayStruct) (d : SnapshotData) : Prop :=
  snapXactCompletionCount d <= completions pa /\
  (snapXactCompletionCount d <> 0 -> completions pa = snapXactCompletionCount d -> snap_xmin d = floor pa my).

Definition now (st : SnapMgr) : Z := floor (sm_array st) my.

Record shared_ok (st : SnapMgr) : Prop := {
  sh_array : inv (sm_array st);
  sh_my : my_pgxactoff (sm_backend st) = my;
  sh_count : 0 <= completions (sm_array st);
  sh_xmin : TransactionIdIsValid (my_xmin st) = true -> in_use (my_xmin st) /\ rank (my_xmin st) <= rank (now st);
  sh_reuse : forall p o, p ∈ statics -> objects st !! p = Some o -> reuse_ok (sm_array st) (snap_data o);
}.

Lemma my_xmin_set x st : shared_ok st -> my_xmin (set_my_xmin x st) = x.
Proof.
  intros H. destruct (al_entry _ (sh_array _ H)) as [p Hp]. unfold my_xmin, set_my_xmin. cbn. rewrite (sh_my _ H).
  rewrite list_lookup_total_insert_eq by (by eapply lookup_lt_Some). done.
Qed.

Lemma now_set_xmin x st : shared_ok st -> now (set_my_xmin x st) = now st.
Proof. intros H. unfold now. cbn. rewrite (sh_my _ H). by apply floor_set_xmin, al_entry, sh_array. Qed.

Lemma shared_set_xmin x st : shared_ok st -> x = InvalidTransactionId \/ in_use x /\ rank x <= rank (now st) ->
  shared_ok (set_my_xmin x st).
Proof.
  intros H Hx. pose proof (al_entry _ (sh_array _ H)) as He. split.
  - cbn. rewrite (sh_my _ H). apply al_xmin; [apply H|tauto].
  - apply H.
  - apply H.
  - rewrite my_xmin_set, now_set_xmin by done. destruct Hx as [->|Hx]; [done|]. intros _. done.
  - intros p o Hp Ho. destruct (sh_reuse _ H p o Hp Ho) as [H1 H2]. split; [done|]. intros Hn Hc. rewrite (H2 Hn Hc).
    symmetry. apply (now_set_xmin x st H).
Qed.

(** [GetSnapshotData] for a static struct. *)
Lemma taken st cid d : shared_ok st -> reuse_ok (sm_array st) d ->
  let r := GetSnapshotData cid d (sm_array st) (sm_backend st) in
  let st' := set_shared st r.2.1 r.2.2 in
  let x := if TransactionIdIsValid (my_xmin st) then my_xmin st else now st in
  shared_ok st' /\ my_xmin st' = x /\ now st' = now st /\ snap_xmin r.1 = now st /\ reuse_ok (sm_array st') r.1 /\
  in_use x /\ rank x <= rank (now st).
Proof.
  intros H [Hle Hre]. destruct (al_entry _ (sh_array _ H)) as [p Hp].
  intros r. assert (Hr : snap_xmin r.1 = now st /\ r.2.1 = (install_xmin (now st) (sm_array st) (sm_backend st)).1 /\
    my_pgxactoff r.2.2 = my /\ (snapXactCompletionCount r.1 = completions (sm_array st) \/
       snapXactCompletionCount r.1 = snapXactCompletionCount d /\ snap_xmin d = now st)).
  { unfold r, GetSnapshotData, GetSnapshotDataReuse. destruct (Z.eqb_spec (snapXactCompletionCount d) 0) as [E0|E0].
    2: destruct (Z.eqb_spec (xactCompletionCount (TransamVariables (sm_array st))) (snapXactCompletionCount d)) as [E1|E1]; cbn [negb].
    2:{ cbn. rewrite (Hre E0 E1). repeat split; [by apply H|by right]. }
    all: cbn -[snapshot_collect]; rewrite floor_collect, (sh_my _ H); repeat split; by left. }
  clearbody r. destruct Hr as (E1 & E2 & E3 & E4). intros st' x.
  assert (Hx : in_use x /\ rank x <= rank (now st)).
  { unfold x. destruct (TransactionIdIsValid (my_xmin st)) eqn:Ev; [by apply H|]. split; [by apply al_floor, H|lia]. }
  assert (Hpa : sm_array st' = if TransactionIdIsValid (my_xmin st) then sm_array st else set_proc_xmin (sm_array st) my x).
  { cbn. rewrite E2. unfold install_xmin, x. cbn. fold (my_xmin st). rewrite (sh_my _ H). by destruct (TransactionIdIsValid (my_xmin st)). }
  assert (Hnow : now st' = now st).
  { unfold now. rewrite Hpa. destruct (TransactionIdIsValid (my_xmin st)); [done|]. apply floor_set_xmin, al_entry, H. }
  assert (Hcount : completions (sm_array st') = completions (sm_array st)) by (rewrite Hpa; by destruct (TransactionIdIsValid (my_xmin st))).
  assert (Hxm : my_xmin st' = x).
  { unfold my_xmin. rewrite Hpa. cbn [sm_backend set_shared st']. rewrite E3. unfold x in *.
    destruct (TransactionIdIsValid (my_xmin st)) eqn:Ev; [unfold my_xmin; by rewrite (sh_my _ H)|].
    cbn. rewrite list_lookup_total_insert_eq by (by eapply lookup_lt_Some). done. }
  split; [|split; [done|split; [done|split; [done|split; [split|done]]]]].
  - split.
    + rewrite Hpa. destruct (TransactionIdIsValid (my_xmin st)); [apply H|]. apply al_xmin; [apply H|tauto].
    + done.
    + rewrite Hcount. apply H.
    + rewrite Hxm, Hnow. tauto.
    + intros q o Hq Ho. destruct (sh_reuse _ H q o Hq Ho) as [H1 H2]. split; rewrite Hcount; [done|]. intros Hn Hc. rewrite (H2 Hn Hc).
      symmetry. exact Hnow.
  - rewrite Hcount. destruct E4 as [->|[-> _]]; lia.
  - intros _ _. rewrite E1. symmetry. exact Hnow.
Qed.

(** ** Primitive steps *)

(** The references [R] and [A] are accounted for, the heap holds [l]. *)
Definition good (st : SnapMgr) (R A l : list positive) : Prop :=
  shared_ok st /\ memory lo (objects st) (ph_nodes st) (RegisteredSnapshots st) R A l (my_xmin st) (now st).

(** The same while a transaction ends, when the xmin [xm] that covers the
    snapshots need not be advertised any more. *)
Definition accounted (xm : Z) (st : SnapMgr) (R A l : list positive) : Prop :=
  shared_ok st /\ memory lo (objects st) (ph_nodes st) (RegisteredSnapshots st) R A l xm (now st).

Abbreviation covered_in st p := (covered lo (objects st) (my_xmin st) (now st) p).

(** The pointer variables stay. *)
Record frame (st st' : SnapMgr) : Prop := {
  fr_current : CurrentSnapshot st' = CurrentSnapshot st;
  fr_secondary : SecondarySnapshot st' = SecondarySnapshot st;
  fr_catalog : CatalogSnapshot st' = CatalogSnapshot st;
  fr_historic : HistoricSnapshot st' = HistoricSnapshot st;
  fr_active : ActiveSnapshot st' = ActiveSnapshot st;
  fr_oldest : OldestActiveSnapshot st' = OldestActiveSnapshot st;
  fr_set : FirstSnapshotSet st' = FirstSnapshotSet st;
  fr_first : FirstXactSnapshot st' = FirstXactSnapshot st;
  fr_exported : exportedSnapshots st' = exportedSnapshots st;
  fr_owners : ResourceOwners st' = ResourceOwners st;
}.

(** Snapshots outside [T] keep their contents. *)
Definition keeps (T : positive -> Prop) (st st' : SnapMgr) : Prop :=
  forall p o, ~ T p -> objects st !! p = Some o -> exists o', objects st' !! p = Some o' /\ snap_data o' = snap_data o.

(** Nothing outside the backend's own memory happens. *)
Definition private (st st' : SnapMgr) : Prop := sm_array st' = sm_array st /\ sm_backend st' = sm_backend st.

Lemma private_refl st : private st st.
Proof. done. Qed.
Lemma private_trans st st1 st2 : private st st1 -> private st1 st2 -> private st st2.
Proof. intros [] []. split; congruence. Qed.
Lemma private_xmin st st' : private st st' -> my_xmin st' = my_xmin st.
Proof. intros [E1 E2]. unfold my_xmin. by rewrite E1, E2. Qed.
Lemma private_now st st' : private st st' -> now st' = now st.
Proof. intros [E1 E2]. unfold now. by rewrite E1. Qed.

Lemma frame_refl st : frame st st.
Proof. by split. Qed.
Lemma frame_trans st st1 st2 : frame st st1 -> frame st1 st2 -> frame st st2.
Proof. intros [] []. split; congruence. Qed.
Lemma keeps_self T st : keeps T st st.
Proof. intros p o _ Ho. by exists o. Qed.
Lemma keeps_next T st st1 st2 : keeps T st st1 -> keeps T st1 st2 -> keeps T st st2.
Proof. intros H1 H2 p o Hp Ho. destruct (H1 p o Hp Ho) as (o1 & Ho1 & <-). by apply H2. Qed.
Lemma keeps_sub (T T' : positive -> Prop) st st' : (forall p, T p -> T' p) -> keeps T st st' -> keeps T' st st'.
Proof. intros Hs Hk p o Hp. apply Hk. auto. Qed.

Definition nothing : positive -> Prop := fun _ => False.

(** A step that cannot fail. *)
Definition gives {A} (Q : A -> SnapMgr -> Prop) : SnapError + A -> SnapMgr -> Prop :=
  fun o st => match o with inl _ => False | inr a => Q a st end.

Lemma wp_gives {A B} (m : M A) (k : A -> M B) (Q : A -> SnapMgr -> Prop) P st :
  wp m (gives Q) st -> (forall a st', Q a st' -> wp (k a) P st') -> wp (pbind m k) P st.
Proof. intros Hm Hk. apply wp_bind. eapply wp_mono; [|exact Hm]. intros [e|a] st'; [done|apply Hk]. Qed.

Lemma load_spec p o st : objects st !! p = Some o -> wp (load_snapshot p) (gives (fun a st' => a = o /\ st' = st)) st.
Proof. unfold wp, load_snapshot. by intros ->. Qed.

Lemma store_spec p o f st : objects st !! p = Some o ->
  wp (store_snapshot p f) (gives (fun _ st' => st' = set_memory st (<[p := f o]> (objects st)) (ph_nodes st))) st.
Proof. intros Ho. unfold store_snapshot. eapply wp_gives; [by apply load_spec|]. intros a st' [-> ->]. by apply wp_mod. Qed.

Lemma good_covered st R A l p : good st R A l -> p ∈ R \/ p ∈ A \/ p ∈ l -> covered_in st p.
Proof. intros [_ Hm]. apply (m_covered _ _ _ _ _ _ _ _ _ Hm). Qed.

Lemma good_perm st R R' A A' l l' : R ≡ₚ R' -> A ≡ₚ A' -> l ≡ₚ l' -> good st R A l -> good st R' A' l'.
Proof. intros ??? [Hs Hm]. split; [done|]. by eapply memory_perm. Qed.

(** The pointer variables do not matter. *)
Lemma accounted_same xm st st' R A l : objects st' = objects st -> ph_nodes st' = ph_nodes st -> RegisteredSnapshots st' = RegisteredSnapshots st ->
  sm_array st' = sm_array st -> sm_backend st' = sm_backend st -> accounted xm st R A l -> accounted xm st' R A l.
Proof.
  intros E1 E2 E3 E4 E5 [[H1 H2 H3 H4 H5] Hm]. assert (Ex : my_xmin st' = my_xmin st) by (unfold my_xmin; by rewrite E4, E5).
  assert (En : now st' = now st) by (unfold now; by rewrite E4).
  split; [|by rewrite E1, E2, E3, En]. split; rewrite ?E1, ?E4, ?E5, ?Ex, ?En; done.
Qed.

Lemma good_same st st' R A l : objects st' = objects st -> ph_nodes st' = ph_nodes st -> RegisteredSnapshots st' = RegisteredSnapshots st ->
  sm_array st' = sm_array st -> sm_backend st' = sm_backend st -> good st R A l -> good st' R A l.
Proof.
  intros E1 E2 E3 E4 E5 Hg. unfold good. replace (my_xmin st') with (my_xmin st) by (unfold my_xmin; by rewrite E4, E5).
  by apply (accounted_same (my_xmin st) st).
Qed.

(** [shared_ok] reads of memory only the static structs. *)
Lemma shared_memory st ob nd : (forall p o, p ∈ statics -> ob !! p = Some o -> reuse_ok (sm_array st) (snap_data o)) ->
  shared_ok st -> shared_ok (set_memory st ob nd).
Proof. intros Hr [H1 H2 H3 H4 _]. by split. Qed.

Lemma shared_insert st p o nd : p ∉ statics -> shared_ok st -> shared_ok (set_memory st (<[p := o]> (objects st)) nd).
Proof.
  intros Hp Hs. apply shared_memory; [|done]. intros q o' Hq Ho. apply (sh_reuse _ Hs q o' Hq).
  rewrite lookup_insert_ne in Ho; [done|]. by intros <-.
Qed.

Lemma dynamic st R A l p o : good st R A l -> objects st !! p = Some o -> copied o = true -> p ∉ statics.
Proof. intros [_ Hm] Ho. by apply (m_copied _ _ _ _ _ _ _ _ _ Hm p o Ho). Qed.

Lemma keeps_insert st p o o' nd : objects st !! p = Some o -> snap_data o' = snap_data o ->
  keeps nothing st (set_memory st (<[p := o']> (objects st)) nd).
Proof.
  intros Ho Hd q o1 _ Ho1. cbn. destruct (decide (p = q)) as [->|Hne]; [|rewrite lookup_insert_ne by done; by exists o1].
  rewrite lookup_insert_eq. exists o'. split; [done|congruence].
Qed.

(** The heap. *)
Lemma heap_add_spec p st R A l : good st R A l -> covered_in st p -> p ∉ l ->
  wp (heap_add p) (gives (fun _ st' => good st' R A (p :: l) /\ frame st st' /\ objects st' = objects st /\ private st st')) st.
Proof.
  intros [Hs Hm] Hc Hp. assert (Hn : is_Some (ph_nodes st !! p)).
  { apply elem_of_dom. rewrite (m_nodes _ _ _ _ _ _ _ _ _ Hm). destruct Hc as (o & Ho & _). by apply elem_of_dom_2 in Ho. }
  assert (Hcov : forall q, q ∈ p :: l -> covered_in st q).
  { intros q [->|Hq]%elem_of_cons; [done|]. apply (m_covered _ _ _ _ _ _ _ _ _ Hm). tauto. }
  destruct (add_run Fault _ _ _ _ _ p (m_heap _ _ _ _ _ _ _ _ _ Hm) Hn Hp (covered_all lo _ _ _ _ Hcov)) as (n & root & E & Hh & Ho).
  unfold wp, heap_add, on_heap. rewrite E. cbn. split; [|by split]. split; [by destruct Hs|].
  destruct Hm as [H1 H2 H3 H4 H5 H6 H7 H8]. split; try done.
  - cbn. rewrite <- H3. pose proof (same_nodes_add Fault (xmin_cmp (objects st)) (RegisteredSnapshots st) p (ph_nodes st)) as Hd. by rewrite E in Hd.
  - intros q Hq. destruct Hq as [Hq|[Hq|Hq]]; [apply H8; tauto..|by apply Hcov].
Qed.

Lemma heap_remove_acc xm p st R A l : accounted xm st R A l -> p ∈ l ->
  wp (heap_remove p) (gives (fun _ st' => exists l', l ≡ₚ p :: l' /\ accounted xm st' R A l' /\ frame st st' /\ objects st' = objects st /\ private st st')) st.
Proof.
  intros [Hs Hm] Hp. destruct (remove_run Fault _ _ _ _ _ p (m_heap _ _ _ _ _ _ _ _ _ Hm) Hp) as (n & root & l' & E & Hh & Hl & Ho).
  unfold wp, heap_remove, on_heap. rewrite E. cbn. exists l'. split; [done|]. split; [|by split]. split; [by destruct Hs|].
  destruct Hm as [H1 H2 H3 H4 H5 H6 H7 H8]. split; try done.
  - cbn. rewrite <- H3. pose proof (same_nodes_remove Fault (xmin_cmp (objects st)) (RegisteredSnapshots st) p (ph_nodes st)) as Hd. by rewrite E in Hd.
  - intros q Hq. apply H8. destruct Hq as [Hq|[Hq|Hq]]; [tauto..|]. rewrite Hl. set_solver +Hq.
Qed.

(** Private steps that keep the accounts keep the advertised xmin in force. *)
Lemma good_private st st' R A l : private st st' -> accounted (my_xmin st) st' R A l -> good st' R A l.
Proof. intros Hp [Hs Hm]. split; [done|]. by rewrite (private_xmin _ _ Hp). Qed.

Lemma heap_remove_spec p st R A l : good st R A l -> p ∈ l ->
  wp (heap_remove p) (gives (fun _ st' => exists l', l ≡ₚ p :: l' /\ good st' R A l' /\ frame st st' /\ objects st' = objects st /\ private st st')) st.
Proof.
  intros Hg Hp. eapply wp_mono; [|by apply (heap_remove_acc (my_xmin st) p st R A l)]. intros [e|[]] st'; [done|].
  intros (l' & Hl & Ha & Hf & Ho & Hpv). exists l'. split; [done|]. split; [by eapply good_private|done].
Qed.

Lemma good_set_xmin x st R A l : good st R A l -> in_use x /\ rank x <= rank (now st) ->
  (forall p o, p ∈ R \/ p ∈ A \/ p ∈ l -> objects st !! p = Some o -> rank x <= rank (snap_xmin (snap_data o))) ->
  good (set_my_xmin x st) R A l.
Proof.
  intros [Hs Hm] Hx Hle. split; [apply shared_set_xmin; auto|]. rewrite my_xmin_set, now_set_xmin by done.
  eapply memory_xmin; [apply Hx|exact Hle|exact Hm].
Qed.

(** Even while a transaction ends, [SnapshotResetXmin] finds the oldest
    registered snapshot in memory. *)
Lemma reset_acc xm st R A l : accounted xm st R A l ->
  wp SnapshotResetXmin (gives (fun _ st' => accounted xm st' R A l /\ frame st st' /\ objects st' = objects st /\
    (l = [] -> my_xmin st' = InvalidTransactionId \/ my_xmin st' = my_xmin st))) st.
Proof.
  intros [Hs Hm]. assert (Hset : forall x, x = InvalidTransactionId \/ in_use x /\ rank x <= rank (now st) ->
    accounted xm (set_my_xmin x st) R A l) by (intros x Hx; split; [by apply shared_set_xmin|by rewrite now_set_xmin]).
  unfold SnapshotResetXmin. apply wp_bind, wp_get. case_bool_decide; cbn [negb]; [|apply wp_ret; split; [done|]; split; [done|]; split; [done|by right]].
  apply wp_bind, wp_get. unfold pairingheap_first. destruct (RegisteredSnapshots st) as [p|] eqn:Er.
  - pose proof (m_heap _ _ _ _ _ _ _ _ _ Hm) as Hh. destruct (first_max _ _ _ _ _ Hh) as [Hp _].
    destruct (m_covered _ _ _ _ _ _ _ _ _ Hm p ltac:(tauto)) as (o & Ho & Hu & _ & Hle).
    eapply wp_gives; [by apply load_spec|]. intros ? ? [-> ->]. apply wp_bind, wp_get. rewrite <- Er in Hm.
    destruct (TransactionIdPrecedes _ _); [apply wp_mod|apply wp_ret; split; [done|]; split; [done|]; split; [done|by right]].
    split; [apply Hset; right; split; [done|lia]|]. split; [done|]. split; [done|]. intros ->. set_solver +Hp.
  - apply wp_mod. split; [apply Hset; by left|]. split; [done|]. split; [done|]. intros _. left. by apply my_xmin_set.
Qed.

(** [SnapshotResetXmin] never uncovers a snapshot.  With nothing active it
    leaves the oldest registered xmin advertised, or none. *)
Lemma reset_xmin_spec st R A l : good st R A l -> (ActiveSnapshot st = [] -> A = []) -> (forall p, p ∈ R -> p ∈ l) ->
  wp SnapshotResetXmin (gives (fun _ st' => good st' R A l /\ frame st st' /\ objects st' = objects st /\ now st' = now st /\
    (ActiveSnapshot st = [] ->
       (l = [] -> my_xmin st' = InvalidTransactionId) /\
       (l <> [] -> exists p, p ∈ l /\ my_xmin st' = snap_xmin_at (objects st) p)))) st.
Proof.
  intros Hg HAe HR. pose proof Hg as [Hs Hm]. unfold SnapshotResetXmin. apply wp_bind, wp_get.
  case_bool_decide as Ea; cbn [negb]; [|by apply wp_ret]. specialize (HAe Ea) as ->.
  apply wp_bind, wp_get. unfold pairingheap_first. destruct (RegisteredSnapshots st) as [p|] eqn:Er.
  - rewrite <- Er in Hm. pose proof (m_heap _ _ _ _ _ _ _ _ _ Hm) as Hh. rewrite Er in Hh. destruct (first_max _ _ _ _ _ Hh) as [Hp Hmax].
    destruct (good_covered _ _ _ _ p Hg ltac:(tauto)) as (o & Ho & Hu & Hx & Hle).
    assert (Hat : forall q oq, objects st !! q = Some oq -> snap_xmin_at (objects st) q = snap_xmin (snap_data oq)) by (intros q oq Hq; unfold snap_xmin_at; by rewrite Hq).
    eapply wp_gives; [by apply load_spec|]. intros ? ? [-> ->]. apply wp_bind, wp_get.
    rewrite (precedes_rank lo) by done. destruct (Z.ltb_spec (rank (my_xmin st)) (rank (snap_xmin (snap_data o)))) as [Hlt|Hge]; cbn [pwhen].
    + apply wp_mod. cbn -[set_my_xmin]. split; [|split; [done|split; [done|split; [by apply now_set_xmin|]]]].
      * apply good_set_xmin; [done|split; [done|lia]|]. intros q oq Hq Hoq. assert (Hql : q ∈ l) by (destruct Hq as [?|[?%elem_of_nil|?]]; auto; done).
        specialize (Hmax q Hql). unfold heap_key in Hmax. rewrite (Hat _ _ Ho), (Hat _ _ Hoq) in Hmax. lia.
      * intros _. split; [intros ->; set_solver +Hp|]. intros _. exists p. split; [done|]. by rewrite my_xmin_set, (Hat _ _ Ho).
    + apply wp_ret. split; [done|]. split; [done|]. split; [done|]. split; [done|]. intros _. split; [intros ->; set_solver +Hp|]. intros _. exists p. split; [done|].
      rewrite (Hat _ _ Ho). apply (rank_inj lo); [apply Hx|apply Hu|lia].
  - rewrite <- Er in Hm. pose proof (m_heap _ _ _ _ _ _ _ _ _ Hm) as Hh. rewrite Er in Hh. apply is_heap_none in Hh as [Hl _]. specialize (Hl eq_refl) as ->.
    assert (R = []) as -> by (destruct R as [|q R]; [done|]; specialize (HR q ltac:(left)); set_solver +HR).
    apply wp_mod. cbn -[set_my_xmin]. split; [|split; [done|split; [done|split; [by apply now_set_xmin|]]]].
    + split; [apply shared_set_xmin; auto|]. eapply memory_xmin_none. rewrite now_set_xmin by done. exact Hm.
    + intros _. split; [|done]. intros _. by apply my_xmin_set.
Qed.

(** A copy of a covered snapshot, to which nobody refers yet. *)
Definition fresh_copy (st : SnapMgr) (o : SnapshotObject) (q : positive) (st' : SnapMgr) : Prop :=
  objects st !! q = None /\ q ∉ statics /\ frame st st' /\ keeps nothing st st' /\
  objects st' !! q = Some (MkObject (copy_data (snap_data o)) 0 0 true (snap_lsn o) (whenTaken o)).

Lemma copy_spec p o st R A l : good st R A l -> objects st !! p = Some o ->
  wp (CopySnapshot palloc p) (gives (fun q st' => good st' R A l /\ fresh_copy st o q st' /\
    q ∉ R /\ q ∉ A /\ q ∉ l /\ (covered_in st p -> covered_in st' q) /\ private st st')) st.
Proof.
  intros [Hs Hm] Ho. unfold CopySnapshot. eapply wp_gives; [by apply load_spec|]. intros ? ? [-> ->].
  unfold wp, palloc_snapshot. cbn. set (q := palloc _).
  assert (Hq : q ∉ dom (objects st)) by apply Hpalloc. assert (Hq' : objects st !! q = None) by (by apply not_elem_of_dom).
  assert (Hqs : q ∉ statics) by (intros Hin; destruct (m_static _ _ _ _ _ _ _ _ _ Hm q Hin); congruence).
  assert (Hn : forall z, z ∈ R \/ z ∈ A \/ z ∈ l -> z <> q).
  { intros z Hz ->. destruct (m_covered _ _ _ _ _ _ _ _ _ Hm q Hz) as (oz & Hoz & _). congruence. }
  split; [|split; [|split; [|split; [|split; [|split]]]]].
  - split; [by apply shared_insert|]. by apply memory_alloc.
  - split; [done|]. split; [done|]. split; [done|]. split; [|cbn; by rewrite lookup_insert_eq].
    intros z oz _ Hz. exists oz. cbn. rewrite lookup_insert_ne by congruence. done.
  - intros Hz. by eapply Hn; [left|].
  - intros Hz. by eapply Hn; [right; left|].
  - intros Hz. by eapply Hn; [right; right|].
  - intros (o1 & Ho1 & ?). rewrite Ho in Ho1. injection Ho1 as <-. eexists. cbn. by rewrite lookup_insert_eq.
  - done.
Qed.

(** Freeing what nobody refers to. *)
Lemma free_acc xm p o st R A l : accounted xm st R A l -> objects st !! p = Some o -> copied o = true -> (p ∈ l -> p ∈ R) ->
  wp (free_unreferenced p) (gives (fun b st' => accounted xm st' R A l /\ frame st st' /\ private st st' /\
    keeps (fun q => q = p /\ p ∉ R /\ p ∉ A) st st' /\ (b = true -> p ∉ R) /\ (b = false -> st' = st /\ (p ∈ R \/ p ∈ A)))) st.
Proof.
  intros Hg Ho Hc Hl. pose proof Hg as [Hs Hm]. unfold free_unreferenced. eapply wp_gives; [by apply load_spec|]. intros ? ? [-> ->].
  destruct (m_regd _ _ _ _ _ _ _ _ _ Hm p o Ho Hc) as [E1 _], (m_active _ _ _ _ _ _ _ _ _ Hm p o Ho Hc) as [E2 _].
  assert (Hps : p ∉ statics) by (by apply (m_copied _ _ _ _ _ _ _ _ _ Hm p o Ho)). rewrite E1, E2.
  destruct (Z.eqb_spec (occ p A) 0) as [HA0|HA0], (Z.eqb_spec (occ p R) 0) as [HR0|HR0]; cbn [andb].
  - apply occ_zero in HA0, HR0. unfold FreeSnapshot.
    eapply (wp_gives _ _ (fun _ s' => s' = set_memory st (delete p (objects st)) (delete p (ph_nodes st)))).
    { eapply wp_gives; [by apply load_spec|]. intros ? ? [-> ->]. by apply wp_mod. }
    intros _ ? ->. apply wp_ret. split; [split; [|apply memory_free; auto]|split; [done|split; [done|split; [|done]]]].
    + apply shared_memory; [|done]. intros q oq Hq [_ Hoq]%lookup_delete_Some. by eapply sh_reuse.
    + intros q oq Hq Hoq. exists oq. cbn. rewrite lookup_delete_ne; [done|]. intros <-. tauto.
  - apply wp_ret. split; [done|]. split; [done|]. split; [done|]. split; [apply keeps_self|]. split; [done|]. intros _. split; [done|].
    left. by rewrite occ_zero in HR0; apply dec_stable.
  - apply wp_ret. split; [done|]. split; [done|]. split; [done|]. split; [apply keeps_self|]. split; [done|]. intros _. split; [done|].
    right. by rewrite occ_zero in HA0; apply dec_stable.
  - apply wp_ret. split; [done|]. split; [done|]. split; [done|]. split; [apply keeps_self|]. split; [done|]. intros _. split; [done|].
    right. by rewrite occ_zero in HA0; apply dec_stable.
Qed.

Lemma free_spec p o st R A l : good st R A l -> objects st !! p = Some o -> copied o = true -> (p ∈ l -> p ∈ R) ->
  wp (free_unreferenced p) (gives (fun b st' => good st' R A l /\ frame st st' /\ private st st' /\
    keeps (fun q => q = p /\ p ∉ R /\ p ∉ A) st st' /\ (b = true -> p ∉ R) /\ (b = false -> st' = st /\ (p ∈ R \/ p ∈ A)))) st.
Proof.
  intros Hg Ho Hc Hl. eapply wp_mono; [|by apply (free_acc (my_xmin st) p o st R A l)]. intros [e|b] st'; [done|].
  intros (Ha & Hf & Hpv & Hr). split; [by eapply good_private|]. done.
Qed.

(** Taking a snapshot into a static struct that is not in the heap. *)
Definition overwrites (p : positive) : positive -> Prop := fun q => q = p.

Lemma taken_good p st st' R A l r : good st R A l -> p ∈ statics -> p ∉ l ->
  (exists cid o, objects st !! p = Some o /\ r = GetSnapshotData cid (snap_data o) (sm_array st) (sm_backend st)) ->
  st' = set_memory (set_shared st r.2.1 r.2.2) (<[p := MkObject r.1 0 0 false 0 0]> (objects st)) (ph_nodes st) ->
  good st' R A l /\ frame st st' /\ keeps (overwrites p) st st' /\ covered_in st' p /\ snap_xmin r.1 = now st /\ now st' = now st /\
  TransactionIdIsValid (my_xmin st') = true.
Proof.
  intros [Hs Hm] Hp Hpl (cid & o & Ho & ->) ->.
  destruct (taken st cid (snap_data o) Hs (sh_reuse _ Hs p o Hp Ho)) as (Hs' & Ex & En & E1 & Hre & Hux & Hxle).
  set (r := GetSnapshotData _ _ _ _) in *. set (st1 := set_shared st r.2.1 r.2.2) in *.
  assert (Hm1 : memory lo (objects st1) (ph_nodes st1) (RegisteredSnapshots st1) R A l (my_xmin st1) (now st1)).
  { rewrite Ex, En. cbn. destruct (TransactionIdIsValid (my_xmin st)) eqn:Ev; [done|].
    assert (Hnone : forall q, ~ (q ∈ R \/ q ∈ A \/ q ∈ l)).
    { intros q Hq. destruct (m_covered _ _ _ _ _ _ _ _ _ Hm q Hq) as (? & _ & _ & Hu & _). apply in_use_valid in Hu. congruence. }
    eapply memory_xmin; [done| |exact Hm]. intros q oq Hq. by apply Hnone in Hq. }
  split; [split|].
  - apply shared_memory; [|done]. intros q oq Hq. cbn. rewrite lookup_insert_Some. intros [[<- <-]|[_ Hoq]]; [done|].
    by apply (sh_reuse _ Hs' q oq Hq).
  - apply memory_static; done.
  - split; [done|]. split; [|split; [|split; [done|split; [done|]]]].
    + intros q oq Hq Hoq. exists oq. cbn. rewrite lookup_insert_ne; [done|]. by intros <-.
    + change (my_xmin (set_memory st1 _ _)) with (my_xmin st1). change (now (set_memory st1 _ _)) with (now st1). rewrite Ex, En.
      eexists. cbn. rewrite lookup_insert_eq. split; [done|]. cbn. rewrite E1. split; [by apply al_floor, Hs|]. split; [done|]. lia.
    + change (my_xmin (set_memory st1 _ _)) with (my_xmin st1). rewrite Ex. by eapply in_use_valid.
Qed.

Lemma take_spec cid p st R A l : good st R A l -> p ∈ statics -> p ∉ l ->
  wp (take_snapshot cid p) (gives (fun q st' => q = p /\ good st' R A l /\ frame st st' /\ keeps (overwrites p) st st' /\
    covered_in st' p /\ now st' = now st /\ snap_xmin_at (objects st') p = now st)) st.
Proof.
  intros Hg Hp Hpl. destruct (m_static _ _ _ _ _ _ _ _ _ (proj2 Hg) p Hp) as [o Ho].
  unfold take_snapshot. eapply wp_gives; [by apply load_spec|]. intros ? ? [-> ->]. apply wp_bind, wp_get, wp_bind, wp_mod.
  eapply wp_gives; [by apply (store_spec p o)|]. intros ? st' E. apply wp_ret.
  destruct (taken_good p st st' R A l _ Hg Hp Hpl ltac:(eauto) E) as (H1 & H2 & H3 & H4 & H5 & H6 & _).
  split; [done|]. split; [done|]. split; [done|]. split; [done|]. split; [done|]. split; [done|]. rewrite E. cbn. unfold snap_xmin_at.
  by rewrite lookup_insert_eq.
Qed.

(** A reference count goes up or down. *)
Definition stored (p : positive) (o' : SnapshotObject) (st st' : SnapMgr) : Prop :=
  frame st st' /\ keeps nothing st st' /\ objects st' !! p = Some o' /\ private st st'.

Lemma stored_set p o o' st : objects st !! p = Some o -> snap_data o' = snap_data o ->
  stored p o' st (set_memory st (<[p := o']> (objects st)) (ph_nodes st)).
Proof. intros Ho Hd. split; [done|]. split; [by eapply keeps_insert|]. split; [cbn; by rewrite lookup_insert_eq|done]. Qed.

Lemma regd_inc_spec p o st R A l : good st R A l -> objects st !! p = Some o -> copied o = true -> regd_count o < 0xffffffff ->
  covered_in st p ->
  wp (store_snapshot p (fun o => set_regd_count o (u32 (regd_count o + 1)))) (gives (fun _ st' =>
    good st' (p :: R) A l /\ stored p (set_regd_count o (regd_count o + 1)) st st')) st.
Proof.
  intros Hg Ho Hc Hb Hcov. eapply wp_mono; [|by apply (store_spec p o)]. intros [e|[]] st'; [done|]. intros ->.
  pose proof (dynamic _ _ _ _ _ _ Hg Ho Hc) as Hs. destruct Hg as [Hsh Hm].
  destruct (m_regd _ _ _ _ _ _ _ _ _ Hm p o Ho Hc) as [E _]. pose proof (occ_nonneg p R).
  split; [split; [by apply shared_insert|by apply memory_regd_inc]|]. rewrite <- (u32_small (regd_count o + 1)) at 1 by (unfold is_u32; lia).
  by eapply stored_set.
Qed.

Lemma regd_dec_acc xm p o st R A l : accounted xm st (p :: R) A l -> objects st !! p = Some o ->
  wp (store_snapshot p (fun o => set_regd_count o (u32 (regd_count o - 1)))) (gives (fun _ st' =>
    accounted xm st' R A l /\ stored p (set_regd_count o (occ p R)) st st' /\ copied o = true)) st.
Proof.
  intros [Hsh Hm] Ho. eapply wp_mono; [|by apply (store_spec p o)]. intros [e|[]] st'; [done|]. intros ->.
  destruct (memory_regd_dec lo _ _ _ _ _ _ _ _ p o Ho Hm) as (Hc & E & Hm'). assert (Hs : p ∉ statics) by (by apply (m_copied _ _ _ _ _ _ _ _ _ Hm p o Ho)).
  pose proof (occ_nonneg p R). destruct (m_regd _ _ _ _ _ _ _ _ _ Hm p o Ho Hc) as [E1 Hb].
  split; [split; [by apply shared_insert|done]|]. split; [|done].
  replace (occ p R) with (u32 (regd_count o - 1)) by (rewrite u32_small; unfold is_u32; lia). by eapply stored_set.
Qed.

Lemma active_inc_spec p o st R A l : good st R A l -> objects st !! p = Some o -> copied o = true -> active_count o < 0xffffffff ->
  covered_in st p ->
  wp (store_snapshot p (fun o => set_active_count o (u32 (active_count o + 1)))) (gives (fun _ st' =>
    good st' R (p :: A) l /\ exists o', stored p o' st st')) st.
Proof.
  intros Hg Ho Hc Hb Hcov. eapply wp_mono; [|by apply (store_spec p o)]. intros [e|[]] st'; [done|]. intros ->.
  pose proof (dynamic _ _ _ _ _ _ Hg Ho Hc) as Hs. destruct Hg as [Hsh Hm].
  split; [split; [by apply shared_insert|by apply memory_active_inc]|]. eexists. by eapply stored_set.
Qed.

Lemma active_dec_spec p o st R A l : good st R (p :: A) l -> objects st !! p = Some o ->
  wp (store_snapshot p (fun o => set_active_count o (u32 (active_count o - 1)))) (gives (fun _ st' =>
    good st' R A l /\ exists o', stored p o' st st' /\ copied o' = true)) st.
Proof.
  intros [Hsh Hm] Ho. eapply wp_mono; [|by apply (store_spec p o)]. intros [e|[]] st'; [done|]. intros ->.
  destruct (memory_active_dec lo _ _ _ _ _ _ _ _ p o Ho Hm) as (Hc & Hm'). pose proof (dynamic _ _ _ _ _ _ (conj Hsh Hm) Ho Hc) as Hs.
  split; [split; [by apply shared_insert|done]|]. eexists. split; [by eapply stored_set|done].
Qed.

(** A copy that is registered at once; [f] stores the pointer to it. *)
Definition only_pointers (f : positive -> SnapMgr -> SnapMgr) : Prop := forall q st,
  objects (f q st) = objects st /\ ph_nodes (f q st) = ph_nodes st /\ RegisteredSnapshots (f q st) = RegisteredSnapshots st /\
  sm_array (f q st) = sm_array st /\ sm_backend (f q st) = sm_backend st.

Lemma register_copy_spec p o f st R A l : only_pointers f -> good st R A l -> objects st !! p = Some o -> covered_in st p ->
  wp (pbind (CopySnapshot palloc p) (fun copy => pbind (pmod (f copy)) (fun _ =>
      pbind (store_snapshot copy (fun o => set_regd_count o (u32 (regd_count o + 1)))) (fun _ =>
      pbind (heap_add copy) (fun _ => pret copy)))))
    (gives (fun q st' => good st' (q :: R) A (q :: l) /\ (exists st1, frame st st1 /\ frame (f q st1) st') /\ keeps nothing st st' /\
      q ∉ statics /\ objects st !! q = None /\ private st st' /\
      exists o', objects st' !! q = Some o' /\ snap_data o' = copy_data (snap_data o))) st.
Proof.
  intros Hf Hg Ho Hcov. eapply wp_gives; [by eapply copy_spec|]. intros q st1 (Hg1 & (Hq & Hqs & Hf1 & Hk1 & Hoq) & HqR & HqA & Hql & Hc1 & Hpv1).
  apply wp_bind, wp_mod. destruct (Hf q st1) as (E1 & E2 & E3 & E4 & E5).
  assert (Hg2 : good (f q st1) R A l) by (by eapply good_same).
  assert (Hpv2 : private st1 (f q st1)) by done.
  assert (Hc2 : covered_in (f q st1) q) by (rewrite E1, (private_xmin _ _ Hpv2), (private_now _ _ Hpv2); auto).
  eapply wp_gives; [eapply regd_inc_spec; [exact Hg2|by rewrite E1|done|done|done]|]. intros [] st3 (Hg3 & Hf3 & Hk3 & Ho3 & Hpv3).
  eapply wp_gives; [eapply heap_add_spec; [exact Hg3| |done]|].
  { eapply good_covered; [exact Hg3|]. left. left. }
  intros [] st4 (Hg4 & Hf4 & Ho4 & Hpv4). apply wp_ret. split; [done|]. split; [exists st1; split; [done|by eapply frame_trans]|].
  split; [|split; [done|split; [done|split]]].
  - intros z oz Hz Hoz. destruct (Hk1 z oz Hz Hoz) as (o1 & Ho1 & E). rewrite <- E1 in Ho1. destruct (Hk3 z o1 Hz Ho1) as (o3 & ? & ?).
    exists o3. rewrite Ho4. split; [done|congruence].
  - eapply private_trans; [exact Hpv1|]. eapply private_trans; [exact Hpv2|]. by eapply private_trans.
  - rewrite Ho4. by eexists.
Qed.
End invariant.
