(* ===== verification/SnapMgrSteps.v ===== *)
(** * The snapshot manager: its operations keep the invariant

    [snapmgr_ok] ties the references of [SnapMgrMemory] to the variables of
    [SnapMgr]: registered references are those of resource owners, of the
    transaction's first snapshot and of exported snapshots; active references
    are the elements of the stack.  One lemma for each operation. *)

From S2P Require Import Prelude.
From S2P Require Import TransactionId.
From S2P Require Import Varsup.
From S2P Require Import Snapshot.
From S2P Require Import ProcArray.
From S2P Require Import PairingHeap.
From S2P Require Import SnapMgr.
From S2P Require Import SnapMgrMemory.
From S2P Require Import SnapMgrInvariant.

(** The references that the variables hold. *)
Definition regs (st : SnapMgr) : list positive :=
  (ResourceOwners st).*2 ++ option_list (FirstXactSnapshot st) ++ exportedSnapshots st.
Definition acts (st : SnapMgr) : list positive := as_snap <$> ActiveSnapshot st.
Arguments regs : simpl never.
Arguments acts : simpl never.

Record pointers (st : SnapMgr) : Prop := {
  pt_historic : HistoricSnapshot st = None;
  pt_catalog : forall p, CatalogSnapshot st = Some p -> p = CatalogSnapshotData;
  pt_current : forall p, CurrentSnapshot st = Some p -> p = CurrentSnapshotData \/ FirstXactSnapshot st = Some p;
  pt_first : forall p, FirstXactSnapshot st = Some p -> FirstSnapshotSet st = true /\ CurrentSnapshot st = Some p;
  pt_secondary : forall p, SecondarySnapshot st = Some p -> p = SecondarySnapshotData;
  pt_oldest : OldestActiveSnapshot st = last (acts st);
  pt_levels : StronglySorted (fun a b => as_level b <= as_level a) (ActiveSnapshot st);
  pt_fresh : forall p, p ∈ acts st -> CurrentSnapshot st <> Some p;
  pt_nodup : NoDup (option_list (FirstXactSnapshot st) ++ exportedSnapshots st);
}.

Section steps.
Context (lo : Z) (my : nat) (inv : ProcArrayStruct -> Prop) (step : ProcArrayStruct -> ProcArrayStruct -> Prop).
Context `{HA : !ArrayLaws lo my inv step}.
Context (palloc : gset positive -> positive) (Hpalloc : forall d, palloc d ∉ d).
Context `{HP : PredicateLocks} `{HL : !PredicateLocksLaws}.

Abbreviation rank := (xid_rank lo).
Abbreviation in_use := (in_use lo).
Abbreviation M := (prog SnapMgr SnapError).
Abbreviation good := (good lo my inv).
Abbreviation covered_in st p := (covered lo (objects st) (my_xmin st) (now my st) p).

(** [l] is what the heap contains: the registered snapshots and the catalog
    snapshot. *)
Definition holds (st : SnapMgr) (l : list positive) : Prop :=
  good st (regs st) (acts st) l /\ forall p, p ∈ l <-> p ∈ regs st \/ CatalogSnapshot st = Some p.

Definition snapmgr_ok (st : SnapMgr) : Prop := pointers st /\ exists l, holds st l.

(** Somebody holds the snapshot. *)
Definition held (st : SnapMgr) (p : positive) : Prop := p ∈ acts st \/ p ∈ regs st \/ CatalogSnapshot st = Some p.

(** What a snapshot shows of other transactions. *)
Definition shows (d : SnapshotData) : SnapshotData := set_snap_curcid d 0.

(** A held snapshot keeps its contents; the transaction's own snapshot follows
    the command counter. *)
Definition kept (st st' : SnapMgr) : Prop :=
  forall p o, p ∈ acts st' \/ p ∈ regs st' -> objects st !! p = Some o ->
  exists o', objects st' !! p = Some o' /\ shows (snap_data o') = shows (snap_data o) /\
    (CurrentSnapshot st <> Some p -> snap_data o' = snap_data o).

(** The choice of the transaction's snapshot is not touched. *)
Definition stays (st st' : SnapMgr) : Prop :=
  FirstSnapshotSet st' = FirstSnapshotSet st /\ FirstXactSnapshot st' = FirstXactSnapshot st.

(** Nobody's references are touched. *)
Definition same_refs (st st' : SnapMgr) : Prop :=
  ActiveSnapshot st' = ActiveSnapshot st /\ ResourceOwners st' = ResourceOwners st /\ exportedSnapshots st' = exportedSnapshots st.

(** How an operation may end. *)
Definition safe {A} (st : SnapMgr) (Q : A -> SnapMgr -> Prop) : SnapError + A -> SnapMgr -> Prop := fun o st' =>
  snapmgr_ok st' /\ kept st st' /\ match o with inl e => e <> Fault /\ stays st st' | inr a => Q a st' end.

Lemma frame_regs st st' : frame st st' -> regs st' = regs st.
Proof. intros []. unfold regs. congruence. Qed.
Lemma frame_acts st st' : frame st st' -> acts st' = acts st.
Proof. intros []. unfold acts. congruence. Qed.
Lemma frame_pointers st st' : frame st st' -> pointers st -> pointers st'.
Proof.
  intros Hf [H1 H2 H3 H4 H5 H6 H7 H8 H9]. pose proof (frame_acts _ _ Hf) as E. destruct Hf.
  split; rewrite ?E, ?fr_historic, ?fr_catalog, ?fr_current, ?fr_first, ?fr_set, ?fr_secondary, ?fr_oldest, ?fr_active, ?fr_exported; done.
Qed.

Lemma ok_static st p : snapmgr_ok st -> p ∈ acts st \/ p ∈ regs st -> p ∉ statics.
Proof. intros (_ & l & [_ Hm] & _) Hp. apply (m_dynamic _ _ _ _ _ _ _ _ _ Hm). tauto. Qed.

Lemma keeps_kept T st st' : snapmgr_ok st' -> keeps T st st' ->
  (forall p, T p -> p ∈ statics \/ (p ∉ acts st' /\ p ∉ regs st')) -> kept st st'.
Proof.
  intros Hok Hk HT p o Hp Ho. destruct (Hk p o) as (o' & Ho' & Hd); [|done|].
  - intros Hin. pose proof (ok_static _ p Hok Hp). destruct (HT p Hin) as [|[]]; tauto.
  - exists o'. by rewrite Hd.
Qed.

Lemma frame_refs st st' : frame st st' -> same_refs st st'.
Proof. intros []. by split. Qed.
Lemma same_refs_trans st st1 st2 : same_refs st st1 -> same_refs st1 st2 -> same_refs st st2.
Proof. intros (? & ? & ?) (? & ? & ?). repeat split; congruence. Qed.
Lemma frame_stays st st' : frame st st' -> stays st st'.
Proof. intros []. by split. Qed.
Lemma stays_trans st st1 st2 : stays st st1 -> stays st1 st2 -> stays st st2.
Proof. intros [] []. split; congruence. Qed.

(** What a holder may rely on. *)
Lemma ok_covered st p : snapmgr_ok st -> held st p -> covered_in st p.
Proof. intros (_ & l & Hg & Hl) Hp. eapply good_covered; [exact Hg|]. rewrite Hl. unfold held in Hp. tauto. Qed.

Lemma static_free st l p : pointers st -> holds st l -> p ∈ statics -> p <> CatalogSnapshotData -> p ∉ l.
Proof.
  intros Hp [[_ Hm] Hl] Hs Hne [Hr|Hc]%Hl; [|by apply Hne, (pt_catalog _ Hp)].
  by apply (m_dynamic _ _ _ _ _ _ _ _ _ Hm p ltac:(by left)).
Qed.

(** ** The catalog snapshot *)

Definition no_catalog (st : SnapMgr) : SnapMgr := set_special st None (HistoricSnapshot st).

Lemma no_catalog_pointers st : pointers st -> pointers (no_catalog st).
Proof. intros [H1 H2 H3 H4 H5 H6 H7 H8 H9]. by split. Qed.

(** What a reset of the xmin achieves once nothing is active. *)
Definition exact_xmin (st : SnapMgr) : Prop :=
  acts st = [] ->
  (~ (exists p, held st p) -> my_xmin st = InvalidTransactionId) /\
  ((exists p, held st p) -> exists p, held st p /\ my_xmin st = snap_xmin_at (objects st) p).

Lemma reset_exact st l st' l' : holds st l -> holds st' l' -> frame st st' -> objects st' = objects st -> l ≡ₚ l' ->
  (ActiveSnapshot st = [] -> (l = [] -> my_xmin st' = InvalidTransactionId) /\
     (l <> [] -> exists p, p ∈ l /\ my_xmin st' = snap_xmin_at (objects st) p)) -> exact_xmin st'.
Proof.
  intros [_ Hl] [_ Hl'] Hf Eo Hp Hx Ha. rewrite (frame_acts _ _ Hf) in Ha. apply fmap_nil_inv in Ha.
  assert (Hheld : forall p, held st' p <-> p ∈ l).
  { intros p. unfold held. rewrite <- Hl', <- Hp, (frame_acts _ _ Hf). unfold acts. rewrite Ha. set_solver +. }
  destruct (Hx Ha) as [H1 H2]. split.
  - intros Hn. apply H1. destruct l as [|p l]; [done|]. exfalso. apply Hn. exists p. apply Hheld. left.
  - intros [p Hp']. apply Hheld in Hp'. destruct H2 as (q & Hq & ->); [by intros ->; set_solver +Hp'|].
    exists q. rewrite Eo. by rewrite Hheld.
Qed.

Lemma reset_ok st l : pointers st -> holds st l ->
  wp SnapshotResetXmin (gives (fun _ st' => holds st' l /\ frame st st' /\ objects st' = objects st /\ exact_xmin st' /\ now my st' = now my st)) st.
Proof.
  intros Hp [Hg Hl]. eapply wp_mono; [|eapply (reset_xmin_spec lo my inv step); [exact Hg| |]].
  - intros [e|[]] st'; [done|]. intros (Hg' & Hf & Ho & En & Hx). assert (Hh' : holds st' l).
    { split; [by rewrite (frame_regs _ _ Hf), (frame_acts _ _ Hf)|]. intros p. rewrite (frame_regs _ _ Hf). destruct Hf. by rewrite fr_catalog. }
    split; [done|]. split; [done|]. split; [done|]. split; [|done]. eapply (reset_exact st l st' l); try done.
  - intros E. unfold acts. by rewrite E.
  - intros p Hpr. apply Hl. by left.
Qed.

Lemma invalidate_catalog_spec st l : pointers st -> holds st l ->
  wp InvalidateCatalogSnapshot (gives (fun _ st' => exists l', holds st' l' /\ frame (no_catalog st) st' /\ objects st' = objects st /\
    (CatalogSnapshot st <> None -> exact_xmin st') /\ now my st' = now my st)) st.
Proof.
  intros Hp Hh. unfold InvalidateCatalogSnapshot. apply wp_bind, wp_get. destruct (CatalogSnapshot st) as [c|] eqn:Ec.
  - pose proof Hh as [Hg Hl]. pose proof (pt_catalog _ Hp c Ec) as ->.
    eapply wp_gives; [apply heap_remove_spec; [exact Hg|apply Hl; by right]|]. intros _ st1 (l' & Hl' & Hg1 & Hf1 & Ho1 & Hpv1).
    apply wp_bind, wp_mod. set (st2 := set_special st1 None _).
    assert (Hf2 : frame (no_catalog st) st2) by (destruct Hf1; split; try done).
    assert (Hh2 : holds st2 l').
    { split; [rewrite (frame_regs _ _ Hf2), (frame_acts _ _ Hf2); by apply (good_same _ _ _ st1)|]. intros p.
      rewrite (frame_regs _ _ Hf2), (fr_catalog _ _ Hf2). cbn. change (regs (no_catalog st)) with (regs st).
      pose proof (heap_nodup _ _ _ _ _ (m_heap _ _ _ _ _ _ _ _ _ (proj2 Hg))) as Hnd. rewrite Hl' in Hnd. apply NoDup_cons in Hnd as [Hn _].
      pose proof (Hl p) as Hlp. rewrite Hl', elem_of_cons, Ec in Hlp.
      assert (p ∈ regs st -> p <> CatalogSnapshotData).
      { intros Hr ->. apply (m_dynamic _ _ _ _ _ _ _ _ _ (proj2 Hg) CatalogSnapshotData ltac:(by left)). unfold statics. set_solver +. }
      split; [|intros [Hr|]; [|done]; destruct Hlp as [_ [|]]; tauto].
      intros Hin. left. destruct Hlp as [[|[=]] _]; [by right|done|]. congruence. }
    assert (Hp2 : pointers st2) by (eapply frame_pointers; [exact Hf2|by apply no_catalog_pointers]).
    eapply wp_mono; [|by apply (reset_ok st2 l')]. intros [e|[]] st3; [done|]. intros (Hh3 & Hf3 & Ho3 & Hx & En). exists l'. split; [done|].
    split; [by eapply frame_trans|]. split; [by rewrite Ho3|]. split; [done|]. rewrite En. apply (private_now _ _ _ Hpv1).
  - apply wp_ret. exists l. split; [done|]. split; [|done]. by split.
Qed.

(** ** The transaction's snapshot *)

(** The caller's isolation level is the one the transaction started with. *)
Definition iso_ok (env : CallEnv) (st : SnapMgr) : Prop :=
  FirstSnapshotSet st = true -> IsolationUsesXactSnapshot (XactIsoLevel env) = true <-> FirstXactSnapshot st <> None.

Definition is_static (p : positive) : Prop := p ∈ statics.

(** [set_current] on a static struct, when no first snapshot is kept. *)
Lemma current_static st : pointers st -> FirstXactSnapshot st = None -> (forall p, p ∈ acts st -> p ∉ statics) ->
  pointers (set_xact_snapshots st (Some CurrentSnapshotData) (SecondarySnapshot st) (FirstXactSnapshot st) (FirstSnapshotSet st)).
Proof.
  intros [H1 H2 H3 H4 H5 H6 H7 H8 H9] Hn Hs. split; try done; cbn.
  - intros p [= <-]. by left.
  - intros p Hp. congruence.
  - intros p Hp [= <-]. apply (Hs _ Hp). unfold statics. set_solver +.
Qed.

Lemma acts_dynamic st l p : holds st l -> p ∈ acts st -> p ∉ statics.
Proof. intros [[_ Hm] _] Hp. apply (m_dynamic _ _ _ _ _ _ _ _ _ Hm). tauto. Qed.

(** A state that differs in pointers that hold no reference. *)
Lemma holds_pointers st st' l : objects st' = objects st -> ph_nodes st' = ph_nodes st -> RegisteredSnapshots st' = RegisteredSnapshots st ->
  sm_array st' = sm_array st -> sm_backend st' = sm_backend st -> regs st' = regs st -> acts st' = acts st ->
  CatalogSnapshot st' = CatalogSnapshot st -> holds st l -> holds st' l.
Proof. intros E1 E2 E3 E4 E5 E6 E7 E8 [Hg Hl]. split; [rewrite E6, E7; by eapply good_same|]. intros p. by rewrite E6, E8. Qed.

Lemma holds_frame st st' l : frame st st' -> good st' (regs st) (acts st) l ->
  (forall p, p ∈ l <-> p ∈ regs st \/ CatalogSnapshot st = Some p) -> holds st' l.
Proof. intros Hf Hg Hl. split; [by rewrite (frame_regs _ _ Hf), (frame_acts _ _ Hf)|]. intros p. by rewrite (frame_regs _ _ Hf), (fr_catalog _ _ Hf). Qed.

(** Taking a snapshot into one of the two static structs that are never in
    the heap. *)
Lemma take_ok cid p st l : pointers st -> holds st l -> p ∈ statics -> p <> CatalogSnapshotData ->
  wp (take_snapshot cid p) (gives (fun q st' => q = p /\ holds st' l /\ frame st st' /\ keeps (overwrites p) st st' /\
    covered_in st' p /\ now my st' = now my st /\ snap_xmin_at (objects st') p = now my st)) st.
Proof.
  intros Hp Hh Hs Hne. pose proof (static_free st l p Hp Hh Hs Hne) as Hl. destruct Hh as [Hg Hl'].
  eapply wp_mono; [|by apply (take_spec lo my inv step)]. intros [e|q] st'; [done|]. intros (E & Hg' & Hf & ?).
  split; [done|]. split; [by eapply holds_frame|]. done.
Qed.

Lemma take_serializable_ok cid st l : pointers st -> holds st l ->
  wp (take_serializable cid CurrentSnapshotData) (fun o st' => match o with
    | inl e => e = SerializableFailed /\ st' = st
    | inr q => q = CurrentSnapshotData /\ holds st' l /\ frame st st' /\ keeps (overwrites CurrentSnapshotData) st st' /\
        covered_in st' CurrentSnapshotData /\ now my st' = now my st /\ snap_xmin_at (objects st') CurrentSnapshotData = now my st
    end) st.
Proof.
  intros Hp Hh. pose proof (take_ok cid CurrentSnapshotData st l Hp Hh ltac:(unfold statics; set_solver +) ltac:(done)) as Ht.
  destruct (m_static _ _ _ _ _ _ _ _ _ (proj2 (proj1 Hh)) CurrentSnapshotData ltac:(unfold statics; set_solver +)) as [o Ho].
  destruct (GetSerializableTransactionSnapshot cid (snap_data o) (sm_array st) (sm_backend st)) as [r|] eqn:E.
  - assert (take_serializable cid CurrentSnapshotData st = take_snapshot cid CurrentSnapshotData st) as Es.
    { unfold take_snapshot, take_serializable, pbind, load_snapshot, pget. rewrite Ho, E. by rewrite (serializable_takes _ _ _ _ _ E). }
    unfold wp in Ht |- *. rewrite Es. by destruct (take_snapshot cid CurrentSnapshotData st).2.
  - unfold wp, take_serializable, pbind, load_snapshot, pget. rewrite Ho, E. done.
Qed.

Lemma keep_first_ok st l p : pointers st -> holds st l -> FirstXactSnapshot st = None -> CurrentSnapshot st = Some p -> covered_in st p ->
  wp (keep_first_snapshot palloc p) (gives (fun q st' => exists l', holds st' l' /\
    frame (set_xact_snapshots st (Some q) (SecondarySnapshot st) (Some q) (FirstSnapshotSet st)) st' /\ keeps nothing st st' /\
    q ∉ acts st /\ q ∉ regs st /\ covered_in st' q /\ private st st' /\ exists o o', objects st !! p = Some o /\ objects st' !! q = Some o' /\ snap_data o' = copy_data (snap_data o))) st.
Proof.
  intros Hp [Hg Hl] Hn Hc Hcov. pose proof Hcov as (o & Ho & _).
  eapply wp_mono; [|apply (register_copy_spec lo my inv palloc Hpalloc p o (fun copy st =>
    set_xact_snapshots st (Some copy) (SecondarySnapshot st) (Some copy) (FirstSnapshotSet st)) st (regs st) (acts st) l); [done|exact Hg|exact Ho|exact Hcov]].
  intros [e|q] st'; [done|]. intros (Hg' & (st1 & Hf1 & Hf2) & Hk & Hqs & Hq & Hpv & Hd).
  assert (Hf : frame (set_xact_snapshots st (Some q) (SecondarySnapshot st) (Some q) (FirstSnapshotSet st)) st') by (destruct Hf1, Hf2; split; cbn in *; congruence).
  assert (Hregs : q :: regs st ≡ₚ regs st').
  { rewrite (frame_regs _ _ Hf). unfold regs. cbn. rewrite Hn. cbn. apply Permutation_middle. }
  assert (Hcovq : covered_in st' q) by (eapply good_covered; [exact Hg'|left; left]).
  assert (Hnew : ~ (q ∈ acts st \/ q ∈ regs st)).
  { intros Hin. destruct (good_covered _ _ _ _ _ _ _ q Hg ltac:(tauto)) as (oq & Hoq & _). congruence. }
  exists (q :: l). split; [|split; [done|split; [done|split; [tauto|split; [tauto|split; [done|split; [done|]]]]]]].
  - split.
    + rewrite (frame_acts _ _ Hf). change (acts (set_xact_snapshots _ _ _ _ _)) with (acts st). eapply good_perm; [exact Hregs|done|done|exact Hg'].
    + intros z. rewrite <- Hregs, !elem_of_cons, Hl, (fr_catalog _ _ Hf). cbn. tauto.
  - destruct Hd as (o' & Ho' & Hd). eauto 10.
Qed.

Definition with_first_set (st : SnapMgr) : SnapMgr :=
  set_xact_snapshots st (CurrentSnapshot st) (SecondarySnapshot st) (FirstXactSnapshot st) true.

(** The transaction's snapshot is in place, up to [FirstSnapshotSet]. *)
Definition established (env : CallEnv) (st st' : SnapMgr) : Prop :=
  pointers (with_first_set st') /\ (exists l, holds st' l) /\ keeps is_static st st' /\ same_refs st st' /\
  (exists p, CurrentSnapshot st' = Some p /\ covered_in st' p) /\
  (IsolationUsesXactSnapshot (XactIsoLevel env) = true <-> FirstXactSnapshot st' <> None).

Lemma static_current : CurrentSnapshotData ∈ statics.
Proof. unfold statics. set_solver +. Qed.
#[local] Hint Resolve static_current : core.

Lemma overwrites_static p st st' : p ∈ statics -> keeps (overwrites p) st st' -> keeps is_static st st'.
Proof. intros Hp. apply keeps_sub. by intros q ->. Qed.

(** After a snapshot has been taken into [CurrentSnapshotData]. *)
Lemma set_current_ok st0 st l : pointers st0 -> frame st0 st -> holds st l -> FirstXactSnapshot st0 = None ->
  covered_in st CurrentSnapshotData ->
  wp (set_current CurrentSnapshotData) (gives (fun _ st' => holds st' l /\ pointers st' /\ objects st' = objects st /\ private st st' /\
    frame (set_xact_snapshots st (Some CurrentSnapshotData) (SecondarySnapshot st) (FirstXactSnapshot st) (FirstSnapshotSet st)) st' /\
    covered_in st' CurrentSnapshotData)) st.
Proof.
  intros Hp Hf Hh Hn Hc. apply wp_mod. unfold gives. split; [by apply (holds_pointers st)|]. split; [|done].
  apply current_static; [by eapply frame_pointers|by rewrite (fr_first _ _ Hf)|]. intros p Hin. by eapply acts_dynamic.
Qed.

(** Keeping it, in transaction-snapshot mode. *)
Lemma keep_established env st0 st l : IsolationUsesXactSnapshot (XactIsoLevel env) = true -> pointers st -> holds st l ->
  FirstXactSnapshot st = None -> CurrentSnapshot st = Some CurrentSnapshotData -> covered_in st CurrentSnapshotData ->
  keeps is_static st0 st -> same_refs st0 st ->
  wp (pbind (keep_first_snapshot palloc CurrentSnapshotData) (fun _ => pret tt)) (gives (fun _ st' => established env st0 st' /\ private st st' /\
    exists q o o', CurrentSnapshot st' = Some q /\ objects st !! CurrentSnapshotData = Some o /\ objects st' !! q = Some o' /\
      snap_data o' = copy_data (snap_data o))) st.
Proof.
  intros Hi Hp Hh Hn Hc Hcov Hk Ha. eapply wp_gives; [by eapply keep_first_ok|].
  intros q st' (l' & Hh' & Hf & Hk' & Hq & Hqr & Hcovq & Hpv & o & o' & Ho & Ho' & Hd). apply wp_ret.
  split; [|split; [done|exists q, o, o'; by rewrite (fr_current _ _ Hf)]]. split; [|split; [eauto|split; [|split; [|split]]]].
  - destruct Hp as [H1 H2 H3 H4 H5 H6 H7 H8 H9]. pose proof (frame_acts _ _ Hf) as Ea.
    split; cbn; rewrite ?(fr_current _ _ Hf), ?(fr_first _ _ Hf), ?(fr_catalog _ _ Hf), ?(fr_historic _ _ Hf), ?(fr_secondary _ _ Hf), ?(fr_active _ _ Hf), ?(fr_oldest _ _ Hf), ?(fr_exported _ _ Hf); try done.
    + intros p [= <-]. by right.
    + change (acts (with_first_set st')) with (acts st'). by rewrite Ea.
    + change (acts (with_first_set st')) with (acts st'). rewrite Ea. cbn. intros p Hin [= ->]. done.
    + cbn. rewrite Hn in H9. apply NoDup_cons. split; [|done]. intros Hin. apply Hqr. unfold regs. set_solver +Hin.
  - eapply keeps_next; [exact Hk|]. eapply keeps_sub; [|exact Hk']. done.
  - exact (same_refs_trans _ _ _ Ha (frame_refs _ _ Hf)).
  - exists q. rewrite (fr_current _ _ Hf). done.
  - rewrite (fr_first _ _ Hf). cbn. split; [done|by intros _].
Qed.

Lemma take_current_ok env st l : pointers st -> holds st l -> FirstXactSnapshot st = None ->
  IsolationUsesXactSnapshot (XactIsoLevel env) = false ->
  wp (pbind (take_snapshot (GetCurrentCommandId env) CurrentSnapshotData) (fun p => set_current p)) (gives (fun _ st' =>
    pointers st' /\ holds st' l /\ keeps is_static st st' /\ same_refs st st' /\ CurrentSnapshot st' = Some CurrentSnapshotData /\
    covered_in st' CurrentSnapshotData /\ FirstXactSnapshot st' = None /\ FirstSnapshotSet st' = FirstSnapshotSet st)) st.
Proof.
  intros Hp Hh Hn Hi. eapply wp_gives; [by apply take_ok|]. intros q st1 (-> & Hh1 & Hf1 & Hk1 & Hc1 & _).
  eapply wp_mono; [|by eapply (set_current_ok st st1)]. intros [e|[]] st2; [done|]. intros (Hh2 & Hp2 & Ho2 & _ & Hf2 & Hc2).
  split; [done|]. split; [done|]. split.
  { intros p o Hs Ho. rewrite Ho2. by eapply overwrites_static. }
  split; [exact (same_refs_trans _ _ _ (frame_refs _ _ Hf1) (frame_refs _ _ Hf2))|]. rewrite (fr_current _ _ Hf2), (fr_first _ _ Hf2), (fr_set _ _ Hf2). cbn.
  by rewrite (fr_first _ _ Hf1), (fr_set _ _ Hf1).
Qed.

Lemma establish_ok env st l : pointers st -> holds st l -> FirstXactSnapshot st = None ->
  wp (if IsolationUsesXactSnapshot (XactIsoLevel env) then
        pbind (if IsolationIsSerializable (XactIsoLevel env)
               then take_serializable (GetCurrentCommandId env) CurrentSnapshotData
               else take_snapshot (GetCurrentCommandId env) CurrentSnapshotData) (fun p =>
        pbind (set_current p) (fun _ => pbind (keep_first_snapshot palloc p) (fun _ => pret tt)))
      else pbind (take_snapshot (GetCurrentCommandId env) CurrentSnapshotData) (fun p => set_current p))
    (fun o st' => match o with inl e => e = SerializableFailed /\ st' = st | inr _ => established env st st' end) st.
Proof.
  intros Hp Hh Hn. destruct (IsolationUsesXactSnapshot (XactIsoLevel env)) eqn:Hi.
  - apply wp_bind. eapply (wp_mono _ (fun o st' => match o with
      | inl e => e = SerializableFailed /\ st' = st
      | inr q => q = CurrentSnapshotData /\ holds st' l /\ frame st st' /\ keeps (overwrites CurrentSnapshotData) st st' /\
          covered_in st' CurrentSnapshotData end)).
    2:{ destruct (IsolationIsSerializable (XactIsoLevel env)).
        - eapply wp_mono; [|by eapply take_serializable_ok]. intros [e|q] st'; [done|]. tauto.
        - eapply wp_mono; [|by eapply take_ok]. intros [e|q] st'; [done|]. unfold gives. tauto. }
    intros [e|q] st1; [done|]. intros (-> & Hh1 & Hf1 & Hk1 & Hc1).
    eapply wp_gives; [by eapply (set_current_ok st st1)|]. intros [] st2 (Hh2 & Hp2 & Ho2 & _ & Hf2 & Hc2).
    eapply wp_mono; [|eapply (keep_established env st); try done].
    + intros [e|[]] st'; [done|]. by intros [? _].
    + by rewrite (fr_first _ _ Hf2), (fr_first _ _ Hf1).
    + by rewrite (fr_current _ _ Hf2).
    + intros p o Hs Ho. rewrite Ho2. by eapply overwrites_static.
    + exact (same_refs_trans _ _ _ (frame_refs _ _ Hf1) (frame_refs _ _ Hf2)).
  - eapply wp_mono; [|by eapply take_current_ok]. intros [e|[]] st'; [done|]. intros (Hp' & Hh' & Hk & Ha & Hc & Hcov & Hf & Hs).
    split; [|split; [eauto|split; [done|split; [done|split; [eauto|]]]]].
    + destruct Hp' as [H1 H2 H3 H4 H5 H6 H7 H8 H9]. split; try done. intros p E. cbn in E. congruence.
    + rewrite Hf, Hi. split; [done|]. intros Hx. by destruct Hx.
Qed.

Lemma wp_assoc {A B C} (m : M A) (k1 : A -> M B) (k2 : B -> M C) Q st :
  wp (pbind (pbind m k1) k2) Q st -> wp (pbind m (fun a => pbind (k1 a) k2)) Q st.
Proof. unfold wp. by rewrite pbind_assoc. Qed.

(** The result of asking for a snapshot: it is covered, so it can be pushed or
    registered. *)
Definition usable (r : option positive) (st : SnapMgr) : Prop := exists p, r = Some p /\ covered_in st p.

Lemma objects_kept st st' : objects st' = objects st -> kept st st'.
Proof. intros E p o _ Ho. rewrite E. by exists o. Qed.

Lemma first_none st : pointers st -> FirstSnapshotSet st = false -> FirstXactSnapshot st = None.
Proof. intros Hp Hs. destruct (FirstXactSnapshot st) as [p|] eqn:E; [|done]. destruct (pt_first _ Hp p E). congruence. Qed.

Lemma get_transaction_ok env st : snapmgr_ok st -> iso_ok env st ->
  wp (GetTransactionSnapshot palloc env) (safe st (fun r st' => keeps is_static st st' /\ usable r st' /\ iso_ok env st' /\ same_refs st st' /\
    FirstSnapshotSet st' = true /\ (FirstSnapshotSet st = true -> FirstXactSnapshot st' = FirstXactSnapshot st) /\
    (IsolationUsesXactSnapshot (XactIsoLevel env) = true -> r = FirstXactSnapshot st'))) st.
Proof.
  intros Hok Hiso. pose proof Hok as (Hp & l & Hh). unfold GetTransactionSnapshot. apply wp_bind, wp_get.
  unfold HistoricSnapshotActive. rewrite (pt_historic _ Hp). cbn [is_null negb]. apply wp_bind, wp_get.
  destruct (FirstSnapshotSet st) eqn:Es; cbn [negb]; [destruct (IsolationUsesXactSnapshot (XactIsoLevel env)) eqn:Hi|].
  - apply wp_get. destruct (FirstXactSnapshot st) as [p|] eqn:Ef; [|by destruct (proj1 (Hiso Es) Hi)].
    split; [done|]. split; [by apply objects_kept|]. destruct (pt_first _ Hp p Ef) as [_ Ecur].
    split; [apply keeps_self|]. split; [|split; [done|split; [done|split; [done|split; [done|congruence]]]]]. exists p. split; [done|]. apply (ok_covered _ _ Hok). right; left. unfold regs. rewrite Ef. set_solver +.
  - assert (Hn : FirstXactSnapshot st = None).
    { destruct (FirstXactSnapshot st) as [p|] eqn:Ef; [|done]. specialize (Hiso Es). rewrite Hi, Ef in Hiso. assert (false = true) by (by apply Hiso). done. }
    eapply wp_gives; [by eapply invalidate_catalog_spec|]. intros [] st1 (l1 & Hh1 & Hf1 & Ho1 & _).
    assert (Hp1 : pointers st1) by (eapply frame_pointers; [exact Hf1|by apply no_catalog_pointers]).
    apply wp_assoc.
    eapply wp_gives; [eapply take_current_ok; [exact Hp1|exact Hh1|by rewrite (fr_first _ _ Hf1)|exact Hi]|].
    intros [] st2 (Hp2 & Hh2 & Hk2 & Ha2 & Hc2 & Hcov2 & Hf2 & Hs2). apply wp_get.
    assert (Hok2 : snapmgr_ok st2) by (split; eauto). assert (Hk : keeps is_static st st2) by (intros p o Hs Ho; apply (Hk2 p o Hs); by rewrite Ho1).
    split; [done|]. split; [by eapply (keeps_kept is_static); [done| |by left]|]. split; [done|].
    split; [|split; [|split; [exact (same_refs_trans _ _ _ (frame_refs _ _ Hf1) Ha2)|split; [|split; [|done]]]]].
    + exists CurrentSnapshotData. by rewrite Hc2.
    + intros _. rewrite Hi, Hf2. split; [done|]. intros Hx. by destruct Hx.
    + rewrite Hs2. by rewrite (fr_set _ _ Hf1).
    + intros _. by rewrite Hf2, Hn.
  - pose proof (first_none st Hp Es) as Hn.
    eapply wp_gives; [by eapply invalidate_catalog_spec|]. intros [] st1 (l1 & Hh1 & Hf1 & Ho1 & _).
    assert (Hp1 : pointers st1) by (eapply frame_pointers; [exact Hf1|by apply no_catalog_pointers]).
    assert (Hok1 : snapmgr_ok st1) by (split; eauto). pose proof (frame_stays _ _ Hf1 : stays st st1) as Hst1.
    destruct (IsInParallelMode env).
    { apply wp_return. split; [done|]. split; [by apply objects_kept|done]. }
    apply wp_bind. eapply wp_mono; [|eapply establish_ok; [exact Hp1|exact Hh1|by rewrite (fr_first _ _ Hf1)]].
    intros [e|[]] st2.
    + intros [-> ->]. split; [done|]. split; [by apply objects_kept|done].
    + intros (Hp2 & (l2 & Hh2) & Hk2 & Ha2 & (p & Hc2 & Hcov2) & Hi2). apply wp_bind, wp_mod, wp_get.
      change (set_xact_snapshots st2 _ _ _ true) with (with_first_set st2).
      assert (Hok2 : snapmgr_ok (with_first_set st2)) by (split; [done|exists l2; by apply (holds_pointers st2)]).
      assert (Hk : keeps is_static st st2) by (intros q o Hs Ho; apply (Hk2 q o Hs); by rewrite Ho1).
      split; [done|]. split; [by eapply (keeps_kept is_static); [done|exact Hk|by left]|]. split; [done|].
      split; [|split; [|split; [exact (same_refs_trans _ _ _ (frame_refs _ _ Hf1) Ha2)|split; [done|split; [done|]]]]].
      * exists p. done.
      * intros _. done.
      * intros Hu. pose proof (proj1 Hi2 Hu) as Hne. cbn in *. destruct (FirstXactSnapshot st2) as [q|] eqn:Eq; [|done].
        destruct (pt_first _ Hp2 q Eq) as [_ Ecur]. done.
Qed.

Lemma get_latest_ok env st : snapmgr_ok st -> iso_ok env st ->
  wp (GetLatestSnapshot palloc env) (safe st (fun r st' => keeps is_static st st' /\ usable r st' /\ iso_ok env st' /\ same_refs st st' /\
    (FirstSnapshotSet st = true -> stays st st'))) st.
Proof.
  intros Hok Hiso. pose proof Hok as (Hp & l & Hh). unfold GetLatestSnapshot. destruct (IsInParallelMode env).
  { apply wp_return. split; [done|]. split; [by apply objects_kept|done]. }
  apply wp_bind, wp_get. destruct (FirstSnapshotSet st) eqn:Es; cbn [negb].
  2:{ eapply wp_mono; [|by apply get_transaction_ok]. intros r st' (H1 & H2 & H3). split; [done|]. split; [done|]. destruct r; [done|]. naive_solver. }
  eapply wp_gives; [apply take_ok; [exact Hp|exact Hh|unfold statics; set_solver +|done]|]. intros q st1 (-> & Hh1 & Hf1 & Hk1 & Hc1 & _).
  apply wp_bind, wp_mod, wp_get. set (st2 := set_xact_snapshots _ _ _ _ _).
  assert (Hok2 : snapmgr_ok st2).
  { split; [|exists l; by apply (holds_pointers st1)]. destruct (frame_pointers _ _ Hf1 Hp) as [H1 H2 H3 H4 H5 H6 H7 H8 H9]. split; try done.
    cbn. by intros p [= <-]. }
  assert (Hk : keeps is_static st st2) by (eapply overwrites_static; [|exact Hk1]; unfold statics; set_solver +).
  split; [done|]. split; [by eapply (keeps_kept is_static); [done|exact Hk|by left]|]. split; [done|].
  split; [|split; [|split; [exact (frame_refs _ _ Hf1)|intros _; exact (frame_stays _ _ Hf1)]]].
  - by exists SecondarySnapshotData.
  - intros _. cbn. rewrite (fr_first _ _ Hf1). by apply Hiso.
Qed.

(** ** Catalog snapshots *)

Lemma get_catalog_ok env relid st : snapmgr_ok st ->
  wp (GetCatalogSnapshot env relid) (safe st (fun r st' => keeps is_static st st' /\ usable r st' /\ CatalogSnapshot st' = r /\
    frame (no_catalog st) (no_catalog st'))) st.
Proof.
  intros (Hp & l & Hh). unfold GetCatalogSnapshot, GetNonHistoricCatalogSnapshot. apply wp_bind, wp_get.
  unfold HistoricSnapshotActive. rewrite (pt_historic _ Hp). cbn [is_null negb]. apply wp_bind, wp_get.
  assert (Hinv : wp (pwhen (negb (is_null (CatalogSnapshot st)) && negb (RelationInvalidatesSnapshotsOnly env relid) && negb (RelationHasSysCache env relid))
    InvalidateCatalogSnapshot) (gives (fun _ st' => pointers st' /\ (exists l', holds st' l') /\ objects st' = objects st /\ frame (no_catalog st) (no_catalog st'))) st).
  { destruct (_ && negb (RelationHasSysCache env relid)); cbn [pwhen]; [|apply wp_ret; split; [done|]; split; [eauto|]; split; [done|by split]].
    eapply wp_mono; [|by eapply invalidate_catalog_spec]. intros [e|[]] st1; [done|]. intros (l1 & Hh1 & Hf1 & Ho1 & _).
    split; [eapply frame_pointers; [exact Hf1|by apply no_catalog_pointers]|]. split; [eauto|]. split; [done|]. destruct Hf1. by split. }
  eapply wp_gives; [exact Hinv|]. intros [] st1 (Hp1 & (l1 & Hh1) & Ho1 & Hf1). clear Hinv. apply wp_bind, wp_get.
  destruct (CatalogSnapshot st1) as [c|] eqn:Ec; cbn [is_null pwhen].
  - eapply wp_gives; [apply (wp_ret _ (gives (fun _ s => s = st1))); done|]. intros ? ? ->. apply wp_get.
    assert (Hok1 : snapmgr_ok st1) by (split; eauto). split; [done|]. split; [by apply objects_kept|]. split; [intros p o _; rewrite Ho1; eauto|]. split; [|done].
    exists c. split; [done|]. apply ok_covered; [done|]. right; by right.
  - pose proof Hh1 as [Hg1 Hl1]. assert (Hcs : CatalogSnapshotData ∈ statics) by (unfold statics; set_solver +).
    assert (Hcl : CatalogSnapshotData ∉ l1).
    { intros [Hr|]%Hl1; [|congruence]. by apply (m_dynamic _ _ _ _ _ _ _ _ _ (proj2 Hg1) _ ltac:(left; exact Hr)). }
    apply (wp_gives _ _ (fun _ st' => snapmgr_ok st' /\ keeps is_static st1 st' /\ CatalogSnapshot st' = Some CatalogSnapshotData /\ frame (no_catalog st1) (no_catalog st'))).
    + eapply wp_gives; [by apply (take_spec lo my inv step)|]. intros q st2 (-> & Hg2 & Hf2 & Hk2 & Hc2 & _). apply wp_bind, wp_mod.
      set (st3 := set_special _ _ _). assert (Hg3 : good st3 (regs st1) (acts st1) l1) by (by apply (good_same _ _ _ st2)).
      eapply wp_mono; [|apply heap_add_spec; [exact Hg3|exact Hc2|exact Hcl]]. intros [e|[]] st4; [done|]. intros (Hg4 & Hf4 & Ho4 & _).
      pose proof (frame_acts _ _ Hf2) as Ea2. pose proof (frame_regs _ _ Hf2) as Er2.
      assert (Ea : acts st4 = acts st1) by (rewrite (frame_acts _ _ Hf4); exact Ea2).
      assert (Er : regs st4 = regs st1) by (rewrite (frame_regs _ _ Hf4); exact Er2).
      split; [split|split; [|split]].
      * eapply frame_pointers; [exact Hf4|]. destruct (frame_pointers _ _ Hf2 Hp1) as [H1 H2 H3 H4 H5 H6 H7 H8 H9]. split; try done.
        cbn. by intros p [= <-].
      * exists (CatalogSnapshotData :: l1). split; [by rewrite Ea, Er|]. intros p. rewrite Er, (fr_catalog _ _ Hf4), elem_of_cons, Hl1, Ec. cbn.
        split; [intros [->|[|[=]]]; auto|intros [|[= ->]]; auto].
      * intros p o Hs Ho. rewrite Ho4. by apply (overwrites_static CatalogSnapshotData st1 st2 Hcs Hk2).
      * rewrite (fr_catalog _ _ Hf4). done.
      * destruct Hf2, Hf4. split; cbn in *; congruence.
    + intros [] st4 (Hok4 & Hk4 & Hc4 & Hf4). apply wp_get.
      assert (Hk : keeps is_static st st4) by (intros p o Hs Ho; apply (Hk4 p o Hs); by rewrite Ho1).
      split; [done|]. split; [by eapply (keeps_kept is_static); [done| |by left]|]. split; [done|]. split; [|split; [done|by eapply frame_trans]].
      rewrite Hc4. eexists. split; [done|]. apply ok_covered; [done|]. right; by right.
Qed.

Lemma invalidate_ok st : snapmgr_ok st -> wp InvalidateCatalogSnapshot (safe st (fun _ st' =>
  frame (no_catalog st) st' /\ (CatalogSnapshot st <> None -> exact_xmin st'))) st.
Proof.
  intros (Hp & l & Hh). eapply wp_mono; [|by eapply invalidate_catalog_spec]. intros [e|[]] st1; [done|]. intros (l1 & Hh1 & Hf1 & Ho1 & Hx & _).
  split; [|split; [by apply objects_kept|done]]. split; [|eauto]. eapply frame_pointers; [exact Hf1|by apply no_catalog_pointers].
Qed.

Lemma singular_ok st l : holds st l ->
  wp heap_singular (gives (fun b st' => b = bool_decide (length l = 1%nat) /\ st' = st)) st.
Proof. intros [[_ Hm] _]. unfold wp, heap_singular. by rewrite (singular_run Fault _ _ _ _ _ (m_heap _ _ _ _ _ _ _ _ _ Hm)). Qed.

Lemma invalidate_cond_ok st : snapmgr_ok st -> wp InvalidateCatalogSnapshotConditionally (safe st (fun _ st' => stays st st')) st.
Proof.
  intros Hok. pose proof Hok as (Hp & l & Hh). unfold InvalidateCatalogSnapshotConditionally. apply wp_bind, wp_get, wp_bind, wp_get.
  assert (Hskip : safe st (fun _ : unit => stays st) (inr tt) st) by (split; [done|]; split; [by apply objects_kept|done]).
  destruct (_ && _); [|by apply wp_ret]. eapply wp_gives; [by eapply singular_ok|]. intros b ? [_ ->].
  destruct b; cbn [pwhen]; [|by apply wp_ret]. eapply wp_mono; [|by apply invalidate_ok].
  intros [e|[]] st'; intros (H1 & H2 & H3); (split; [done|]); (split; [done|]); [done|]. apply (frame_stays (no_catalog st)), H3.
Qed.

(** ** The command counter *)

Lemma set_curcid_ok (p : option positive) cid st l : (forall q, p = Some q -> CurrentSnapshot st = Some q \/ q ∈ statics) -> pointers st -> holds st l ->
  wp (set_curcid_at p cid) (gives (fun _ st' => holds st' l /\ frame st st' /\ keeps (fun q => p = Some q) st st' /\
    forall q o, objects st !! q = Some o -> exists o', objects st' !! q = Some o' /\ shows (snap_data o') = shows (snap_data o))) st.
Proof.
  intros Hin Hp [Hg Hl]. destruct p as [p|]; cbn [set_curcid_at]; [|apply wp_ret; split; [by split|]; split; [done|split; [apply keeps_self|eauto]]].
  assert (exists o, objects st !! p = Some o) as [o Ho].
  { destruct (Hin p eq_refl) as [Hc|Hs]; [|by apply (m_static _ _ _ _ _ _ _ _ _ (proj2 Hg))].
    destruct (pt_current _ Hp p Hc) as [->|Hf]; [apply (m_static _ _ _ _ _ _ _ _ _ (proj2 Hg)); auto|].
    destruct (good_covered _ _ _ _ _ _ _ p Hg) as (o & Ho & _); [left; unfold regs; rewrite Hf; set_solver +|eauto]. }
  eapply wp_mono; [|by apply (store_spec p o)]. intros [e|[]] st'; [done|]. intros ->. split; [|split; [done|split]].
  - eapply holds_frame; [done| |exact Hl]. destruct Hg as [Hs Hm]. split; [|by apply memory_data].
    apply shared_memory; [|done]. intros q oq Hq. rewrite lookup_insert_Some. intros [[<- <-]|[_ Hoq]]; [|by eapply sh_reuse].
    pose proof (sh_reuse _ _ _ _ Hs p o Hq Ho) as [? ?]. done.
  - intros q oq Hq Hoq. exists oq. cbn. rewrite lookup_insert_ne; [done|congruence].
  - intros q oq Hoq. cbn. destruct (decide (p = q)) as [<-|Hne]; [|rewrite lookup_insert_ne by done; eauto].
    rewrite lookup_insert_eq. rewrite Ho in Hoq. injection Hoq as <-. eexists. by split.
Qed.

Lemma set_command_id_ok cid st : snapmgr_ok st -> wp (SnapshotSetCommandId cid) (safe st (fun _ st' => frame st st')) st.
Proof.
  intros Hok. pose proof Hok as (Hp & l & Hh). unfold SnapshotSetCommandId. apply wp_bind, wp_get. destruct (FirstSnapshotSet st); cbn [negb].
  2:{ apply wp_ret. split; [done|]. split; [by apply objects_kept|done]. }
  apply wp_bind, wp_get. eapply wp_gives; [eapply set_curcid_ok; [by left|exact Hp|exact Hh]|]. intros [] st1 (Hh1 & Hf1 & Hk1 & Hw1). apply wp_bind, wp_get.
  pose proof (frame_pointers _ _ Hf1 Hp) as Hp1.
  eapply wp_mono; [|eapply set_curcid_ok; [|exact Hp1|exact Hh1]].
  2:{ intros q Hq. right. rewrite (pt_secondary _ Hp1 q Hq). unfold statics. set_solver +. }
  intros [e|[]] st2; [done|]. intros (Hh2 & Hf2 & Hk2 & Hw2). assert (Hok2 : snapmgr_ok st2) by (split; [by eapply frame_pointers|eauto]).
  split; [done|]. split; [|by eapply frame_trans]. intros p o Hin Ho. pose proof (ok_static _ p Hok2 Hin) as Hps.
  destruct (Hw1 p o Ho) as (o1 & Ho1 & E1). destruct (Hw2 p o1 Ho1) as (o2 & Ho2 & E2). exists o2. split; [done|]. split; [congruence|]. intros Hc.
  destruct (Hk1 p o Hc Ho) as (o1' & Ho1' & <-). destruct (Hk2 p o1' ltac:(intros Hs; apply Hps; rewrite (pt_secondary _ Hp1 p Hs); unfold statics; set_solver +) Ho1') as (o2' & Ho2' & <-). congruence.
Qed.
End steps.
