(* ===== verification/SnapMgrRefs.v ===== *)
(** * The snapshot manager: references come and go

    The operations that push, pop, register, unregister and export snapshots
    keep [snapmgr_ok]: no reference is lost, nothing referenced is freed. *)

From S2P Require Import Prelude.
From S2P Require Import TransactionId.
From S2P Require Import Varsup.
From S2P Require Import Snapshot.
From S2P Require Import ProcArray.
From S2P Require Import PairingHeap.
From S2P Require Import SnapMgr.
From S2P Require Import SnapMgrMemory.
From S2P Require Import SnapMgrInvariant.
From S2P Require Import SnapMgrSteps.

Section refs.
Context (lo : Z) (my : nat) (inv : ProcArrayStruct -> Prop) (step : ProcArrayStruct -> ProcArrayStruct -> Prop).
Context `{HA : !ArrayLaws lo my inv step}.
Context (palloc : gset positive -> positive) (Hpalloc : forall d, palloc d ∉ d).

Abbreviation M := (prog SnapMgr SnapError).
Abbreviation good := (good lo my inv).
Abbreviation accounted := (accounted lo my inv).
Abbreviation holds := (holds lo my inv).
Abbreviation snapmgr_ok := (snapmgr_ok lo my inv).
Abbreviation safe := (safe lo my inv).
Abbreviation covered_in st p := (covered lo (objects st) (my_xmin st) (now my st) p).

(** ** The stack of active snapshots *)

Lemma current_known st l p : pointers st -> holds st l -> CurrentSnapshot st = Some p -> is_Some (objects st !! p).
Proof.
  intros Hp [Hg _] Hc. destruct (pt_current _ Hp p Hc) as [->|Hf].
  - apply (m_static _ _ _ _ _ _ _ _ _ (proj2 Hg)). unfold statics. set_solver +.
  - destruct (good_covered _ _ _ _ _ _ _ p Hg) as (o & Ho & _); [left; unfold regs; rewrite Hf; set_solver +|eauto].
Qed.

(** One more element on the stack. *)
Lemma push_pointers st q level : pointers st -> (forall e, e ∈ ActiveSnapshot st -> as_level e <= level) -> CurrentSnapshot st <> Some q ->
  pointers (set_active st (MkActive q level :: ActiveSnapshot st) (match OldestActiveSnapshot st with None => Some q | Some a => Some a end)).
Proof.
  intros [H1 H2 H3 H4 H5 H6 H7 H8 H9] Hlev Hq. split; try done; cbn.
  - rewrite H6. unfold acts. cbn. destruct (ActiveSnapshot st) as [|e es] eqn:E; [done|]. cbn [fmap list_fmap].
    rewrite last_cons_cons. destruct (last (as_snap e :: (as_snap <$> es))) eqn:El; [done|]. by apply last_None in El.
  - constructor; [done|]. apply Forall_forall. intros e He. by apply Hlev.
  - intros p. unfold acts. cbn. intros [->|Hin]%elem_of_cons; [done|by apply H8].
Qed.

(** The reference is counted and the element linked. *)
Lemma link_ok st st1 l q o1 level : pointers st -> (forall p, p ∈ l <-> p ∈ regs st \/ CatalogSnapshot st = Some p) ->
  good st1 (regs st) (acts st) l -> frame st st1 -> keeps nothing st st1 -> covered_in st1 q -> CurrentSnapshot st <> Some q ->
  objects st1 !! q = Some o1 -> copied o1 = true -> active_count o1 < 0xffffffff ->
  (forall e, e ∈ ActiveSnapshot st -> as_level e <= level) ->
  wp (pbind (store_snapshot q (fun o => set_active_count o (u32 (active_count o + 1)))) (fun _ =>
      pmod (fun st => set_active st (MkActive q level :: ActiveSnapshot st)
                        (match OldestActiveSnapshot st with None => Some q | Some a => Some a end))))
    (safe st (fun _ st' => stays st st' /\ ActiveSnapshot st' = MkActive q level :: ActiveSnapshot st /\ regs st' = regs st /\
      exists o', objects st' !! q = Some o' /\ snap_data o' = snap_data o1)) st1.
Proof.
  intros Hp Hl Hg1 Hf1 Hk1 Hc1 Hcur Ho1 Hco Hb1 Hlev.
  eapply wp_gives; [by eapply active_inc_spec|]. intros [] st2 (Hg2 & o2 & Hf2 & Hk2 & Ho2 & _). apply wp_mod.
  set (st3 := set_active _ _ _). pose proof (frame_trans _ _ _ Hf1 Hf2) as Hf. pose proof (frame_pointers _ _ Hf Hp) as Hp2.
  assert (Er : regs st3 = regs st) by (apply (frame_regs _ _ Hf)).
  assert (Hok3 : snapmgr_ok st3).
  { split; [apply push_pointers; [done|by rewrite (fr_active _ _ Hf)|by rewrite (fr_current _ _ Hf)]|]. exists l.
    assert (Ea : acts st3 = q :: acts st) by (unfold acts; cbn; by rewrite (fr_active _ _ Hf)).
    split; [rewrite Er, Ea; by apply (good_same _ _ _ st2)|]. intros z. rewrite Er. cbn. rewrite (fr_catalog _ _ Hf). apply Hl. }
  split; [done|]. split; [|split; [exact (frame_stays _ _ Hf)|split; [cbn; by rewrite (fr_active _ _ Hf)|split; [done|]]]].
  - eapply (keeps_kept lo my inv nothing); [done|by apply (keeps_next _ _ _ _ Hk1 Hk2)|done].
  - by apply (Hk2 q o1 (fun H => H)).
Qed.

Lemma push_ok st p o level : snapmgr_ok st -> objects st !! p = Some o -> covered_in st p -> (copied o = true -> active_count o < 0xffffffff) ->
  (forall e, e ∈ ActiveSnapshot st -> as_level e <= level) ->
  wp (PushActiveSnapshotWithLevel palloc p level) (safe st (fun _ st' => stays st st' /\ exists q o', ActiveSnapshot st' = MkActive q level :: ActiveSnapshot st /\
    regs st' = regs st /\ objects st' !! q = Some o' /\ (snap_data o' = snap_data o \/ snap_data o' = copy_data (snap_data o)))) st.
Proof.
  intros Hok Ho Hcov Hb Hlev. pose proof Hok as (Hp & l & Hh). pose proof Hh as [Hg Hl]. unfold PushActiveSnapshotWithLevel.
  eapply wp_gives; [by apply load_spec|]. intros ? ? [-> ->]. apply wp_bind, wp_get, wp_bind, wp_get.
  apply (wp_gives _ _ (fun q st1 => good st1 (regs st) (acts st) l /\ frame st st1 /\ keeps nothing st st1 /\ covered_in st1 q /\
    CurrentSnapshot st <> Some q /\ exists o1, objects st1 !! q = Some o1 /\ copied o1 = true /\ active_count o1 < 0xffffffff /\
    (snap_data o1 = snap_data o \/ snap_data o1 = copy_data (snap_data o)))).
  - destruct (_ || negb (copied o)) eqn:Eb.
    + eapply wp_mono; [|by eapply copy_spec]. intros [e|q] st1; [done|]. intros (Hg1 & (Hq & Hqs & Hf1 & Hk1 & Ho1) & _ & _ & _ & Hc1 & _).
      split; [done|]. split; [done|]. split; [done|]. split; [auto|]. split; [|eexists; split; [exact Ho1|]; split; [done|]; split; [done|by right]].
      intros Hc. destruct (current_known st l q Hp Hh Hc). congruence.
    + rewrite !orb_false_iff, !bool_decide_eq_false in Eb. destruct Eb as [[E1 E2] E3]. destruct (copied o) eqn:Ec; [|done].
      apply wp_ret. split; [done|]. split; [done|]. split; [apply keeps_self|]. split; [done|]. split; [congruence|].
      exists o. split; [done|]. split; [done|]. split; [by apply Hb|by left].
  - intros q st1 (Hg1 & Hf1 & Hk1 & Hc1 & Hcur & o1 & Ho1 & Hco & Hb1 & Hd).
    eapply wp_mono; [|by eapply (link_ok st st1 l)]. intros [e|[]] st'; intros (H1 & H2 & H3); (split; [done|]); (split; [done|]); [done|].
    destruct H3 as (E0 & E1 & E2 & o' & Ho' & Hd'). split; [done|]. exists q, o'. by rewrite Hd'.
Qed.

Lemma push_copied_ok st p o level : snapmgr_ok st -> objects st !! p = Some o -> covered_in st p ->
  (forall e, e ∈ ActiveSnapshot st -> as_level e <= level) ->
  wp (PushCopiedSnapshot palloc level p) (safe st (fun _ st' => stays st st' /\ exists q o', ActiveSnapshot st' = MkActive q level :: ActiveSnapshot st /\
    regs st' = regs st /\ objects st !! q = None /\ objects st' !! q = Some o' /\ snap_data o' = copy_data (snap_data o))) st.
Proof.
  intros Hok Ho Hcov Hlev. pose proof Hok as (Hp & l & Hh). pose proof Hh as [Hg Hl]. unfold PushCopiedSnapshot, PushActiveSnapshot.
  eapply wp_gives; [by eapply copy_spec|]. intros q st1 (Hg1 & (Hq & Hqs & Hf1 & Hk1 & Ho1) & HqR & HqA & Hql & Hc1 & _).
  assert (Hcur : CurrentSnapshot st <> Some q) by (intros Hc; destruct (current_known st l q Hp Hh Hc); congruence).
  assert (Hsec : SecondarySnapshot st <> Some q).
  { intros Hc. apply Hqs. rewrite (pt_secondary _ Hp q Hc). unfold statics. set_solver +. }
  unfold PushActiveSnapshotWithLevel. eapply wp_gives; [by apply load_spec|]. intros ? ? [-> ->]. apply wp_bind, wp_get, wp_bind, wp_get.
  rewrite (fr_current _ _ Hf1), (fr_secondary _ _ Hf1), !bool_decide_false by congruence. cbn [orb negb copied]. apply wp_bind, wp_ret.
  eapply wp_mono; [|eapply (link_ok st st1 l); [exact Hp|exact Hl|exact Hg1|exact Hf1|exact Hk1|auto|exact Hcur|exact Ho1|done|done|exact Hlev]].
  intros [e|[]] st'; intros (H1 & H2 & H3); (split; [done|]); (split; [done|]); [done|].
  destruct H3 as (E0 & E1 & E2 & o' & Ho' & Hd'). split; [done|]. exists q, o'. by rewrite Hd'.
Qed.

(** The command id of the topmost snapshot, which nobody else refers to. *)
Lemma update_active_ok env st e es o : snapmgr_ok st -> ActiveSnapshot st = e :: es -> objects st !! as_snap e = Some o ->
  wp (UpdateActiveSnapshotCommandId env) (fun r st' => snapmgr_ok st' /\ frame st st' /\ keeps (fun q => q = as_snap e) st st' /\
    match r with
    | inl err => err = ParallelOperation /\ st' = st
    | inr _ => objects st' !! as_snap e = Some (set_data o (set_snap_curcid (snap_data o) (GetCurrentCommandId env)))
    end) st.
Proof.
  intros Hok Ea Ho. pose proof Hok as (Hp & l & Hg & Hl). unfold UpdateActiveSnapshotCommandId. apply wp_bind, wp_get. rewrite Ea.
  eapply wp_gives; [by apply load_spec|]. intros ? ? [-> ->]. destruct (IsInParallelMode env && _).
  { apply wp_return. split; [done|]. split; [done|]. split; [apply keeps_self|done]. }
  eapply wp_mono; [|by apply (store_spec _ o)]. intros [err|[]] st'; [done|]. intros ->.
  assert (Hs : as_snap e ∉ statics) by (apply (m_dynamic _ _ _ _ _ _ _ _ _ (proj2 Hg)); right; unfold acts; rewrite Ea; left).
  split; [split; [by apply (frame_pointers st)|]|split; [done|split]].
  - exists l. destruct Hg as [Hsh Hm]. split; [|done]. split; [by apply shared_insert|by apply memory_data].
  - intros q oq Hq Hoq. exists oq. cbn. rewrite lookup_insert_ne; [done|congruence].
  - cbn. by rewrite lookup_insert_eq.
Qed.

(** Dropping the topmost element. *)
Definition unheld (st : SnapMgr) : positive -> Prop := fun p => ~ (p ∈ acts st \/ p ∈ regs st).

Lemma drop_top_ok st e es : snapmgr_ok st -> ActiveSnapshot st = e :: es ->
  wp (drop_top e es) (gives (fun _ st' => snapmgr_ok st' /\ ActiveSnapshot st' = es /\ regs st' = regs st /\ keeps (unheld st') st st' /\
    frame (set_active st es (if bool_decide (es = []) then None else OldestActiveSnapshot st)) st' /\ private st st')) st.
Proof.
  intros Hok Ea. pose proof Hok as (Hp & l & Hg & Hl). set (p := as_snap e).
  assert (Ha : acts st = p :: (as_snap <$> es)) by (unfold acts; by rewrite Ea). rewrite Ha in Hg.
  destruct (good_covered _ _ _ _ _ _ _ p Hg ltac:(right; left; left)) as (o & Ho & _). unfold drop_top. fold p.
  eapply wp_gives; [by eapply active_dec_spec|]. intros [] st1 (Hg1 & o1 & (Hf1 & Hk1 & Ho1 & Hpv1) & Hc1).
  assert (Hps : p ∉ statics) by (apply (m_dynamic _ _ _ _ _ _ _ _ _ (proj2 Hg)); right; left).
  eapply wp_gives; [eapply free_spec; [exact Hg1|exact Ho1|exact Hc1|]|].
  { intros [|Hc]%Hl; [done|]. exfalso. apply Hps. rewrite (pt_catalog _ Hp p Hc). unfold statics. set_solver +. }
  intros b st2 (Hg2 & Hf2 & Hpv2 & Hk2 & _). apply wp_mod. set (st3 := set_active st2 _ _). pose proof (frame_trans _ _ _ Hf1 Hf2) as Hf.
  assert (Er : regs st3 = regs st) by (apply (frame_regs _ _ Hf)). assert (Ea3 : acts st3 = as_snap <$> es) by done.
  assert (Hf3 : frame (set_active st es (if bool_decide (es = []) then None else OldestActiveSnapshot st)) st3).
  { destruct Hf. split; cbn; try done. by rewrite fr_oldest. }
  split; [split; [|exists l]|split; [done|split; [done|split; [|split; [done|by eapply private_trans]]]]].
  - eapply frame_pointers; [exact Hf3|]. destruct Hp as [H1 H2 H3 H4 H5 H6 H7 H8 H9]. rewrite Ha in H6, H8. rewrite Ea in H7. split; try done; cbn.
    + unfold acts. cbn. rewrite H6. destruct es; [done|]. by rewrite bool_decide_false.
    + by apply StronglySorted_inv in H7 as [? _].
    + intros q Hq. apply H8. right. exact Hq.
  - split; [rewrite Er, Ea3; by apply (good_same _ _ _ st2)|]. intros q. rewrite Er. cbn. rewrite (fr_catalog _ _ Hf). apply Hl.
  - intros q oq Hq Hoq. destruct (Hk1 q oq (fun H => H) Hoq) as (oq1 & Hoq1 & <-). apply (Hk2 q oq1); [|done].
    intros (-> & HR & HA'). apply Hq. unfold unheld. rewrite Er, Ea3. tauto.
Qed.

Lemma pop_ok st e es : snapmgr_ok st -> ActiveSnapshot st = e :: es ->
  wp PopActiveSnapshot (gives (fun r st' => safe st (fun _ st' => stays st st' /\ ActiveSnapshot st' = es /\ regs st' = regs st /\ exact_xmin st') (inr r) st')) st.
Proof.
  intros Hok Ea. unfold PopActiveSnapshot. apply wp_bind, wp_get. rewrite Ea.
  eapply wp_gives; [by apply drop_top_ok|]. intros [] st1 ((Hp1 & l1 & Hh1) & Ea1 & Er1 & Hk1 & Hf1 & _).
  eapply wp_mono; [|by eapply (reset_ok lo my inv step)]. intros [err|[]] st2; [done|]. intros (Hh2 & Hf2 & Ho2 & Hx & _).
  assert (Hok2 : snapmgr_ok st2) by (split; [by eapply frame_pointers|eauto]). split; [done|]. split; [|split; [exact (stays_trans _ _ _ (frame_stays _ _ Hf1) (frame_stays _ _ Hf2))|split; [|split; [|done]]]].
  - eapply (keeps_kept lo my inv (unheld st1)); [done|intros q oq Hq Hoq; rewrite Ho2; by apply Hk1|].
    intros q Hq. right. unfold unheld in Hq. rewrite (frame_acts _ _ Hf2), (frame_regs _ _ Hf2). tauto.
  - by rewrite (fr_active _ _ Hf2).
  - by rewrite (frame_regs _ _ Hf2).
Qed.

(** ** Subtransactions *)

Definition below (level : Z) (e : ActiveSnapshotElt) : Prop := as_level e < level.
#[export] Instance below_dec level e : Decision (below level e).
Proof. unfold below. apply _. Defined.

Lemma filter_below_all level (es : list ActiveSnapshotElt) : (forall e, e ∈ es -> as_level e < level) -> filter (below level) es = es.
Proof. intros H. induction es as [|e es IH]; [done|]. rewrite filter_cons_True by (apply H; left). f_equal. apply IH. intros x Hx. apply H. by right. Qed.

Lemma drop_levels_ok level es : forall st, snapmgr_ok st -> ActiveSnapshot st = es ->
  wp (drop_levels level es) (gives (fun _ st' => snapmgr_ok st' /\ ActiveSnapshot st' = filter (below level) es /\ regs st' = regs st /\
    keeps (unheld st') st st' /\ stays st st')) st.
Proof.
  induction es as [|e es IH]; intros st Hok Ea; cbn [drop_levels]; [apply wp_ret; split; [done|]; split; [done|]; split; [done|split; [apply keeps_self|done]]|].
  destruct (Z.leb_spec level (as_level e)) as [Hle|Hlt].
  - rewrite filter_cons_False by (unfold below; lia). eapply wp_gives; [by apply drop_top_ok|]. intros [] st1 (Hok1 & Ea1 & Er1 & Hk1 & Hf1 & _).
    eapply wp_mono; [|by apply IH]. intros [err|[]] st2; [done|]. intros (Hok2 & Ea2 & Er2 & Hk2 & Hs2).
    split; [done|]. split; [done|]. split; [congruence|]. split; [|exact (stays_trans _ _ _ (frame_stays _ _ Hf1) Hs2)]. eapply keeps_next; [|exact Hk2]. eapply keeps_sub; [|exact Hk1].
    intros q Hq. unfold unheld in *. intros [Hin|Hin]; apply Hq; [left|right; by rewrite <- Er2]. unfold acts in *. rewrite Ea2 in Hin. rewrite Ea1.
    apply list_elem_of_fmap in Hin as (x & -> & Hx). apply list_elem_of_filter in Hx as [_ Hx]. by apply list_elem_of_fmap_2.
  - apply wp_ret. split; [done|]. split; [|split; [done|split; [apply keeps_self|done]]]. rewrite Ea. symmetry. apply filter_below_all.
    pose proof (pt_levels _ (proj1 Hok)) as Hs. rewrite Ea in Hs. apply StronglySorted_inv in Hs as [_ Hs]. rewrite Forall_forall in Hs.
    intros x [->|Hx]%elem_of_cons; [done|]. specialize (Hs x Hx). lia.
Qed.

Lemma sub_abort_ok level st : snapmgr_ok st ->
  wp (AtSubAbort_Snapshot level) (gives (fun r st' => safe st (fun _ st' => stays st st' /\
    ActiveSnapshot st' = filter (below level) (ActiveSnapshot st) /\ regs st' = regs st /\ exact_xmin st') (inr r) st')) st.
Proof.
  intros Hok. unfold AtSubAbort_Snapshot. apply wp_bind, wp_get. eapply wp_gives; [by apply drop_levels_ok|].
  intros [] st1 ((Hp1 & l1 & Hh1) & Ea1 & Er1 & Hk1 & Hs1).
  eapply wp_mono; [|by eapply (reset_ok lo my inv step)]. intros [err|[]] st2; [done|]. intros (Hh2 & Hf2 & Ho2 & Hx & _).
  assert (Hok2 : snapmgr_ok st2) by (split; [by eapply frame_pointers|eauto]). split; [done|]. split; [|split; [exact (stays_trans _ _ _ Hs1 (frame_stays _ _ Hf2))|split; [|split; [|done]]]].
  - eapply (keeps_kept lo my inv (unheld st1)); [done|intros q oq Hq Hoq; rewrite Ho2; by apply Hk1|].
    intros q Hq. right. unfold unheld in Hq. rewrite (frame_acts _ _ Hf2), (frame_regs _ _ Hf2). tauto.
  - by rewrite (fr_active _ _ Hf2).
  - by rewrite (frame_regs _ _ Hf2).
Qed.

Definition relabel (level : Z) (e : ActiveSnapshotElt) : ActiveSnapshotElt := MkActive (as_snap e) (Z.min (as_level e) (level - 1)).

Lemma relabel_eq level es : StronglySorted (fun a b => as_level b <= as_level a) es -> relabel_levels level es = relabel level <$> es.
Proof.
  induction es as [|[p n] es IH]; intros Hs; [done|]. apply StronglySorted_inv in Hs as [Hs Hf]. cbn [relabel_levels as_level as_snap fmap list_fmap].
  unfold relabel at 1. cbn [as_level as_snap]. destruct (Z.ltb_spec n level) as [Hlt|Hge].
  - replace (Z.min n (level - 1)) with n by lia. f_equal. rewrite Forall_forall in Hf. clear -Hf Hlt.
    induction es as [|[q k] es IH]; [done|]. cbn. unfold relabel at 1. cbn. pose proof (Hf (MkActive q k) ltac:(left)) as Hk. cbn in Hk.
    replace (Z.min k (level - 1)) with k by lia. f_equal. apply IH. intros x Hx. apply Hf. by right.
  - replace (Z.min n (level - 1)) with (level - 1) by lia. f_equal. by apply IH.
Qed.

Lemma sub_commit_ok level st : snapmgr_ok st ->
  wp (AtSubCommit_Snapshot level) (safe st (fun _ st' => stays st st' /\ ActiveSnapshot st' = relabel level <$> ActiveSnapshot st /\ regs st' = regs st)) st.
Proof.
  intros Hok. pose proof Hok as (Hp & l & Hh). apply wp_mod. pose proof (pt_levels _ Hp) as Hs. rewrite (relabel_eq _ _ Hs).
  set (st1 := set_active _ _ _). assert (Ea : acts st1 = acts st) by (unfold acts; cbn; rewrite <- list_fmap_compose; by apply list_fmap_ext).
  split; [|split; [by apply objects_kept|done]]. split; [|exists l; by apply (holds_pointers lo my inv st)].
  destruct Hp as [H1 H2 H3 H4 H5 H6 H7 H8 H9]. split; rewrite ?Ea; try done. cbn. clear -Hs. induction Hs as [|[p n] es Hs IH Hf]; [constructor|].
  cbn. constructor; [done|]. rewrite Forall_fmap. eapply Forall_impl; [exact Hf|]. intros [q k]. cbn. lia.
Qed.

(** ** Registered snapshots *)

Lemma register_ok owner st p o : snapmgr_ok st -> objects st !! p = Some o -> covered_in st p -> (copied o = true -> regd_count o < 0xffffffff) ->
  wp (RegisterSnapshotOnOwner palloc owner (Some p)) (safe st (fun r st' => stays st st' /\ exists q o', r = Some q /\
    ResourceOwners st' = (owner, q) :: ResourceOwners st /\ ActiveSnapshot st' = ActiveSnapshot st /\ objects st' !! q = Some o' /\
    (snap_data o' = snap_data o \/ snap_data o' = copy_data (snap_data o)))) st.
Proof.
  intros Hok Ho Hcov Hb. pose proof Hok as (Hp & l & Hh). pose proof Hh as [Hg Hl]. cbn [RegisterSnapshotOnOwner].
  eapply wp_gives; [by apply load_spec|]. intros ? ? [-> ->].
  apply (wp_gives _ _ (fun q st1 => good st1 (regs st) (acts st) l /\ frame st st1 /\ keeps nothing st st1 /\ covered_in st1 q /\
    exists o1, objects st1 !! q = Some o1 /\ copied o1 = true /\ regd_count o1 < 0xffffffff /\
    (snap_data o1 = snap_data o \/ snap_data o1 = copy_data (snap_data o)))).
  { destruct (copied o) eqn:Ec.
    - apply wp_ret. split; [done|]. split; [done|]. split; [apply keeps_self|]. split; [done|]. exists o. split; [done|]. split; [done|]. split; [by apply Hb|by left].
    - eapply wp_mono; [|by eapply copy_spec]. intros [e|q] st1; [done|]. intros (Hg1 & (Hq & Hqs & Hf1 & Hk1 & Ho1) & _ & _ & _ & Hc1 & _).
      split; [done|]. split; [done|]. split; [done|]. split; [auto|]. eexists. split; [exact Ho1|]. split; [done|]. split; [done|by right]. }
  intros q st1 (Hg1 & Hf1 & Hk1 & Hc1 & o1 & Ho1 & Hco & Hb1 & Hd).
  eapply wp_gives; [by eapply regd_inc_spec|]. intros [] st2 (Hg2 & Hf2 & Hk2 & Ho2 & _). apply wp_bind, wp_mod. set (st3 := set_owners st2 _).
  pose proof (frame_trans _ _ _ Hf1 Hf2) as Hf.
  eapply wp_gives; [apply (load_spec q (set_regd_count o1 (regd_count o1 + 1)) st3); exact Ho2|]. intros ? ? [-> ->].
  destruct (m_regd _ _ _ _ _ _ _ _ _ (proj2 Hg1) q o1 Ho1 Hco) as [Ec _]. pose proof (dynamic _ _ _ _ _ _ _ _ _ Hg1 Ho1 Hco) as Hqs.
  assert (Hqc : CatalogSnapshot st <> Some q) by (intros Hc; apply Hqs; rewrite (pt_catalog _ Hp q Hc); unfold statics; set_solver +).
  assert (Hg3 : good st3 (q :: regs st) (acts st) l) by (by apply (good_same _ _ _ st2)).
  apply (wp_gives _ _ (fun _ st4 => frame st3 st4 /\ objects st4 = objects st3 /\ exists l', good st4 (q :: regs st) (acts st) l' /\
    forall z, z ∈ l' <-> z ∈ q :: regs st \/ CatalogSnapshot st = Some z)).
  { cbn [regd_count set_regd_count]. destruct (Z.eqb_spec (regd_count o1 + 1) 1) as [E|E]; cbn [pwhen].
    - assert (HqR : q ∉ regs st) by (apply occ_zero; lia).
      eapply wp_mono; [|apply heap_add_spec; [exact Hg3|eapply good_covered; [exact Hg3|left; left]|rewrite Hl; tauto]].
      intros [e|[]] st4; [done|]. intros (Hg4 & Hf4 & Ho4 & _). split; [done|]. split; [done|]. exists (q :: l). split; [done|].
      intros z. rewrite !elem_of_cons, Hl. tauto.
    - apply wp_ret. split; [done|]. split; [done|]. exists l. split; [done|]. intros z. rewrite elem_of_cons, Hl.
      assert (q ∈ regs st) by (apply dec_stable; rewrite <- occ_zero; lia). split; [tauto|]. intros [[->|]|]; tauto. }
  intros [] st4 (Hf4 & Ho4 & l' & Hg4 & Hl'). apply wp_ret.
  assert (Er : regs st4 = q :: regs st).
  { rewrite (frame_regs _ _ Hf4). unfold st3, regs. cbn. destruct Hf. by rewrite fr_owners, fr_first, fr_exported. }
  assert (Ea : acts st4 = acts st) by (rewrite (frame_acts _ _ Hf4); apply (frame_acts _ _ Hf)).
  assert (Hok4 : snapmgr_ok st4).
  { split; [eapply frame_pointers; [exact Hf4|]; destruct (frame_pointers _ _ Hf Hp); by split|]. exists l'. split; [by rewrite Er, Ea|].
    intros z. rewrite Er, (fr_catalog _ _ Hf4). cbn. rewrite (fr_catalog _ _ Hf). apply Hl'. }
  split; [done|]. split.
  - eapply (keeps_kept lo my inv nothing); [done| |done]. eapply keeps_next; [by apply (keeps_next _ _ _ _ Hk1 Hk2)|].
    intros z oz _ Hz. rewrite Ho4. eauto.
  - split; [exact (stays_trans st st3 st4 (frame_stays _ _ Hf) (frame_stays _ _ Hf4))|].
    destruct (Hk2 q o1 (fun H => H) Ho1) as (o' & Ho' & Hd'). exists q, o'. split; [done|]. rewrite (fr_owners _ _ Hf4), (fr_active _ _ Hf4). cbn.
    rewrite (fr_owners _ _ Hf), (fr_active _ _ Hf), Ho4, Hd'. done.
Qed.

(** A registered reference is given up, up to the reset of the xmin. *)
Lemma drop_ref xm p st R A l C Q : accounted xm st (p :: R) A l -> (forall z, z ∈ l <-> z ∈ p :: R \/ C = Some z) ->
  (forall z, C = Some z -> z = CatalogSnapshotData) ->
  (forall b st' l', accounted xm st' R A l' -> (forall z, z ∈ l' <-> z ∈ R \/ C = Some z) -> frame st st' -> private st st' ->
     keeps (fun q => q = p /\ p ∉ R /\ p ∉ A) st st' -> wp (pwhen b SnapshotResetXmin) Q st') ->
  wp (UnregisterSnapshotNoOwner p) Q st.
Proof.
  intros Hg Hl HC Hk. destruct (m_covered _ _ _ _ _ _ _ _ _ (proj2 Hg) p ltac:(left; left)) as (o & Ho & _). unfold UnregisterSnapshotNoOwner.
  assert (Hps : p ∉ statics) by (apply (m_dynamic _ _ _ _ _ _ _ _ _ (proj2 Hg)); left; left).
  assert (Hpc : C <> Some p) by (intros Hc; apply Hps; rewrite (HC p Hc); unfold statics; set_solver +).
  eapply wp_gives; [by eapply regd_dec_acc|]. intros [] st1 (Hg1 & (Hf1 & Hk1 & Ho1 & Hpv1) & Hco).
  eapply wp_gives; [by apply load_spec|]. intros ? ? [-> ->]. cbn [regd_count set_regd_count].
  apply (wp_gives _ _ (fun _ st2 => frame st1 st2 /\ private st1 st2 /\ objects st2 = objects st1 /\ exists l', accounted xm st2 R A l' /\
    forall z, z ∈ l' <-> z ∈ R \/ C = Some z)).
  { destruct (Z.eqb_spec (occ p R) 0) as [E|E]; cbn [pwhen].
    - apply occ_zero in E. eapply wp_mono; [|eapply (heap_remove_acc lo my inv xm); [exact Hg1|apply Hl; left; left]].
      intros [e|[]] st2; [done|]. intros (l' & Hp' & Hg2 & Hf2 & Ho2 & Hpv2). split; [done|]. split; [done|]. split; [done|]. exists l'. split; [done|].
      pose proof (heap_nodup _ _ _ _ _ (m_heap _ _ _ _ _ _ _ _ _ (proj2 Hg1))) as Hnd. rewrite Hp' in Hnd. apply NoDup_cons in Hnd as [Hn _].
      intros z. pose proof (Hl z) as Hz. rewrite Hp', !elem_of_cons in Hz. destruct (decide (z = p)) as [->|Hne]; tauto.
    - apply wp_ret. split; [done|]. split; [done|]. split; [done|]. exists l. split; [done|].
      assert (p ∈ R) by (apply dec_stable; by rewrite <- occ_zero). intros z. rewrite Hl, elem_of_cons. split; [|tauto]. intros [[->|]|]; tauto. }
  intros [] st2 (Hf2 & Hpv2 & Ho2 & l' & Hg2 & Hl').
  eapply wp_gives; [eapply (free_acc lo my inv xm); [exact Hg2|by rewrite Ho2|done|]|].
  { intros [|Hc]%Hl'; [done|]. congruence. }
  intros b st3 (Hg3 & Hf3 & Hpv3 & Hk3 & _). apply (Hk b st3 l'); [done|done| | |].
  - eapply frame_trans; [exact Hf1|]. by eapply frame_trans.
  - eapply private_trans; [exact Hpv1|]. by eapply private_trans.
  - intros q oq Hq Hoq. destruct (Hk1 q oq (fun H => H) Hoq) as (oq1 & Hoq1 & <-). rewrite <- Ho2 in Hoq1. by apply (Hk3 q oq1).
Qed.

Lemma forget_perm e l l' : forget e l = Some l' -> l ≡ₚ e :: l'.
Proof.
  revert l'. induction l as [|x l IH]; intros l'; cbn [forget]; [done|]. case_decide as E; [intros [= <-]; by rewrite E|].
  destruct (forget e l) as [k|]; [|done]. intros [= <-]. rewrite (IH k eq_refl). apply perm_swap.
Qed.

(** The owner no longer remembers the reference: what is left of it. *)
Lemma forgotten_regs st e l' : forget e (ResourceOwners st) = Some l' -> regs st ≡ₚ e.2 :: regs (set_owners st l').
Proof. intros Hf. unfold regs. cbn. by rewrite (forget_perm _ _ _ Hf). Qed.

Lemma unregister_noowner_ok st e l' : snapmgr_ok st -> forget e (ResourceOwners st) = Some l' ->
  wp (UnregisterSnapshotNoOwner e.2) (gives (fun _ st' => snapmgr_ok st' /\ kept st st' /\ frame (set_owners st l') st')) (set_owners st l').
Proof.
  intros Hok Hf. pose proof Hok as (Hp & l & Hg & Hl). pose proof (forgotten_regs _ _ _ Hf) as Hr. set (st1 := set_owners st l') in *.
  assert (Hp1 : pointers st1) by (destruct Hp; by split).
  assert (Hg1 : good st1 (e.2 :: regs st1) (acts st1) l) by (eapply good_perm; [exact Hr|done|done|]; by apply (good_same _ _ _ st)).
  eapply (drop_ref (my_xmin st1) e.2 st1 (regs st1) (acts st1) l (CatalogSnapshot st1)); [exact Hg1|intros z; by rewrite <- Hr|apply Hp|].
  intros b st2 l2 Hg2 Hl2 Hf2 Hpv2 Hk2. apply good_private in Hg2; [|done].
  assert (Hh2 : holds st2 l2) by (by eapply holds_frame). pose proof (frame_pointers _ _ Hf2 Hp1) as Hp2.
  assert (Hend : forall st3, frame st2 st3 -> objects st3 = objects st2 -> holds st3 l2 ->
    snapmgr_ok st3 /\ kept st st3 /\ frame st1 st3).
  { intros st3 Hf3 Ho3 Hh3. pose proof (frame_trans _ _ _ Hf2 Hf3) as Hf'. assert (Hok3 : snapmgr_ok st3) by (split; [by eapply frame_pointers|eauto]).
    split; [done|]. split; [|done]. eapply (keeps_kept lo my inv (unheld st1)); [done| |].
    - eapply keeps_sub; [|intros q oq Hq Hoq; rewrite Ho3; by apply (Hk2 q oq Hq)]. intros q (-> & ? & ?). unfold unheld. tauto.
    - intros q Hq. right. unfold unheld in Hq. rewrite (frame_acts _ _ Hf'), (frame_regs _ _ Hf'). tauto. }
  destruct b; cbn [pwhen]; [|apply wp_ret; by apply Hend].
  eapply wp_mono; [|by eapply (reset_ok lo my inv step)]. intros [err|[]] st3; [done|]. intros (Hh3 & Hf3 & Ho3 & _). by apply Hend.
Qed.

Lemma unregister_ok owner p st : snapmgr_ok st ->
  wp (UnregisterSnapshotFromOwner owner p) (safe st (fun _ st' => stays st st' /\ ActiveSnapshot st' = ActiveSnapshot st)) st.
Proof.
  intros Hok. destruct p as [p|]; cbn [UnregisterSnapshotFromOwner]; [|apply wp_ret; split; [done|]; split; [by apply objects_kept|done]].
  apply wp_bind, wp_get. destruct (forget (owner, p) (ResourceOwners st)) as [l'|] eqn:Ef.
  - apply wp_bind, wp_mod. eapply wp_mono; [|by apply (unregister_noowner_ok st (owner, p) l')].
    intros [e|[]] st'; [done|]. intros (H1 & H2 & H3). split; [done|]. split; [done|]. split; [exact (frame_stays _ _ H3)|]. apply (fr_active _ _ H3).
  - apply wp_return. split; [done|]. split; [by apply objects_kept|done].
Qed.
End refs.
