(* ===== verification/SnapMgrXact.v ===== *)
(** * The snapshot manager: transactions

    Exporting and importing snapshots, releasing resource owners, and the end
    of a transaction, after which nothing is held and no xmin advertised. *)

From S2P Require Import Prelude.
From S2P Require Import TransactionId.
From S2P Require Import Varsup.
From S2P Require Import Snapshot.
From S2P Require Import ProcArray.
From S2P Require Import PairingHeap.
From S2P Require Import SnapMgr.
From S2P Require Import SnapMgrMemory.
From S2P Require Import SnapMgrInvariant.
From S2P Require Import SnapMgrSteps.
From S2P Require Import SnapMgrRefs.

Section xact.
Context (lo : Z) (my : nat) (inv : ProcArrayStruct -> Prop) (step : ProcArrayStruct -> ProcArrayStruct -> Prop).
Context `{HA : !ArrayLaws lo my inv step}.
Context (palloc : gset positive -> positive) (Hpalloc : forall d, palloc d ∉ d).
Context `{HP : PredicateLocks} `{HL : !PredicateLocksLaws}.

Abbreviation rank := (xid_rank lo).
Abbreviation in_use := (in_use lo).
Abbreviation M := (prog SnapMgr SnapError).
Abbreviation good := (good lo my inv).
Abbreviation accounted := (accounted lo my inv).
Abbreviation holds := (holds lo my inv).
Abbreviation snapmgr_ok := (snapmgr_ok lo my inv).
Abbreviation safe := (safe lo my inv).
Abbreviation covered_in st p := (covered lo (objects st) (my_xmin st) (now my st) p).

Lemma in_option_list (z : positive) o : z ∈ option_list o <-> o = Some z.
Proof. destruct o as [x|]; cbn; [rewrite list_elem_of_singleton; naive_solver|rewrite elem_of_nil; naive_solver]. Qed.

(** ** Exported snapshots *)

Lemma export_gives st p o : snapmgr_ok st -> objects st !! p = Some o -> covered_in st p ->
  wp (keep_exported palloc p) (gives (fun q st' => snapmgr_ok st' /\ kept st st' /\ stays st st' /\ exportedSnapshots st' = exportedSnapshots st ++ [q] /\
    exists o', objects st' !! q = Some o' /\ snap_data o' = copy_data (snap_data o))) st.
Proof.
  intros Hok Ho Hcov. pose proof Hok as (Hp & l & Hg & Hl).
  eapply wp_mono; [|apply (register_copy_spec lo my inv palloc Hpalloc p o (fun copy st => set_exported st (exportedSnapshots st ++ [copy])) st
    (regs st) (acts st) l); [done|exact Hg|exact Ho|exact Hcov]].
  intros [e|q] st'; [done|]. intros (Hg' & (st1 & Hf1 & Hf2) & Hk & Hqs & Hq & Hpv & Hd).
  assert (Hf : frame (set_exported st (exportedSnapshots st ++ [q])) st') by (destruct Hf1, Hf2; split; cbn in *; congruence).
  assert (Hregs : q :: regs st ≡ₚ regs st').
  { rewrite (frame_regs _ _ Hf). unfold regs. cbn. rewrite !app_assoc. apply Permutation_cons_append. }
  assert (Ea : acts st' = acts st) by (apply (frame_acts _ _ Hf)).
  assert (Hok' : snapmgr_ok st').
  { assert (Hnew : q ∉ regs st) by (intros Hin; destruct (good_covered _ _ _ _ _ _ _ q Hg ltac:(tauto)) as (? & ? & _); congruence).
    split; [eapply frame_pointers; [exact Hf|]; destruct Hp; split; try done|exists (q :: l); split].
    - cbn. rewrite app_assoc. apply NoDup_app. split; [done|]. split; [|apply NoDup_singleton]. intros z Hz ->%list_elem_of_singleton.
      apply Hnew. unfold regs. set_solver +Hz.
    - rewrite Ea. by eapply good_perm; [exact Hregs| | |exact Hg'].
    - intros z. rewrite <- Hregs, !elem_of_cons, Hl, (fr_catalog _ _ Hf). cbn. tauto. }
  split; [done|]. split; [by eapply (keeps_kept lo my inv nothing)|].
  split; [exact (frame_stays _ _ Hf)|]. by rewrite (fr_exported _ _ Hf).
Qed.

Lemma export_ok st p o : snapmgr_ok st -> objects st !! p = Some o -> covered_in st p ->
  wp (keep_exported palloc p) (safe st (fun q st' => stays st st' /\ exportedSnapshots st' = exportedSnapshots st ++ [q] /\
    exists o', objects st' !! q = Some o' /\ snap_data o' = copy_data (snap_data o))) st.
Proof. intros Hok Ho Hcov. eapply wp_mono; [|by apply export_gives]. by intros [e|q] st'. Qed.

(** ** Releasing a resource owner *)

Lemma forget_elem e l : e ∈ l -> exists l', forget e l = Some l'.
Proof.
  induction l as [|x l IH]; intros Hin; [set_solver +Hin|]. cbn. case_decide as E; [eauto|].
  destruct IH as [l' ->]; [set_solver +Hin E|]. by eexists.
Qed.

(** Whatever one unregistration keeps, releasing the references keeps. *)
Lemma release_refs_ok (I : SnapMgr -> Prop)
  (HI : forall st e l', I st -> forget e (ResourceOwners st) = Some l' ->
    wp (UnregisterSnapshotNoOwner e.2) (gives (fun _ st' => I st' /\ ResourceOwners st' = l')) (set_owners st l')) :
  forall refs rest st, I st -> ResourceOwners st ≡ₚ refs ++ rest ->
  wp (release_refs refs) (gives (fun _ st' => I st' /\ ResourceOwners st' ≡ₚ rest)) st.
Proof.
  induction refs as [|e refs IH]; intros rest st Hst Hp; cbn [release_refs]; [by apply wp_ret|]. apply wp_bind, wp_get.
  destruct (forget_elem e (ResourceOwners st)) as [l' Hf]; [rewrite Hp; set_solver +|]. rewrite Hf. apply wp_bind, wp_mod.
  eapply wp_gives; [by apply HI|]. intros [] st' [Hst' Eo]. apply IH; [done|]. rewrite Eo.
  apply (Permutation_cons_inv (a := e)). rewrite <- (forget_perm _ _ _ Hf). exact Hp.
Qed.

Lemma filter_split (P : Z * positive -> Prop) `{forall e, Decision (P e)} (l : list (Z * positive)) : l ≡ₚ filter P l ++ filter (fun e => ~ P e) l.
Proof.
  induction l as [|e l IH]; [done|]. rewrite !filter_cons. destruct (decide (P e)) as [HPe|HPe].
  - rewrite decide_False by tauto. cbn. by rewrite IH at 1.
  - rewrite decide_True by done. by rewrite IH at 1; rewrite Permutation_middle.
Qed.

(** While the transaction goes on. *)
Lemma kept_trans st st1 st2 : kept st st1 -> kept st1 st2 -> CurrentSnapshot st1 = CurrentSnapshot st ->
  (forall p, p ∈ acts st2 \/ p ∈ regs st2 -> p ∈ acts st1 \/ p ∈ regs st1) -> kept st st2.
Proof.
  intros H1 H2 Hc Hs p o Hp Ho. destruct (H1 p o (Hs p Hp) Ho) as (o1 & Ho1 & E1 & D1). destruct (H2 p o1 Hp Ho1) as (o2 & Ho2 & E2 & D2).
  exists o2. split; [done|]. split; [congruence|]. intros Hn. rewrite D2 by (by rewrite Hc). by apply D1.
Qed.

Lemma release_ok owner st : snapmgr_ok st ->
  wp (ResourceOwnerReleaseSnapshots owner) (safe st (fun _ st' => stays st st' /\ ActiveSnapshot st' = ActiveSnapshot st /\
    ResourceOwners st' ≡ₚ filter (fun e => ~ e.1 = owner) (ResourceOwners st))) st.
Proof.
  intros Hok. unfold ResourceOwnerReleaseSnapshots. apply wp_bind, wp_get.
  eapply wp_mono; [|apply (release_refs_ok (fun st' => snapmgr_ok st' /\ kept st st' /\ stays st st' /\ ActiveSnapshot st' = ActiveSnapshot st /\
    CurrentSnapshot st' = CurrentSnapshot st)); [| |apply filter_split]].
  - intros [e|[]] st'; [done|]. intros ((H1 & H2 & H3 & H5 & _) & H4). done.
  - intros st1 e l' (Hok1 & Hk1 & Hs1 & Ha1 & Hc1) Hf. eapply wp_mono; [|by apply (unregister_noowner_ok lo my inv step)].
    intros [err|[]] st2; [done|]. intros (Hok2 & Hk2 & H3).
    split; [|by rewrite (fr_owners _ _ H3)]. split; [done|]. split; [|split; [exact (stays_trans _ _ _ Hs1 (frame_stays _ _ H3))|rewrite (fr_active _ _ H3), (fr_current _ _ H3); done]].
      eapply kept_trans; [exact Hk1|exact Hk2|done|]. intros p. rewrite (frame_acts _ _ H3), (frame_regs _ _ H3), (forgotten_regs _ _ _ Hf).
      rewrite elem_of_cons. change (acts (set_owners st1 l')) with (acts st1). tauto.
  - split; [done|]. split; [by apply objects_kept|done].
Qed.

(** ** The end of a transaction

    The array has forgotten the xmin; [xm] is what it was. *)

Definition closing (xm : Z) (st : SnapMgr) : Prop :=
  pointers st /\ exists l, accounted xm st (regs st) (acts st) l /\ forall p, p ∈ l <-> p ∈ regs st \/ CatalogSnapshot st = Some p.

Lemma unregister_closing xm st e l' : closing xm st -> forget e (ResourceOwners st) = Some l' ->
  wp (UnregisterSnapshotNoOwner e.2) (gives (fun _ st' => closing xm st' /\ ResourceOwners st' = l')) (set_owners st l').
Proof.
  intros (Hp & l & Hg & Hl) Hf. pose proof (forgotten_regs _ _ _ Hf) as Hr. set (st1 := set_owners st l') in *.
  assert (Hp1 : pointers st1) by (destruct Hp; by split).
  assert (Hg1 : accounted xm st1 (e.2 :: regs st1) (acts st1) l).
  { destruct Hg as [Hs Hm]. split; [by destruct Hs|]. eapply memory_perm; [exact Hr|done|done|exact Hm]. }
  eapply (drop_ref lo my inv xm e.2 st1 (regs st1) (acts st1) l (CatalogSnapshot st1)); [exact Hg1|intros z; by rewrite <- Hr|apply Hp|].
  intros b st2 l2 Hg2 Hl2 Hf2 Hpv2 Hk2.
  assert (Hend : forall st3, frame st2 st3 -> accounted xm st3 (regs st1) (acts st1) l2 -> closing xm st3 /\ ResourceOwners st3 = l').
  { intros st3 Hf3 Hg3. pose proof (frame_trans _ _ _ Hf2 Hf3) as Hf'. split; [|by rewrite (fr_owners _ _ Hf')].
    split; [by eapply frame_pointers|]. exists l2. rewrite (frame_regs _ _ Hf'), (frame_acts _ _ Hf'), (fr_catalog _ _ Hf'). done. }
  destruct b; cbn [pwhen]; [|apply wp_ret; by apply Hend].
  eapply wp_mono; [|by apply (reset_acc lo my inv step)]. intros [err|[]] st3; [done|]. intros (Hg3 & Hf3 & _). by apply Hend.
Qed.

Lemma release_closing xm owner st : closing xm st ->
  wp (ResourceOwnerReleaseSnapshots owner) (gives (fun _ st' => closing xm st' /\
    ResourceOwners st' ≡ₚ filter (fun e => ~ e.1 = owner) (ResourceOwners st))) st.
Proof.
  intros Hc. unfold ResourceOwnerReleaseSnapshots. apply wp_bind, wp_get.
  apply (release_refs_ok (closing xm)); [|done|apply filter_split]. intros st1 e l' H1 Hf. by apply unregister_closing.
Qed.

(** [AtEOXact_Snapshot] takes its own references out of the heap. *)
Lemma remove_exported_ok xm R A ps : forall st l, accounted xm st R A (ps ++ l) ->
  wp (remove_exported ps) (gives (fun _ st' => exists l', accounted xm st' R A l' /\ l' ≡ₚ l /\ frame st st' /\ objects st' = objects st /\ private st st')) st.
Proof.
  induction ps as [|p ps IH]; intros st l Hg; cbn [remove_exported]; [apply wp_ret; exists l; done|].
  eapply wp_gives; [eapply (heap_remove_acc lo my inv xm); [exact Hg|left]|]. intros [] st1 (l1 & Hl1 & Hg1 & Hf1 & Ho1 & Hpv1).
  apply (Permutation_cons_inv (a := p)) in Hl1.
  assert (Hg1' : accounted xm st1 R A (ps ++ l)) by (destruct Hg1 as [Hs Hm]; split; [done|]; eapply memory_perm; [done|done|symmetry; exact Hl1|exact Hm]).
  eapply wp_mono; [|by apply (IH st1 l)]. intros [e|[]] st2; [done|]. intros (l2 & Hg2 & Hl2 & Hf2 & Ho2 & Hpv2). exists l2.
  split; [done|]. split; [done|]. split; [by eapply frame_trans|]. split; [congruence|]. by eapply private_trans.
Qed.

Lemma accounted_perm xm st R A l l' : l ≡ₚ l' -> accounted xm st R A l -> accounted xm st R A l'.
Proof. intros Hl [Hs Hm]. split; [done|]. by eapply memory_perm; [| |exact Hl|]. Qed.

(** Nothing is held, as at the start of a transaction. *)
Record idle (st : SnapMgr) : Prop := {
  id_regs : regs st = [];
  id_acts : acts st = [];
  id_catalog : CatalogSnapshot st = None;
  id_set : FirstSnapshotSet st = false;
  id_xmin : my_xmin st = InvalidTransactionId;
  id_freed : forall p, is_Some (objects st !! p) -> p ∈ statics;
}.

(** Out of the heap go the first snapshot and the exported ones. *)
Lemma drop_own_refs xm st R A l : accounted xm st R A l -> l ≡ₚ option_list (FirstXactSnapshot st) ++ exportedSnapshots st ++ option_list (CatalogSnapshot st) ->
  forall {B} (k : M B) Q,
  (forall st' l', accounted xm st' R A l' -> l' ≡ₚ option_list (CatalogSnapshot st) -> my_xmin st' = my_xmin st ->
     frame (set_exported (set_xact_snapshots st (CurrentSnapshot st) (SecondarySnapshot st) None (FirstSnapshotSet st)) []) st' -> wp k Q st') ->
  wp (pbind (match FirstXactSnapshot st with Some p => heap_remove p | None => pret tt end) (fun _ =>
      pbind (pmod (fun st => set_xact_snapshots st (CurrentSnapshot st) (SecondarySnapshot st) None (FirstSnapshotSet st))) (fun _ =>
      pbind (pget exportedSnapshots) (fun exported =>
      pbind (remove_exported exported) (fun _ =>
      pbind (pmod (fun st => set_exported st [])) (fun _ => k)))))) Q st.
Proof.
  intros Hg Hl B k Q Hk.
  apply (wp_gives _ _ (fun _ st1 => accounted xm st1 R A (exportedSnapshots st ++ option_list (CatalogSnapshot st)) /\ frame st st1 /\ private st st1)).
  { destruct (FirstXactSnapshot st) as [p|]; cbn in Hl.
    - eapply wp_mono; [|eapply (heap_remove_acc lo my inv xm); [exact Hg|rewrite Hl; left]]. intros [e|[]] st1; [done|].
      intros (l' & Hl' & Hg1 & Hf1 & _ & Hpv1). split; [|done]. eapply accounted_perm; [|exact Hg1]. apply (Permutation_cons_inv (a := p)). by rewrite <- Hl', Hl.
    - apply wp_ret. split; [by eapply accounted_perm|done]. }
  intros [] st1 (Hg1 & Hf1 & Hpv1). apply wp_bind, wp_mod, wp_bind, wp_get. set (st2 := set_xact_snapshots st1 _ _ _ _).
  change (exportedSnapshots st2) with (exportedSnapshots st1). rewrite (fr_exported _ _ Hf1).
  eapply wp_gives; [eapply remove_exported_ok; by apply (accounted_same lo my inv xm st1)|]. intros [] st3 (l3 & Hg3 & Hl3 & Hf3 & _ & Hpv3).
  apply wp_bind, wp_mod. apply (Hk _ l3); [by apply (accounted_same lo my inv xm st3)|done| |].
  - change (my_xmin (set_exported st3 [])) with (my_xmin st3). rewrite (private_xmin _ _ Hpv3). apply (private_xmin _ _ Hpv1).
  - destruct Hf1, Hf3. split; cbn in *; congruence.
Qed.

Lemma eoxact_ok xm resetXmin st : closing xm st -> ResourceOwners st = [] -> resetXmin = true \/ my_xmin st = InvalidTransactionId ->
  wp (pbind (AtEOXact_Snapshot resetXmin) (fun _ => delete_TopTransactionContext)) (gives (fun _ st' => snapmgr_ok st' /\ idle st')) st.
Proof.
  intros (Hp & l & Hg & Hl) Ho Hx.
  assert (Hl' : l ≡ₚ option_list (FirstXactSnapshot st) ++ exportedSnapshots st ++ option_list (CatalogSnapshot st)).
  { apply NoDup_Permutation; [apply (heap_nodup _ _ _ _ _ (m_heap _ _ _ _ _ _ _ _ _ (proj2 Hg)))| |].
    - rewrite app_assoc. apply NoDup_app. split; [apply Hp|]. split; [|destruct (CatalogSnapshot st); cbn; [apply NoDup_singleton|constructor]].
      intros z Hz Hc%in_option_list. apply (m_dynamic _ _ _ _ _ _ _ _ _ (proj2 Hg) z).
      + left. unfold regs. set_solver +Hz.
      + rewrite (pt_catalog _ Hp z Hc). unfold statics. set_solver +.
    - intros z. rewrite Hl. unfold regs. rewrite Ho, !elem_of_app, !in_option_list. cbn. rewrite elem_of_nil. tauto. }
  apply wp_bind. unfold AtEOXact_Snapshot. apply wp_bind, wp_get.
  apply (drop_own_refs xm st (regs st) (acts st) l Hg Hl'). intros st1 l1 Hg1 Hl1 Hx1 Hf1.
  apply (wp_gives _ _ (fun _ st2 => accounted xm st2 (regs st) (acts st) [] /\ (my_xmin st2 = InvalidTransactionId \/ my_xmin st2 = my_xmin st) /\
    frame (no_catalog st1) st2)).
  { unfold InvalidateCatalogSnapshot. apply wp_bind, wp_get. rewrite (fr_catalog _ _ Hf1). cbn. destruct (CatalogSnapshot st) as [c|] eqn:Ec; cbn in Hl1.
    - eapply wp_gives; [eapply (heap_remove_acc lo my inv xm); [exact Hg1|rewrite Hl1; left]|]. intros [] st2 (l2 & Hl2 & Hg2 & Hf2 & _ & Hpv2).
      rewrite Hl1 in Hl2. apply Permutation_cons_inv, Permutation_nil_l in Hl2 as <-. apply wp_bind, wp_mod.
      eapply wp_mono; [|eapply (reset_acc lo my inv step xm); by apply (accounted_same lo my inv xm st2)]. intros [e|[]] st3; [done|].
      intros (Hg3 & Hf3 & _ & Hx3). split; [done|]. split; [|destruct Hf2, Hf3; split; cbn in *; congruence].
      destruct (Hx3 eq_refl) as [|E]; [by left|right]. rewrite E, <- Hx1. apply (private_xmin _ _ Hpv2).
    - apply wp_ret. apply Permutation_nil_r in Hl1 as ->. split; [done|]. split; [by right|]. destruct Hf1. split; cbn in *; congruence. }
  intros [] st2 (Hg2 & Hx2 & Hf2). apply wp_bind, wp_mod, wp_bind, wp_mod, wp_bind, wp_mod. set (st3 := set_xact_snapshots _ _ _ _ _).
  assert (Hs3 : shared_ok lo my inv st3) by (destruct Hg2 as [[] _]; by split).
  apply (wp_mono _ (gives (fun _ st4 => shared_ok lo my inv st4 /\ my_xmin st4 = InvalidTransactionId /\ frame st3 st4 /\ objects st4 = objects st3 /\
    ph_nodes st4 = ph_nodes st3 /\ RegisteredSnapshots st4 = None))).
  2:{ destruct resetXmin; cbn [pwhen].
    - unfold SnapshotResetXmin. apply wp_bind, wp_get, wp_bind, wp_get, wp_mod. split; [by apply (shared_set_xmin lo my inv step); [|left]|].
      split; [by apply (my_xmin_set lo my inv step)|done].
    - apply wp_ret. split; [done|]. split; [|done]. change (my_xmin st3) with (my_xmin st2). destruct Hx2 as [|E]; [done|]. rewrite E. by destruct Hx. }
  intros [e|[]] st4; [done|]. intros (Hs4 & Hx4 & Hf4 & Eo & En & Er). apply wp_mod. set (st5 := set_memory _ _ _).
  assert (Hm5 : memory lo (objects st5) (ph_nodes st5) (RegisteredSnapshots st5) [] [] [] (my_xmin st5) (now my st5)).
  { cbn. rewrite Er, Eo, En. eapply memory_reset. apply Hg2. }
  assert (Hs5 : shared_ok lo my inv st5).
  { apply shared_memory; [|done]. intros p o Hp' [Ho' _]%map_lookup_filter_Some. by eapply (sh_reuse _ _ _ _ Hs4). }
  assert (Hr5 : regs st5 = []).
  { unfold regs. cbn. destruct Hf1, Hf2, Hf4. cbn in *. by rewrite fr_owners1, fr_first1, fr_exported1, fr_owners0, fr_exported0, fr_first0, fr_owners, fr_exported, fr_first, Ho. }
  assert (Ha5 : acts st5 = []) by (unfold acts; cbn; by rewrite (fr_active _ _ Hf4)).
  assert (Hc5 : CatalogSnapshot st5 = None) by (cbn; rewrite (fr_catalog _ _ Hf4); cbn; by rewrite (fr_catalog _ _ Hf2)).
  split; [split; [|exists []]|].
  - pose proof (pt_historic _ Hp) as Hh. destruct Hf1, Hf2, Hf4. cbn in *.
    assert (Hfx : FirstXactSnapshot st5 = None /\ exportedSnapshots st5 = []) by (cbn; split; congruence).
    split; rewrite ?Ha5, ?(proj1 Hfx), ?(proj2 Hfx); cbn; try congruence; intros; try congruence; [|constructor].
    rewrite fr_active1. constructor.
  - split; [rewrite Hr5, Ha5; by split|]. intros p. rewrite Hr5, Hc5. set_solver +.
  - split; [done|done|done|cbn; by rewrite (fr_set _ _ Hf4)|done|]. intros p [o Hob]. pose proof (m_copied _ _ _ _ _ _ _ _ _ Hm5 p o Hob) as Hc.
    destruct (decide (p ∈ statics)) as [|Hn]; [done|]. apply Hc in Hn. cbn in Hob. apply map_lookup_filter_Some in Hob as [_ Hob]. cbn in Hob. congruence.
Qed.

(** ** Adopting a snapshot *)

(** The transaction that advertises an xmin for the imported snapshot is
    another one, in the same database. *)
Definition source_covers (pa : ProcArrayStruct) (be : BackendState) (xmin : Z) : Prop :=
  exists k proc, k <> my_pgxactoff be /\ procs pa !! k = Some proc /\ databaseId proc = MyDatabaseId be /\
    TransactionIdIsNormal (proc_xmin proc) = true /\ TransactionIdPrecedesOrEquals (proc_xmin proc) xmin = true.

Lemma find_source_spec xmin source db vxids l : forall i, find_source xmin source db vxids i l = true ->
  exists k proc, l !! k = Some proc /\ imports_from xmin source db (vxids (i + k)%nat) proc = true.
Proof.
  induction l as [|p l IH]; intros i; cbn [find_source]; [done|]. destruct (imports_from _ _ _ _ p) eqn:E.
  - intros _. exists 0%nat, p. by rewrite Nat.add_0_r.
  - intros (k & proc & Hk & Hi)%IH. exists (S k), proc. split; [done|]. by rewrite Nat.add_succ_r.
Qed.

Lemma imports_from_spec xmin source db v p : imports_from xmin source db v p = true ->
  v = source /\ databaseId p = db /\ TransactionIdIsNormal (proc_xmin p) = true /\ TransactionIdPrecedesOrEquals (proc_xmin p) xmin = true.
Proof.
  unfold imports_from. destruct (flag_set _ _); [done|]. destruct (Z.eqb_spec (procNumber v) (procNumber source)) as [E1|]; [|done].
  destruct (Z.eqb_spec (localTransactionId v) (localTransactionId source)) as [E2|]; [|done].
  destruct (Z.eqb_spec (databaseId p) db) as [E3|]; [|done]. cbn [negb]. rewrite andb_true_iff. destruct v, source. cbn in *. by subst.
Qed.

(** The source is not the importing backend itself. *)
Definition elsewhere (vxids : nat -> VirtualTransactionId) (sourcevxid : option VirtualTransactionId) (sourceproc : option nat) : Prop :=
  match sourceproc with
  | Some k => k <> my
  | None => sourcevxid <> Some (vxids my)
  end.

Lemma install_spec vxids xmin sourcevxid sourceproc st : good st [] [] [] -> in_use xmin -> rank xmin <= rank (now my st) ->
  elsewhere vxids sourcevxid sourceproc ->
  let r := install_source_xmin vxids xmin sourcevxid sourceproc st in
  if r.1 then good r.2 [] [] [] /\ my_xmin r.2 = xmin /\ frame st r.2 /\ objects r.2 = objects st /\ now my r.2 = now my st /\
    source_covers (sm_array r.2) (sm_backend r.2) xmin
  else r.2 = st.
Proof.
  intros Hg Hu Hle He. pose proof Hg as [Hs Hm].
  assert (Hset : good (set_my_xmin xmin st) [] [] []) by (apply (good_set_xmin lo my inv step); [done|done|intros p o Hp; set_solver +Hp]).
  pose proof (my_xmin_set lo my inv step xmin st Hs) as Ex. pose proof (now_set_xmin lo my inv step xmin st Hs) as En.
  pose proof (sh_my _ _ _ _ Hs) as Emy. unfold install_source_xmin. destruct sourceproc as [k|]; cbn in He.
  - unfold ProcArrayInstallRestoredXmin. rewrite Emy.
    destruct (procs (sm_array st) !! k) as [proc|] eqn:Hproc; [rewrite (list_lookup_total_correct _ _ _ Hproc)|rewrite list_lookup_total_alt, Hproc; by rewrite andb_false_r].
    destruct (Z.eqb_spec (databaseId proc) (MyDatabaseId (sm_backend st))) as [Ed|]; cbn [andb]; [|done].
    destruct (TransactionIdIsNormal (proc_xmin proc)) eqn:E1; cbn [andb]; [|done]. destruct (TransactionIdPrecedesOrEquals _ _) eqn:E2; [|done].
    cbn [fst snd]. set (st1 := set_my_xmin xmin st) in *. set (st2 := set_shared st1 _ _). pose proof Hset as [Hs1 Hm1].
    destruct (al_entry _ (sh_array _ _ _ _ Hs1)) as [p1 Hp1].
    assert (Ex2 : my_xmin st2 = xmin).
    { rewrite <- Ex. unfold my_xmin. cbn. rewrite Emy. cbn in Hp1. rewrite Emy in Hp1.
      rewrite list_lookup_total_insert_eq by (by eapply lookup_lt_Some). done. }
    assert (En2 : now my st2 = now my st) by (rewrite <- En; unfold now; apply floor_set_flags; eauto).
    split; [split|]; [|by rewrite Ex2, En2, <- Ex, <- En|].
    + split; [apply al_flags, Hs1|apply Hs1|apply Hs1|rewrite Ex2, En2; done|].
      intros q o Hq Ho. destruct (sh_reuse _ _ _ _ Hs1 q o Hq Ho) as [H1 H2]. split; [done|]. intros Hn Hc. rewrite (H2 Hn Hc).
      symmetry. etrans; [exact En2|]. by rewrite <- En.
    + split; [done|]. split; [done|]. split; [done|]. split; [done|]. exists k, proc. cbn. rewrite Emy.
      by rewrite !list_lookup_insert_ne by done.
  - unfold ProcArrayInstallImportedXmin. destruct sourcevxid as [v|]; [|done]. destruct (find_source _ _ _ _ _ _) eqn:Ef; [|done]. cbn [fst snd].
    split; [done|]. split; [done|]. split; [done|]. split; [done|]. split; [done|].
    apply find_source_spec in Ef as (k & proc & Hk & (Ev & Ed & E1 & E2)%imports_from_spec). cbn in Ev.
    assert (k <> my) by (intros ->; congruence). exists k, proc. cbn. rewrite Emy. by rewrite list_lookup_insert_ne by done.
Qed.

(** What the adopted snapshot is. *)
Definition adopted (source d : SnapshotData) : Prop :=
  exists s, d = adopt_data s source \/ d = copy_data (adopt_data s source).

(** No transaction snapshot, and no reference: [CurrentSnapshotData] holds the
    adopted snapshot, not yet covered. *)
Record adopting (source : SnapshotData) (st0 st : SnapMgr) : Prop := {
  ad_pointers : pointers st;
  ad_good : good st [] [] [];
  ad_regs : regs st = [];
  ad_acts : acts st = [];
  ad_catalog : CatalogSnapshot st = None;
  ad_current : CurrentSnapshot st = Some CurrentSnapshotData;
  ad_first : FirstXactSnapshot st = None;
  ad_stays : stays st0 st;
  ad_refs : same_refs st0 st;
  ad_kept : keeps is_static st0 st;
  ad_now : now my st = now my st0;
  ad_data : exists o s, objects st !! CurrentSnapshotData = Some o /\ snap_data o = adopt_data s source;
}.

Lemma adopting_holds source st0 st : adopting source st0 st -> holds st [].
Proof.
  intros []. split; [by rewrite ad_regs0, ad_acts0|]. intros p. rewrite ad_regs0, ad_catalog0. split; [intros Hp; set_solver +Hp|].
  intros [Hp|Hp]; [set_solver +Hp|done].
Qed.

Lemma adopting_ok source st0 st : adopting source st0 st -> snapmgr_ok st.
Proof. intros Had. split; [apply Had|]. exists []. by eapply adopting_holds. Qed.

Lemma good_adopt source st o : good st [] [] [] -> objects st !! CurrentSnapshotData = Some o ->
  good (set_memory st (<[CurrentSnapshotData := set_data o (adopt_data (snap_data o) source)]> (objects st)) (ph_nodes st)) [] [] [].
Proof.
  intros [Hs Hm] Ho. assert (Hcs : CurrentSnapshotData ∈ statics) by (unfold statics; set_solver +). split.
  - apply shared_memory; [|done]. intros q oq Hq. rewrite lookup_insert_Some. intros [[<- <-]|[_ Hoq]]; [|by eapply sh_reuse].
    split; cbn; [apply Hs|done].
  - apply memory_static; [done|set_solver +| |done]. cbn. destruct (copied o) eqn:E; [|done].
    by apply (m_copied _ _ _ _ _ _ _ _ _ Hm _ _ Ho) in E.
Qed.

Lemma adopt_current_ok source cid st (k : positive -> M unit) Q : snapmgr_ok st -> FirstSnapshotSet st = false -> regs st = [] -> acts st = [] ->
  (forall st', adopting source st st' -> wp (k CurrentSnapshotData) Q st') ->
  wp (InvalidateCatalogSnapshot ;;; p <- take_snapshot cid CurrentSnapshotData ;; set_current p ;;;
      store_snapshot p (fun o => set_data o (adopt_data (snap_data o) source)) ;;; k p)%prog Q st.
Proof.
  intros Hok Hfs Hr Ha Hk. pose proof Hok as (Hp & l & Hh). pose proof (first_none st Hp Hfs) as Hn.
  eapply wp_gives; [by eapply (invalidate_catalog_spec lo my inv step)|]. intros [] st1 (l1 & Hh1 & Hf1 & Ho1 & _ & En1).
  assert (Hp1 : pointers st1) by (eapply frame_pointers; [exact Hf1|by apply no_catalog_pointers]).
  assert (Hcs : CurrentSnapshotData ∈ statics) by (unfold statics; set_solver +).
  assert (Hn1 : FirstXactSnapshot st1 = None) by (by rewrite (fr_first _ _ Hf1)).
  eapply wp_gives; [by eapply (take_ok lo my inv step)|]. intros q st2 (-> & Hh2 & Hf2 & Hk2 & Hc2 & En2 & _).
  eapply wp_gives; [by eapply (set_current_ok lo my inv st1 st2)|]. intros [] st3 (Hh3 & Hp3 & Ho3 & Hpv3 & Hf3 & (o3 & Hoo3 & _)).
  eapply wp_gives; [by apply (store_spec _ o3)|]. intros [] st4 Est4. apply Hk.
  assert (Hf : frame (set_xact_snapshots st2 (Some CurrentSnapshotData) (SecondarySnapshot st2) (FirstXactSnapshot st2) (FirstSnapshotSet st2)) st4).
  { subst st4. by destruct Hf3; split. }
  assert (Er : regs st4 = []) by (rewrite (frame_regs _ _ Hf); exact (eq_trans (frame_regs _ _ Hf2) (eq_trans (frame_regs _ _ Hf1) Hr))).
  assert (Ea : acts st4 = []) by (rewrite (frame_acts _ _ Hf); exact (eq_trans (frame_acts _ _ Hf2) (eq_trans (frame_acts _ _ Hf1) Ha))).
  assert (Ec : CatalogSnapshot st4 = None) by (rewrite (fr_catalog _ _ Hf); exact (eq_trans (fr_catalog _ _ Hf2) (fr_catalog _ _ Hf1))).
  assert (El1 : l1 = []).
  { destruct l1 as [|z l1]; [done|]. destruct (proj1 (proj2 Hh3 z) ltac:(left)) as [Hz|Hz].
    - subst st4. change (z ∈ regs (set_memory st3 (<[CurrentSnapshotData := set_data o3 (adopt_data (snap_data o3) source)]> (objects st3)) (ph_nodes st3))) in Hz.
      rewrite Er in Hz. set_solver +Hz.
    - subst st4. cbn in Ec. congruence. }
  subst l1. split; try done.
  - by subst st4; destruct Hp3; split.
  - destruct Hh3 as [Hg3 _]. subst st4. change (regs st3 = []) in Er. change (acts st3 = []) in Ea. rewrite Er, Ea in Hg3. by apply good_adopt.
  - by rewrite (fr_current _ _ Hf).
  - rewrite (fr_first _ _ Hf). exact (eq_trans (fr_first _ _ Hf2) Hn1).
  - exact (stays_trans _ _ _ (stays_trans _ _ _ (frame_stays _ _ Hf1) (frame_stays _ _ Hf2)) (frame_stays _ _ Hf)).
  - exact (same_refs_trans _ _ _ (same_refs_trans _ _ _ (frame_refs _ _ Hf1) (frame_refs _ _ Hf2)) (frame_refs _ _ Hf)).
  - intros z oz Hz Hoz. rewrite <- Ho1 in Hoz. destruct (Hk2 z oz) as (o2 & Ho2 & Hd2); [intros ->; by apply Hz|done|]. exists o2. split; [|done].
    subst st4. cbn. rewrite lookup_insert_ne by (intros <-; by apply Hz). by rewrite Ho3.
  - subst st4. etrans; [apply (private_now _ _ _ Hpv3)|]. by rewrite En2.
  - subst st4. eexists _, (snap_data o3). cbn. rewrite lookup_insert_eq. done.
Qed.

Lemma adopting_frame source st0 st st' : adopting source st0 st -> good st' [] [] [] -> frame st st' -> objects st' = objects st ->
  now my st' = now my st -> adopting source st0 st'.
Proof.
  intros [] Hg Hf Eo En. split; rewrite ?(frame_regs _ _ Hf), ?(frame_acts _ _ Hf), ?Eo; try done.
  - by eapply frame_pointers.
  - by rewrite (fr_catalog _ _ Hf).
  - by rewrite (fr_current _ _ Hf).
  - by rewrite (fr_first _ _ Hf).
  - exact (stays_trans _ _ _ ad_stays0 (frame_stays _ _ Hf)).
  - exact (same_refs_trans _ _ _ ad_refs0 (frame_refs _ _ Hf)).
  - intros p o Hp Ho. destruct (ad_kept0 p o Hp Ho) as (o' & Ho' & Hd). exists o'. by rewrite Eo.
  - by rewrite En.
Qed.

(** Once the xmin is installed. *)
Definition adoption_done (env : CallEnv) (source : SnapshotData) (st0 st : SnapMgr) : SnapError + unit -> SnapMgr -> Prop := fun r st' =>
  snapmgr_ok st' /\ keeps is_static st0 st' /\ private st st' /\ match r with
  | inl e => e <> Fault /\ stays st0 st'
  | inr _ => FirstSnapshotSet st' = true /\ iso_ok env st' /\
      exists p o, CurrentSnapshot st' = Some p /\ covered_in st' p /\ objects st' !! p = Some o /\ adopted source (snap_data o)
  end.

Lemma finish_adopt_ok env source st0 st : adopting source st0 st -> same_refs st0 st -> covered_in st CurrentSnapshotData ->
  wp (pwhen (IsolationUsesXactSnapshot (XactIsoLevel env))
      (o <- load_snapshot CurrentSnapshotData ;;
       adopted <- pget (fun st => if IsolationIsSerializable (XactIsoLevel env)
                                  then SetSerializableTransactionSnapshot (snap_data o) (sm_array st) (sm_backend st)
                                  else Some (sm_array st, sm_backend st)) ;;
       match adopted with
       | None => preturn SerializableFailed
       | Some r => pmod (fun st => set_shared st r.1 r.2)
       end ;;;
       _p <- keep_first_snapshot palloc CurrentSnapshotData ;; pret tt) ;;; set_first_set)%prog (adoption_done env source st0 st) st.
Proof.
  intros Had Hrefs Hcov. pose proof (adopting_ok _ _ _ Had) as Hok. pose proof (ad_data _ _ _ Had) as (o & s & Ho & Hd).
  apply wp_bind. unfold pwhen. destruct (IsolationUsesXactSnapshot (XactIsoLevel env)) eqn:Hi.
  - eapply wp_gives; [by apply load_spec|]. intros a st' [-> ->]. apply wp_bind, wp_get.
    assert (Hr : (if IsolationIsSerializable (XactIsoLevel env) then SetSerializableTransactionSnapshot (snap_data o) (sm_array st) (sm_backend st)
      else Some (sm_array st, sm_backend st)) = None \/ (if IsolationIsSerializable (XactIsoLevel env) then SetSerializableTransactionSnapshot (snap_data o) (sm_array st) (sm_backend st)
      else Some (sm_array st, sm_backend st)) = Some (sm_array st, sm_backend st)).
    { destruct (IsolationIsSerializable _); [|by right]. destruct (SetSerializableTransactionSnapshot _ _ _) as [r|] eqn:Es; [|by left].
      by rewrite (serializable_adopts _ _ _ _ Es); right. }
    destruct Hr as [-> | ->].
    + apply wp_bind, wp_return. split; [done|]. split; [apply Had|]. split; [done|]. split; [done|apply Had].
    + apply wp_bind, wp_mod. cbn [fst snd]. replace (set_shared st (sm_array st) (sm_backend st)) with st by (by destruct st).
      eapply wp_mono; [|apply (keep_established lo my inv palloc Hpalloc env st0 st [] Hi (ad_pointers _ _ _ Had) (adopting_holds _ _ _ Had) (ad_first _ _ _ Had)
        (ad_current _ _ _ Had) Hcov (ad_kept _ _ _ Had) Hrefs)].
      intros [e|[]] st'; [done|]. intros ((Hp' & (l' & Hh') & Hk' & _ & (p & Hc' & Hcov') & Hi') & Hpv & q & o1 & o' & Hq & Ho1 & Ho' & Hd').
      apply wp_mod. split; [split; [done|exists l'; by apply (holds_pointers lo my inv st')]|]. split; [done|]. split; [done|].
      split; [done|]. split; [by intros _|]. exists q, o'. cbn. assert (p = q) as -> by congruence. split; [done|]. split; [done|]. split; [done|].
      rewrite Ho in Ho1. injection Ho1 as <-. exists s. right. by rewrite Hd', Hd.
  - apply wp_ret, wp_mod. change (set_xact_snapshots st _ _ _ true) with (with_first_set st).
    split; [|split; [apply Had|split; [done|split; [done|split]]]].
    + split; [|exists []; apply (holds_pointers lo my inv st); [done..|]; by eapply adopting_holds].
      destruct (ad_pointers _ _ _ Had). split; try done. cbn. intros p. by rewrite (ad_first _ _ _ Had).
    + intros _. rewrite Hi. cbn. rewrite (ad_first _ _ _ Had). split; [done|]. intros Hx. by destruct Hx.
    + exists CurrentSnapshotData, o. cbn. split; [exact (ad_current _ _ _ Had)|]. split; [done|]. split; [done|]. exists s. by left.
Qed.

Lemma set_transaction_ok env vxids source sv sp st : snapmgr_ok st -> FirstSnapshotSet st = false -> regs st = [] -> acts st = [] ->
  in_use (snap_xmin source) -> rank (snap_xmin source) <= rank (now my st) -> elsewhere vxids sv sp ->
  wp (SetTransactionSnapshot palloc env vxids source sv sp) (safe st (fun _ st' => FirstSnapshotSet st' = true /\ iso_ok env st' /\
    (exists p o, CurrentSnapshot st' = Some p /\ covered_in st' p /\ objects st' !! p = Some o /\ adopted source (snap_data o)) /\
    source_covers (sm_array st') (sm_backend st') (snap_xmin source))) st.
Proof.
  intros Hok Hfs Hr Ha Hu Hle He. unfold SetTransactionSnapshot. apply (adopt_current_ok source); [done..|]. intros st4 Had. apply wp_bind, wp_get.
  pose proof (install_spec vxids (snap_xmin source) sv sp st4 (ad_good _ _ _ Had) Hu ltac:(by rewrite (ad_now _ _ _ Had)) He) as Hins.
  assert (Hkept : forall st', keeps is_static st st' -> snapmgr_ok st' -> kept st st').
  { intros st' Hk' Hok'. eapply (keeps_kept lo my inv is_static); [done|done|by left]. }
  destruct (install_source_xmin vxids (snap_xmin source) sv sp st4) as [[] st5]; cbn [fst snd negb] in *; [|subst st5].
  - destruct Hins as (Hg5 & Ex5 & Hf5 & Eo5 & En5 & Hsrc). apply wp_bind, wp_mod.
    pose proof (adopting_frame _ _ _ _ Had Hg5 Hf5 Eo5 En5) as Had5. pose proof (ad_data _ _ _ Had5) as (o & s & Ho & Hd).
    eapply wp_mono; [|apply (finish_adopt_ok env source st st5 Had5 (ad_refs _ _ _ Had5))].
    + intros r st' (Hok' & Hk' & [Epa Ebe] & Hr'). split; [done|]. split; [by apply Hkept|]. destruct r as [e|[]]; [done|].
      destruct Hr' as (Hs' & Hi' & Hp'). split; [done|]. split; [done|]. split; [done|]. by rewrite Epa, Ebe.
    + exists o. split; [done|]. rewrite Hd. cbn. rewrite Ex5. split; [done|]. split; [done|]. split; [done|].
      by rewrite (ad_now _ _ _ Had5).
  - apply wp_return. pose proof (adopting_ok _ _ _ Had) as Hok4. split; [done|]. split; [by apply Hkept; [apply Had|]|]. split; [done|apply Had].
Qed.
End xact.
