(* ===== verification/SnapMgrCalls.v ===== *)
(** * The snapshot manager in use

    The calls that the rest of a backend makes, the steps of a session that
    makes them while other backends change the array, and the invariant of a
    session. *)

From stdpp Require Import relations.
From S2P Require Import Prelude.
From S2P Require Import TransactionId.
From S2P Require Import Varsup.
From S2P Require Import Snapshot.
From S2P Require Import ProcArray.
From S2P Require Import PairingHeap.
From S2P Require Import SnapMgr.
From S2P Require Import SnapMgrMemory.
From S2P Require Import SnapMgrInvariant.
From S2P Require Import SnapMgrSteps.
From S2P Require Import SnapMgrRefs.
From S2P Require Import SnapMgrXact.

(** Where a caller has its snapshot from: just asked for, or one that
    somebody holds already. *)
Inductive origin :=
  | FromTransaction
  | FromLatest
  | FromCatalog (relid : Z)
  | FromHeld (p : positive).

Inductive call :=
  | Look (from : origin)
  | Push (level : Z) (from : origin)
  | PushCopied (level : Z) (from : origin)
  | Register (owner : Z) (from : origin)
  | Export (from : origin)
  | Import (vxids : nat -> VirtualTransactionId) (source : SnapshotData) (sourcevxid : option VirtualTransactionId) (sourceproc : option nat)
  | UpdateActive
  | Pop
  | SubCommit (level : Z)
  | SubAbort (level : Z)
  | Unregister (owner : Z) (p : positive)
  | Release (owner : Z)
  | InvalidateCatalog
  | InvalidateCatalogConditionally
  | SetCommandId (cid : Z).

(** A backend's transaction: [Ending] once [ProcArrayEndTransaction] has
    removed it from the array. *)
Inductive phase := InXact | Ending.

Record session := MkSession {
  ses_phase : phase;
  ses_iso : XactIsolation;
  ses_mgr : SnapMgr;
}.

(** Other backends, or this one, change the array. *)
Definition with_array (st : SnapMgr) (pa : ProcArrayStruct) : SnapMgr := set_shared st pa (sm_backend st).

Section calls.
Context (lo : Z) (my : nat) (inv : ProcArrayStruct -> Prop) (step : ProcArrayStruct -> ProcArrayStruct -> Prop).
Context `{HA : !ArrayLaws lo my inv step}.
Context (palloc : gset positive -> positive) (Hpalloc : forall d, palloc d ∉ d).
Context `{HP : PredicateLocks} `{HL : !PredicateLocksLaws}.

Abbreviation rank := (xid_rank lo).
Abbreviation in_use := (in_use lo).
Abbreviation M := (prog SnapMgr SnapError).
Abbreviation accounted := (accounted lo my inv).
Abbreviation snapmgr_ok := (snapmgr_ok lo my inv).
Abbreviation closing := (closing lo my inv).
Abbreviation safe := (safe lo my inv).
Abbreviation covered_in st p := (covered lo (objects st) (my_xmin st) (now my st) p).

Definition obtain (env : CallEnv) (from : origin) : M (option positive) :=
  match from with
  | FromTransaction => GetTransactionSnapshot palloc env
  | FromLatest => GetLatestSnapshot palloc env
  | FromCatalog relid => GetCatalogSnapshot env relid
  | FromHeld p => pret (Some p)
  end.

Definition given (r : option positive) (k : positive -> M unit) : M unit := match r with Some p => k p | None => preturn Fault end.

Definition exec (env : CallEnv) (c : call) : M unit :=
  match c with
  | Look from => _r <- obtain env from ;; pret tt
  | Push level from => r <- obtain env from ;; given r (PushActiveSnapshot palloc level)
  | PushCopied level from => r <- obtain env from ;; given r (PushCopiedSnapshot palloc level)
  | Register owner from => r <- obtain env from ;; _r <- RegisterSnapshot palloc owner r ;; pret tt
  | Export from => r <- obtain env from ;; given r (fun p => _r <- keep_exported palloc p ;; pret tt)
  | Import vxids source sv sp => SetTransactionSnapshot palloc env vxids source sv sp
  | UpdateActive => UpdateActiveSnapshotCommandId env
  | Pop => PopActiveSnapshot
  | SubCommit level => AtSubCommit_Snapshot level
  | SubAbort level => AtSubAbort_Snapshot level
  | Unregister owner p => UnregisterSnapshot owner (Some p)
  | Release owner => ResourceOwnerReleaseSnapshots owner
  | InvalidateCatalog => InvalidateCatalogSnapshot
  | InvalidateCatalogConditionally => SnapMgr.InvalidateCatalogSnapshotConditionally
  | SetCommandId cid => SnapshotSetCommandId cid
  end%prog.

(** What callers see to: a snapshot is held when it is passed on, nest levels
    do not decrease, the counters do not overflow, a snapshot is imported
    before any other is taken. *)
Definition held_origin (st : SnapMgr) (from : origin) : Prop := match from with FromHeld p => held st p | _ => True end.

Definition few (st : SnapMgr) : Prop :=
  zlength (ActiveSnapshot st) < 0xffffffff /\ zlength (ResourceOwners st) + zlength (exportedSnapshots st) < 0xfffffffe.

Definition legal (st : SnapMgr) (c : call) : Prop :=
  match c with
  | Look from | Export from => held_origin st from
  | Push level from | PushCopied level from => held_origin st from /\ few st /\ forall e, e ∈ ActiveSnapshot st -> as_level e <= level
  | Register owner from => held_origin st from /\ few st
  | Import vxids source sv sp => FirstSnapshotSet st = false /\ regs st = [] /\ acts st = [] /\
      in_use (snap_xmin source) /\ rank (snap_xmin source) <= rank (now my st) /\ elsewhere my vxids sv sp
  | UpdateActive | Pop => ActiveSnapshot st <> []
  | _ => True
  end.

(** What a call does to the snapshots that stay held. *)
Definition unchanged (st st' : SnapMgr) : Prop :=
  forall p o, p ∈ acts st' \/ p ∈ regs st' -> objects st !! p = Some o ->
  exists o', objects st' !! p = Some o' /\ shows (snap_data o') = shows (snap_data o).

(** The transaction's snapshot, once chosen, stays. *)
Definition chosen (st st' : SnapMgr) : Prop := FirstSnapshotSet st = true -> stays st st'.

Definition call_ok (env : CallEnv) (st : SnapMgr) : SnapError + unit -> SnapMgr -> Prop := fun r st' =>
  r <> inl Fault /\ snapmgr_ok st' /\ iso_ok env st' /\ unchanged st st' /\ chosen st st'.

Lemma kept_unchanged st st' : kept st st' -> unchanged st st'.
Proof. intros H p o Hp Ho. destruct (H p o Hp Ho) as (o' & ? & ? & _). eauto. Qed.

Lemma stays_iso env st st' : stays st st' -> iso_ok env st -> iso_ok env st'.
Proof. intros [E1 E2] H. unfold iso_ok. by rewrite E1, E2. Qed.

Lemma safe_call_ok {A} (m : M A) env st Q : wp m (safe st Q) st -> (forall a st', Q a st' -> stays st st') -> iso_ok env st ->
  wp (_a <- m ;; pret tt)%prog (call_ok env st) st.
Proof.
  intros H HQ Hi. apply wp_bind. eapply wp_mono; [|exact H]. intros [e|a] st' (H1 & H2 & H3).
  - split; [by intros [= ->]; destruct H3|]. split; [done|]. split; [by apply (stays_iso env st); [apply H3|]|]. split; [by apply kept_unchanged|]. intros _. apply H3.
  - apply wp_ret. pose proof (HQ a st' H3) as Hs. split; [done|]. split; [done|]. split; [by eapply stays_iso|]. split; [by apply kept_unchanged|by intros _].
Qed.

(** A snapshot has been obtained. *)
Record obtained (env : CallEnv) (st : SnapMgr) (r : option positive) (st' : SnapMgr) : Prop := {
  ob_ok : snapmgr_ok st';
  ob_iso : iso_ok env st';
  ob_keeps : keeps is_static st st';
  ob_refs : same_refs st st';
  ob_chosen : chosen st st';
  ob_some : exists p o, r = Some p /\ objects st' !! p = Some o /\ covered_in st' p;
}.

Lemma obtain_ok env from st : snapmgr_ok st -> iso_ok env st -> held_origin st from ->
  wp (obtain env from) (fun r st' => match r with inl e => call_ok env st (inl e) st' | inr r => obtained env st r st' end) st.
Proof.
  intros Hok Hi Hh. assert (Herr : forall A (Q : A -> SnapMgr -> Prop) e st', safe st Q (inl e) st' -> call_ok env st (inl e) st').
  { intros A Q e st' (H1 & H2 & H3 & H4). split; [congruence|]. split; [done|]. split; [by eapply stays_iso|]. split; [by apply kept_unchanged|by intros _]. }
  destruct from as [| |relid|p]; cbn [obtain].
  - eapply wp_mono; [|by apply (get_transaction_ok lo my inv step)]. intros [e|r] st'; [apply Herr|].
    intros (H1 & _ & H2 & (p & -> & Hc) & H4 & H5 & H6 & H7 & _). pose proof Hc as (o & Ho & _). split; try done; [|by exists p, o].
    intros Hs. split; [congruence|by apply H7].
  - eapply wp_mono; [|by apply (get_latest_ok lo my inv step)]. intros [e|r] st'; [apply Herr|].
    intros (H1 & _ & H2 & (p & -> & Hc) & H4 & H5 & H6). pose proof Hc as (o & Ho & _). split; try done. by exists p, o.
  - eapply wp_mono; [|by apply (get_catalog_ok lo my inv step)]. intros [e|r] st'; [apply Herr|].
    intros (H1 & _ & H2 & (p & -> & Hc) & H4 & H5). pose proof Hc as (o & Ho & _).
    assert (Hs : stays st st') by (by destruct H5). split; try done; [by eapply stays_iso|by destruct H5|by intros _|by exists p, o].
  - apply wp_ret. pose proof (ok_covered _ _ _ _ _ Hok Hh) as Hc. pose proof Hc as (o & Ho & _).
    split; try done; [apply keeps_self|by exists p, o].
Qed.

(** What follows on the obtained snapshot. *)
Lemma then_ok {A} env st st1 r (m : M A) Q : obtained env st r st1 -> wp m (safe st1 Q) st1 -> (forall a st', Q a st' -> stays st1 st') ->
  wp (_a <- m ;; pret tt)%prog (call_ok env st) st1.
Proof.
  intros [H1 H2 H3 H4 H5 H6] Hm HQ. eapply wp_mono; [|by eapply safe_call_ok]. intros r' st' (Hf & Hok & Hi & Hu & Hc).
  split; [done|]. split; [done|]. split; [done|]. split.
  - intros p o Hp Ho. destruct (H3 p o) as (o1 & Ho1 & <-); [|done|by apply (Hu p o1)]. by apply (ok_static _ _ _ _ _ Hok Hp).
  - intros Hs. eapply stays_trans; [by apply H5|]. apply Hc. by rewrite (proj1 (H5 Hs)).
Qed.

Lemma wp_unit (m : M unit) Q st : wp (_a <- m ;; pret tt)%prog Q st -> wp m Q st.
Proof. unfold wp, pbind. by destruct (m st) as [s [e|[]]]. Qed.

(** The counters count less than there are references. *)
Lemma count_bound st p o : snapmgr_ok st -> few st -> objects st !! p = Some o -> copied o = true ->
  active_count o < 0xffffffff /\ regd_count o < 0xffffffff.
Proof.
  intros (_ & l & [_ Hm] & _) [Hf1 Hf2] Ho Hc. destruct (m_regd _ _ _ _ _ _ _ _ _ Hm p o Ho Hc) as [-> _]. destruct (m_active _ _ _ _ _ _ _ _ _ Hm p o Ho Hc) as [-> _].
  pose proof (occ_le p (acts st)). pose proof (occ_le p (regs st)). unfold regs in *. unfold acts in *. unfold zlength in *.
  rewrite !length_app, !length_fmap in *. assert (length (option_list (FirstXactSnapshot st)) <= 1)%nat by (destruct (FirstXactSnapshot st); cbn; lia). lia.
Qed.

Lemma few_refs st st' : same_refs st st' -> few st -> few st'.
Proof. intros (E1 & E2 & E3). unfold few. by rewrite E1, E2, E3. Qed.

Lemma gives_safe {A} (m : M A) Q st : wp m (gives (fun a st' => safe st Q (inr a) st')) st -> wp m (safe st Q) st.
Proof. apply wp_mono. by intros [e|a] st'. Qed.

Lemma exec_ok env c st : snapmgr_ok st -> iso_ok env st -> legal st c -> wp (exec env c) (call_ok env st) st.
Proof.
  intros Hok Hi Hl. assert (Hob : forall from (k : option positive -> M unit), held_origin st from ->
    (forall p o st1, obtained env st (Some p) st1 -> objects st1 !! p = Some o -> covered_in st1 p -> wp (k (Some p)) (call_ok env st) st1) ->
    wp (pbind (obtain env from) k) (call_ok env st) st).
  { intros from k Hh Hk. apply wp_bind. eapply wp_mono; [|by eapply obtain_ok]. intros [e|r] st1; [done|]. intros Hobt.
    pose proof (ob_some _ _ _ _ Hobt) as (p & o & -> & Ho & Hc). by eapply Hk. }
  assert (Hdir : forall (m : M unit) Q, wp m (safe st Q) st -> (forall a st', Q a st' -> stays st st') -> wp m (call_ok env st) st).
  { intros m Q Hm HQ. apply wp_unit. by eapply safe_call_ok. }
  destruct c as [from|level from|level from|owner from|from|vxids source sv sp| | |level|level|owner p|owner| | |cid]; cbn [exec legal] in *.
  - apply Hob; [done|]. intros p o st1 H1 Ho Hc. apply wp_unit. eapply then_ok; [exact H1|apply (wp_ret tt (safe st1 (fun _ => stays st1)))|done].
    split; [apply H1|]. split; [by apply objects_kept|done].
  - destruct Hl as (Hh & Hfew & Hlev). apply Hob; [done|]. intros p o st1 H1 Ho Hc. cbn [given]. apply wp_unit.
    eapply then_ok; [exact H1|eapply (push_ok lo my inv palloc Hpalloc); [apply H1|exact Ho|exact Hc| |]|by intros ? ? [? _]].
    + intros Hco. eapply count_bound; [apply H1|eapply few_refs; [apply H1|done]|done|done].
    + destruct (ob_refs _ _ _ _ H1) as [-> _]. done.
  - destruct Hl as (Hh & Hfew & Hlev). apply Hob; [done|]. intros p o st1 H1 Ho Hc. cbn [given]. apply wp_unit.
    eapply then_ok; [exact H1|eapply (push_copied_ok lo my inv palloc Hpalloc); [apply H1|exact Ho|exact Hc|]|by intros ? ? [? _]].
    destruct (ob_refs _ _ _ _ H1) as [-> _]. done.
  - destruct Hl as (Hh & Hfew). apply Hob; [done|]. intros p o st1 H1 Ho Hc. cbn [RegisterSnapshot].
    eapply then_ok; [exact H1|eapply (register_ok lo my inv palloc Hpalloc); [apply H1|exact Ho|exact Hc|]|by intros ? ? [? _]].
    intros Hco. eapply count_bound; [apply H1|eapply few_refs; [apply H1|done]|done|done].
  - apply Hob; [done|]. intros p o st1 H1 Ho Hc. cbn [given].
    eapply then_ok; [exact H1|eapply (export_ok lo my inv palloc Hpalloc); [apply H1|exact Ho|exact Hc]|by intros ? ? [? _]].
  - destruct Hl as (Hs & Hr & Ha & Hu & Hle & He). eapply wp_mono; [|by apply (set_transaction_ok lo my inv step palloc Hpalloc)].
    intros [e|[]] st' (H1 & H2 & H3); (split; [|split; [done|split; [|split; [by apply kept_unchanged|unfold chosen; congruence]]]]).
    + destruct H3. congruence.
    + by apply (stays_iso env st); [apply H3|].
    + done.
    + apply H3.
  - destruct (ActiveSnapshot st) as [|e es] eqn:Ea; [done|].
    destruct (ok_covered _ _ _ _ (as_snap e) Hok) as (o & Ho & _); [left; unfold acts; rewrite Ea; left|].
    eapply wp_mono; [|by eapply (update_active_ok lo my inv)]. intros r st' (H1 & H2 & H3 & H4). pose proof (frame_stays _ _ H2) as Hst.
    split; [destruct r as [err|[]]; [destruct H4; congruence|done]|]. split; [done|]. split; [by eapply stays_iso|]. split; [|by intros _].
    intros p o' Hp Ho'. destruct (decide (p = as_snap e)) as [->|Hne]; [|destruct (H3 p o' Hne Ho') as (o2 & ? & <-); eauto].
    destruct r as [err|[]]; [destruct H4 as [_ ->]; eauto|]. rewrite Ho in Ho'. injection Ho' as <-. eexists. split; [exact H4|done].
  - destruct (ActiveSnapshot st) as [|e es] eqn:Ea; [done|]. eapply Hdir; [apply gives_safe; by eapply (pop_ok lo my inv step)|by intros ? ? [? _]].
  - eapply Hdir; [by eapply (sub_commit_ok lo my inv)|by intros ? ? [? _]].
  - eapply Hdir; [apply gives_safe; by eapply (sub_abort_ok lo my inv step)|by intros ? ? [? _]].
  - eapply Hdir; [by eapply (unregister_ok lo my inv step)|by intros ? ? [? _]].
  - eapply Hdir; [by eapply (release_ok lo my inv step)|by intros ? ? [? _]].
  - eapply Hdir; [by eapply (invalidate_ok lo my inv step)|]. intros _ st' [Hf _]. exact (frame_stays _ _ Hf).
  - eapply Hdir; [by eapply (invalidate_cond_ok lo my inv step)|done].
  - eapply Hdir; [by eapply (set_command_id_ok lo my inv)|]. intros ? st' Hf. exact (frame_stays _ _ Hf).
Qed.

(** ** Sessions *)

(** [AtEOXact_Snapshot], then the transaction's memory goes. *)
Definition finish_xact (resetXmin : bool) : M unit := (AtEOXact_Snapshot resetXmin ;;; delete_TopTransactionContext)%prog.

(** Calls of the transaction; a change of the isolation level before its
    first snapshot; changes of the array in between; and its end: out of the
    array, release of the resource owners, [AtEOXact_Snapshot], which without
    [resetXmin] relies on the xmin being gone. *)
Inductive session_step : session -> session -> Prop :=
  | ss_call env c st :
      legal st c -> session_step (MkSession InXact (XactIsoLevel env) st) (MkSession InXact (XactIsoLevel env) (exec env c st).1)
  | ss_isolation iso iso' st :
      FirstSnapshotSet st = false -> session_step (MkSession InXact iso st) (MkSession InXact iso' st)
  | ss_array ph iso st pa :
      step (sm_array st) pa -> my_xmin (with_array st pa) = my_xmin st ->
      session_step (MkSession ph iso st) (MkSession ph iso (with_array st pa))
  | ss_end iso st pa :
      step (sm_array st) pa -> my_xmin (with_array st pa) = InvalidTransactionId ->
      session_step (MkSession InXact iso st) (MkSession Ending iso (with_array st pa))
  | ss_release iso st owner :
      session_step (MkSession Ending iso st) (MkSession Ending iso (ResourceOwnerReleaseSnapshots owner st).1)
  | ss_finish iso st resetXmin :
      ResourceOwners st = [] -> resetXmin = true \/ my_xmin st = InvalidTransactionId ->
      session_step (MkSession Ending iso st) (MkSession InXact iso (finish_xact resetXmin st).1).

Definition iso_set (iso : XactIsolation) (st : SnapMgr) : Prop :=
  FirstSnapshotSet st = true -> IsolationUsesXactSnapshot iso = true <-> FirstXactSnapshot st <> None.

Definition session_ok (s : session) : Prop :=
  match ses_phase s with
  | InXact => snapmgr_ok (ses_mgr s) /\ iso_set (ses_iso s) (ses_mgr s)
  | Ending => exists xm, closing xm (ses_mgr s)
  end.

Lemma accounted_step xm st pa R A l : accounted xm st R A l -> step (sm_array st) pa ->
  my_xmin (with_array st pa) = my_xmin st \/ my_xmin (with_array st pa) = InvalidTransactionId -> accounted xm (with_array st pa) R A l.
Proof.
  intros [[H1 H2 H3 H4 H5] Hm] Hst Hx. pose proof (al_forward _ _ H1 Hst) as Hf. pose proof (al_count _ _ H1 Hst) as Hc.
  split; [|by eapply memory_later]. split.
  - exact (al_step _ _ H1 Hst).
  - done.
  - cbn. lia.
  - destruct Hx as [->| ->]; [|done]. intros Hv. destruct (H4 Hv) as [Hu Hr]. split; [done|]. unfold now in *. cbn. lia.
  - intros p o Hp Ho. destruct (H5 p o Hp Ho) as [H6 H7]. split; [cbn; lia|]. cbn. intros Hn He.
    rewrite (H7 Hn) by lia. symmetry. apply al_quiet; [done|done|lia].
Qed.

Lemma array_closing xm st pa : closing xm st -> step (sm_array st) pa ->
  my_xmin (with_array st pa) = my_xmin st \/ my_xmin (with_array st pa) = InvalidTransactionId -> closing xm (with_array st pa).
Proof.
  intros (Hp & l & Hg & Hl) Hst Hx. split; [by destruct Hp|]. exists l. split; [|done]. by apply accounted_step.
Qed.

Lemma ok_closing st : snapmgr_ok st <-> closing (my_xmin st) st.
Proof. done. Qed.

Lemma session_step_ok s s' : session_ok s -> session_step s s' -> session_ok s'.
Proof.
  unfold session_ok. intros Hok Hst. destruct Hst as [env c st Hl|iso iso' st Hf|[] iso st pa Hst Hx|iso st pa Hst Hx|iso st owner|iso st reset Ho Hx]; cbn [ses_phase ses_mgr ses_iso] in *.
  - destruct Hok as [H1 H2]. destruct (exec_ok env c st H1 H2 Hl) as (_ & H3 & H4 & _). done.
  - destruct Hok as [H1 H2]. split; [done|]. intros E. congruence.
  - destruct Hok as [H1 H2]. split; [|done]. apply ok_closing. rewrite Hx. apply array_closing; auto.
  - destruct Hok as [xm H1]. exists xm. apply array_closing; auto.
  - destruct Hok as [H1 H2]. exists (my_xmin st). apply array_closing; auto.
  - destruct Hok as [xm H1]. exists xm. pose proof (release_closing lo my inv step xm owner st H1) as Hr. unfold wp, gives in Hr.
    destruct (ResourceOwnerReleaseSnapshots owner st) as [st' [e|[]]]; [done|]. exact (proj1 Hr).
  - destruct Hok as [xm H1]. pose proof (eoxact_ok lo my inv step xm reset st H1 Ho Hx) as Hr. unfold finish_xact, wp, gives in *.
    destruct (pbind _ _ st) as [st' [e|[]]]; [done|]. destruct Hr as [Hr Hi]. split; [done|]. intros E. by rewrite (id_set _ Hi) in E.
Qed.

Lemma initial_ok pa be : inv pa -> my_pgxactoff be = my -> 0 <= completions pa -> proc_xmin (procs pa !!! my) = InvalidTransactionId ->
  snapmgr_ok (initial_SnapMgr pa be).
Proof.
  intros Hi Hm Hc Hx. assert (Hob : forall p o, objects (initial_SnapMgr pa be) !! p = Some o -> o = static_snapshot /\ p ∈ statics).
  { intros p o. cbn. rewrite !lookup_insert_Some, lookup_empty. unfold statics. set_solver +. }
  split; [split; cbn; try done; try constructor; intros p Hp; set_solver +Hp|]. exists []. split; [split|].
  - split; [done|done|done| |].
    + unfold my_xmin. cbn. by rewrite Hm, Hx.
    + intros p o _ [-> _]%Hob. by split.
  - split.
    + intros p Hp. unfold statics in Hp. cbn. apply elem_of_cons in Hp as [->|Hp]; [by eexists|]. apply elem_of_cons in Hp as [->|Hp]; [by eexists|].
      apply list_elem_of_singleton in Hp as ->. by eexists.
    + intros p o [-> Hp]%Hob. cbn. split; [done|]. intros Hn. by destruct Hn.
    + cbn. set_solver +.
    + by intros p o [-> _]%Hob.
    + by intros p o [-> _]%Hob.
    + cbn. intros p Hp. unfold regs, acts in Hp. cbn in Hp. set_solver +Hp.
    + apply is_heap_empty.
    + unfold regs, acts. cbn. intros p Hp. set_solver +Hp.
  - intros p. unfold regs. cbn. split; [intros Hp; set_solver +Hp|intros [Hp|Hp]; [set_solver +Hp|done]].
Qed.

(** Within one transaction. *)
Definition xact_step (s s' : session) : Prop := session_step s s' /\ ses_phase s = InXact /\ ses_phase s' = InXact.

Lemma xact_step_keeps s s' : session_ok s -> xact_step s s' -> unchanged (ses_mgr s) (ses_mgr s') /\ chosen (ses_mgr s) (ses_mgr s').
Proof.
  intros Hok (Hst & E1 & E2). unfold session_ok in Hok. rewrite E1 in Hok. destruct Hok as [H1 H2].
  assert (Hsame : forall st st', objects st' = objects st -> stays st st' -> unchanged st st' /\ chosen st st').
  { intros st st' E Hs. split; [by apply kept_unchanged, objects_kept|by intros _]. }
  destruct Hst as [env c st Hl|iso iso' st Hf|ph iso st pa Hst Hx|iso st pa Hst Hx|iso st owner|iso st reset Ho Hx]; cbn [ses_phase ses_mgr ses_iso] in *; try done; try by apply Hsame.
  destruct (exec_ok env c st H1 H2 Hl) as (_ & _ & _ & H3 & H4). done.
Qed.
End calls.
