(* ===== verification/SnapMgrArray.v ===== *)
(** * The snapshot manager on a primary server

    The array of running transactions, as [Running] and [RunningSteps] describe
    it, keeps the promises that [SnapMgrInvariant.ArrayLaws] asks for: the xmin
    of a new snapshot is the oldest id that the snapshot has to show as
    running, it never moves backwards, and it stays where it is as long as no
    transaction completes. *)

From S2P Require Import Prelude.
From S2P Require Import TransactionId.
From S2P Require Import Varsup.
From S2P Require Import Snapshot.
From S2P Require Import ProcArray.
From S2P Require Import Running.
From S2P Require Import RunningSteps.
From S2P Require Import SnapMgr.
From S2P Require Import SnapMgrInvariant.

Section primary.
Context (lo : Z) (topmost : Z -> Z) (Htop : topmost_ok lo topmost) (my : nat).

Abbreviation rank := (xid_rank lo).
Abbreviation in_use := (in_use lo).
Abbreviation pa_ok := (pa_ok lo topmost).
Abbreviation proc_ok := (proc_ok lo topmost).

(** ** The xmin of a new snapshot *)

Lemma collect_low aborted nx xmax h l : in_use xmax -> forall i c, (forall p, p ∈ l -> proc_ok aborted nx p) -> in_use (col_xmin c) ->
  rank h <= rank (col_xmin c) -> (forall k p, l !! k = Some p -> (i + k)%nat <> my -> snapped lo xmax p -> rank h <= rank (proc_xid p)) ->
  rank h <= rank (col_xmin (collect_xids xmax my i l c)).
Proof.
  intros Hm. induction l as [|p l IH]; intros i c Hl Hc Hle Hs; cbn [collect_xids]; [done|].
  assert (IH' : forall c1, in_use (col_xmin c1) -> rank h <= rank (col_xmin c1) -> rank h <= rank (col_xmin (collect_xids xmax my (S i) l c1))).
  { intros c1 H1 H2. apply IH; [intros; apply Hl; by right|done|done|]. intros k q Hk Hn. apply (Hs (S k) q Hk). lia. }
  destruct (proc_xid p =? InvalidTransactionId) eqn:E0; [by apply IH'|]. destruct (Nat.eqb_spec i my) as [|Hi]; [by apply IH'|].
  assert (Ev : TransactionIdIsValid (proc_xid p) = true) by (unfold TransactionIdIsValid; by rewrite E0).
  destruct (po_xid _ _ _ _ _ (Hl p ltac:(by left)) Ev) as (Hu & _ & _). rewrite !(normal_precedes_rank lo) by done.
  destruct (Z.ltb_spec (rank (proc_xid p)) (rank xmax)); cbn [negb]; [|by apply IH'].
  destruct (flag_set (statusFlags p) _) eqn:Ef; [by apply IH'|].
  assert (Hp : rank h <= rank (proc_xid p)).
  { apply (Hs 0%nat p eq_refl); [lia|]. split; [done|]. split; [unfold unflagged; by rewrite Ef|done]. }
  repeat case_match; apply IH'; cbn; done.
Qed.

(** The ids that a new snapshot shows as running, the backend's own included. *)
Definition shown (i : nat) (p : PGPROC) : Prop := TransactionIdIsValid (proc_xid p) = true /\ (i = my \/ unflagged p = true).

Lemma floor_spec aborted pa : pa_ok aborted pa -> RecoveryInProgress pa = false -> is_Some (procs pa !! my) ->
  in_use (floor pa my) /\ in_use (snapshot_xmax pa) /\ rank (floor pa my) <= rank (snapshot_xmax pa) /\
  (forall i p, procs pa !! i = Some p -> shown i p -> rank (floor pa my) <= rank (proc_xid p)) /\
  (forall h, rank h <= rank (snapshot_xmax pa) -> (forall i p, procs pa !! i = Some p -> shown i p -> rank h <= rank (proc_xid p)) ->
     rank h <= rank (floor pa my)).
Proof.
  intros Hok Hr [pm Hm]. unfold floor. set (be := MkBackend my _ _ _ _ _ _ _ _ _). assert (Hmy : exists p, procs pa !! my_pgxactoff be = Some p) by (by exists pm).
  destruct (snapshot_bounds lo topmost aborted pa be Hok Hmy) as (Hx & H0 & Hle & _).
  pose proof (snapshot_collect_spec lo topmost aborted pa be Hok Hr Hmy) as [C1 C2 C3 _ _ _]. cbn [col_xmin] in C2.
  assert (Hin : forall i p, procs pa !! i = Some p -> TransactionIdIsValid (proc_xid p) = true -> in_use (proc_xid p)).
  { intros i p Hp Hv. by apply (po_xid _ _ _ _ _ (pk_procs _ _ _ _ Hok p (list_elem_of_lookup_2 _ _ _ Hp))). }
  assert (E0 : TransactionIdIsValid (proc_xid pm) = true -> snapshot_xmin0 pa be = if rank (proc_xid pm) <? rank (snapshot_xmax pa) then proc_xid pm else snapshot_xmax pa).
  { intros Hv. unfold snapshot_xmin0. cbn [my_pgxactoff be]. rewrite (list_lookup_total_correct _ _ _ Hm). pose proof (Hin my pm Hm Hv) as Hu.
    rewrite (normal_precedes_rank lo) by done. destruct Hu as (_ & -> & _). done. }
  split; [done|]. split; [done|]. split; [lia|]. split.
  - intros i p Hp [Hv Hc]. destruct (decide (rank (proc_xid p) < rank (snapshot_xmax pa))) as [Hlt|]; [|lia].
    destruct (decide (i = my)) as [->|Hi].
    + rewrite Hm in Hp. injection Hp as <-. rewrite E0 in C2 by done. destruct (Z.ltb_spec (rank (proc_xid pm)) (rank (snapshot_xmax pa))); lia.
    + apply C3. exists i, p. split; [done|]. split; [done|]. split; [done|]. split; [done|]. split; [|done]. by destruct Hc.
  - intros h Hh Hall. unfold snapshot_collect. rewrite Hr. cbn [negb]. apply (collect_low aborted (rank (next pa))); [done|apply Hok|done| |].
    + cbn [col_xmin]. destruct (TransactionIdIsValid (proc_xid pm)) eqn:Ev.
      * rewrite E0 by done. pose proof (Hall my pm Hm (conj Ev (or_introl eq_refl))). by destruct (_ <? _).
      * unfold snapshot_xmin0. cbn [my_pgxactoff be]. rewrite (list_lookup_total_correct _ _ _ Hm).
        assert (TransactionIdIsNormal (proc_xid pm) = false) as ->; [|done].
        unfold TransactionIdIsValid, TransactionIdIsNormal, InvalidTransactionId, FirstNormalTransactionId in *. lia.
    + intros k p Hk Hn (Hv & Hf & _). apply (Hall k p Hk). by split; [|right].
Qed.

(** What is known of the array on a primary. *)
Record array_ok (pa : ProcArrayStruct) : Prop := {
  ar_primary : RecoveryInProgress pa = false;
  ar_entry : is_Some (procs pa !! my);
  ar_count : 0 <= completions pa;
  ar_running : exists aborted, pa_ok aborted pa;
}.

Lemma floor_in_use pa : array_ok pa -> in_use (floor pa my).
Proof. intros [H1 H2 _ [aborted H4]]. by apply (floor_spec aborted). Qed.

(** ** One entry changes *)

Record entry_step (pa pa' : ProcArrayStruct) : Prop := {
  es_ok : exists aborted, pa_ok aborted pa';
  es_recovery : RecoveryInProgress pa' = RecoveryInProgress pa;
  es_latest : rank (latest pa) <= rank (latest pa');
  es_count : completions pa' = completions pa /\ latest pa' = latest pa \/ completions pa' = u64 (completions pa + 1);
  es_entry : exists off p p', procs pa !! off = Some p /\ procs pa' = <[off := p']> (procs pa) /\
    (TransactionIdIsValid (proc_xid p') = true -> proc_xid p' = proc_xid p /\ statusFlags p' = statusFlags p \/ proc_xid p' = next pa) /\
    (completions pa' = completions pa -> TransactionIdIsValid (proc_xid p) = true -> proc_xid p' = proc_xid p /\ statusFlags p' = statusFlags p);
}.

Lemma xmax_bounds aborted pa : pa_ok aborted pa -> in_use (snapshot_xmax pa) /\
  (forall x, in_use x -> rank x < rank (snapshot_xmax pa) <-> rank x <= rank (latest pa)).
Proof.
  intros Hok. destruct (pk_latest _ _ _ _ Hok) as (_ & Hl). destruct (pk_next _ _ _ _ Hok) as (_ & _ & Hlt).
  pose proof (fun a => advance_rank lo (latest pa) a Hl ltac:(lia)) as Hadv.
  split; [by apply (Hadv (latest pa) Hl)|]. intros x Hx. by apply (Hadv x Hx).
Qed.

Lemma xmax_forward pa pa' : (exists aborted, pa_ok aborted pa) -> (exists aborted, pa_ok aborted pa') ->
  rank (latest pa) <= rank (latest pa') -> rank (snapshot_xmax pa) <= rank (snapshot_xmax pa').
Proof.
  intros [a Hok] [a' Hok'] Hle. destruct (xmax_bounds a pa Hok) as [Hu H]. destruct (xmax_bounds a' pa' Hok') as [Hu' H'].
  destruct (decide (rank (snapshot_xmax pa) <= rank (snapshot_xmax pa'))) as [|Hn]; [done|].
  pose proof (proj1 (H _ Hu') ltac:(lia)). pose proof (proj2 (H' _ Hu') ltac:(lia)). lia.
Qed.

Lemma next_above_xmax aborted pa : pa_ok aborted pa -> rank (snapshot_xmax pa) <= rank (next pa).
Proof.
  intros Hok. destruct (xmax_bounds aborted pa Hok) as [_ H]. destruct (pk_next _ _ _ _ Hok) as (_ & Hu & Hlt).
  specialize (H _ Hu). lia.
Qed.

(** Every shown id of [pa'] is one of [pa], or new. *)
Lemma floor_le pa pa' : array_ok pa -> array_ok pa' -> rank (snapshot_xmax pa) <= rank (snapshot_xmax pa') ->
  (forall i p', procs pa' !! i = Some p' -> shown i p' ->
     rank (snapshot_xmax pa) <= rank (proc_xid p') \/ exists p, procs pa !! i = Some p /\ shown i p /\ proc_xid p = proc_xid p') ->
  rank (floor pa my) <= rank (floor pa' my).
Proof.
  intros [H1 H2 _ [a H4]] [H1' H2' _ [a' H4']] Hx Hs. destruct (floor_spec a pa H4 H1 H2) as (_ & _ & F1 & F2 & _).
  destruct (floor_spec a' pa' H4' H1' H2') as (_ & _ & _ & _ & F3). apply F3; [lia|]. intros i p' Hp Hsh.
  destruct (Hs i p' Hp Hsh) as [|(p & Hp0 & Hsh0 & <-)]; [lia|]. by eapply F2.
Qed.

Lemma entry_step_ok pa pa' : array_ok pa -> entry_step pa pa' -> completions pa < 0xffffffffffffffff -> array_ok pa'.
Proof.
  intros [H1 H2 H3 H4] [E1 E2 E3 E4 (off & p & p' & Hp & Hp' & _)] Hc. split; [congruence| | |done].
  - rewrite Hp'. destruct (decide (off = my)) as [->|]; [|by rewrite list_lookup_insert_ne].
    rewrite list_lookup_insert_eq by (by eapply lookup_lt_Some). eauto.
  - destruct E4 as [[-> _]| ->]; [done|]. cint.
Qed.

Lemma entry_step_laws pa pa' : array_ok pa -> entry_step pa pa' -> completions pa < 0xffffffffffffffff ->
  rank (floor pa my) <= rank (floor pa' my) /\ completions pa <= completions pa' /\
  (completions pa' = completions pa -> floor pa' my = floor pa my).
Proof.
  intros Hok Hst Hc. pose proof (entry_step_ok pa pa' Hok Hst Hc) as Hok'. pose proof Hst as [E1 E2 E3 E4 (off & p & p' & Hp & Hp' & Hnew & Hold)].
  assert (Hlen : (off < length (procs pa))%nat) by (by eapply lookup_lt_Some).
  assert (Hfwd : rank (floor pa my) <= rank (floor pa' my)).
  { apply floor_le; [done|done|apply xmax_forward; [apply Hok|done|done]|]. intros i q Hq [Hv Hf]. rewrite Hp' in Hq.
    destruct (decide (i = off)) as [->|Hne]; [|rewrite list_lookup_insert_ne in Hq by done; right; by exists q].
    rewrite list_lookup_insert_eq in Hq by done. injection Hq as <-. destruct (Hnew Hv) as [[Ex Ef]|En].
    - right. exists p. split; [done|]. split; [|done]. split; [congruence|]. unfold unflagged in *. by rewrite <- Ef.
    - left. rewrite En. destruct (ar_running _ Hok) as [a Ha]. by eapply next_above_xmax. }
  split; [done|]. split; [destruct E4 as [[-> _]| ->]; [lia|pose proof (ar_count _ Hok); cint]|].
  intros Heq. destruct E4 as [[_ El]|E4]; [|exfalso; rewrite Heq in E4; symmetry in E4; by apply count_bumped in E4].
  assert (Hbwd : rank (floor pa' my) <= rank (floor pa my)).
  { apply floor_le; [done|done|apply xmax_forward; [done|apply Hok|by rewrite El]|]. intros i q Hq [Hv Hf]. right. rewrite Hp'.
    destruct (decide (i = off)) as [->|Hne]; [|rewrite list_lookup_insert_ne by done; by exists q].
    rewrite Hp in Hq. injection Hq as <-. destruct (Hold Heq Hv) as [Ex Ef]. exists p'. rewrite list_lookup_insert_eq by done.
    split; [done|]. split; [|done]. split; [congruence|]. unfold unflagged in *. by rewrite Ef. }
  destruct (floor_in_use pa Hok) as (Hu & _). destruct (floor_in_use pa' Hok') as (Hu' & _). eapply (rank_inj lo); [done|done|lia].
Qed.

(** ** The steps of the array

    Those of [Running], and the end of a transaction without an id. *)

Inductive array_change : ProcArrayStruct -> ProcArrayStruct -> Prop :=
  | ac_running aborted aborted' pa pa' :
      pa_ok aborted pa -> pa_step lo topmost (aborted, pa) (aborted', pa') -> array_change pa pa'
  | ac_reset pa off p :
      procs pa !! off = Some p -> array_change pa (set_proc_xmin pa off InvalidTransactionId)
  | ac_end_readonly lock_free followers pa off p :
      procs pa !! off = Some p -> TransactionIdIsValid (proc_xid p) = false ->
      array_change pa (ProcArrayEndTransaction lock_free followers off InvalidTransactionId pa).

(** The 64-bit count of completed transactions does not wrap around. *)
Definition array_step (pa pa' : ProcArrayStruct) : Prop := completions pa < 0xffffffffffffffff /\ array_change pa pa'.

Lemma maintain_fields L pa : procs (MaintainLatestCompletedXid L pa) = procs pa /\
  RecoveryInProgress (MaintainLatestCompletedXid L pa) = RecoveryInProgress pa /\ completions (MaintainLatestCompletedXid L pa) = completions pa.
Proof. unfold MaintainLatestCompletedXid. by case_match. Qed.

Lemma bumped_fields L pa l : let pa' := bump_completion (MaintainLatestCompletedXid L (set_procs pa l)) in
  RecoveryInProgress pa' = RecoveryInProgress pa /\ completions pa' = u64 (completions pa + 1).
Proof. cbv zeta. destruct (maintain_fields L (set_procs pa l)) as (_ & E1 & E2). cbn in E1, E2. unfold completions in *. cbn. by rewrite E1, E2. Qed.

(** A change of an entry's xmin or flags. *)
Lemma metadata_step aborted pa off p p' : pa_ok aborted pa -> procs pa !! off = Some p ->
  proc_xid p' = proc_xid p -> subxids p' = subxids p -> sub_overflowed p' = sub_overflowed p ->
  TransactionIdIsValid (proc_xid p) = false \/ statusFlags p' = statusFlags p ->
  proc_xmin p' = InvalidTransactionId \/ in_use (proc_xmin p') -> entry_step pa (set_procs pa (<[off := p']> (procs pa))).
Proof.
  intros Hok Hp Ex Es Eo Hf Hx. split; [|done|done|by left|].
  - exists aborted. apply (metadata_ok lo topmost aborted pa off p p'); try done. destruct Hx as [->|Hx]; [done|by intros _].
  - exists off, p, p'. split; [done|]. split; [done|]. rewrite Ex. split; intros; [left|]; (split; [done|]); by destruct Hf; [congruence|].
Qed.

Lemma running_entry aborted aborted' pa pa' : array_ok pa -> pa_ok aborted pa -> pa_step lo topmost (aborted, pa) (aborted', pa') -> entry_step pa pa'.
Proof.
  intros Har Hok Hst. pose proof (step_ok lo topmost Htop (aborted, pa) _ Hok Hst) as Hok'. destruct (step_effect lo topmost Htop (aborted, pa) _ Hok Hst) as (_ & Hl & _). cbn [fst snd] in *.
  assert (E1 : exists a, pa_ok a pa') by (by exists aborted'). unfold state_ok in Hok'. cbn in Hok'.
  inversion Hst as [? ? off p Hoff Hv Ht Hr|? ? off p [Hoff Hv] Ht Hr|? ? ? Ha|? ? off p L Hp HL|? ? off p xid xids L Hp HL Hab|? ? off p x Hoff Hx]; subst.
  - destruct (assign_shape topmost false pa off p Hoff Hv Ht) as (S1 & S2 & _ & S4 & S5 & S6 & _).
    split; [done|done|done|by left|]. eexists off, p, _. split; [done|]. split; [exact S1|]. split; [by right|]. congruence.
  - destruct (assign_shape topmost true pa off p Hoff Hv Ht) as (S1 & S2 & _ & S4 & S5 & S6 & _ & S8 & _).
    split; [done|done|done|by left|]. eexists off, p, _. split; [done|]. split; [exact S1|]. split; [by left|done].
  - split; [done|done|done|by left|]. destruct (ar_entry _ Har) as [p Hp]. exists my, p, p. rewrite list_insert_id by done.
    split; [done|]. split; [done|]. split; [by left|done].
  - destruct (end_shape lo topmost aborted' pa off p L Hok Hp HL) as (S1 & _). unfold ProcArrayEndTransactionInternal in *.
    destruct (bumped_fields L pa (<[off := cleared_proc (procs pa !!! off) (clear_vacuum_state (statusFlags (procs pa !!! off)))]> (procs pa))) as [B1 B2].
    split; [done|done|done|by right|]. eexists off, p, _. split; [apply Hp|]. split; [exact S1|]. split; [done|]. intros E. rewrite B2 in E. by apply count_bumped in E.
  - destruct (subabort_shape lo topmost aborted' pa off p xid xids L Hok Hp HL) as (S1 & _). unfold XidCacheRemoveRunningXids in *.
    match type of S1 with procs (bump_completion (MaintainLatestCompletedXid _ (set_procs pa ?l))) = _ => destruct (bumped_fields L pa l) as [B1 B2] end.
    split; [done|done|done|by right|]. eexists off, p, _. split; [apply Hp|]. split; [exact S1|]. split; [by left|done].
  - unfold set_proc_xmin. rewrite (list_lookup_total_correct _ _ _ Hoff). eapply metadata_step; [exact Hok|exact Hoff|try done..]; by right.
Qed.

Lemma array_step_entry pa pa' : array_ok pa -> array_step pa pa' -> entry_step pa pa'.
Proof.
  intros Har [_ Hc]. destruct Hc as [a a' pa pa' Hok Hst|pa off p Hoff|lf fs pa off p Hoff Hv]; [by eapply running_entry|destruct (ar_running _ Har) as [a Hok]..].
  - unfold set_proc_xmin. rewrite (list_lookup_total_correct _ _ _ Hoff). eapply metadata_step; [exact Hok|exact Hoff|try done..]; [by right|by left].
  - unfold ProcArrayEndTransaction. cbn. rewrite (list_lookup_total_correct _ _ _ Hoff). eapply metadata_step; [exact Hok|exact Hoff|try done..]; by left.
Qed.

#[export] Instance primary_laws : ArrayLaws lo my array_ok array_step.
Proof.
  split.
  - intros pa. apply ar_entry.
  - apply floor_in_use.
  - intros pa x Har Hx. destruct (ar_entry _ Har) as [p Hp]. destruct (ar_running _ Har) as [a Hok].
    unfold set_proc_xmin. rewrite (list_lookup_total_correct _ _ _ Hp). destruct Har as [H1 H2 H3 H4]. split; [done| |done|].
    + cbn. rewrite list_lookup_insert_eq by (by eapply lookup_lt_Some). eauto.
    + by eapply (metadata_step a pa my p); [..|right|].
  - intros pa f Har. destruct (ar_entry _ Har) as [p Hp]. destruct (ar_running _ Har) as [a Hok].
    unfold set_proc_flags. rewrite (list_lookup_total_correct _ _ _ Hp). destruct Har as [H1 H2 H3 H4]. split; [done| |done|].
    + cbn. rewrite list_lookup_insert_eq by (by eapply lookup_lt_Some). eauto.
    + exists a. apply (metadata_ok lo topmost a pa my p); try done. exact (po_xmin _ _ _ _ _ (pk_procs _ _ _ _ Hok p (list_elem_of_lookup_2 _ _ _ Hp))).
  - intros pa pa' Har Hst. eapply entry_step_ok; [exact Har|by apply array_step_entry|apply Hst].
  - intros pa pa' Har Hst. by apply entry_step_laws; [|apply array_step_entry|apply Hst].
  - intros pa pa' Har Hst. by apply entry_step_laws; [|apply array_step_entry|apply Hst].
  - intros pa pa' Har Hst. by apply entry_step_laws; [|apply array_step_entry|apply Hst].
Qed.
End primary.
