(* ===== verification/SnapMgrTheorems.v ===== *)
(** * The snapshot manager: what it guarantees

    For a backend of a primary server, from its start, over any sequence of
    calls and of changes of the array of running transactions: nothing is used
    after it was freed, the horizons of other backends spare every snapshot
    that is held, held snapshots do not change, the advertised xmin is no older
    than it has to be, and the end of a transaction leaves nothing behind. *)

From stdpp Require Import relations.
From S2P Require Import Prelude.
From S2P Require Import TransactionId.
From S2P Require Import Varsup.
From S2P Require Import Snapshot.
From S2P Require Import KnownAssigned.
From S2P Require Import ProcArray.
From S2P Require Import Running.
From S2P Require Import RunningSteps.
From S2P Require Import Horizons.
From S2P Require Import SnapshotTheorems.
From S2P Require Import PairingHeap.
From S2P Require Import SnapMgr.
From S2P Require Import SnapMgrMemory.
From S2P Require Import SnapMgrInvariant.
From S2P Require Import SnapMgrSteps.
From S2P Require Import SnapMgrRefs.
From S2P Require Import SnapMgrXact.
From S2P Require Import SnapMgrCalls.
From S2P Require Import SnapMgrArray.

Section theorems.
Context (lo : Z) (topmost : Z -> Z) (Htop : topmost_ok lo topmost) (my : nat).
Context (palloc : gset positive -> positive) (Hpalloc : forall d, palloc d ∉ d).
Context `{HP : PredicateLocks} `{HL : !PredicateLocksLaws}.

Abbreviation rank := (xid_rank lo).
Abbreviation in_use := (in_use lo).
Abbreviation session_step := (session_step lo my (array_step lo topmost) palloc).
Abbreviation xact_step := (xact_step lo my (array_step lo topmost) palloc).
Abbreviation session_ok := (session_ok lo my (array_ok lo topmost my)).
Abbreviation legal := (legal lo my).

(** A backend that has just started, with entry [my] of the array. *)
Definition starts (pa : ProcArrayStruct) (be : BackendState) : Prop :=
  array_ok lo topmost my pa /\ my_pgxactoff be = my /\ proc_xmin (procs pa !!! my) = InvalidTransactionId.

Definition reachable (pa : ProcArrayStruct) (be : BackendState) (s : session) : Prop :=
  starts pa be /\ exists iso, rtc session_step (MkSession InXact iso (initial_SnapMgr pa be)) s.

Lemma reachable_ok pa be s : reachable pa be s -> session_ok s.
Proof.
  intros ((Ha & Hm & Hx) & iso & Hr). pose proof (primary_laws lo topmost Htop my) as HA.
  assert (H0 : session_ok (MkSession InXact iso (initial_SnapMgr pa be))).
  { split; [|done]. by apply initial_ok; [..|apply Ha|]. }
  clear Hx. induction Hr as [|s0 s1 s2 Hst _ IH]; [done|]. apply IH. by eapply session_step_ok.
Qed.

Lemma reachable_xact pa be s : reachable pa be s -> ses_phase s = InXact ->
  snapmgr_ok lo my (array_ok lo topmost my) (ses_mgr s) /\ iso_set (ses_iso s) (ses_mgr s).
Proof. intros Hr Hp. pose proof (reachable_ok _ _ _ Hr) as Hok. unfold SnapMgrCalls.session_ok in Hok. by rewrite Hp in Hok. Qed.

(** The own entry of the array, which advertises the xmin. *)
Lemma own_entry st : snapmgr_ok lo my (array_ok lo topmost my) st -> array_ok lo topmost my (sm_array st) /\
  exists proc, procs (sm_array st) !! my = Some proc /\ my_xmin st = proc_xmin proc.
Proof.
  intros (_ & l & [Hs _] & _). pose proof (sh_array _ _ _ _ Hs) as Ha. split; [done|]. destruct (ar_entry _ _ _ _ Ha) as [proc Hp].
  exists proc. split; [done|]. unfold my_xmin. rewrite (sh_my _ _ _ _ Hs). by rewrite (list_lookup_total_correct _ _ _ Hp).
Qed.

(** C4. Held snapshots are safe from VACUUM.  Whenever, in the course of a
    transaction, a snapshot is on the stack of active snapshots, registered,
    exported, kept for the transaction or the current catalog snapshot, and
    any backend computes the horizon of a kind that counts this backend's
    entry, the horizon is not after the snapshot's xmin: the snapshot contains
    no id below it. *)
Theorem held_snapshots_protected pa be s p kind vacuum : reachable pa be s -> ses_phase s = InXact -> held (ses_mgr s) p ->
  let array := sm_array (ses_mgr s) in
  opt_in_use lo (replication_slot_xmin array) -> opt_in_use lo (replication_slot_catalog_xmin array) -> ka_ok lo (knownAssigned array) ->
  counts_for kind (MyDatabaseId vacuum) (RecoveryInProgress array) (procs array !!! my) = true ->
  let h := (GetOldestNonRemovableTransactionId kind array vacuum).1 in
  exists o, objects (ses_mgr s) !! p = Some o /\ rank h <= rank (snap_xmin (snap_data o)) /\
    forall x, in_use x -> rank x < rank h -> XidInMVCCSnapshot topmost x (snap_data o) = false.
Proof.
  intros Hr Hph Hh array Hs1 Hs2 Hka Hc h. destruct (reachable_xact _ _ _ Hr Hph) as [Hok _]. destruct (own_entry _ Hok) as (Har & proc & Hp & Ex).
  fold array in Hp. rewrite (list_lookup_total_correct _ _ _ Hp) in Hc. destruct (ok_covered _ _ _ _ _ Hok Hh) as (o & Ho & Hu & Hux & Hle & _).
  destruct (ar_running _ _ _ _ Har) as [aborted Hpa]. pose proof (list_elem_of_lookup_2 _ _ _ Hp) as Hin.
  pose proof (horizons_spec lo topmost aborted array vacuum Hpa Hs1 Hs2 Hka) as (_ & H1 & H2 & _).
  assert (Hcov : covers lo h proc).
  { unfold h, GetOldestNonRemovableTransactionId, ComputeXidHorizons. cbn [fst].
    destruct kind; [by apply H1|apply H2; [done|exact Hc]|by apply H2|]. unfold counts_for in Hc. by rewrite andb_false_r in Hc. }
  rewrite Ex in *. assert (Hhx : rank h <= rank (snap_xmin (snap_data o))) by (etrans; [apply Hcov; by apply (in_use_valid lo)|done]).
  exists o. split; [done|]. split; [done|]. intros x Hx Hlt. apply (snapshot_below_xmin lo); [done|done|lia].
Qed.

(** C5. No call of the snapshot manager goes wrong: whatever the backend has
    called before and whatever has happened to the array, a call that observes
    the documented rules never follows a pointer to a snapshot or a heap node
    that has been freed, never asks for the active snapshot when there is
    none, and leaves the reference counts, the heap of registered snapshots
    and the advertised xmin in order. *)
Theorem calls_never_fault pa be s env c : reachable pa be s -> ses_phase s = InXact -> XactIsoLevel env = ses_iso s -> legal (ses_mgr s) c ->
  (exec palloc env c (ses_mgr s)).2 <> inl Fault /\ snapmgr_ok lo my (array_ok lo topmost my) (exec palloc env c (ses_mgr s)).1.
Proof.
  intros Hr Hph Hi Hl. destruct (reachable_xact _ _ _ Hr Hph) as [Hok Hiso]. pose proof (primary_laws lo topmost Htop my) as HA.
  destruct (exec_ok lo my _ _ palloc Hpalloc env c _ Hok ltac:(unfold iso_ok; by rewrite Hi) Hl) as (H1 & H2 & _). done.
Qed.

(** What [shows] has of a snapshot decides what is visible. *)
Lemma shows_verdict d d' x : shows d' = shows d ->
  XidInMVCCSnapshot topmost x d' = XidInMVCCSnapshot topmost x d /\ snap_xmin d' = snap_xmin d /\ snap_xmax d' = snap_xmax d.
Proof. destruct d, d'. unfold shows, set_snap_curcid. cbn. by intros [= -> -> -> -> -> -> -> -> -> ->]. Qed.

Lemma xact_steps_keep s s' p : rtc xact_step s s' -> session_ok s -> FirstXactSnapshot (ses_mgr s) = Some p -> ses_phase s = InXact ->
  FirstXactSnapshot (ses_mgr s') = Some p /\ ses_phase s' = InXact /\ session_ok s' /\
  forall o, objects (ses_mgr s) !! p = Some o -> exists o', objects (ses_mgr s') !! p = Some o' /\ shows (snap_data o') = shows (snap_data o).
Proof.
  pose proof (primary_laws lo topmost Htop my) as HA. induction 1 as [s|s s1 s2 Hst _ IH]; intros Hok Hf Hph.
  { split; [done|]. split; [done|]. split; [done|]. intros o Ho. by exists o. }
  destruct (xact_step_keeps lo my _ _ palloc Hpalloc s s1 Hok Hst) as [Hu Hc].
  assert (Hset : FirstSnapshotSet (ses_mgr s) = true).
  { unfold SnapMgrCalls.session_ok in Hok. rewrite Hph in Hok. by apply (pt_first _ (proj1 (proj1 Hok)) p). }
  destruct (Hc Hset) as [_ Ef]. rewrite Hf in Ef. pose proof (session_step_ok lo my _ _ palloc Hpalloc _ _ Hok (proj1 Hst)) as Hok1.
  destruct Hst as (_ & _ & Hph1). destruct (IH Hok1 Ef Hph1) as (I1 & I2 & I3 & I4). split; [done|]. split; [done|]. split; [done|].
  intros o Ho. destruct (Hu p o) as (o1 & Ho1 & E1); [right; unfold regs; rewrite Ef; set_solver +|done|].
  destruct (I4 o1 Ho1) as (o2 & Ho2 & E2). exists o2. split; [done|congruence].
Qed.

(** C13. Repeatable read.  Once a transaction above the read-committed level
    has its snapshot, [GetTransactionSnapshot] answers with the same snapshot
    at every later point of the transaction, and that snapshot gives the same
    verdict on every transaction id, whatever this backend pushes, pops,
    registers, exports or releases and whatever the others do meanwhile. *)
Theorem repeatable_read pa be s s' p o env : reachable pa be s -> ses_phase s = InXact ->
  FirstXactSnapshot (ses_mgr s) = Some p -> objects (ses_mgr s) !! p = Some o -> rtc xact_step s s' -> XactIsoLevel env = ses_iso s' ->
  GetTransactionSnapshot palloc env (ses_mgr s') = (ses_mgr s', inr (Some p)) /\
  exists o', objects (ses_mgr s') !! p = Some o' /\
    forall x, XidInMVCCSnapshot topmost x (snap_data o') = XidInMVCCSnapshot topmost x (snap_data o).
Proof.
  intros Hr Hph Hf Ho Hst Hi. destruct (xact_steps_keep s s' p Hst (reachable_ok _ _ _ Hr) Hf Hph) as (Hf' & Hph' & Hok' & Hsh).
  unfold SnapMgrCalls.session_ok in Hok'. rewrite Hph' in Hok'. destruct Hok' as [[Hp' _] Hiso]. destruct (pt_first _ Hp' p Hf') as [Hs' Hc'].
  split.
  - unfold GetTransactionSnapshot, pbind, pget, HistoricSnapshotActive. rewrite (pt_historic _ Hp'). cbn [is_null negb]. rewrite Hs'. cbn [negb].
    assert (IsolationUsesXactSnapshot (XactIsoLevel env) = true) as ->; [|by rewrite Hc']. rewrite Hi. apply (Hiso Hs'). by rewrite Hf'.
  - destruct (Hsh o Ho) as (o' & Ho' & E). exists o'. split; [done|]. intros x. by apply (shows_verdict _ _ x E).
Qed.

(** A held snapshot does not change under its holder.  Over every step of
    a transaction, a snapshot that is active or registered afterwards and
    existed before is still there with the same verdict on every id and the
    same bounds: it has not been freed, reused or overwritten by a snapshot
    taken in the meantime. *)
Theorem held_snapshot_unchanged pa be s s' p o : reachable pa be s -> xact_step s s' ->
  p ∈ acts (ses_mgr s') \/ p ∈ regs (ses_mgr s') -> objects (ses_mgr s) !! p = Some o ->
  exists o', objects (ses_mgr s') !! p = Some o' /\ snap_xmin (snap_data o') = snap_xmin (snap_data o) /\
    snap_xmax (snap_data o') = snap_xmax (snap_data o) /\
    forall x, XidInMVCCSnapshot topmost x (snap_data o') = XidInMVCCSnapshot topmost x (snap_data o).
Proof.
  intros Hr Hst Hp Ho. pose proof (primary_laws lo topmost Htop my) as HA.
  destruct (xact_step_keeps lo my _ _ palloc Hpalloc s s' (reachable_ok _ _ _ Hr) Hst) as [Hu _].
  destruct (Hu p o Hp Ho) as (o' & Ho' & E). exists o'. split; [done|]. destruct (shows_verdict _ _ 0 E) as (_ & -> & ->). split; [done|]. split; [done|].
  intros x. by apply (shows_verdict _ _ x E).
Qed.

(** C21. The advertised xmin is no older than it has to be.  When the last
    active snapshot is popped, the backend advertises no xmin if it holds no
    snapshot any more, and otherwise the oldest xmin of the snapshots that it
    still holds: popping a snapshot lets VACUUM advance. *)
Theorem pop_advances_xmin pa be s e : reachable pa be s -> ses_phase s = InXact -> ActiveSnapshot (ses_mgr s) = [e] ->
  let r := PopActiveSnapshot (ses_mgr s) in
  r.2 = inr tt /\ ActiveSnapshot r.1 = [] /\
  (~ (exists p, held r.1 p) -> my_xmin r.1 = InvalidTransactionId) /\
  ((exists p, held r.1 p) -> exists p, held r.1 p /\ my_xmin r.1 = snap_xmin_at (objects r.1) p) /\
  (forall p, held r.1 p -> rank (my_xmin r.1) <= rank (snap_xmin_at (objects r.1) p)).
Proof.
  intros Hr Hph Ha r. destruct (reachable_xact _ _ _ Hr Hph) as [Hok _]. pose proof (primary_laws lo topmost Htop my) as HA.
  pose proof (pop_ok lo my _ _ _ e [] Hok Ha) as Hw. unfold wp in Hw. fold r in Hw. destruct r as [st' [err|[]]]; [done|].
  destruct Hw as (Hok' & _ & _ & Ha' & _ & Hx). cbn in *. split; [done|]. split; [done|].
  destruct (Hx ltac:(unfold acts; by rewrite Ha')) as [H1 H2]. split; [done|]. split; [done|].
  intros p Hp. destruct (ok_covered _ _ _ _ _ Hok' Hp) as (o & Ho & _ & _ & Hle & _). unfold snap_xmin_at. by rewrite Ho.
Qed.

(** The end of a transaction leaves nothing behind.  After the
    transaction's removal from the array and the release of its resource
    owners, [AtEOXact_Snapshot] with the deletion of the transaction's memory
    succeeds; afterwards the backend advertises no xmin, holds no snapshot,
    and of all snapshots only the three static structs are left, ready for the
    next transaction. *)
Theorem transaction_end_clean pa be s resetXmin : reachable pa be s -> ses_phase s = Ending -> ResourceOwners (ses_mgr s) = [] ->
  resetXmin = true \/ my_xmin (ses_mgr s) = InvalidTransactionId ->
  let r := finish_xact resetXmin (ses_mgr s) in
  r.2 = inr tt /\ my_xmin r.1 = InvalidTransactionId /\ ~ (exists p, held r.1 p) /\ FirstSnapshotSet r.1 = false /\
  (forall p, is_Some (objects r.1 !! p) <-> p ∈ [CurrentSnapshotData; SecondarySnapshotData; CatalogSnapshotData]) /\
  snapmgr_ok lo my (array_ok lo topmost my) r.1.
Proof.
  intros Hr Hph Ho Hx r. pose proof (primary_laws lo topmost Htop my) as HA.
  pose proof (reachable_ok _ _ _ Hr) as Hok. unfold SnapMgrCalls.session_ok in Hok. rewrite Hph in Hok. destruct Hok as [xm Hok].
  pose proof (eoxact_ok lo my _ _ xm resetXmin _ Hok Ho Hx) as Hw. unfold wp in Hw. change (pbind _ _ (ses_mgr s)) with r in Hw.
  destruct r as [st' [err|[]]]; [done|]. destruct Hw as [Hok' [H1 H2 H3 H4 H5 H6]]. cbn [fst snd] in *.
  split; [done|]. split; [done|]. split; [|split; [done|split; [|done]]].
  - intros [p Hp]. unfold held in Hp. rewrite H1, H2, H3 in Hp. set_solver +Hp.
  - intros p. split; [apply H6|]. destruct Hok' as (_ & l & [_ Hm] & _). apply (m_static _ _ _ _ _ _ _ _ _ Hm).
Qed.

(** The copy of a snapshot decides alike. *)
Lemma copy_verdict d x : XidInMVCCSnapshot topmost x (copy_data d) = XidInMVCCSnapshot topmost x d.
Proof.
  destruct d as [t xmin xmax xi sx so tr cc sp v n]. unfold copy_data, keeps_subxip, XidInMVCCSnapshot. cbn.
  destruct sx as [|y sx]; cbn; destruct so, tr; done.
Qed.

Lemma adopted_verdict source d x : adopted source d -> XidInMVCCSnapshot topmost x d = XidInMVCCSnapshot topmost x source.
Proof. intros [s [->| ->]]; [|rewrite copy_verdict]; by destruct source. Qed.

(** C14. A snapshot can only be imported while somebody protects it.
    [SetTransactionSnapshot], which serves imports and parallel workers,
    either fails and leaves everything in order, or makes the transaction's
    snapshot one that gives the source's verdict on every id; then, at the
    moment the xmin is installed, another entry of the same database
    advertises an xmin that is not after the snapshot's, and the backend's own
    xmin covers it from then on. *)
Theorem import_needs_protection pa be s env vxids source sv sp : reachable pa be s -> ses_phase s = InXact ->
  legal (ses_mgr s) (Import vxids source sv sp) ->
  let r := SetTransactionSnapshot palloc env vxids source sv sp (ses_mgr s) in
  r.2 <> inl Fault /\ snapmgr_ok lo my (array_ok lo topmost my) r.1 /\
  (r.2 = inr tt -> source_covers (sm_array r.1) (sm_backend r.1) (snap_xmin source) /\
     exists p o, CurrentSnapshot r.1 = Some p /\ objects r.1 !! p = Some o /\ rank (my_xmin r.1) <= rank (snap_xmin (snap_data o)) /\
       forall x, XidInMVCCSnapshot topmost x (snap_data o) = XidInMVCCSnapshot topmost x source).
Proof.
  intros Hr Hph (Hs & Hrg & Ha & Hu & Hle & He) r. destruct (reachable_xact _ _ _ Hr Hph) as [Hok _]. pose proof (primary_laws lo topmost Htop my) as HA.
  pose proof (set_transaction_ok lo my _ _ palloc Hpalloc env vxids source sv sp _ Hok Hs Hrg Ha Hu Hle He) as Hw. unfold wp in Hw. fold r in Hw.
  destruct Hw as (H1 & _ & H3). destruct (r.2) as [e|[]]; [split; [by intros [= ->]; destruct H3|]; by split|].
  split; [done|]. split; [done|]. intros _. destruct H3 as (_ & _ & (p & o & Hc & (o' & Ho' & _ & _ & Hle' & _) & Ho & Had) & Hsrc). split; [done|].
  rewrite Ho in Ho'. injection Ho' as <-. exists p, o. split; [done|]. split; [done|]. split; [done|]. intros x. by apply adopted_verdict.
Qed.
End theorems.

(** ** Examples

    Backend 0 of [SnapshotTheorems.demo_pa], at repeatable read: it pushes its
    transaction snapshot while 10 (with subtransaction 12) and 14 run. *)

#[export] Instance demo_locks : PredicateLocks := {
  GetSerializableTransactionSnapshot cid s pa be := Some (GetSnapshotData cid s pa be);
  SetSerializableTransactionSnapshot s pa be := Some (pa, be);
}.
#[export] Instance demo_locks_laws : PredicateLocksLaws.
Proof. split; [by intros cid s pa be r [= <-]|by intros s pa be r [= <-]]. Qed.

Definition demo_palloc : gset positive -> positive := fresh.
Lemma demo_palloc_new d : demo_palloc d ∉ d.
Proof. apply is_fresh. Qed.

Definition demo_env : CallEnv := MkCallEnv XACT_REPEATABLE_READ false 1 (fun _ => false) (fun _ => true).
Definition demo_mgr0 : SnapMgr := initial_SnapMgr demo_pa demo_be.
Definition demo_mgr1 : SnapMgr := (exec demo_palloc demo_env (Push 1 FromTransaction) demo_mgr0).1.
Definition demo_session (st : SnapMgr) : session := MkSession InXact XACT_REPEATABLE_READ st.

Abbreviation demo_step := (session_step 3 0 (array_step 3 demo_top) demo_palloc).

Lemma demo_starts : starts 3 demo_top 0 demo_pa demo_be.
Proof. split; [|done]. split; [done|by eexists|done|]. exists no_aborts. apply demo_pa_ok. Qed.

Lemma demo_call st c : legal 3 0 st c -> demo_step (demo_session st) (demo_session (exec demo_palloc demo_env c st).1).
Proof. apply (ss_call 3 0 (array_step 3 demo_top) demo_palloc demo_env c st). Qed.

Lemma demo_push_legal : legal 3 0 demo_mgr0 (Push 1 FromTransaction).
Proof. split; [done|]. split; [done|]. intros e He. set_solver +He. Qed.

Lemma demo_reachable0 : reachable 3 demo_top 0 demo_palloc demo_pa demo_be (demo_session demo_mgr0).
Proof. split; [apply demo_starts|]. eexists. apply rtc_refl. Qed.

Lemma demo_reachable1 : reachable 3 demo_top 0 demo_palloc demo_pa demo_be (demo_session demo_mgr1).
Proof. split; [apply demo_starts|]. exists XACT_REPEATABLE_READ. apply rtc_once, (demo_call demo_mgr0), demo_push_legal. Qed.

(** Transaction 14, in entry 2, commits. *)
Definition demo_array2 : ProcArrayStruct := ProcArrayEndTransactionInternal 2 14 (sm_array demo_mgr1).
Definition demo_mgr2 : SnapMgr := with_array demo_mgr1 demo_array2.

Lemma demo_commit_step : xact_step 3 0 (array_step 3 demo_top) demo_palloc (demo_session demo_mgr1) (demo_session demo_mgr2).
Proof.
  split; [|done]. apply ss_array; [|by vm_compute]. split; [by vm_compute|].
  assert (E : sm_array demo_mgr1 = set_proc_xmin demo_pa 0 10) by (by vm_compute).
  apply (ac_running _ _ no_aborts no_aborts).
  - rewrite E. eapply xmin_ok; [apply demo_pa_ok|done|by apply demo_in_use].
  - unfold demo_array2. rewrite E. eapply (step_end 3 demo_top no_aborts _ 2 (MkPGPROC 2 102 14 0 [] false 0 5) 14); [done|].
    split; [split; [by apply demo_in_use|by vm_compute]|]. intros x _ (_ & [->|[Hx|(? & _)]]); [by vm_compute|set_solver +Hx|done].
Qed.

Lemma held_snapshots_protected_witness :
  (GetOldestNonRemovableTransactionId VISHORIZON_DATA (sm_array demo_mgr1) demo_be).1 = 10 /\
  exists o, objects demo_mgr1 !! 5%positive = Some o /\ XidInMVCCSnapshot demo_top 9 (snap_data o) = false.
Proof.
  split; [by vm_compute|].
  destruct (held_snapshots_protected 3 demo_top demo_topmost_ok 0 demo_palloc demo_palloc_new demo_pa demo_be (demo_session demo_mgr1) 5%positive VISHORIZON_DATA demo_be
    demo_reachable1 eq_refl) as (o & Ho & _ & H).
  - left. vm_compute. left.
  - by vm_compute.
  - by vm_compute.
  - apply init_known_ok.
  - by vm_compute.
  - exists o. split; [done|]. apply H; [by apply demo_in_use|by vm_compute].
Defined.

Lemma calls_never_fault_witness : (exec demo_palloc demo_env Pop demo_mgr1).2 <> inl Fault.
Proof.
  apply (calls_never_fault 3 demo_top demo_topmost_ok 0 demo_palloc demo_palloc_new demo_pa demo_be (demo_session demo_mgr1) demo_env Pop demo_reachable1 eq_refl eq_refl).
  by vm_compute.
Defined.

Lemma repeatable_read_witness :
  GetTransactionSnapshot demo_palloc demo_env (exec demo_palloc demo_env Pop demo_mgr2).1 = ((exec demo_palloc demo_env Pop demo_mgr2).1, inr (Some 4%positive)) /\
  exists o', objects (exec demo_palloc demo_env Pop demo_mgr2).1 !! 4%positive = Some o' /\ XidInMVCCSnapshot demo_top 14 (snap_data o') = true.
Proof.
  destruct (objects demo_mgr1 !! 4%positive) as [o|] eqn:Ho; [|by vm_compute in Ho].
  destruct (repeatable_read 3 demo_top demo_topmost_ok 0 demo_palloc demo_palloc_new demo_pa demo_be (demo_session demo_mgr1)
    (demo_session (exec demo_palloc demo_env Pop demo_mgr2).1) 4%positive o demo_env demo_reachable1 eq_refl) as [H (o' & Ho' & Hx)]; [by vm_compute|done| |done|].
  - eapply rtc_l; [exact demo_commit_step|]. apply rtc_once. split; [|done]. apply demo_call. by vm_compute.
  - split; [exact H|]. exists o'. split; [done|]. rewrite Hx. vm_compute in Ho. injection Ho as <-. by vm_compute.
Defined.

Lemma held_snapshot_unchanged_witness : exists o', objects demo_mgr2 !! 5%positive = Some o' /\ snap_xmin (snap_data o') = 10.
Proof.
  destruct (objects demo_mgr1 !! 5%positive) as [o|] eqn:Ho; [|by vm_compute in Ho].
  destruct (held_snapshot_unchanged 3 demo_top demo_topmost_ok 0 demo_palloc demo_palloc_new demo_pa demo_be (demo_session demo_mgr1) (demo_session demo_mgr2)
    5%positive o demo_reachable1 demo_commit_step) as (o' & Ho' & Hx & _); [left; vm_compute; left|done|].
  exists o'. split; [done|]. rewrite Hx. vm_compute in Ho. by injection Ho as <-.
Defined.

Lemma pop_advances_xmin_witness : (PopActiveSnapshot demo_mgr1).2 = inr tt /\ ActiveSnapshot (PopActiveSnapshot demo_mgr1).1 = [].
Proof.
  destruct (pop_advances_xmin 3 demo_top demo_topmost_ok 0 demo_palloc demo_palloc_new demo_pa demo_be (demo_session demo_mgr1) (MkActive 5 1) demo_reachable1 eq_refl)
    as (H1 & H2 & _); [by vm_compute|done].
Defined.

Definition demo_ending : SnapMgr := with_array demo_mgr1 (ProcArrayEndTransaction true [] 0 0 (sm_array demo_mgr1)).

Lemma transaction_end_clean_witness : my_xmin demo_mgr1 = 10 /\ my_xmin (finish_xact false demo_ending).1 = InvalidTransactionId.
Proof.
  split; [by vm_compute|].
  destruct (transaction_end_clean 3 demo_top demo_topmost_ok 0 demo_palloc demo_palloc_new demo_pa demo_be (MkSession Ending XACT_REPEATABLE_READ demo_ending) false)
    as (_ & H & _); [|done|by vm_compute|right; by vm_compute|exact H].
  split; [apply demo_starts|]. exists XACT_REPEATABLE_READ. eapply rtc_l; [exact (demo_call demo_mgr0 _ demo_push_legal)|]. apply rtc_once.
  apply ss_end; [|by vm_compute]. split; [by vm_compute|]. by eapply (ac_end_readonly _ _ true [] _ 0).
Defined.

Definition demo_source : SnapshotData := MkSnapshot SNAPSHOT_MVCC 10 16 [10; 14] [12] false false 0 0 VISHORIZON_DATA 0.
Definition demo_vxids (k : nat) : VirtualTransactionId := MkVxid (Z.of_nat k) 1.

Lemma import_needs_protection_witness :
  let r := SetTransactionSnapshot demo_palloc demo_env demo_vxids demo_source (Some (MkVxid 1 1)) None demo_mgr0 in
  source_covers (sm_array r.1) (sm_backend r.1) 10 /\
  exists p o, CurrentSnapshot r.1 = Some p /\ objects r.1 !! p = Some o /\ XidInMVCCSnapshot demo_top 14 (snap_data o) = true.
Proof.
  destruct (import_needs_protection 3 demo_top demo_topmost_ok 0 demo_palloc demo_palloc_new demo_pa demo_be (demo_session demo_mgr0) demo_env demo_vxids demo_source
    (Some (MkVxid 1 1)) None demo_reachable0 eq_refl) as (_ & _ & H).
  - split; [done|]. split; [done|]. split; [done|]. split; [by apply demo_in_use|]. split; [by vm_compute|]. by vm_compute.
  - destruct H as (H1 & p & o & Hc & Ho & _ & Hx); [by vm_compute|]. split; [exact H1|]. exists p, o. split; [done|]. split; [done|]. by rewrite Hx.
Defined.
