(* ===== verification/SnapshotText.v ===== *)
(** * Numbers in text

    What the text form of an exported snapshot uses of the C library: [%u],
    [%d] and [%X] of [printf], [%d] and [%u] of [sscanf], [strncmp], [strchr] and
    [strspn], on characters without a zero byte. *)

From Stdlib Require Import Ascii String.
From stdpp Require Import strings.
From S2P Require Import Prelude.

Notation text := (list ascii).

Definition lit (s : string) : text := String.list_ascii_of_string s.
Definition newline : ascii := ascii_of_nat 10.

(** ** Printing *)

Definition digit (d : Z) : ascii := ascii_of_N (Z.to_N (48 + d)).
Definition hex_digit (d : Z) : ascii := ascii_of_N (Z.to_N (if d <? 10 then 48 + d else 55 + d)).

(** Digits to a base, the last one first; [fuel] bounds their number. *)
Fixpoint put_digits (show : Z -> ascii) (base : Z) (fuel : nat) (n : Z) (acc : text) : text :=
  match fuel with
  | O => acc
  | S fuel => let acc := show (n mod base) :: acc in if n <? base then acc else put_digits show base fuel (n / base) acc
  end.

Definition print_u (n : Z) : text := put_digits digit 10 20 n [].
Definition print_d (n : Z) : text := if n <? 0 then "-"%char :: print_u (- n) else print_u n.

(** [%08X] *)
Definition print_08X (n : Z) : text :=
  let s := put_digits hex_digit 16 16 n [] in replicate (8 - length s) "0"%char ++ s.

(** ** Scanning *)

Definition is_space (c : ascii) : bool := let n := N_of_ascii c in ((n =? 32) || ((9 <=? n) && (n <=? 13)))%N.
Definition is_digit (c : ascii) : bool := let n := N_of_ascii c in ((48 <=? n) && (n <=? 57))%N.
Definition digit_value (c : ascii) : Z := Z.of_N (N_of_ascii c) - 48.

Fixpoint skip_spaces (t : text) : text :=
  match t with c :: t' => if is_space c then skip_spaces t' else t | [] => [] end.

Fixpoint read_digits (t : text) (n : Z) : Z * text :=
  match t with c :: t' => if is_digit c then read_digits t' (n * 10 + digit_value c) else (n, t) | [] => (n, []) end.

(** A sign, and whether there was a digit. *)
Definition scan_number (t : text) : option (bool * Z * text) :=
  let t := skip_spaces t in
  let '(neg, t) := match t with
                   | c :: t' => if decide (c = "-"%char) then (true, t') else if decide (c = "+"%char) then (false, t') else (false, t)
                   | [] => (false, t)
                   end in
  match t with
  | c :: _ => if is_digit c then let '(n, t) := read_digits t 0 in Some (neg, n, t) else None
  | [] => None
  end.

(** [strtol] and [strtoul] on 64 bits, stored in 32. *)
Definition scan_d (t : text) : option (Z * text) :=
  match scan_number t with
  | Some (neg, n, t) => let n := if neg : bool then - n else n in Some (i32 (Z.max (-0x8000000000000000) (Z.min n 0x7fffffffffffffff)), t)
  | None => None
  end.
Definition scan_u (t : text) : option (Z * text) :=
  match scan_number t with
  | Some (neg, n, t) => let n := if 0xffffffffffffffff <? n then 0xffffffffffffffff else if neg : bool then u64 (- n) else n in Some (u32 n, t)
  | None => None
  end.

(** [strncmp] with the length of the prefix: what follows it. *)
Fixpoint after_prefix (prefix t : text) : option text :=
  match prefix, t with
  | [], _ => Some t
  | p :: prefix, c :: t => if decide (p = c) then after_prefix prefix t else None
  | _ :: _, [] => None
  end.

(** [strchr(ptr, '\n') + 1] *)
Fixpoint after_newline (t : text) : option text :=
  match t with c :: t => if decide (c = newline) then Some t else after_newline t | [] => None end.

(** ** Round trips *)

Definition digits_only (t : text) : Prop := Forall (fun c => is_digit c = true) t.

Lemma digit_spec d : 0 <= d < 10 -> is_digit (digit d) = true /\ digit_value (digit d) = d.
Proof.
  intros Hd. assert (E : N_of_ascii (digit d) = Z.to_N (48 + d)) by (unfold digit; apply N_ascii_embedding; lia).
  unfold is_digit, digit_value. rewrite E. split; [|lia]. apply andb_true_iff. rewrite !N.leb_le. lia.
Qed.

Lemma digit_plain c : is_digit c = true -> is_space c = false /\ c <> newline /\ c <> "-"%char /\ c <> "+"%char.
Proof.
  intros Hd. unfold is_digit in Hd. apply andb_true_iff in Hd as [H1 H2]. apply N.leb_le in H1, H2.
  unfold is_space, newline. split; [|repeat split; intros ->; vm_compute in H1; by apply H1].
  cbv zeta. apply orb_false_iff. split; [apply N.eqb_neq; lia|]. apply andb_false_iff. right. apply N.leb_gt. lia.
Qed.

Definition add_digit (n : Z) (c : ascii) : Z := n * 10 + digit_value c.

Definition no_digit (t : text) : Prop := match t with c :: _ => is_digit c = false | [] => True end.

Lemma read_digits_spec ds rest : digits_only ds -> no_digit rest -> forall n, read_digits (ds ++ rest) n = (foldl add_digit n ds, rest).
Proof.
  intros Hds Hr. induction Hds as [|c ds Hc _ IH]; intros n; cbn [app read_digits foldl].
  - destruct rest as [|c t]; [done|]. cbn in Hr. cbn. by rewrite Hr.
  - rewrite Hc. apply IH.
Qed.

Lemma put_digits_spec fuel : forall n acc, 0 <= n < 10 ^ Z.of_nat (S fuel) ->
  exists ds, put_digits digit 10 (S fuel) n acc = ds ++ acc /\ digits_only ds /\ ds <> [] /\ foldl add_digit 0 ds = n.
Proof.
  induction fuel as [|fuel IH]; intros n acc Hn; cbn [put_digits];
    pose proof (Z.mod_pos_bound n 10 ltac:(lia)) as Hm; destruct (digit_spec (n mod 10) Hm) as [Hd Hv]; destruct (Z.ltb_spec n 10) as [Hlt|Hge].
  1,3: exists [digit (n mod 10)]; split; [done|]; split; [by constructor|]; split; [done|]; cbn [foldl]; unfold add_digit; rewrite Hv, Z.mod_small; lia.
  { cbn in Hn. lia. }
  destruct (IH (n / 10) (digit (n mod 10) :: acc)) as (ds & E & H1 & H2 & H3).
  { split; [apply Z.div_pos; lia|]. apply Z.div_lt_upper_bound; [lia|]. rewrite (Nat2Z.inj_succ (S fuel)), Z.pow_succ_r in Hn by lia. lia. }
  exists (ds ++ [digit (n mod 10)]). cbn [put_digits] in E. split; [by rewrite E, <- app_assoc|]. split; [by apply Forall_app; split; [|constructor]|].
  split; [by destruct ds|]. rewrite foldl_app, H3. cbn [foldl]. unfold add_digit. rewrite Hv. pose proof (Z.div_mod n 10 ltac:(lia)). lia.
Qed.

Lemma print_u_spec n : 0 <= n < 10 ^ 20 -> digits_only (print_u n) /\ print_u n <> [] /\ foldl add_digit 0 (print_u n) = n.
Proof. intros Hn. unfold print_u. destruct (put_digits_spec 19 n [] Hn) as (ds & -> & H). by rewrite app_nil_r. Qed.

Lemma scan_digits ds rest : digits_only ds -> ds <> [] -> no_digit rest ->
  scan_number (ds ++ rest) = Some (false, foldl add_digit 0 ds, rest).
Proof.
  intros Hds Hne Hr. pose proof (read_digits_spec ds rest Hds Hr 0) as E. destruct ds as [|c ds]; [done|]. inversion Hds as [|? ? Hc _]; subst.
  destruct (digit_plain c Hc) as (Hs & _ & Hm & Hp). unfold scan_number. cbn [app skip_spaces] in *. rewrite Hs, !decide_False by done.
  rewrite Hc, E. done.
Qed.

Lemma scan_u_print n rest : is_u32 n -> no_digit rest -> scan_u (print_u n ++ rest) = Some (n, rest).
Proof.
  intros Hn Hr. destruct (print_u_spec n) as (H1 & H2 & H3); [unfold is_u32 in Hn; lia|]. unfold scan_u. rewrite scan_digits, H3 by done. unfold is_u32 in Hn.
  destruct (Z.ltb_spec 0xffffffffffffffff n); [lia|]. do 2 f_equal. cint.
Qed.

Lemma scan_d_print n rest : 0 <= n < 0x80000000 -> no_digit rest -> scan_d (print_d n ++ rest) = Some (n, rest).
Proof.
  intros Hn Hr. unfold print_d. destruct (Z.ltb_spec n 0); [lia|]. destruct (print_u_spec n) as (H1 & H2 & H3); [lia|].
  unfold scan_d. rewrite scan_digits, H3 by done. do 2 f_equal. rewrite Z.min_l, Z.max_r by lia. cint.
Qed.

Lemma after_prefix_app p t : after_prefix p (p ++ t) = Some t.
Proof. induction p as [|c p IH]; [by destruct t|]. cbn. by rewrite decide_True. Qed.

Lemma after_newline_app ds t : Forall (fun c => c <> newline) ds -> after_newline (ds ++ newline :: t) = Some t.
Proof. induction 1 as [|c ds Hc _ IH]; cbn; [by rewrite decide_True|]. by rewrite decide_False. Qed.

Lemma print_u_line n : 0 <= n < 10 ^ 20 -> Forall (fun c => c <> newline) (print_u n).
Proof. intros Hn. eapply Forall_impl; [apply (print_u_spec n Hn)|]. intros c Hc. by apply digit_plain. Qed.
