(* ===== verification/SnapshotExport.v ===== *)
(** * Exporting and importing snapshots

    The text file in which a transaction publishes its snapshot
    ([ExportSnapshot]), its parser and the checks of [ImportSnapshot], and the
    binary form for parallel workers ([SerializeSnapshot], [RestoreSnapshot]). *)

From Stdlib Require Import Ascii String.
From stdpp Require Import strings.
From S2P Require Import Prelude.
From S2P Require Import TransactionId.
From S2P Require Import Varsup.
From S2P Require Import Snapshot.
From S2P Require Import ProcArray.
From S2P Require Import SnapMgr.
From S2P Require Import SnapshotText.

#[local] Open Scope prog_scope.

Abbreviation Files := (gmap text text).

(** The backend and the directory [pg_snapshots], by whole paths. *)
Record Exchange := MkExchange { ex_mgr : SnapMgr; ex_files : Files }.

Inductive ExchangeError :=
  | InSubtransaction
  | FileAccess
  | NotFirst
  | NotXactIsolation
  | BadIdentifier
  | NoSuchSnapshot
  | InvalidData
  | NotSerializable
  | ReadOnlySource
  | OtherDatabase
  | ManagerError (e : SnapError).

Abbreviation X := (prog Exchange ExchangeError).
Abbreviation P := (prog text ExchangeError).

Definition on_mgr {A} (m : prog SnapMgr SnapError A) : X A := fun s =>
  let '(st, r) := m (ex_mgr s) in
  (MkExchange st (ex_files s), match r with inl e => inl (ManagerError e) | inr a => inr a end).

(** What the functions ask xact.c and the process itself. *)
Record XactEnv := MkXactEnv {
  TopTransactionId : Z;
  IsSubTransaction : bool;
  CommittedChildren : list Z;
  MyVxid : VirtualTransactionId;
  MyProcPid : Z;
  XactReadOnly : bool;
}.

Definition iso_code (i : XactIsolation) : Z :=
  match i with XACT_READ_COMMITTED => 1 | XACT_REPEATABLE_READ => 2 | XACT_SERIALIZABLE => 3 end.

Definition GetMaxSnapshotXidCount (pa : ProcArrayStruct) : Z := maxProcs pa.
Definition GetMaxSnapshotSubxidCount (pa : ProcArrayStruct) : Z := (PGPROC_MAX_CACHED_SUBXIDS + 1) * maxProcs pa.

(** ** Export *)

Definition line (key : string) (value : text) : text := lit key ++ value ++ [newline].
Definition bit (b : bool) : Z := if b then 1 else 0.

Definition snapshot_name (vxid : VirtualTransactionId) (n : Z) : text :=
  print_08X (procNumber vxid) ++ lit "-" ++ print_08X (localTransactionId vxid) ++ lit "-" ++ print_d n.
Definition snapshot_dir : text := lit "pg_snapshots/".

Definition addTopXid (topXid : Z) (snapshot : SnapshotData) : bool :=
  TransactionIdIsValid topXid && TransactionIdPrecedes topXid (snap_xmax snapshot).

Definition subxids_dropped (maxsub : Z) (children : list Z) (snapshot : SnapshotData) : bool :=
  suboverflowed snapshot || (maxsub <? zlength (subxip snapshot) + zlength children).

Definition export_text (x : XactEnv) (iso : XactIsolation) (dbid maxsub : Z) (snapshot : SnapshotData) : text :=
  line "vxid:" (print_d (procNumber (MyVxid x)) ++ lit "/" ++ print_u (localTransactionId (MyVxid x))) ++
  line "pid:" (print_d (MyProcPid x)) ++
  line "dbid:" (print_u dbid) ++
  line "iso:" (print_d (iso_code iso)) ++
  line "ro:" (print_d (bit (XactReadOnly x))) ++
  line "xmin:" (print_u (snap_xmin snapshot)) ++
  line "xmax:" (print_u (snap_xmax snapshot)) ++
  line "xcnt:" (print_d (zlength (xip snapshot) + bit (addTopXid (TopTransactionId x) snapshot))) ++
  concat ((fun xid => line "xip:" (print_u xid)) <$> xip snapshot) ++
  (if addTopXid (TopTransactionId x) snapshot then line "xip:" (print_u (TopTransactionId x)) else []) ++
  (if subxids_dropped maxsub (CommittedChildren x) snapshot then line "sof:" (lit "1")
   else
     line "sof:" (lit "0") ++
     line "sxcnt:" (print_d (zlength (subxip snapshot) + zlength (CommittedChildren x))) ++
     concat ((fun xid => line "sxp:" (print_u xid)) <$> subxip snapshot) ++
     concat ((fun xid => line "sxp:" (print_u xid)) <$> CommittedChildren x)) ++
  line "rec:" (print_u (bit (takenDuringRecovery snapshot))).

(** The outcomes of the calls on the file; [written] is what a failed write
    left in the temporary file. *)
Inductive FileOutcome :=
  | FileDone
  | CreateFails
  | WriteFails (written : text)
  | RenameFails.

Definition write_file (io : FileOutcome) (path contents : text) : X unit :=
  let pathtmp := path ++ lit ".tmp" in
  let put p t := pmod (fun s => MkExchange (ex_mgr s) (<[p := t]> (ex_files s))) in
  match io with
  | CreateFails => preturn FileAccess
  | WriteFails written => put pathtmp written ;;; preturn FileAccess
  | RenameFails => put pathtmp contents ;;; preturn FileAccess
  | FileDone => put path contents
  end.

Section exchange.
Context (palloc : gset positive -> positive) `{HP : PredicateLocks}.

Definition ExportSnapshot (io : FileOutcome) (env : CallEnv) (x : XactEnv) (snapshot : positive) : X text :=
  if IsSubTransaction x then preturn InSubtransaction
  else
    st0 <- pget ex_mgr ;;
    let name := snapshot_name (MyVxid x) (zlength (exportedSnapshots st0) + 1) in
    copy <- on_mgr (keep_exported palloc snapshot) ;;
    o <- on_mgr (load_snapshot copy) ;;
    st <- pget ex_mgr ;;
    write_file io (snapshot_dir ++ name)
      (export_text x (XactIsoLevel env) (MyDatabaseId (sm_backend st)) (GetMaxSnapshotSubxidCount (sm_array st)) (snap_data o)) ;;;
    pret name.

(** ** Import *)

(** One line [prefix] with a value in the format of [scan]. *)
Definition parse_line {A} (scan : text -> option (A * text)) (prefix : string) : P A :=
  t <- pget (fun t => t) ;;
  match after_prefix (lit prefix) t with
  | None => preturn InvalidData
  | Some ptr =>
      match scan ptr with
      | None => preturn InvalidData
      | Some (val, _) =>
          match after_newline ptr with
          | None => preturn InvalidData
          | Some rest => pmod (fun _ => rest) ;;; pret val
          end
      end
  end.

Definition parseIntFromText : string -> P Z := parse_line scan_d.
Definition parseXidFromText : string -> P Z := parse_line scan_u.

Definition scan_vxid (t : text) : option (VirtualTransactionId * text) :=
  match scan_d t with
  | Some (proc, t) =>
      match after_prefix (lit "/") t with
      | Some t => match scan_u t with Some (lxid, t) => Some (MkVxid proc lxid, t) | None => None end
      | None => None
      end
  | None => None
  end.
Definition parseVxidFromText : string -> P VirtualTransactionId := parse_line scan_vxid.

Fixpoint parse_xids (prefix : string) (n : nat) : P (list Z) :=
  match n with
  | O => pret []
  | S n => xid <- parseXidFromText prefix ;; rest <- parse_xids prefix n ;; pret (xid :: rest)
  end.

(** A count, checked before memory is allocated, and that many lines. *)
Definition parse_counted (count_prefix prefix : string) (max : Z) : P (list Z) :=
  xcnt <- parseIntFromText count_prefix ;;
  if (xcnt <? 0) || (max <? xcnt) then preturn InvalidData else parse_xids prefix (Z.to_nat xcnt).

Record Imported := MkImported {
  src_vxid : VirtualTransactionId;
  src_pid : Z;
  src_dbid : Z;
  src_isolevel : Z;
  src_readonly : bool;
  src_snapshot : SnapshotData;
}.

Definition parse_snapshot (maxx maxsub : Z) : P Imported :=
  vxid <- parseVxidFromText "vxid:" ;;
  pid <- parseIntFromText "pid:" ;;
  dbid <- parseXidFromText "dbid:" ;;
  iso <- parseIntFromText "iso:" ;;
  ro <- parseIntFromText "ro:" ;;
  xmin <- parseXidFromText "xmin:" ;;
  xmax <- parseXidFromText "xmax:" ;;
  xip <- parse_counted "xcnt:" "xip:" maxx ;;
  sof <- parseIntFromText "sof:" ;;
  subxip <- (if negb (sof =? 0) then pret [] else parse_counted "sxcnt:" "sxp:" maxsub) ;;
  rec <- parseIntFromText "rec:" ;;
  pret (MkImported vxid pid dbid iso (negb (ro =? 0))
          (MkSnapshot SNAPSHOT_MVCC xmin xmax xip subxip (negb (sof =? 0)) (negb (rec =? 0)) 0 0 VISHORIZON_SHARED 0)).

(** The file as a C string. *)
Fixpoint c_string (t : text) : text :=
  match t with c :: t => if decide (c = zero) then [] else c :: c_string t | [] => [] end.

Definition VirtualTransactionIdIsValid (vxid : VirtualTransactionId) : bool := negb (localTransactionId vxid =? 0).

Definition sane (i : Imported) : bool :=
  VirtualTransactionIdIsValid (src_vxid i) && negb (src_dbid i =? InvalidOid) &&
  TransactionIdIsNormal (snap_xmin (src_snapshot i)) && TransactionIdIsNormal (snap_xmax (src_snapshot i)).

Definition id_char (c : ascii) : bool := bool_decide (c ∈ lit "0123456789ABCDEF-").

(** [readable] is whether opening, [fstat] and [fread] succeed on a file that
    is there. *)
Definition ImportSnapshot (readable : bool) (env : CallEnv) (x : XactEnv) (vxids : nat -> VirtualTransactionId) (idstr : text) : X unit :=
  isset <- pget (fun s => FirstSnapshotSet (ex_mgr s)) ;;
  if isset || TransactionIdIsValid (TopTransactionId x) || IsSubTransaction x then preturn NotFirst
  else if negb (IsolationUsesXactSnapshot (XactIsoLevel env)) then preturn NotXactIsolation
  else if negb (forallb id_char idstr) then preturn BadIdentifier
  else
    file <- pget (fun s => ex_files s !! (snapshot_dir ++ idstr)) ;;
    match file with
    | None => preturn NoSuchSnapshot
    | Some contents =>
        if negb readable || (length contents =? 0)%nat then preturn FileAccess
        else
          st <- pget ex_mgr ;;
          match (parse_snapshot (GetMaxSnapshotXidCount (sm_array st)) (GetMaxSnapshotSubxidCount (sm_array st)) (c_string contents)).2 with
          | inl e => preturn e
          | inr i =>
              if negb (sane i) then preturn InvalidData
              else if IsolationIsSerializable (XactIsoLevel env) && negb (src_isolevel i =? iso_code XACT_SERIALIZABLE) then preturn NotSerializable
              else if IsolationIsSerializable (XactIsoLevel env) && src_readonly i && negb (XactReadOnly x) then preturn ReadOnlySource
              else if negb (src_dbid i =? MyDatabaseId (sm_backend st)) then preturn OtherDatabase
              else on_mgr (SetTransactionSnapshot palloc env vxids (src_snapshot i) (Some (src_vxid i)) None)
          end
    end.
End exchange.

(** ** Parallel workers

    The shared memory of a serialized snapshot: the struct at its start, if it
    was written, and the ids behind it. *)

Record SerializedSnapshotData := MkSerialized {
  ser_xmin : Z;
  ser_xmax : Z;
  ser_xcnt : Z;
  ser_subxcnt : Z;
  ser_suboverflowed : bool;
  ser_takenDuringRecovery : bool;
  ser_curcid : Z;
  ser_whenTaken : Z;
  ser_lsn : Z;
}.
Definition sizeof_SerializedSnapshotData : Z := 40.
Definition sizeof_TransactionId : Z := 4.

Record Chunk := MkChunk { chunk_header : option SerializedSnapshotData; chunk_xids : list Z }.

Inductive ChunkError := Overrun | Unwritten.

Abbreviation K := (prog Chunk ChunkError).

Definition EstimateSnapshotSpace (snapshot : SnapshotData) : Z :=
  let size := sizeof_SerializedSnapshotData + zlength (xip snapshot) * sizeof_TransactionId in
  if (0 <? zlength (subxip snapshot)) && (negb (suboverflowed snapshot) || takenDuringRecovery snapshot)
  then size + zlength (subxip snapshot) * sizeof_TransactionId else size.

(** [memcpy] of ids to and from the words behind the struct. *)
Definition memcpy_to (off : Z) (src : list Z) : K unit :=
  xids <- pget chunk_xids ;;
  if zlength xids <? off + zlength src then preturn Overrun
  else pmod (fun k => MkChunk (chunk_header k) (list_inserts (Z.to_nat off) src (chunk_xids k))).

Definition memcpy_from (off n : Z) : K (list Z) :=
  xids <- pget chunk_xids ;;
  if zlength xids <? off + n then preturn Overrun else pret (take (Z.to_nat n) (drop (Z.to_nat off) xids)).

Definition SerializeSnapshot (o : SnapshotObject) : K unit :=
  let snapshot := snap_data o in
  let subxcnt := if suboverflowed snapshot && negb (takenDuringRecovery snapshot) then 0 else zlength (subxip snapshot) in
  pmod (fun k => MkChunk (Some (MkSerialized (snap_xmin snapshot) (snap_xmax snapshot) (zlength (xip snapshot)) subxcnt
                                  (suboverflowed snapshot) (takenDuringRecovery snapshot) (curcid snapshot) (whenTaken o) (snap_lsn o)))
                         (chunk_xids k)) ;;;
  (if 0 <? zlength (xip snapshot) then memcpy_to 0 (xip snapshot) else pret tt) ;;;
  if 0 <? subxcnt then memcpy_to (zlength (xip snapshot)) (subxip snapshot) else pret tt.

(** [raw] is what the allocated memory held: not every field is set. *)
Definition RestoreSnapshot (raw : SnapshotData) : K SnapshotObject :=
  header <- pget chunk_header ;;
  match header with
  | None => preturn Unwritten
  | Some h =>
      xip <- (if 0 <? ser_xcnt h then memcpy_from 0 (ser_xcnt h) else pret []) ;;
      subxip <- (if 0 <? ser_subxcnt h then memcpy_from (ser_xcnt h) (ser_subxcnt h) else pret []) ;;
      pret (MkObject
        (MkSnapshot SNAPSHOT_MVCC (ser_xmin h) (ser_xmax h) xip subxip (ser_suboverflowed h) (ser_takenDuringRecovery h) (ser_curcid h)
           (speculativeToken raw) (vistest raw) 0) 0 0 true (ser_lsn h) (ser_whenTaken h))
  end.

(** ** What an importer reads *)

(** The snapshot in the file: the exporter's own ids are in it. *)
Definition exported_data (x : XactEnv) (maxsub : Z) (s : SnapshotData) : SnapshotData :=
  let dropped := subxids_dropped maxsub (CommittedChildren x) s in
  MkSnapshot SNAPSHOT_MVCC (snap_xmin s) (snap_xmax s)
    (xip s ++ if addTopXid (TopTransactionId x) s then [TopTransactionId x] else [])
    (if dropped then [] else subxip s ++ CommittedChildren x) dropped (takenDuringRecovery s) 0 0 VISHORIZON_SHARED 0.

(** The values fit their C types, and the arrays their limits. *)
Record exportable (x : XactEnv) (dbid maxx maxsub : Z) (s : SnapshotData) : Prop := {
  xp_vxid : 0 <= procNumber (MyVxid x) < 0x80000000 /\ is_u32 (localTransactionId (MyVxid x));
  xp_pid : 0 <= MyProcPid x < 0x80000000;
  xp_dbid : is_u32 dbid;
  xp_bounds : is_u32 (snap_xmin s) /\ is_u32 (snap_xmax s);
  xp_xids : Forall is_u32 (xip s) /\ Forall is_u32 (subxip s);
  xp_own : is_u32 (TopTransactionId x) /\ Forall is_u32 (CommittedChildren x);
  xp_room : zlength (xip s) + 1 <= maxx < 0x80000000;
  xp_subs : maxsub < 0x80000000;
}.

Lemma parse_line_run {A} (scan : text -> option (A * text)) prefix v rest a r : scan (v ++ newline :: rest) = Some (a, r) ->
  Forall (fun c => c <> newline) v -> parse_line scan prefix (line prefix v ++ rest) = (rest, inr a).
Proof.
  intros Hs Hv. unfold parse_line, line, pbind, pget. rewrite <- !app_assoc, after_prefix_app. cbn [app]. by rewrite Hs, after_newline_app.
Qed.

Lemma no_digit_newline t : no_digit (newline :: t).
Proof. done. Qed.

Lemma parse_xid_run prefix n rest : is_u32 n -> parseXidFromText prefix (line prefix (print_u n) ++ rest) = (rest, inr n).
Proof.
  intros Hn. eapply parse_line_run; [by apply scan_u_print|]. apply print_u_line. unfold is_u32 in Hn. lia.
Qed.

Lemma print_d_line n : 0 <= n < 0x80000000 -> Forall (fun c => c <> newline) (print_d n).
Proof. intros Hn. unfold print_d. destruct (Z.ltb_spec n 0); [lia|]. apply print_u_line. lia. Qed.

Lemma parse_int_run prefix n rest : 0 <= n < 0x80000000 -> parseIntFromText prefix (line prefix (print_d n) ++ rest) = (rest, inr n).
Proof. intros Hn. eapply parse_line_run; [by apply scan_d_print|]. by apply print_d_line. Qed.

Lemma parse_vxid_run prefix v rest : 0 <= procNumber v < 0x80000000 -> is_u32 (localTransactionId v) ->
  parseVxidFromText prefix (line prefix (print_d (procNumber v) ++ lit "/" ++ print_u (localTransactionId v)) ++ rest) = (rest, inr v).
Proof.
  intros Hp Hl. eapply (parse_line_run _ _ _ _ _ (newline :: rest)).
  - unfold scan_vxid. rewrite <- !app_assoc. rewrite scan_d_print by done. rewrite after_prefix_app, scan_u_print by done. by destruct v.
  - rewrite !Forall_app. split; [by apply print_d_line|]. split; [by repeat constructor|]. apply print_u_line. unfold is_u32 in Hl. lia.
Qed.

Lemma parse_xids_run prefix l rest : Forall is_u32 l ->
  parse_xids prefix (length l) (concat ((fun xid => line prefix (print_u xid)) <$> l) ++ rest) = (rest, inr l).
Proof.
  induction 1 as [|n l Hn _ IH]; [done|]. cbn [length parse_xids fmap list_fmap concat]. rewrite <- app_assoc.
  unfold pbind. rewrite parse_xid_run by done. by rewrite IH.
Qed.

Lemma parse_counted_run cprefix prefix max l rest : Forall is_u32 l -> zlength l <= max < 0x80000000 ->
  parse_counted cprefix prefix max (line cprefix (print_d (zlength l)) ++ concat ((fun xid => line prefix (print_u xid)) <$> l) ++ rest) = (rest, inr l).
Proof.
  intros Hl Hm. unfold parse_counted, pbind. assert (H0 : 0 <= zlength l) by (unfold zlength; lia). rewrite parse_int_run by lia.
  destruct (Z.ltb_spec (zlength l) 0); [lia|]. destruct (Z.ltb_spec max (zlength l)); [lia|]. cbn [orb].
  replace (Z.to_nat (zlength l)) with (length l) by (unfold zlength; lia). by apply parse_xids_run.
Qed.

(** The end of the text, from the line [sof]. *)
Lemma parse_tail_run x maxsub s k rest : Forall is_u32 (subxip s) -> Forall is_u32 (CommittedChildren x) -> maxsub < 0x80000000 ->
  let dropped := subxids_dropped maxsub (CommittedChildren x) s in
  (sof <- parseIntFromText "sof:" ;; subxip <- (if negb (sof =? 0) then pret [] else parse_counted "sxcnt:" "sxp:" maxsub) ;; k sof subxip)
    ((if dropped then line "sof:" (lit "1")
      else line "sof:" (lit "0") ++ line "sxcnt:" (print_d (zlength (subxip s) + zlength (CommittedChildren x))) ++
        concat ((fun xid => line "sxp:" (print_u xid)) <$> subxip s) ++ concat ((fun xid => line "sxp:" (print_u xid)) <$> CommittedChildren x)) ++ rest)
  = (k (bit dropped) (if dropped then [] else subxip s ++ CommittedChildren x) rest : text * (ExchangeError + Imported)).
Proof.
  intros H1 H2 Hm dropped. destruct dropped eqn:Ed.
  - rewrite (pbind_run _ _ _ rest 1 (parse_int_run "sof:" 1 rest ltac:(lia))). cbn [Z.eqb negb]. done.
  - rewrite <- app_assoc, (pbind_run _ _ _ _ 0 (parse_int_run "sof:" 0 _ ltac:(lia))). cbn [Z.eqb negb].
    assert (Hz : zlength (subxip s) + zlength (CommittedChildren x) = zlength (subxip s ++ CommittedChildren x)) by (unfold zlength; rewrite length_app; lia).
    assert (Hc : forall l1 l2, concat ((fun xid => line "sxp:" (print_u xid)) <$> l1) ++ concat ((fun xid => line "sxp:" (print_u xid)) <$> l2) =
      concat ((fun xid => line "sxp:" (print_u xid)) <$> l1 ++ l2)) by (intros; by rewrite fmap_app, concat_app).
    rewrite Hz, Hc, <- app_assoc. rewrite (pbind_run _ _ _ rest (subxip s ++ CommittedChildren x)); [done|].
    apply parse_counted_run; [by apply Forall_app|]. rewrite <- Hz. unfold dropped, subxids_dropped in Ed. apply orb_false_iff in Ed as [_ Ed]. lia.
Qed.

Tactic Notation "run_line" uconstr(H) := rewrite (pbind_run _ _ _ _ _ H); cbv beta.

Lemma export_text_parsed x iso dbid maxx maxsub s : exportable x dbid maxx maxsub s ->
  parse_snapshot maxx maxsub (export_text x iso dbid maxsub s) =
  ([], inr (MkImported (MyVxid x) (MyProcPid x) dbid (iso_code iso) (XactReadOnly x) (exported_data x maxsub s))).
Proof.
  intros [Hv Hp Hd Hb Hx Ho Hr Hs]. unfold export_text, parse_snapshot.
  run_line (parse_vxid_run "vxid:" _ _ (proj1 Hv) (proj2 Hv)).
  run_line (parse_int_run "pid:" (MyProcPid x) _ Hp). run_line (parse_xid_run "dbid:" dbid _ Hd).
  run_line (parse_int_run "iso:" (iso_code iso) _ ltac:(by destruct iso)).
  run_line (parse_int_run "ro:" (bit (XactReadOnly x)) _ ltac:(by destruct (XactReadOnly x))).
  run_line (parse_xid_run "xmin:" (snap_xmin s) _ (proj1 Hb)). run_line (parse_xid_run "xmax:" (snap_xmax s) _ (proj2 Hb)).
  set (own := if addTopXid (TopTransactionId x) s then [TopTransactionId x] else []).
  assert (Hz : zlength (xip s) + bit (addTopXid (TopTransactionId x) s) = zlength (xip s ++ own)).
  { unfold own, zlength, bit. rewrite length_app. destruct (addTopXid _ s); cbn; lia. }
  assert (Hl : forall rest, concat ((fun xid => line "xip:" (print_u xid)) <$> xip s) ++ (if addTopXid (TopTransactionId x) s then line "xip:" (print_u (TopTransactionId x)) else []) ++ rest =
    concat ((fun xid => line "xip:" (print_u xid)) <$> xip s ++ own) ++ rest).
  { intros rest. rewrite fmap_app, concat_app, <- app_assoc. f_equal. unfold own. destruct (addTopXid _ s); cbn; by rewrite ?app_nil_r. }
  rewrite Hz, Hl. run_line (parse_counted_run "xcnt:" "xip:" maxx (xip s ++ own) _
    ltac:(apply Forall_app; split; [apply Hx|unfold own; destruct (addTopXid _ s); repeat constructor; apply Ho])
    ltac:(rewrite <- Hz; unfold bit; destruct (addTopXid _ s); lia)).
  rewrite (parse_tail_run x maxsub s _ _ (proj2 Hx) (proj2 Ho) Hs). cbv beta.
  set (rec := bit (takenDuringRecovery s)). assert (Hrec : line "rec:" (print_u rec) = line "rec:" (print_d rec) ++ []) by (unfold rec; by destruct (takenDuringRecovery s)).
  rewrite Hrec. run_line (parse_int_run "rec:" rec [] ltac:(unfold rec; by destruct (takenDuringRecovery s))).
  unfold pret, exported_data, rec. fold own. by destruct (XactReadOnly x), (subxids_dropped _ _ _), (takenDuringRecovery s).
Qed.
