(* ===== verification/SnapshotExportTheorems.v ===== *)
(** * Exporting and importing snapshots: what it guarantees

    What is exported can be imported and shows every transaction that runs for
    the exporter, the exporter included; a failed export publishes nothing; a
    parallel worker restores its leader's snapshot.  One case loses ids: an
    overflowed snapshot taken during recovery. *)

From Stdlib Require Import Ascii String.
From stdpp Require Import strings relations.
From S2P Require Import Prelude.
From S2P Require Import TransactionId.
From S2P Require Import Varsup.
From S2P Require Import Snapshot.
From S2P Require Import ProcArray.
From S2P Require Import Running.
From S2P Require Import SnapshotTheorems.
From S2P Require Import SnapMgr.
From S2P Require Import SnapMgrMemory.
From S2P Require Import SnapMgrInvariant.
From S2P Require Import SnapMgrSteps.
From S2P Require Import SnapMgrXact.
From S2P Require Import SnapMgrCalls.
From S2P Require Import SnapMgrArray.
From S2P Require Import SnapMgrTheorems.
From S2P Require Import SnapshotText.
From S2P Require Import SnapshotExport.

(** ** Restored by a worker *)

Definition chunk_bytes (k : Chunk) : Z := sizeof_SerializedSnapshotData + zlength (chunk_xids k) * sizeof_TransactionId.

Lemma copied_from h a b c : (if 0 <? zlength b then memcpy_from (zlength a) (zlength b) else pret []) (MkChunk h (a ++ b ++ c)) = (MkChunk h (a ++ b ++ c), inr b).
Proof.
  destruct (Z.ltb_spec 0 (zlength b)) as [_|Hb]; [|unfold zlength in Hb; by destruct b; [|cbn in Hb; lia]].
  unfold memcpy_from, pbind, pget. cbn [chunk_xids]. unfold zlength. rewrite !length_app.
  destruct (Z.ltb_spec (Z.of_nat (length a + (length b + length c))) (Z.of_nat (length a) + Z.of_nat (length b))); [lia|].
  by rewrite !Nat2Z.id, drop_app_length, take_app_length.
Qed.

Lemma copied_to h a l b c : length b = length l ->
  (if 0 <? zlength b then memcpy_to (zlength a) b else pret tt) (MkChunk h (a ++ l ++ c)) = (MkChunk h (a ++ b ++ c), inr tt).
Proof.
  intros Hl. destruct (Z.ltb_spec 0 (zlength b)) as [_|Hb]; [|unfold zlength in Hb; by destruct b, l; cbn in *; try lia].
  unfold memcpy_to, pbind, pget. cbn [chunk_xids]. unfold zlength. rewrite !length_app.
  destruct (Z.ltb_spec (Z.of_nat (length a + (length l + length c))) (Z.of_nat (length a) + Z.of_nat (length b))); [lia|].
  unfold pmod. cbn [chunk_header chunk_xids]. rewrite Nat2Z.id, <- (Nat.add_0_r (length a)), list_inserts_app_r, list_inserts_0_r by done. done.
Qed.

(** The ids that are sent. *)
Definition sent_subxip (s : SnapshotData) : list Z := if keeps_subxip s then subxip s else [].

Lemma room_split k s : chunk_bytes k = EstimateSnapshotSpace s ->
  exists r1 r2, chunk_xids k = r1 ++ r2 /\ length (xip s) = length r1 /\ length (sent_subxip s) = length r2.
Proof.
  intros Hk. exists (take (length (xip s)) (chunk_xids k)), (drop (length (xip s)) (chunk_xids k)). rewrite take_drop, length_take, length_drop.
  unfold chunk_bytes, EstimateSnapshotSpace, sizeof_TransactionId in Hk. fold (keeps_subxip s) in Hk. unfold sent_subxip. unfold zlength in *.
  split; [done|]. destruct (keeps_subxip s); rewrite ?andb_true_r, ?andb_false_r in Hk; [destruct (Z.ltb_spec 0 (Z.of_nat (length (subxip s))))|]; cbn; lia.
Qed.

Definition restored_data (raw s : SnapshotData) : SnapshotData :=
  MkSnapshot SNAPSHOT_MVCC (snap_xmin s) (snap_xmax s) (xip s) (sent_subxip s) (suboverflowed s) (takenDuringRecovery s) (curcid s)
    (speculativeToken raw) (vistest raw) 0.

Lemma restored_verdict topmost raw s x : XidInMVCCSnapshot topmost x (restored_data raw s) = XidInMVCCSnapshot topmost x s.
Proof.
  destruct s as [t xmin xmax xi sx so tr cc sp v n]. unfold restored_data, sent_subxip, keeps_subxip, XidInMVCCSnapshot. cbn. by destruct so, tr.
Qed.

Lemma serialize_run o raw k : chunk_bytes k = EstimateSnapshotSpace (snap_data o) ->
  exists k', SerializeSnapshot o k = (k', inr tt) /\
    RestoreSnapshot raw k' = (k', inr (MkObject (restored_data raw (snap_data o)) 0 0 true (snap_lsn o) (whenTaken o))).
Proof.
  intros Hk. destruct (room_split _ _ Hk) as (r1 & r2 & Er & H1 & H2). set (s := snap_data o) in *.
  assert (Esub : (if suboverflowed s && negb (takenDuringRecovery s) then 0 else zlength (subxip s)) = zlength (sent_subxip s)).
  { unfold sent_subxip, keeps_subxip. by destruct (suboverflowed s), (takenDuringRecovery s). }
  assert (Eto : forall a k, (if 0 <? zlength (sent_subxip s) then memcpy_to a (subxip s) else pret tt) k =
                            (if 0 <? zlength (sent_subxip s) then memcpy_to a (sent_subxip s) else pret tt) k).
  { intros a k'. unfold sent_subxip. by destruct (keeps_subxip s). }
  set (h := Some (MkSerialized (snap_xmin s) (snap_xmax s) (zlength (xip s)) (zlength (sent_subxip s)) (suboverflowed s) (takenDuringRecovery s) (curcid s) (whenTaken o) (snap_lsn o))).
  exists (MkChunk h (xip s ++ sent_subxip s ++ [])). split.
  - unfold SerializeSnapshot. fold s. cbv zeta. rewrite Esub. fold h. unfold pbind at 1, pmod at 1. rewrite Er.
    rewrite (pbind_run _ _ _ _ _ (copied_to h [] r1 (xip s) r2 H1)), Eto. cbn [app]. rewrite <- (app_nil_r r2). by apply copied_to.
  - unfold RestoreSnapshot. unfold pbind at 1, pget at 1. cbn [chunk_header]. unfold h at 1. cbn [ser_xcnt ser_subxcnt].
    rewrite (pbind_run _ _ _ _ _ (copied_from h [] (xip s) (sent_subxip s ++ []))). cbn [app].
    by rewrite (pbind_run _ _ _ _ _ (copied_from h (xip s) (sent_subxip s) [])).
Qed.

(** C31. A parallel worker restores its leader's snapshot.  In a piece of shared
    memory of the size that [EstimateSnapshotSpace] asks for,
    [SerializeSnapshot] stays within bounds, and [RestoreSnapshot] reads back,
    also within bounds, an unreferenced copy with the same xmin, xmax, command
    id and position in the log, which gives the same verdict on every id. *)
Theorem serialized_snapshot_restored o raw k : chunk_bytes k = EstimateSnapshotSpace (snap_data o) ->
  exists k' o', SerializeSnapshot o k = (k', inr tt) /\ RestoreSnapshot raw k' = (k', inr o') /\
    snap_xmin (snap_data o') = snap_xmin (snap_data o) /\ snap_xmax (snap_data o') = snap_xmax (snap_data o) /\
    curcid (snap_data o') = curcid (snap_data o) /\ whenTaken o' = whenTaken o /\ snap_lsn o' = snap_lsn o /\
    active_count o' = 0 /\ regd_count o' = 0 /\ copied o' = true /\
    forall topmost x, XidInMVCCSnapshot topmost x (snap_data o') = XidInMVCCSnapshot topmost x (snap_data o).
Proof.
  intros Hk. destruct (serialize_run o raw k Hk) as (k' & H1 & H2). eexists k', _. split; [done|]. split; [done|].
  do 8 (split; [done|]). intros topmost x. apply restored_verdict.
Qed.

(** ** Who runs according to an exported snapshot *)

Section verdict.
Context (lo : Z) (topmost : Z -> Z).

Abbreviation rank := (xid_rank lo).
Abbreviation in_use := (in_use lo).

(** A transaction with the snapshot [s]: listed ids are not before xmin, the
    listed subtransactions and the committed children belong to listed
    transactions and to the exporter. *)
Record exporter (x : XactEnv) (s : SnapshotData) : Prop := {
  xr_bounds : in_use (snap_xmin s) /\ in_use (snap_xmax s) /\ rank (snap_xmin s) <= rank (snap_xmax s);
  xr_listed : forall y, y ∈ xip s -> in_use y /\ rank (snap_xmin s) <= rank y /\ topmost y = y;
  xr_subs : forall y, y ∈ subxip s -> topmost y ∈ xip s;
  xr_top : TransactionIdIsValid (TopTransactionId x) = true ->
    in_use (TopTransactionId x) /\ rank (snap_xmin s) <= rank (TopTransactionId x) /\ topmost (TopTransactionId x) = TopTransactionId x;
  xr_children : forall y, y ∈ CommittedChildren x -> TransactionIdIsValid (TopTransactionId x) = true /\
    in_use y /\ rank (TopTransactionId x) < rank y /\ topmost y = TopTransactionId x;
}.

(** The exporter's own work. *)
Definition own_id (x : XactEnv) (y : Z) : Prop :=
  TransactionIdIsValid (TopTransactionId x) = true /\ (y = TopTransactionId x \/ y ∈ CommittedChildren x).

Context (x : XactEnv) (maxsub : Z) (s : SnapshotData) (Hx : exporter x s) (Hprim : takenDuringRecovery s = false).
Abbreviation e := (exported_data x maxsub s).

Lemma listed_later y : y ∈ xip e -> TransactionIdPrecedes y (snap_xmin e) = false.
Proof.
  destruct Hx as [(Hm & _) Hl _ Ht _]. intros Hy. cbn in Hy |- *.
  assert (H : in_use y /\ rank (snap_xmin s) <= rank y).
  { apply elem_of_app in Hy as [Hy|Hy]; [by destruct (Hl y Hy) as (? & ? & _)|]. unfold addTopXid in Hy.
    destruct (TransactionIdIsValid _) eqn:Ev; [|by apply elem_of_nil in Hy]. destruct (Ht eq_refl) as (? & ? & _).
    cbn in Hy. destruct (TransactionIdPrecedes _ _); [by apply list_elem_of_singleton in Hy as ->|by apply elem_of_nil in Hy]. }
  rewrite (precedes_rank lo) by naive_solver. apply Z.ltb_ge. apply H.
Qed.

Lemma top_listed : TransactionIdIsValid (TopTransactionId x) = true -> rank (TopTransactionId x) < rank (snap_xmax s) -> TopTransactionId x ∈ xip e.
Proof.
  intros Hv Hlt. destruct Hx as [(_ & Hm & _) _ _ Ht _]. destruct (Ht Hv) as (Hu & _). cbn. unfold addTopXid.
  rewrite Hv, (precedes_rank lo), (proj2 (Z.ltb_lt _ _) Hlt) by done. cbn. set_solver +.
Qed.

(** The verdict between xmin and xmax, from whom the id belongs to. *)
Lemma exported_between y : in_use y -> rank (snap_xmin s) <= rank y < rank (snap_xmax s) ->
  XidInMVCCSnapshot topmost y e = true <->
  if subxids_dropped maxsub (CommittedChildren x) s then topmost y ∈ xip e
  else y ∈ subxip s \/ y ∈ CommittedChildren x \/ y ∈ xip e.
Proof.
  intros Hy Hr. destruct Hx as [(Hm & Hm' & _) _ _ _ _]. rewrite (snapshot_between lo topmost e) by done. cbn [suboverflowed exported_data subxip].
  destruct (subxids_dropped _ _ s); [|rewrite elem_of_app; tauto].
  split; [by intros [_ ?]|]. intros H. split; [by apply listed_later|done].
Qed.

Lemma own_between y : own_id x y -> rank y < rank (snap_xmax s) -> in_use y /\ rank (snap_xmin s) <= rank y /\
  topmost y = TopTransactionId x /\ TopTransactionId x ∈ xip e.
Proof.
  intros [Hv Hy] Hlt. pose proof Hx as [_ _ _ Ht Hc]. destruct (Ht Hv) as (Hu & Hle & Et). destruct Hy as [->|Hy].
  - split; [done|]. split; [done|]. split; [done|]. by apply top_listed.
  - destruct (Hc y Hy) as (_ & ? & ? & ?). split; [done|]. split; [lia|]. split; [done|]. apply top_listed; [done|lia].
Qed.

Lemma running_kept y :
  (if suboverflowed s then TransactionIdPrecedes (topmost y) (snap_xmin s) = false /\ topmost y ∈ xip s else y ∈ subxip s \/ y ∈ xip s) ->
  if subxids_dropped maxsub (CommittedChildren x) s then topmost y ∈ xip e else y ∈ subxip s \/ y ∈ CommittedChildren x \/ y ∈ xip e.
Proof.
  pose proof Hx as [_ Hl Hsub _ _]. assert (Hin : forall z, z ∈ xip s -> z ∈ xip e) by (intros z Hz; apply elem_of_app; by left).
  unfold subxids_dropped. destruct (suboverflowed s); cbn [orb]; [intros [_ H]; by apply Hin|].
  destruct (maxsub <? _); [|intros [H|H]; [tauto|right; right; by apply Hin]]. intros [Hy|Hy]; apply Hin; [by apply Hsub|]. by destruct (Hl y Hy) as (_ & _ & ->).
Qed.

Lemma in_exported y : y ∈ xip e -> y ∈ xip s \/ (TransactionIdIsValid (TopTransactionId x) = true /\ y = TopTransactionId x).
Proof.
  cbn [xip exported_data]. rewrite elem_of_app. unfold addTopXid. destruct (TransactionIdIsValid _), (TransactionIdPrecedes _ _); cbn;
    rewrite ?list_elem_of_singleton, ?elem_of_nil; tauto.
Qed.

Lemma running_real y :
  (if subxids_dropped maxsub (CommittedChildren x) s then topmost y ∈ xip e else y ∈ subxip s \/ y ∈ CommittedChildren x \/ y ∈ xip e) ->
  (if suboverflowed s then TransactionIdPrecedes (topmost y) (snap_xmin s) = false /\ topmost y ∈ xip s else y ∈ subxip s \/ y ∈ xip s) \/
  topmost y ∈ xip s \/ (TransactionIdIsValid (TopTransactionId x) = true /\ topmost y = TopTransactionId x).
Proof.
  pose proof Hx as [_ Hl _ Ht Hc]. unfold subxids_dropped. destruct (suboverflowed s); cbn [orb].
  - intros [H|H]%in_exported; tauto.
  - destruct (maxsub <? _); [intros [H|H]%in_exported; tauto|]. intros [Hy|[Hy|[Hy|[Hv ->]]%in_exported]]; [tauto| |tauto|].
    + destruct (Hc y Hy) as (? & _ & _ & ?). tauto.
    + destruct (Ht Hv) as (_ & _ & ?). tauto.
Qed.

Lemma exported_verdict y : in_use y ->
  (XidInMVCCSnapshot topmost y s = true -> XidInMVCCSnapshot topmost y e = true) /\
  (own_id x y -> XidInMVCCSnapshot topmost y e = true) /\
  (XidInMVCCSnapshot topmost y e = true ->
     XidInMVCCSnapshot topmost y s = true \/ topmost y ∈ xip s \/
     (TransactionIdIsValid (TopTransactionId x) = true /\ topmost y = TopTransactionId x)).
Proof.
  intros Hy. pose proof Hx as [(Hm & Hm' & Hmm) Hl Hsub Ht Hc].
  destruct (Z_lt_le_dec (rank y) (rank (snap_xmin s))) as [Hlo|Hlo].
  { rewrite !(snapshot_below_xmin lo topmost) by done. split; [done|]. split; [|done]. intros Ho.
    destruct (own_between y Ho ltac:(lia)) as (_ & ? & _). lia. }
  destruct (Z_lt_le_dec (rank y) (rank (snap_xmax s))) as [Hhi|Hhi]; [|by rewrite !(snapshot_above_xmax lo topmost) by done; tauto].
  rewrite exported_between, (snapshot_between lo topmost s) by done. split; [|split].
  - apply running_kept.
  - intros Ho. destruct (own_between y Ho Hhi) as (_ & _ & Et & Hin). destruct (subxids_dropped _ _ s); [by rewrite Et|].
    destruct Ho as [_ [->|Ho]]; tauto.
  - by apply running_real.
Qed.

End verdict.

(** A snapshot taken during recovery that can be written out in full: it has
    not overflowed, its array fits, and the transaction has no id of its own. *)
Record recovery_exporter (maxsub : Z) (x : XactEnv) (s : SnapshotData) : Prop := {
  rx_taken : takenDuringRecovery s = true;
  rx_complete : suboverflowed s = false;
  rx_room : zlength (subxip s) <= maxsub;
  rx_top : TopTransactionId x = InvalidTransactionId;
  rx_children : CommittedChildren x = [];
}.

Lemma recovery_exported_verdict topmost maxsub x s y : recovery_exporter maxsub x s ->
  XidInMVCCSnapshot topmost y (exported_data x maxsub s) = XidInMVCCSnapshot topmost y s.
Proof.
  intros [Hr Ho Hroom Ht Hc]. unfold XidInMVCCSnapshot. cbn. unfold subxids_dropped. rewrite Hr, Ho, Hc. cbn [orb negb].
  rewrite app_nil_r, (proj2 (Z.ltb_ge _ _)); [done|]. unfold zlength in *. cbn. lia.
Qed.

(** C16. An exported snapshot shows what the exporter sees, if it was taken on
    a primary server, or during recovery with all its ids: not marked as
    overflowed, by a transaction without an id (an overflowed one loses ids,
    as shown further down).  Whether or not the subtransactions' ids of a
    primary's snapshot fit in the file, an id that runs according to the
    snapshot runs according to what importers read; so do the exporter's own id
    and its committed subtransactions, which are not listed in its own snapshot;
    and an id that runs for importers runs for the exporter, is the exporter's
    own, or is a subtransaction of a transaction that runs for the exporter. *)
Theorem exported_snapshot_verdict lo topmost x maxsub s iso dbid maxx : exportable x dbid maxx maxsub s ->
  (takenDuringRecovery s = false /\ exporter lo topmost x s) \/ recovery_exporter maxsub x s ->
  exists i, parse_snapshot maxx maxsub (export_text x iso dbid maxsub s) = ([], inr i) /\
    forall y, in_use lo y ->
    (XidInMVCCSnapshot topmost y s = true -> XidInMVCCSnapshot topmost y (src_snapshot i) = true) /\
    (own_id x y -> XidInMVCCSnapshot topmost y (src_snapshot i) = true) /\
    (XidInMVCCSnapshot topmost y (src_snapshot i) = true ->
       XidInMVCCSnapshot topmost y s = true \/ topmost y ∈ xip s \/
       (TransactionIdIsValid (TopTransactionId x) = true /\ topmost y = TopTransactionId x)).
Proof.
  intros Hex Hs. eexists. split; [by apply export_text_parsed|]. intros y Hy. destruct Hs as [[Hp Hx]|Hs].
  - by apply (exported_verdict lo).
  - cbn [src_snapshot]. rewrite recovery_exported_verdict by done. split; [done|]. split; [|tauto].
    intros [Hv _]. by rewrite (rx_top _ _ _ Hs) in Hv.
Qed.

(** ** Files *)

Lemma put_digits_chars (Q : ascii -> Prop) show base fuel : 0 < base -> (forall d, 0 <= d < base -> Q (show d)) ->
  forall n acc, Forall Q acc -> Forall Q (put_digits show base fuel n acc).
Proof.
  intros Hb Hq. induction fuel as [|fuel IH]; intros n acc Hacc; [done|]. cbn [put_digits].
  assert (H : Forall Q (show (n mod base) :: acc)) by (constructor; [apply Hq; by apply Z.mod_pos_bound|done]). destruct (n <? base); [done|by apply IH].
Qed.

Lemma ten_cases (Q : Z -> Prop) : Forall Q [0; 1; 2; 3; 4; 5; 6; 7; 8; 9] -> forall d, 0 <= d < 10 -> Q d.
Proof. intros H d Hd. rewrite Forall_forall in H. apply H. assert (E : d ∈ seqZ 0 10) by (apply elem_of_seqZ; lia). exact E. Qed.

Lemma sixteen_cases (Q : Z -> Prop) : Forall Q [0; 1; 2; 3; 4; 5; 6; 7; 8; 9; 10; 11; 12; 13; 14; 15] -> forall d, 0 <= d < 16 -> Q d.
Proof. intros H d Hd. rewrite Forall_forall in H. apply H. assert (E : d ∈ seqZ 0 16) by (apply elem_of_seqZ; lia). exact E. Qed.

Abbreviation no_nul := (Forall (fun c => c <> zero)).

Lemma print_u_no_nul n : no_nul (print_u n).
Proof. apply put_digits_chars; [lia| |done]. apply ten_cases. by repeat constructor. Qed.

Lemma print_d_no_nul n : no_nul (print_d n).
Proof. unfold print_d. destruct (n <? 0); [constructor; [done|]|]; apply print_u_no_nul. Qed.

Lemma line_no_nul key v : no_nul (lit key) -> no_nul v -> no_nul (line key v).
Proof. intros H1 H2. unfold line. rewrite !Forall_app. split; [done|]. split; [done|]. by repeat constructor. Qed.

Lemma c_string_id t : no_nul t -> c_string t = t.
Proof. induction 1 as [|c t Hc _ IH]; [done|]. cbn. by rewrite decide_False, IH. Qed.

Lemma lines_no_nul key l : no_nul (lit key) -> no_nul (concat ((fun xid => line key (print_u xid)) <$> l)).
Proof.
  intros Hk. induction l as [|y l IH]; [done|]. cbn. apply Forall_app. split; [|done]. apply line_no_nul; [done|apply print_u_no_nul].
Qed.

Create HintDb text.
#[export] Hint Resolve print_u_no_nul print_d_no_nul : text.
Ltac plain_text := repeat apply Forall_app_2; try (apply line_no_nul || apply lines_no_nul); auto with text; try by repeat constructor.

Lemma export_text_no_nul x iso dbid maxsub s : no_nul (export_text x iso dbid maxsub s).
Proof.
  unfold export_text. do 8 (apply Forall_app_2; [apply line_no_nul; plain_text|]).
  apply Forall_app_2; [plain_text|]. apply Forall_app_2; [destruct (addTopXid _ s); plain_text|].
  apply Forall_app_2; [destruct (subxids_dropped _ _ s)|]; plain_text; plain_text.
Qed.

Lemma forallb_Forall (f : ascii -> bool) t : Forall (fun c => f c = true) t -> forallb f t = true.
Proof. induction 1 as [|c t Hc _ IH]; [done|]. cbn. by rewrite Hc. Qed.

Lemma print_08X_id n : Forall (fun c => id_char c = true) (print_08X n).
Proof.
  unfold print_08X. apply Forall_app_2; [by apply Forall_replicate|]. apply put_digits_chars; [lia| |done]. apply sixteen_cases. by repeat constructor.
Qed.

Lemma print_d_id n : Forall (fun c => id_char c = true) (print_d n).
Proof.
  assert (H : forall n, Forall (fun c => id_char c = true) (print_u n)).
  { intros m. apply put_digits_chars; [lia| |done]. apply ten_cases. by repeat constructor. }
  unfold print_d. destruct (n <? 0); [by constructor|done].
Qed.

(** The names that exports return are accepted, those of temporary files not. *)
Lemma name_accepted vxid n : forallb id_char (snapshot_name vxid n) = true.
Proof.
  apply forallb_Forall. unfold snapshot_name. apply Forall_app_2; [apply print_08X_id|]. apply Forall_app_2; [by repeat constructor|].
  apply Forall_app_2; [apply print_08X_id|]. apply Forall_app_2; [by repeat constructor|apply print_d_id].
Qed.

Lemma temporary_refused name idstr : forallb id_char idstr = true -> snapshot_dir ++ idstr <> (snapshot_dir ++ name) ++ lit ".tmp".
Proof.
  intros Hid E. rewrite <- app_assoc in E. apply app_inv_head in E. subst idstr. rewrite forallb_app in Hid. by rewrite andb_false_r in Hid.
Qed.

Section files.
Context (palloc : gset positive -> positive) `{HP : PredicateLocks}.

(** The copy that an export keeps. *)
Lemma keep_exported_run p o st st' q : objects st !! p = Some o -> keep_exported palloc p st = (st', inr q) ->
  (exists o', objects st' !! q = Some o' /\ snap_data o' = copy_data (snap_data o)) /\ sm_array st' = sm_array st /\ sm_backend st' = sm_backend st.
Proof.
  intros Ho. unfold keep_exported, CopySnapshot, load_snapshot, pbind at 1 2. rewrite Ho. cbn.
  unfold store_snapshot, load_snapshot, pbind, pmod, pret. cbn. rewrite lookup_insert_eq. cbn.
  unfold heap_add, on_heap. destruct (PairingHeap.pairingheap_add _ _ _ _ _) as [n [er|root]]; [done|]. intros [= <- <-]. cbn. rewrite lookup_insert_eq. eauto.
Qed.

(** C33. A failed export publishes nothing.  When [ExportSnapshot] raises an
    error, wherever creating, writing or renaming its file failed and whatever
    was written before, every name that [ImportSnapshot] accepts leads to the
    file it led to before, if any: the half-written file has a name that
    imports refuse. *)
Theorem failed_export_invisible io env x p ex ex' e idstr : ExportSnapshot palloc io env x p ex = (ex', inl e) ->
  forallb id_char idstr = true -> ex_files ex' !! (snapshot_dir ++ idstr) = ex_files ex !! (snapshot_dir ++ idstr).
Proof.
  intros H Hid. unfold ExportSnapshot, on_mgr, pbind, pget, pret, preturn, pmod in H. destruct (IsSubTransaction x); [by injection H as <- _|].
  destruct (keep_exported palloc p _) as [st1 [er|q]]; [by injection H as <- _|]. cbn [ex_mgr ex_files] in H.
  destruct (load_snapshot q st1) as [st2 [er|o]]; [by injection H as <- _|]. cbn [ex_mgr ex_files] in H.
  unfold write_file, pbind, preturn, pmod in H. destruct io; cbn [ex_mgr ex_files] in H; try done; injection H as <- _; cbn [ex_files]; try done;
    apply lookup_insert_ne; intros E; symmetry in E; exact (temporary_refused _ _ Hid E).
Qed.
End files.

(** ** From export to import *)

Lemma exported_copy x maxsub d : exported_data x maxsub (copy_data d) = exported_data x maxsub d.
Proof.
  unfold exported_data, subxids_dropped. cbn. destruct (suboverflowed d) eqn:E; cbn; [done|]. unfold keeps_subxip. by rewrite E.
Qed.

Lemma exportable_copy x dbid maxx maxsub d : exportable x dbid maxx maxsub d -> exportable x dbid maxx maxsub (copy_data d).
Proof. intros [H1 H2 H3 H4 [H5 H6] H7 H8 H9]. split; try done. split; [done|]. cbn. by destruct (keeps_subxip d). Qed.

(** What identifies the source. *)
Definition valid_source (x : XactEnv) (dbid : Z) (d : SnapshotData) : Prop :=
  localTransactionId (MyVxid x) <> 0 /\ dbid <> InvalidOid /\ TransactionIdIsNormal (snap_xmin d) = true /\ TransactionIdIsNormal (snap_xmax d) = true.

(** A transaction [x'] that may adopt a snapshot of [x]. *)
Record may_import (env : CallEnv) (x : XactEnv) (st : SnapMgr) (env' : CallEnv) (x' : XactEnv) (st' : SnapMgr) : Prop := {
  mi_first : FirstSnapshotSet st' = false /\ TransactionIdIsValid (TopTransactionId x') = false /\ IsSubTransaction x' = false;
  mi_iso : IsolationUsesXactSnapshot (XactIsoLevel env') = true;
  mi_serializable : IsolationIsSerializable (XactIsoLevel env') = true ->
    XactIsoLevel env = XACT_SERIALIZABLE /\ (XactReadOnly x = true -> XactReadOnly x' = true);
  mi_database : MyDatabaseId (sm_backend st') = MyDatabaseId (sm_backend st);
  mi_array : maxProcs (sm_array st') = maxProcs (sm_array st);
}.

Lemma serial_guards env env' (ro ro' : bool) : (IsolationIsSerializable (XactIsoLevel env') = true -> XactIsoLevel env = XACT_SERIALIZABLE /\ (ro = true -> ro' = true)) ->
  IsolationIsSerializable (XactIsoLevel env') && negb (iso_code (XactIsoLevel env) =? iso_code XACT_SERIALIZABLE) = false /\
  IsolationIsSerializable (XactIsoLevel env') && ro && negb ro' = false.
Proof.
  intros H. destruct (IsolationIsSerializable (XactIsoLevel env')); [|done]. destruct (H eq_refl) as [-> Hr]. cbn. split; [done|].
  destruct ro; [|done]. by rewrite Hr.
Qed.

Section exchange.
Context (lo : Z) (topmost : Z -> Z) (Htop : topmost_ok lo topmost) (my : nat).
Context (palloc : gset positive -> positive) (Hpalloc : forall d, palloc d ∉ d).
Context `{HP : PredicateLocks} `{HL : !PredicateLocksLaws}.

Lemma import_reads env x st d files name vxids env' x' st' : valid_source x (MyDatabaseId (sm_backend st)) d ->
  exportable x (MyDatabaseId (sm_backend st)) (GetMaxSnapshotXidCount (sm_array st)) (GetMaxSnapshotSubxidCount (sm_array st)) d ->
  may_import env x st env' x' st' -> forallb id_char name = true ->
  files !! (snapshot_dir ++ name) = Some (export_text x (XactIsoLevel env) (MyDatabaseId (sm_backend st)) (GetMaxSnapshotSubxidCount (sm_array st)) d) ->
  ImportSnapshot palloc true env' x' vxids name (MkExchange st' files) =
  on_mgr (SetTransactionSnapshot palloc env' vxids (exported_data x (GetMaxSnapshotSubxidCount (sm_array st)) d) (Some (MyVxid x)) None) (MkExchange st' files).
Proof.
  intros (Hlx & Hdb & Hn1 & Hn2) Hex [(F1 & F2 & F3) Hiso Hser Hdb' Har] Hid Hf. unfold ImportSnapshot, pbind, pget. cbn [ex_mgr ex_files].
  rewrite F1, F2, F3, Hiso, Hid. cbn [orb negb ex_mgr ex_files]. rewrite Hf. cbn [orb negb ex_mgr ex_files].
  assert (Hne : (length (export_text x (XactIsoLevel env) (MyDatabaseId (sm_backend st)) (GetMaxSnapshotSubxidCount (sm_array st)) d) =? 0)%nat = false) by done.
  rewrite Hne. cbn [ex_mgr ex_files].
  assert (Em : GetMaxSnapshotXidCount (sm_array st') = GetMaxSnapshotXidCount (sm_array st) /\ GetMaxSnapshotSubxidCount (sm_array st') = GetMaxSnapshotSubxidCount (sm_array st))
    by (unfold GetMaxSnapshotXidCount, GetMaxSnapshotSubxidCount; by rewrite Har).
  destruct Em as [-> ->].
  rewrite c_string_id, export_text_parsed by (done || apply export_text_no_nul). cbn [snd].
  assert (Hsane : forall i, src_vxid i = MyVxid x -> src_dbid i = MyDatabaseId (sm_backend st) -> snap_xmin (src_snapshot i) = snap_xmin d ->
    snap_xmax (src_snapshot i) = snap_xmax d -> sane i = true).
  { intros i E1 E2 E3 E4. unfold sane, VirtualTransactionIdIsValid. rewrite E1, E2, E3, E4, Hn1, Hn2. apply Z.eqb_neq in Hlx, Hdb. by rewrite Hlx, Hdb. }
  rewrite Hsane by done. cbn [negb src_isolevel src_readonly src_dbid src_vxid src_snapshot].
  destruct (serial_guards env env' (XactReadOnly x) (XactReadOnly x') Hser) as [-> ->]. by rewrite Hdb', Z.eqb_refl.
Qed.

(** C15. What is exported can be imported.  When a transaction that may do so
    exports a snapshot it holds, [ExportSnapshot] succeeds unless the file
    system fails, and keeps the snapshot manager in order; any transaction of
    the same database that may import, given the name that the export returned,
    finds the file, accepts it, and hands to [SetTransactionSnapshot] exactly
    the exporter's snapshot extended with the exporter's own ids, along with
    the exporter's virtual transaction id. *)
Theorem export_then_import pa be s p o files env x : reachable lo topmost my palloc pa be s -> ses_phase s = InXact ->
  held (ses_mgr s) p -> objects (ses_mgr s) !! p = Some o -> IsSubTransaction x = false ->
  let st := ses_mgr s in
  let dbid := MyDatabaseId (sm_backend st) in
  let maxsub := GetMaxSnapshotSubxidCount (sm_array st) in
  valid_source x dbid (snap_data o) -> exportable x dbid (GetMaxSnapshotXidCount (sm_array st)) maxsub (snap_data o) ->
  exists st1 files1 name, ExportSnapshot palloc FileDone env x p (MkExchange st files) = (MkExchange st1 files1, inr name) /\
    snapmgr_ok lo my (array_ok lo topmost my) st1 /\
    forall vxids env' x' st', may_import env x st env' x' st' ->
    ImportSnapshot palloc true env' x' vxids name (MkExchange st' files1) =
    on_mgr (SetTransactionSnapshot palloc env' vxids (exported_data x maxsub (snap_data o)) (Some (MyVxid x)) None) (MkExchange st' files1).
Proof.
  intros Hr Hph Hh Ho Hsub st dbid maxsub Hv Hex. destruct (reachable_xact lo topmost Htop my palloc Hpalloc _ _ _ Hr Hph) as [Hok _].
  pose proof (primary_laws lo topmost Htop my) as HA.
  pose proof (export_gives lo my _ palloc Hpalloc st p o Hok Ho (ok_covered _ _ _ _ _ Hok Hh)) as Hw. unfold wp in Hw.
  destruct (keep_exported palloc p st) as [st1 [er|q]] eqn:Ek; cbn [fst snd] in Hw.
  { done. }
  destruct (keep_exported_run palloc p o st st1 q Ho Ek) as ((o' & Ho' & Ed) & Ea & Eb). destruct Hw as (Hok1 & _).
  unfold ExportSnapshot, on_mgr. rewrite Hsub. unfold pbind, pget. cbn [ex_mgr ex_files]. rewrite Ek. cbn [ex_mgr ex_files]. unfold load_snapshot. cbn [ex_mgr ex_files]. rewrite Ho'.
  unfold write_file, pmod, pret. cbn [ex_mgr ex_files]. rewrite Ea, Eb, Ed. eexists _, _, _. split; [done|]. split; [done|]. intros vxids env' x' st' Hmi.
  unfold maxsub. rewrite <- exported_copy. apply (import_reads env x st); [done|by apply exportable_copy|done|apply name_accepted|apply lookup_insert_eq].
Qed.
End exchange.

(** ** A snapshot taken during recovery *)

(** C32. An exported snapshot can lose transactions.  A snapshot taken during
    recovery lists all running ids in subxip, and when it is marked as
    overflowed [ExportSnapshot] leaves that array out: every transaction that
    runs according to the snapshot and whose id is below its xmax is finished
    according to what importers read, although [CopySnapshot] and
    [SerializeSnapshot] keep the array in this case. *)
Theorem exported_recovery_snapshot_loses topmost x iso dbid maxx maxsub s : exportable x dbid maxx maxsub s ->
  takenDuringRecovery s = true -> suboverflowed s = true ->
  exists i, parse_snapshot maxx maxsub (export_text x iso dbid maxsub s) = ([], inr i) /\
    forall y, TransactionIdFollowsOrEquals y (snap_xmax s) = false ->
    XidInMVCCSnapshot topmost y (src_snapshot i) = false /\ XidInMVCCSnapshot topmost y (copy_data s) = XidInMVCCSnapshot topmost y s.
Proof.
  intros Hex Hr Ho. eexists. split; [by apply export_text_parsed|]. intros y Hf. split; [|apply copy_verdict].
  unfold XidInMVCCSnapshot. cbn. unfold subxids_dropped. rewrite Hr, Ho, Hf. cbn.
  by destruct (TransactionIdPrecedes y (snap_xmin s)), (TransactionIdPrecedes (topmost y) (snap_xmin s)).
Qed.

(** ** Examples

    Transaction 11, with the committed subtransaction 15, holds the snapshot
    that it took while 10 (with 12) and 14 ran. *)

Lemma serialized_snapshot_restored_witness :
  exists k o', SerializeSnapshot (MkObject demo_source 1 0 false 7 8) (MkChunk None [0; 0; 0]) = (k, inr tt) /\
    RestoreSnapshot demo_source k = (k, inr o') /\ XidInMVCCSnapshot demo_top 12 (snap_data o') = true.
Proof.
  destruct (serialized_snapshot_restored (MkObject demo_source 1 0 false 7 8) demo_source (MkChunk None [0; 0; 0]) eq_refl) as (k & o' & H1 & H2 & H).
  exists k, o'. split; [done|]. split; [done|]. destruct H as (_ & _ & _ & _ & _ & _ & _ & _ & H). by rewrite H.
Defined.

Definition demo_xact : XactEnv := MkXactEnv 11 false [15] (MkVxid 1 1) 4711 false.
Definition demo_tops (y : Z) : Z := if y =? 12 then 10 else if y =? 15 then 11 else y.

Lemma demo_exporter : exporter 3 demo_tops demo_xact demo_source.
Proof.
  split.
  - split; [by apply demo_in_use|]. split; [by apply demo_in_use|by vm_compute].
  - intros y [->| ->%list_elem_of_singleton]%elem_of_cons; (split; [by apply demo_in_use|by vm_compute]).
  - intros y ->%list_elem_of_singleton. vm_compute. left.
  - intros _. split; [by apply demo_in_use|by vm_compute].
  - intros y ->%list_elem_of_singleton. split; [done|]. split; [by apply demo_in_use|by vm_compute].
Qed.

Lemma demo_exported : exportable demo_xact 5 8 1 demo_source.
Proof. split; try done; cbn; unfold is_u32; repeat constructor; lia. Qed.

(** A standby's session, with a snapshot that lists 10 and 12. *)
Definition demo_standby_session : XactEnv := MkXactEnv InvalidTransactionId true [] (MkVxid 1 1) 4711 false.
Definition demo_recovery_source : SnapshotData := MkSnapshot SNAPSHOT_MVCC 10 14 [] [10; 12] false true 0 0 VISHORIZON_SHARED 0.

Lemma demo_recovery_exported : exportable demo_standby_session 5 8 2 demo_recovery_source.
Proof. split; try done; cbn; unfold is_u32; repeat constructor; lia. Qed.

Lemma exported_snapshot_verdict_witness :
  (exists i, parse_snapshot 8 1 (export_text demo_xact XACT_REPEATABLE_READ 5 1 demo_source) = ([], inr i) /\
    XidInMVCCSnapshot demo_tops 12 (src_snapshot i) = true /\ XidInMVCCSnapshot demo_tops 15 (src_snapshot i) = true) /\
  (exists i, parse_snapshot 8 2 (export_text demo_standby_session XACT_REPEATABLE_READ 5 2 demo_recovery_source) = ([], inr i) /\
    XidInMVCCSnapshot demo_tops 12 (src_snapshot i) = true).
Proof.
  split.
  - destruct (exported_snapshot_verdict 3 demo_tops demo_xact 1 demo_source XACT_REPEATABLE_READ 5 8 demo_exported
      (or_introl (conj eq_refl demo_exporter))) as (i & Hi & H).
    exists i. split; [done|]. split.
    + destruct (H 12 ltac:(by apply demo_in_use)) as (H1 & _ & _). apply H1. by vm_compute.
    + destruct (H 15 ltac:(by apply demo_in_use)) as (_ & H2 & _). apply H2. split; [done|]. right. left.
  - destruct (exported_snapshot_verdict 3 demo_tops demo_standby_session 2 demo_recovery_source XACT_REPEATABLE_READ 5 8 demo_recovery_exported) as (i & Hi & H).
    { right. split; reflexivity. }
    exists i. split; [done|]. destruct (H 12 ltac:(by apply demo_in_use)) as (H1 & _ & _). apply H1. by vm_compute.
Defined.

Definition demo_failed : Exchange * (ExchangeError + text) :=
  ExportSnapshot demo_palloc (WriteFails (lit "vxid:")) demo_env demo_xact 5%positive (MkExchange demo_mgr1 ∅).

Lemma failed_export_invisible_witness :
  demo_failed.2 = inl FileAccess /\ ex_files demo_failed.1 !! (snapshot_dir ++ lit "00000001-00000001-1") = None.
Proof.
  assert (E : demo_failed.2 = inl FileAccess) by (by vm_compute). split; [done|].
  rewrite (failed_export_invisible demo_palloc (WriteFails (lit "vxid:")) demo_env demo_xact 5%positive (MkExchange demo_mgr1 ∅) demo_failed.1 FileAccess
    (lit "00000001-00000001-1")).
  - apply lookup_empty.
  - rewrite <- E. apply surjective_pairing.
  - by vm_compute.
Defined.

(** A transaction without an id. *)
Definition demo_reader : XactEnv := MkXactEnv 0 false [] (MkVxid 1 1) 4711 false.

Definition demo_recovery : SnapshotData := MkSnapshot SNAPSHOT_MVCC 10 16 [] [10; 14] true true 0 0 VISHORIZON_SHARED 0.

Lemma exported_recovery_snapshot_loses_witness :
  XidInMVCCSnapshot demo_top 14 demo_recovery = true /\
  exists i, parse_snapshot 8 100 (export_text demo_reader XACT_REPEATABLE_READ 5 100 demo_recovery) = ([], inr i) /\
    XidInMVCCSnapshot demo_top 14 (src_snapshot i) = false.
Proof.
  split; [by vm_compute|].
  destruct (exported_recovery_snapshot_loses demo_top demo_reader XACT_REPEATABLE_READ 5 8 100 demo_recovery) as (i & Hi & H).
  - split; try done; cbn; unfold is_u32; repeat constructor; lia.
  - done.
  - done.
  - exists i. split; [done|]. by apply (H 14).
Defined.

(** Backend 0 exports the snapshot of [demo_mgr1]; another backend of the same
    database, seen here as it starts, imports it. *)

Lemma demo_exportable dbid maxx maxsub : is_u32 dbid -> 3 <= maxx < 0x80000000 -> maxsub < 0x80000000 ->
  exportable demo_reader dbid maxx maxsub (MkSnapshot SNAPSHOT_MVCC 10 16 [10; 14] [12] false false 1 0 VISHORIZON_SHARED 0).
Proof. intros H1 H2 H3. split; try done; cbn; unfold is_u32; repeat constructor; lia. Qed.

Lemma export_then_import_witness :
  exists st1 files1 name, ExportSnapshot demo_palloc FileDone demo_env demo_reader 5%positive (MkExchange demo_mgr1 ∅) = (MkExchange st1 files1, inr name) /\
    (ImportSnapshot demo_palloc true demo_env demo_reader demo_vxids name (MkExchange demo_mgr0 files1)).2 = inr tt.
Proof.
  destruct (objects demo_mgr1 !! 5%positive) as [o|] eqn:Ho; [|by vm_compute in Ho].
  assert (Ed : snap_data o = MkSnapshot SNAPSHOT_MVCC 10 16 [10; 14] [12] false false 1 0 VISHORIZON_SHARED 0).
  { vm_compute in Ho. by injection Ho as <-. }
  destruct (export_then_import 3 demo_top demo_topmost_ok 0 demo_palloc demo_palloc_new demo_pa demo_be (demo_session demo_mgr1) 5%positive o ∅ demo_env demo_reader
    demo_reachable1 eq_refl) as (st1 & files1 & name & H1 & _ & H2).
  - left. vm_compute. left.
  - exact Ho.
  - done.
  - rewrite Ed. by vm_compute.
  - rewrite Ed. apply demo_exportable; by vm_compute.
  - exists st1, files1, name. split; [exact H1|]. rewrite H2.
    + rewrite Ed. by vm_compute.
    + split; [repeat split|done|intros Hs; discriminate Hs|by vm_compute|by vm_compute].
Defined.
