(* ===== verification/Slru.v ===== *)
(** * The SLRU page cache

    [src/backend/access/transam/slru.c]: the simple LRU cache that holds pages
    of pg_xact and pg_subtrans in shared memory.  Each buffer slot is a record
    (the C code keeps one array per field), the segment files are lists of
    pages keyed by segment number, and the position up to which WAL has been
    flushed is part of the state because writing a page may have to advance
    it.  The functions run with the bank lock held and without interference
    while it is dropped for I/O; system calls may fail, as told by the two
    fault oracles of [SlruCtl]. *)

From S2P Require Import Prelude.

Definition BLCKSZ : Z := 8192.
Definition SLRU_PAGES_PER_SEGMENT : Z := 32.
Definition SLRU_BANK_BITSHIFT : Z := 4.
Definition SLRU_BANK_SIZE : Z := 16.

Inductive SlruPageStatus :=
| SLRU_PAGE_EMPTY
| SLRU_PAGE_READ_IN_PROGRESS
| SLRU_PAGE_VALID
| SLRU_PAGE_WRITE_IN_PROGRESS.

#[export] Instance SlruPageStatus_eq_dec : EqDecision SlruPageStatus.
Proof. solve_decision. Defined.

Inductive SlruErrorCause :=
| SLRU_OPEN_FAILED
| SLRU_SEEK_FAILED
| SLRU_READ_FAILED
| SLRU_WRITE_FAILED
| SLRU_FSYNC_FAILED
| SLRU_CLOSE_FAILED.

(** [ereport(ERROR)] from [SlruReportIOError], or a loop that ran out of the
    fuel given to it (shown impossible below). *)
Inductive SlruError :=
| SlruIOError (cause : SlruErrorCause) (pageno : Z)
| SlruOutOfFuel.

Record Slot := MkSlot {
  page_buffer : list Z;
  page_status : SlruPageStatus;
  page_dirty : bool;
  page_number : Z;
  page_lru_count : Z;
  group_lsn : list Z;
}.

#[export] Instance Slot_inhabited : Inhabited Slot :=
  populate (MkSlot [] SLRU_PAGE_EMPTY false 0 0 []).

Record SlruCtl := MkSlruCtl {
  nbanks : Z;
  lsn_groups_per_page : Z;
  PagePrecedes : Z -> Z -> bool;
  InRecovery : bool;
  read_fault : Z -> option SlruErrorCause;
  write_fault : Z -> option SlruErrorCause;
}.

Record Slru := MkSlru {
  slots : list Slot;
  bank_cur_lru_count : list Z;
  latest_page_number : Z;
  files : gmap Z (list (list Z));
  wal_flushed : Z;
}.

Definition set_slots (st : Slru) (l : list Slot) : Slru :=
  MkSlru l (bank_cur_lru_count st) (latest_page_number st) (files st) (wal_flushed st).
Definition set_bank_counts (st : Slru) (l : list Z) : Slru :=
  MkSlru (slots st) l (latest_page_number st) (files st) (wal_flushed st).
Definition set_latest (st : Slru) (p : Z) : Slru :=
  MkSlru (slots st) (bank_cur_lru_count st) p (files st) (wal_flushed st).
Definition set_files (st : Slru) (f : gmap Z (list (list Z))) : Slru :=
  MkSlru (slots st) (bank_cur_lru_count st) (latest_page_number st) f (wal_flushed st).
Definition set_wal_flushed (st : Slru) (l : Z) : Slru :=
  MkSlru (slots st) (bank_cur_lru_count st) (latest_page_number st) (files st) l.

Definition slot (st : Slru) (slotno : Z) : Slot := znth (slots st) slotno.
Definition upd_slot (st : Slru) (slotno : Z) (f : Slot -> Slot) : Slru :=
  set_slots st (zupd (slots st) slotno (f (slot st slotno))).

Definition slot_set_status (x : SlruPageStatus) (s : Slot) : Slot :=
  MkSlot (page_buffer s) x (page_dirty s) (page_number s) (page_lru_count s) (group_lsn s).
Definition slot_set_dirty (x : bool) (s : Slot) : Slot :=
  MkSlot (page_buffer s) (page_status s) x (page_number s) (page_lru_count s) (group_lsn s).
Definition slot_set_number (x : Z) (s : Slot) : Slot :=
  MkSlot (page_buffer s) (page_status s) (page_dirty s) x (page_lru_count s) (group_lsn s).
Definition slot_set_lru (x : Z) (s : Slot) : Slot :=
  MkSlot (page_buffer s) (page_status s) (page_dirty s) (page_number s) x (group_lsn s).
Definition slot_set_buffer (x : list Z) (s : Slot) : Slot :=
  MkSlot x (page_status s) (page_dirty s) (page_number s) (page_lru_count s) (group_lsn s).
Definition slot_set_lsns (x : list Z) (s : Slot) : Slot :=
  MkSlot (page_buffer s) (page_status s) (page_dirty s) (page_number s) (page_lru_count s) x.

(** The shared state of a new postmaster, over whatever files there are. *)
Definition SimpleLruInit (nslots nlsns : Z) (fs : gmap Z (list (list Z))) (wal : Z) : Slru :=
  MkSlru
    (replicate (Z.to_nat nslots)
       (MkSlot (replicate (Z.to_nat BLCKSZ) 0) SLRU_PAGE_EMPTY false 0 0 (replicate (Z.to_nat nlsns) 0)))
    (replicate (Z.to_nat (nslots / SLRU_BANK_SIZE)) 0) 0 fs wal.

Definition SLRU_MAX_ALLOWED_BUFFERS : Z := (1024 * 1024 * 1024) / BLCKSZ.

Definition SimpleLruAutotuneBuffers (NBuffers divisor max : Z) : Z :=
  Z.min (max - max mod SLRU_BANK_SIZE)
    (Z.max SLRU_BANK_SIZE (NBuffers / divisor - (NBuffers / divisor) mod SLRU_BANK_SIZE)).

Definition check_slru_buffers (newval : Z) : bool := newval mod SLRU_BANK_SIZE =? 0.

Definition status_is (st : Slru) (slotno : Z) (x : SlruPageStatus) : bool :=
  bool_decide (page_status (slot st slotno) = x).

Definition zero_page : list Z := replicate (Z.to_nat BLCKSZ) 0.

(** [SlotGetBankNumber(slotno)] *)
Definition SlotGetBankNumber (slotno : Z) : Z := Z.shiftr slotno SLRU_BANK_BITSHIFT.

(** The slots [bankstart .. bankend - 1] of the bank of a page. *)
Definition bank_slotnos (ctl : SlruCtl) (pageno : Z) : list Z :=
  let bankstart := (pageno mod nbanks ctl) * SLRU_BANK_SIZE in
  (fun k => bankstart + Z.of_nat k) <$> seq 0 (Z.to_nat SLRU_BANK_SIZE).

(** [for (slotno = ...) if (cond) return slotno;] *)
Fixpoint find_slot (st : Slru) (cond : Slot -> bool) (slotnos : list Z) : option Z :=
  match slotnos with
  | [] => None
  | n :: rest => if cond (slot st n) then Some n else find_slot st cond rest
  end.

(** ** Files *)

Definition seg_of (pageno : Z) : Z := pageno / SLRU_PAGES_PER_SEGMENT.
Definition seg_index (pageno : Z) : nat := Z.to_nat (pageno mod SLRU_PAGES_PER_SEGMENT).

(** [pg_pwrite] at page [r] of a segment file; a gap before it reads as zeroes. *)
Definition pwrite_page (f : list (list Z)) (r : nat) (buf : list Z) : list (list Z) :=
  if bool_decide (r < length f)%nat then <[r := buf]> f
  else f ++ replicate (r - length f) zero_page ++ [buf].

Definition file_page (st : Slru) (pageno : Z) : option (list Z) :=
  files st !! seg_of pageno ≫= fun f => f !! seg_index pageno.

(** Whether the read succeeded; a missing file reads as zeroes in recovery. *)
Definition SlruPhysicalReadPage (ctl : SlruCtl) (pageno slotno : Z) (st : Slru)
  : Slru * option SlruErrorCause :=
  match read_fault ctl pageno with
  | Some e => (st, Some e)
  | None =>
      match files st !! seg_of pageno with
      | None =>
          if InRecovery ctl then (upd_slot st slotno (slot_set_buffer zero_page), None)
          else (st, Some SLRU_OPEN_FAILED)
      | Some f =>
          match f !! seg_index pageno with
          | None => (st, Some SLRU_READ_FAILED)
          | Some buf => (upd_slot st slotno (slot_set_buffer buf), None)
          end
      end
  end.

(** The largest LSN of the slot's groups. *)
Definition max_group_lsn (s : Slot) : Z :=
  match group_lsn s with
  | [] => 0
  | l0 :: rest => foldl (fun max_lsn this_lsn => if max_lsn <? this_lsn then this_lsn else max_lsn) l0 rest
  end.

(** WAL is flushed up to the newest LSN of the page before the page is written. *)
Definition SlruPhysicalWritePage (ctl : SlruCtl) (pageno slotno : Z) (st : Slru)
  : Slru * option SlruErrorCause :=
  let st :=
    if 0 <? lsn_groups_per_page ctl then
      let max_lsn := max_group_lsn (slot st slotno) in
      if max_lsn =? 0 then st else set_wal_flushed st (Z.max (wal_flushed st) max_lsn)
    else st in
  match write_fault ctl pageno with
  | Some e => (st, Some e)
  | None =>
      let f := default [] (files st !! seg_of pageno) in
      (set_files st (<[seg_of pageno :=
         pwrite_page f (seg_index pageno) (page_buffer (slot st slotno))]> (files st)), None)
  end.

(** ** Cache operations *)

Definition SimpleLruZeroLSNs (ctl : SlruCtl) (slotno : Z) (st : Slru) : Slru :=
  if 0 <? lsn_groups_per_page ctl
  then upd_slot st slotno (slot_set_lsns (replicate (Z.to_nat (lsn_groups_per_page ctl)) 0))
  else st.

(** The buffer lock is free once we get it, so an in-progress state means that
    the I/O failed without resetting it. *)
Definition SimpleLruWaitIO (slotno : Z) (st : Slru) : Slru :=
  if status_is st slotno SLRU_PAGE_READ_IN_PROGRESS
  then upd_slot st slotno (slot_set_status SLRU_PAGE_EMPTY)
  else if status_is st slotno SLRU_PAGE_WRITE_IN_PROGRESS
  then upd_slot st slotno (fun s => slot_set_dirty true (slot_set_status SLRU_PAGE_VALID s))
  else st.

Definition SlruRecentlyUsed (slotno : Z) (st : Slru) : Slru :=
  let bankno := SlotGetBankNumber slotno in
  let new_lru_count := znth (bank_cur_lru_count st) bankno in
  if new_lru_count =? page_lru_count (slot st slotno) then st
  else
    let new_lru_count := i32 (new_lru_count + 1) in
    upd_slot (set_bank_counts st (zupd (bank_cur_lru_count st) bankno new_lru_count))
      slotno (slot_set_lru new_lru_count).

(** [while (WRITE_IN_PROGRESS && same page) SimpleLruWaitIO]: waiting leaves the
    slot in another state, so one round suffices. *)
Definition SlruInternalWritePage (ctl : SlruCtl) (slotno : Z) : prog Slru SlruError unit :=
  fun st =>
  let pageno := page_number (slot st slotno) in
  let st :=
    if status_is st slotno SLRU_PAGE_WRITE_IN_PROGRESS then SimpleLruWaitIO slotno st else st in
  if negb (page_dirty (slot st slotno)) || negb (status_is st slotno SLRU_PAGE_VALID)
     || negb (page_number (slot st slotno) =? pageno)
  then (st, inr tt)
  else
    let st := upd_slot st slotno
      (fun s => slot_set_dirty false (slot_set_status SLRU_PAGE_WRITE_IN_PROGRESS s)) in
    let '(st, failed) := SlruPhysicalWritePage ctl pageno slotno st in
    match failed with
    | Some e =>
        let st := upd_slot st slotno
          (fun s => slot_set_status SLRU_PAGE_VALID (slot_set_dirty true s)) in
        (st, inl (SlruIOError e pageno))
    | None => (upd_slot st slotno (slot_set_status SLRU_PAGE_VALID), inr tt)
    end.

Definition SimpleLruWritePage (ctl : SlruCtl) (slotno : Z) : prog Slru SlruError unit :=
  SlruInternalWritePage ctl slotno.

(** The two victim candidates tracked while scanning a bank. *)
Record LRUScan := MkLRUScan {
  bestvalidslot : Z;
  best_valid_delta : Z;
  best_valid_page_number : Z;
  bestinvalidslot : Z;
  best_invalid_delta : Z;
  best_invalid_page_number : Z;
}.

Definition scan_init : LRUScan := MkLRUScan 0 (-1) 0 0 (-1) 0.

(** One pass over the bank; an EMPTY slot is returned at once. *)
Fixpoint SlruSelectLRUPage_scan (ctl : SlruCtl) (cur_count : Z) (slotnos : list Z)
    (best : LRUScan) (st : Slru) : Slru * (Z + LRUScan) :=
  match slotnos with
  | [] => (st, inr best)
  | slotno :: rest =>
      if status_is st slotno SLRU_PAGE_EMPTY then (st, inl slotno)
      else
        let this_delta := i32 (cur_count - page_lru_count (slot st slotno)) in
        let '(st, this_delta) :=
          if this_delta <? 0 then (upd_slot st slotno (slot_set_lru cur_count), 0)
          else (st, this_delta) in
        let this_page_number := page_number (slot st slotno) in
        if this_page_number =? latest_page_number st
        then SlruSelectLRUPage_scan ctl cur_count rest best st
        else if status_is st slotno SLRU_PAGE_VALID then
          let best :=
            if (best_valid_delta best <? this_delta)
               || (this_delta =? best_valid_delta best)
                  && PagePrecedes ctl this_page_number (best_valid_page_number best)
            then MkLRUScan slotno this_delta this_page_number
                   (bestinvalidslot best) (best_invalid_delta best) (best_invalid_page_number best)
            else best in
          SlruSelectLRUPage_scan ctl cur_count rest best st
        else
          let best :=
            if (best_invalid_delta best <? this_delta)
               || (this_delta =? best_invalid_delta best)
                  && PagePrecedes ctl this_page_number (best_invalid_page_number best)
            then MkLRUScan (bestvalidslot best) (best_valid_delta best) (best_valid_page_number best)
                   slotno this_delta this_page_number
            else best in
          SlruSelectLRUPage_scan ctl cur_count rest best st
  end.

Fixpoint SlruSelectLRUPage_loop (fuel : nat) (ctl : SlruCtl) (pageno : Z)
  : prog Slru SlruError Z :=
  fun st =>
  match fuel with
  | O => (st, inl SlruOutOfFuel)
  | S fuel =>
      let bankno := pageno mod nbanks ctl in
      match find_slot st (fun s => negb (bool_decide (page_status s = SLRU_PAGE_EMPTY))
                                   && (page_number s =? pageno)) (bank_slotnos ctl pageno) with
      | Some slotno => (st, inr slotno)
      | None =>
          let cur_count := znth (bank_cur_lru_count st) bankno in
          let st := set_bank_counts st
            (zupd (bank_cur_lru_count st) bankno (i32 (cur_count + 1))) in
          match SlruSelectLRUPage_scan ctl cur_count (bank_slotnos ctl pageno) scan_init st with
          | (st, inl slotno) => (st, inr slotno)
          | (st, inr best) =>
              if best_valid_delta best <? 0 then
                SlruSelectLRUPage_loop fuel ctl pageno (SimpleLruWaitIO (bestinvalidslot best) st)
              else if negb (page_dirty (slot st (bestvalidslot best)))
              then (st, inr (bestvalidslot best))
              else
                match SlruInternalWritePage ctl (bestvalidslot best) st with
                | (st, inl e) => (st, inl e)
                | (st, inr _) => SlruSelectLRUPage_loop fuel ctl pageno st
                end
          end
      end
  end.

(** Each restart has cleaned one more slot of the bank. *)
Definition SlruSelectLRUPage (ctl : SlruCtl) (pageno : Z) : prog Slru SlruError Z :=
  SlruSelectLRUPage_loop (S (Z.to_nat SLRU_BANK_SIZE)) ctl pageno.

Definition SimpleLruZeroPage (ctl : SlruCtl) (pageno : Z) : prog Slru SlruError Z :=
  (slotno <- SlruSelectLRUPage ctl pageno ;;
   pmod (fun st => upd_slot st slotno (slot_set_number pageno)) ;;;
   pmod (fun st => upd_slot st slotno (slot_set_status SLRU_PAGE_VALID)) ;;;
   pmod (fun st => upd_slot st slotno (slot_set_dirty true)) ;;;
   pmod (SlruRecentlyUsed slotno) ;;;
   pmod (fun st => upd_slot st slotno (slot_set_buffer zero_page)) ;;;
   pmod (SimpleLruZeroLSNs ctl slotno) ;;;
   pmod (fun st => set_latest st pageno) ;;;
   pret slotno)%prog.

Fixpoint SimpleLruReadPage_loop (fuel : nat) (ctl : SlruCtl) (pageno : Z) (write_ok : bool)
  : prog Slru SlruError Z :=
  fun st =>
  match fuel with
  | O => (st, inl SlruOutOfFuel)
  | S fuel =>
      match SlruSelectLRUPage ctl pageno st with
      | (st, inl e) => (st, inl e)
      | (st, inr slotno) =>
          if negb (status_is st slotno SLRU_PAGE_EMPTY) && (page_number (slot st slotno) =? pageno)
          then
            if status_is st slotno SLRU_PAGE_READ_IN_PROGRESS
               || status_is st slotno SLRU_PAGE_WRITE_IN_PROGRESS && negb write_ok
            then SimpleLruReadPage_loop fuel ctl pageno write_ok (SimpleLruWaitIO slotno st)
            else (SlruRecentlyUsed slotno st, inr slotno)
          else
            let st := upd_slot st slotno (slot_set_number pageno) in
            let st := upd_slot st slotno (slot_set_status SLRU_PAGE_READ_IN_PROGRESS) in
            let st := upd_slot st slotno (slot_set_dirty false) in
            let '(st, failed) := SlruPhysicalReadPage ctl pageno slotno st in
            let st := SimpleLruZeroLSNs ctl slotno st in
            match failed with
            | Some e =>
                (upd_slot st slotno (slot_set_status SLRU_PAGE_EMPTY),
                 inl (SlruIOError e pageno))
            | None =>
                let st := upd_slot st slotno (slot_set_status SLRU_PAGE_VALID) in
                (SlruRecentlyUsed slotno st, inr slotno)
            end
      end
  end.

(** Waiting for I/O happens at most twice in a row when nobody interferes. *)
Definition SimpleLruReadPage (ctl : SlruCtl) (pageno : Z) (write_ok : bool)
  : prog Slru SlruError Z :=
  SimpleLruReadPage_loop 3 ctl pageno write_ok.

Definition SimpleLruReadPage_ReadOnly (ctl : SlruCtl) (pageno : Z) : prog Slru SlruError Z :=
  fun st =>
  match find_slot st (fun s => negb (bool_decide (page_status s = SLRU_PAGE_EMPTY))
                               && (page_number s =? pageno)
                               && negb (bool_decide (page_status s = SLRU_PAGE_READ_IN_PROGRESS)))
          (bank_slotnos ctl pageno) with
  | Some slotno => (SlruRecentlyUsed slotno st, inr slotno)
  | None => SimpleLruReadPage ctl pageno true st
  end.

(** [0 .. num_slots - 1] *)
Definition all_slotnos (st : Slru) : list Z := Z.of_nat <$> seq 0 (length (slots st)).

Fixpoint SimpleLruWriteAll_loop (ctl : SlruCtl) (slotnos : list Z) : prog Slru SlruError unit :=
  match slotnos with
  | [] => pret tt
  | slotno :: rest =>
      (empty <- pget (fun st => status_is st slotno SLRU_PAGE_EMPTY) ;;
       (if empty : bool then pret tt else SlruInternalWritePage ctl slotno) ;;;
       SimpleLruWriteAll_loop ctl rest)%prog
  end.

Definition SimpleLruWriteAll (ctl : SlruCtl) : prog Slru SlruError unit :=
  (slotnos <- pget all_slotnos ;; SimpleLruWriteAll_loop ctl slotnos)%prog.

(** ** Truncation *)

Definition SlruMayDeleteSegment (ctl : SlruCtl) (segpage cutoffPage : Z) : bool :=
  let seg_last_page := segpage + SLRU_PAGES_PER_SEGMENT - 1 in
  PagePrecedes ctl segpage cutoffPage && PagePrecedes ctl seg_last_page cutoffPage.

Definition SlruInternalDeleteSegment (segno : Z) (st : Slru) : Slru :=
  set_files st (delete segno (files st)).

(** [SlruScanDirectory] with [SlruScanDirCbDeleteCutoff] visits every segment
    file; the segments are independent of each other, so the order is not. *)
Definition SlruScanDirCbDeleteCutoff (ctl : SlruCtl) (segpage cutoffPage : Z) (st : Slru) : Slru :=
  if SlruMayDeleteSegment ctl segpage cutoffPage
  then SlruInternalDeleteSegment (segpage / SLRU_PAGES_PER_SEGMENT) st else st.

Definition SlruScanDirectory_DeleteCutoff (ctl : SlruCtl) (cutoffPage : Z) (st : Slru) : Slru :=
  foldr (fun segno st => SlruScanDirCbDeleteCutoff ctl (segno * SLRU_PAGES_PER_SEGMENT) cutoffPage st)
    st (elements (dom (files st))).

Definition SlruScanDirCbReportPresence (ctl : SlruCtl) (segpage cutoffPage : Z) : bool :=
  SlruMayDeleteSegment ctl segpage cutoffPage.

(** [SlruScanDirectory] with [SlruScanDirCbReportPresence] stops at the first
    segment for which the callback answers true. *)
Definition SlruScanDirectory_ReportPresence (ctl : SlruCtl) (cutoffPage : Z) (st : Slru) : bool :=
  existsb (fun segno => SlruScanDirCbReportPresence ctl (segno * SLRU_PAGES_PER_SEGMENT) cutoffPage)
    (elements (dom (files st))).

(** [SlruScanDirectory] with [SlruScanDirCbDeleteAll]; the cached pages stay. *)
Definition SlruScanDirCbDeleteAll (segpage : Z) (st : Slru) : Slru :=
  SlruInternalDeleteSegment (segpage / SLRU_PAGES_PER_SEGMENT) st.

Definition SlruScanDirectory_DeleteAll (st : Slru) : Slru :=
  foldr (fun segno st => SlruScanDirCbDeleteAll (segno * SLRU_PAGES_PER_SEGMENT) st)
    st (elements (dom (files st))).

(** A missing file is no error here, and one that cannot be closed counts as
    missing. *)
Definition SimpleLruDoesPhysicalPageExist (ctl : SlruCtl) (pageno : Z) : prog Slru SlruError bool :=
  fun st =>
  match read_fault ctl pageno, files st !! seg_of pageno with
  | Some SLRU_OPEN_FAILED, _ => (st, inl (SlruIOError SLRU_OPEN_FAILED pageno))
  | _, None => (st, inr false)
  | Some SLRU_SEEK_FAILED, Some _ => (st, inl (SlruIOError SLRU_SEEK_FAILED pageno))
  | Some SLRU_CLOSE_FAILED, Some _ => (st, inr false)
  | _, Some f => (st, inr (bool_decide (seg_index pageno < length f)%nat))
  end.

(** One pass over the slots; [true] asks for a restart. *)
Fixpoint SimpleLruTruncate_scan (ctl : SlruCtl) (cutoffPage : Z) (slotnos : list Z)
  : prog Slru SlruError bool :=
  fun st =>
  match slotnos with
  | [] => (st, inr false)
  | slotno :: rest =>
      if status_is st slotno SLRU_PAGE_EMPTY then SimpleLruTruncate_scan ctl cutoffPage rest st
      else if negb (PagePrecedes ctl (page_number (slot st slotno)) cutoffPage)
      then SimpleLruTruncate_scan ctl cutoffPage rest st
      else if status_is st slotno SLRU_PAGE_VALID && negb (page_dirty (slot st slotno))
      then SimpleLruTruncate_scan ctl cutoffPage rest
             (upd_slot st slotno (slot_set_status SLRU_PAGE_EMPTY))
      else if status_is st slotno SLRU_PAGE_VALID then
        match SlruInternalWritePage ctl slotno st with
        | (st, inl e) => (st, inl e)
        | (st, inr _) => (st, inr true)
        end
      else (SimpleLruWaitIO slotno st, inr true)
  end.

Fixpoint SimpleLruTruncate_loop (fuel : nat) (ctl : SlruCtl) (cutoffPage : Z)
  : prog Slru SlruError unit :=
  fun st =>
  match fuel with
  | O => (st, inl SlruOutOfFuel)
  | S fuel =>
      if PagePrecedes ctl (latest_page_number st) cutoffPage then (st, inr tt)
      else
        match SimpleLruTruncate_scan ctl cutoffPage (all_slotnos st) st with
        | (st, inl e) => (st, inl e)
        | (st, inr true) => SimpleLruTruncate_loop fuel ctl cutoffPage st
        | (st, inr false) => (SlruScanDirectory_DeleteCutoff ctl cutoffPage st, inr tt)
        end
  end.

(** Each restart has written one more dirty slot, or turned an abandoned I/O
    into a state that the next pass can deal with. *)
Definition SimpleLruTruncate (ctl : SlruCtl) (cutoffPage : Z) : prog Slru SlruError unit :=
  fun st => SimpleLruTruncate_loop (S (2 * length (slots st))) ctl cutoffPage st.

(** One pass over the slots; the answer tells whether a page had to be written
    or waited for. *)
Fixpoint SlruDeleteSegment_scan (ctl : SlruCtl) (segno : Z) (slotnos : list Z) (did_write : bool)
  : prog Slru SlruError bool :=
  fun st =>
  match slotnos with
  | [] => (st, inr did_write)
  | slotno :: rest =>
      if status_is st slotno SLRU_PAGE_EMPTY then SlruDeleteSegment_scan ctl segno rest did_write st
      else if negb (page_number (slot st slotno) / SLRU_PAGES_PER_SEGMENT =? segno)
      then SlruDeleteSegment_scan ctl segno rest did_write st
      else if status_is st slotno SLRU_PAGE_VALID && negb (page_dirty (slot st slotno))
      then SlruDeleteSegment_scan ctl segno rest did_write (upd_slot st slotno (slot_set_status SLRU_PAGE_EMPTY))
      else if status_is st slotno SLRU_PAGE_VALID then
        match SlruInternalWritePage ctl slotno st with
        | (st, inl e) => (st, inl e)
        | (st, inr _) => SlruDeleteSegment_scan ctl segno rest true st
        end
      else SlruDeleteSegment_scan ctl segno rest true (SimpleLruWaitIO slotno st)
  end.

Fixpoint SlruDeleteSegment_loop (fuel : nat) (ctl : SlruCtl) (segno : Z) : prog Slru SlruError unit :=
  fun st =>
  match fuel with
  | O => (st, inl SlruOutOfFuel)
  | S fuel =>
      match SlruDeleteSegment_scan ctl segno (all_slotnos st) false st with
      | (st, inl e) => (st, inl e)
      | (st, inr true) => SlruDeleteSegment_loop fuel ctl segno st
      | (st, inr false) => (SlruInternalDeleteSegment segno st, inr tt)
      end
  end.

(** The first pass leaves no page of the segment dirty and the second none at
    all; abandoned I/O may cost one more. *)
Definition SlruDeleteSegment (ctl : SlruCtl) (segno : Z) : prog Slru SlruError unit :=
  SlruDeleteSegment_loop 4 ctl segno.

(** ** Slots and updates *)

Definition in_range (st : Slru) (n : Z) : Prop := 0 <= n < zlength (slots st).
Definition valid (st : Slru) (n : Z) : Prop := page_status (slot st n) = SLRU_PAGE_VALID.

Create Rewrite HintDb slru.

Lemma slot_upd_eq st n f : in_range st n -> slot (upd_slot st n f) n = f (slot st n).
Proof. intros. unfold slot, upd_slot. simpl. by apply znth_zupd_eq. Qed.

Lemma slot_upd_ne st n m f : in_range st n -> 0 <= m -> n <> m -> slot (upd_slot st n f) m = slot st m.
Proof. intros [] ??. unfold slot, upd_slot. simpl. by apply znth_zupd_ne. Qed.

Lemma slot_upd st n m f :
  in_range st n -> in_range st m ->
  slot (upd_slot st n f) m = if n =? m then f (slot st n) else slot st m.
Proof.
  intros Hn [Hm _]. destruct (Z.eqb_spec n m) as [->|]; [by apply slot_upd_eq|by apply slot_upd_ne].
Qed.

Lemma in_range_upd st n f m : in_range (upd_slot st n f) m <-> in_range st m.
Proof. unfold in_range, upd_slot. simpl. by rewrite zlength_zupd. Qed.

Lemma upd_slot_upd_slot st n f g :
  in_range st n -> upd_slot (upd_slot st n f) n g = upd_slot st n (fun s => g (f s)).
Proof.
  intros Hn. unfold upd_slot at 1. rewrite slot_upd_eq by done.
  unfold upd_slot, set_slots, zupd. simpl. by rewrite list_insert_insert_eq.
Qed.

(** Consecutive updates of one slot are one update. *)
Ltac merge_upds := rewrite !upd_slot_upd_slot by (by rewrite ?in_range_upd).

Lemma all_slotnos_spec st n : n ∈ all_slotnos st <-> in_range st n.
Proof.
  unfold all_slotnos, in_range, zlength. rewrite list_elem_of_fmap.
  setoid_rewrite elem_of_seq. split.
  - intros (k & -> & ?). lia.
  - intros. exists (Z.to_nat n). lia.
Qed.

Lemma find_slot_Some st c l n :
  find_slot st c l = Some n -> n ∈ l /\ c (slot st n) = true.
Proof.
  induction l as [|m l IH]; simpl; [done|]. destruct (c (slot st m)) eqn:E.
  - intros [= ->]. split; [elem|done].
  - intros H. destruct (IH H). split; [elem|done].
Qed.

Lemma find_slot_None st c l n :
  find_slot st c l = None -> n ∈ l -> c (slot st n) = false.
Proof.
  induction l as [|m l IH]; simpl; intros H Hin; [by apply elem_of_nil in Hin|].
  destruct (c (slot st m)) eqn:E; [done|].
  apply elem_of_cons in Hin as [->|Hin]; auto.
Qed.

(** ** What the cache represents

    The contents of a page are those of the slot that caches it, and otherwise
    those of its segment file.  In recovery a clean slot may hold zeroes for a
    page that no file has, which is not a page yet. *)

Definition holds (p : Z) (s : Slot) : bool :=
  bool_decide (page_status s = SLRU_PAGE_VALID) && (page_number s =? p).

Definition phantom (st : Slru) (p : Z) (s : Slot) : bool :=
  if page_dirty s then false
  else match file_page st p with None => bool_decide (page_buffer s = zero_page) | Some _ => false end.

Definition slot_page (st : Slru) (p : Z) (s : Slot) : option (list Z) :=
  if phantom st p s then None else Some (page_buffer s).

Definition slru_page (st : Slru) (p : Z) : option (list Z) :=
  match find_slot st (holds p) (all_slotnos st) with
  | Some n => slot_page st p (slot st n)
  | None => file_page st p
  end.

(** No page is lost or altered; a page that did not exist may come into being
    as zeroes, the hole left by writing a later page of its segment. *)
Definition page_le (a b : option (list Z)) : Prop :=
  b = a \/ a = None /\ b = Some zero_page.

#[export] Instance page_le_preorder : PreOrder page_le.
Proof.
  split; [by left|]. intros a b c [->|[-> ->]] H; [done|].
  destruct H as [->|[[=] _]]. by right.
Qed.

Lemma page_le_Some a b pg : page_le a b -> a = Some pg -> b = Some pg.
Proof. intros [->|[-> ->]]; [done|congruence]. Qed.

Definition view_le (st st' : Slru) : Prop :=
  forall q, page_le (slru_page st q) (slru_page st' q).

#[export] Instance view_le_preorder : PreOrder view_le.
Proof.
  split; [by intros st q; left|]. intros a b c H1 H2 q. etransitivity; [apply H1|apply H2].
Qed.

Definition clean_copy (ctl : SlruCtl) (st : Slru) (p : Z) (buf : list Z) : Prop :=
  file_page st p = Some buf \/ InRecovery ctl = true /\ file_page st p = None /\ buf = zero_page.

Lemma clean_copy_le ctl st st' p buf :
  page_le (file_page st p) (file_page st' p) -> clean_copy ctl st p buf -> clean_copy ctl st' p buf.
Proof.
  intros Hle [E|(Hr & E & ->)]; [left; by eapply page_le_Some|]. unfold clean_copy. destruct Hle as [->|[_ ->]]; [by right|by left].
Qed.

Lemma slot_page_dirty st p s : page_dirty s = true -> slot_page st p s = Some (page_buffer s).
Proof. unfold slot_page, phantom. by intros ->. Qed.

Lemma slot_page_clean ctl st p s : page_dirty s = false -> clean_copy ctl st p (page_buffer s) -> slot_page st p s = file_page st p.
Proof.
  unfold slot_page, phantom. intros ->. intros [->|(_ & -> & ->)]; [done|]. by rewrite bool_decide_true.
Qed.

Lemma slot_page_default st p s : default zero_page (slot_page st p s) = page_buffer s.
Proof.
  unfold slot_page, phantom. destruct (page_dirty s); [done|]. destruct (file_page st p); [done|]. by case_bool_decide.
Qed.

Lemma slot_page_ext st st' p s s' : page_dirty s' = page_dirty s -> page_buffer s' = page_buffer s ->
  file_page st' p = file_page st p -> slot_page st' p s' = slot_page st p s.
Proof. unfold slot_page, phantom. by intros -> -> ->. Qed.

Definition slot_ok (ctl : SlruCtl) (st : Slru) (n : Z) (s : Slot) : Prop :=
  page_status s = SLRU_PAGE_EMPTY \/
  page_status s = SLRU_PAGE_VALID /\ 0 <= page_number s /\
  page_number s mod nbanks ctl = n / SLRU_BANK_SIZE /\
  (page_dirty s = false -> clean_copy ctl st (page_number s) (page_buffer s)).

(** The cache at rest: no I/O in progress, every cached page in its own bank
    and in one slot only, and clean slots agreeing with the files. *)
Record slru_ok (ctl : SlruCtl) (st : Slru) : Prop := {
  ok_nbanks : 0 < nbanks ctl;
  ok_nslots : zlength (slots st) = nbanks ctl * SLRU_BANK_SIZE;
  ok_slot : forall n, in_range st n -> slot_ok ctl st n (slot st n);
  ok_uniq : forall n m, in_range st n -> in_range st m -> valid st n -> valid st m ->
    page_number (slot st n) = page_number (slot st m) -> n = m;
}.

Lemma holds_spec p s : holds p s = true <-> page_status s = SLRU_PAGE_VALID /\ page_number s = p.
Proof. unfold holds. rewrite andb_true_iff, bool_decide_eq_true, Z.eqb_eq. done. Qed.

Lemma slru_page_slot ctl st n :
  slru_ok ctl st -> in_range st n -> valid st n ->
  slru_page st (page_number (slot st n)) = slot_page st (page_number (slot st n)) (slot st n).
Proof.
  intros Hok Hn Hv. unfold slru_page.
  destruct (find_slot st _ _) as [m|] eqn:E.
  - apply find_slot_Some in E as [Hm Hh]. apply all_slotnos_spec in Hm.
    apply holds_spec in Hh as [Hv' Hp]. by rewrite (ok_uniq _ _ Hok n m).
  - pose proof (find_slot_None _ _ _ n E) as H.
    rewrite all_slotnos_spec in H. specialize (H Hn).
    assert (holds (page_number (slot st n)) (slot st n) = true) by by apply holds_spec.
    congruence.
Qed.

Lemma slot_clean ctl st n : slru_ok ctl st -> in_range st n -> valid st n -> page_dirty (slot st n) = false ->
  clean_copy ctl st (page_number (slot st n)) (page_buffer (slot st n)).
Proof.
  intros Hok Hn Hv. destruct (ok_slot _ _ Hok n Hn) as [E|(_ & _ & _ & Hd)]; [|exact Hd]. unfold valid in Hv. congruence.
Qed.

Lemma slru_page_default ctl st n : slru_ok ctl st -> in_range st n -> valid st n ->
  default zero_page (slru_page st (page_number (slot st n))) = page_buffer (slot st n).
Proof.
  intros Hok Hn Hv. rewrite (slru_page_slot ctl) by done. apply slot_page_default.
Qed.

Definition cached (st : Slru) (p : Z) : Prop :=
  exists n, in_range st n /\ valid st n /\ page_number (slot st n) = p.

Lemma slru_page_uncached st p : ~ cached st p -> slru_page st p = file_page st p.
Proof.
  intros Hnc. unfold slru_page. destruct (find_slot st _ _) as [m|] eqn:E; [|done].
  apply find_slot_Some in E as [Hm Hh]. apply all_slotnos_spec in Hm.
  apply holds_spec in Hh as [Hv Hp]. destruct Hnc. by exists m.
Qed.

Lemma cached_dec st p : cached st p \/ ~ cached st p.
Proof.
  destruct (find_slot st (holds p) (all_slotnos st)) as [m|] eqn:E.
  - left. apply find_slot_Some in E as [Hm Hh]. apply all_slotnos_spec in Hm.
    apply holds_spec in Hh as [Hv Hp]. by exists m.
  - right. intros (n & Hn & Hv & Hp).
    pose proof (find_slot_None _ _ _ n E) as H. rewrite all_slotnos_spec in H.
    specialize (H Hn). assert (holds p (slot st n) = true) by by apply holds_spec. congruence.
Qed.

Lemma bank_slotnos_spec ctl p n :
  0 <= p -> 0 < nbanks ctl ->
  n ∈ bank_slotnos ctl p <-> n / SLRU_BANK_SIZE = p mod nbanks ctl.
Proof.
  intros Hp Hb. unfold bank_slotnos, SLRU_BANK_SIZE. rewrite list_elem_of_fmap.
  setoid_rewrite elem_of_seq. pose proof (Z.mod_pos_bound p _ Hb).
  generalize dependent (p mod nbanks ctl). intros b Hb'. split.
  - intros (k & -> & ?). lia.
  - intros. exists (Z.to_nat (n - b * 16)). lia.
Qed.

Lemma bank_in_range ctl st p n :
  slru_ok ctl st -> 0 <= p -> n ∈ bank_slotnos ctl p -> in_range st n.
Proof.
  intros Hok Hp Hn. pose proof (ok_nbanks _ _ Hok). apply bank_slotnos_spec in Hn; [|done..].
  unfold in_range. rewrite (ok_nslots _ _ Hok). unfold SLRU_BANK_SIZE in *.
  pose proof (Z.mod_pos_bound p (nbanks ctl)). nia.
Qed.

(** ** Bookkeeping that the represented pages do not depend on

    Two states are [lru_eq] when they differ in LRU counters only. *)

Definition erase_lru (s : Slot) : Slot := slot_set_lru 0 s.

Definition lru_core (st : Slru) :=
  (erase_lru <$> slots st, latest_page_number st, files st, wal_flushed st).

Definition lru_eq (st st' : Slru) : Prop := lru_core st = lru_core st'.

#[export] Instance lru_eq_equivalence : Equivalence lru_eq.
Proof. unfold lru_eq. split; red; congruence. Qed.

Lemma lru_eq_range st st' n : lru_eq st st' -> in_range st n <-> in_range st' n.
Proof.
  intros H. assert (length (slots st) = length (slots st')) as E.
  { apply (f_equal (fun x => length (fst (fst (fst x))))) in H. simpl in H.
    by rewrite !length_fmap in H. }
  unfold in_range, zlength. by rewrite E.
Qed.

Lemma lru_eq_slot st st' n :
  lru_eq st st' -> in_range st n -> erase_lru (slot st n) = erase_lru (slot st' n).
Proof.
  intros H Hn. pose proof (proj1 (lru_eq_range _ _ n H) Hn) as Hn'.
  unfold in_range, zlength in *. unfold slot, znth.
  apply (f_equal (fun x => fst (fst (fst x)) !! Z.to_nat n)) in H. simpl in H.
  rewrite !list_lookup_fmap in H.
  rewrite (list_lookup_lookup_total_lt (slots st)) in H by lia.
  rewrite (list_lookup_lookup_total_lt (slots st')) in H by lia.
  simpl in H. congruence.
Qed.

Lemma lru_eq_fields st st' n :
  lru_eq st st' -> in_range st n ->
  page_buffer (slot st n) = page_buffer (slot st' n) /\
  page_status (slot st n) = page_status (slot st' n) /\
  page_dirty (slot st n) = page_dirty (slot st' n) /\
  page_number (slot st n) = page_number (slot st' n) /\
  group_lsn (slot st n) = group_lsn (slot st' n).
Proof. intros H Hn. pose proof (lru_eq_slot _ _ _ H Hn) as E. by injection E. Qed.

Lemma lru_eq_files st st' : lru_eq st st' -> files st = files st'.
Proof. unfold lru_eq, lru_core. intros H. by simplify_eq. Qed.

Lemma lru_eq_cached st st' p : lru_eq st st' -> cached st p -> cached st' p.
Proof.
  intros H (n & Hn & Hv & Hp). exists n.
  destruct (lru_eq_fields _ _ _ H Hn) as (_ & Es & _ & Ep & _).
  unfold valid in *. rewrite (lru_eq_range _ _ n H) in Hn. rewrite <- Es, <- Ep. done.
Qed.

#[export] Instance slru_ok_proper ctl : Proper (lru_eq ==> iff) (slru_ok ctl).
Proof.
  assert (forall st st', lru_eq st st' -> slru_ok ctl st -> slru_ok ctl st') as H.
  { intros st st' H Hok. split.
    - apply (ok_nbanks _ _ Hok).
    - rewrite <- (ok_nslots _ _ Hok). unfold zlength. f_equal.
      apply (f_equal (fun x => length (fst (fst (fst x))))) in H. simpl in H.
      by rewrite !length_fmap in H.
    - intros n Hn. rewrite <- (lru_eq_range _ _ n H) in Hn.
      destruct (lru_eq_fields _ _ _ H Hn) as (Eb & Es & Ed & Ep & _).
      pose proof (ok_slot _ _ Hok n Hn) as Hs. unfold slot_ok, clean_copy, file_page in *.
      by rewrite <- (lru_eq_files _ _ H), <- Eb, <- Es, <- Ed, <- Ep.
    - intros n m Hn Hm. rewrite <- (lru_eq_range _ _ n H) in Hn.
      rewrite <- (lru_eq_range _ _ m H) in Hm. unfold valid.
      destruct (lru_eq_fields _ _ _ H Hn) as (_ & En & _ & Epn & _).
      destruct (lru_eq_fields _ _ _ H Hm) as (_ & Em & _ & Epm & _).
      rewrite <- En, <- Em, <- Epn, <- Epm. by apply (ok_uniq _ _ Hok). }
  intros st st' Heq. split; apply H; [done|by symmetry].
Qed.

Lemma lru_eq_page ctl st st' q :
  slru_ok ctl st -> lru_eq st st' -> slru_page st' q = slru_page st q.
Proof.
  intros Hok H. assert (slru_ok ctl st') as Hok' by by rewrite <- H.
  destruct (cached_dec st q) as [Hc|Hc].
  - destruct Hc as (n & Hn & Hv & <-).
    destruct (lru_eq_fields _ _ _ H Hn) as (Eb & Es & Ed & Ep & _).
    rewrite (slru_page_slot ctl st n) by done. rewrite Ep.
    rewrite (slru_page_slot ctl st' n); [|done|by apply (lru_eq_range _ _ n H)|unfold valid in *; congruence].
    apply slot_page_ext; [done..|]. unfold file_page. by rewrite (lru_eq_files _ _ H).
  - rewrite !slru_page_uncached; [|done|].
    + unfold file_page. by rewrite (lru_eq_files _ _ H).
    + intros Hc'. apply Hc. by apply (lru_eq_cached st').
Qed.

Lemma lru_eq_view ctl st st' : slru_ok ctl st -> lru_eq st st' -> view_le st st'.
Proof. intros Hok H q. left. by apply (lru_eq_page ctl). Qed.

(** Changing only the counter of a slot is invisible. *)
Lemma upd_lru_eq st n x : in_range st n -> lru_eq (upd_slot st n (slot_set_lru x)) st.
Proof.
  intros [Hn1 Hn2]. unfold lru_eq, lru_core, upd_slot, set_slots. simpl.
  f_equal. f_equal. f_equal. unfold zupd, slot, znth.
  rewrite list_fmap_insert. apply list_insert_id.
  rewrite list_lookup_fmap.
  rewrite list_lookup_lookup_total_lt by (unfold zlength in *; lia). done.
Qed.

Lemma set_bank_counts_eq st l : lru_eq (set_bank_counts st l) st.
Proof. done. Qed.

Lemma SlruRecentlyUsed_eq st n : in_range st n -> lru_eq (SlruRecentlyUsed n st) st.
Proof.
  intros Hn. unfold SlruRecentlyUsed. destruct (_ =? _); [done|].
  etransitivity; [by apply upd_lru_eq|]. apply set_bank_counts_eq.
Qed.

(** ** Writing a page back *)

Lemma pwrite_page_lookup f r buf i :
  pwrite_page f r buf !! i =
    if bool_decide (i = r) then Some buf
    else if bool_decide (length f <= i < r)%nat then Some zero_page else f !! i.
Proof.
  unfold pwrite_page. destruct (bool_decide (r < length f)%nat) eqn:E.
  - apply bool_decide_eq_true in E. case_bool_decide as Hi.
    + subst. by apply list_lookup_insert_eq.
    + rewrite list_lookup_insert_ne by done. case_bool_decide; [lia|done].
  - apply bool_decide_eq_false in E. case_bool_decide as Hi.
    + subst. rewrite lookup_app_r by lia. rewrite lookup_app_r by (rewrite length_replicate; lia).
      rewrite length_replicate. by replace (r - length f - (r - length f))%nat with 0%nat by lia.
    + case_bool_decide as Hgap.
      * rewrite lookup_app_r by lia. rewrite lookup_app_l by (rewrite length_replicate; lia).
        rewrite lookup_replicate_2; [done|lia].
      * destruct (decide (i < length f)%nat) as [Hl|Hl]; [by rewrite lookup_app_l|].
        rewrite !lookup_ge_None_2; [done| lia |].
        rewrite !length_app, length_replicate. simpl. lia.
Qed.

(** Putting one page into its file: it reads back, and the other pages are
    those there were, and possibly zeroes in between. *)
Lemma file_page_write st p buf q :
  0 <= p -> 0 <= q ->
  let st' := set_files st (<[seg_of p :=
    pwrite_page (default [] (files st !! seg_of p)) (seg_index p) buf]> (files st)) in
  file_page st' p = Some buf /\
  (q <> p -> page_le (file_page st q) (file_page st' q)).
Proof.
  intros Hp Hq st'. unfold file_page, st'. simpl. split.
  - rewrite lookup_insert_eq. simpl. rewrite pwrite_page_lookup. by rewrite bool_decide_true.
  - intros Hne. destruct (decide (seg_of q = seg_of p)) as [E|E].
    + rewrite E in *. rewrite lookup_insert_eq. simpl. rewrite pwrite_page_lookup.
      rewrite bool_decide_false.
      2:{ unfold seg_of, seg_index, SLRU_PAGES_PER_SEGMENT in *. lia. }
      case_bool_decide as Hgap.
      * right. split; [|done]. destruct (files st !! _) as [f|]; simpl; [|done].
        apply lookup_ge_None_2. simpl in Hgap. lia.
      * left. by destruct (files st !! _).
    + left. by rewrite lookup_insert_ne.
Qed.

(** The effect of a successful write-back: slot [n] becomes clean and its page
    is in the file. *)
Definition write_back (st : Slru) (n w : Z) : Slru :=
  let p := page_number (slot st n) in
  upd_slot (set_wal_flushed (set_files st (<[seg_of p :=
     pwrite_page (default [] (files st !! seg_of p)) (seg_index p) (page_buffer (slot st n))]> (files st))) w)
    n (slot_set_dirty false).

Lemma write_back_slot st n w m :
  in_range st n -> in_range st m ->
  slot (write_back st n w) m = if n =? m then slot_set_dirty false (slot st n) else slot st m.
Proof. intros. unfold write_back. by rewrite slot_upd. Qed.

Lemma write_back_range st n w m : in_range (write_back st n w) m <-> in_range st m.
Proof. unfold write_back. by rewrite in_range_upd. Qed.

Lemma write_back_number st n w m :
  in_range st n -> in_range st m ->
  page_number (slot (write_back st n w) m) = page_number (slot st m) /\
  page_status (slot (write_back st n w) m) = page_status (slot st m) /\
  page_buffer (slot (write_back st n w) m) = page_buffer (slot st m).
Proof.
  intros. rewrite write_back_slot by done. by destruct (Z.eqb_spec n m) as [->|].
Qed.

Lemma number_nonneg ctl st n : slru_ok ctl st -> in_range st n -> valid st n -> 0 <= page_number (slot st n).
Proof. intros Hok Hn Hv. destruct (ok_slot _ _ Hok n Hn) as [H|H]; [unfold valid in Hv; congruence|tauto]. Qed.

Section write_back_facts.
Context (ctl : SlruCtl) (st : Slru) (n w : Z).
Context (Hok : slru_ok ctl st) (Hn : in_range st n) (Hv : valid st n).

Lemma page_number_nonneg : 0 <= page_number (slot st n).
Proof. by eapply number_nonneg. Qed.

Lemma write_back_file p :
  0 <= p -> p <> page_number (slot st n) ->
  page_le (file_page st p) (file_page (write_back st n w) p).
Proof.
  intros Hp Hne. pose proof page_number_nonneg as Hp'.
  by apply (proj2 (file_page_write st _ (page_buffer (slot st n)) p Hp' Hp)).
Qed.

Lemma write_back_file_self :
  file_page (write_back st n w) (page_number (slot st n)) = Some (page_buffer (slot st n)).
Proof.
  pose proof page_number_nonneg as Hp.
  apply (proj1 (file_page_write st _ (page_buffer (slot st n)) _ Hp Hp)).
Qed.

Lemma write_back_ok : slru_ok ctl (write_back st n w).
Proof.
  split.
  - apply (ok_nbanks _ _ Hok).
  - rewrite <- (ok_nslots _ _ Hok). unfold write_back, upd_slot. simpl. apply zlength_zupd.
  - intros m Hm. rewrite write_back_range in Hm. rewrite write_back_slot by done.
    destruct (Z.eqb_spec n m) as [<-|Hne].
    + destruct (ok_slot _ _ Hok n Hn) as [H|(Hv' & Hp & Hb & _)]; [left; done|right].
      split_and!; [done..|]. intros _. left. apply write_back_file_self.
    + destruct (ok_slot _ _ Hok m Hm) as [H|(Hv' & Hp & Hb & Hd)]; [by left|right].
      split_and!; [done..|]. intros Hcl. eapply clean_copy_le; [|by apply Hd]. apply write_back_file; [done|].
      intros E. apply Hne. by apply (ok_uniq _ _ Hok).
  - intros i j Hi Hj. rewrite write_back_range in Hi, Hj. unfold valid.
    destruct (write_back_number st n w i) as (-> & -> & _); [done..|].
    destruct (write_back_number st n w j) as (-> & -> & _); [done..|].
    by apply (ok_uniq _ _ Hok).
Qed.

Lemma write_back_view : view_le st (write_back st n w).
Proof.
  pose proof write_back_ok as Hok'. intros q.
  destruct (cached_dec st q) as [(m & Hm & Hvm & <-)|Hc].
  - destruct (write_back_number st n w m) as (E1 & E2 & E3); [done..|].
    rewrite <- E1 at 2. rewrite (slru_page_slot ctl (write_back st n w) m), E1, (slru_page_slot ctl st m);
      [|done..|by apply write_back_range|unfold valid in *; congruence].
    rewrite write_back_slot by done. destruct (Z.eqb_spec n m) as [<-|Hne]; simpl.
    + rewrite (slot_page_clean ctl (write_back st n w)), write_back_file_self; [|done|left; apply write_back_file_self].
      destruct (page_dirty (slot st n)) eqn:Hd; [left; by rewrite slot_page_dirty|].
      pose proof (slot_clean ctl st n Hok Hn Hv Hd) as Hc. rewrite (slot_page_clean ctl) by done.
      destruct Hc as [->|(_ & -> & ->)]; [by left|by right].
    + destruct (page_dirty (slot st m)) eqn:Hd; [left; by rewrite !slot_page_dirty|].
      pose proof (slot_clean ctl st m Hok Hm Hvm Hd) as Hc.
      assert (page_le (file_page st (page_number (slot st m))) (file_page (write_back st n w) (page_number (slot st m)))) as Hle.
      { apply write_back_file; [by eapply number_nonneg|]. intros E. apply Hne. by apply (ok_uniq _ _ Hok). }
      rewrite !(slot_page_clean ctl) by (try done; by eapply clean_copy_le). done.
  - rewrite (slru_page_uncached st) by done. rewrite slru_page_uncached.
    + destruct (decide (0 <= q)).
      * apply write_back_file; [done|]. intros ->. apply Hc. by exists n.
      * left. unfold file_page in *. unfold write_back. simpl.
        rewrite lookup_insert_ne; [done|]. pose proof page_number_nonneg.
        unfold seg_of, SLRU_PAGES_PER_SEGMENT. lia.
    + intros (m & Hm & Hvm & Em). rewrite write_back_range in Hm. apply Hc. exists m.
      destruct (write_back_number st n w m) as (E1 & E2 & _); [done..|].
      unfold valid in *. rewrite E1 in Em. rewrite E2 in Hvm. done.
Qed.

End write_back_facts.

(** The WAL position that must have been flushed before slot [n] is written. *)
Definition flush_target (ctl : SlruCtl) (st : Slru) (n : Z) : Z :=
  if 0 <? lsn_groups_per_page ctl then
    let m := max_group_lsn (slot st n) in
    if m =? 0 then wal_flushed st else Z.max (wal_flushed st) m
  else wal_flushed st.

Lemma flush_target_ge ctl st n : wal_flushed st <= flush_target ctl st n.
Proof. unfold flush_target. destruct_bools; lia. Qed.

Lemma upd_slot_id st n f : in_range st n -> f (slot st n) = slot st n -> upd_slot st n f = st.
Proof.
  intros Hn Hf. unfold upd_slot, set_slots, zupd. rewrite Hf. destruct st as [l b p fs w].
  simpl. f_equal. apply list_insert_id. unfold slot, znth, in_range, zlength in *. simpl in *.
  apply list_lookup_lookup_total_lt. lia.
Qed.

Lemma SlruPhysicalWritePage_eq ctl p n st :
  SlruPhysicalWritePage ctl p n st =
    let st := set_wal_flushed st (flush_target ctl st n) in
    match write_fault ctl p with
    | Some e => (st, Some e)
    | None =>
        (set_files st (<[seg_of p := pwrite_page (default [] (files st !! seg_of p)) (seg_index p)
           (page_buffer (slot st n))]> (files st)), None)
    end.
Proof.
  unfold SlruPhysicalWritePage, flush_target.
  assert (set_wal_flushed st (wal_flushed st) = st) as E by by destruct st.
  destruct (0 <? _); [destruct (_ =? 0)|]; cbv zeta; rewrite ?E; done.
Qed.

Lemma slot_lookup st n : in_range st n -> slots st !! Z.to_nat n = Some (slot st n).
Proof.
  unfold in_range, zlength, slot, znth. intros. apply list_lookup_lookup_total_lt. lia.
Qed.

Lemma SlruInternalWritePage_valid ctl n st :
  in_range st n -> valid st n ->
  SlruInternalWritePage ctl n st =
    if page_dirty (slot st n) then
      match write_fault ctl (page_number (slot st n)) with
      | Some e => (set_wal_flushed st (flush_target ctl st n),
                   inl (SlruIOError e (page_number (slot st n))))
      | None => (write_back st n (flush_target ctl st n), inr tt)
      end
    else (st, inr tt).
Proof.
  intros Hn Hv. unfold SlruInternalWritePage, status_is. unfold valid in Hv. rewrite Hv.
  rewrite (bool_decide_false (SLRU_PAGE_VALID = SLRU_PAGE_WRITE_IN_PROGRESS)) by done.
  rewrite Hv, (bool_decide_true (SLRU_PAGE_VALID = SLRU_PAGE_VALID)), Z.eqb_refl by done.
  destruct (page_dirty (slot st n)) eqn:Hd; cbn [negb orb]; [|done].
  set (f := fun s => slot_set_dirty false (slot_set_status SLRU_PAGE_WRITE_IN_PROGRESS s)).
  rewrite SlruPhysicalWritePage_eq. cbv zeta.
  assert (Hs : slot (upd_slot st n f) n = f (slot st n)) by by apply slot_upd_eq.
  assert (Hft : flush_target ctl (upd_slot st n f) n = flush_target ctl st n)
    by (unfold flush_target; by rewrite Hs).
  rewrite Hft. set (w := flush_target ctl st n).
  assert (Hcommute : set_wal_flushed (upd_slot st n f) w = upd_slot (set_wal_flushed st w) n f)
    by done.
  rewrite Hcommute. destruct (write_fault ctl _) as [e|].
  - f_equal. rewrite upd_slot_upd_slot by done. apply upd_slot_id; [done|].
    change (slot (set_wal_flushed st w) n) with (slot st n).
    by destruct (slot st n); simpl in *; subst.
  - f_equal. unfold write_back.
    rewrite (slot_upd_eq (set_wal_flushed st w)) by done.
    set (fs := <[_ := _]> _).
    change (set_files (upd_slot (set_wal_flushed st w) n f) fs)
      with (upd_slot (set_files (set_wal_flushed st w) fs) n f).
    rewrite upd_slot_upd_slot by done.
    unfold upd_slot, set_slots. simpl. f_equal. unfold slot; simpl. f_equal.
    fold (slot st n). by destruct (slot st n); simpl in *; subst.
Qed.

(** States that differ in the WAL position only represent the same pages. *)
Lemma set_wal_flushed_ok ctl st w : slru_ok ctl st -> slru_ok ctl (set_wal_flushed st w).
Proof. intros Hok. split; apply Hok. Qed.

Lemma find_slot_ext st st' c l : slots st = slots st' -> find_slot st c l = find_slot st' c l.
Proof. intros E. induction l as [|m l IH]; simpl; [done|]. unfold slot. by rewrite E, IH. Qed.

Lemma slru_page_ext st st' q :
  slots st = slots st' -> files st = files st' -> slru_page st q = slru_page st' q.
Proof.
  intros Es Ef. unfold slru_page, slot_page, phantom, all_slotnos, file_page, slot.
  by rewrite (find_slot_ext st st'), Es, Ef.
Qed.

Lemma set_wal_flushed_view st w : view_le st (set_wal_flushed st w).
Proof. intros q. left. by apply slru_page_ext. Qed.

(** What every operation guarantees whether it succeeds or fails. *)
Record keeps (ctl : SlruCtl) (st st' : Slru) : Prop := {
  keeps_ok : slru_ok ctl st';
  keeps_view : view_le st st';
  keeps_wal : wal_flushed st <= wal_flushed st';
  keeps_len : zlength (slots st') = zlength (slots st);
}.

Lemma keeps_refl ctl st : slru_ok ctl st -> keeps ctl st st.
Proof. intros. by split. Qed.

Lemma keeps_trans ctl st1 st2 st3 : keeps ctl st1 st2 -> keeps ctl st2 st3 -> keeps ctl st1 st3.
Proof.
  intros [] []. split; [done|by etransitivity|lia|congruence].
Qed.

Lemma keeps_range ctl st st' n : keeps ctl st st' -> in_range st' n <-> in_range st n.
Proof. intros H. unfold in_range. by rewrite (keeps_len _ _ _ H). Qed.

Lemma lru_eq_keeps ctl st st' : slru_ok ctl st -> lru_eq st st' -> keeps ctl st st'.
Proof.
  intros Hok H. split.
  - by rewrite <- H.
  - by eapply lru_eq_view.
  - unfold lru_eq, lru_core in H. simplify_eq. lia.
  - rewrite (ok_nslots _ _ Hok). apply (ok_nslots ctl). by rewrite <- H.
Qed.

Lemma write_back_keeps ctl st n w :
  slru_ok ctl st -> in_range st n -> valid st n -> wal_flushed st <= w ->
  keeps ctl st (write_back st n w).
Proof.
  intros. split; [by apply write_back_ok|by eapply write_back_view|done|].
  unfold write_back, upd_slot. simpl. apply zlength_zupd.
Qed.

Lemma SlruInternalWritePage_keeps ctl n st st' r :
  slru_ok ctl st -> in_range st n -> valid st n ->
  SlruInternalWritePage ctl n st = (st', r) -> keeps ctl st st'.
Proof.
  intros Hok Hn Hv. rewrite SlruInternalWritePage_valid by done.
  pose proof (flush_target_ge ctl st n).
  repeat case_match; intros [= <- <-].
  - split; [by apply set_wal_flushed_ok|apply set_wal_flushed_view|done|done].
  - by apply write_back_keeps.
  - by apply keeps_refl.
Qed.

(** ** Choosing a slot *)

(** The candidate for eviction tracked by the scan is a valid slot of the bank,
    once there is one. *)
Definition candidate (bank : list Z) (st : Slru) (b : LRUScan) : Prop :=
  best_valid_delta b < 0 \/ bestvalidslot b ∈ bank /\ valid st (bestvalidslot b).

Lemma at_rest_valid ctl st n :
  slru_ok ctl st -> in_range st n -> page_status (slot st n) <> SLRU_PAGE_EMPTY -> valid st n.
Proof. intros Hok Hn Hne. destruct (ok_slot _ _ Hok n Hn) as [|[Hv _]]; done. Qed.

Section scan.
Context (ctl : SlruCtl) (st0 : Slru) (bank : list Z) (cc : Z).
Context (Hok : slru_ok ctl st0) (Hbank : forall n, n ∈ bank -> in_range st0 n).

Lemma lru_eq_member st m :
  lru_eq st st0 -> m ∈ bank ->
  in_range st m /\ page_status (slot st m) = page_status (slot st0 m) /\
  page_number (slot st m) = page_number (slot st0 m) /\
  latest_page_number st = latest_page_number st0.
Proof.
  intros Heq Hm. assert (in_range st m) as Hr by by apply (lru_eq_range _ _ m Heq), Hbank.
  destruct (lru_eq_fields _ _ _ Heq Hr) as (_ & Es & _ & Ep & _).
  split_and!; [done..|]. by injection Heq.
Qed.

(** Repairing a counter that has run ahead of [cur_count]. *)
Lemma scan_delta st m d :
  in_range st m -> lru_eq st st0 ->
  exists st1 d1, (if d <? 0 then (upd_slot st m (slot_set_lru cc), 0) else (st, d)) = (st1, d1)
    /\ 0 <= d1 /\ lru_eq st1 st0.
Proof.
  intros Hm Heq. destruct (Z.ltb_spec d 0).
  - eexists _, _. split_and!; [done..|]. etransitivity; [by apply upd_lru_eq|done].
  - by eexists _, _.
Qed.

(** What a scan of the slots [l] that started with [best] has found. *)
Definition scan_found (l : list Z) (best : LRUScan) (r : Z + LRUScan) : Prop :=
  match r with
  | inl n => n ∈ l /\ page_status (slot st0 n) = SLRU_PAGE_EMPTY
  | inr b =>
      (forall n, n ∈ l -> valid st0 n) /\ candidate bank st0 b /\
      best_valid_delta best <= best_valid_delta b /\
      (forall n, n ∈ l -> page_number (slot st0 n) <> latest_page_number st0 ->
                 0 <= best_valid_delta b)
  end.

Lemma scan_found_cons m l best best1 r :
  valid st0 m -> best_valid_delta best <= best_valid_delta best1 ->
  (page_number (slot st0 m) <> latest_page_number st0 -> 0 <= best_valid_delta best1) ->
  scan_found l best1 r -> scan_found (m :: l) best r.
Proof.
  intros Hv Hle Hm. destruct r as [n|b]; simpl.
  - intros []. split; [elem|done].
  - intros (Ha & Hb & Hle' & Hn). split_and!; [|done|lia|];
      intros n [->|Hin]%elem_of_cons; [done|by apply Ha|intros; lia|by apply Hn].
Qed.

Lemma scan_spec l : forall best st st' r,
  (forall n, n ∈ l -> n ∈ bank) -> lru_eq st st0 -> candidate bank st0 best ->
  SlruSelectLRUPage_scan ctl cc l best st = (st', r) ->
  lru_eq st' st0 /\ scan_found l best r.
Proof.
  induction l as [|m l IH]; simpl; intros best st st' r Hl Heq Hc Hscan.
  { simplify_eq. split; [done|]. split_and!; [|done..|]; intros ? H; by apply elem_of_nil in H. }
  assert (forall n, n ∈ l -> n ∈ bank) as Hl' by (intros; apply Hl; elem).
  assert (m ∈ bank) as Hmb by (apply Hl; elem).
  destruct (lru_eq_member st m Heq Hmb) as (Hm & Es & _ & _).
  unfold status_is in Hscan. rewrite Es in Hscan. case_bool_decide as Hempty.
  { simplify_eq. split; [done|]. split; [elem|done]. }
  assert (valid st0 m) as Hv by by apply (at_rest_valid ctl); auto.
  edestruct (scan_delta st m) as (st1 & d1 & E1 & Hd1 & Heq1); [done..|].
  rewrite E1 in Hscan. destruct (lru_eq_member st1 m Heq1 Hmb) as (_ & Es1 & Ep1 & El1).
  rewrite Ep1, El1 in Hscan.
  destruct (Z.eqb_spec (page_number (slot st0 m)) (latest_page_number st0)) as [Hlat|Hlat].
  - apply IH in Hscan as [Heq' Hr]; [|done..]. split; [done|].
    by eapply scan_found_cons; [| |by intros|].
  - rewrite Es1, bool_decide_true in Hscan by done.
    match type of Hscan with context [SlruSelectLRUPage_scan _ _ _ ?b _] => set (best1 := b) in Hscan end.
    assert (candidate bank st0 best1 /\ best_valid_delta best <= best_valid_delta best1
      /\ 0 <= best_valid_delta best1) as (Hc1 & Hle1 & Hpos).
    { unfold best1. destruct (_ || _) eqn:Ecmp; simpl.
      - split_and!; [by right| |done]. lia.
      - split_and!; [done|done|lia]. }
    apply IH in Hscan as [Heq' Hr]; [|done..]. split; [done|]. by eapply scan_found_cons.
Qed.
End scan.

(** The number of dirty slots among [l], the measure that every restart of the
    search decreases. *)
Definition dirty_count (st : Slru) (l : list Z) : nat :=
  length (filter (fun n => page_dirty (slot st n) = true) l).

Lemma dirty_count_ext st st' l :
  (forall n, n ∈ l -> page_dirty (slot st n) = page_dirty (slot st' n)) ->
  dirty_count st l = dirty_count st' l.
Proof.
  unfold dirty_count. induction l as [|m l IH]; intros H; [done|].
  rewrite !filter_cons, H by elem.
  case_decide; simpl; rewrite IH; try done; intros; apply H; elem.
Qed.

Lemma dirty_count_lt st st' l n :
  n ∈ l -> page_dirty (slot st n) = true -> page_dirty (slot st' n) = false ->
  (forall m, m ∈ l -> page_dirty (slot st' m) = true -> page_dirty (slot st m) = true) ->
  (dirty_count st' l < dirty_count st l)%nat.
Proof.
  unfold dirty_count. intros Hn Hd Hd' H.
  assert (forall k, (forall m, m ∈ k -> page_dirty (slot st' m) = true -> page_dirty (slot st m) = true) ->
    (length (filter (fun n => page_dirty (slot st' n) = true) k)
     <= length (filter (fun n => page_dirty (slot st n) = true) k))%nat) as Hle.
  { induction k as [|m k IH]; intros Hk; [done|]. rewrite !filter_cons.
    assert (forall x, x ∈ k -> page_dirty (slot st' x) = true -> page_dirty (slot st x) = true) as Hk'
      by (intros; apply Hk; [elem|done]).
    specialize (IH Hk'). assert (page_dirty (slot st' m) = true -> page_dirty (slot st m) = true)
      by (apply Hk; elem). repeat case_decide; simpl; try lia. tauto. }
  apply list_elem_of_split in Hn as (l1 & l2 & ->).
  rewrite !filter_app, !length_app, !filter_cons, Hd, Hd'.
  rewrite (decide_False (P := false = true)), (decide_True (P := true = true)) by done. simpl.
  pose proof (Hle l1 ltac:(intros; apply H; [rewrite elem_of_app; tauto|done])).
  pose proof (Hle l2 ltac:(intros; apply H; [rewrite elem_of_app, elem_of_cons; tauto|done])). lia.
Qed.

Lemma dirty_count_le st l : (dirty_count st l <= length l)%nat.
Proof. unfold dirty_count. apply length_filter. Qed.

Lemma bank_two ctl p :
  let b := (p mod nbanks ctl) * SLRU_BANK_SIZE in
  b ∈ bank_slotnos ctl p /\ b + 1 ∈ bank_slotnos ctl p.
Proof.
  simpl. unfold bank_slotnos. rewrite !list_elem_of_fmap. split.
  - exists 0%nat. split; [lia|]. by apply elem_of_seq; unfold SLRU_BANK_SIZE; lia.
  - exists 1%nat. split; [lia|]. by apply elem_of_seq; unfold SLRU_BANK_SIZE; lia.
Qed.

(** The slot handed out by the search: it holds the page, or the page is not
    cached at all and the slot may be overwritten without losing anything. *)
Definition selected (ctl : SlruCtl) (p : Z) (st : Slru) (n : Z) : Prop :=
  n ∈ bank_slotnos ctl p /\
  (valid st n /\ page_number (slot st n) = p \/
   ~ cached st p /\ (page_status (slot st n) = SLRU_PAGE_EMPTY \/
                     valid st n /\ page_dirty (slot st n) = false)).

Lemma find_slot_bank ctl st p :
  slru_ok ctl st -> 0 <= p ->
  match find_slot st (fun s => negb (bool_decide (page_status s = SLRU_PAGE_EMPTY))
                                   && (page_number s =? p)) (bank_slotnos ctl p) with
  | Some n => n ∈ bank_slotnos ctl p /\ valid st n /\ page_number (slot st n) = p
  | None => ~ cached st p
  end.
Proof.
  intros Hok Hp. destruct (find_slot _ _ _) as [n|] eqn:E.
  - apply find_slot_Some in E as [Hin Hc]. apply andb_true_iff in Hc as [Hs Hn].
    apply negb_true_iff, bool_decide_eq_false in Hs. apply Z.eqb_eq in Hn.
    split_and!; [done| |done]. apply (at_rest_valid ctl); [done| |done]. by apply (bank_in_range ctl _ p).
  - intros (n & Hn & Hv & Hpn). unfold valid in Hv.
    assert (n ∈ bank_slotnos ctl p) as Hin.
    { apply bank_slotnos_spec; [done|apply Hok|].
      destruct (ok_slot _ _ Hok n Hn) as [|(_ & _ & Hb & _)]; [congruence|]. by rewrite <- Hpn. }
    apply (find_slot_None _ _ _ n E) in Hin. rewrite Hv, Hpn, Z.eqb_refl in Hin. done.
Qed.

(** When no slot of the bank is empty, at least one does not hold the latest
    page, so the scan has found a victim. *)
Lemma scan_victim ctl st p best :
  slru_ok ctl st -> 0 <= p ->
  scan_found st (bank_slotnos ctl p) (bank_slotnos ctl p) scan_init (inr best) ->
  0 <= best_valid_delta best /\ bestvalidslot best ∈ bank_slotnos ctl p /\ valid st (bestvalidslot best).
Proof.
  intros Hok Hp (Hv & Hc & _ & Hpos). destruct (bank_two ctl p) as [H0 H1].
  set (b := _ * _) in *.
  assert (0 <= best_valid_delta best) as Hd.
  { destruct (decide (page_number (slot st b) = latest_page_number st)) as [E0|E0]; [|eauto].
    destruct (decide (page_number (slot st (b + 1)) = latest_page_number st)) as [E1|E1]; [|eauto].
    assert (b = b + 1); [|lia].
    apply (ok_uniq _ _ Hok); [by apply (bank_in_range ctl _ p)..|auto|auto|congruence]. }
  destruct Hc as [|[]]; [lia|done].
Qed.

Lemma write_back_dirty st n w l :
  in_range st n -> n ∈ l -> page_dirty (slot st n) = true -> (forall m, m ∈ l -> in_range st m) ->
  (dirty_count (write_back st n w) l < dirty_count st l)%nat.
Proof.
  intros Hn Hin Hd Hl. apply (dirty_count_lt st _ l n); [done..| |].
  - rewrite write_back_slot, Z.eqb_refl by done. done.
  - intros m Hm. rewrite write_back_slot by auto. by destruct (Z.eqb_spec n m) as [->|].
Qed.

Lemma lru_eq_dirty st st' l :
  lru_eq st st' -> (forall m, m ∈ l -> in_range st m) -> dirty_count st l = dirty_count st' l.
Proof.
  intros Heq Hl. apply dirty_count_ext. intros n Hn.
  by destruct (lru_eq_fields _ _ n Heq (Hl _ Hn)) as (_ & _ & -> & _).
Qed.

Definition select_post (ctl : SlruCtl) (p : Z) (st st' : Slru) (r : SlruError + Z) : Prop :=
  keeps ctl st st' /\
  match r with
  | inr n => selected ctl p st' n
  | inl e => exists c q, e = SlruIOError c q /\ write_fault ctl q = Some c
  end.

Lemma SlruSelectLRUPage_loop_spec ctl p fuel : forall st st' r,
  0 <= p -> slru_ok ctl st -> (dirty_count st (bank_slotnos ctl p) < fuel)%nat ->
  SlruSelectLRUPage_loop fuel ctl p st = (st', r) -> select_post ctl p st st' r.
Proof.
  induction fuel as [|fuel IH]; intros st st' r Hp Hok Hf; [lia|].
  cbn [SlruSelectLRUPage_loop].
  pose proof (find_slot_bank ctl st p Hok Hp) as Hfind. destruct (find_slot _ _ _) as [n|].
  { intros [= <- <-]. split; [by apply keeps_refl|]. destruct Hfind as (? & ?).
    split; [done|by left]. }
  destruct (SlruSelectLRUPage_scan _ _ _ _ _) as [st1 r1] eqn:Escan.
  assert (forall n, n ∈ bank_slotnos ctl p -> in_range st n) as Hbank by (intros; by apply (bank_in_range ctl _ p)).
  apply (scan_spec ctl st (bank_slotnos ctl p)) in Escan as [Heq1 Hfound]; [|done|done|done|done|by left].
  symmetry in Heq1. pose proof (lru_eq_keeps _ _ _ Hok Heq1) as Hk1.
  pose proof (keeps_ok _ _ _ Hk1) as Hok1.
  assert (~ cached st1 p) as Hnc by (intros H; apply Hfind; symmetry in Heq1; by eapply lru_eq_cached).
  destruct r1 as [n|best].
  { intros [= <- <-]. split; [done|]. destruct Hfound as [Hin He].
    destruct (lru_eq_fields _ _ n Heq1 (Hbank _ Hin)) as (_ & Es & _).
    split; [done|]. right. split; [done|]. left. by rewrite <- Es. }
  destruct (scan_victim ctl st p best Hok Hp Hfound) as (Hd & Hin & Hv).
  rewrite (proj2 (Z.ltb_ge _ _) Hd). set (n := bestvalidslot best) in *.
  destruct (lru_eq_fields _ _ n Heq1 (Hbank _ Hin)) as (_ & Es & Ed & _).
  assert (valid st1 n) as Hv1 by (unfold valid in *; congruence).
  assert (in_range st1 n) as Hn1 by by apply (bank_in_range ctl _ p).
  destruct (page_dirty (slot st1 n)) eqn:Hdirty; cbn [negb].
  2:{ intros [= <- <-]. split; [done|]. split; [done|]. right. split; [done|]. by right. }
  destruct (SlruInternalWritePage _ _ _) as [st2 [e|[]]] eqn:Ew;
    pose proof (SlruInternalWritePage_keeps _ _ _ _ _ Hok1 Hn1 Hv1 Ew) as Hk2;
    pose proof (keeps_trans _ _ _ _ Hk1 Hk2) as Hk12;
    rewrite SlruInternalWritePage_valid, Hdirty in Ew by done.
  - intros [= <- <-]. split; [done|]. destruct (write_fault _ _) eqn:Ef; [|done].
    injection Ew as <- <-. by eexists _, _.
  - intros Hloop. destruct (write_fault _ _); [done|]. injection Ew as <-.
    apply IH in Hloop as [Hk3 Hr]; [|done|apply Hk2|].
    + split; [by eapply keeps_trans|done].
    + assert (forall m, m ∈ bank_slotnos ctl p -> in_range st1 m) by (intros; by apply (bank_in_range ctl _ p)).
      pose proof (write_back_dirty st1 n (flush_target ctl st1 n) _ Hn1 Hin Hdirty ltac:(done)).
      rewrite (lru_eq_dirty st st1) in Hf by done. lia.
Qed.

Lemma SlruSelectLRUPage_spec ctl p st st' r :
  0 <= p -> slru_ok ctl st -> SlruSelectLRUPage ctl p st = (st', r) -> select_post ctl p st st' r.
Proof.
  intros Hp Hok. apply SlruSelectLRUPage_loop_spec; [done..|].
  pose proof (dirty_count_le st (bank_slotnos ctl p)) as H.
  unfold bank_slotnos in H at 2. rewrite length_fmap, length_seq in H. lia.
Qed.

(** ** Overwriting a selected slot *)

Section overwrite.
Context (ctl : SlruCtl) (st : Slru) (p n : Z) (s' : Slot).
Context (Hok : slru_ok ctl st) (Hp : 0 <= p) (Hsel : selected ctl p st n).

(** The new occupant: nothing, or the page [p] with contents that are either
    dirty or those of the file. *)
Context (Hs' : page_status s' = SLRU_PAGE_EMPTY \/
  page_status s' = SLRU_PAGE_VALID /\ page_number s' = p /\
  (page_dirty s' = false -> clean_copy ctl st p (page_buffer s'))).

Let st' := upd_slot st n (fun _ => s').

Lemma selected_in_range : in_range st n.
Proof. destruct Hsel. by apply (bank_in_range ctl _ p). Qed.

Lemma overwrite_slot m :
  in_range st m -> slot st' m = if n =? m then s' else slot st m.
Proof. intros Hm. apply slot_upd; [apply selected_in_range|done]. Qed.

Lemma overwrite_range m : in_range st' m <-> in_range st m.
Proof. apply in_range_upd. Qed.

(** No other slot holds [p]. *)
Lemma overwrite_other m :
  in_range st m -> valid st m -> n <> m -> page_number (slot st m) <> p.
Proof.
  intros Hm Hv Hne E. destruct Hsel as [_ [[Hvn Hpn]|[Hnc _]]].
  - apply Hne. apply (ok_uniq _ _ Hok); [apply selected_in_range|done..|congruence].
  - apply Hnc. by exists m.
Qed.

Lemma overwrite_ok : slru_ok ctl st'.
Proof.
  pose proof selected_in_range as Hn. split.
  - apply (ok_nbanks _ _ Hok).
  - rewrite <- (ok_nslots _ _ Hok). apply zlength_zupd.
  - intros m Hm. apply overwrite_range in Hm. rewrite overwrite_slot by done.
    destruct (Z.eqb_spec n m) as [<-|Hne]; [|apply (ok_slot _ _ Hok m Hm)].
    destruct Hs' as [|(Hv & Ep & Hd)]; [by left|right]. rewrite Ep. split_and!; [done..| |done].
    symmetry. apply bank_slotnos_spec; [done|apply Hok|apply Hsel].
  - intros i j Hi Hj. apply overwrite_range in Hi, Hj. unfold valid.
    rewrite !overwrite_slot by done.
    destruct (Z.eqb_spec n i) as [<-|], (Z.eqb_spec n j) as [<-|]; intros Hvi Hvj E.
    + done.
    + destruct (overwrite_other j); [done..|]. destruct Hs' as [|(? & ? & ?)]; congruence.
    + destruct (overwrite_other i); [done..|]. destruct Hs' as [|(? & ? & ?)]; congruence.
    + by apply (ok_uniq _ _ Hok).
Qed.

Lemma overwrite_page : page_status s' = SLRU_PAGE_VALID ->
  slru_page st' p = slot_page st p s'.
Proof.
  intros Hv. pose proof selected_in_range as Hn. pose proof overwrite_ok as Hok'.
  assert (slot st' n = s') as E by by rewrite overwrite_slot, Z.eqb_refl.
  assert (page_number (slot st' n) = p) as E' by (destruct Hs' as [|(? & ? & ?)]; congruence).
  rewrite <- E' at 1. rewrite (slru_page_slot ctl), E', E; [done|done|by apply overwrite_range|].
  unfold valid. congruence.
Qed.

(** Pages other than [p] keep their contents: what the slot held before was
    [p] itself or agreed with the file. *)
Lemma overwrite_view q : q <> p -> slru_page st' q = slru_page st q.
Proof.
  intros Hq. pose proof selected_in_range as Hn.
  destruct (cached_dec st' q) as [(m & Hm & Hv & <-)|Hc'].
  - rewrite (slru_page_slot ctl st') by (try apply overwrite_ok; done).
    apply overwrite_range in Hm. unfold valid in Hv. rewrite overwrite_slot in Hq, Hv |- * by done.
    destruct (n =? m); [|by rewrite (slru_page_slot ctl)].
    destruct Hs' as [|(? & ? & ?)]; congruence.
  - rewrite (slru_page_uncached st') by done. change (file_page st' q) with (file_page st q).
    destruct (cached_dec st q) as [(m & Hm & Hv & <-)|Hc]; [|by rewrite slru_page_uncached].
    rewrite (slru_page_slot ctl) by done. destruct (decide (n = m)) as [<-|Hne].
    + destruct Hsel as [_ [[_ ?]|[_ [?|[_ Hd]]]]]; [done|unfold valid in Hv; congruence|].
      symmetry. apply (slot_page_clean ctl); [done|by apply slot_clean].
    + destruct Hc'. exists m. unfold valid. rewrite overwrite_range, overwrite_slot by done.
      by rewrite (proj2 (Z.eqb_neq n m)).
Qed.

(** Emptying the slot when [p] was not cached changes nothing at all. *)
Lemma overwrite_empty :
  page_status s' = SLRU_PAGE_EMPTY -> ~ cached st p -> slru_page st' p = slru_page st p.
Proof.
  intros He Hc. rewrite !slru_page_uncached; [done|done|].
  intros (m & Hm & Hv & Em). apply overwrite_range in Hm. unfold valid in Hv.
  rewrite overwrite_slot in Hv, Em by done. destruct (Z.eqb_spec n m); [congruence|].
  apply Hc. by exists m.
Qed.
End overwrite.

(** Zeroing the LSNs of a slot within a larger update. *)
Definition zero_lsns (ctl : SlruCtl) (s : Slot) : Slot :=
  if 0 <? lsn_groups_per_page ctl
  then slot_set_lsns (replicate (Z.to_nat (lsn_groups_per_page ctl)) 0) s else s.

Lemma SimpleLruZeroLSNs_eq ctl n st :
  in_range st n -> SimpleLruZeroLSNs ctl n st = upd_slot st n (zero_lsns ctl).
Proof.
  intros Hn. unfold SimpleLruZeroLSNs, zero_lsns. destruct (0 <? _); [done|].
  symmetry. by apply upd_slot_id.
Qed.

Lemma zero_lsns_fields ctl s :
  page_status (zero_lsns ctl s) = page_status s /\ page_number (zero_lsns ctl s) = page_number s /\
  page_buffer (zero_lsns ctl s) = page_buffer s /\ page_dirty (zero_lsns ctl s) = page_dirty s.
Proof. unfold zero_lsns. by destruct (0 <? _). Qed.

(** ** Reading a page *)

(** What reading page [p] from the files would deliver. *)
Definition disk_read (ctl : SlruCtl) (st : Slru) (p : Z) : SlruErrorCause + list Z :=
  match read_fault ctl p with
  | Some e => inl e
  | None =>
      match files st !! seg_of p with
      | None => if InRecovery ctl then inr zero_page else inl SLRU_OPEN_FAILED
      | Some f => match f !! seg_index p with Some buf => inr buf | None => inl SLRU_READ_FAILED end
      end
  end.

Lemma SlruPhysicalReadPage_eq ctl p n st :
  SlruPhysicalReadPage ctl p n st =
    match disk_read ctl st p with
    | inl e => (st, Some e)
    | inr buf => (upd_slot st n (slot_set_buffer buf), None)
    end.
Proof. unfold SlruPhysicalReadPage, disk_read. by repeat case_match. Qed.

Lemma disk_read_spec ctl st p :
  ~ cached st p ->
  match disk_read ctl st p with
  | inr buf => clean_copy ctl st p buf
  | inl c => read_fault ctl p = Some c \/ slru_page st p = None
  end.
Proof.
  intros Hc. rewrite slru_page_uncached by done.
  unfold disk_read, clean_copy, file_page. destruct (read_fault ctl p); [by left|].
  destruct (files st !! seg_of p) as [f|]; simpl.
  - destruct (f !! seg_index p); [by left|by right].
  - destruct (InRecovery ctl); [by right|by right].
Qed.

(** The outcome of asking for page [p]. *)
Definition read_post (ctl : SlruCtl) (p : Z) (st st' : Slru) (r : SlruError + Z) : Prop :=
  keeps ctl st st' /\
  match r with
  | inr n =>
      n ∈ bank_slotnos ctl p /\ in_range st' n /\ valid st' n /\ page_number (slot st' n) = p /\
      page_buffer (slot st' n) = default zero_page (slru_page st p)
  | inl e => exists c q, e = SlruIOError c q /\
      (write_fault ctl q = Some c \/ q = p /\ (read_fault ctl p = Some c \/ slru_page st p = None))
  end.

Lemma view_default st st' p : view_le st st' -> default zero_page (slru_page st' p) = default zero_page (slru_page st p).
Proof. intros Hv. by destruct (Hv p) as [->|[-> ->]]. Qed.

(** A state that shows page [p] in slot [n] is a good outcome, also after the
    slot has been marked as recently used. *)
Lemma read_post_hit ctl p st st1 n :
  0 <= p -> keeps ctl st st1 -> n ∈ bank_slotnos ctl p -> valid st1 n -> page_number (slot st1 n) = p ->
  read_post ctl p st (SlruRecentlyUsed n st1) (inr n).
Proof.
  intros Hp Hk Hin Hv Hn. pose proof (keeps_ok _ _ _ Hk) as Hok1.
  assert (in_range st1 n) as Hr by by apply (bank_in_range ctl _ p).
  pose proof (SlruRecentlyUsed_eq st1 n Hr) as Heq. symmetry in Heq.
  destruct (lru_eq_fields _ _ n Heq Hr) as (Eb & Es & _ & Ep & _).
  pose proof (lru_eq_keeps _ _ _ Hok1 Heq) as Hk'.
  split; [by eapply keeps_trans|]. split_and!; [done| | |congruence|].
  - by apply (lru_eq_range _ _ n Heq).
  - unfold valid in *. congruence.
  - rewrite <- Eb, <- (view_default st st1 p), <- Hn by apply Hk. symmetry. by apply (slru_page_default ctl).
Qed.

Lemma selected_hit ctl p st n :
  selected ctl p st n ->
  let hit := negb (status_is st n SLRU_PAGE_EMPTY) && (page_number (slot st n) =? p) in
  in_range st n ->
  if hit then valid st n /\ page_number (slot st n) = p
  else ~ cached st p /\ (page_status (slot st n) = SLRU_PAGE_EMPTY \/
                         valid st n /\ page_dirty (slot st n) = false).
Proof.
  intros [_ [[Hv Hp]|[Hc Hs]]] hit Hr; unfold hit, status_is.
  - unfold valid in Hv. by rewrite Hv, Hp, Z.eqb_refl.
  - destruct Hs as [He|[Hv Hd]]; [rewrite He; simpl; auto|].
    unfold valid in Hv. rewrite Hv. simpl. destruct (Z.eqb_spec (page_number (slot st n)) p) as [E|E].
    + destruct Hc. by exists n.
    + auto.
Qed.

Lemma status_is_valid st n x :
  valid st n -> status_is st n x = bool_decide (SLRU_PAGE_VALID = x).
Proof. unfold status_is, valid. by intros ->. Qed.

(** Overwriting a slot for a page that was not cached, as seen from outside. *)
Lemma overwrite_keeps ctl st p n s' :
  slru_ok ctl st -> 0 <= p -> selected ctl p st n -> ~ cached st p ->
  page_status s' = SLRU_PAGE_EMPTY \/
  (page_status s' = SLRU_PAGE_VALID /\ page_number s' = p /\ page_dirty s' = false /\ clean_copy ctl st p (page_buffer s')) ->
  keeps ctl st (upd_slot st n (fun _ => s')).
Proof.
  intros Hok Hp Hsel Hc Hs.
  assert (page_status s' = SLRU_PAGE_EMPTY \/
    page_status s' = SLRU_PAGE_VALID /\ page_number s' = p /\
    (page_dirty s' = false -> clean_copy ctl st p (page_buffer s'))) as Hs'
    by (destruct Hs as [|(? & ? & ? & ?)]; [by left|by right]).
  split; [by eapply overwrite_ok| |done|apply zlength_zupd].
  intros q. left. destruct (decide (q = p)) as [->|Hq]; [|by eapply overwrite_view].
  destruct Hs as [He|(Hv & En & Hd & Hf)]; [by eapply overwrite_empty|].
  rewrite (overwrite_page ctl), slru_page_uncached by done. by apply (slot_page_clean ctl).
Qed.

Lemma SimpleLruReadPage_loop_spec ctl p write_ok fuel st st' r :
  0 <= p -> slru_ok ctl st ->
  SimpleLruReadPage_loop (S fuel) ctl p write_ok st = (st', r) -> read_post ctl p st st' r.
Proof.
  intros Hp Hok. cbn [SimpleLruReadPage_loop].
  destruct (SlruSelectLRUPage ctl p st) as [st1 [e|n]] eqn:Esel;
    apply SlruSelectLRUPage_spec in Esel as [Hk Hsel]; [|done..| |done|done].
  { intros [= <- <-]. split; [done|]. destruct Hsel as (c & q & -> & ?). eauto 6. }
  pose proof (keeps_ok _ _ _ Hk) as Hok1.
  assert (in_range st1 n) as Hn by by apply (selected_in_range ctl st1 p).
  pose proof (selected_hit ctl p st1 n Hsel Hn) as Hhit. destruct (_ && _).
  { destruct Hhit as [Hv Hpn]. rewrite !status_is_valid by done. simpl.
    intros [= <- <-]. apply read_post_hit; [done..|apply Hsel|done|done]. }
  destruct Hhit as [Hc _]. merge_upds.
  rewrite SlruPhysicalReadPage_eq. cbv zeta.
  set (g := fun s => slot_set_dirty false (slot_set_status _ (slot_set_number p s))).
  change (disk_read ctl (upd_slot st1 n g) p) with (disk_read ctl st1 p).
  pose proof (disk_read_spec ctl st1 p Hc) as Hread.
  destruct (disk_read ctl st1 p) as [c|buf];
    rewrite SimpleLruZeroLSNs_eq by (by rewrite ?in_range_upd);
    merge_upds; intros [= <- <-].
  - split.
    + eapply keeps_trans; [exact Hk|]. apply (overwrite_keeps ctl st1 p n); [done..|]. by left.
    + exists c, p. split; [done|]. right. split; [done|]. destruct Hread as [|E]; [by left|right].
      destruct (keeps_view _ _ _ Hk p) as [E'|[? ?]]; congruence.
  - set (h := fun s => slot_set_status SLRU_PAGE_VALID (zero_lsns ctl (slot_set_buffer buf (g s)))).
    destruct (zero_lsns_fields ctl (slot_set_buffer buf (g (slot st1 n)))) as (_ & En & Eb & Ed).
    apply read_post_hit; [done| |apply Hsel| |].
    + eapply keeps_trans; [exact Hk|]. apply (overwrite_keeps ctl st1 p n); [done..|]. right.
      simpl. rewrite En, Eb, Ed. done.
    + unfold valid. by rewrite slot_upd_eq.
    + rewrite slot_upd_eq by done. simpl. by rewrite En.
Qed.

Lemma SimpleLruReadPage_spec ctl p write_ok st st' r :
  0 <= p -> slru_ok ctl st ->
  SimpleLruReadPage ctl p write_ok st = (st', r) -> read_post ctl p st st' r.
Proof. apply SimpleLruReadPage_loop_spec. Qed.

Lemma SimpleLruReadPage_ReadOnly_spec ctl p st st' r :
  0 <= p -> slru_ok ctl st ->
  SimpleLruReadPage_ReadOnly ctl p st = (st', r) -> read_post ctl p st st' r.
Proof.
  intros Hp Hok. unfold SimpleLruReadPage_ReadOnly.
  destruct (find_slot _ _ _) as [n|] eqn:E; [|by apply SimpleLruReadPage_spec].
  apply find_slot_Some in E as [Hin Hc]. rewrite !andb_true_iff, Z.eqb_eq in Hc.
  destruct Hc as [[Hs Hpn] _]. apply negb_true_iff, bool_decide_eq_false in Hs.
  intros [= <- <-]. apply read_post_hit; [done|by apply keeps_refl|done| |done].
  apply (at_rest_valid ctl); [done| |done]. by apply (bank_in_range ctl _ p).
Qed.

(** ** Creating a page *)

Definition zero_post (ctl : SlruCtl) (p : Z) (st st' : Slru) (r : SlruError + Z) : Prop :=
  match r with
  | inr n =>
      slru_ok ctl st' /\ n ∈ bank_slotnos ctl p /\ in_range st' n /\ valid st' n /\
      page_number (slot st' n) = p /\ page_buffer (slot st' n) = zero_page /\
      page_dirty (slot st' n) = true /\ latest_page_number st' = p /\
      (forall q, q <> p -> page_le (slru_page st q) (slru_page st' q))
  | inl e => keeps ctl st st' /\ exists c q, e = SlruIOError c q /\ write_fault ctl q = Some c
  end.

Lemma SlruRecentlyUsed_form n st :
  in_range st n ->
  exists l x, SlruRecentlyUsed n st = upd_slot (set_bank_counts st l) n (slot_set_lru x).
Proof.
  intros Hn. unfold SlruRecentlyUsed. destruct (Z.eqb_spec (znth (bank_cur_lru_count st) (SlotGetBankNumber n))
    (page_lru_count (slot st n))) as [E|E]; [|eauto].
  exists (bank_cur_lru_count st), (page_lru_count (slot st n)). symmetry.
  rewrite upd_slot_id; [by destruct st|done|].
  change (slot (set_bank_counts st _) n) with (slot st n). by destruct (slot st n).
Qed.

Lemma set_latest_ok ctl st p : slru_ok ctl st -> slru_ok ctl (set_latest st p).
Proof. intros Hok. split; apply Hok. Qed.

Lemma SimpleLruZeroPage_spec ctl p st st' r :
  0 <= p -> slru_ok ctl st ->
  SimpleLruZeroPage ctl p st = (st', r) -> zero_post ctl p st st' r.
Proof.
  intros Hp Hok. unfold SimpleLruZeroPage, pbind, pmod, pret.
  destruct (SlruSelectLRUPage ctl p st) as [st1 [e|n]] eqn:Esel;
    apply SlruSelectLRUPage_spec in Esel as [Hk Hsel]; [|done..| |done|done]; intros [= <- <-].
  { split; done. }
  pose proof (keeps_ok _ _ _ Hk) as Hok1.
  assert (in_range st1 n) as Hn by by apply (selected_in_range ctl st1 p).
  merge_upds. set (g := fun s => slot_set_dirty true _).
  destruct (SlruRecentlyUsed_form n (upd_slot st1 n g)) as (l & x & ->); [by apply in_range_upd|].
  change (upd_slot (set_bank_counts (upd_slot st1 n g) l)) with
    (upd_slot (upd_slot (set_bank_counts st1 l) n g)).
  rewrite SimpleLruZeroLSNs_eq by (by rewrite !in_range_upd). merge_upds.
  set (h := fun s => zero_lsns ctl _).
  assert (page_status (h (slot st1 n)) = SLRU_PAGE_VALID /\ page_number (h (slot st1 n)) = p /\
    page_buffer (h (slot st1 n)) = zero_page /\ page_dirty (h (slot st1 n)) = true) as (Es & En & Eb & Ed).
  { by destruct (zero_lsns_fields ctl (slot_set_buffer zero_page (slot_set_lru x (g (slot st1 n))))) as (? & ? & ? & ?). }
  set (st2 := set_bank_counts st1 l).
  assert (slru_ok ctl st2) as Hok2 by (unfold st2; by rewrite (set_bank_counts_eq st1 l)).
  assert (slot (upd_slot st2 n h) n = h (slot st1 n)) as Hslot by exact (slot_upd_eq st2 n h Hn).
  assert (page_status (h (slot st1 n)) = SLRU_PAGE_EMPTY \/
    page_status (h (slot st1 n)) = SLRU_PAGE_VALID /\ page_number (h (slot st1 n)) = p /\
    (page_dirty (h (slot st1 n)) = false -> clean_copy ctl st2 p (page_buffer (h (slot st1 n))))) as Hnew.
  { right. rewrite Ed. done. }
  unfold zero_post, valid.
  change (slot (set_latest (upd_slot st2 n h) p) n) with (slot (upd_slot st2 n h) n).
  rewrite Hslot, Es, En, Eb, Ed. split_and!; try done.
  - apply set_latest_ok. exact (overwrite_ok ctl st2 p n (h (slot st1 n)) Hok2 Hp Hsel Hnew).
  - apply Hsel.
  - by apply in_range_upd.
  - intros q Hq. etransitivity; [apply (keeps_view _ _ _ Hk)|]. left.
    rewrite (slru_page_ext (set_latest _ _) (upd_slot st2 n h)) by done.
    rewrite <- (slru_page_ext st2 st1) by done.
    by apply (overwrite_view ctl st2 p n (h (slot st1 n)) Hok2 Hp Hsel Hnew).
Qed.

(** ** Writing everything *)

Definition clean (st : Slru) (n : Z) : Prop := valid st n -> page_dirty (slot st n) = false.

(** Writing back one slot leaves it clean and the other slots as they were. *)
Lemma SlruInternalWritePage_clean ctl n st st' :
  in_range st n -> valid st n -> SlruInternalWritePage ctl n st = (st', inr tt) ->
  clean st' n /\
  forall m, in_range st m -> page_status (slot st' m) = page_status (slot st m) /\
    (page_dirty (slot st' m) = true -> page_dirty (slot st m) = true).
Proof.
  intros Hn Hv. rewrite SlruInternalWritePage_valid by done.
  destruct (page_dirty (slot st n)) eqn:Hd; [destruct (write_fault _ _); [done|]|]; intros [= <-].
  - split.
    + intros _. by rewrite write_back_slot, Z.eqb_refl.
    + intros m Hm. rewrite write_back_slot by done. by destruct (Z.eqb_spec n m) as [->|].
  - split; [by intros _|done].
Qed.

Lemma SlruInternalWritePage_error ctl n st st' e :
  in_range st n -> valid st n -> SlruInternalWritePage ctl n st = (st', inl e) ->
  exists c q, e = SlruIOError c q /\ write_fault ctl q = Some c.
Proof.
  intros Hn Hv. rewrite SlruInternalWritePage_valid by done.
  destruct (page_dirty _); [|done]. destruct (write_fault _ _) eqn:Ef; intros [= <- <-]. by eexists _, _.
Qed.

Definition write_all_post (ctl : SlruCtl) (l : list Z) (st st' : Slru) (r : SlruError + unit) : Prop :=
  keeps ctl st st' /\
  match r with
  | inr _ => forall n, in_range st n -> n ∈ l \/ clean st n -> clean st' n
  | inl e => exists c q, e = SlruIOError c q /\ write_fault ctl q = Some c
  end.

Lemma SimpleLruWriteAll_loop_spec ctl l : forall st st' r,
  slru_ok ctl st -> (forall n, n ∈ l -> in_range st n) ->
  SimpleLruWriteAll_loop ctl l st = (st', r) -> write_all_post ctl l st st' r.
Proof.
  induction l as [|m l IH]; intros st st' r Hok Hl.
  { intros [= <- <-]. split; [by apply keeps_refl|]. intros n _ [H|]; [by apply elem_of_nil in H|done]. }
  assert (forall n, n ∈ l -> in_range st n) as Hl' by (intros; apply Hl; elem).
  assert (in_range st m) as Hm by (apply Hl; elem).
  simpl. unfold pbind at 1, pget. unfold pbind. unfold status_is.
  case_bool_decide as He.
  { intros Hloop. apply IH in Hloop as [Hk Hr]; [|done..]. split; [done|].
    destruct r as [|[]]; [done|]. intros n Hn [[->|]%elem_of_cons|]; [|auto..].
    apply Hr; [done|]. right. unfold clean, valid. congruence. }
  pose proof (at_rest_valid _ _ _ Hok Hm He) as Hv.
  destruct (SlruInternalWritePage ctl m st) as [st1 [e|[]]] eqn:Ew;
    pose proof (SlruInternalWritePage_keeps _ _ _ _ _ Hok Hm Hv Ew) as Hk1.
  { intros [= <- <-]. split; [done|]. by eapply SlruInternalWritePage_error. }
  destruct (SlruInternalWritePage_clean _ _ _ _ Hm Hv Ew) as [Hc Hothers].
  intros Hloop. apply IH in Hloop as [Hk Hr]; [|apply Hk1|].
  2:{ intros n Hn. by apply (keeps_range _ _ _ n Hk1), Hl'. }
  split; [by eapply keeps_trans|]. destruct r as [|[]]; [done|].
  intros n Hn Hcase. apply Hr; [by apply (keeps_range _ _ _ n Hk1)|].
  destruct Hcase as [[->|]%elem_of_cons|Hcl]; [by right|by left|right].
  intros Hv1. destruct (Hothers n Hn) as [Es Ed]. destruct (page_dirty (slot st1 n)); [|done].
  rewrite <- Hcl; [symmetry; by apply Ed|]. unfold valid in *. congruence.
Qed.

(** When every slot is clean the files hold exactly what the cache shows. *)
Lemma clean_file_page ctl st p :
  slru_ok ctl st -> (forall n, in_range st n -> clean st n) -> file_page st p = slru_page st p.
Proof.
  intros Hok Hc. destruct (cached_dec st p) as [(n & Hn & Hv & <-)|Hnc]; [|by rewrite slru_page_uncached].
  rewrite (slru_page_slot ctl) by done. pose proof (Hc n Hn Hv) as Hd.
  symmetry. apply (slot_page_clean ctl); [done|by apply slot_clean].
Qed.

Lemma SimpleLruWriteAll_spec ctl st st' r :
  slru_ok ctl st -> SimpleLruWriteAll ctl st = (st', r) ->
  keeps ctl st st' /\
  match r with
  | inr _ => forall p, file_page st' p = slru_page st' p
  | inl e => exists c q, e = SlruIOError c q /\ write_fault ctl q = Some c
  end.
Proof.
  intros Hok. unfold SimpleLruWriteAll, pbind, pget. intros Hloop.
  apply SimpleLruWriteAll_loop_spec in Hloop as [Hk Hr]; [|done|by intros n ?%all_slotnos_spec].
  split; [done|]. destruct r as [|[]]; [done|]. intros p. apply (clean_file_page ctl); [apply Hk|].
  intros n Hn. apply (keeps_range _ _ _ n Hk) in Hn. apply Hr; [done|left]. by apply all_slotnos_spec.
Qed.

(** ** WAL before data *)

Lemma foldl_max_ge (l : list Z) (a : Z) :
  let m := foldl (fun max_lsn this_lsn => if max_lsn <? this_lsn then this_lsn else max_lsn) a l in
  a <= m /\ Forall (fun x => x <= m) l.
Proof.
  revert a. induction l as [|x l IH]; intros a; simpl; [done|].
  destruct (IH (if a <? x then x else a)) as [H1 H2]. destruct_bools; split; try lia; constructor; (done || lia).
Qed.

Lemma max_group_lsn_ge s : Forall (fun x => x <= max_group_lsn s) (group_lsn s).
Proof.
  unfold max_group_lsn. destruct (group_lsn s) as [|x l]; [done|].
  destruct (foldl_max_ge l x) as [H1 H2]. by constructor.
Qed.

Lemma SlruPhysicalWritePage_wal ctl p n st st' r :
  0 < lsn_groups_per_page ctl -> Forall (fun x => 0 <= x) (group_lsn (slot st n)) -> 0 <= wal_flushed st ->
  SlruPhysicalWritePage ctl p n st = (st', r) ->
  Forall (fun x => x <= wal_flushed st') (group_lsn (slot st n)).
Proof.
  intros Hg Hnn Hw. rewrite SlruPhysicalWritePage_eq. intros H.
  assert (wal_flushed st' = flush_target ctl st n) as ->
    by (destruct (write_fault ctl p); injection H as <- _; done).
  eapply Forall_impl; [apply max_group_lsn_ge|]. simpl. intros x Hx.
  unfold flush_target. rewrite (proj2 (Z.ltb_lt 0 _) Hg).
  destruct (Z.eqb_spec (max_group_lsn (slot st n)) 0); lia.
Qed.

(** ** Truncation *)

(** Dropping a clean slot leaves every page readable as before. *)
Lemma empty_slot_keeps ctl st n :
  slru_ok ctl st -> in_range st n -> valid st n -> page_dirty (slot st n) = false ->
  keeps ctl st (upd_slot st n (slot_set_status SLRU_PAGE_EMPTY)).
Proof.
  intros Hok Hn Hv Hd. pose proof (page_number_nonneg _ _ _ Hok Hn Hv) as Hp.
  destruct (ok_slot _ _ Hok n Hn) as [|(_ & _ & Hb & Hf)]; [unfold valid in Hv; congruence|].
  set (p := page_number (slot st n)) in *.
  assert (selected ctl p st n) as Hsel.
  { split; [|by left]. apply bank_slotnos_spec; [done|apply Hok|done]. }
  set (s' := slot_set_status SLRU_PAGE_EMPTY (slot st n)).
  change (upd_slot st n _) with (upd_slot st n (fun _ => s')).
  split; [apply (overwrite_ok ctl st p n s'); auto| |done|apply zlength_zupd].
  intros q. left. destruct (decide (q = p)) as [->|Hq]; [|apply (overwrite_view ctl st p n s'); auto].
  unfold p. rewrite (slru_page_slot ctl st n) by done. fold p. rewrite (slot_page_clean ctl st p) by auto.
  etransitivity; [apply slru_page_uncached|done]. intros (m & Hm & Hvm & Em).
  rewrite in_range_upd in Hm. unfold valid in Hvm.
  rewrite (overwrite_slot ctl st p n s') in Hvm, Em by done.
  destruct (Z.eqb_spec n m) as [E|E]; [done|]. apply E. by apply (ok_uniq _ _ Hok).
Qed.

(** A slot whose page survives a truncation at [cutoff]. *)
Definition past_cutoff (ctl : SlruCtl) (cutoff : Z) (s : Slot) : Prop :=
  page_status s = SLRU_PAGE_EMPTY \/ PagePrecedes ctl (page_number s) cutoff = false.

Definition truncate_scan_post (ctl : SlruCtl) (cutoff : Z) (l : list Z) (st st' : Slru)
    (r : SlruError + bool) : Prop :=
  keeps ctl st st' /\ latest_page_number st' = latest_page_number st /\
  match r with
  | inl e => exists c q, e = SlruIOError c q /\ write_fault ctl q = Some c
  | inr true => (dirty_count st' (all_slotnos st) < dirty_count st (all_slotnos st))%nat
  | inr false =>
      (forall n, in_range st n -> n ∈ l \/ past_cutoff ctl cutoff (slot st n) ->
                 past_cutoff ctl cutoff (slot st' n)) /\
      (dirty_count st' (all_slotnos st) <= dirty_count st (all_slotnos st))%nat
  end.

Lemma all_slotnos_upd st n f : all_slotnos (upd_slot st n f) = all_slotnos st.
Proof. unfold all_slotnos, upd_slot. simpl. by rewrite length_zupd. Qed.

Lemma truncate_scan_spec ctl cutoff l : forall st st' r,
  slru_ok ctl st -> (forall n, n ∈ l -> in_range st n) ->
  SimpleLruTruncate_scan ctl cutoff l st = (st', r) -> truncate_scan_post ctl cutoff l st st' r.
Proof.
  induction l as [|m l IH]; intros st st' r Hok Hl; cbn [SimpleLruTruncate_scan].
  { intros [= <- <-]. split; [by apply keeps_refl|]. split; [done|]. split; [|done].
    intros n _ [H|]; [by apply elem_of_nil in H|done]. }
  assert (forall n, n ∈ l -> in_range st n) as Hl' by (intros; apply Hl; elem).
  assert (in_range st m) as Hm by (apply Hl; elem).
  assert (past_cutoff ctl cutoff (slot st m) ->
    SimpleLruTruncate_scan ctl cutoff l st = (st', r) -> truncate_scan_post ctl cutoff (m :: l) st st' r) as Hskip.
  { intros Hpc Hs. apply IH in Hs as (Hk & Hlat & Hr); [|done..]. split; [done|]. split; [done|].
    destruct r as [|[]]; [done..|]. destruct Hr as [Hr Hd]. split; [|done].
    intros n Hn [[->|]%elem_of_cons|]; apply Hr; auto. }
  unfold status_is at 1. case_bool_decide as He; [apply Hskip; by left|].
  destruct (PagePrecedes ctl _ cutoff) eqn:Hpp; cbn [negb]; [|apply Hskip; by right].
  pose proof (at_rest_valid _ _ _ Hok Hm He) as Hv. rewrite !(status_is_valid st m) by done. simpl.
  destruct (page_dirty (slot st m)) eqn:Hd; cbn [negb].
  - destruct (SlruInternalWritePage ctl m st) as [st1 [e|[]]] eqn:Ew;
      pose proof (SlruInternalWritePage_keeps _ _ _ _ _ Hok Hm Hv Ew) as Hk1;
      pose proof Ew as Ew'; rewrite SlruInternalWritePage_valid, Hd in Ew by done;
      destruct (write_fault _ _) eqn:Ef; try done; injection Ew as <-; intros [= <- <-].
    + split; [done|]. split; [done|]. eauto.
    + split; [done|]. split; [done|]. apply write_back_dirty; [done|by apply all_slotnos_spec|done|].
      by intros n ?%all_slotnos_spec.
  - intros Hs. pose proof (empty_slot_keeps _ _ _ Hok Hm Hv Hd) as Hk1.
    apply IH in Hs as (Hk & Hlat & Hr); [|apply Hk1|intros n Hn; by apply in_range_upd, Hl'].
    split; [by eapply keeps_trans|]. split; [done|].
    assert (dirty_count (upd_slot st m (slot_set_status SLRU_PAGE_EMPTY)) (all_slotnos st)
      = dirty_count st (all_slotnos st)) as Hcount.
    { apply dirty_count_ext. intros n ?%all_slotnos_spec. rewrite slot_upd by done.
      by destruct (Z.eqb_spec m n) as [->|]. }
    rewrite all_slotnos_upd, Hcount in Hr. destruct r as [|[]]; [done..|].
    destruct Hr as [Hr ?]. split; [|done]. intros n Hn Hcase. apply Hr; [by apply in_range_upd|].
    rewrite slot_upd by done. destruct (Z.eqb_spec m n) as [->|]; [right; by left|].
    destruct Hcase as [[->|]%elem_of_cons|]; [done|by left|by right].
Qed.

Section truncate.
Context (ctl : SlruCtl) (cutoff : Z).

Definition deletable (segno : Z) : bool :=
  SlruMayDeleteSegment ctl (segno * SLRU_PAGES_PER_SEGMENT) cutoff.

Lemma scan_directory_fold l st :
  let st' := foldr (fun segno st =>
    SlruScanDirCbDeleteCutoff ctl (segno * SLRU_PAGES_PER_SEGMENT) cutoff st) st l in
  slots st' = slots st /\ latest_page_number st' = latest_page_number st /\
  wal_flushed st' = wal_flushed st /\
  forall s, files st' !! s =
    if bool_decide (s ∈ l) && deletable s then None else files st !! s.
Proof.
  induction l as [|x l IH]; cbn [foldr].
  { split_and!; [done..|]. intros s. rewrite bool_decide_false; [done|]. by apply not_elem_of_nil. }
  cbv zeta in *. set (st1 := foldr _ _ _) in *. destruct IH as (IHs & IHn & IHw & IH).
  unfold SlruScanDirCbDeleteCutoff. fold (deletable x). destruct (deletable x) eqn:Hx; simpl.
  - split_and!; [done..|]. intros s. rewrite Z.div_mul by done.
    destruct (decide (s = x)) as [->|Hne].
    + rewrite lookup_delete_eq, Hx, bool_decide_true; [done|]. elem.
    + rewrite lookup_delete_ne, IH by done.
      rewrite (bool_decide_ext (s ∈ x :: l) (s ∈ l)); [done|]. rewrite elem_of_cons. tauto.
  - split_and!; [done..|]. intros s. rewrite IH.
    destruct (decide (s = x)) as [->|Hne]; [by rewrite Hx, !andb_false_r|].
    rewrite (bool_decide_ext (s ∈ x :: l) (s ∈ l)); [done|]. rewrite elem_of_cons. tauto.
Qed.

Lemma scan_directory_spec st :
  let st' := SlruScanDirectory_DeleteCutoff ctl cutoff st in
  slots st' = slots st /\ latest_page_number st' = latest_page_number st /\
  wal_flushed st' = wal_flushed st /\
  forall q, file_page st' q = if deletable (seg_of q) then None else file_page st q.
Proof.
  destruct (scan_directory_fold (elements (dom (files st))) st) as (Hs & Hn & Hw & Hf).
  split_and!; [done..|]. intros q. unfold file_page, SlruScanDirectory_DeleteCutoff. rewrite Hf.
  destruct (deletable (seg_of q)); [|by rewrite andb_false_r].
  rewrite andb_true_r. case_bool_decide as Hin; [done|].
  rewrite elem_of_elements, not_elem_of_dom in Hin. by rewrite Hin.
Qed.

(** The order on pages must not split a deletable segment: when its first and
    last page precede the cutoff, so does every page between them. *)
Context (Hconvex : forall q, 0 <= q -> deletable (seg_of q) = true -> PagePrecedes ctl q cutoff = true).

Lemma delete_segments_spec st :
  slru_ok ctl st -> (forall n, in_range st n -> past_cutoff ctl cutoff (slot st n)) ->
  let st' := SlruScanDirectory_DeleteCutoff ctl cutoff st in
  slru_ok ctl st' /\
  forall q, 0 <= q -> slru_page st' q = if deletable (seg_of q) then None else slru_page st q.
Proof.
  intros Hok Hpast st'. destruct (scan_directory_spec st) as (Es & _ & _ & Hf). fold st' in Es, Hf.
  assert (forall n, slot st' n = slot st n) as Eslot by (intros n; unfold slot; by rewrite Es).
  assert (forall n, in_range st' n <-> in_range st n) as Er by (intros n; unfold in_range; by rewrite Es).
  assert (forall n, in_range st n -> valid st n -> deletable (seg_of (page_number (slot st n))) = false) as Hkeep.
  { intros n Hn Hv. destruct (Hpast n Hn) as [He|Hp]; [unfold valid in Hv; congruence|].
    destruct (deletable _) eqn:Hd; [|done]. rewrite Hconvex in Hp; [done| |done].
    by apply (page_number_nonneg ctl). }
  split.
  - split; [apply Hok|rewrite Es; apply Hok| |].
    + intros n Hn%Er. rewrite Eslot. destruct (ok_slot _ _ Hok n Hn) as [|(Hv & Hp & Hb & Hd)]; [by left|right].
      split_and!; [done..|]. intros Hc. unfold clean_copy. rewrite Hf, (Hkeep n Hn Hv). by apply Hd.
    + intros n m Hn%Er Hm%Er. unfold valid. rewrite !Eslot. by apply (ok_uniq _ _ Hok).
  - intros q Hq. unfold slru_page at 1. rewrite (find_slot_ext st' st) by done.
    unfold all_slotnos. rewrite Es. fold (all_slotnos st).
    destruct (find_slot st (holds q) (all_slotnos st)) as [n|] eqn:E.
    + pose proof E as E'. apply find_slot_Some in E as [Hn%all_slotnos_spec Hh].
      apply holds_spec in Hh as [Hv <-]. rewrite Hkeep, Eslot by done. unfold slru_page. rewrite E'.
      apply slot_page_ext; [done..|]. by rewrite Hf, Hkeep.
    + rewrite Hf. unfold slru_page. by rewrite E.
Qed.

Definition truncate_post (st st' : Slru) (r : SlruError + unit) : Prop :=
  slru_ok ctl st' /\
  (forall q, 0 <= q -> deletable (seg_of q) = false -> page_le (slru_page st q) (slru_page st' q)) /\
  match r with
  | inl e => view_le st st' /\ exists c q, e = SlruIOError c q /\ write_fault ctl q = Some c
  | inr _ =>
      if PagePrecedes ctl (latest_page_number st) cutoff then st' = st
      else forall q, 0 <= q -> deletable (seg_of q) = true -> slru_page st' q = None
  end.

Lemma SimpleLruTruncate_loop_spec fuel : forall st st' r,
  slru_ok ctl st -> (dirty_count st (all_slotnos st) < fuel)%nat ->
  SimpleLruTruncate_loop fuel ctl cutoff st = (st', r) -> truncate_post st st' r.
Proof.
  induction fuel as [|fuel IH]; intros st st' r Hok Hf; [lia|]. cbn [SimpleLruTruncate_loop].
  unfold truncate_post. destruct (PagePrecedes ctl (latest_page_number st) cutoff) eqn:Hwrap.
  { by intros [= <- <-]. }
  destruct (SimpleLruTruncate_scan _ _ _ _) as [st1 r1] eqn:Escan.
  apply truncate_scan_spec in Escan as (Hk & Hlat & Hr); [|done|by intros n ?%all_slotnos_spec].
  pose proof (keeps_view _ _ _ Hk) as Hview. destruct r1 as [e|[]].
  - intros [= <- <-]. split_and!; [apply Hk|intros q _ _; apply Hview|done|done].
  - intros Hl. apply IH in Hl as (Hok' & Hpages & Hres); [|apply Hk|].
    + rewrite Hlat, Hwrap in Hres. split_and!; [done| |].
      * intros q Hq Hd. etransitivity; [apply Hview|by apply Hpages].
      * destruct r; [|done]. destruct Hres as [Hv2 He]. split; [by etransitivity|done].
    + assert (all_slotnos st1 = all_slotnos st) as ->; [|lia]. unfold all_slotnos. do 2 f_equal.
      pose proof (keeps_len _ _ _ Hk). unfold zlength in *. lia.
  - intros [= <- <-]. destruct Hr as [Hpast _].
    destruct (delete_segments_spec st1) as [Hok' Hpages]; [apply Hk| |].
    { intros n Hn. apply (keeps_range _ _ _ n Hk) in Hn. apply Hpast; [done|left].
      by apply all_slotnos_spec. }
    split_and!; [done| |].
    + intros q Hq Hd. rewrite Hpages, Hd by done. apply Hview.
    + intros q Hq Hd. by rewrite Hpages, Hd.
Qed.

Lemma SimpleLruTruncate_spec st st' r :
  slru_ok ctl st -> SimpleLruTruncate ctl cutoff st = (st', r) -> truncate_post st st' r.
Proof.
  intros Hok. unfold SimpleLruTruncate. apply SimpleLruTruncate_loop_spec; [done|].
  pose proof (dirty_count_le st (all_slotnos st)) as H.
  unfold all_slotnos in H at 2. rewrite length_fmap, length_seq in H. lia.
Qed.
End truncate.

(** ** Changing a page in its slot

    What callers do with a slot that a read has returned: change the buffer
    and mark it dirty. *)

Lemma update_page_spec ctl st n p f :
  slru_ok ctl st -> n ∈ bank_slotnos ctl p -> in_range st n -> valid st n -> page_number (slot st n) = p ->
  let s' := f (slot st n) in
  page_status s' = SLRU_PAGE_VALID -> page_number s' = p ->
  (page_dirty s' = true \/ page_dirty s' = page_dirty (slot st n) /\ page_buffer s' = page_buffer (slot st n)) ->
  let st' := upd_slot st n f in
  slru_ok ctl st' /\ slru_page st' p = slot_page st p s' /\
  (forall q, q <> p -> slru_page st' q = slru_page st q).
Proof.
  intros Hok Hin Hn Hv Hpn s' Hs Hp' Hd st'.
  assert (0 <= p) as Hp by (rewrite <- Hpn; by apply (page_number_nonneg ctl)).
  assert (selected ctl p st n) as Hsel by (split; [done|by left]).
  assert (page_status s' = SLRU_PAGE_EMPTY \/
    page_status s' = SLRU_PAGE_VALID /\ page_number s' = p /\
    (page_dirty s' = false -> clean_copy ctl st p (page_buffer s'))) as Hnew.
  { right. split_and!; [done..|]. intros E. destruct Hd as [?|[E1 E2]]; [congruence|].
    rewrite E2, <- Hpn. apply slot_clean; [done..|congruence]. }
  change st' with (upd_slot st n (fun _ => s')). split_and!.
  - by apply (overwrite_ok ctl st p n s').
  - by apply (overwrite_page ctl st p n s').
  - intros q Hq. by apply (overwrite_view ctl st p n s').
Qed.

(** Changing the contents of a cached page, whatever becomes of its dirty flag,
    shows in that page only. *)
Lemma slru_page_upd ctl st n f q :
  slru_ok ctl st -> in_range st n -> valid st n ->
  page_status (f (slot st n)) = SLRU_PAGE_VALID -> page_number (f (slot st n)) = page_number (slot st n) ->
  slru_page (upd_slot st n f) q =
    if q =? page_number (slot st n) then slot_page st q (f (slot st n)) else slru_page st q.
Proof.
  intros Hok Hn Hv Hs Hp. unfold slru_page. rewrite all_slotnos_upd.
  assert (forall m, in_range st m -> holds q (slot (upd_slot st n f) m) = holds q (slot st m)) as Hh.
  { intros m Hm. rewrite slot_upd by done. destruct (Z.eqb_spec n m) as [<-|]; [|done].
    unfold holds. unfold valid in Hv. by rewrite Hs, Hp, Hv. }
  assert (forall l, (forall m, m ∈ l -> in_range st m) ->
    find_slot (upd_slot st n f) (holds q) l = find_slot st (holds q) l) as Hfind.
  { induction l as [|m l IH]; intros Hl; simpl; [done|]. rewrite Hh by (apply Hl; elem).
    rewrite IH; [done|]. intros; apply Hl; elem. }
  rewrite Hfind by by intros m ?%all_slotnos_spec.
  destruct (Z.eqb_spec q (page_number (slot st n))) as [->|Hq];
    destruct (find_slot st _ _) as [m|] eqn:E.
  - apply find_slot_Some in E as [Hm%all_slotnos_spec [Hvm Hpm]%holds_spec].
    by rewrite <- (ok_uniq _ _ Hok n m), slot_upd_eq by done.
  - pose proof (find_slot_None _ _ _ n E) as H. rewrite all_slotnos_spec in H. specialize (H Hn).
    assert (holds (page_number (slot st n)) (slot st n) = true) by by apply holds_spec. congruence.
  - apply find_slot_Some in E as [Hm%all_slotnos_spec [Hvm Hpm]%holds_spec].
    rewrite slot_upd by done. destruct (Z.eqb_spec n m) as [->|]; [congruence|done].
  - done.
Qed.

Lemma SimpleLruInit_ok ctl nslots nlsns fs wal :
  check_slru_buffers nslots = true -> 0 < nslots -> nbanks ctl = nslots / SLRU_BANK_SIZE ->
  slru_ok ctl (SimpleLruInit nslots nlsns fs wal) /\
  forall p, slru_page (SimpleLruInit nslots nlsns fs wal) p = file_page (SimpleLruInit nslots nlsns fs wal) p.
Proof.
  unfold check_slru_buffers, SLRU_BANK_SIZE. rewrite Z.eqb_eq. intros Hmod Hpos Hnb.
  set (st := SimpleLruInit _ _ _ _).
  assert (forall n, in_range st n -> page_status (slot st n) = SLRU_PAGE_EMPTY) as He.
  { intros n [Hn1 Hn2]. unfold zlength in Hn2. unfold slot, znth.
    unfold st, SimpleLruInit in *. cbn [slots] in *. rewrite length_replicate in Hn2. rewrite lookup_total_replicate_2 by lia. done. }
  split; [split|].
  - lia.
  - unfold zlength, st, SimpleLruInit. cbn [slots]. rewrite length_replicate. unfold SLRU_BANK_SIZE. lia.
  - intros n Hn. left. auto.
  - intros n m Hn Hm Hv. unfold valid in Hv. rewrite He in Hv; done.
  - intros p. apply slru_page_uncached. intros (n & Hn & Hv & _). unfold valid in Hv. rewrite He in Hv; done.
Qed.

(** ** Pages of bytes *)

Definition page_wf (pg : list Z) : Prop := length pg = Z.to_nat BLCKSZ /\ Forall is_u8 pg.

Lemma zero_page_wf : page_wf zero_page.
Proof.
  split; [apply length_replicate|]. apply Forall_replicate. unfold is_u8. lia.
Qed.

Lemma page_upd_wf pg i b : page_wf pg -> is_u8 b -> page_wf (zupd pg i b).
Proof.
  intros [Hl Hf] Hb. split; [by rewrite length_zupd|]. by apply Forall_insert.
Qed.

(** A well-formed cache all of whose pages are whole pages of bytes. *)
Record slru_wf (ctl : SlruCtl) (st : Slru) : Prop := {
  wf_slru : slru_ok ctl st;
  wf_pages : forall q pg, 0 <= q -> slru_page st q = Some pg -> page_wf pg;
}.

Lemma page_le_wf a b : page_le a b -> (forall pg, a = Some pg -> page_wf pg) ->
  forall pg, b = Some pg -> page_wf pg.
Proof. intros [->|[-> ->]] H pg E; [auto|]. injection E as <-. apply zero_page_wf. Qed.

Lemma page_le_default a b : page_le a b -> default zero_page b = default zero_page a.
Proof. by intros [->|[-> ->]]. Qed.

Lemma page_le_is_Some a b : page_le a b -> is_Some a -> is_Some b.
Proof. intros [->|[-> ->]] H; [done|]. by eexists. Qed.

Lemma keeps_wf ctl st st' : keeps ctl st st' -> slru_wf ctl st -> slru_wf ctl st'.
Proof.
  intros Hk Hok. split; [apply Hk|]. intros q pg Hq. eapply page_le_wf; [apply Hk|].
  intros pg'. by apply (wf_pages _ _ Hok).
Qed.

(** Also the buffer of a slot that is not a page yet is one of bytes. *)
Lemma slot_wf ctl st n : slru_wf ctl st -> in_range st n -> valid st n -> page_wf (page_buffer (slot st n)).
Proof.
  intros [Hok Hpg] Hn Hv. rewrite <- (slru_page_default ctl) by done.
  destruct (slru_page st _) eqn:E; [|apply zero_page_wf]. eapply Hpg; [by eapply number_nonneg|exact E].
Qed.

Definition io_error (e : SlruError) : Prop := exists c q, e = SlruIOError c q.

(** ** Properties *)

(** C35. Reading a page, for writing or read-only: the search ends; it returns a
    slot that holds the page asked for, with exactly the contents the cache
    and the files represented before (zeroes for a hole); a failure is an I/O
    error of a system call on that page or of writing back a victim, or the
    page did not exist.  In every case no other page changes, however many
    dirty victims were evicted, and the cache stays well formed. *)
Theorem slru_read_page ctl p write_ok st :
  0 <= p -> slru_ok ctl st ->
  (let '(st', r) := SimpleLruReadPage ctl p write_ok st in read_post ctl p st st' r) /\
  (let '(st', r) := SimpleLruReadPage_ReadOnly ctl p st in read_post ctl p st st' r).
Proof.
  intros Hp Hok. split.
  - destruct (SimpleLruReadPage ctl p write_ok st) eqn:E. by eapply SimpleLruReadPage_spec.
  - destruct (SimpleLruReadPage_ReadOnly ctl p st) eqn:E. by eapply SimpleLruReadPage_ReadOnly_spec.
Qed.

Definition demo_ctl : SlruCtl := MkSlruCtl 1 2 Z.ltb false (fun _ => None) (fun _ => None).
Definition demo_slru : Slru := SimpleLruInit 16 2 {[ 0 := [ [1; 2]; [3; 4] ] ]} 5.

Lemma demo_ok : slru_ok demo_ctl demo_slru.
Proof. by apply SimpleLruInit_ok. Qed.

Lemma slru_read_page_witness :
  (let '(st', r) := SimpleLruReadPage demo_ctl 1 false demo_slru in read_post demo_ctl 1 demo_slru st' r) /\
  (let '(st', r) := SimpleLruReadPage_ReadOnly demo_ctl 1 demo_slru in read_post demo_ctl 1 demo_slru st' r).
Proof. apply (slru_read_page demo_ctl 1 false demo_slru); [lia|apply demo_ok]. Defined.

(** Creating a page: on success the page reads as zeroes from a dirty slot
    and is the latest page, all other pages keep their contents and the cache
    stays well formed; a failure is a failed write-back that loses nothing. *)
Theorem slru_zero_page ctl p st :
  0 <= p -> slru_ok ctl st ->
  let '(st', r) := SimpleLruZeroPage ctl p st in
  zero_post ctl p st st' r /\ (forall n, r = inr n -> slru_page st' p = Some zero_page).
Proof.
  intros Hp Hok. destruct (SimpleLruZeroPage ctl p st) as [st' r] eqn:E.
  pose proof (SimpleLruZeroPage_spec ctl p st st' r Hp Hok E) as H. split; [done|].
  intros n ->. destruct H as (Hok' & _ & Hn & Hv & <- & <- & Hd & _).
  rewrite (slru_page_slot ctl) by done. by apply slot_page_dirty.
Qed.

Lemma slru_zero_page_witness :
  let '(st', r) := SimpleLruZeroPage demo_ctl 40 demo_slru in
  zero_post demo_ctl 40 demo_slru st' r /\ (forall n, r = inr n -> slru_page st' 40 = Some zero_page).
Proof. apply (slru_zero_page demo_ctl 40 demo_slru); [lia|apply demo_ok]. Defined.

(** A checkpoint of the cache that reports success has put every page the
    cache represents into the files; one that fails names a failed write and
    has lost nothing. *)
Theorem slru_write_all_durable ctl st :
  slru_ok ctl st ->
  let '(st', r) := SimpleLruWriteAll ctl st in
  keeps ctl st st' /\
  match r with
  | inr _ => forall p, file_page st' p = slru_page st' p
  | inl e => exists c q, e = SlruIOError c q /\ write_fault ctl q = Some c
  end.
Proof.
  intros Hok. destruct (SimpleLruWriteAll ctl st) eqn:E. by apply SimpleLruWriteAll_spec.
Qed.

Definition demo_dirty : Slru := fst (SimpleLruZeroPage demo_ctl 40 demo_slru).

Lemma demo_dirty_ok : slru_ok demo_ctl demo_dirty.
Proof.
  unfold demo_dirty. destruct (SimpleLruZeroPage demo_ctl 40 demo_slru) as [st' r] eqn:E.
  apply SimpleLruZeroPage_spec in E; [|lia|apply demo_ok].
  destruct r; [apply (keeps_ok _ demo_slru); apply E|apply E].
Qed.

Lemma slru_write_all_durable_witness :
  let '(st', r) := SimpleLruWriteAll demo_ctl demo_dirty in
  keeps demo_ctl demo_dirty st' /\
  match r with
  | inr _ => forall p, file_page st' p = slru_page st' p
  | inl e => exists c q, e = SlruIOError c q /\ write_fault demo_ctl q = Some c
  end.
Proof. apply (slru_write_all_durable demo_ctl demo_dirty), demo_dirty_ok. Defined.

(** WAL before data: by the time a page has been handed to the operating
    system, WAL has been flushed past every LSN recorded for the page, whether
    or not the write then succeeds. *)
Theorem slru_wal_before_data ctl p n st :
  0 < lsn_groups_per_page ctl -> Forall (fun x => 0 <= x) (group_lsn (slot st n)) -> 0 <= wal_flushed st ->
  let '(st', r) := SlruPhysicalWritePage ctl p n st in
  wal_flushed st <= wal_flushed st' /\
  Forall (fun x => x <= wal_flushed st') (group_lsn (slot st n)).
Proof.
  intros Hg Hnn Hw. destruct (SlruPhysicalWritePage ctl p n st) as [st' r] eqn:E.
  split; [|by eapply SlruPhysicalWritePage_wal].
  rewrite SlruPhysicalWritePage_eq in E. pose proof (flush_target_ge ctl st n).
  by destruct (write_fault ctl p); injection E as <- _.
Qed.

Lemma slru_wal_before_data_witness :
  let '(st', r) := SlruPhysicalWritePage demo_ctl 0 0 demo_slru in
  wal_flushed demo_slru <= wal_flushed st' /\
  Forall (fun x => x <= wal_flushed st') (group_lsn (slot demo_slru 0)).
Proof.
  apply (slru_wal_before_data demo_ctl 0 0 demo_slru); [done| |done].
  repeat constructor; done.
Defined.

(** Truncation: it terminates; segments that may not be deleted keep every
    page, in the cache or in the files; unless the call is refused because the
    latest page itself precedes the cutoff, every page of a deletable segment
    is gone; and the cache stays well formed. *)
Theorem slru_truncate ctl cutoff st :
  (forall q, 0 <= q -> deletable ctl cutoff (seg_of q) = true -> PagePrecedes ctl q cutoff = true) ->
  slru_ok ctl st ->
  let '(st', r) := SimpleLruTruncate ctl cutoff st in truncate_post ctl cutoff st st' r.
Proof.
  intros Hconvex Hok. destruct (SimpleLruTruncate ctl cutoff st) eqn:E.
  by apply SimpleLruTruncate_spec.
Qed.

Lemma slru_truncate_witness :
  let '(st', r) := SimpleLruTruncate demo_ctl 32 demo_dirty in truncate_post demo_ctl 32 demo_dirty st' r.
Proof.
  apply (slru_truncate demo_ctl 32 demo_dirty); [|apply demo_dirty_ok].
  intros q Hq. unfold deletable, SlruMayDeleteSegment, seg_of, SLRU_PAGES_PER_SEGMENT. simpl. lia.
Defined.
