(* ===== verification/SlruEntries.v ===== *)
(** * Records in the pages of an SLRU log

    What the clients of [src/backend/access/transam/slru.c] do with a page once
    they have it: read and write little-endian fields at an offset, change a
    page and mark it dirty, look at a page, and start a new one. *)

From S2P Require Import Prelude.
From S2P Require Import Slru.

(** The [n] bytes from offset [off], least significant first. *)
Fixpoint get_le (pg : list Z) (off : Z) (n : nat) : Z :=
  match n with
  | O => 0
  | S n => znth pg off + 0x100 * get_le pg (off + 1) n
  end.

Fixpoint put_le (pg : list Z) (off : Z) (n : nat) (v : Z) : list Z :=
  match n with
  | O => pg
  | S n => put_le (zupd pg off (u8 v)) (off + 1) n (v / 0x100)
  end.

Lemma put_le_wf n : forall pg off v, page_wf pg -> page_wf (put_le pg off n v).
Proof. induction n as [|n IH]; intros pg off v Hwf; [done|]. apply IH, page_upd_wf; [done|apply u8_range]. Qed.

Lemma znth_put_before n : forall pg off v i, i < off -> 0 <= i -> znth (put_le pg off n v) i = znth pg i.
Proof.
  induction n as [|n IH]; intros pg off v i Hi H0; [done|]. cbn [put_le]. rewrite IH by lia. apply znth_zupd_ne; lia.
Qed.

Lemma get_put_same n : forall pg off v, 0 <= off -> off + Z.of_nat n <= zlength pg -> 0 <= v < 0x100 ^ Z.of_nat n ->
  get_le (put_le pg off n v) off n = v.
Proof.
  induction n as [|n IH]; intros pg off v Ho Hl Hv; [cbn in *; lia|]. cbn [get_le put_le].
  rewrite znth_put_before by lia. rewrite znth_zupd_eq by lia.
  rewrite Nat2Z.inj_succ, Z.pow_succ_r in Hv by lia.
  rewrite IH; [unfold u8; lia|lia|rewrite zlength_zupd; lia|lia].
Qed.

(** Fields that do not overlap do not interfere. *)
Lemma znth_put_other n : forall pg off v i, 0 <= off -> 0 <= i -> i < off \/ off + Z.of_nat n <= i ->
  znth (put_le pg off n v) i = znth pg i.
Proof.
  induction n as [|n IH]; intros pg off v i Ho H0 Hi; [done|]. cbn [put_le]. rewrite IH by lia. apply znth_zupd_ne; lia.
Qed.

Lemma get_put_other m : forall n pg off off' v, 0 <= off -> 0 <= off' ->
  off' + Z.of_nat m <= off \/ off + Z.of_nat n <= off' -> get_le (put_le pg off n v) off' m = get_le pg off' m.
Proof.
  induction m as [|m IH]; intros n pg off off' v Ho Ho' Hd; [done|]. cbn [get_le].
  rewrite znth_put_other by lia. rewrite IH by lia. done.
Qed.

Lemma get_le_zero n : forall off, 0 <= off -> off + Z.of_nat n <= BLCKSZ -> get_le zero_page off n = 0.
Proof.
  induction n as [|n IH]; intros off Ho Hl; [done|]. cbn [get_le]. rewrite IH by lia. unfold zero_page, znth.
  rewrite lookup_total_replicate_2 by lia. done.
Qed.

Lemma get_le_range n : forall pg off, page_wf pg -> 0 <= off -> off + Z.of_nat n <= BLCKSZ ->
  0 <= get_le pg off n < 0x100 ^ Z.of_nat n.
Proof.
  induction n as [|n IH]; intros pg off Hwf Ho Hl; [cbn; lia|]. cbn [get_le]. rewrite Nat2Z.inj_succ, Z.pow_succ_r by lia.
  specialize (IH pg (off + 1) Hwf ltac:(lia) ltac:(lia)). assert (is_u8 (znth pg off)) as Hb.
  { destruct Hwf as [Hlen Hf]. rewrite Forall_lookup in Hf. apply (Hf (Z.to_nat off)). apply list_lookup_lookup_total_lt.
    rewrite Hlen. lia. }
  unfold is_u8 in Hb. lia.
Qed.

(** ** Pages *)

(** The contents of a page; a hole reads as zeroes. *)
Definition page_of (st : Slru) (p : Z) : list Z := default zero_page (slru_page st p).

Definition modify_page (ctl : SlruCtl) (pageno : Z) (f : list Z -> list Z) : prog Slru SlruError unit :=
  (slotno <- SimpleLruReadPage ctl pageno true ;;
   pmod (fun st => upd_slot st slotno (fun s => slot_set_dirty true (slot_set_buffer (f (page_buffer s)) s))))%prog.

Definition look_page {A} (ctl : SlruCtl) (pageno : Z) (g : list Z -> A) : prog Slru SlruError A :=
  (slotno <- SimpleLruReadPage_ReadOnly ctl pageno ;;
   pget (fun st => g (page_buffer (slot st slotno))))%prog.

Lemma page_of_wf ctl st p : slru_wf ctl st -> 0 <= p -> page_wf (page_of st p).
Proof.
  intros Hok Hp. unfold page_of. destruct (slru_page st p) eqn:E; [|apply zero_page_wf]. by eapply wf_pages.
Qed.

Lemma keeps_page_of ctl st st' p : keeps ctl st st' -> page_of st' p = page_of st p.
Proof. intros Hk. unfold page_of. apply page_le_default, Hk. Qed.

(** The page is in the cache or in a file. *)
Definition present (st : Slru) (p : Z) : Prop := is_Some (slru_page st p).

Lemma keeps_present ctl st st' p : keeps ctl st st' -> present st p -> present st' p.
Proof. intros Hk. apply page_le_is_Some, Hk. Qed.

(** An I/O error, and the failing system call behind it. *)
Definition faulty (ctl : SlruCtl) (e : SlruError) : Prop :=
  exists c q, e = SlruIOError c q /\ (write_fault ctl q = Some c \/ read_fault ctl q = Some c).

Lemma read_error_faulty ctl p st (e : SlruError) : present st p ->
  (exists c q, e = SlruIOError c q /\
    (write_fault ctl q = Some c \/ q = p /\ (read_fault ctl p = Some c \/ slru_page st p = None))) -> faulty ctl e.
Proof. intros [pg Hpg] (c & q & -> & [Hw|[-> [Hr|Hn]]]); [..|congruence]; exists c; eauto. Qed.

(** What an operation that changes page [p] by [f] does. *)
Definition modified (ctl : SlruCtl) (p : Z) (f : list Z -> list Z) (st st' : Slru) : Prop :=
  slru_wf ctl st' /\ present st' p /\
  (forall q, page_of st' q = if q =? p then f (page_of st p) else page_of st q) /\
  (forall q, present st q -> present st' q).

(** Slot [n] holds page [p], under the lock of its bank. *)
Definition holding (ctl : SlruCtl) (st : Slru) (p n : Z) : Prop :=
  n ∈ bank_slotnos ctl p /\ in_range st n /\ valid st n /\ page_number (slot st n) = p.

Lemma holding_page ctl st p n : slru_wf ctl st -> holding ctl st p n ->
  page_of st p = page_buffer (slot st n).
Proof. intros Hok (_ & Hn & Hv & <-). by apply (slru_page_default ctl), Hv; [apply Hok|]. Qed.

(** The slot at hand, or a look-up where another page is wanted. *)
Lemma hold_spec ctl p prev n0 st st' r : slru_wf ctl st -> 0 <= p -> present st p -> (p = prev -> holding ctl st p n0) ->
  (if negb (p =? prev) then SimpleLruReadPage ctl p true else pret n0) st = (st', r) ->
  keeps ctl st st' /\
  match r with
  | inr n => holding ctl st' p n /\ page_buffer (slot st' n) = page_of st p
  | inl e => faulty ctl e
  end.
Proof.
  intros Hok Hp Hpr Hprev. destruct (Z.eqb_spec p prev) as [->|Hne]; cbn [negb].
  - intros [= <- <-]. specialize (Hprev eq_refl). split; [apply keeps_refl, Hok|]. split; [done|].
    symmetry. by apply (holding_page ctl).
  - intros E. apply SimpleLruReadPage_spec in E as [Hk Hr]; [|done|apply Hok]. split; [done|].
    destruct r as [e|n]; [by eapply read_error_faulty|]. destruct Hr as (H0 & H1 & H2 & H3 & H4). done.
Qed.

(** Changing the page in the slot. *)
Lemma slot_update_spec ctl st n p f : slru_wf ctl st -> 0 <= p -> holding ctl st p n -> (forall pg, page_wf pg -> page_wf (f pg)) ->
  let st' := upd_slot st n (fun s => slot_set_dirty true (slot_set_buffer (f (page_buffer s)) s)) in
  modified ctl p f st st' /\ holding ctl st' p n.
Proof.
  intros Hok Hp Hh Hf st'. pose proof (holding_page ctl st p n Hok Hh) as Hbuf. destruct Hh as (Hb & Hn & Hv & Hpn).
  set (g := fun s : Slot => slot_set_dirty true _) in st'.
  destruct (update_page_spec ctl st n p g) as (Hok2 & Hp2 & Hothers); try done; [apply Hok|by left|].
  fold st' in Hok2, Hp2, Hothers. rewrite slot_page_dirty in Hp2 by done.
  change (page_buffer (g (slot st n))) with (f (page_buffer (slot st n))) in Hp2. rewrite <- Hbuf in Hp2.
  split; [split_and!|].
  - split; [done|]. intros q pg Hq0. destruct (decide (q = p)) as [->|Hq].
    + rewrite Hp2. intros [= <-]. by apply Hf, (page_of_wf ctl).
    + rewrite Hothers by done. by apply Hok.
  - unfold present. by rewrite Hp2.
  - intros q. unfold page_of at 1. destruct (Z.eqb_spec q p) as [->|Hq]; [by rewrite Hp2|]. by rewrite Hothers.
  - intros q Hs. unfold present in *. destruct (decide (q = p)) as [->|Hne]; [by rewrite Hp2|by rewrite Hothers].
  - unfold holding, valid, st'. rewrite slot_upd_eq by done. split_and!; [done|by apply in_range_upd|done|done].
Qed.

Lemma modify_page_spec ctl p f st st' r : slru_wf ctl st -> 0 <= p -> present st p ->
  (forall pg, page_wf pg -> page_wf (f pg)) -> modify_page ctl p f st = (st', r) ->
  match r with
  | inr _ => modified ctl p f st st'
  | inl e => faulty ctl e /\ keeps ctl st st'
  end.
Proof.
  intros Hok Hp Hpr Hf. unfold modify_page, pbind, pmod.
  destruct (SimpleLruReadPage _ _ _ _) as [st1 [e|n]] eqn:E;
    apply SimpleLruReadPage_spec in E as [Hk Hr]; try (done || apply Hok); intros [= <- <-].
  { split; [|done]. by eapply read_error_faulty. }
  pose proof (keeps_wf _ _ _ Hk Hok) as Hok1. destruct Hr as (Hin & Hn & Hv & Hpn & _).
  destruct (slot_update_spec ctl st1 n p f) as [(W & P & Hpages & Hpr') _]; [done..|]. split_and!; [done..| |].
  - intros q. rewrite Hpages, !(keeps_page_of _ _ _ _ Hk). done.
  - intros q Hq. by eapply Hpr', keeps_present.
Qed.

Lemma look_page_spec {A} ctl p (g : list Z -> A) st st' r : slru_wf ctl st -> 0 <= p -> present st p ->
  look_page ctl p g st = (st', r) ->
  keeps ctl st st' /\ match r with inr a => a = g (page_of st p) | inl e => faulty ctl e end.
Proof.
  intros Hok Hp Hpr. unfold look_page, pbind, pget. destruct (SimpleLruReadPage_ReadOnly _ _ _) as [st1 [e|n]] eqn:E;
    apply SimpleLruReadPage_ReadOnly_spec in E as [Hk Hr]; try (done || apply Hok); intros [= <- <-]; (split; [done|]).
  - by eapply read_error_faulty.
  - destruct Hr as (_ & _ & _ & _ & Hb). by rewrite Hb.
Qed.

(** A new page. *)
Lemma zero_page_modified ctl p st st' r : slru_wf ctl st -> 0 <= p -> SimpleLruZeroPage ctl p st = (st', r) ->
  match r with
  | inr n => modified ctl p (fun _ => zero_page) st st' /\ in_range st' n /\ valid st' n /\ page_number (slot st' n) = p /\
      page_buffer (slot st' n) = zero_page /\ page_dirty (slot st' n) = true
  | inl e => faulty ctl e /\ keeps ctl st st'
  end.
Proof.
  intros Hok Hp E. apply SimpleLruZeroPage_spec in E; [|done|apply Hok]. destruct r as [e|n].
  { destruct E as [Hk (c & q & -> & Hw)]. split; [exists c, q; auto|done]. }
  destruct E as (Hslru & _ & Hn & Hv & Hpn & Hb & Hd & _ & Hothers). split; [|done].
  pose proof (slru_page_slot ctl st' n Hslru Hn Hv) as Hpage. rewrite Hpn, slot_page_dirty, Hb in Hpage by done. split_and!.
  - split; [done|]. intros q pg Hq0. destruct (decide (q = p)) as [->|Hq].
    + rewrite Hpage. intros [= <-]. apply zero_page_wf.
    + apply (page_le_wf _ _ (Hothers q Hq)). intros pg'. by apply Hok.
  - unfold present. by rewrite Hpage.
  - intros q. unfold page_of. destruct (Z.eqb_spec q p) as [->|Hq]; [by rewrite Hpage|]. by apply page_le_default, Hothers.
  - intros q Hs. unfold present in *. destruct (decide (q = p)) as [->|Hq]; [by rewrite Hpage|].
    by apply (page_le_is_Some (slru_page st q)); [apply Hothers|].
Qed.

Lemma modified_trans ctl p f g st1 st2 st3 : modified ctl p f st1 st2 -> modified ctl p g st2 st3 ->
  modified ctl p (fun pg => g (f pg)) st1 st3.
Proof.
  intros (_ & _ & H1 & R1) (Hok & Hs & H2 & R2). split_and!; [done..| |auto]. intros q. rewrite H2, !H1, Z.eqb_refl. by destruct (q =? p).
Qed.
