(* ===== verification/SlruDelete.v ===== *)
(** * Deleting one segment of an SLRU log

    [SlruDeleteSegment] of [src/backend/access/transam/slru.c]: the pages of the
    segment leave the cache, dirty ones after being written, and then the file
    goes.  Two passes over the slots are always enough. *)

From S2P Require Import Prelude.
From S2P Require Import Slru.
From S2P Require Import SlruEntries.

(** A slot that does not hold a page of the segment, and one that does not hold
    a dirty one. *)
Definition gone (segno : Z) (s : Slot) : Prop := page_status s = SLRU_PAGE_EMPTY \/ seg_of (page_number s) <> segno.
Definition tidy (segno : Z) (s : Slot) : Prop := gone segno s \/ page_dirty s = false.

Section delete.
Context (ctl : SlruCtl) (segno : Z).

Definition delete_scan_post (l : list Z) (did : bool) (st st' : Slru) (r : SlruError + bool) : Prop :=
  keeps ctl st st' /\
  match r with
  | inl e => exists c q, e = SlruIOError c q /\ write_fault ctl q = Some c
  | inr did' =>
      (forall n, in_range st n -> n ∈ l \/ tidy segno (slot st n) -> tidy segno (slot st' n)) /\
      (did' = false -> did = false /\ forall n, in_range st n -> n ∈ l \/ gone segno (slot st n) -> gone segno (slot st' n)) /\
      ((forall n, n ∈ l -> tidy segno (slot st n)) -> did' = did)
  end.

(** A step on slot [m] before the rest of the scan. *)
Lemma delete_scan_step m l did did1 st st1 st' r :
  (forall n, n ∈ m :: l -> in_range st n) -> keeps ctl st st1 -> tidy segno (slot st1 m) ->
  (forall n, in_range st n -> n <> m -> slot st1 n = slot st n) ->
  (did1 = false -> did = false /\ gone segno (slot st1 m)) -> (tidy segno (slot st m) -> did1 = did) ->
  delete_scan_post l did1 st1 st' r -> delete_scan_post (m :: l) did st st' r.
Proof.
  intros Hl Hk Htidy Hother Hdid Hd [Hk2 Hr]. split; [by eapply keeps_trans|]. destruct r as [e|did']; [done|].
  destruct Hr as (R1 & R2 & R3). split_and!.
  - intros n Hn Hc. apply R1; [by rewrite (keeps_range _ _ _ _ Hk)|]. destruct (decide (n = m)) as [->|Hne]; [auto|].
    rewrite Hother by done. destruct Hc as [[?|?]%elem_of_cons|?]; [done|auto|auto].
  - intros ->. destruct (R2 eq_refl) as [E R2']. destruct (Hdid E) as [-> Hg]. split; [done|]. intros n Hn Hc.
    apply R2'; [by rewrite (keeps_range _ _ _ _ Hk)|]. destruct (decide (n = m)) as [->|Hne]; [auto|].
    rewrite Hother by done. destruct Hc as [[?|?]%elem_of_cons|?]; [done|auto|auto].
  - intros Hall. rewrite R3; [apply Hd, Hall; elem|]. intros n Hn. destruct (decide (n = m)) as [->|Hne]; [done|].
    rewrite Hother by (done || apply Hl; elem). apply Hall. elem.
Qed.

Lemma delete_scan_spec l : forall did st st' r, slru_ok ctl st -> (forall n, n ∈ l -> in_range st n) ->
  SlruDeleteSegment_scan ctl segno l did st = (st', r) -> delete_scan_post l did st st' r.
Proof.
  induction l as [|m l IH]; intros did st st' r Hok Hl; cbn [SlruDeleteSegment_scan].
  { intros [= <- <-]. split; [by apply keeps_refl|]. split_and!; [|intros ->; split; [done|]|done];
      intros n _ [?%elem_of_nil|?]; done. }
  assert (in_range st m) as Hm by (apply Hl; elem). assert (forall n, n ∈ l -> in_range st n) as Hl' by (intros; apply Hl; elem).
  assert (gone segno (slot st m) -> SlruDeleteSegment_scan ctl segno l did st = (st', r) -> delete_scan_post (m :: l) did st st' r) as Hskip.
  { intros Hg Hs. apply (delete_scan_step m l did did st st); [done|by apply keeps_refl|by left|done|done|done|by apply IH]. }
  unfold status_is at 1. case_bool_decide as He; [apply Hskip; by left|]. fold (seg_of (page_number (slot st m))).
  destruct (Z.eqb_spec (seg_of (page_number (slot st m))) segno) as [Eseg|Eseg]; cbn [negb]; [|apply Hskip; by right].
  pose proof (at_rest_valid _ _ _ Hok Hm He) as Hv. rewrite !(status_is_valid st m) by done. simpl.
  destruct (page_dirty (slot st m)) eqn:Hd; cbn [negb].
  - destruct (SlruInternalWritePage ctl m st) as [st1 r1] eqn:Ew. pose proof (SlruInternalWritePage_keeps _ _ _ _ _ Hok Hm Hv Ew) as Hk.
    rewrite SlruInternalWritePage_valid, Hd in Ew by done. destruct (write_fault _ _) eqn:Ef; injection Ew as <- <-.
    { intros [= <- <-]. split; [done|eauto]. }
    intros Hs. apply IH in Hs; [|apply Hk|intros n Hn; apply write_back_range; auto].
    eapply (delete_scan_step m l did true st); [done|done| | |done| |exact Hs].
    + right. by rewrite write_back_slot, Z.eqb_refl by done.
    + intros n Hn Hne. rewrite write_back_slot by done. by rewrite (proj2 (Z.eqb_neq _ _)) by done.
    + intros [[?|?]|?]; congruence.
  - intros Hs. pose proof (empty_slot_keeps _ _ _ Hok Hm Hv Hd) as Hk.
    apply IH in Hs; [|apply Hk|intros n Hn; apply in_range_upd; auto].
    assert (gone segno (slot (upd_slot st m (slot_set_status SLRU_PAGE_EMPTY)) m)) as Hg by (left; by rewrite slot_upd_eq).
    eapply (delete_scan_step m l did did st); [done|done|by left| |done|done|exact Hs].
    intros n Hn Hne. rewrite slot_upd by done. by rewrite (proj2 (Z.eqb_neq _ _)) by done.
Qed.

(** Removing the file of a segment that the cache does not hold pages of. *)
Lemma delete_file_spec st : slru_ok ctl st -> (forall n, in_range st n -> gone segno (slot st n)) ->
  let st' := SlruInternalDeleteSegment segno st in
  slru_ok ctl st' /\ forall q, slru_page st' q = if seg_of q =? segno then None else slru_page st q.
Proof.
  intros Hok Hgone st'. assert (forall q, file_page st' q = if seg_of q =? segno then None else file_page st q) as Hf.
  { intros q. unfold file_page, st', SlruInternalDeleteSegment. cbn. destruct (Z.eqb_spec (seg_of q) segno) as [->|Hne].
    - by rewrite lookup_delete_eq.
    - by rewrite lookup_delete_ne. }
  assert (forall n, in_range st n -> valid st n -> seg_of (page_number (slot st n)) =? segno = false) as Hkeep.
  { intros n Hn Hv. apply Z.eqb_neq. destruct (Hgone n Hn) as [He|?]; [unfold valid in Hv; congruence|done]. }
  split.
  - destruct Hok as [H1 H2 H3 H4]. split; [done|done| |done]. intros n Hn. destruct (H3 n Hn) as [|(Hv & Hp & Hb & Hd)]; [by left|right].
    split_and!; [done..|]. intros Hc. unfold clean_copy. rewrite Hf. change (slot st' n) with (slot st n). rewrite (Hkeep n Hn Hv). by apply Hd.
  - intros q. unfold slru_page at 1. change (all_slotnos st') with (all_slotnos st). rewrite (find_slot_ext st' st) by done.
    destruct (find_slot st (holds q) (all_slotnos st)) as [n|] eqn:E.
    + pose proof E as E'. apply find_slot_Some in E as [Hn%all_slotnos_spec Hh]. apply holds_spec in Hh as [Hv <-].
      rewrite Hkeep by done. change (slot st' n) with (slot st n). unfold slru_page. rewrite E'.
      apply slot_page_ext; [done..|]. by rewrite Hf, Hkeep.
    + rewrite Hf. unfold slru_page. by rewrite E.
Qed.

Definition delete_post (st st' : Slru) (r : SlruError + unit) : Prop :=
  slru_ok ctl st' /\
  (forall q, seg_of q <> segno -> page_le (slru_page st q) (slru_page st' q)) /\
  match r with
  | inl e => view_le st st' /\ exists c q, e = SlruIOError c q /\ write_fault ctl q = Some c
  | inr _ => forall q, seg_of q = segno -> slru_page st' q = None
  end.

(** The last pass, and the file. *)
Lemma delete_end_spec st st1 : keeps ctl st st1 -> (forall n, in_range st n -> gone segno (slot st1 n)) ->
  delete_post st (SlruInternalDeleteSegment segno st1) (inr tt).
Proof.
  intros Hk Hgone. destruct (delete_file_spec st1) as [Hok Hpages]; [apply Hk|intros n Hn; by apply Hgone, (keeps_range _ _ _ _ Hk)|].
  split; [done|]. split.
  - intros q Hq. rewrite Hpages, (proj2 (Z.eqb_neq _ _)) by done. apply Hk.
  - intros q <-. by rewrite Hpages, Z.eqb_refl.
Qed.

Lemma SlruDeleteSegment_spec st st' r : slru_ok ctl st -> SlruDeleteSegment ctl segno st = (st', r) -> delete_post st st' r.
Proof.
  intros Hok. assert (forall n, n ∈ all_slotnos st -> in_range st n) as Hall by (intros n; apply all_slotnos_spec).
  unfold SlruDeleteSegment. cbn [SlruDeleteSegment_loop]. destruct (SlruDeleteSegment_scan _ _ _ _ st) as [st1 r1] eqn:E1.
  apply delete_scan_spec in E1 as [Hk1 R1]; [|done..]. assert (all_slotnos st1 = all_slotnos st) as Eall.
  { unfold all_slotnos. do 2 f_equal. pose proof (keeps_len _ _ _ Hk1). unfold zlength in *. lia. }
  destruct r1 as [e|[]].
  - intros [= <- <-]. split; [apply Hk1|]. split; [intros q _; apply Hk1|split; [apply Hk1|done]].
  - destruct R1 as (Htidy & _ & _). rewrite Eall. destruct (SlruDeleteSegment_scan _ _ _ _ st1) as [st2 r2] eqn:E2.
    assert (forall n, n ∈ all_slotnos st -> in_range st1 n) as Hall1 by (intros n Hn; apply (keeps_range _ _ _ _ Hk1); auto).
    apply delete_scan_spec in E2 as [Hk2 R2]; [|apply Hk1|done]. pose proof (keeps_trans _ _ _ _ Hk1 Hk2) as Hk.
    destruct r2 as [e|did].
    { intros [= <- <-]. split; [apply Hk|]. split; [intros q _; apply Hk|split; [apply Hk|done]]. }
    destruct R2 as (_ & Hgone & Hdid). rewrite Hdid in * by (intros n Hn; apply Htidy; auto). intros [= <- <-].
    apply delete_end_spec; [done|]. intros n Hn. apply (Hgone eq_refl); [by apply (keeps_range _ _ _ _ Hk1)|left]. by apply all_slotnos_spec.
  - intros [= <- <-]. destruct R1 as (_ & Hgone & _). apply delete_end_spec; [done|]. intros n Hn.
    apply (Hgone eq_refl); [done|left]. by apply all_slotnos_spec.
Qed.
End delete.

(** What is left of the pages is well formed. *)
Lemma delete_segment_wf ctl segno st st' r : slru_wf ctl st -> SlruDeleteSegment ctl segno st = (st', r) -> slru_wf ctl st'.
Proof.
  intros Hok E. apply SlruDeleteSegment_spec in E as (Hok' & Hpages & R); [|apply Hok]. split; [done|]. intros q pg Hq Hpg.
  destruct (decide (seg_of q = segno)) as [Es|Es].
  - destruct r as [e|[]]; [|by rewrite R in Hpg]. destruct R as [Hv _]. eapply (page_le_wf _ _ (Hv q)); [|done]. intros pg'. by apply Hok.
  - eapply (page_le_wf _ _ (Hpages q Es)); [|done]. intros pg'. by apply Hok.
Qed.
