(* ===== verification/CommitTs.v ===== *)
(** * Commit timestamps

    [src/backend/access/transam/commit_ts.c]: the time and the replication
    origin of every commit, ten bytes per transaction in the pages of an SLRU
    cache, with the last entry kept apart in shared memory and the range of
    transactions that may be asked about.  The module can be switched on and
    off; the two fields it owns in [TransamVariables] are part of its state. *)

From S2P Require Import Prelude.
From S2P Require Import TransactionId.
From S2P Require Import Slru.
From S2P Require Import SlruEntries.

Definition i64 (z : Z) : Z :=
  if u64 z <? 0x8000000000000000 then u64 z else u64 z - 0x10000000000000000.
Definition is_i64 (z : Z) : Prop := - 0x8000000000000000 <= z < 0x8000000000000000.

Definition DT_NOBEGIN : Z := - 0x8000000000000000.
Definition InvalidRepOriginId : Z := 0.

Record CommitTimestampEntry := MkCommitTimestampEntry {
  time : Z;
  nodeid : Z;
}.

Definition SizeOfCommitTimestampEntry : Z := 8 + 2.
Definition COMMIT_TS_XACTS_PER_PAGE : Z := BLCKSZ / SizeOfCommitTimestampEntry.

Definition TransactionIdToCTsPage (xid : Z) : Z := xid / COMMIT_TS_XACTS_PER_PAGE.
Definition TransactionIdToCTsEntry (xid : Z) : Z := xid mod COMMIT_TS_XACTS_PER_PAGE.

Inductive CommitTsRecord :=
| COMMIT_TS_ZEROPAGE (pageno : Z)
| COMMIT_TS_TRUNCATE (pageno oldestXid : Z).

Record CommitTs := MkCommitTs {
  cts : Slru;
  xidLastCommit : Z;
  dataLastCommit : CommitTimestampEntry;
  commitTsActive : bool;
  oldestCommitTsXid : Z;
  newestCommitTsXid : Z;
  cts_xlog : list CommitTsRecord;
}.

Inductive CommitTsError :=
| CommitTsIO (e : SlruError)
| CommitTsInvalidXid (xid : Z)
| CommitTsDisabled.

Definition set_cts (s : CommitTs) (st : Slru) : CommitTs :=
  MkCommitTs st (xidLastCommit s) (dataLastCommit s) (commitTsActive s) (oldestCommitTsXid s)
    (newestCommitTsXid s) (cts_xlog s).
Definition set_last (s : CommitTs) (xid : Z) (e : CommitTimestampEntry) : CommitTs :=
  MkCommitTs (cts s) xid e (commitTsActive s) (oldestCommitTsXid s) (newestCommitTsXid s) (cts_xlog s).
Definition set_active (s : CommitTs) (b : bool) : CommitTs :=
  MkCommitTs (cts s) (xidLastCommit s) (dataLastCommit s) b (oldestCommitTsXid s) (newestCommitTsXid s) (cts_xlog s).
Definition set_range (s : CommitTs) (oldest newest : Z) : CommitTs :=
  MkCommitTs (cts s) (xidLastCommit s) (dataLastCommit s) (commitTsActive s) oldest newest (cts_xlog s).
Definition add_xlog (s : CommitTs) (r : CommitTsRecord) : CommitTs :=
  MkCommitTs (cts s) (xidLastCommit s) (dataLastCommit s) (commitTsActive s) (oldestCommitTsXid s)
    (newestCommitTsXid s) (cts_xlog s ++ [r]).

(** Run an operation of the cache. *)
Definition on_cts {A} (m : prog Slru SlruError A) : prog CommitTs CommitTsError A :=
  fun s => match m (cts s) with
           | (st, inl e) => (set_cts s st, inl (CommitTsIO e))
           | (st, inr a) => (set_cts s st, inr a)
           end.

(** ** Entries *)

Definition read_ts (pg : list Z) (xid : Z) : CommitTimestampEntry :=
  let off := SizeOfCommitTimestampEntry * TransactionIdToCTsEntry xid in
  MkCommitTimestampEntry (i64 (get_le pg off 8)) (get_le pg (off + 8) 2).

Definition TransactionIdSetCommitTs (xid ts nodeid : Z) (pg : list Z) : list Z :=
  let off := SizeOfCommitTimestampEntry * TransactionIdToCTsEntry xid in
  put_le (put_le pg off 8 (u64 ts)) (off + 8) 2 nodeid.

Definition SetXidCommitTsInPage (ctl : SlruCtl) (xid : Z) (subxids : list Z) (ts nodeid pageno : Z)
  : prog CommitTs CommitTsError unit :=
  on_cts (modify_page ctl pageno (fun pg =>
    foldl (fun pg x => TransactionIdSetCommitTs x ts nodeid pg)
      (TransactionIdSetCommitTs xid ts nodeid pg) subxids)).

(** The subtransactions up to the first that is on another page, and the rest. *)
Fixpoint split_page (pageno : Z) (subxids : list Z) : list Z * list Z :=
  match subxids with
  | [] => ([], [])
  | x :: rest =>
      if negb (TransactionIdToCTsPage x =? pageno) then ([], subxids)
      else let '(same, others) := split_page pageno rest in (x :: same, others)
  end.

Fixpoint set_tree_loop (fuel : nat) (ctl : SlruCtl) (headxid : Z) (subxids : list Z) (ts nodeid : Z)
  : prog CommitTs CommitTsError unit :=
  match fuel with
  | O => preturn (CommitTsIO SlruOutOfFuel)
  | S fuel =>
      let pageno := TransactionIdToCTsPage headxid in
      let '(same, others) := split_page pageno subxids in
      (SetXidCommitTsInPage ctl headxid same ts nodeid pageno ;;;
       match others with
       | [] => pret tt
       | x :: rest => set_tree_loop fuel ctl x rest ts nodeid
       end)%prog
  end.

(** Every round but the first takes a subtransaction as its head. *)
Definition TransactionTreeSetCommitTsData (ctl : SlruCtl) (xid : Z) (subxids : list Z) (timestamp nodeid : Z)
  : prog CommitTs CommitTsError unit :=
  fun s =>
  if negb (commitTsActive s) then (s, inr tt)
  else
    let newestXact := default xid (last subxids) in
    (set_tree_loop (S (length subxids)) ctl xid subxids timestamp nodeid ;;;
     pmod (fun s =>
       let s := set_last s xid (MkCommitTimestampEntry timestamp nodeid) in
       if TransactionIdPrecedes (newestCommitTsXid s) newestXact
       then set_range s (oldestCommitTsXid s) newestXact else s))%prog s.

(** Whether an entry was found, with the time and the origin. *)
Definition TransactionIdGetCommitTsData (ctl : SlruCtl) (xid : Z)
  : prog CommitTs CommitTsError (bool * CommitTimestampEntry) :=
  fun s =>
  let pageno := TransactionIdToCTsPage xid in
  if negb (TransactionIdIsValid xid) then (s, inl (CommitTsInvalidXid xid))
  else if negb (TransactionIdIsNormal xid) then (s, inr (false, MkCommitTimestampEntry 0 0))
  else if negb (commitTsActive s) then (s, inl CommitTsDisabled)
  else if xidLastCommit s =? xid then
    (s, inr (negb (time (dataLastCommit s) =? 0), dataLastCommit s))
  else if negb (TransactionIdIsValid (oldestCommitTsXid s))
          || TransactionIdPrecedes xid (oldestCommitTsXid s)
          || TransactionIdPrecedes (newestCommitTsXid s) xid
  then (s, inr (false, MkCommitTimestampEntry 0 InvalidRepOriginId))
  else
    (entry <- on_cts (look_page ctl pageno (fun pg => read_ts pg xid)) ;;
     pret (negb (time entry =? 0), entry))%prog s.

Definition GetLatestCommitTsData : prog CommitTs CommitTsError (Z * CommitTimestampEntry) :=
  fun s => if negb (commitTsActive s) then (s, inl CommitTsDisabled)
           else (s, inr (xidLastCommit s, dataLastCommit s)).

(** [None] is SQL's null. *)
Definition pg_xact_commit_timestamp (ctl : SlruCtl) (xid : Z) : prog CommitTs CommitTsError (option Z) :=
  (r <- TransactionIdGetCommitTsData ctl xid ;;
   pret (if negb r.1 then None else Some (time r.2)))%prog.

Definition pg_xact_commit_timestamp_origin (ctl : SlruCtl) (xid : Z)
  : prog CommitTs CommitTsError (option CommitTimestampEntry) :=
  (r <- TransactionIdGetCommitTsData ctl xid ;;
   pret (if negb r.1 then None else Some r.2))%prog.

Definition pg_last_committed_xact : prog CommitTs CommitTsError (option (Z * CommitTimestampEntry)) :=
  (r <- GetLatestCommitTsData ;;
   pret (if negb (TransactionIdIsNormal r.1) then None else Some r))%prog.

(** ** Pages of the log *)

Definition CommitTsShmemBuffers (NBuffers commit_timestamp_buffers : Z) : Z :=
  if commit_timestamp_buffers =? 0 then SimpleLruAutotuneBuffers NBuffers 512 1024
  else Z.min (Z.max 16 commit_timestamp_buffers) SLRU_MAX_ALLOWED_BUFFERS.

Definition CommitTsPagePrecedes (page1 page2 : Z) : bool :=
  let xid1 := u32 (u32 page1 * COMMIT_TS_XACTS_PER_PAGE) in
  let xid1 := u32 (xid1 + (FirstNormalTransactionId + 1)) in
  let xid2 := u32 (u32 page2 * COMMIT_TS_XACTS_PER_PAGE) in
  let xid2 := u32 (xid2 + (FirstNormalTransactionId + 1)) in
  TransactionIdPrecedes xid1 xid2
  && TransactionIdPrecedes xid1 (u32 (xid2 + COMMIT_TS_XACTS_PER_PAGE - 1)).

Definition CommitTsCtl (nslots : Z) (inrecovery : bool)
    (read_fault write_fault : Z -> option SlruErrorCause) : SlruCtl :=
  MkSlruCtl (nslots / SLRU_BANK_SIZE) 0 CommitTsPagePrecedes inrecovery read_fault write_fault.

Definition no_last_commit : CommitTimestampEntry := MkCommitTimestampEntry DT_NOBEGIN InvalidRepOriginId.

(** [oldest] and [newest] come from the control file. *)
Definition CommitTsShmemInit (NBuffers commit_timestamp_buffers : Z) (fs : gmap Z (list (list Z))) (wal : Z)
    (oldest newest : Z) : CommitTs :=
  MkCommitTs (SimpleLruInit (CommitTsShmemBuffers NBuffers commit_timestamp_buffers) 0 fs wal)
    InvalidTransactionId no_last_commit false oldest newest [].

Definition WriteZeroPageXlogRec (pageno : Z) (s : CommitTs) : CommitTs := add_xlog s (COMMIT_TS_ZEROPAGE pageno).

Definition WriteTruncateXlogRec (pageno oldestXid : Z) (s : CommitTs) : CommitTs :=
  add_xlog s (COMMIT_TS_TRUNCATE pageno oldestXid).

Definition ZeroCommitTsPage (ctl : SlruCtl) (pageno : Z) (writeXlog : bool) : prog CommitTs CommitTsError Z :=
  (slotno <- on_cts (SimpleLruZeroPage ctl pageno) ;;
   pwhen writeXlog (pmod (WriteZeroPageXlogRec pageno)) ;;;
   pret slotno)%prog.

Definition ActivateCommitTs (ctl : SlruCtl) (nextXid : FullTransactionId) : prog CommitTs CommitTsError unit :=
  fun s =>
  if commitTsActive s then (s, inr tt)
  else
    let xid := XidFromFullTransactionId nextXid in
    let pageno := TransactionIdToCTsPage xid in
    (pmod (fun s => set_cts s (set_latest (cts s) pageno)) ;;;
     pmod (fun s => if oldestCommitTsXid s =? InvalidTransactionId then set_range s xid xid else s) ;;;
     present <- on_cts (SimpleLruDoesPhysicalPageExist ctl pageno) ;;
     pwhen (negb present)
       (slotno <- ZeroCommitTsPage ctl pageno false ;;
        on_cts (SimpleLruWritePage ctl slotno)) ;;;
     pmod (fun s => set_active s true))%prog s.

(** Only files are removed; pages in the cache stay as they are. *)
Definition DeactivateCommitTs (s : CommitTs) : CommitTs :=
  let s := set_active s false in
  let s := set_last s InvalidTransactionId no_last_commit in
  let s := set_range s InvalidTransactionId InvalidTransactionId in
  set_cts s (SlruScanDirectory_DeleteAll (cts s)).

Definition StartupCommitTs (ctl : SlruCtl) (nextXid : FullTransactionId) : prog CommitTs CommitTsError unit :=
  ActivateCommitTs ctl nextXid.

Definition CompleteCommitTsInitialization (ctl : SlruCtl) (track_commit_timestamp : bool)
    (nextXid : FullTransactionId) : prog CommitTs CommitTsError unit :=
  if negb track_commit_timestamp then pmod DeactivateCommitTs else ActivateCommitTs ctl nextXid.

(** [oldvalue] is not looked at. *)
Definition CommitTsParameterChange (ctl : SlruCtl) (newvalue oldvalue : bool) (nextXid : FullTransactionId)
  : prog CommitTs CommitTsError unit :=
  fun s =>
  if newvalue then
    if negb (commitTsActive s) then ActivateCommitTs ctl nextXid s else (s, inr tt)
  else if commitTsActive s then (DeactivateCommitTs s, inr tt)
  else (s, inr tt).

Definition CheckPointCommitTs (ctl : SlruCtl) : prog CommitTs CommitTsError unit :=
  on_cts (SimpleLruWriteAll ctl).

Definition ExtendCommitTs (ctl : SlruCtl) (newestXact : Z) : prog CommitTs CommitTsError unit :=
  fun s =>
  if negb (commitTsActive s) then (s, inr tt)
  else if negb (TransactionIdToCTsEntry newestXact =? 0)
          && negb (TransactionIdEquals newestXact FirstNormalTransactionId)
  then (s, inr tt)
  else (ZeroCommitTsPage ctl (TransactionIdToCTsPage newestXact) (negb (InRecovery ctl)) ;;; pret tt)%prog s.

Definition TruncateCommitTs (ctl : SlruCtl) (oldestXact : Z) : prog CommitTs CommitTsError unit :=
  fun s =>
  let cutoffPage := TransactionIdToCTsPage oldestXact in
  if negb (SlruScanDirectory_ReportPresence ctl cutoffPage (cts s)) then (s, inr tt)
  else
    (pmod (WriteTruncateXlogRec cutoffPage oldestXact) ;;;
     on_cts (SimpleLruTruncate ctl cutoffPage))%prog s.

Definition SetCommitTsLimit (oldestXact newestXact : Z) (s : CommitTs) : CommitTs :=
  if negb (oldestCommitTsXid s =? InvalidTransactionId) then
    let s := if TransactionIdPrecedes (oldestCommitTsXid s) oldestXact
             then set_range s oldestXact (newestCommitTsXid s) else s in
    if TransactionIdPrecedes newestXact (newestCommitTsXid s)
    then set_range s (oldestCommitTsXid s) newestXact else s
  else set_range s oldestXact newestXact.

Definition AdvanceOldestCommitTsXid (oldestXact : Z) (s : CommitTs) : CommitTs :=
  if negb (oldestCommitTsXid s =? InvalidTransactionId)
     && TransactionIdPrecedes (oldestCommitTsXid s) oldestXact
  then set_range s oldestXact (newestCommitTsXid s) else s.

Definition commit_ts_redo (ctl : SlruCtl) (record : CommitTsRecord) : prog CommitTs CommitTsError unit :=
  match record with
  | COMMIT_TS_ZEROPAGE pageno =>
      (slotno <- ZeroCommitTsPage ctl pageno false ;;
       on_cts (SimpleLruWritePage ctl slotno))%prog
  | COMMIT_TS_TRUNCATE pageno oldestXid =>
      (pmod (AdvanceOldestCommitTsXid oldestXid) ;;;
       pmod (fun s => set_cts s (set_latest (cts s) pageno)) ;;;
       on_cts (SimpleLruTruncate ctl pageno))%prog
  end.

(** ** Entries of a page *)

Ltac cts_lia :=
  unfold TransactionIdToCTsPage, TransactionIdToCTsEntry, COMMIT_TS_XACTS_PER_PAGE,
    SizeOfCommitTimestampEntry, BLCKSZ in *; lia.

Lemma i64_u64 z : is_i64 z -> i64 (u64 z) = z.
Proof. unfold is_i64, i64, u64. intros. repeat case_match; lia. Qed.

Definition entry_ok (e : CommitTimestampEntry) : Prop := is_i64 (time e) /\ is_u16 (nodeid e).

Lemma zlength_put_le n : forall pg off v, zlength (put_le pg off n v) = zlength pg.
Proof. induction n as [|n IH]; intros pg off v; [done|]. cbn [put_le]. by rewrite IH, zlength_zupd. Qed.

Lemma page_wf_zlength pg : page_wf pg -> zlength pg = BLCKSZ.
Proof. intros [H _]. unfold zlength. rewrite H. done. Qed.

Lemma set_ts_wf x e pg : page_wf pg -> page_wf (TransactionIdSetCommitTs x (time e) (nodeid e) pg).
Proof. intros. by apply put_le_wf, put_le_wf. Qed.

(** Entries on a page do not overlap: an entry reads back, and no other entry
    of the page changes. *)
Lemma read_set_ts x y e pg : page_wf pg -> entry_ok e -> TransactionIdToCTsPage x = TransactionIdToCTsPage y ->
  read_ts (TransactionIdSetCommitTs x (time e) (nodeid e) pg) y =
  if bool_decide (y = x) then e else read_ts pg y.
Proof.
  intros Hwf [Ht Hn] Hpage. pose proof (page_wf_zlength _ Hwf) as Hl. unfold read_ts, TransactionIdSetCommitTs.
  case_bool_decide as Hxy.
  - subst y. rewrite (get_put_other 8) by cts_lia. rewrite get_put_same; [|cts_lia..|].
    2: { unfold u64. change (0x100 ^ Z.of_nat 8) with 0x10000000000000000. lia. }
    rewrite get_put_same; [|cts_lia|rewrite zlength_put_le; cts_lia|].
    2: { unfold is_u16 in Hn. change (0x100 ^ Z.of_nat 2) with 0x10000. lia. }
    rewrite i64_u64 by done. by destruct e.
  - assert (TransactionIdToCTsEntry x <> TransactionIdToCTsEntry y) by cts_lia.
    rewrite !get_put_other by cts_lia. done.
Qed.

Definition stamp_all (e : CommitTimestampEntry) (xs : list Z) (pg : list Z) : list Z :=
  foldl (fun pg x => TransactionIdSetCommitTs x (time e) (nodeid e) pg) pg xs.

Lemma stamp_all_wf e xs : forall pg, page_wf pg -> page_wf (stamp_all e xs pg).
Proof. induction xs as [|x xs IH]; intros pg Hwf; [done|]. by apply IH, set_ts_wf. Qed.

Lemma read_stamp_all e p y xs : forall pg, page_wf pg -> entry_ok e -> TransactionIdToCTsPage y = p ->
  Forall (fun x => TransactionIdToCTsPage x = p) xs ->
  read_ts (stamp_all e xs pg) y = if bool_decide (y ∈ xs) then e else read_ts pg y.
Proof.
  induction xs as [|x xs IH]; intros pg Hwf He Hy Hxs; [done|]. inversion_clear Hxs as [|? ? Hx Hxs'].
  change (stamp_all e (x :: xs) pg) with (stamp_all e xs (TransactionIdSetCommitTs x (time e) (nodeid e) pg)).
  rewrite IH by (done || by apply set_ts_wf). rewrite read_set_ts by (done || congruence).
  repeat case_bool_decide; rewrite ?elem_of_cons, ?elem_of_app in *; naive_solver.
Qed.

(** ** The log as a function from transactions to entries *)

Definition cts_entry (s : CommitTs) (x : Z) : CommitTimestampEntry :=
  read_ts (page_of (cts s) (TransactionIdToCTsPage x)) x.

Definition cts_present (s : CommitTs) (x : Z) : Prop :=
  0 <= x /\ present (cts s) (TransactionIdToCTsPage x).

(** The transactions [xs] got the entry [e], and nothing else changed. *)
Record stamped (ctl : SlruCtl) (e : CommitTimestampEntry) (xs : list Z) (s s' : CommitTs) : Prop := {
  st_wf : slru_wf ctl (cts s');
  st_present : forall x, cts_present s x -> cts_present s' x;
  st_frame : s' = set_cts s (cts s');
  st_entries : forall y, cts_entry s' y = if bool_decide (y ∈ xs) then e else cts_entry s y;
}.

Lemma set_cts_id s : set_cts s (cts s) = s.
Proof. by destruct s. Qed.

Lemma stamped_nil ctl e s st : slru_wf ctl (cts s) -> keeps ctl (cts s) st -> stamped ctl e [] s (set_cts s st).
Proof.
  intros Hok Hk. split; [by eapply keeps_wf| |done|].
  - intros x [H0 Hr]. split; [done|]. by eapply keeps_present.
  - intros y. unfold cts_entry. cbn. by rewrite (keeps_page_of _ _ _ _ Hk).
Qed.

Lemma stamped_app ctl e xs1 xs2 s1 s2 s3 :
  stamped ctl e xs1 s1 s2 -> stamped ctl e xs2 s2 s3 -> stamped ctl e (xs1 ++ xs2) s1 s3.
Proof.
  intros [_ R1 F1 E1] [W R2 F2 E2]. split; [done|auto| |].
  - rewrite F2, F1. done.
  - intros y. rewrite E2, E1. repeat case_bool_decide; rewrite ?elem_of_app in *; naive_solver.
Qed.

(** What writing entries comes to: all of them, or an I/O error after some. *)
Definition stamp_post (ctl : SlruCtl) (e : CommitTimestampEntry) (xs : list Z) (s s' : CommitTs)
    (r : CommitTsError + unit) : Prop :=
  match r with
  | inr _ => stamped ctl e xs s s'
  | inl err => (exists err', err = CommitTsIO err' /\ faulty ctl err') /\ exists done, done ⊆ xs /\ stamped ctl e done s s'
  end.

Lemma SetXidCommitTsInPage_spec ctl e p x xs s s' r :
  slru_wf ctl (cts s) -> entry_ok e -> TransactionIdToCTsPage x = p -> cts_present s x ->
  Forall (fun x => TransactionIdToCTsPage x = p) xs ->
  SetXidCommitTsInPage ctl x xs (time e) (nodeid e) p s = (s', r) -> stamp_post ctl e (x :: xs) s s' r.
Proof.
  intros Hok He Hp [H0 Hrd] Hxs. unfold SetXidCommitTsInPage, on_cts. subst p.
  assert (0 <= TransactionIdToCTsPage x) as Hp0 by cts_lia.
  destruct (modify_page _ _ _ _) as [st r1] eqn:E. change (fun pg => foldl _ _ xs) with (stamp_all e (x :: xs)) in E.
  apply modify_page_spec in E; [|done|done|done|by intros pg; apply stamp_all_wf].
  destruct r1 as [err|[]]; intros [= <- <-].
  - destruct E as [Hio Hk]. split; [by exists err|]. exists []. split; [set_solver|]. by apply stamped_nil.
  - destruct E as (Hok' & _ & Hpages & Hread). split; [done| |done|].
    + intros y [Hy Hr]. split; [done|]. by apply Hread.
    + intros y. unfold cts_entry. cbn [cts set_cts]. rewrite Hpages. destruct (Z.eqb_spec (TransactionIdToCTsPage y) (TransactionIdToCTsPage x)) as [Hy|Hy].
      * rewrite Hy. apply (read_stamp_all e (TransactionIdToCTsPage x)); [by apply (page_of_wf ctl)|done|done|by constructor].
      * rewrite bool_decide_eq_false_2; [done|]. rewrite elem_of_cons. intros [->|Hin]; [done|].
        rewrite Forall_forall in Hxs. by apply Hy, Hxs.
Qed.

Lemma split_page_spec p l : forall same others, split_page p l = (same, others) ->
  l = same ++ others /\ Forall (fun x => TransactionIdToCTsPage x = p) same.
Proof.
  induction l as [|x l IH]; intros same others; cbn; [by intros [= <- <-]|].
  destruct (Z.eqb_spec (TransactionIdToCTsPage x) p) as [Hx|Hx]; cbn; [|by intros [= <- <-]].
  destruct (split_page p l) as [a b]. intros [= <- <-]. destruct (IH a b eq_refl) as [-> Ha]. split; [done|by constructor].
Qed.

Lemma set_tree_loop_spec ctl e fuel : forall x xs s s' r,
  (length xs < fuel)%nat -> slru_wf ctl (cts s) -> entry_ok e -> Forall (cts_present s) (x :: xs) ->
  set_tree_loop fuel ctl x xs (time e) (nodeid e) s = (s', r) -> stamp_post ctl e (x :: xs) s s' r.
Proof.
  induction fuel as [|fuel IH]; intros x xs s s' r Hfuel Hok He Hrd; [lia|]. cbn [set_tree_loop].
  destruct (split_page _ xs) as [same others] eqn:Hsplit. apply split_page_spec in Hsplit as [-> Hsame].
  inversion_clear Hrd as [|? ? Hx Hxs]. unfold pbind at 1.
  destruct (SetXidCommitTsInPage _ _ _ _ _ _ _) as [s1 r1] eqn:E.
  apply SetXidCommitTsInPage_spec in E; [|done..]. destruct r1 as [err|[]]; cbn [stamp_post] in E.
  { intros [= <- <-]. destruct E as (Herr & l & Hl & Hst). split; [done|]. exists l. split; [set_solver|done]. }
  destruct others as [|y rest]; [intros [= <- <-]; by rewrite app_nil_r|]. intros E2.
  apply Forall_app in Hxs as [_ Hxs]. apply IH in E2; [|rewrite length_app in Hfuel; cbn in Hfuel; lia|apply E|done|].
  2: { eapply Forall_impl; [exact Hxs|]. apply E. }
  change (x :: same ++ y :: rest) with ((x :: same) ++ (y :: rest)). destruct r as [err|[]].
  - destruct E2 as (Herr & l & Hl & Hst). split; [done|]. exists ((x :: same) ++ l). split; [set_solver|by eapply stamped_app].
  - by eapply stamped_app.
Qed.

Lemma TransactionTreeSetCommitTsData_spec ctl e x xs s s' r :
  slru_wf ctl (cts s) -> entry_ok e -> Forall (cts_present s) (x :: xs) -> commitTsActive s = true ->
  TransactionTreeSetCommitTsData ctl x xs (time e) (nodeid e) s = (s', r) ->
  match r with
  | inr _ => exists s1, stamped ctl e (x :: xs) s s1 /\
      let s2 := set_last s1 x e in
      s' = if TransactionIdPrecedes (newestCommitTsXid s) (default x (last xs))
           then set_range s2 (oldestCommitTsXid s) (default x (last xs)) else s2
  | inl err => stamp_post ctl e (x :: xs) s s' (inl err)
  end.
Proof.
  intros Hok He Hrd Hact. unfold TransactionTreeSetCommitTsData. rewrite Hact. cbn [negb]. unfold pbind, pmod.
  destruct (set_tree_loop _ _ _ _ _ _ _) as [s1 r1] eqn:E. apply set_tree_loop_spec in E; [|lia|done..].
  destruct r1 as [err|[]]; intros [= <- <-]; [done|]. exists s1. split; [done|]. destruct e.
  pose proof (st_frame _ _ _ _ _ E) as F. rewrite F. done.
Qed.

Lemma get_ts_spec ctl x s s' r : slru_wf ctl (cts s) -> cts_present s x ->
  look_page ctl (TransactionIdToCTsPage x) (fun pg => read_ts pg x) (cts s) = (s', r) ->
  keeps ctl (cts s) s' /\ match r with inr a => a = cts_entry s x | inl err => faulty ctl err end.
Proof. intros Hok [H0 Hr] E. apply look_page_spec in E; [|done|cts_lia|done]. done. Qed.

(** ** The module's contract *)

(** The copy of the last entry agrees with the log. *)
Record cts_ok (ctl : SlruCtl) (s : CommitTs) : Prop := {
  cts_wf : slru_wf ctl (cts s);
  cts_last : TransactionIdIsNormal (xidLastCommit s) = true -> cts_entry s (xidLastCommit s) = dataLastCommit s;
}.

(** The transactions whose entries may be asked for. *)
Definition cts_known (s : CommitTs) (x : Z) : bool :=
  (xidLastCommit s =? x)
  || TransactionIdIsValid (oldestCommitTsXid s) && negb (TransactionIdPrecedes x (oldestCommitTsXid s))
     && negb (TransactionIdPrecedes (newestCommitTsXid s) x).

Lemma keeps_cts_ok ctl s st : cts_ok ctl s -> keeps ctl (cts s) st ->
  cts_ok ctl (set_cts s st) /\ forall y, cts_entry (set_cts s st) y = cts_entry s y.
Proof.
  intros [Hok Hlast] Hk. destruct (stamped_nil ctl no_last_commit s st Hok Hk) as [Hwf _ _ He]. cbn in He.
  split; [|done]. split; [done|]. intros Hn. rewrite He. by apply Hlast.
Qed.

(** What a question gets for an answer. *)
Definition get_post (ctl : SlruCtl) (x : Z) (s s' : CommitTs) (r : CommitTsError + bool * CommitTimestampEntry) : Prop :=
  s' = set_cts s (cts s') /\ cts_ok ctl s' /\ (forall y, cts_entry s' y = cts_entry s y) /\
  match r with
  | inr (found, e) =>
      TransactionIdIsValid x = true /\ found = negb (time e =? 0) /\
      e = if TransactionIdIsNormal x && cts_known s x then cts_entry s x else MkCommitTimestampEntry 0 InvalidRepOriginId
  | inl (CommitTsInvalidXid y) => y = x /\ x = InvalidTransactionId
  | inl CommitTsDisabled => TransactionIdIsNormal x = true /\ commitTsActive s = false
  | inl (CommitTsIO e) => faulty ctl e /\ TransactionIdIsNormal x = true /\ commitTsActive s = true
  end.

Lemma get_post_id ctl x s r : cts_ok ctl s ->
  (get_post ctl x s s r <-> match r with
  | inr (found, e) =>
      TransactionIdIsValid x = true /\ found = negb (time e =? 0) /\
      e = if TransactionIdIsNormal x && cts_known s x then cts_entry s x else MkCommitTimestampEntry 0 InvalidRepOriginId
  | inl (CommitTsInvalidXid y) => y = x /\ x = InvalidTransactionId
  | inl CommitTsDisabled => TransactionIdIsNormal x = true /\ commitTsActive s = false
  | inl (CommitTsIO e) => faulty ctl e /\ TransactionIdIsNormal x = true /\ commitTsActive s = true
  end).
Proof. intros Hok. unfold get_post. rewrite set_cts_id. tauto. Qed.

Lemma GetCommitTsData_spec ctl x s s' r :
  cts_ok ctl s -> (cts_known s x = true -> cts_present s x) ->
  TransactionIdGetCommitTsData ctl x s = (s', r) -> get_post ctl x s s' r.
Proof.
  intros Hok Hrd. unfold TransactionIdGetCommitTsData.
  destruct (TransactionIdIsValid x) eqn:Hv; cbn [negb].
  2: { intros [= <- <-]. apply get_post_id; [done|]. split; [done|]. unfold TransactionIdIsValid in Hv. lia. }
  destruct (TransactionIdIsNormal x) eqn:Hn; cbn [negb].
  2: { intros [= <- <-]. apply get_post_id; [done|]. by rewrite Hn. }
  destruct (commitTsActive s) eqn:Ha; cbn [negb]; [|by intros [= <- <-]; apply get_post_id].
  destruct (Z.eqb_spec (xidLastCommit s) x) as [Hx|Hx].
  { intros [= <- <-]. apply get_post_id; [done|]. unfold cts_known. rewrite Hn, (proj2 (Z.eqb_eq _ _) Hx). subst x.
    by rewrite (cts_last _ _ Hok). }
  assert (cts_known s x = negb (negb (TransactionIdIsValid (oldestCommitTsXid s))
    || TransactionIdPrecedes x (oldestCommitTsXid s) || TransactionIdPrecedes (newestCommitTsXid s) x)) as Hk.
  { unfold cts_known. rewrite (proj2 (Z.eqb_neq _ _) Hx), !negb_orb, negb_involutive. done. }
  destruct (_ || _) eqn:Hout; cbn [negb] in Hk.
  { intros [= <- <-]. apply get_post_id; [done|]. by rewrite Hk, andb_false_r. }
  unfold pbind, on_cts, pret. destruct (look_page _ _ _ _) as [st r1] eqn:E.
  apply get_ts_spec in E as [Hkeep Hr]; [|apply Hok|by apply Hrd].
  destruct (keeps_cts_ok ctl s st Hok Hkeep) as [Hok' He].
  destruct r1 as [err|e]; intros [= <- <-]; (split_and!; [done..|]); [done|]. by rewrite Hn, Hk, Hr.
Qed.

(** Asking the entry of a just recorded tree. *)
Lemma tree_set_ok ctl e x xs s s' : cts_ok ctl s -> entry_ok e -> Forall (cts_present s) (x :: xs) ->
  commitTsActive s = true -> TransactionTreeSetCommitTsData ctl x xs (time e) (nodeid e) s = (s', inr tt) ->
  cts_ok ctl s' /\ commitTsActive s' = true /\ xidLastCommit s' = x /\ dataLastCommit s' = e /\
  oldestCommitTsXid s' = oldestCommitTsXid s /\
  newestCommitTsXid s' = (if TransactionIdPrecedes (newestCommitTsXid s) (default x (last xs))
                          then default x (last xs) else newestCommitTsXid s) /\
  (forall y, cts_present s y -> cts_present s' y) /\
  (forall y, cts_entry s' y = if bool_decide (y ∈ x :: xs) then e else cts_entry s y).
Proof.
  intros Hok He Hrd Ha E. apply TransactionTreeSetCommitTsData_spec in E as (s1 & Hst & Hs'); [|apply Hok|done..].
  destruct Hst as [W R F En]. cbv zeta in Hs'. remember (cts s1) as st eqn:Est. clear Est. subst s1 s'.
  assert (cts_entry (set_cts s st) x = e) as Hx by (rewrite En, bool_decide_eq_true_2; [done|constructor]).
  destruct (TransactionIdPrecedes _ _); (split_and!; [split; [done|intros _; exact Hx]|done..]).
Qed.

(** ** Pages and the circular order *)

(** The page numbers of transaction ids do not wrap when they are turned back
    into ids, but the end of the last page does. *)
Lemma CommitTsPagePrecedes_spec p1 p2 : 0 <= p1 <= 5244160 -> 0 <= p2 <= 5244160 ->
  CommitTsPagePrecedes p1 p2 = true <-> i32 (819 * p1 - 819 * p2) < 0 /\ i32 (819 * p1 - 819 * p2 - 818) < 0.
Proof.
  intros H1 H2. unfold CommitTsPagePrecedes, TransactionIdPrecedes, TransactionIdIsNormal, FirstNormalTransactionId.
  change COMMIT_TS_XACTS_PER_PAGE with 819.
  assert (u32 (u32 (u32 p1 * 819) + (3 + 1)) = 819 * p1 + 4) as -> by (unfold u32; lia).
  assert (u32 (u32 (u32 p2 * 819) + (3 + 1)) = 819 * p2 + 4) as -> by (unfold u32; lia).
  assert (3 <= u32 (819 * p2 + 4 + 819 - 1)) as Hn by (unfold u32; lia).
  assert (3 <= 819 * p1 + 4 /\ 3 <= 819 * p2 + 4) as [Hn1 Hn2] by lia.
  rewrite (proj2 (Z.leb_le _ _) Hn), (proj2 (Z.leb_le _ _) Hn1), (proj2 (Z.leb_le _ _) Hn2).
  cbn [negb orb]. rewrite andb_true_iff, !Z.ltb_lt.
  replace (819 * p1 + 4 - (819 * p2 + 4)) with (819 * p1 - 819 * p2) by lia.
  assert (i32 (819 * p1 + 4 - u32 (819 * p2 + 4 + 819 - 1)) = i32 (819 * p1 - 819 * p2 - 818)) as ->; [|done].
  unfold i32. assert (u32 (819 * p1 + 4 - u32 (819 * p2 + 4 + 819 - 1)) = u32 (819 * p1 - 819 * p2 - 818)) as ->; [|done].
  unfold u32. lia.
Qed.

Lemma cts_page_range x : is_u32 x -> 0 <= TransactionIdToCTsPage x <= 5244160.
Proof. unfold is_u32. cts_lia. Qed.

Lemma cts_page_precedes_xid x o :
  is_u32 x -> is_u32 o -> TransactionIdIsNormal x = true -> TransactionIdIsNormal o = true ->
  CommitTsPagePrecedes (TransactionIdToCTsPage x) (TransactionIdToCTsPage o) = true -> TransactionIdPrecedes x o = true.
Proof.
  intros Hx Ho Hnx Hno. rewrite CommitTsPagePrecedes_spec by (by apply cts_page_range).
  unfold TransactionIdPrecedes. rewrite Hnx, Hno. cbn [negb orb]. rewrite Z.ltb_lt.
  unfold TransactionIdToCTsPage. change COMMIT_TS_XACTS_PER_PAGE with 819. unfold is_u32 in *. intros [H1 H2].
  destruct (i32_congr (819 * (x / 819) - 819 * (o / 819))) as [k1 E1].
  destruct (i32_congr (819 * (x / 819) - 819 * (o / 819) - 818)) as [k2 E2].
  destruct (i32_congr (x - o)) as [k3 E3]. pose proof (i32_range (x - o)).
  pose proof (i32_range (819 * (x / 819) - 819 * (o / 819))).
  pose proof (i32_range (819 * (x / 819) - 819 * (o / 819) - 818)). lia.
Qed.

(** A segment goes only if both its ends precede the cutoff, and then so does
    every page between.  The last segment holds a single page. *)
Lemma cts_segment_convex q c : 0 <= q <= 5244160 -> 0 <= c <= 5244160 ->
  CommitTsPagePrecedes (q / 32 * 32) c = true -> CommitTsPagePrecedes (q / 32 * 32 + 31) c = true ->
  CommitTsPagePrecedes q c = true.
Proof.
  intros Hq Hc Hf Hl. destruct (decide (q = 5244160)) as [->|Hne]; [done|].
  rewrite CommitTsPagePrecedes_spec in Hf, Hl |- * by lia. set (f := q / 32 * 32) in *.
  assert (f <= q <= f + 31) as Hr by (unfold f; lia). clearbody f.
  destruct Hf as [F1 F2], Hl as [L1 L2].
  destruct (i32_congr (819 * f - 819 * c)) as [a1 A1]. destruct (i32_congr (819 * f - 819 * c - 818)) as [a2 A2].
  destruct (i32_congr (819 * (f + 31) - 819 * c)) as [b1 B1]. destruct (i32_congr (819 * (f + 31) - 819 * c - 818)) as [b2 B2].
  destruct (i32_congr (819 * q - 819 * c)) as [d1 D1]. destruct (i32_congr (819 * q - 819 * c - 818)) as [d2 D2].
  pose proof (i32_range (819 * f - 819 * c)). pose proof (i32_range (819 * f - 819 * c - 818)).
  pose proof (i32_range (819 * (f + 31) - 819 * c)). pose proof (i32_range (819 * (f + 31) - 819 * c - 818)).
  pose proof (i32_range (819 * q - 819 * c)). pose proof (i32_range (819 * q - 819 * c - 818)). lia.
Qed.

(** Truncating the commit timestamps up to the page of [o] only removes
    segments all of whose transactions precede [o], although a page does not
    hold a power of two of entries: whenever the code may delete the segment
    that holds the entry of [x], [x] precedes [o]. *)
Theorem commit_ts_truncation_safe ctl x o :
  (forall p q, PagePrecedes ctl p q = CommitTsPagePrecedes p q) ->
  is_u32 x -> is_u32 o -> TransactionIdIsNormal x = true -> TransactionIdIsNormal o = true ->
  SlruMayDeleteSegment ctl (seg_of (TransactionIdToCTsPage x) * SLRU_PAGES_PER_SEGMENT) (TransactionIdToCTsPage o) = true ->
  TransactionIdPrecedes x o = true.
Proof.
  intros Hctl Hx Ho Hnx Hno. unfold SlruMayDeleteSegment, seg_of. rewrite !Hctl. change SLRU_PAGES_PER_SEGMENT with 32.
  rewrite andb_true_iff. intros [Hf Hl]. apply cts_page_precedes_xid; [done..|].
  apply cts_segment_convex; [by apply cts_page_range..|done|].
  by replace (_ + 31) with (TransactionIdToCTsPage x / 32 * 32 + 32 - 1) by lia.
Qed.

Definition demo_cts_ctl : SlruCtl := CommitTsCtl 16 false (fun _ => None) (fun _ => None).

Lemma commit_ts_truncation_safe_witness :
  SlruMayDeleteSegment demo_cts_ctl (seg_of (TransactionIdToCTsPage 4294967295) * SLRU_PAGES_PER_SEGMENT)
    (TransactionIdToCTsPage 30000) = true /\ TransactionIdPrecedes 4294967295 30000 = true.
Proof.
  assert (SlruMayDeleteSegment demo_cts_ctl (seg_of (TransactionIdToCTsPage 4294967295) * SLRU_PAGES_PER_SEGMENT)
    (TransactionIdToCTsPage 30000) = true) as H by (vm_compute; reflexivity).
  split; [exact H|]. apply (commit_ts_truncation_safe demo_cts_ctl 4294967295 30000);
    [done|unfold is_u32; lia|unfold is_u32; lia|reflexivity|reflexivity|exact H].
Defined.

(** ** Recording and asking *)

Lemma known_after_set lo x xs s s' y :
  in_use lo (oldestCommitTsXid s) -> in_use lo (newestCommitTsXid s) -> Forall (in_use lo) (x :: xs) ->
  oldestCommitTsXid s' = oldestCommitTsXid s ->
  newestCommitTsXid s' = (if TransactionIdPrecedes (newestCommitTsXid s) (default x (last xs))
                          then default x (last xs) else newestCommitTsXid s) ->
  y ∈ x :: xs -> xid_rank lo (oldestCommitTsXid s) <= xid_rank lo y <= xid_rank lo (default x (last xs)) ->
  cts_known s' y = true.
Proof.
  intros Ho Hn Hall Eo En Hy [H1 H2]. unfold cts_known. rewrite Eo, En. rewrite Forall_forall in Hall.
  assert (in_use lo (default x (last xs))) as Hd.
  { apply Hall. destruct (last xs) as [z|] eqn:Hz; cbn; [|constructor]. apply elem_of_cons; right. by apply last_Some_elem_of. }
  pose proof (Hall y Hy) as Hyu. rewrite (in_use_valid lo) by done. rewrite (precedes_rank lo y) by done.
  rewrite (precedes_rank lo (newestCommitTsXid s)) by done.
  destruct (Z.ltb_spec (xid_rank lo (newestCommitTsXid s)) (xid_rank lo (default x (last xs))));
    rewrite (precedes_rank lo) by done; lia.
Qed.

(** C37. What is recorded for a transaction and its subtransactions is what is
    answered for each of them, whatever pages they are on: after a successful
    [TransactionTreeSetCommitTsData], [TransactionIdGetCommitTsData] gives the
    time and the origin for every member of the tree, from the cached last
    entry or from the log, and fails only where reading or writing a page
    fails; every other transaction keeps the entry it had. *)
Theorem commit_ts_roundtrip ctl lo e x xs s s' :
  cts_ok ctl s -> entry_ok e -> commitTsActive s = true -> Forall (cts_present s) (x :: xs) ->
  in_use lo (oldestCommitTsXid s) -> in_use lo (newestCommitTsXid s) -> Forall (in_use lo) (x :: xs) ->
  Forall (fun y => xid_rank lo (oldestCommitTsXid s) <= xid_rank lo y <= xid_rank lo (default x (last xs))) (x :: xs) ->
  TransactionTreeSetCommitTsData ctl x xs (time e) (nodeid e) s = (s', inr tt) ->
  (forall y, y ∈ x :: xs ->
    match (TransactionIdGetCommitTsData ctl y s').2 with
    | inr answer => answer = (negb (time e =? 0), e)
    | inl err => exists err', err = CommitTsIO err' /\ faulty ctl err'
    end) /\
  (forall y, y ∉ x :: xs -> cts_entry s' y = cts_entry s y).
Proof.
  intros Hok He Ha Hpr Ho Hn Huse Hrank E.
  destruct (tree_set_ok _ _ _ _ _ _ Hok He Hpr Ha E) as (Hok' & Ha' & _ & _ & Eo & En & Hpr' & Hent).
  split; [|intros y Hy; by rewrite Hent, bool_decide_eq_false_2].
  intros y Hy. rewrite Forall_forall in Hpr, Hrank.
  assert (TransactionIdIsNormal y = true) as Hnorm by (rewrite Forall_forall in Huse; apply (Huse y Hy)).
  destruct (TransactionIdGetCommitTsData ctl y s') as [s2 r] eqn:G.
  apply GetCommitTsData_spec in G as (_ & _ & _ & Hr); [|done|intros _; by apply Hpr', Hpr].
  rewrite (known_after_set lo x xs s s' y), Hnorm, Hent, bool_decide_eq_true_2 in Hr by (done || by apply Hrank).
  destruct r as [[err|z|]|[found a]]; cbn in *.
  - destruct Hr as [Hf _]. by exists err.
  - destruct Hr as [_ ->]. done.
  - destruct Hr as [_ Hr]. congruence.
  - by destruct Hr as (_ & -> & ->).
Qed.

Definition demo_cts : CommitTs :=
  MkCommitTs (SimpleLruInit 16 0 {[ 0 := [zero_page; zero_page] ]} 0)
    InvalidTransactionId no_last_commit true 3 700 [].

Lemma demo_cts_ok : cts_ok demo_cts_ctl demo_cts.
Proof.
  destruct (SimpleLruInit_ok demo_cts_ctl 16 0 {[ 0 := [zero_page; zero_page] ]} 0) as [Hok Hp]; [done..|].
  split; [|done]. split; [exact Hok|]. intros q pg _ Hq. unfold demo_cts, cts in Hq. rewrite Hp in Hq.
  unfold file_page in Hq. cbn [files SimpleLruInit] in Hq. destruct (decide (seg_of q = 0)) as [E|Hne].
  - rewrite E, lookup_singleton_eq in Hq. simpl in Hq.
    destruct (seg_index q) as [|[|i]]; simpl in Hq; [injection Hq as <-..|done]; apply zero_page_wf.
  - rewrite lookup_singleton_ne in Hq; done.
Qed.

Definition demo_stamp : CommitTimestampEntry := MkCommitTimestampEntry (-7) 5.

(** A tree over two pages: 800 on page 0, its subtransactions on pages 0 and 1. *)
Lemma commit_ts_roundtrip_witness :
  let s' := fst (TransactionTreeSetCommitTsData demo_cts_ctl 800 [810; 830] (time demo_stamp) (nodeid demo_stamp) demo_cts) in
  (forall y, y ∈ [800; 810; 830] ->
    match (TransactionIdGetCommitTsData demo_cts_ctl y s').2 with
    | inr answer => answer = (true, demo_stamp)
    | inl err => exists err', err = CommitTsIO err' /\ faulty demo_cts_ctl err'
    end) /\
  (forall y, y ∉ [800; 810; 830] -> cts_entry s' y = cts_entry demo_cts y).
Proof.
  intros s'. apply (commit_ts_roundtrip demo_cts_ctl 3 demo_stamp 800 [810; 830] demo_cts s').
  - apply demo_cts_ok.
  - unfold entry_ok, is_i64, is_u16. cbn. lia.
  - reflexivity.
  - repeat constructor; try lia; vm_compute; eauto.
  - unfold in_use, is_u32. cbn. split_and!; (lia || reflexivity).
  - unfold in_use, is_u32. cbn. split_and!; (lia || reflexivity).
  - repeat constructor; cbn; (lia || reflexivity).
  - repeat constructor; vm_compute; discriminate.
  - exact (result_eq (TransactionTreeSetCommitTsData demo_cts_ctl 800 [810; 830] (time demo_stamp) (nodeid demo_stamp) demo_cts)
      (inr tt) ltac:(vm_compute; reflexivity)).
Defined.

(** ** Switching off and on *)

Lemma on_cts_frame {A} (m : prog Slru SlruError A) s s' r : on_cts m s = (s', r) -> s' = set_cts s (cts s').
Proof. unfold on_cts. destruct (m (cts s)) as [st [e|a]]; by intros [= <- <-]. Qed.

Lemma activate_range ctl next s s' : commitTsActive s = false -> oldestCommitTsXid s = InvalidTransactionId ->
  ActivateCommitTs ctl next s = (s', inr tt) ->
  let x := XidFromFullTransactionId next in
  s' = set_active (set_range (set_cts s (cts s')) x x) true.
Proof.
  intros Ha Ho. unfold ActivateCommitTs. rewrite Ha. unfold ZeroCommitTsPage, pbind, pmod, pwhen, pret. cbn.
  rewrite Ho. cbn.
  destruct (on_cts _ _) as [s1 [e|[]]] eqn:E1; [done|..]; apply on_cts_frame in E1; cbn.
  - intros [= <-]. rewrite E1. done.
  - destruct (on_cts _ _) as [s2 [e|n]] eqn:E2; [done|]. apply on_cts_frame in E2. cbn.
    destruct (on_cts _ _) as [s3 [e|[]]] eqn:E3; [done|]. apply on_cts_frame in E3. cbn.
    intros [= <-]. rewrite E3, E2, E1. done.
Qed.

(** What was recorded before the module was switched off is never handed
    back after it has been switched on again: pages left in the cache or
    written back later do not matter, because the range starts anew at the next
    transaction, and every other transaction in use is answered with no entry. *)
Theorem commit_ts_restart_forgets ctl lo next s s' y :
  ActivateCommitTs ctl next (DeactivateCommitTs s) = (s', inr tt) ->
  in_use lo (XidFromFullTransactionId next) -> in_use lo y -> y <> XidFromFullTransactionId next ->
  TransactionIdGetCommitTsData ctl y s' = (s', inr (false, MkCommitTimestampEntry 0 InvalidRepOriginId)).
Proof.
  intros E Hn Hy Hne. apply activate_range in E; [|done..]. set (x := XidFromFullTransactionId next) in *.
  assert (commitTsActive s' = true /\ xidLastCommit s' = InvalidTransactionId /\
    oldestCommitTsXid s' = x /\ newestCommitTsXid s' = x) as (Ha & Hl & Ho & Hw) by (by rewrite E).
  pose proof (in_use_valid lo y Hy) as Hv. assert ((xidLastCommit s' =? y) = false) as Hc.
  { rewrite Hl. unfold TransactionIdIsValid, InvalidTransactionId in *. lia. }
  unfold TransactionIdGetCommitTsData. rewrite Hv, (proj1 (proj2 Hy)), Ha, Hc, Ho, Hw.
  rewrite (in_use_valid lo x Hn), !(precedes_rank lo) by done. cbn [negb orb].
  destruct (Z.ltb_spec (xid_rank lo y) (xid_rank lo x)); [done|].
  destruct (Z.ltb_spec (xid_rank lo x) (xid_rank lo y)); [done|].
  destruct Hne. apply (rank_inj lo); [apply Hy|apply Hn|lia].
Qed.

Lemma commit_ts_restart_forgets_witness :
  let s := fst (TransactionTreeSetCommitTsData demo_cts_ctl 800 [810] (-7) 5 demo_cts) in
  let s' := fst (ActivateCommitTs demo_cts_ctl (MkFullTransactionId 900) (DeactivateCommitTs s)) in
  TransactionIdGetCommitTsData demo_cts_ctl 800 s' = (s', inr (false, MkCommitTimestampEntry 0 InvalidRepOriginId)).
Proof.
  intros s s'. apply (commit_ts_restart_forgets demo_cts_ctl 3 (MkFullTransactionId 900) s s' 800).
  - exact (result_eq (ActivateCommitTs demo_cts_ctl (MkFullTransactionId 900) (DeactivateCommitTs s)) (inr tt)
      ltac:(vm_compute; reflexivity)).
  - vm_compute. split_and!; (reflexivity || discriminate).
  - vm_compute. split_and!; (reflexivity || discriminate).
  - vm_compute. discriminate.
Defined.
