(* ===== verification/XidPages.v ===== *)
(** * Pages of a log indexed by transaction id

    What [src/backend/access/transam/clog.c] and [subtrans.c] share: both keep a
    fixed number [N] of entries per page and give the cache the same order on
    page numbers, which follows the circular order of transaction ids.  The
    lemmas here justify truncation for either log. *)

From S2P Require Import Prelude.
From S2P Require Import TransactionId.
From S2P Require Import Slru.

(** The body of [CLOGPagePrecedes] and [SubTransPagePrecedes]. *)
Definition xid_page_precedes (N page1 page2 : Z) : bool :=
  let xid1 := u32 (u32 page1 * N) in
  let xid1 := u32 (xid1 + (FirstNormalTransactionId + 1)) in
  let xid2 := u32 (u32 page2 * N) in
  let xid2 := u32 (xid2 + (FirstNormalTransactionId + 1)) in
  TransactionIdPrecedes xid1 xid2 && TransactionIdPrecedes xid1 (u32 (xid2 + N - 1)).

Section pages.
Context (N : Z) (HN : N = 32768 \/ N = 2048).

(** Pages are compared modulo the size of the transaction space, and never
    with a true answer for a page that a cutoff on the other page might need. *)
Lemma xid_page_precedes_spec p1 p2 :
  0 <= p1 -> 0 <= p2 ->
  xid_page_precedes N p1 p2 = true <-> - 0x80000000 + N <= i32 ((p1 - p2) * N) < 0.
Proof.
  intros H1 H2. unfold xid_page_precedes, TransactionIdPrecedes, TransactionIdIsNormal, FirstNormalTransactionId.
  assert (forall p, 0 <= p -> exists a k, u32 (u32 p * N) = N * a /\ 0 <= a /\ N * a <= 0x100000000 - N /\ p * N = N * a + 0x100000000 * k) as Hsplit.
  { intros p Hp. unfold u32. destruct HN as [->| ->].
    - exists (p mod 131072), (p / 131072). lia.
    - exists (p mod 2097152), (p / 2097152). lia. }
  destruct (Hsplit p1 H1) as (a & k1 & Ea & Ha & Ha' & E1).
  destruct (Hsplit p2 H2) as (b & k2 & Eb & Hb & Hb' & E2). clear Hsplit.
  rewrite Ea, Eb, Z.mul_sub_distr_r, E1, E2. clear Ea Eb E1 E2 H1 H2 p1 p2.
  assert (i32 (N * a + 0x100000000 * k1 - (N * b + 0x100000000 * k2)) = i32 (N * a - N * b)) as ->.
  { unfold i32. assert (u32 (N * a + 0x100000000 * k1 - (N * b + 0x100000000 * k2)) = u32 (N * a - N * b)) as ->; [|done].
    unfold u32. lia. }
  assert (2048 <= N <= 32768) as HN' by lia.
  assert (u32 (N * a + (3 + 1)) = N * a + 4) as -> by (unfold u32; lia).
  assert (u32 (N * b + (3 + 1)) = N * b + 4) as -> by (unfold u32; lia).
  assert (3 <= u32 (N * b + 4 + N - 1)) as Hn by (unfold u32; lia).
  assert (3 <= N * a + 4 /\ 3 <= N * b + 4) as [Hn1 Hn2] by lia.
  rewrite (proj2 (Z.leb_le _ _) Hn), (proj2 (Z.leb_le _ _) Hn1), (proj2 (Z.leb_le _ _) Hn2).
  cbn [negb orb]. rewrite andb_true_iff, !Z.ltb_lt. destruct HN as [->| ->]; cint.
Qed.

Section truncation.
Context (ctl : SlruCtl) (Hctl : forall p q, PagePrecedes ctl p q = xid_page_precedes N p q).

(** A segment whose ends precede the cutoff precedes it entirely. *)
Lemma xid_pages_convex cutoff q :
  0 <= cutoff -> 0 <= q -> deletable ctl cutoff (seg_of q) = true -> PagePrecedes ctl q cutoff = true.
Proof.
  intros Hc Hq. unfold deletable, SlruMayDeleteSegment, seg_of. rewrite !Hctl.
  change SLRU_PAGES_PER_SEGMENT with 32.
  rewrite andb_true_iff, !xid_page_precedes_spec by lia. intros [[Ha1 Ha2] [Hb1 Hb2]].
  destruct (i32_congr ((q / 32 * 32 - cutoff) * N)) as [ka Ea].
  destruct (i32_congr ((q / 32 * 32 + 32 - 1 - cutoff) * N)) as [kb Eb].
  destruct (i32_congr ((q - cutoff) * N)) as [kq Eq].
  pose proof (i32_range ((q - cutoff) * N)). destruct HN as [->| ->]; lia.
Qed.

(** Every transaction on a page that precedes the page of the cutoff precedes
    the cutoff. *)
Lemma page_precedes_xid x o :
  is_u32 x -> is_u32 o -> TransactionIdIsNormal x = true -> TransactionIdIsNormal o = true ->
  xid_page_precedes N (x / N) (o / N) = true -> TransactionIdPrecedes x o = true.
Proof.
  intros Hx Ho Hnx Hno. unfold is_u32 in *.
  rewrite xid_page_precedes_spec by (apply Z.div_pos; lia).
  unfold TransactionIdPrecedes. rewrite Hnx, Hno. simpl. rewrite Z.ltb_lt. intros H.
  destruct (i32_congr ((x / N - o / N) * N)) as [k1 E1].
  destruct (i32_congr (x - o)) as [k2 E2]. pose proof (i32_range (x - o)).
  destruct HN as [->| ->]; lia.
Qed.

Lemma needed_not_deletable x o :
  is_u32 x -> is_u32 o -> TransactionIdIsNormal x = true -> TransactionIdIsNormal o = true ->
  TransactionIdPrecedes x o = false -> deletable ctl (o / N) (seg_of (x / N)) = false.
Proof.
  intros Hx Ho Hnx Hno Hp. destruct (deletable _ _ _) eqn:E; [|done]. unfold is_u32 in *.
  apply xid_pages_convex in E; [|apply Z.div_pos; lia..].
  rewrite Hctl in E. apply page_precedes_xid in E; [congruence|done..].
Qed.

Lemma truncate_wf cutoff st st' r :
  slru_wf ctl st -> 0 <= cutoff -> SimpleLruTruncate ctl cutoff st = (st', r) ->
  slru_wf ctl st' /\
  (forall q, 0 <= q -> deletable ctl cutoff (seg_of q) = false -> page_le (slru_page st q) (slru_page st' q)) /\
  match r with inl e => io_error e | inr _ => True end.
Proof.
  intros [Hok Hpg] Hc H.
  apply SimpleLruTruncate_spec in H as (Hok' & Hkeep & Hr); [|intros q Hq; by apply xid_pages_convex|done].
  split_and!; [|done|].
  - split; [done|]. intros q pg Hq. destruct (deletable ctl cutoff (seg_of q)) eqn:Hd.
    + destruct r as [e|[]].
      * destruct Hr as [Hv _]. apply (page_le_wf _ _ (Hv q)). intros pg'. by apply Hpg.
      * destruct (PagePrecedes _ _ _); [subst st'; by apply Hpg|]. rewrite Hr by done. done.
    + apply (page_le_wf _ _ (Hkeep q Hq Hd)). intros pg'. by apply Hpg.
  - destruct r; [|done]. destruct Hr as (_ & ? & ? & -> & _). by eexists _, _.
Qed.
End truncation.
End pages.
