(* ===== verification/Clog.v ===== *)
(** * The commit log

    [src/backend/access/transam/clog.c]: two status bits per transaction in the
    pages of an SLRU cache.  The state is that cache, the WAL records the
    module has written, the shared variable [oldestClogXid], and as a ghost the
    list of every state of the cache that another process (or a page write
    that is under way) could have seen, one after each change of status bits.
    A concurrent process' commit is represented by the group of members that
    a group leader updates in one go. *)

From S2P Require Import Prelude.
From S2P Require Import TransactionId.
From S2P Require Import Slru.
From S2P Require Import XidPages.

Definition TRANSACTION_STATUS_IN_PROGRESS : Z := 0.
Definition TRANSACTION_STATUS_COMMITTED : Z := 1.
Definition TRANSACTION_STATUS_ABORTED : Z := 2.
Definition TRANSACTION_STATUS_SUB_COMMITTED : Z := 3.

Definition CLOG_BITS_PER_XACT : Z := 2.
Definition CLOG_XACTS_PER_BYTE : Z := 4.
Definition CLOG_XACTS_PER_PAGE : Z := BLCKSZ * CLOG_XACTS_PER_BYTE.
Definition CLOG_XACT_BITMASK : Z := Z.shiftl 1 CLOG_BITS_PER_XACT - 1.
Definition CLOG_XACTS_PER_LSN_GROUP : Z := 32.
Definition CLOG_LSNS_PER_PAGE : Z := CLOG_XACTS_PER_PAGE / CLOG_XACTS_PER_LSN_GROUP.
Definition THRESHOLD_SUBTRANS_CLOG_OPT : nat := 5.

Definition TransactionIdToPage (xid : Z) : Z := xid / CLOG_XACTS_PER_PAGE.
Definition TransactionIdToPgIndex (xid : Z) : Z := xid mod CLOG_XACTS_PER_PAGE.
Definition TransactionIdToByte (xid : Z) : Z := TransactionIdToPgIndex xid / CLOG_XACTS_PER_BYTE.
Definition TransactionIdToBIndex (xid : Z) : Z := xid mod CLOG_XACTS_PER_BYTE.

(** The index among the LSNs of one slot. *)
Definition GetLSNIndex (xid : Z) : Z :=
  (xid mod CLOG_XACTS_PER_PAGE) / CLOG_XACTS_PER_LSN_GROUP.

Definition XLogRecPtrIsInvalid (lsn : Z) : bool := lsn =? 0.

Inductive ClogRecord :=
| CLOG_ZEROPAGE (pageno : Z)
| CLOG_TRUNCATE (pageno oldestXact oldestXactDb : Z).

Record Clog := MkClog {
  xact : Slru;
  clog_xlog : list ClogRecord;
  clog_xlog_flushed : nat;
  oldestClogXid : Z;
  observed : list Slru;
}.

Definition set_xact (c : Clog) (st : Slru) : Clog :=
  MkClog st (clog_xlog c) (clog_xlog_flushed c) (oldestClogXid c) (observed c).

(** Run an operation of the cache. *)
Definition on_xact {A} (m : prog Slru SlruError A) : prog Clog SlruError A :=
  fun c => let '(st, r) := m (xact c) in (set_xact c st, r).

(** A state that others may see. *)
Definition observe (c : Clog) : Clog :=
  MkClog (xact c) (clog_xlog c) (clog_xlog_flushed c) (oldestClogXid c) (observed c ++ [xact c]).

(** ** Status bits *)

Definition byte_status (byteval bindex : Z) : Z :=
  Z.land (Z.shiftr byteval (bindex * CLOG_BITS_PER_XACT)) CLOG_XACT_BITMASK.

Definition byte_set_status (byteval bindex status : Z) : Z :=
  let bshift := bindex * CLOG_BITS_PER_XACT in
  let byteval := u8 (Z.land byteval (Z.lnot (Z.shiftl (Z.shiftl 1 CLOG_BITS_PER_XACT - 1) bshift))) in
  u8 (Z.lor byteval (Z.shiftl status bshift)).

Definition slot_byte (s : Slot) (xid : Z) : Z := znth (page_buffer s) (TransactionIdToByte xid).

(** The whole function as a change of the slot's page and LSNs. *)
Definition set_status_bit (inrecovery : bool) (xid status lsn : Z) (s : Slot) : Slot :=
  let curval := byte_status (slot_byte s xid) (TransactionIdToBIndex xid) in
  if inrecovery && (status =? TRANSACTION_STATUS_SUB_COMMITTED)
     && (curval =? TRANSACTION_STATUS_COMMITTED)
  then s
  else
    let byteval := byte_set_status (slot_byte s xid) (TransactionIdToBIndex xid) status in
    let s := slot_set_buffer (zupd (page_buffer s) (TransactionIdToByte xid) byteval) s in
    if negb (XLogRecPtrIsInvalid lsn) then
      let lsnindex := GetLSNIndex xid in
      if znth (group_lsn s) lsnindex <? lsn
      then slot_set_lsns (zupd (group_lsn s) lsnindex lsn) s else s
    else s.

Definition TransactionIdSetStatusBit (ctl : SlruCtl) (xid status lsn slotno : Z) : prog Clog SlruError unit :=
  pmod (fun c => observe (set_xact c (upd_slot (xact c) slotno (set_status_bit (InRecovery ctl) xid status lsn)))).

(** [for (i = 0; i < nsubxids; i++) TransactionIdSetStatusBit(subxids[i], ...)] *)
Fixpoint set_status_bits (ctl : SlruCtl) (xids : list Z) (status lsn slotno : Z) : prog Clog SlruError unit :=
  match xids with
  | [] => pret tt
  | x :: rest =>
      (TransactionIdSetStatusBit ctl x status lsn slotno ;;;
       set_status_bits ctl rest status lsn slotno)%prog
  end.

Definition TransactionIdSetPageStatusInternal (ctl : SlruCtl) (xid : Z) (subxids : list Z)
    (status lsn pageno : Z) : prog Clog SlruError unit :=
  (slotno <- on_xact (SimpleLruReadPage ctl pageno (XLogRecPtrIsInvalid lsn)) ;;
   pwhen (TransactionIdIsValid xid)
     (pwhen (status =? TRANSACTION_STATUS_COMMITTED)
        (set_status_bits ctl subxids TRANSACTION_STATUS_SUB_COMMITTED lsn slotno) ;;;
      TransactionIdSetStatusBit ctl xid status lsn slotno) ;;;
   set_status_bits ctl subxids status lsn slotno ;;;
   pmod (fun c => set_xact c (upd_slot (xact c) slotno (slot_set_dirty true))))%prog.

(** What a process in a group has left in its PGPROC for the leader. *)
Record GroupMember := MkGroupMember {
  clogGroupMemberXid : Z;
  clogGroupMemberSubxids : list Z;
  clogGroupMemberXidStatus : Z;
  clogGroupMemberLsn : Z;
  clogGroupMemberPage : Z;
}.

(** The leader's walk over the list of waiting processes. *)
Fixpoint group_walk (ctl : SlruCtl) (members : list GroupMember) : prog Clog SlruError unit :=
  match members with
  | [] => pret tt
  | m :: rest =>
      (TransactionIdSetPageStatusInternal ctl (clogGroupMemberXid m) (clogGroupMemberSubxids m)
         (clogGroupMemberXidStatus m) (clogGroupMemberLsn m) (clogGroupMemberPage m) ;;;
       group_walk ctl rest)%prog
  end.

(** How the bank lock was found: free, or busy with a group that this process
    joins (as leader or follower, [before] and [after] being the other members
    in list order), or busy with a group working on another page. *)
Inductive Contention :=
| LockFree
| GroupJoined (before after : list GroupMember)
| GroupRefused.

(** The backend's own PGPROC entry, as far as the fast path looks at it. *)
Record MyProcXids := MkMyProcXids { my_xid : Z; my_subxids : list Z }.

(** The effect on the log of a group update that accepted the request: by the
    time it returns, the leader has walked the list with our entry in it. *)
Definition TransactionGroupUpdateXidStatus (ctl : SlruCtl) (xid : Z) (subxids : list Z)
    (status lsn pageno : Z) (before after : list GroupMember) : prog Clog SlruError unit :=
  group_walk ctl (before ++ MkGroupMember xid subxids status lsn pageno :: after).

Definition TransactionIdSetPageStatus (ctl : SlruCtl) (my : MyProcXids) (cont : Contention)
    (xid : Z) (subxids : list Z) (status lsn pageno : Z) (all_xact_same_page : bool)
  : prog Clog SlruError unit :=
  if all_xact_same_page && (xid =? my_xid my)
     && bool_decide (length subxids <= THRESHOLD_SUBTRANS_CLOG_OPT)%nat
     && bool_decide (subxids = my_subxids my)
  then
    match cont with
    | LockFree => TransactionIdSetPageStatusInternal ctl xid subxids status lsn pageno
    | GroupJoined before after =>
        TransactionGroupUpdateXidStatus ctl xid subxids status lsn pageno before after
    | GroupRefused => TransactionIdSetPageStatusInternal ctl xid subxids status lsn pageno
    end
  else TransactionIdSetPageStatusInternal ctl xid subxids status lsn pageno.

(** The inner [do ... while]: how many of the next subxids are on [pageno], and
    the page of the last one looked at. *)
Fixpoint count_on_page (pageno nextpageno : Z) (subxids : list Z) : nat * Z :=
  match subxids with
  | [] => (O, nextpageno)
  | x :: rest =>
      let nextpageno := TransactionIdToPage x in
      if negb (nextpageno =? pageno) then (O, nextpageno)
      else let '(n, p) := count_on_page pageno nextpageno rest in (S n, p)
  end.

Fixpoint set_status_by_pages_loop (fuel : nat) (ctl : SlruCtl) (my : MyProcXids) (pageno : Z)
    (subxids : list Z) (status lsn : Z) : prog Clog SlruError unit :=
  match fuel with
  | O => preturn SlruOutOfFuel
  | S fuel =>
      match subxids with
      | [] => pret tt
      | _ =>
          let '(num_on_page, nextpageno) := count_on_page pageno pageno subxids in
          (TransactionIdSetPageStatus ctl my LockFree InvalidTransactionId (take num_on_page subxids)
             status lsn pageno false ;;;
           set_status_by_pages_loop fuel ctl my nextpageno (drop num_on_page subxids) status lsn)%prog
      end
  end.

Definition set_status_by_pages (ctl : SlruCtl) (my : MyProcXids) (subxids : list Z) (status lsn : Z)
  : prog Clog SlruError unit :=
  let pageno := TransactionIdToPage (znth subxids 0) in
  set_status_by_pages_loop (S (length subxids)) ctl my pageno subxids status lsn.

(** How many leading subxids are on the page of the parent. *)
Fixpoint nsubxids_on_first_page (pageno : Z) (subxids : list Z) : nat :=
  match subxids with
  | [] => O
  | x :: rest => if negb (TransactionIdToPage x =? pageno) then O else S (nsubxids_on_first_page pageno rest)
  end.

Definition TransactionIdSetTreeStatus (ctl : SlruCtl) (my : MyProcXids) (cont : Contention)
    (xid : Z) (subxids : list Z) (status lsn : Z) : prog Clog SlruError unit :=
  let pageno := TransactionIdToPage xid in
  let i := nsubxids_on_first_page pageno subxids in
  if bool_decide (i = length subxids)
  then TransactionIdSetPageStatus ctl my cont xid subxids status lsn pageno true
  else
    (pwhen (status =? TRANSACTION_STATUS_COMMITTED)
       (set_status_by_pages ctl my (drop i subxids) TRANSACTION_STATUS_SUB_COMMITTED lsn) ;;;
     TransactionIdSetPageStatus ctl my cont xid (take i subxids) status lsn pageno false ;;;
     set_status_by_pages ctl my (drop i subxids) status lsn)%prog.

(** The status of a transaction, and an LSN that covers its commit record. *)
Definition TransactionIdGetStatus (ctl : SlruCtl) (xid : Z) : prog Clog SlruError (Z * Z) :=
  (slotno <- on_xact (SimpleLruReadPage_ReadOnly ctl (TransactionIdToPage xid)) ;;
   pget (fun c =>
     let s := slot (xact c) slotno in
     (byte_status (slot_byte s xid) (TransactionIdToBIndex xid),
      znth (group_lsn s) (GetLSNIndex xid))))%prog.

(** ** Pages of the log *)

Definition CLOG_MAX_ALLOWED_BUFFERS : Z :=
  Z.min SLRU_MAX_ALLOWED_BUFFERS
    ((MaxTransactionId / 2 + (CLOG_XACTS_PER_PAGE - 1)) / CLOG_XACTS_PER_PAGE).

Definition CLOGShmemBuffers (NBuffers transaction_buffers : Z) : Z :=
  if transaction_buffers =? 0 then SimpleLruAutotuneBuffers NBuffers 512 1024
  else Z.min (Z.max 16 transaction_buffers) CLOG_MAX_ALLOWED_BUFFERS.

Definition CLOGPagePrecedes (page1 page2 : Z) : bool :=
  let xid1 := u32 (u32 page1 * CLOG_XACTS_PER_PAGE) in
  let xid1 := u32 (xid1 + (FirstNormalTransactionId + 1)) in
  let xid2 := u32 (u32 page2 * CLOG_XACTS_PER_PAGE) in
  let xid2 := u32 (xid2 + (FirstNormalTransactionId + 1)) in
  TransactionIdPrecedes xid1 xid2
  && TransactionIdPrecedes xid1 (u32 (xid2 + CLOG_XACTS_PER_PAGE - 1)).

(** The control structure that [CLOGShmemInit] sets up, and the shared state of
    a new postmaster. *)
Definition XactCtl (nslots : Z) (inrecovery : bool)
    (read_fault write_fault : Z -> option SlruErrorCause) : SlruCtl :=
  MkSlruCtl (nslots / SLRU_BANK_SIZE) CLOG_LSNS_PER_PAGE CLOGPagePrecedes inrecovery
    read_fault write_fault.

Definition CLOGShmemInit (NBuffers transaction_buffers : Z) (fs : gmap Z (list (list Z))) (wal : Z) : Slru :=
  SimpleLruInit (CLOGShmemBuffers NBuffers transaction_buffers) CLOG_LSNS_PER_PAGE fs wal.

Definition WriteZeroPageXlogRec (pageno : Z) (c : Clog) : Clog :=
  MkClog (xact c) (clog_xlog c ++ [CLOG_ZEROPAGE pageno]) (clog_xlog_flushed c) (oldestClogXid c) (observed c).

(** [XLogFlush] makes everything written so far durable. *)
Definition WriteTruncateXlogRec (pageno oldestXact oldestXactDb : Z) (c : Clog) : Clog :=
  let xlog := clog_xlog c ++ [CLOG_TRUNCATE pageno oldestXact oldestXactDb] in
  MkClog (xact c) xlog (length xlog) (oldestClogXid c) (observed c).

Definition AdvanceOldestClogXid (oldest_datfrozenxid : Z) (c : Clog) : Clog :=
  if TransactionIdPrecedes (oldestClogXid c) oldest_datfrozenxid
  then MkClog (xact c) (clog_xlog c) (clog_xlog_flushed c) oldest_datfrozenxid (observed c)
  else c.

Definition ZeroCLOGPage (ctl : SlruCtl) (pageno : Z) (writeXlog : bool) : prog Clog SlruError Z :=
  (slotno <- on_xact (SimpleLruZeroPage ctl pageno) ;;
   pwhen writeXlog (pmod (WriteZeroPageXlogRec pageno)) ;;;
   pret slotno)%prog.

Definition BootStrapCLOG (ctl : SlruCtl) : prog Clog SlruError unit :=
  (slotno <- ZeroCLOGPage ctl 0 false ;;
   on_xact (SimpleLruWritePage ctl slotno))%prog.

Definition StartupCLOG (nextXid : FullTransactionId) (c : Clog) : Clog :=
  let xid := XidFromFullTransactionId nextXid in
  set_xact c (set_latest (xact c) (TransactionIdToPage xid)).

(** The page with the positions from [xid] on zeroed. *)
Definition trim_page (xid : Z) (pg : list Z) : list Z :=
  let byteno := TransactionIdToByte xid in
  let bshift := TransactionIdToBIndex xid * CLOG_BITS_PER_XACT in
  let pg := zupd pg byteno (Z.land (znth pg byteno) (Z.shiftl 1 bshift - 1)) in
  take (Z.to_nat (byteno + 1)) pg ++ replicate (Z.to_nat (BLCKSZ - byteno - 1)) 0.

Definition TrimCLOG (ctl : SlruCtl) (nextXid : FullTransactionId) : prog Clog SlruError unit :=
  let xid := XidFromFullTransactionId nextXid in
  let pageno := TransactionIdToPage xid in
  if negb (TransactionIdToPgIndex xid =? 0) then
    (slotno <- on_xact (SimpleLruReadPage ctl pageno false) ;;
     pmod (fun c => set_xact c (upd_slot (xact c) slotno
       (fun s => slot_set_dirty true (slot_set_buffer (trim_page xid (page_buffer s)) s)))))%prog
  else pret tt.

Definition CheckPointCLOG (ctl : SlruCtl) : prog Clog SlruError unit :=
  on_xact (SimpleLruWriteAll ctl).

Definition ExtendCLOG (ctl : SlruCtl) (newestXact : Z) : prog Clog SlruError unit :=
  if negb (TransactionIdToPgIndex newestXact =? 0)
     && negb (TransactionIdEquals newestXact FirstNormalTransactionId)
  then pret tt
  else (ZeroCLOGPage ctl (TransactionIdToPage newestXact) true ;;; pret tt)%prog.

(** The WAL record is flushed before any segment is removed. *)
Definition TruncateCLOG (ctl : SlruCtl) (oldestXact oldestxid_datoid : Z) : prog Clog SlruError unit :=
  fun c =>
  let cutoffPage := TransactionIdToPage oldestXact in
  if negb (SlruScanDirectory_ReportPresence ctl cutoffPage (xact c)) then (c, inr tt)
  else
    let c := AdvanceOldestClogXid oldestXact c in
    let c := WriteTruncateXlogRec cutoffPage oldestXact oldestxid_datoid c in
    on_xact (SimpleLruTruncate ctl cutoffPage) c.

Definition clog_redo (ctl : SlruCtl) (record : ClogRecord) : prog Clog SlruError unit :=
  match record with
  | CLOG_ZEROPAGE pageno =>
      (slotno <- ZeroCLOGPage ctl pageno false ;;
       on_xact (SimpleLruWritePage ctl slotno))%prog
  | CLOG_TRUNCATE pageno oldestXact _ =>
      (pmod (AdvanceOldestClogXid oldestXact) ;;;
       on_xact (SimpleLruTruncate ctl pageno))%prog
  end.

(** Arithmetic on the position of a transaction in the log. *)
Ltac clog_lia :=
  unfold TransactionIdToByte, TransactionIdToPgIndex, TransactionIdToPage, TransactionIdToBIndex,
    CLOG_XACTS_PER_PAGE, CLOG_XACTS_PER_BYTE, BLCKSZ in *; lia.

(** ** Four statuses in a byte *)

Definition is_status (s : Z) : Prop := 0 <= s < 4.

Lemma forallb_range (n : nat) (P : Z -> bool) z :
  forallb P (Z.of_nat <$> seq 0 n) = true -> 0 <= z < Z.of_nat n -> P z = true.
Proof.
  intros H Hz. rewrite forallb_forall in H. apply H. apply list_elem_of_In.
  rewrite list_elem_of_fmap. exists (Z.to_nat z). rewrite elem_of_seq. lia.
Qed.

(** All bytes, positions and statuses, by evaluation. *)
Lemma byte_status_set_all :
  forallb (fun b => forallb (fun i => forallb (fun j => forallb (fun s =>
    (byte_status (byte_set_status b i s) j =? if i =? j then s else byte_status b j)
    && (0 <=? byte_set_status b i s) && (byte_set_status b i s <? 256))
    (Z.of_nat <$> seq 0 4)) (Z.of_nat <$> seq 0 4)) (Z.of_nat <$> seq 0 4)) (Z.of_nat <$> seq 0 256) = true.
Proof. vm_compute. reflexivity. Qed.

Lemma byte_status_set b i j s :
  is_u8 b -> 0 <= i < 4 -> 0 <= j < 4 -> is_status s ->
  byte_status (byte_set_status b i s) j = (if i =? j then s else byte_status b j) /\
  is_u8 (byte_set_status b i s).
Proof.
  intros Hb Hi Hj Hs. pose proof byte_status_set_all as H.
  apply (forallb_range 256 _ b) in H; [|done]. apply (forallb_range 4 _ i) in H; [|done].
  apply (forallb_range 4 _ j) in H; [|done]. apply (forallb_range 4 _ s) in H; [|done].
  rewrite !andb_true_iff, Z.eqb_eq, Z.leb_le, Z.ltb_lt in H. unfold is_u8. tauto.
Qed.

Lemma byte_status_trim_all :
  forallb (fun b => forallb (fun i => forallb (fun j =>
    let b' := Z.land b (Z.shiftl 1 (i * CLOG_BITS_PER_XACT) - 1) in
    (byte_status b' j =? if j <? i then byte_status b j else 0) && (0 <=? b') && (b' <? 256))
    (Z.of_nat <$> seq 0 4)) (Z.of_nat <$> seq 0 4)) (Z.of_nat <$> seq 0 256) = true.
Proof. vm_compute. reflexivity. Qed.

Lemma byte_status_trim b i j :
  is_u8 b -> 0 <= i < 4 -> 0 <= j < 4 ->
  let b' := Z.land b (Z.shiftl 1 (i * CLOG_BITS_PER_XACT) - 1) in
  byte_status b' j = (if j <? i then byte_status b j else 0) /\ is_u8 b'.
Proof.
  intros Hb Hi Hj. pose proof byte_status_trim_all as H.
  apply (forallb_range 256 _ b) in H; [|done]. apply (forallb_range 4 _ i) in H; [|done].
  apply (forallb_range 4 _ j) in H; [|done].
  cbv zeta in *. rewrite !andb_true_iff, Z.eqb_eq, Z.leb_le, Z.ltb_lt in H. unfold is_u8. tauto.
Qed.

Lemma byte_status_range b j : is_status (byte_status b j).
Proof.
  unfold byte_status, is_status. change CLOG_XACT_BITMASK with (Z.ones 2).
  rewrite Z.land_ones by done. apply Z.mod_pos_bound. done.
Qed.

(** ** Statuses on a page *)

Definition page_get (pg : list Z) (xid : Z) : Z :=
  byte_status (znth pg (TransactionIdToByte xid)) (TransactionIdToBIndex xid).

Lemma page_byte pg xid : page_wf pg -> is_u8 (znth pg (TransactionIdToByte xid)).
Proof.
  intros [Hl Hf]. unfold znth. rewrite Forall_lookup in Hf.
  apply (Hf (Z.to_nat (TransactionIdToByte xid))). apply list_lookup_lookup_total_lt.
  rewrite Hl. clog_lia.
Qed.

Lemma byte_in_page xid : 0 <= TransactionIdToByte xid < BLCKSZ.
Proof. clog_lia. Qed.

Lemma bindex_range xid : 0 <= TransactionIdToBIndex xid < 4.
Proof. clog_lia. Qed.

(** A transaction is determined by its page, byte and position. *)
Lemma xid_position x y :
  TransactionIdToPage x = TransactionIdToPage y -> TransactionIdToByte x = TransactionIdToByte y ->
  TransactionIdToBIndex x = TransactionIdToBIndex y -> x = y.
Proof. clog_lia. Qed.

Lemma page_get_set pg x y s :
  page_wf pg -> is_status s -> TransactionIdToPage x = TransactionIdToPage y ->
  let pg' := zupd pg (TransactionIdToByte x)
    (byte_set_status (znth pg (TransactionIdToByte x)) (TransactionIdToBIndex x) s) in
  page_wf pg' /\ page_get pg' y = if x =? y then s else page_get pg y.
Proof.
  intros Hwf Hs Hpage pg'. pose proof (page_byte pg x Hwf) as Hb.
  pose proof (byte_in_page x) as Hx. pose proof (byte_in_page y) as Hy.
  destruct (byte_status_set _ _ _ s Hb (bindex_range x) (bindex_range y) Hs) as [Hget Hu].
  split; [by apply page_upd_wf|]. unfold page_get, pg'.
  destruct (decide (TransactionIdToByte x = TransactionIdToByte y)) as [E|E].
  - rewrite <- E, znth_zupd_eq, Hget by (unfold zlength; rewrite (proj1 Hwf); lia).
    destruct (Z.eqb_spec (TransactionIdToBIndex x) (TransactionIdToBIndex y)) as [E'|E'].
    + rewrite (xid_position x y) by done. by rewrite Z.eqb_refl.
    + rewrite (proj2 (Z.eqb_neq x y)); [done|]. congruence.
  - rewrite znth_zupd_ne by lia. rewrite (proj2 (Z.eqb_neq x y)); [done|]. congruence.
Qed.

(** ** What the log says *)

(** The status of a transaction; a page that does not exist counts as zeroes,
    as holes do. *)
Definition xid_status (st : Slru) (xid : Z) : Z :=
  page_get (default zero_page (slru_page st (TransactionIdToPage xid))) xid.

Lemma xid_status_range st x : is_status (xid_status st x).
Proof. apply byte_status_range. Qed.

Lemma view_status st st' x : view_le st st' -> xid_status st' x = xid_status st x.
Proof. intros H. unfold xid_status. by rewrite (page_le_default _ _ (H _)). Qed.

(** ** Sequences of status changes *)

(** The effect of setting one status on the function from transactions to
    statuses; replaying a sub-commit over a commit is skipped. *)
Definition write_status (inrecovery : bool) (w : Z * Z) (f : Z -> Z) : Z -> Z :=
  fun y =>
  if fst w =? y then
    if inrecovery && (snd w =? TRANSACTION_STATUS_SUB_COMMITTED)
       && (f (fst w) =? TRANSACTION_STATUS_COMMITTED)
    then f y else snd w
  else f y.

Definition write_statuses (inrecovery : bool) (ws : list (Z * Z)) (f : Z -> Z) : Z -> Z :=
  foldl (fun f w => write_status inrecovery w f) f ws.

#[export] Instance write_status_proper b w :
  Proper (pointwise_relation Z eq ==> pointwise_relation Z eq) (write_status b w).
Proof. intros f g H y. unfold write_status. by rewrite !H. Qed.

#[export] Instance write_statuses_proper b ws :
  Proper (pointwise_relation Z eq ==> pointwise_relation Z eq) (write_statuses b ws).
Proof.
  induction ws as [|w ws IH]; intros f g H; [done|]. simpl. apply IH. by rewrite H.
Qed.

Lemma write_statuses_app b ws1 ws2 f :
  write_statuses b (ws1 ++ ws2) f = write_statuses b ws2 (write_statuses b ws1 f).
Proof. unfold write_statuses. by rewrite foldl_app. Qed.

(** [c'] has come from [c] by the status changes [ws], and whatever could be
    seen on the way is the result of a prefix of them. *)
Record wrote (b : bool) (ws : list (Z * Z)) (c c' : Clog) : Prop := {
  wrote_status : forall y, xid_status (xact c') y = write_statuses b ws (xid_status (xact c)) y;
  wrote_observed : exists T, observed c' = observed c ++ T /\
    Forall (fun st => exists k, forall y, xid_status st y = write_statuses b (take k ws) (xid_status (xact c)) y) T;
  wrote_xlog : clog_xlog c' = clog_xlog c;
}.

Lemma wrote_nil b c c' :
  observed c' = observed c -> clog_xlog c' = clog_xlog c -> view_le (xact c) (xact c') -> wrote b [] c c'.
Proof.
  intros Ho Hx Hv. split; [|exists []|done].
  - intros y. by apply view_status.
  - rewrite Ho, app_nil_r. done.
Qed.

Lemma wrote_app b ws1 ws2 c1 c2 c3 :
  wrote b ws1 c1 c2 -> wrote b ws2 c2 c3 -> wrote b (ws1 ++ ws2) c1 c3.
Proof.
  intros [Hs1 (T1 & Ho1 & Hp1) Hx1] [Hs2 (T2 & Ho2 & Hp2) Hx2]. split.
  - intros y. rewrite Hs2, write_statuses_app. by apply write_statuses_proper.
  - exists (T1 ++ T2). split; [by rewrite Ho2, Ho1, app_assoc|]. apply Forall_app. split.
    + eapply Forall_impl; [exact Hp1|]. simpl. intros st [k Hk].
      exists (k `min` length ws1)%nat. intros y. rewrite Hk, take_app_le by lia.
      f_equal. destruct (decide (k <= length ws1)%nat).
      * by rewrite Nat.min_l.
      * rewrite Nat.min_r by lia. by rewrite !take_ge by lia.
    + eapply Forall_impl; [exact Hp2|]. simpl. intros st [k Hk].
      exists (length ws1 + k)%nat. intros y. rewrite take_app_add, write_statuses_app, Hk.
      by apply write_statuses_proper.
  - congruence.
Qed.

(** ** Setting statuses on one page *)

(** One change that has been observed. *)
Lemma wrote_bit b w c st' :
  (forall y, xid_status st' y = write_status b w (xid_status (xact c)) y) ->
  wrote b [w] c (observe (set_xact c st')).
Proof.
  intros Hs. split; [done| |done].
  exists [st']. split; [done|]. apply Forall_singleton. by exists 1%nat.
Qed.

Lemma set_status_bit_fields b x status lsn s :
  let s' := set_status_bit b x status lsn s in
  page_status s' = page_status s /\ page_number s' = page_number s /\ page_dirty s' = page_dirty s.
Proof. unfold set_status_bit. simpl. by repeat case_match. Qed.

Lemma set_status_bit_page b x status lsn s y :
  page_wf (page_buffer s) -> is_status status -> TransactionIdToPage x = TransactionIdToPage y ->
  let s' := set_status_bit b x status lsn s in
  page_wf (page_buffer s') /\
  page_get (page_buffer s') y = write_status b (x, status) (page_get (page_buffer s)) y.
Proof.
  intros Hwf Hs Hp s'. unfold write_status. cbn [fst snd].
  destruct (page_get_set (page_buffer s) x y status Hwf Hs Hp) as [Hwf' Hget].
  unfold s', set_status_bit. change (byte_status (slot_byte s x) (TransactionIdToBIndex x))
    with (page_get (page_buffer s) x).
  destruct (b && _ && _) eqn:E.
  - split; [done|]. by destruct (x =? y).
  - set (pg' := zupd _ _ _) in *.
    replace (page_buffer _) with pg' by (by repeat case_match). done.
Qed.

(** [st] differs from [st1] in the contents of slot [n] only. *)
Definition scribbled (st1 : Slru) (n : Z) (st : Slru) : Prop :=
  exists s', st = upd_slot st1 n (fun _ => s') /\ page_status s' = SLRU_PAGE_VALID /\
    page_number s' = page_number (slot st1 n) /\ page_wf (page_buffer s').

Section bits.
Context (ctl : SlruCtl) (st1 : Slru) (n p : Z).
Context (Hok : slru_ok ctl st1) (Hn : in_range st1 n) (Hv : valid st1 n).
Context (Hp : page_number (slot st1 n) = p).

Lemma scribbled_page st q :
  scribbled st1 n st ->
  slru_page st q = if q =? p then slot_page st1 q (slot st n) else slru_page st1 q.
Proof.
  intros (s' & -> & Hs & Hps & Hwf). by rewrite (slru_page_upd ctl), slot_upd_eq, Hp by done.
Qed.

Lemma scribbled_status st y :
  scribbled st1 n st ->
  xid_status st y = if TransactionIdToPage y =? p then page_get (page_buffer (slot st n)) y
                    else xid_status st1 y.
Proof.
  intros Hs. unfold xid_status. rewrite (scribbled_page st) by done. destruct (_ =? p); [|done]. by rewrite slot_page_default.
Qed.

Lemma scribbled_step st x status lsn :
  scribbled st1 n st -> TransactionIdToPage x = p -> is_status status ->
  let st' := upd_slot st n (set_status_bit (InRecovery ctl) x status lsn) in
  scribbled st1 n st' /\
  forall y, xid_status st' y = write_status (InRecovery ctl) (x, status) (xid_status st) y.
Proof.
  intros Hsc Hx Hs st'. pose proof Hsc as (s' & Est & Hss & Hps & Hwf).
  assert (slot st n = s') as Eslot by (rewrite Est; by apply slot_upd_eq).
  destruct (set_status_bit_fields (InRecovery ctl) x status lsn s') as (F1 & F2 & F3).
  pose proof (fun y => set_status_bit_page (InRecovery ctl) x status lsn s' y Hwf Hs) as Hbit.
  assert (scribbled st1 n st') as Hsc'.
  { eexists. unfold st'. rewrite Est, upd_slot_upd_slot by done. split; [done|]. cbv beta.
    rewrite F1, F2. split_and!; [done..|]. by apply (Hbit x). }
  assert (slot st' n = set_status_bit (InRecovery ctl) x status lsn s') as Eslot'.
  { unfold st'. rewrite slot_upd_eq, Eslot; [done|]. rewrite Est. by apply in_range_upd. }
  split; [done|]. intros y. unfold write_status. cbn [fst snd].
  rewrite (scribbled_status st' y Hsc'), (scribbled_status st y Hsc), (scribbled_status st x Hsc).
  rewrite Hx, Z.eqb_refl, Eslot, Eslot'.
  destruct (Z.eqb_spec (TransactionIdToPage y) p) as [Ey|Ey].
  - destruct (Hbit y) as [_ ->]; [congruence|]. done.
  - destruct (Z.eqb_spec x y); [congruence|done].
Qed.

Lemma SetStatusBit_spec x status lsn c :
  scribbled st1 n (xact c) -> TransactionIdToPage x = p -> is_status status ->
  exists c', TransactionIdSetStatusBit ctl x status lsn n c = (c', inr tt) /\
    scribbled st1 n (xact c') /\ wrote (InRecovery ctl) [(x, status)] c c'.
Proof.
  intros Hsc Hx Hs. destruct (scribbled_step (xact c) x status lsn Hsc Hx Hs) as [Hsc' Hst].
  eexists. split; [done|]. split; [done|]. by apply wrote_bit.
Qed.

Lemma set_status_bits_spec xs status lsn : forall c,
  scribbled st1 n (xact c) -> Forall (fun x => TransactionIdToPage x = p) xs -> is_status status ->
  exists c', set_status_bits ctl xs status lsn n c = (c', inr tt) /\
    scribbled st1 n (xact c') /\ wrote (InRecovery ctl) ((., status) <$> xs) c c'.
Proof.
  induction xs as [|x xs IH]; intros c Hsc Hxs Hs.
  { eexists. split; [done|]. split; [done|]. by apply wrote_nil. }
  apply Forall_cons in Hxs as [Hx Hxs].
  destruct (SetStatusBit_spec x status lsn c Hsc Hx Hs) as (c1 & E1 & Hsc1 & Hw1).
  destruct (IH c1 Hsc1 Hxs Hs) as (c2 & E2 & Hsc2 & Hw2).
  exists c2. split; [|split; [done|by apply (wrote_app _ [_] _ c c1)]].
  simpl. unfold pbind. by rewrite E1.
Qed.
(** The changes one page update makes, in order: the subtransactions are
    sub-committed before the main transaction commits. *)
Definition page_writes (xid : Z) (subxids : list Z) (status : Z) : list (Z * Z) :=
  (if TransactionIdIsValid xid then
     (if status =? TRANSACTION_STATUS_COMMITTED
      then (., TRANSACTION_STATUS_SUB_COMMITTED) <$> subxids else [])
     ++ [(xid, status)]
   else []) ++ ((., status) <$> subxids).

Lemma page_bits_spec xid subxids status lsn c :
  scribbled st1 n (xact c) -> (TransactionIdIsValid xid = true -> TransactionIdToPage xid = p) ->
  Forall (fun x => TransactionIdToPage x = p) subxids -> is_status status ->
  exists c', (pwhen (TransactionIdIsValid xid)
     (pwhen (status =? TRANSACTION_STATUS_COMMITTED)
        (set_status_bits ctl subxids TRANSACTION_STATUS_SUB_COMMITTED lsn n) ;;;
      TransactionIdSetStatusBit ctl xid status lsn n) ;;;
     set_status_bits ctl subxids status lsn n)%prog c = (c', inr tt) /\
    scribbled st1 n (xact c') /\ wrote (InRecovery ctl) (page_writes xid subxids status) c c'.
Proof.
  intros Hsc Hx Hsub Hs. unfold page_writes, pwhen, pbind.
  destruct (TransactionIdIsValid xid).
  - destruct (status =? TRANSACTION_STATUS_COMMITTED).
    + destruct (set_status_bits_spec subxids TRANSACTION_STATUS_SUB_COMMITTED lsn c) as (c1 & -> & Hsc1 & Hw1); [done..|].
      destruct (SetStatusBit_spec xid status lsn c1) as (c2 & -> & Hsc2 & Hw2); [auto..|].
      destruct (set_status_bits_spec subxids status lsn c2) as (c3 & -> & Hsc3 & Hw3); [done..|].
      exists c3. split_and!; [done..|]. eapply wrote_app; [|done]. by eapply wrote_app.
    + destruct (SetStatusBit_spec xid status lsn c) as (c2 & E & Hsc2 & Hw2); [auto..|].
      unfold pret. rewrite E.
      destruct (set_status_bits_spec subxids status lsn c2) as (c3 & -> & Hsc3 & Hw3); [done..|].
      exists c3. split_and!; [done..|]. by eapply (wrote_app _ [_]).
  - unfold pret. by apply set_status_bits_spec.
Qed.
End bits.

(** A page update is well posed: its transactions are on the page it names. *)
Record page_req (xid : Z) (subxids : list Z) (status pageno : Z) : Prop := {
  req_page : 0 <= pageno;
  req_xid : TransactionIdIsValid xid = true -> TransactionIdToPage xid = pageno;
  req_sub : Forall (fun x => TransactionIdToPage x = pageno) subxids;
  req_status : is_status status;
}.

(** The outcome of an operation meant to make the changes [ws]: all of them, or
    an I/O error after a prefix. *)
Definition writes_post (ctl : SlruCtl) (ws : list (Z * Z)) (c c' : Clog) (r : SlruError + unit) : Prop :=
  slru_wf ctl (xact c') /\
  match r with
  | inr _ => wrote (InRecovery ctl) ws c c'
  | inl e => io_error e /\ exists k, wrote (InRecovery ctl) (take k ws) c c'
  end.

Lemma scribbled_self st n :
  in_range st n -> valid st n -> page_wf (page_buffer (slot st n)) -> scribbled st n st.
Proof.
  intros Hn Hv Hwf. exists (slot st n). split; [|done]. symmetry. by apply upd_slot_id.
Qed.

Lemma scribbled_dirty ctl st1 n st p :
  slru_wf ctl st1 -> n ∈ bank_slotnos ctl p -> in_range st1 n -> valid st1 n ->
  page_number (slot st1 n) = p -> scribbled st1 n st ->
  let st' := upd_slot st n (slot_set_dirty true) in
  slru_wf ctl st' /\ scribbled st1 n st' /\ page_buffer (slot st' n) = page_buffer (slot st n).
Proof.
  intros [Hok Hpg] Hin Hn Hv Hp (s' & -> & Hs & Hps & Hwf) st'.
  assert (st' = upd_slot st1 n (fun _ => slot_set_dirty true s')) as E
    by (unfold st'; by rewrite upd_slot_upd_slot).
  assert (scribbled st1 n st') as Hsc by (rewrite E; by eexists).
  split_and!; [|done|].
  - destruct (update_page_spec ctl st1 n p (fun _ => slot_set_dirty true s')) as (Hok' & _ & _);
      try done; [simpl; congruence|by left|]. rewrite E. split; [done|]. rewrite <- E. intros q pg Hq.
    rewrite (scribbled_page ctl st1 n p Hok Hn Hv Hp st' q Hsc).
    destruct (q =? p); [|by apply Hpg]. rewrite E, slot_upd_eq by done. rewrite slot_page_dirty by done. by intros [= <-].
  - rewrite E, !slot_upd_eq by done. done.
Qed.

Lemma SetPageStatusInternal_spec ctl xid subxids status lsn pageno c c' r :
  slru_wf ctl (xact c) -> page_req xid subxids status pageno ->
  TransactionIdSetPageStatusInternal ctl xid subxids status lsn pageno c = (c', r) ->
  writes_post ctl (page_writes xid subxids status) c c' r.
Proof.
  intros Hok [Hp0 Hx Hsub Hst]. unfold TransactionIdSetPageStatusInternal, on_xact.
  unfold pbind at 1. destruct (SimpleLruReadPage _ _ _ _) as [st1 r1] eqn:Eread.
  apply SimpleLruReadPage_spec in Eread as [Hk Hr]; [|done|apply Hok].
  pose proof (keeps_wf _ _ _ Hk Hok) as Hok1. destruct r1 as [e|n].
  { intros [= <- <-]. split; [done|]. split; [destruct Hr as (? & ? & -> & _); by eexists _, _|].
    exists O. apply wrote_nil; [done..|]. apply Hk. }
  destruct Hr as (Hin & Hn & Hv & Hpn & _).
  pose proof (slot_wf ctl st1 n Hok1 Hn Hv) as Hwf.
  pose proof (scribbled_self st1 n Hn Hv Hwf) as Hsc.
  destruct (page_bits_spec ctl st1 n pageno (wf_slru _ _ Hok1) Hn Hv Hpn xid subxids status lsn (set_xact c st1) Hsc Hx Hsub Hst)
    as (c2 & E2 & Hsc2 & Hw2).
  rewrite <- pbind_assoc. unfold pbind at 1. rewrite E2. unfold pmod. intros [= <- <-].
  destruct (scribbled_dirty ctl st1 n (xact c2) pageno) as (Hok3 & Hsc3 & Hbuf); [done..|].
  split; [done|]. apply (wrote_app _ [] (page_writes xid subxids status) c (set_xact c st1)).
  - apply wrote_nil; [done..|]. apply Hk.
  - rewrite <- (app_nil_r (page_writes _ _ _)). eapply wrote_app; [exact Hw2|].
    split; [|exists []; by rewrite app_nil_r|done]. intros y. simpl.
    pose proof (scribbled_status ctl st1 n pageno (wf_slru _ _ Hok1) Hn Hv Hpn) as Hst'.
    by rewrite (Hst' _ y Hsc2), (Hst' _ y Hsc3), Hbuf.
Qed.

(** ** Setting a transaction tree *)

Lemma writes_post_nil ctl c : slru_wf ctl (xact c) -> writes_post ctl [] c c (inr tt).
Proof. intros. split; [done|]. by apply wrote_nil. Qed.

Lemma writes_bind ctl (m1 m2 : prog Clog SlruError unit) ws1 ws2 c c' r :
  (forall c1 r1, m1 c = (c1, r1) -> writes_post ctl ws1 c c1 r1) ->
  (forall c1 c2 r2, slru_wf ctl (xact c1) -> wrote (InRecovery ctl) ws1 c c1 ->
     m2 c1 = (c2, r2) -> writes_post ctl ws2 c1 c2 r2) ->
  (m1 ;;; m2)%prog c = (c', r) -> writes_post ctl (ws1 ++ ws2) c c' r.
Proof.
  intros H1 H2. unfold pbind. destruct (m1 c) as [c1 [e|[]]] eqn:E1; destruct (H1 _ _ eq_refl) as [Hok1 Hr1].
  - intros [= <- <-]. split; [done|]. destruct Hr1 as [He [k Hk]]. split; [done|].
    exists (k `min` length ws1)%nat. rewrite take_app_le by lia.
    rewrite <- firstn_firstn, take_ge with (l := ws1) by lia. done.
  - intros E2. destruct (H2 _ _ _ Hok1 Hr1 E2) as [Hok2 Hr2]. split; [done|]. destruct r as [e|[]].
    + destruct Hr2 as [He [k Hk]]. split; [done|]. exists (length ws1 + k)%nat.
      rewrite take_app_add. by eapply wrote_app.
    + by eapply wrote_app.
Qed.

Definition member_writes (m : GroupMember) : list (Z * Z) :=
  page_writes (clogGroupMemberXid m) (clogGroupMemberSubxids m) (clogGroupMemberXidStatus m).

Definition member_req (m : GroupMember) : Prop :=
  page_req (clogGroupMemberXid m) (clogGroupMemberSubxids m) (clogGroupMemberXidStatus m)
    (clogGroupMemberPage m).

Lemma group_walk_spec ctl ms : forall c c' r,
  slru_wf ctl (xact c) -> Forall member_req ms -> group_walk ctl ms c = (c', r) ->
  writes_post ctl (ms ≫= member_writes) c c' r.
Proof.
  induction ms as [|m ms IH]; intros c c' r Hok Hreq.
  { intros [= <- <-]. by apply writes_post_nil. }
  apply Forall_cons in Hreq as [Hm Hms]. simpl. apply writes_bind.
  - intros c1 r1. by apply SetPageStatusInternal_spec.
  - intros c1 c2 r2 Hok1 Hw. by apply IH.
Qed.

(** Whether a page update goes through a group. *)
Definition uses_group (my : MyProcXids) (xid : Z) (subxids : list Z) (same_page : bool) : bool :=
  same_page && (xid =? my_xid my)
  && bool_decide (length subxids <= THRESHOLD_SUBTRANS_CLOG_OPT)%nat
  && bool_decide (subxids = my_subxids my).

(** The other members of the group, when there is one. *)
Definition others (my : MyProcXids) (cont : Contention) (xid : Z) (subxids : list Z) (same_page : bool)
  : list GroupMember * list GroupMember :=
  match uses_group my xid subxids same_page, cont with
  | true, GroupJoined before after => (before, after)
  | _, _ => ([], [])
  end.

Definition status_writes (my : MyProcXids) (cont : Contention) (xid : Z) (subxids : list Z)
    (status : Z) (same_page : bool) : list (Z * Z) :=
  let '(before, after) := others my cont xid subxids same_page in
  (before ≫= member_writes) ++ page_writes xid subxids status ++ (after ≫= member_writes).

Definition contention_req (cont : Contention) : Prop :=
  match cont with
  | GroupJoined before after => Forall member_req (before ++ after)
  | _ => True
  end.

Lemma SetPageStatus_spec ctl my cont xid subxids status lsn pageno same c c' r :
  slru_wf ctl (xact c) -> page_req xid subxids status pageno -> contention_req cont ->
  TransactionIdSetPageStatus ctl my cont xid subxids status lsn pageno same c = (c', r) ->
  writes_post ctl (status_writes my cont xid subxids status same) c c' r.
Proof.
  intros Hok Hreq Hcont. unfold TransactionIdSetPageStatus, status_writes, others.
  fold (uses_group my xid subxids same). destruct (uses_group my xid subxids same); [destruct cont|];
    simpl; rewrite ?app_nil_r; try by apply SetPageStatusInternal_spec.
  intros H. apply Forall_app in Hcont as [Hb Ha].
  apply group_walk_spec in H; [|done|by apply Forall_app; split; [|constructor]].
  rewrite bind_app in H. simpl in H. done.
Qed.

Lemma count_on_page_spec p l : forall np n np',
  count_on_page p np l = (n, np') ->
  Forall (fun x => TransactionIdToPage x = p) (take n l) /\
  match drop n l with [] => True | x :: _ => np' = TransactionIdToPage x end.
Proof.
  induction l as [|x l IH]; intros np n np'; simpl; [by intros [= <- <-]|].
  destruct (Z.eqb_spec (TransactionIdToPage x) p) as [E|E]; simpl; [|by intros [= <- <-]].
  destruct (count_on_page p (TransactionIdToPage x) l) as [m p'] eqn:Em. intros [= <- <-].
  destruct (IH _ _ _ Em) as [H1 H2]. simpl. split; [by constructor|done].
Qed.

Lemma count_on_page_pos p np x l n np' :
  count_on_page p np (x :: l) = (n, np') -> TransactionIdToPage x = p -> (1 <= n)%nat.
Proof.
  simpl. intros H Hx. rewrite Hx, Z.eqb_refl in H. simpl in H.
  destruct (count_on_page p p l). injection H as <- _. lia.
Qed.

Definition xids_req (l : list Z) : Prop := Forall (fun x => 0 <= x) l.

Lemma TransactionIdToPage_nonneg x : 0 <= x -> 0 <= TransactionIdToPage x.
Proof. clog_lia. Qed.

Lemma status_writes_false my cont x l s : status_writes my cont x l s false = page_writes x l s.
Proof. unfold status_writes, others. simpl. by rewrite app_nil_r. Qed.

Lemma set_status_by_pages_loop_spec ctl my status lsn fuel : forall p l c c' r,
  slru_wf ctl (xact c) -> xids_req l -> is_status status -> (length l < fuel)%nat ->
  match l with [] => True | x :: _ => p = TransactionIdToPage x end ->
  set_status_by_pages_loop fuel ctl my p l status lsn c = (c', r) ->
  writes_post ctl ((., status) <$> l) c c' r.
Proof.
  induction fuel as [|fuel IH]; intros p l c c' r Hok Hreq Hs Hf Hp; [lia|].
  destruct l as [|x l]; cbn [set_status_by_pages_loop].
  { intros [= <- <-]. by apply writes_post_nil. }
  destruct (count_on_page p p (x :: l)) as [n np] eqn:E.
  destruct (count_on_page_spec _ _ _ _ _ E) as [Hon Hnext].
  pose proof (count_on_page_pos _ _ _ _ _ _ E (eq_sym Hp)) as Hn.
  assert (page_req InvalidTransactionId (take n (x :: l)) status p) as Hpr.
  { pose proof Hreq as [Hx _]%Forall_cons. split; [|done|done|done].
    rewrite Hp. by apply TransactionIdToPage_nonneg. }
  assert (((., status) <$> x :: l) = ((., status) <$> take n (x :: l)) ++ ((., status) <$> drop n (x :: l)))
    as -> by by rewrite <- fmap_app, take_drop.
  apply writes_bind.
  - intros c1 r1 E1. apply SetPageStatus_spec in E1; [|done..]. by rewrite status_writes_false in E1.
  - intros c1 c2 r2 Hok1 Hw. apply IH; [done| |done| |done].
    + by apply Forall_drop.
    + rewrite length_drop. simpl length in *. lia.
Qed.

Lemma set_status_by_pages_spec ctl my l status lsn c c' r :
  slru_wf ctl (xact c) -> xids_req l -> is_status status ->
  set_status_by_pages ctl my l status lsn c = (c', r) -> writes_post ctl ((., status) <$> l) c c' r.
Proof.
  intros Hok Hreq Hs. apply set_status_by_pages_loop_spec; [done..|lia|]. by destruct l.
Qed.

Lemma nsubxids_on_first_page_spec p l :
  Forall (fun x => TransactionIdToPage x = p) (take (nsubxids_on_first_page p l) l).
Proof.
  induction l as [|x l IH]; simpl; [done|].
  destruct (Z.eqb_spec (TransactionIdToPage x) p); simpl; [by constructor|done].
Qed.

(** The changes that recording the fate of a whole tree makes, in order. *)
Definition tree_writes (my : MyProcXids) (cont : Contention) (xid : Z) (subxids : list Z) (status : Z)
  : list (Z * Z) :=
  let i := nsubxids_on_first_page (TransactionIdToPage xid) subxids in
  if bool_decide (i = length subxids) then status_writes my cont xid subxids status true
  else
    (if status =? TRANSACTION_STATUS_COMMITTED
     then (., TRANSACTION_STATUS_SUB_COMMITTED) <$> drop i subxids else [])
    ++ page_writes xid (take i subxids) status ++ ((., status) <$> drop i subxids).

Lemma SetTreeStatus_spec ctl my cont xid subxids status lsn c c' r :
  slru_wf ctl (xact c) -> xids_req (xid :: subxids) -> is_status status -> contention_req cont ->
  TransactionIdSetTreeStatus ctl my cont xid subxids status lsn c = (c', r) ->
  writes_post ctl (tree_writes my cont xid subxids status) c c' r.
Proof.
  intros Hok Hreq Hs Hcont. pose proof Hreq as [Hx Hsub]%Forall_cons.
  unfold TransactionIdSetTreeStatus, tree_writes.
  pose proof (nsubxids_on_first_page_spec (TransactionIdToPage xid) subxids) as Hon.
  set (i := nsubxids_on_first_page _ _) in *.
  assert (page_req xid (take i subxids) status (TransactionIdToPage xid)) as Hpr.
  { split; try done. by apply TransactionIdToPage_nonneg. }
  case_bool_decide as Hall.
  { rewrite Hall, take_ge in Hpr by done. intros H. eapply SetPageStatus_spec; eauto. }
  pose proof (Forall_drop _ i _ Hsub) as Hdrop.
  apply writes_bind.
  - intros c1 r1. destruct (status =? TRANSACTION_STATUS_COMMITTED); simpl.
    + by apply set_status_by_pages_spec.
    + intros [= <- <-]. by apply writes_post_nil.
  - intros c1 c2 r2 Hok1 Hw1. apply writes_bind.
    + intros c3 r3 E3. apply SetPageStatus_spec in E3; [|done..]. by rewrite status_writes_false in E3.
    + intros c3 c4 r4 Hok3 Hw3. by apply set_status_by_pages_spec.
Qed.

(** ** Atomicity of a commit *)

Section prefixes.
Context (b : bool).

(** [P] holds before, between and after the changes [ws]. *)
Definition throughout (P : (Z -> Z) -> Prop) (ws : list (Z * Z)) (f : Z -> Z) : Prop :=
  forall k, P (write_statuses b (take k ws) f).

Lemma throughout_app P ws1 ws2 f :
  throughout P ws1 f -> throughout P ws2 (write_statuses b ws1 f) -> throughout P (ws1 ++ ws2) f.
Proof.
  intros H1 H2 k. destruct (decide (k <= length ws1)%nat).
  - rewrite take_app_le by done. apply H1.
  - rewrite take_app_ge, write_statuses_app by lia. apply H2.
Qed.

Lemma throughout_inv (I : (Z -> Z) -> Prop) ws : forall f,
  (forall w g, w ∈ ws -> I g -> I (write_status b w g)) -> I f ->
  throughout I ws f /\ I (write_statuses b ws f).
Proof.
  induction ws as [|w ws IH]; intros f Hw Hf; [split; [by intros []|done]|].
  assert (I (write_status b w f)) as Hf' by (apply Hw; [elem|done]).
  destruct (IH (write_status b w f)) as [H1 H2]; [intros; apply Hw; [elem|done]|done|].
  split; [|done]. intros [|k]; [done|apply H1].
Qed.

Lemma throughout_end P ws f : throughout P ws f -> P (write_statuses b ws f).
Proof. intros H. specialize (H (length ws)). by rewrite take_ge in H. Qed.
End prefixes.

(** To anybody asking, the subtransactions have committed exactly when the top
    transaction has: a sub-committed one follows its parent. *)
Definition tree_atomic (xid : Z) (subxids : list Z) (f : Z -> Z) : Prop :=
  f xid = TRANSACTION_STATUS_COMMITTED /\
    (forall s, s ∈ subxids -> f s = TRANSACTION_STATUS_SUB_COMMITTED \/ f s = TRANSACTION_STATUS_COMMITTED)
  \/ f xid <> TRANSACTION_STATUS_COMMITTED /\ (forall s, s ∈ subxids -> f s <> TRANSACTION_STATUS_COMMITTED).

Definition effectively_committed (xid : Z) (f : Z -> Z) (s : Z) : Prop :=
  f s = TRANSACTION_STATUS_COMMITTED \/
  f s = TRANSACTION_STATUS_SUB_COMMITTED /\ f xid = TRANSACTION_STATUS_COMMITTED.

Lemma tree_atomic_spec xid subxids f s :
  tree_atomic xid subxids f -> s ∈ subxids ->
  effectively_committed xid f s <-> f xid = TRANSACTION_STATUS_COMMITTED.
Proof.
  intros [[Hx H]|[Hx H]] Hs; specialize (H s Hs); unfold effectively_committed.
  - tauto.
  - tauto.
Qed.

Section commit.
Context (b : bool) (xid : Z) (subxids : list Z).
Context (Hnotin : xid ∉ subxids).

Abbreviation SUB := TRANSACTION_STATUS_SUB_COMMITTED.
Abbreviation COMM := TRANSACTION_STATUS_COMMITTED.

(** Changes to transactions outside the tree. *)
Definition foreign (ws : list (Z * Z)) : Prop :=
  Forall (fun w => fst w <> xid /\ fst w ∉ subxids) ws.

Lemma write_status_other w f y : fst w <> y -> write_status b w f y = f y.
Proof. intros H. unfold write_status. by rewrite (proj2 (Z.eqb_neq _ _) H). Qed.

Lemma write_status_self x s f :
  write_status b (x, s) f x = s \/ write_status b (x, s) f x = f x /\ f x = COMM /\ s = SUB.
Proof.
  unfold write_status. simpl. rewrite Z.eqb_refl.
  destruct (b && (s =? SUB) && (f x =? COMM)) eqn:E; [|by left].
  right. rewrite !andb_true_iff, !Z.eqb_eq in E. tauto.
Qed.

Lemma subcommit_atomic x f :
  x ∈ subxids -> tree_atomic xid subxids f -> tree_atomic xid subxids (write_status b (x, SUB) f).
Proof.
  intros Hx HA. assert (write_status b (x, SUB) f xid = f xid) as Ex
    by (apply write_status_other; simpl; congruence).
  unfold tree_atomic. rewrite Ex. destruct HA as [[H1 H2]|[H1 H2]]; [left|right]; (split; [done|]); intros s Hs.
  - destruct (decide (x = s)) as [->|Hne]; [|rewrite write_status_other by done; auto].
    destruct (write_status_self s SUB f) as [->|(-> & -> & _)]; auto.
  - destruct (decide (x = s)) as [->|Hne]; [|rewrite write_status_other by done; auto].
    destruct (write_status_self s SUB f) as [->|(_ & E & _)]; [done|]. by destruct (H2 s Hs).
Qed.

Lemma foreign_atomic w f :
  fst w <> xid -> fst w ∉ subxids -> tree_atomic xid subxids f -> tree_atomic xid subxids (write_status b w f).
Proof.
  intros Hx Hs. unfold tree_atomic. rewrite write_status_other by done.
  intros [[H1 H2]|[H1 H2]]; [left|right]; (split; [done|]); intros s Hin;
    (rewrite write_status_other; [by apply H2|congruence]).
Qed.

(** The top transaction has committed and its children at least sub-committed. *)
Definition decided (f : Z -> Z) : Prop :=
  f xid = COMM /\ forall s, s ∈ subxids -> f s = SUB \/ f s = COMM.

Lemma commit_decided x f :
  x ∈ subxids -> decided f -> decided (write_status b (x, COMM) f).
Proof.
  intros Hx [H1 H2]. split; [rewrite write_status_other; [done|simpl; congruence]|].
  intros s Hs. destruct (decide (x = s)) as [->|Hne]; [|rewrite write_status_other by done; auto].
  destruct (write_status_self s COMM f) as [->|(_ & _ & [=])]; auto.
Qed.

Lemma subcommit_ready l f :
  (forall s, s ∈ l -> s ∈ subxids) ->
  forall s, s ∈ l \/ f s = SUB \/ f s = COMM ->
  let g := write_statuses b ((., SUB) <$> l) f in g s = SUB \/ g s = COMM.
Proof.
  revert f. induction l as [|x l IH]; intros f Hl s Hs; simpl.
  { destruct Hs as [H|]; [by apply elem_of_nil in H|done]. }
  apply IH; [intros; apply Hl; elem|]. destruct (decide (x = s)) as [->|Hne].
  - right. destruct (write_status_self s SUB f) as [->|(-> & -> & _)]; auto.
  - rewrite write_status_other by done. destruct Hs as [[->|]%elem_of_cons|]; [done|by left|by right].
Qed.

Lemma foreign_throughout I ws f :
  foreign ws -> (forall w g, fst w <> xid -> fst w ∉ subxids -> I g -> I (write_status b w g)) -> I f ->
  throughout b I ws f /\ I (write_statuses b ws f).
Proof.
  intros Hws HI. apply throughout_inv. intros w g Hw. unfold foreign in Hws.
  rewrite Forall_forall in Hws. destruct (Hws w Hw). by apply HI.
Qed.

Lemma elem_of_pairs (s : Z) (l : list Z) w : w ∈ (., s) <$> l -> w.2 = s /\ w.1 ∈ l.
Proof. rewrite list_elem_of_fmap. by intros (x & -> & ?). Qed.

Lemma foreign_decided w f :
  fst w <> xid -> fst w ∉ subxids -> decided f -> decided (write_status b w f).
Proof.
  intros Hx Hs [H1 H2]. split; [by rewrite write_status_other|].
  intros s Hin. rewrite write_status_other; [auto|congruence].
Qed.

Lemma decided_atomic f : decided f -> tree_atomic xid subxids f.
Proof. by left. Qed.

(** The shape of every commit: foreign changes, then every subtransaction
    sub-committed, then the top transaction, then subtransactions committed. *)
Lemma commit_sequence F1 S C F2 f :
  foreign F1 -> foreign F2 -> (forall s, s ∈ subxids -> s ∈ S) -> (forall s, s ∈ S -> s ∈ subxids) ->
  (forall s, s ∈ C -> s ∈ subxids) -> tree_atomic xid subxids f ->
  throughout b (tree_atomic xid subxids)
    (F1 ++ ((., SUB) <$> S) ++ (xid, COMM) :: ((., COMM) <$> C) ++ F2) f.
Proof.
  intros HF1 HF2 HS1 HS2 HC HA.
  destruct (foreign_throughout (tree_atomic xid subxids) F1 f) as [Ht1 Hf1]; [done|apply foreign_atomic|done|].
  apply throughout_app; [done|]. set (f1 := write_statuses b F1 f) in *.
  destruct (throughout_inv b (tree_atomic xid subxids) ((., SUB) <$> S) f1) as [Ht2 Hf2]; [|done|].
  { intros [x s] g [E Hin]%elem_of_pairs. simpl in E. subst s. apply subcommit_atomic. by apply HS2. }
  apply throughout_app; [done|].
  pose proof (subcommit_ready S f1 HS2) as Hready. set (f2 := write_statuses b _ f1) in *.
  assert (decided (write_status b (xid, COMM) f2)) as Hd.
  { split; [by destruct (write_status_self xid COMM f2) as [->|(_ & _ & [=])]|].
    intros s Hs. rewrite write_status_other by (simpl; congruence). apply Hready. left. auto. }
  apply (throughout_app _ _ [_]); [intros [|[|k]]; [done|by apply decided_atomic..]|]. simpl.
  set (f3 := write_status b _ f2) in *.
  destruct (throughout_inv b decided ((., COMM) <$> C) f3) as [Ht3 Hf3]; [|done|].
  { intros [x s] g [E Hin]%elem_of_pairs. simpl in E. subst s. apply commit_decided. by apply HC. }
  apply throughout_app; [intros k; apply decided_atomic, Ht3|].
  destruct (foreign_throughout decided F2 (write_statuses b ((., COMM) <$> C) f3)) as [Ht4 _];
    [done|apply foreign_decided|done|].
  intros k. apply decided_atomic, Ht4.
Qed.

End commit.

(** The transactions that other members of the group change. *)
Definition contention_writes (cont : Contention) : list (Z * Z) :=
  match cont with
  | GroupJoined before after => (before ≫= member_writes) ++ (after ≫= member_writes)
  | _ => []
  end.

(** The sub-commits that precede the change of the top transaction. *)
Definition sub_writes (status : Z) (l : list Z) : list (Z * Z) :=
  if status =? TRANSACTION_STATUS_COMMITTED then (., TRANSACTION_STATUS_SUB_COMMITTED) <$> l else [].

Lemma page_writes_valid xid l status :
  TransactionIdIsValid xid = true ->
  page_writes xid l status = sub_writes status l ++ (xid, status) :: ((., status) <$> l).
Proof. intros Hx. unfold page_writes. rewrite Hx. by rewrite <- app_assoc. Qed.

Lemma sub_writes_app status l1 l2 : sub_writes status (l1 ++ l2) = sub_writes status l1 ++ sub_writes status l2.
Proof. unfold sub_writes. destruct (_ =? _); [by rewrite fmap_app|done]. Qed.

Lemma others_foreign my cont xid subxids l same :
  foreign xid subxids (contention_writes cont) ->
  let '(before, after) := others my cont xid l same in
  foreign xid subxids (before ≫= member_writes) /\ foreign xid subxids (after ≫= member_writes).
Proof.
  unfold others, foreign. destruct (uses_group my xid l same), cont; simpl; intros H; try done.
  by apply Forall_app in H.
Qed.

Lemma tree_writes_shape my cont xid subxids status :
  TransactionIdIsValid xid = true -> foreign xid subxids (contention_writes cont) ->
  exists F1 S C F2, foreign xid subxids F1 /\ foreign xid subxids F2 /\
    (forall s, s ∈ S <-> s ∈ subxids) /\ (forall s, s ∈ C <-> s ∈ subxids) /\
    (forall w, w ∈ F1 ++ F2 -> w ∈ contention_writes cont) /\
    tree_writes my cont xid subxids status =
      F1 ++ sub_writes status S ++ (xid, status) :: ((., status) <$> C) ++ F2.
Proof.
  intros Hx Hf. unfold tree_writes. set (i := nsubxids_on_first_page _ _). case_bool_decide as Hi.
  - pose proof (others_foreign my cont xid subxids subxids true Hf) as Ho.
    unfold status_writes. destruct (others my cont xid subxids true) as [before after] eqn:E.
    destruct Ho as [H1 H2]. eexists _, subxids, subxids, _. split_and!; [exact H1|exact H2|done|done| |].
    + unfold others in E. destruct (uses_group my xid subxids true), cont; simplify_eq; try done;
        intros w Hw; simpl in Hw; by apply elem_of_nil in Hw.
    + rewrite page_writes_valid by done. by rewrite <- app_assoc.
  - exists [], (drop i subxids ++ take i subxids), (take i subxids ++ drop i subxids), [].
    assert (forall s, s ∈ take i subxids ++ drop i subxids <-> s ∈ subxids) as Hin by (intros; by rewrite take_drop).
    split_and!; [by constructor..| |done| |].
    + intros s. rewrite <- Hin, !elem_of_app. tauto.
    + intros w Hw. by apply elem_of_nil in Hw.
    + rewrite page_writes_valid by done. fold (sub_writes status (drop i subxids)).
      simpl. rewrite sub_writes_app, fmap_app, app_nil_r. by rewrite <- !app_assoc.
Qed.

Lemma commit_throughout b my cont xid subxids f :
  TransactionIdIsValid xid = true -> xid ∉ subxids -> foreign xid subxids (contention_writes cont) ->
  tree_atomic xid subxids f ->
  throughout b (tree_atomic xid subxids) (tree_writes my cont xid subxids TRANSACTION_STATUS_COMMITTED) f.
Proof.
  intros Hx Hn Hf HA. edestruct tree_writes_shape as (F1 & S & C & F2 & H1 & H2 & HS & HC & _ & ->); [done..|].
  apply commit_sequence; try done; intros s; by rewrite ?HS, ?HC.
Qed.

Lemma write_statuses_other b ws f y :
  (forall w, w ∈ ws -> fst w <> y) -> write_statuses b ws f y = f y.
Proof.
  revert f. induction ws as [|w ws IH]; intros f H; [done|]. simpl. rewrite IH.
  - apply write_status_other. apply H. elem.
  - intros; apply H; elem.
Qed.

Lemma write_statuses_all b s l f y :
  s <> TRANSACTION_STATUS_SUB_COMMITTED -> y ∈ l -> write_statuses b ((., s) <$> l) f y = s.
Proof.
  intros Hs Hy. revert f. induction l as [|x l IH]; intros f; [by apply elem_of_nil in Hy|]. simpl.
  destruct (decide (y ∈ l)) as [Hin|Hin]; [by apply IH|].
  apply elem_of_cons in Hy as [->|]; [|done]. rewrite write_statuses_other.
  - destruct (write_status_self b x s f) as [->|(_ & _ & ?)]; done.
  - intros w [_ Hw]%elem_of_pairs. congruence.
Qed.

(** Whatever happened in between, in the end the whole tree has the status. *)
Lemma tree_writes_final b my cont xid subxids status f y :
  TransactionIdIsValid xid = true -> foreign xid subxids (contention_writes cont) ->
  status <> TRANSACTION_STATUS_SUB_COMMITTED ->
  (y ∈ xid :: subxids -> write_statuses b (tree_writes my cont xid subxids status) f y = status) /\
  (y ∉ xid :: subxids -> y ∉ (contention_writes cont).*1 ->
   forall k, write_statuses b (take k (tree_writes my cont xid subxids status)) f y = f y).
Proof.
  intros Hx Hf Hs.
  destruct (tree_writes_shape my cont xid subxids status Hx Hf) as (F1 & S & C & F2 & H1 & H2 & HS & HC & Hsub & ->).
  split.
  - intros Hy. rewrite !write_statuses_app. change (?a :: ?l ++ F2) with ([a] ++ l ++ F2).
    rewrite !write_statuses_app. rewrite write_statuses_other.
    2:{ unfold foreign in H2. rewrite Forall_forall in H2. intros w [Hw1 Hw2]%H2 <-.
        apply elem_of_cons in Hy as [?|?]; done. }
    destruct (decide (y ∈ C)) as [Hc|Hc]; [by apply write_statuses_all|].
    rewrite write_statuses_other by (intros w [_ Hw]%elem_of_pairs; congruence).
    assert (y = xid) as -> by (rewrite HC in Hc; apply elem_of_cons in Hy; tauto).
    apply (write_statuses_all b status [xid]); [done|elem].
  - intros Hy Hyc k. apply write_statuses_other. intros w Hw%subseteq_take <-.
    rewrite elem_of_cons in Hy. rewrite !elem_of_app, elem_of_cons, elem_of_app in Hw.
    assert (w ∈ F1 ++ F2 -> False) as Hc.
    { intros Hin%Hsub. apply Hyc. apply list_elem_of_fmap. by exists w. }
    rewrite elem_of_app in Hc. destruct Hw as [|[Hw|[->|[Hw|]]]]; [tauto| |by apply Hy; left| |tauto].
    + unfold sub_writes in Hw. destruct (_ =? _); [|by apply elem_of_nil in Hw].
      apply elem_of_pairs in Hw as [_ Hw%HS]. tauto.
    + apply elem_of_pairs in Hw as [_ Hw%HC]. tauto.
Qed.

(** ** Reading a status *)

Lemma GetStatus_spec ctl xid c c' r :
  slru_wf ctl (xact c) -> 0 <= xid ->
  TransactionIdGetStatus ctl xid c = (c', r) ->
  keeps ctl (xact c) (xact c') /\ clog_xlog c' = clog_xlog c /\ observed c' = observed c /\
  match r with
  | inr (status, lsn) => status = xid_status (xact c) xid
  | inl e => io_error e
  end.
Proof.
  intros Hok Hx. unfold TransactionIdGetStatus, pbind, on_xact, pget.
  destruct (SimpleLruReadPage_ReadOnly _ _ _) as [st1 [e|n]] eqn:E;
    apply SimpleLruReadPage_ReadOnly_spec in E as [Hk Hr];
    try (apply Hok || done || by apply TransactionIdToPage_nonneg); intros [= <- <-].
  - split_and!; [done..|]. destruct Hr as (? & ? & -> & _). by eexists _, _.
  - split_and!; [done..|]. destruct Hr as (_ & _ & _ & _ & Hb).
    unfold slot_byte. simpl. by rewrite Hb.
Qed.

(** ** New pages *)

Lemma page_get_zero x : page_get zero_page x = 0.
Proof.
  unfold page_get, zero_page, znth. pose proof (byte_in_page x).
  rewrite lookup_total_replicate_2 by lia. unfold byte_status. by rewrite Z.shiftr_0_l.
Qed.

Lemma zero_post_status ctl p st st' n :
  slru_wf ctl st -> zero_post ctl p st st' (inr n) ->
  slru_wf ctl st' /\
  forall y, xid_status st' y = if TransactionIdToPage y =? p then 0 else xid_status st y.
Proof.
  intros [Hok Hpg] (Hok' & _ & Hn & Hv & Hpn & Hb & Hd & _ & Hothers).
  assert (slru_page st' p = Some zero_page) as Hp.
  { rewrite <- Hb, <- Hpn at 1. by rewrite (slru_page_slot ctl), slot_page_dirty. }
  split; [split; [done|]|].
  - intros q pg Hq0. destruct (decide (q = p)) as [->|Hq].
    + rewrite Hp. intros [= <-]. apply zero_page_wf.
    + apply (page_le_wf _ _ (Hothers q Hq)). intros pg'. by apply Hpg.
  - intros y. unfold xid_status. destruct (Z.eqb_spec (TransactionIdToPage y) p) as [->|Hy].
    + rewrite Hp. apply page_get_zero.
    + by rewrite (page_le_default _ _ (Hothers _ Hy)).
Qed.

(** The first transaction of a page, counting the first one after wraparound. *)
Definition opens_page (xid : Z) : bool :=
  (TransactionIdToPgIndex xid =? 0) || (xid =? FirstNormalTransactionId).

Lemma ExtendCLOG_spec ctl xid c c' r :
  slru_wf ctl (xact c) -> 0 <= xid -> ExtendCLOG ctl xid c = (c', r) ->
  slru_wf ctl (xact c') /\
  if opens_page xid then
    match r with
    | inr _ =>
        clog_xlog c' = clog_xlog c ++ [CLOG_ZEROPAGE (TransactionIdToPage xid)] /\
        forall y, xid_status (xact c') y =
          if TransactionIdToPage y =? TransactionIdToPage xid then TRANSACTION_STATUS_IN_PROGRESS
          else xid_status (xact c) y
    | inl e => io_error e /\ clog_xlog c' = clog_xlog c /\ keeps ctl (xact c) (xact c')
    end
  else c' = c /\ r = inr tt.
Proof.
  intros Hok Hx. unfold ExtendCLOG, opens_page, TransactionIdEquals. rewrite <- negb_orb.
  destruct (_ || _); simpl; [|by intros [= <- <-]].
  unfold ZeroCLOGPage, pbind, on_xact, pwhen, pmod, pret.
  destruct (SimpleLruZeroPage _ _ _) as [st1 r1] eqn:E.
  apply SimpleLruZeroPage_spec in E; [|by apply TransactionIdToPage_nonneg|apply Hok].
  destruct r1 as [e|n]; intros [= <- <-].
  - destruct E as [Hk (c1 & q & -> & _)]. split; [by eapply keeps_wf|]. split; [by eexists _, _|done].
  - destruct (zero_post_status _ _ _ _ _ Hok E) as [Hok1 Hs]. split; [done|]. split; [done|]. apply Hs.
Qed.

(** ** The end of the log after recovery *)

Lemma trim_page_lookup xid pg i :
  page_wf pg -> 0 <= i < BLCKSZ ->
  let k := TransactionIdToByte xid in
  znth (trim_page xid pg) i =
    if i <? k then znth pg i
    else if i =? k then Z.land (znth pg k) (Z.shiftl 1 (TransactionIdToBIndex xid * CLOG_BITS_PER_XACT) - 1)
    else 0.
Proof.
  intros [Hl _] Hi k. pose proof (byte_in_page xid) as Hk. fold k in Hk.
  unfold trim_page. fold k. set (x := Z.land _ _).
  assert (length (take (Z.to_nat (k + 1)) (zupd pg k x)) = Z.to_nat (k + 1)) as Hlen.
  { rewrite length_take, length_zupd, Hl. lia. }
  unfold znth at 1. destruct (decide (i <= k)) as [Hle|Hle].
  - rewrite lookup_total_app_l by lia. rewrite lookup_total_take, decide_True by lia. fold (znth (zupd pg k x) i).
    destruct (Z.ltb_spec i k) as [Hlt|Hge].
    + apply znth_zupd_ne; lia.
    + rewrite (proj2 (Z.eqb_eq i k)) by lia. replace i with k by lia. apply znth_zupd_eq.
      unfold zlength. rewrite Hl. unfold BLCKSZ in *. lia.
  - rewrite lookup_total_app_r, Hlen, lookup_total_replicate_2 by (unfold BLCKSZ in *; lia).
    rewrite (proj2 (Z.ltb_ge i k)), (proj2 (Z.eqb_neq i k)) by lia. done.
Qed.

Lemma trim_page_wf xid pg : page_wf pg -> page_wf (trim_page xid pg).
Proof.
  intros Hwf. pose proof (byte_in_page xid). pose proof (page_byte pg xid Hwf) as Hb.
  destruct (byte_status_trim _ _ 0 Hb (bindex_range xid)) as [_ Hu]; [lia|].
  destruct (page_upd_wf _ (TransactionIdToByte xid) _ Hwf Hu) as [Hl Hf].
  unfold trim_page. split.
  - rewrite length_app, length_take, length_replicate, Hl. unfold BLCKSZ in *. lia.
  - apply Forall_app. split; [by apply Forall_take|]. apply Forall_replicate. unfold is_u8. lia.
Qed.

(** On its page, transactions from [xid] on become in-progress. *)
Lemma trim_page_get xid pg y :
  page_wf pg -> TransactionIdToPage y = TransactionIdToPage xid ->
  page_get (trim_page xid pg) y = if y <? xid then page_get pg y else 0.
Proof.
  intros Hwf Hp. pose proof (byte_in_page y) as Hy. unfold page_get.
  rewrite (trim_page_lookup xid pg) by done. pose proof (page_byte pg xid Hwf) as Hb.
  destruct (byte_status_trim _ _ _ Hb (bindex_range xid) (bindex_range y)) as [Ht _]. cbv zeta in Ht.
  assert (TransactionIdToByte y < TransactionIdToByte xid \/
    (TransactionIdToByte y = TransactionIdToByte xid /\
     (TransactionIdToBIndex y < TransactionIdToBIndex xid <-> y < xid)) \/
    TransactionIdToByte xid < TransactionIdToByte y) as Hpos by clog_lia.
  assert (TransactionIdToByte y < TransactionIdToByte xid -> y < xid) as H1 by clog_lia.
  assert (TransactionIdToByte xid < TransactionIdToByte y -> xid <= y) as H2 by clog_lia.
  destruct Hpos as [Hlt|[[Heq Hi]|Hgt]].
  - rewrite (proj2 (Z.ltb_lt _ _) Hlt), (proj2 (Z.ltb_lt y xid)) by auto. done.
  - rewrite Heq, Z.ltb_irrefl, Z.eqb_refl, Ht. destruct (Z.ltb_spec (TransactionIdToBIndex y) (TransactionIdToBIndex xid)).
    + by rewrite (proj2 (Z.ltb_lt y xid)) by tauto.
    + by rewrite (proj2 (Z.ltb_ge y xid)) by lia.
  - rewrite (proj2 (Z.ltb_ge _ _)), (proj2 (Z.eqb_neq _ _)), (proj2 (Z.ltb_ge y xid)) by (auto || lia).
    unfold byte_status. by rewrite Z.shiftr_0_l.
Qed.

Lemma TrimCLOG_spec ctl nextXid c c' r :
  let xid := XidFromFullTransactionId nextXid in
  slru_wf ctl (xact c) ->
  TrimCLOG ctl nextXid c = (c', r) ->
  slru_wf ctl (xact c') /\
  match r with
  | inr _ => forall y, xid_status (xact c') y =
      if (TransactionIdToPage y =? TransactionIdToPage xid) && negb (TransactionIdToPgIndex xid =? 0)
         && negb (y <? xid)
      then TRANSACTION_STATUS_IN_PROGRESS else xid_status (xact c) y
  | inl e => io_error e /\ keeps ctl (xact c) (xact c')
  end.
Proof.
  intros xid Hok. unfold TrimCLOG. fold xid.
  destruct (negb (TransactionIdToPgIndex xid =? 0)) eqn:Hidx; simpl.
  2:{ intros [= <- <-]. split; [done|]. intros y. by rewrite andb_false_r. }
  assert (0 <= xid) as Hx by (unfold xid, XidFromFullTransactionId; cint).
  pose proof (TransactionIdToPage_nonneg _ Hx) as Hp. set (p := TransactionIdToPage xid) in *.
  unfold pbind, on_xact, pmod. destruct (SimpleLruReadPage _ _ _ _) as [st1 [e|n]] eqn:E;
    apply SimpleLruReadPage_spec in E as [Hk Hr]; try (done || apply Hok); intros [= <- <-].
  { split; [by eapply keeps_wf|]. split; [|done]. destruct Hr as (? & ? & -> & _). by eexists _, _. }
  pose proof (keeps_wf _ _ _ Hk Hok) as Hwf1. pose proof Hwf1 as [Hok1 Hpg1]. destruct Hr as (Hin & Hn & Hv & Hpn & Hbuf).
  pose proof (slot_wf ctl st1 n Hwf1 Hn Hv) as Hwf. set (f := fun s : Slot => slot_set_dirty true _).
  destruct (update_page_spec ctl st1 n p f) as (Hok2 & Hp2 & Hothers); try done; [by left|].
  rewrite slot_page_dirty in Hp2 by done. simpl. split; [split; [done|]|].
  - intros q pg Hq0. destruct (decide (q = p)) as [->|Hq].
    + rewrite Hp2. intros [= <-]. by apply trim_page_wf.
    + rewrite Hothers by done. by apply Hpg1.
  - intros y. rewrite andb_true_r. unfold xid_status.
    destruct (Z.eqb_spec (TransactionIdToPage y) p) as [Ey|Ey]; simpl.
    + rewrite Ey, Hp2. simpl. rewrite trim_page_get by done. rewrite Hbuf. by destruct (y <? xid).
    + rewrite Hothers by done. by rewrite (page_le_default _ _ (keeps_view _ _ _ Hk _)).
Qed.

(** ** Truncation *)

Lemma CLOGPagePrecedes_eq p q : CLOGPagePrecedes p q = xid_page_precedes CLOG_XACTS_PER_PAGE p q.
Proof. done. Qed.

Lemma clog_xacts_per_page : CLOG_XACTS_PER_PAGE = 32768 \/ CLOG_XACTS_PER_PAGE = 2048.
Proof. by left. Qed.

(** Creating a page and writing it out at once, as initdb and replay do. *)
Lemma zero_and_write_spec ctl p c c' r :
  slru_wf ctl (xact c) -> 0 <= p ->
  (slotno <- ZeroCLOGPage ctl p false ;; on_xact (SimpleLruWritePage ctl slotno))%prog c = (c', r) ->
  slru_wf ctl (xact c') /\ clog_xlog c' = clog_xlog c /\
  match r with
  | inr _ => file_page (xact c') p = Some zero_page /\
      forall y, xid_status (xact c') y =
        if TransactionIdToPage y =? p then TRANSACTION_STATUS_IN_PROGRESS else xid_status (xact c) y
  | inl e => io_error e
  end.
Proof.
  intros Hok Hp. unfold ZeroCLOGPage, pbind, on_xact, pwhen, pmod, pret, SimpleLruWritePage.
  destruct (SimpleLruZeroPage _ _ _) as [st1 [e|n]] eqn:E;
    apply SimpleLruZeroPage_spec in E; try (done || apply Hok).
  { intros [= <- <-]. destruct E as [Hk (? & ? & -> & _)].
    split_and!; [by eapply keeps_wf|done|by eexists _, _]. }
  destruct (zero_post_status _ _ _ _ _ Hok E) as [Hok1 Hs].
  destruct E as (Hslru & _ & Hn & Hv & Hpn & Hb & Hd & _ & _).
  cbn [xact set_xact]. destruct (SlruInternalWritePage ctl n st1) as [st2 r2] eqn:Ew.
  pose proof (SlruInternalWritePage_keeps _ _ _ _ _ Hslru Hn Hv Ew) as Hk.
  pose proof (keeps_wf _ _ _ Hk Hok1) as Hok2.
  rewrite SlruInternalWritePage_valid, Hd, Hpn in Ew by done.
  destruct (write_fault ctl p) as [cause|]; injection Ew as <- <-; intros [= <- <-];
    (split; [done|]; split; [done|]).
  - by eexists _, _.
  - split; [|intros y; rewrite <- Hs; by apply view_status, Hk].
    rewrite <- Hpn, <- Hb. by apply (write_back_file_self ctl).
Qed.

(** Every state seen during an operation, and the last one, results from a
    prefix of its changes. *)
Lemma writes_post_observed ctl ws c c' r :
  writes_post ctl ws c c' r ->
  exists T, observed c' = observed c ++ T /\
    Forall (fun st => exists k, forall y,
      xid_status st y = write_statuses (InRecovery ctl) (take k ws) (xid_status (xact c)) y) (T ++ [xact c']).
Proof.
  intros [_ Hr]. assert (exists k, wrote (InRecovery ctl) (take k ws) c c') as [k Hw].
  { destruct r; [tauto|]. exists (length ws). by rewrite take_ge. }
  destruct (wrote_observed _ _ _ _ Hw) as (T & HT & HF). exists T. split; [done|].
  apply Forall_app. split; [|apply Forall_singleton; exists k; apply Hw].
  eapply Forall_impl; [exact HF|]. intros st [j Hj]. rewrite take_take in Hj. by exists (j `min` k)%nat.
Qed.

(** The top transaction itself is only ever given the final status. *)
Lemma tree_writes_top my cont xid subxids status w :
  TransactionIdIsValid xid = true -> xid ∉ subxids -> foreign xid subxids (contention_writes cont) ->
  w ∈ tree_writes my cont xid subxids status -> w.1 = xid -> w.2 = status.
Proof.
  intros Hx Hn Hf. destruct (tree_writes_shape my cont xid subxids status Hx Hf)
    as (F1 & S & C & F2 & H1 & H2 & HS & HC & _ & ->).
  unfold foreign in H1, H2. rewrite Forall_forall in H1, H2.
  rewrite !elem_of_app, elem_of_cons, elem_of_app. intros [Hw|[Hw|[->|[Hw|Hw]]]] E; [| |done| |].
  - by destruct (H1 w Hw).
  - unfold sub_writes in Hw. destruct (_ =? _); [|by apply elem_of_nil in Hw].
    apply elem_of_pairs in Hw as [_ Hw%HS]. congruence.
  - by apply elem_of_pairs in Hw as [? _].
  - by destruct (H2 w Hw).
Qed.

(** ** LSNs of asynchronous commits *)

Lemma set_status_bit_lsn xid status lsn s :
  zlength (group_lsn s) = CLOG_LSNS_PER_PAGE -> 0 < lsn ->
  let s' := set_status_bit false xid status lsn s in
  lsn <= znth (group_lsn s') (GetLSNIndex xid) /\
  zlength (group_lsn s') = CLOG_LSNS_PER_PAGE /\
  forall i, 0 <= i < CLOG_LSNS_PER_PAGE -> znth (group_lsn s) i <= znth (group_lsn s') i.
Proof.
  intros Hl Hlsn s'. unfold s', set_status_bit, XLogRecPtrIsInvalid. simpl.
  rewrite (proj2 (Z.eqb_neq lsn 0)) by lia. simpl.
  assert (0 <= GetLSNIndex xid < CLOG_LSNS_PER_PAGE) as Hi.
  { unfold GetLSNIndex. change CLOG_LSNS_PER_PAGE with 1024. change CLOG_XACTS_PER_PAGE with 32768.
    change CLOG_XACTS_PER_LSN_GROUP with 32. lia. }
  destruct (Z.ltb_spec (znth (group_lsn s) (GetLSNIndex xid)) lsn); simpl.
  - rewrite znth_zupd_eq by (by rewrite Hl). split_and!; [lia|by rewrite zlength_zupd|].
    intros i Hi'. destruct (decide (GetLSNIndex xid = i)) as [<-|Hne].
    + rewrite znth_zupd_eq by (by rewrite Hl). lia.
    + rewrite znth_zupd_ne by lia. done.
  - split_and!; [lia|done|lia].
Qed.

(** ** Properties *)

(** C7. Commit of a transaction tree is atomic: if before the call the
    subtransactions count as committed exactly when the top transaction does,
    then so they do after every single change of a status bit that the call
    makes, over however many pages the tree is spread, alone or in a group
    update, replaying or not, and also where the call stops with an I/O error.
    On success the whole tree is committed; transactions outside the tree (and
    the group) keep their status throughout. *)
Theorem commit_tree_atomic ctl my cont xid subxids lsn c :
  slru_wf ctl (xact c) -> xids_req (xid :: subxids) -> contention_req cont ->
  TransactionIdIsValid xid = true -> xid ∉ subxids -> foreign xid subxids (contention_writes cont) ->
  tree_atomic xid subxids (xid_status (xact c)) ->
  let '(c', r) := TransactionIdSetTreeStatus ctl my cont xid subxids TRANSACTION_STATUS_COMMITTED lsn c in
  slru_wf ctl (xact c') /\
  (exists T, observed c' = observed c ++ T /\
     Forall (fun st => (forall s, s ∈ subxids ->
                          effectively_committed xid (xid_status st) s <->
                          xid_status st xid = TRANSACTION_STATUS_COMMITTED) /\
                       (forall y, y ∉ xid :: subxids -> y ∉ (contention_writes cont).*1 ->
                          xid_status st y = xid_status (xact c) y)) (T ++ [xact c'])) /\
  match r with
  | inr _ => forall y, y ∈ xid :: subxids -> xid_status (xact c') y = TRANSACTION_STATUS_COMMITTED
  | inl e => io_error e
  end.
Proof.
  intros Hok Hreq Hcont Hx Hn Hf HA.
  destruct (TransactionIdSetTreeStatus _ _ _ _ _ _ _ _) as [c' r] eqn:E.
  apply SetTreeStatus_spec in E as Hpost; [|done..].
  pose proof (commit_throughout (InRecovery ctl) my cont xid subxids _ Hx Hn Hf HA) as Ht.
  pose proof (fun y => tree_writes_final (InRecovery ctl) my cont xid subxids TRANSACTION_STATUS_COMMITTED
    (xid_status (xact c)) y Hx Hf ltac:(done)) as Hfin.
  split; [apply Hpost|]. split.
  - destruct (writes_post_observed _ _ _ _ _ Hpost) as (T & HT & HF). exists T. split; [done|].
    eapply Forall_impl; [exact HF|]. intros st [k Hst]. split.
    + intros s Hs. unfold effectively_committed. rewrite !Hst. by apply (tree_atomic_spec xid subxids).
    + intros y Hy1 Hy2. rewrite Hst. by apply Hfin.
  - destruct Hpost as [_ Hr]. destruct r as [e|[]]; [tauto|].
    intros y Hy. rewrite (wrote_status _ _ _ _ Hr). by apply Hfin.
Qed.

(** A log of two pages on disk, and nothing in the cache yet. *)
Definition demo_xact_ctl : SlruCtl := XactCtl 16 false (fun _ => None) (fun _ => None).
Definition demo_clog : Clog :=
  MkClog (CLOGShmemInit 1024 16 {[ 0 := [zero_page; zero_page] ]} 0) [] 0 3 [].

Lemma demo_clog_ok : slru_wf demo_xact_ctl (xact demo_clog).
Proof.
  destruct (SimpleLruInit_ok demo_xact_ctl 16 CLOG_LSNS_PER_PAGE {[ 0 := [zero_page; zero_page] ]} 0) as [Hok Hp]; [done..|].
  split; [exact Hok|]. intros q pg _ Hq. unfold demo_clog, xact, CLOGShmemInit in Hq.
  change (CLOGShmemBuffers 1024 16) with 16 in Hq. rewrite Hp in Hq. unfold file_page in Hq.
  cbn [files SimpleLruInit] in Hq. destruct (decide (seg_of q = 0)) as [E|Hne].
  - rewrite E, lookup_singleton_eq in Hq. simpl in Hq.
    destruct (seg_index q) as [|[|i]]; simpl in Hq; [injection Hq as <-..|done]; apply zero_page_wf.
  - rewrite lookup_singleton_ne in Hq; done.
Qed.

Lemma commit_tree_atomic_witness :
  let '(c', r) := TransactionIdSetTreeStatus demo_xact_ctl (MkMyProcXids 7 [8; 40000]) LockFree 7 [8; 40000]
                    TRANSACTION_STATUS_COMMITTED 0 demo_clog in
  slru_wf demo_xact_ctl (xact c') /\
  (exists T, observed c' = observed demo_clog ++ T /\
     Forall (fun st => (forall s, s ∈ [8; 40000] ->
                          effectively_committed 7 (xid_status st) s <->
                          xid_status st 7 = TRANSACTION_STATUS_COMMITTED) /\
                       (forall y, y ∉ [7; 8; 40000] -> y ∉ (contention_writes LockFree).*1 ->
                          xid_status st y = xid_status (xact demo_clog) y)) (T ++ [xact c'])) /\
  match r with
  | inr _ => forall y, y ∈ [7; 8; 40000] -> xid_status (xact c') y = TRANSACTION_STATUS_COMMITTED
  | inl e => io_error e
  end.
Proof.
  apply (commit_tree_atomic demo_xact_ctl (MkMyProcXids 7 [8; 40000]) LockFree 7 [8; 40000] 0 demo_clog).
  - apply demo_clog_ok.
  - repeat constructor; lia.
  - done.
  - done.
  - rewrite !elem_of_cons, elem_of_nil. lia.
  - by constructor.
  - right. split; [by vm_compute|]. intros s. rewrite !elem_of_cons, elem_of_nil.
    intros [->|[->|[]]]; by vm_compute.
Defined.

(** Recording the fate of a tree gives every transaction of the tree that
    status and leaves all others (outside the group) alone, whichever pages
    they are on and in whatever order the pages are written; a failure is an
    I/O error, and the log stays well formed. *)
Theorem set_tree_status ctl my cont xid subxids status lsn c :
  slru_wf ctl (xact c) -> xids_req (xid :: subxids) -> contention_req cont ->
  TransactionIdIsValid xid = true -> xid ∉ subxids -> foreign xid subxids (contention_writes cont) ->
  status = TRANSACTION_STATUS_COMMITTED \/ status = TRANSACTION_STATUS_ABORTED ->
  let '(c', r) := TransactionIdSetTreeStatus ctl my cont xid subxids status lsn c in
  slru_wf ctl (xact c') /\ clog_xlog c' = clog_xlog c /\
  match r with
  | inr _ =>
      (forall y, y ∈ xid :: subxids -> xid_status (xact c') y = status) /\
      (forall y, y ∉ xid :: subxids -> y ∉ (contention_writes cont).*1 ->
         xid_status (xact c') y = xid_status (xact c) y)
  | inl e => io_error e
  end.
Proof.
  intros Hok Hreq Hcont Hx Hn Hf Hs.
  destruct (TransactionIdSetTreeStatus _ _ _ _ _ _ _ _) as [c' r] eqn:E.
  apply SetTreeStatus_spec in E as [Hok' Hr]; [|done|done|destruct Hs as [->| ->]; split; done|done].
  split; [done|]. destruct r as [e|[]].
  { destruct Hr as [He [k Hk]]. split; [apply Hk|done]. }
  split; [apply Hr|].
  assert (status <> TRANSACTION_STATUS_SUB_COMMITTED) as Hns by (destruct Hs as [->| ->]; done).
  pose proof (fun y => tree_writes_final (InRecovery ctl) my cont xid subxids status
    (xid_status (xact c)) y Hx Hf Hns) as Hfin.
  split; intros y Hy; [|intros Hy']; rewrite (wrote_status _ _ _ _ Hr); [by apply Hfin|].
  rewrite <- (take_ge (tree_writes my cont xid subxids status) (length (tree_writes my cont xid subxids status))) by done.
  by apply Hfin.
Qed.

Lemma set_tree_status_witness :
  let '(c', r) := TransactionIdSetTreeStatus demo_xact_ctl (MkMyProcXids 0 []) GroupRefused 7 [8; 40000]
                    TRANSACTION_STATUS_ABORTED 0 demo_clog in
  slru_wf demo_xact_ctl (xact c') /\ clog_xlog c' = clog_xlog demo_clog /\
  match r with
  | inr _ =>
      (forall y, y ∈ [7; 8; 40000] -> xid_status (xact c') y = TRANSACTION_STATUS_ABORTED) /\
      (forall y, y ∉ [7; 8; 40000] -> y ∉ (contention_writes GroupRefused).*1 ->
         xid_status (xact c') y = xid_status (xact demo_clog) y)
  | inl e => io_error e
  end.
Proof.
  apply (set_tree_status demo_xact_ctl (MkMyProcXids 0 []) GroupRefused 7 [8; 40000]
           TRANSACTION_STATUS_ABORTED 0 demo_clog).
  - apply demo_clog_ok.
  - repeat constructor; lia.
  - done.
  - done.
  - rewrite !elem_of_cons, elem_of_nil. lia.
  - by constructor.
  - by right.
Defined.

(** Asking for the status of a transaction returns what the log says of it,
    wherever its page is, and changes nothing but the contents of the cache. *)
Theorem get_status_reads_log ctl xid c :
  slru_wf ctl (xact c) -> 0 <= xid ->
  let '(c', r) := TransactionIdGetStatus ctl xid c in
  slru_wf ctl (xact c') /\ (forall y, xid_status (xact c') y = xid_status (xact c) y) /\
  match r with
  | inr (status, lsn) => status = xid_status (xact c) xid /\ is_status status
  | inl e => io_error e
  end.
Proof.
  intros Hok Hx. destruct (TransactionIdGetStatus ctl xid c) as [c' r] eqn:E.
  apply GetStatus_spec in E as (Hk & _ & _ & Hr); [|done..].
  split; [by eapply keeps_wf|]. split; [intros y; by apply view_status, Hk|].
  destruct r as [|[status lsn]]; [done|]. subst. split; [done|]. apply byte_status_range.
Qed.

Lemma get_status_reads_log_witness :
  let '(c', r) := TransactionIdGetStatus demo_xact_ctl 40000 demo_clog in
  slru_wf demo_xact_ctl (xact c') /\ (forall y, xid_status (xact c') y = xid_status (xact demo_clog) y) /\
  match r with
  | inr (status, lsn) => status = xid_status (xact demo_clog) 40000 /\ is_status status
  | inl e => io_error e
  end.
Proof.
  apply (get_status_reads_log demo_xact_ctl 40000 demo_clog); [apply demo_clog_ok|lia].
Defined.

(** A page of the log starts with every transaction in progress: assigning
    the first transaction of a page (or the first one after wraparound) zeroes
    exactly that page and logs it; replaying the logged record has the same
    effect on the log, and puts the page on disk. *)
Theorem extend_and_replay ctl xid c :
  slru_wf ctl (xact c) -> 0 <= xid ->
  let p := TransactionIdToPage xid in
  let fresh c' := forall y, xid_status (xact c') y =
    if TransactionIdToPage y =? p then TRANSACTION_STATUS_IN_PROGRESS else xid_status (xact c) y in
  (let '(c', r) := ExtendCLOG ctl xid c in
   slru_wf ctl (xact c') /\
   if opens_page xid then
     match r with
     | inr _ => fresh c' /\ clog_xlog c' = clog_xlog c ++ [CLOG_ZEROPAGE p]
     | inl e => io_error e /\ clog_xlog c' = clog_xlog c
     end
   else c' = c /\ r = inr tt) /\
  (let '(c', r) := clog_redo ctl (CLOG_ZEROPAGE p) c in
   slru_wf ctl (xact c') /\
   match r with
   | inr _ => fresh c' /\ file_page (xact c') p = Some zero_page
   | inl e => io_error e
   end).
Proof.
  intros Hok Hx p fresh. split.
  - destruct (ExtendCLOG ctl xid c) as [c' r] eqn:E.
    apply ExtendCLOG_spec in E as [Hok' Hr]; [|done..]. split; [done|].
    destruct (opens_page xid); [|done]. destruct r; tauto.
  - destruct (clog_redo ctl (CLOG_ZEROPAGE p) c) as [c' r] eqn:E.
    apply zero_and_write_spec in E as (Hok' & _ & Hr); [|done|by apply TransactionIdToPage_nonneg].
    split; [done|]. destruct r; tauto.
Qed.

Lemma extend_and_replay_witness :
  let p := TransactionIdToPage 65536 in
  let fresh c' := forall y, xid_status (xact c') y =
    if TransactionIdToPage y =? p then TRANSACTION_STATUS_IN_PROGRESS else xid_status (xact demo_clog) y in
  (let '(c', r) := ExtendCLOG demo_xact_ctl 65536 demo_clog in
   slru_wf demo_xact_ctl (xact c') /\
   if opens_page 65536 then
     match r with
     | inr _ => fresh c' /\ clog_xlog c' = clog_xlog demo_clog ++ [CLOG_ZEROPAGE p]
     | inl e => io_error e /\ clog_xlog c' = clog_xlog demo_clog
     end
   else c' = demo_clog /\ r = inr tt) /\
  (let '(c', r) := clog_redo demo_xact_ctl (CLOG_ZEROPAGE p) demo_clog in
   slru_wf demo_xact_ctl (xact c') /\
   match r with
   | inr _ => fresh c' /\ file_page (xact c') p = Some zero_page
   | inl e => io_error e
   end).
Proof. apply (extend_and_replay demo_xact_ctl 65536 demo_clog); [apply demo_clog_ok|lia]. Defined.

(** At the end of recovery the part of the current page from the next
    transaction id on is reset to in-progress, and nothing else changes. *)
Theorem trim_clears_future ctl nextXid c :
  let xid := XidFromFullTransactionId nextXid in
  slru_wf ctl (xact c) ->
  let '(c', r) := TrimCLOG ctl nextXid c in
  slru_wf ctl (xact c') /\
  match r with
  | inr _ =>
      (forall y, y < xid \/ TransactionIdToPage y <> TransactionIdToPage xid ->
         xid_status (xact c') y = xid_status (xact c) y) /\
      (TransactionIdToPgIndex xid <> 0 ->
       forall y, xid <= y -> TransactionIdToPage y = TransactionIdToPage xid ->
         xid_status (xact c') y = TRANSACTION_STATUS_IN_PROGRESS)
  | inl e => io_error e
  end.
Proof.
  intros xid Hok. destruct (TrimCLOG ctl nextXid c) as [c' r] eqn:E.
  apply TrimCLOG_spec in E as [Hok' Hr]; [|done..]. split; [done|]. destruct r as [e|[]]; [tauto|].
  fold xid in Hr. split.
  - intros y Hy. rewrite Hr.
    destruct (Z.eqb_spec (TransactionIdToPage y) (TransactionIdToPage xid)); [|done].
    destruct Hy as [Hy|]; [|done]. rewrite (proj2 (Z.ltb_lt _ _) Hy). simpl. by rewrite andb_false_r.
  - intros Hi y Hy Hp. rewrite Hr, Hp, Z.eqb_refl.
    by rewrite (proj2 (Z.eqb_neq _ _) Hi), (proj2 (Z.ltb_ge y xid)).
Qed.

Lemma trim_clears_future_witness :
  let xid := XidFromFullTransactionId (FullTransactionIdFromU64 40000) in
  let '(c', r) := TrimCLOG demo_xact_ctl (FullTransactionIdFromU64 40000) demo_clog in
  slru_wf demo_xact_ctl (xact c') /\
  match r with
  | inr _ =>
      (forall y, y < xid \/ TransactionIdToPage y <> TransactionIdToPage xid ->
         xid_status (xact c') y = xid_status (xact demo_clog) y) /\
      (TransactionIdToPgIndex xid <> 0 ->
       forall y, xid <= y -> TransactionIdToPage y = TransactionIdToPage xid ->
         xid_status (xact c') y = TRANSACTION_STATUS_IN_PROGRESS)
  | inl e => io_error e
  end.
Proof.
  apply (trim_clears_future demo_xact_ctl (FullTransactionIdFromU64 40000) demo_clog);
    apply demo_clog_ok.
Defined.

(** Replaying the record, seen from the statuses: each stays as it is, except
    that those of segments wholly before the cutoff read as in progress. *)
Lemma truncate_replayed ctl oldestXact datoid c c' r :
  PagePrecedes ctl = CLOGPagePrecedes -> slru_wf ctl (xact c) -> is_u32 oldestXact -> TransactionIdIsNormal oldestXact = true ->
  clog_redo ctl (CLOG_TRUNCATE (TransactionIdToPage oldestXact) oldestXact datoid) c = (c', r) ->
  slru_wf ctl (xact c') /\
  match r with
  | inl e => io_error e
  | inr _ => forall x, is_u32 x -> TransactionIdIsNormal x = true ->
      xid_status (xact c') x = xid_status (xact c) x \/
      xid_status (xact c') x = TRANSACTION_STATUS_IN_PROGRESS /\ TransactionIdPrecedes x oldestXact = true
  end.
Proof.
  intros Hctl' Hok Hu Hn. assert (forall p q, PagePrecedes ctl p q = xid_page_precedes CLOG_XACTS_PER_PAGE p q) as Hctl
    by (intros; by rewrite Hctl').
  assert (0 <= TransactionIdToPage oldestXact) as Hp by (apply TransactionIdToPage_nonneg; unfold is_u32 in Hu; lia).
  assert (xact (AdvanceOldestClogXid oldestXact c) = xact c) as Hsame by (unfold AdvanceOldestClogXid; by destruct (TransactionIdPrecedes _ _)).
  unfold clog_redo, pbind, pmod, on_xact. rewrite Hsame. destruct (SimpleLruTruncate _ _ _) as [st' r'] eqn:Et. intros [= <- <-].
  pose proof Et as Et2. apply (truncate_wf _ clog_xacts_per_page) in Et as (Hok' & Hkeep & Hr); [|done..]. split; [done|].
  apply SimpleLruTruncate_spec in Et2 as (_ & _ & Hr2); [|intros q Hq; by apply (xid_pages_convex _ clog_xacts_per_page)|apply Hok].
  destruct r' as [e|[]]; [done|]. intros x Hx Hnx. assert (0 <= TransactionIdToPage x) as Hpx by (apply TransactionIdToPage_nonneg; unfold is_u32 in Hx; lia).
  destruct (deletable ctl (TransactionIdToPage oldestXact) (seg_of (TransactionIdToPage x))) eqn:Hd.
  2: { left. unfold xid_status. simpl. f_equal. by apply page_le_default, Hkeep. }
  destruct (PagePrecedes ctl _ _); [left; by subst|right]. split.
  - unfold xid_status. simpl. rewrite Hr2 by done. apply page_get_zero.
  - destruct (TransactionIdPrecedes x oldestXact) eqn:Epx; [done|].
    pose proof (needed_not_deletable _ clog_xacts_per_page ctl Hctl x oldestXact Hx Hu Hnx Hn Epx) as Hnd.
    unfold TransactionIdToPage in Hd. congruence.
Qed.

(** C36. Truncating the log loses nothing that can still be asked for: every
    normal transaction that does not precede [oldestXact] keeps its status,
    across wraparound and although whole segments are removed.  Unless there
    was nothing to remove, the truncation record is in the WAL and flushed, and
    [oldestClogXid] no longer precedes [oldestXact], before any segment goes;
    replaying the record is as safe. *)
Theorem truncate_clog_safe ctl oldestXact datoid c :
  PagePrecedes ctl = CLOGPagePrecedes -> slru_wf ctl (xact c) ->
  is_u32 oldestXact -> TransactionIdIsNormal oldestXact = true ->
  let safe c' := slru_wf ctl (xact c') /\ TransactionIdPrecedes (oldestClogXid c') oldestXact = false /\
    forall x, is_u32 x -> TransactionIdIsNormal x = true -> TransactionIdPrecedes x oldestXact = false ->
      xid_status (xact c') x = xid_status (xact c) x in
  let record := CLOG_TRUNCATE (TransactionIdToPage oldestXact) oldestXact datoid in
  (let '(c', r) := TruncateCLOG ctl oldestXact datoid c in
   c' = c /\ r = inr tt \/
   safe c' /\ clog_xlog c' = clog_xlog c ++ [record] /\ clog_xlog_flushed c' = length (clog_xlog c') /\
   match r with inl e => io_error e | inr _ => True end) /\
  (let '(c', r) := clog_redo ctl record c in
   safe c' /\ match r with inl e => io_error e | inr _ => True end).
Proof.
  intros Hctl' Hok Hu Hn safe record.
  assert (forall p q, PagePrecedes ctl p q = xid_page_precedes CLOG_XACTS_PER_PAGE p q) as Hctl
    by (intros; by rewrite Hctl').
  assert (0 <= TransactionIdToPage oldestXact) as Hp by (apply TransactionIdToPage_nonneg; unfold is_u32 in Hu; lia).
  assert (forall c1 st' r, xact c1 = xact c ->
    SimpleLruTruncate ctl (TransactionIdToPage oldestXact) (xact c1) = (st', r) ->
    TransactionIdPrecedes (oldestClogXid c1) oldestXact = false ->
    safe (set_xact c1 st') /\ match r with inl e => io_error e | inr _ => True end) as Hmain.
  { intros c1 st' r E1 Et Hold. rewrite E1 in Et.
    apply (truncate_wf _ clog_xacts_per_page) in Et as (Hok' & Hkeep & Hr); [|done..].
    split; [|done]. split_and!; [done..|]. intros x Hx Hnx Hpx. unfold xid_status. f_equal.
    apply page_le_default, Hkeep; [apply TransactionIdToPage_nonneg; unfold is_u32 in Hx; lia|].
    by apply (needed_not_deletable _ clog_xacts_per_page ctl). }
  assert (TransactionIdPrecedes (oldestClogXid (AdvanceOldestClogXid oldestXact c)) oldestXact = false) as Hadv.
  { unfold AdvanceOldestClogXid. destruct (TransactionIdPrecedes (oldestClogXid c) oldestXact) eqn:E; [|done].
    simpl. unfold TransactionIdPrecedes. rewrite Hn. simpl. by rewrite Z.sub_diag. }
  assert (forall a, xact (AdvanceOldestClogXid a c) = xact c /\ clog_xlog (AdvanceOldestClogXid a c) = clog_xlog c) as Hsame
    by (intros a; unfold AdvanceOldestClogXid; destruct (TransactionIdPrecedes (oldestClogXid c) a); split; reflexivity).
  split.
  - unfold TruncateCLOG. destruct (negb _); [by left|]. unfold on_xact.
    destruct (SimpleLruTruncate _ _ _) as [st' r] eqn:Et. right.
    apply Hmain in Et as [Hsafe Hr]; [|apply Hsame|done]. split_and!; try done.
    simpl. by rewrite (proj2 (Hsame oldestXact)).
  - unfold clog_redo, record, pbind, pmod, on_xact.
    destruct (SimpleLruTruncate _ _ _) as [st' r] eqn:Et. apply Hmain in Et; [|apply Hsame|done].
    destruct r; done.
Qed.

Lemma truncate_clog_safe_witness :
  let safe c' := slru_wf demo_xact_ctl (xact c') /\ TransactionIdPrecedes (oldestClogXid c') 4000000 = false /\
    forall x, is_u32 x -> TransactionIdIsNormal x = true -> TransactionIdPrecedes x 4000000 = false ->
      xid_status (xact c') x = xid_status (xact demo_clog) x in
  let record := CLOG_TRUNCATE (TransactionIdToPage 4000000) 4000000 1 in
  (let '(c', r) := TruncateCLOG demo_xact_ctl 4000000 1 demo_clog in
   c' = demo_clog /\ r = inr tt \/
   safe c' /\ clog_xlog c' = clog_xlog demo_clog ++ [record] /\ clog_xlog_flushed c' = length (clog_xlog c') /\
   match r with inl e => io_error e | inr _ => True end) /\
  (let '(c', r) := clog_redo demo_xact_ctl record demo_clog in
   safe c' /\ match r with inl e => io_error e | inr _ => True end).
Proof.
  apply (truncate_clog_safe demo_xact_ctl 4000000 1 demo_clog); [done|apply demo_clog_ok|unfold is_u32; lia|done].
Defined.

(** An asynchronous commit cannot reach disk before its WAL: once the status
    of a transaction has been set with the LSN of its commit record, writing
    the page flushes WAL at least up to that LSN (and up to every LSN noted for
    the page before). *)
Theorem async_commit_wal ctl p n st xid status lsn :
  0 < lsn_groups_per_page ctl -> InRecovery ctl = false -> in_range st n -> 0 < lsn -> 0 <= wal_flushed st ->
  zlength (group_lsn (slot st n)) = CLOG_LSNS_PER_PAGE -> Forall (fun x => 0 <= x) (group_lsn (slot st n)) ->
  let st1 := upd_slot st n (set_status_bit (InRecovery ctl) xid status lsn) in
  let '(st2, r) := SlruPhysicalWritePage ctl p n st1 in
  lsn <= wal_flushed st2 /\
  forall i, 0 <= i < CLOG_LSNS_PER_PAGE -> znth (group_lsn (slot st n)) i <= wal_flushed st2.
Proof.
  intros Hg Hrec Hn Hlsn Hw Hlen Hnn st1. destruct (SlruPhysicalWritePage ctl p n st1) as [st2 r] eqn:E.
  assert (slot st1 n = set_status_bit false xid status lsn (slot st n)) as Eslot
    by (unfold st1; rewrite Hrec; by apply slot_upd_eq).
  destruct (set_status_bit_lsn xid status lsn (slot st n) Hlen Hlsn) as (Hset & Hlen' & Hmono).
  rewrite <- Eslot in Hset, Hlen', Hmono.
  assert (forall i, 0 <= i < CLOG_LSNS_PER_PAGE -> group_lsn (slot st1 n) !! Z.to_nat i = Some (znth (group_lsn (slot st1 n)) i)) as Hlook.
  { intros i Hi. unfold znth. apply list_lookup_lookup_total_lt. unfold zlength in Hlen'. lia. }
  assert (Forall (fun x => 0 <= x) (group_lsn (slot st1 n))) as Hnn1.
  { rewrite Forall_lookup in Hnn |- *. intros k x Hk.
    assert (0 <= Z.of_nat k < CLOG_LSNS_PER_PAGE) as Hk' by (apply lookup_lt_Some in Hk; unfold zlength in Hlen'; lia).
    pose proof (Hmono _ Hk'). pose proof (Hlook _ Hk') as Hl. rewrite Nat2Z.id, Hk in Hl. injection Hl as ->.
    etransitivity; [|exact H]. apply (Hnn k). unfold znth. rewrite Nat2Z.id.
    apply list_lookup_lookup_total_lt. unfold zlength in Hlen. lia. }
  apply SlruPhysicalWritePage_wal in E; [|done..]. rewrite Forall_lookup in E. split.
  - etransitivity; [exact Hset|]. eapply E, Hlook.
    unfold GetLSNIndex. change CLOG_LSNS_PER_PAGE with 1024. change CLOG_XACTS_PER_PAGE with 32768.
    change CLOG_XACTS_PER_LSN_GROUP with 32. lia.
  - intros i Hi. etransitivity; [by apply Hmono|]. by eapply E, Hlook.
Qed.

Lemma async_commit_wal_witness :
  let st := xact demo_clog in
  let st1 := upd_slot st 3 (set_status_bit (InRecovery demo_xact_ctl) 7 TRANSACTION_STATUS_COMMITTED 99) in
  let '(st2, r) := SlruPhysicalWritePage demo_xact_ctl 0 3 st1 in
  99 <= wal_flushed st2 /\
  forall i, 0 <= i < CLOG_LSNS_PER_PAGE -> znth (group_lsn (slot st 3)) i <= wal_flushed st2.
Proof.
  apply (async_commit_wal demo_xact_ctl 0 3 (xact demo_clog) 7 TRANSACTION_STATUS_COMMITTED 99);
    [done|done|split; done|done|done|done|].
  change (group_lsn (slot (xact demo_clog) 3)) with (replicate 1024 0). apply Forall_replicate. done.
Defined.
