(* ===== verification/Subtrans.v ===== *)
(** * The subtransaction log

    [src/backend/access/transam/subtrans.c]: the parent of every subtransaction,
    four bytes per transaction in the pages of an SLRU cache that is not kept
    across a crash.  The bytes of an entry are in little-endian order. *)

From S2P Require Import Prelude.
From S2P Require Import TransactionId.
From S2P Require Import Slru.
From S2P Require Import XidPages.

Definition SUBTRANS_XACTS_PER_PAGE : Z := BLCKSZ / 4.

Definition TransactionIdToPage (xid : Z) : Z := xid / SUBTRANS_XACTS_PER_PAGE.
Definition TransactionIdToEntry (xid : Z) : Z := xid mod SUBTRANS_XACTS_PER_PAGE.

(** Entry [entryno] of the page seen as an array of transaction ids. *)
Definition read_entry (pg : list Z) (entryno : Z) : Z :=
  znth pg (4 * entryno) + 0x100 * znth pg (4 * entryno + 1)
  + 0x10000 * znth pg (4 * entryno + 2) + 0x1000000 * znth pg (4 * entryno + 3).

Definition write_entry (pg : list Z) (entryno x : Z) : list Z :=
  let pg := zupd pg (4 * entryno) (u8 x) in
  let pg := zupd pg (4 * entryno + 1) (u8 (x / 0x100)) in
  let pg := zupd pg (4 * entryno + 2) (u8 (x / 0x10000)) in
  zupd pg (4 * entryno + 3) (u8 (x / 0x1000000)).

Definition SubTransSetParent (ctl : SlruCtl) (xid parent : Z) : prog Slru SlruError unit :=
  let pageno := TransactionIdToPage xid in
  let entryno := TransactionIdToEntry xid in
  (slotno <- SimpleLruReadPage ctl pageno true ;;
   pmod (fun st =>
     if negb (read_entry (page_buffer (slot st slotno)) entryno =? parent) then
       upd_slot st slotno (fun s =>
         slot_set_dirty true (slot_set_buffer (write_entry (page_buffer s) entryno parent) s))
     else st))%prog.

Definition SubTransGetParent (ctl : SlruCtl) (xid : Z) : prog Slru SlruError Z :=
  let pageno := TransactionIdToPage xid in
  let entryno := TransactionIdToEntry xid in
  if negb (TransactionIdIsNormal xid) then pret InvalidTransactionId
  else
    (slotno <- SimpleLruReadPage_ReadOnly ctl pageno ;;
     pget (fun st => read_entry (page_buffer (slot st slotno)) entryno))%prog.

Inductive SubtransError :=
| SubtransIO (e : SlruError)
| InvalidEntry (xid parent : Z)
| SubtransOutOfFuel.

Fixpoint topmost_loop (fuel : nat) (ctl : SlruCtl) (TransactionXmin parentXid previousXid : Z)
  : prog Slru SubtransError Z :=
  fun st =>
  match fuel with
  | O => (st, inl SubtransOutOfFuel)
  | S fuel =>
      if TransactionIdIsValid parentXid then
        let previousXid := parentXid in
        if TransactionIdPrecedes parentXid TransactionXmin then (st, inr previousXid)
        else
          match SubTransGetParent ctl parentXid st with
          | (st, inl e) => (st, inl (SubtransIO e))
          | (st, inr parentXid) =>
              if negb (TransactionIdPrecedes parentXid previousXid)
              then (st, inl (InvalidEntry previousXid parentXid))
              else topmost_loop fuel ctl TransactionXmin parentXid previousXid st
          end
      else (st, inr previousXid)
  end.

(** Every step down the chain comes closer to [TransactionXmin]. *)
Definition SubTransGetTopmostTransaction (ctl : SlruCtl) (TransactionXmin xid : Z)
  : prog Slru SubtransError Z :=
  topmost_loop (S (S (Z.to_nat (u32 (xid - TransactionXmin))))) ctl TransactionXmin xid xid.

(** ** Pages of the log *)

Definition SUBTRANSShmemBuffers (NBuffers subtransaction_buffers : Z) : Z :=
  if subtransaction_buffers =? 0 then SimpleLruAutotuneBuffers NBuffers 512 1024
  else Z.min (Z.max 16 subtransaction_buffers) SLRU_MAX_ALLOWED_BUFFERS.

Definition SubTransPagePrecedes (page1 page2 : Z) : bool :=
  let xid1 := u32 (u32 page1 * SUBTRANS_XACTS_PER_PAGE) in
  let xid1 := u32 (xid1 + (FirstNormalTransactionId + 1)) in
  let xid2 := u32 (u32 page2 * SUBTRANS_XACTS_PER_PAGE) in
  let xid2 := u32 (xid2 + (FirstNormalTransactionId + 1)) in
  TransactionIdPrecedes xid1 xid2
  && TransactionIdPrecedes xid1 (u32 (xid2 + SUBTRANS_XACTS_PER_PAGE - 1)).

Definition SubTransCtl (nslots : Z) (inrecovery : bool)
    (read_fault write_fault : Z -> option SlruErrorCause) : SlruCtl :=
  MkSlruCtl (nslots / SLRU_BANK_SIZE) 0 SubTransPagePrecedes inrecovery read_fault write_fault.

Definition SUBTRANSShmemInit (NBuffers subtransaction_buffers : Z) (fs : gmap Z (list (list Z))) (wal : Z) : Slru :=
  SimpleLruInit (SUBTRANSShmemBuffers NBuffers subtransaction_buffers) 0 fs wal.

Definition ZeroSUBTRANSPage (ctl : SlruCtl) (pageno : Z) : prog Slru SlruError Z :=
  SimpleLruZeroPage ctl pageno.

Definition BootStrapSUBTRANS (ctl : SlruCtl) : prog Slru SlruError unit :=
  (slotno <- ZeroSUBTRANSPage ctl 0 ;; SimpleLruWritePage ctl slotno)%prog.

Fixpoint StartupSUBTRANS_loop (fuel : nat) (ctl : SlruCtl) (startPage endPage : Z) : prog Slru SlruError unit :=
  match fuel with
  | O => preturn SlruOutOfFuel
  | S fuel =>
      (ZeroSUBTRANSPage ctl startPage ;;;
       if startPage =? endPage then pret tt
       else
         let startPage := startPage + 1 in
         let startPage := if TransactionIdToPage MaxTransactionId <? startPage then 0 else startPage in
         StartupSUBTRANS_loop fuel ctl startPage endPage)%prog
  end.

(** One round per page from the first to the last, going round the end. *)
Definition StartupSUBTRANS (ctl : SlruCtl) (nextXid : FullTransactionId) (oldestActiveXID : Z)
  : prog Slru SlruError unit :=
  let startPage := TransactionIdToPage oldestActiveXID in
  let endPage := TransactionIdToPage (XidFromFullTransactionId nextXid) in
  StartupSUBTRANS_loop
    (S (Z.to_nat ((endPage - startPage) mod (TransactionIdToPage MaxTransactionId + 1)))) ctl startPage endPage.

Definition CheckPointSUBTRANS (ctl : SlruCtl) : prog Slru SlruError unit := SimpleLruWriteAll ctl.

Definition ExtendSUBTRANS (ctl : SlruCtl) (newestXact : Z) : prog Slru SlruError unit :=
  if negb (TransactionIdToEntry newestXact =? 0)
     && negb (TransactionIdEquals newestXact FirstNormalTransactionId)
  then pret tt
  else (ZeroSUBTRANSPage ctl (TransactionIdToPage newestXact) ;;; pret tt)%prog.

Definition TruncateSUBTRANS (ctl : SlruCtl) (oldestXact : Z) : prog Slru SlruError unit :=
  let oldestXact := TransactionIdRetreat oldestXact in
  let cutoffPage := TransactionIdToPage oldestXact in
  SimpleLruTruncate ctl cutoffPage.

(** ** Entries *)

Ltac subtrans_lia :=
  unfold TransactionIdToPage, TransactionIdToEntry, SUBTRANS_XACTS_PER_PAGE, BLCKSZ in *; lia.

Lemma znth_byte pg i : page_wf pg -> 0 <= i < BLCKSZ -> is_u8 (znth pg i).
Proof.
  intros [Hl Hf] Hi. unfold znth. rewrite Forall_lookup in Hf. apply (Hf (Z.to_nat i)).
  apply list_lookup_lookup_total_lt. rewrite Hl. unfold BLCKSZ in *. lia.
Qed.

Lemma read_entry_range pg e : page_wf pg -> 0 <= e < SUBTRANS_XACTS_PER_PAGE -> is_u32 (read_entry pg e).
Proof.
  intros Hwf He. unfold SUBTRANS_XACTS_PER_PAGE, BLCKSZ in He.
  pose proof (znth_byte pg (4 * e) Hwf). pose proof (znth_byte pg (4 * e + 1) Hwf).
  pose proof (znth_byte pg (4 * e + 2) Hwf). pose proof (znth_byte pg (4 * e + 3) Hwf).
  unfold read_entry, is_u32, is_u8, BLCKSZ in *. lia.
Qed.

Lemma write_entry_wf pg e x : page_wf pg -> page_wf (write_entry pg e x).
Proof. intros Hwf. unfold write_entry. repeat apply page_upd_wf; try apply u8_range. done. Qed.

Lemma read_write_entry pg e e' x :
  page_wf pg -> 0 <= e < SUBTRANS_XACTS_PER_PAGE -> 0 <= e' < SUBTRANS_XACTS_PER_PAGE -> is_u32 x ->
  read_entry (write_entry pg e x) e' = if e =? e' then x else read_entry pg e'.
Proof.
  intros [Hl Hf] He He' Hx. unfold SUBTRANS_XACTS_PER_PAGE, BLCKSZ in *.
  unfold read_entry, write_entry. destruct (Z.eqb_spec e e') as [<-|Hne].
  - repeat first [rewrite znth_zupd_eq by (rewrite ?zlength_zupd; unfold zlength; rewrite Hl; lia)
                 |rewrite znth_zupd_ne by lia]. cint.
  - repeat rewrite znth_zupd_ne by lia. done.
Qed.

(** ** What the log says *)

(** The recorded parent; no page means no parent. *)
Definition subtrans_parent (st : Slru) (xid : Z) : Z :=
  read_entry (default zero_page (slru_page st (TransactionIdToPage xid))) (TransactionIdToEntry xid).

Lemma entry_range xid : 0 <= TransactionIdToEntry xid < SUBTRANS_XACTS_PER_PAGE.
Proof. subtrans_lia. Qed.

Lemma page_nonneg xid : 0 <= xid -> 0 <= TransactionIdToPage xid.
Proof. subtrans_lia. Qed.

Lemma same_entry x y :
  TransactionIdToPage x = TransactionIdToPage y -> TransactionIdToEntry x = TransactionIdToEntry y -> x = y.
Proof. subtrans_lia. Qed.

Lemma view_parent st st' x : view_le st st' -> subtrans_parent st' x = subtrans_parent st x.
Proof. intros H. unfold subtrans_parent. by rewrite (page_le_default _ _ (H _)). Qed.

Lemma subtrans_parent_range ctl st x : slru_wf ctl st -> 0 <= x -> is_u32 (subtrans_parent st x).
Proof.
  intros Hok Hx. unfold subtrans_parent. apply read_entry_range; [|apply entry_range].
  destruct (slru_page st _) eqn:E; [|apply zero_page_wf]. simpl.
  by apply (wf_pages _ _ Hok (TransactionIdToPage x)); [apply page_nonneg|].
Qed.

Lemma read_entry_zero x : read_entry zero_page (TransactionIdToEntry x) = InvalidTransactionId.
Proof.
  pose proof (entry_range x) as He. unfold SUBTRANS_XACTS_PER_PAGE, BLCKSZ in He.
  unfold read_entry, zero_page, znth. rewrite !lookup_total_replicate_2 by (unfold BLCKSZ; lia). done.
Qed.

Lemma SetParent_spec ctl xid parent st st' r :
  slru_wf ctl st -> 0 <= xid -> is_u32 parent ->
  SubTransSetParent ctl xid parent st = (st', r) ->
  slru_wf ctl st' /\
  match r with
  | inr _ => forall y, subtrans_parent st' y = if y =? xid then parent else subtrans_parent st y
  | inl e => io_error e /\ keeps ctl st st'
  end.
Proof.
  intros Hok Hx Hu. unfold SubTransSetParent, pbind, pmod.
  pose proof (page_nonneg _ Hx) as Hp. set (p := TransactionIdToPage xid) in *.
  destruct (SimpleLruReadPage _ _ _ _) as [st1 [e|n]] eqn:E;
    apply SimpleLruReadPage_spec in E as [Hk Hr]; try (done || apply Hok); intros [= <- <-].
  { split; [by eapply keeps_wf|]. split; [|done]. destruct Hr as (? & ? & -> & _). by eexists _, _. }
  pose proof (keeps_wf _ _ _ Hk Hok) as Hwf1. pose proof Hwf1 as [Hok1 Hpg1]. destruct Hr as (Hin & Hn & Hv & Hpn & Hbuf).
  pose proof (slot_wf ctl st1 n Hwf1 Hn Hv) as Hwf.
  pose proof (slru_page_default ctl st1 n Hok1 Hn Hv) as Hpage. rewrite Hpn in Hpage.
  assert (forall y, subtrans_parent st1 y = subtrans_parent st y) as Hsame by (intros; apply view_parent, Hk).
  destruct (Z.eqb_spec (read_entry (page_buffer (slot st1 n)) (TransactionIdToEntry xid)) parent) as [Heq|Hne]; simpl.
  { split; [done|]. intros y. rewrite Hsame. destruct (Z.eqb_spec y xid) as [->|]; [|done].
    rewrite <- Hsame. unfold subtrans_parent. fold p. by rewrite Hpage. }
  set (f := fun s : Slot => slot_set_dirty true _).
  destruct (update_page_spec ctl st1 n p f) as (Hok2 & Hp2 & Hothers); try done; [by left|].
  rewrite slot_page_dirty in Hp2 by done.
  split; [split; [done|]|].
  - intros q pg Hq0. destruct (decide (q = p)) as [->|Hq].
    + rewrite Hp2. intros [= <-]. by apply write_entry_wf.
    + rewrite Hothers by done. by apply Hpg1.
  - intros y. rewrite <- Hsame. unfold subtrans_parent.
    destruct (decide (TransactionIdToPage y = p)) as [Ey|Ey].
    + rewrite Ey, Hp2, Hpage. simpl.
      rewrite read_write_entry by (done || apply entry_range). rewrite Z.eqb_sym.
      destruct (Z.eqb_spec (TransactionIdToEntry y) (TransactionIdToEntry xid)) as [He|He].
      * rewrite (same_entry y xid) by done. by rewrite Z.eqb_refl.
      * rewrite (proj2 (Z.eqb_neq y xid)); [done|]. congruence.
    + rewrite Hothers by done. rewrite (proj2 (Z.eqb_neq y xid)); [done|]. intros ->. by apply Ey.
Qed.

Lemma GetParent_spec ctl xid st st' r :
  slru_wf ctl st -> 0 <= xid ->
  SubTransGetParent ctl xid st = (st', r) ->
  keeps ctl st st' /\
  match r with
  | inr parent => parent = if TransactionIdIsNormal xid then subtrans_parent st xid else InvalidTransactionId
  | inl e => io_error e
  end.
Proof.
  intros Hok Hx. unfold SubTransGetParent. destruct (TransactionIdIsNormal xid); simpl.
  2:{ intros [= <- <-]. split; [apply keeps_refl, Hok|done]. }
  unfold pbind, pget. destruct (SimpleLruReadPage_ReadOnly _ _ _) as [st1 [e|n]] eqn:E;
    apply SimpleLruReadPage_ReadOnly_spec in E as [Hk Hr];
    try (done || apply Hok || by apply page_nonneg); intros [= <- <-]; (split; [done|]).
  - destruct Hr as (? & ? & -> & _). by eexists _, _.
  - destruct Hr as (_ & _ & _ & _ & Hb). by rewrite Hb.
Qed.

(** ** The top of a transaction tree *)

(** [chain parent x y]: [y] is [x] or an ancestor of it. *)
Inductive chain (parent : Z -> Z) : Z -> Z -> Prop :=
| chain_refl x : chain parent x x
| chain_step x y : TransactionIdIsValid (parent x) = true -> chain parent (parent x) y -> chain parent x y.

#[export] Hint Constructors chain : core.

Lemma chain_snoc parent x y :
  chain parent x y -> TransactionIdIsValid (parent y) = true -> chain parent x (parent y).
Proof. induction 1; eauto. Qed.

(** Distance from the horizon, for transactions that do not precede it. *)
Definition off (xmin x : Z) : Z := u32 (x - xmin).

Lemma off_decreases xmin x p :
  is_u32 xmin -> is_u32 x -> is_u32 p -> TransactionIdIsNormal xmin = true ->
  TransactionIdIsValid x = true -> TransactionIdIsValid p = true ->
  TransactionIdPrecedes x xmin = false -> TransactionIdPrecedes p xmin = false ->
  TransactionIdPrecedes p x = true -> off xmin p < off xmin x.
Proof.
  unfold TransactionIdPrecedes, TransactionIdIsValid, TransactionIdIsNormal, InvalidTransactionId,
    FirstNormalTransactionId, off. intros ??? Hn ???.
  destruct (Z.leb_spec 3 x), (Z.leb_spec 3 p); rewrite Hn; simpl; unfold i32 in *; cint.
Qed.

Definition topmost_post (xmin : Z) (parent : Z -> Z) (xid : Z) (r : SubtransError + Z) : Prop :=
  match r with
  | inr y => chain parent xid y /\
      (TransactionIdPrecedes y xmin = true \/ parent y = InvalidTransactionId)
  | inl (InvalidEntry q p) => chain parent xid q /\ parent q = p /\ TransactionIdPrecedes p q = false
  | inl (SubtransIO e) => io_error e
  | inl SubtransOutOfFuel => False
  end.

Lemma topmost_loop_spec ctl xmin fuel : forall x prev st st' r,
  slru_wf ctl st -> is_u32 xmin -> TransactionIdIsNormal xmin = true ->
  is_u32 x -> TransactionIdIsValid x = true ->
  (TransactionIdPrecedes x xmin = false -> off xmin x + 1 < Z.of_nat fuel) -> (1 <= fuel)%nat ->
  topmost_loop fuel ctl xmin x prev st = (st', r) ->
  keeps ctl st st' /\ topmost_post xmin (subtrans_parent st) x r.
Proof.
  induction fuel as [|fuel IH]; intros x prev st st' r Hok Hxm Hxn Hx Hxv Hf Hf1; [lia|].
  cbn [topmost_loop]. rewrite Hxv. destruct (TransactionIdPrecedes x xmin) eqn:Hpx.
  { intros [= <- <-]. split; [apply keeps_refl, Hok|]. split; [done|by left]. }
  specialize (Hf eq_refl). assert (0 <= x) as Hx0 by (unfold is_u32 in Hx; lia).
  assert (TransactionIdIsNormal x = true) as Hnx.
  { revert Hpx Hxn Hx Hxv. unfold TransactionIdPrecedes, TransactionIdIsValid, TransactionIdIsNormal, InvalidTransactionId, FirstNormalTransactionId, is_u32. clear.
    destruct (Z.leb_spec 3 x); simpl; [done|]. lia. }
  destruct (SubTransGetParent ctl x st) as [st1 [e|p]] eqn:Eg;
    apply GetParent_spec in Eg as [Hk Hp]; [|done|done| |done|done].
  { intros [= <- <-]. by split. }
  rewrite Hnx in Hp. pose proof (subtrans_parent_range ctl st x Hok Hx0) as Hpu. rewrite <- Hp in Hpu.
  destruct (TransactionIdPrecedes p x) eqn:Hprec; simpl.
  2:{ intros [= <- <-]. split; [done|]. by split. }
  assert (0 <= off xmin x) by (unfold off; cint).
  destruct (TransactionIdIsValid p) eqn:Hpv.
  - intros Hl. apply IH in Hl as [Hk2 Hpost]; try done; [|by eapply keeps_wf| |lia].
    + split; [by eapply keeps_trans|].
      assert (forall y, subtrans_parent st1 y = subtrans_parent st y) as Hsame by (intros; apply view_parent, Hk).
      assert (forall a b, chain (subtrans_parent st1) a b -> chain (subtrans_parent st) a b) as Hch.
      { intros a b. induction 1; [done|]. rewrite Hsame in *. by econstructor. }
      assert (forall b, chain (subtrans_parent st1) p b -> chain (subtrans_parent st) x b) as Hext.
      { intros b Hb%Hch. subst p. by econstructor. }
      destruct r as [[| |]|]; simpl in *; rewrite ?Hsame in Hpost; intuition.
    + intros Hpp. pose proof (off_decreases xmin x p). lia.
  - destruct fuel as [|fuel]; [lia|]. cbn [topmost_loop]. rewrite Hpv. intros [= <- <-].
    split; [done|]. split; [done|]. right. rewrite <- Hp.
    unfold TransactionIdIsValid in Hpv. by apply negb_false_iff, Z.eqb_eq in Hpv.
Qed.

Lemma GetTopmost_spec ctl xmin xid st st' r : slru_wf ctl st -> is_u32 xmin -> TransactionIdIsNormal xmin = true ->
  is_u32 xid -> TransactionIdIsValid xid = true -> SubTransGetTopmostTransaction ctl xmin xid st = (st', r) ->
  keeps ctl st st' /\ topmost_post xmin (subtrans_parent st) xid r.
Proof.
  intros Hok Hm Hmn Hx Hxv E. apply topmost_loop_spec in E; try done; [|lia].
  intros _. unfold off. assert (0 <= u32 (xid - xmin)) by cint. lia.
Qed.

(** ** New pages *)

Lemma zero_page_parent ctl p st st' n :
  slru_wf ctl st -> zero_post ctl p st st' (inr n) ->
  slru_wf ctl st' /\
  forall y, subtrans_parent st' y = if TransactionIdToPage y =? p then InvalidTransactionId else subtrans_parent st y.
Proof.
  intros [Hok Hpg] (Hok' & _ & Hn & Hv & Hpn & Hb & Hd & _ & Hothers).
  assert (slru_page st' p = Some zero_page) as Hp.
  { rewrite <- Hb, <- Hpn at 1. by rewrite (slru_page_slot ctl), slot_page_dirty. }
  split; [split; [done|]|].
  - intros q pg Hq0. destruct (decide (q = p)) as [->|Hq].
    + rewrite Hp. intros [= <-]. apply zero_page_wf.
    + apply (page_le_wf _ _ (Hothers q Hq)). intros pg'. by apply Hpg.
  - intros y. unfold subtrans_parent. destruct (Z.eqb_spec (TransactionIdToPage y) p) as [->|Hy].
    + rewrite Hp. apply read_entry_zero.
    + by rewrite (page_le_default _ _ (Hothers _ Hy)).
Qed.

(** The number of pages, and how far page [q] is past page [p] going round. *)
Lemma ExtendSUBTRANS_spec ctl xid st st' r : slru_wf ctl st -> 0 <= xid -> ExtendSUBTRANS ctl xid st = (st', r) ->
  slru_wf ctl st' /\
  if (TransactionIdToEntry xid =? 0) || (xid =? FirstNormalTransactionId) then
    match r with
    | inr _ => forall y, subtrans_parent st' y =
        if TransactionIdToPage y =? TransactionIdToPage xid then InvalidTransactionId else subtrans_parent st y
    | inl e => io_error e
    end
  else st' = st /\ r = inr tt.
Proof.
  intros Hok Hx. unfold ExtendSUBTRANS, TransactionIdEquals. rewrite <- negb_orb. destruct (_ || _); simpl; [|by intros [= <- <-]].
  unfold pbind, ZeroSUBTRANSPage, pret. destruct (SimpleLruZeroPage _ _ _) as [st1 r1] eqn:E.
  apply SimpleLruZeroPage_spec in E; [|by apply page_nonneg|apply Hok]. destruct r1 as [e|n]; intros [= <- <-].
  - destruct E as [Hk (? & ? & -> & _)]. split; [by eapply keeps_wf|by eexists _, _].
  - by apply (zero_page_parent ctl _ _ _ n).
Qed.

Definition npages : Z := TransactionIdToPage MaxTransactionId + 1.
Definition past (p q : Z) : Z := (q - p) mod npages.

Lemma past_step p q :
  0 <= p < npages -> 0 <= q < npages ->
  let p' := if TransactionIdToPage MaxTransactionId <? p + 1 then 0 else p + 1 in
  0 <= p' < npages /\ (p <> q -> past p' q = past p q - 1) /\ (p = q <-> past p q = 0).
Proof.
  unfold past. change npages with 2097152. change (TransactionIdToPage MaxTransactionId) with 2097151.
  intros Hp Hq. cbv zeta. destruct_bools; lia.
Qed.

Lemma StartupSUBTRANS_loop_spec ctl fuel : forall p e st st' r,
  slru_wf ctl st -> 0 <= p < npages -> 0 <= e < npages -> (past p e < Z.of_nat fuel) ->
  StartupSUBTRANS_loop fuel ctl p e st = (st', r) ->
  slru_wf ctl st' /\
  match r with
  | inr _ => forall y, is_u32 y -> subtrans_parent st' y =
      if past p (TransactionIdToPage y) <=? past p e then InvalidTransactionId else subtrans_parent st y
  | inl e => io_error e
  end.
Proof.
  induction fuel as [|fuel IH]; intros p e st st' r Hok Hp He Hf.
  { unfold past, npages in Hf. change (TransactionIdToPage MaxTransactionId) with 2097151 in Hf. lia. }
  cbn [StartupSUBTRANS_loop]. unfold pbind, ZeroSUBTRANSPage.
  destruct (SimpleLruZeroPage ctl p st) as [st1 [er|n]] eqn:E; apply SimpleLruZeroPage_spec in E; try (apply Hok || lia).
  { intros [= <- <-]. destruct E as [Hk (? & ? & -> & _)]. split; [by eapply keeps_wf|by eexists _, _]. }
  destruct (zero_page_parent ctl p st st1 n Hok E) as [Hok1 Hz].
  assert (forall y, is_u32 y -> 0 <= TransactionIdToPage y < npages) as Hpages.
  { intros y Hy. change npages with 2097152. unfold is_u32 in Hy. subtrans_lia. }
  destruct (past_step p e Hp He) as (Hp' & Hdec & Heq).
  destruct (Z.eqb_spec p e) as [->|Hne].
  - intros [= <- <-]. split; [done|]. intros y Hy. rewrite Hz.
    pose proof (past_step e _ Hp (Hpages y Hy)) as (_ & _ & Hy0).
    assert (0 <= past e (TransactionIdToPage y)) by (unfold past; apply Z.mod_pos_bound; done).
    destruct (Z.eqb_spec (TransactionIdToPage y) e), (Z.leb_spec (past e (TransactionIdToPage y)) (past e e)); lia.
  - intros Hl. apply IH in Hl as [Hok2 Hr]; [|done|done|done|specialize (Hdec Hne); lia].
    split; [done|]. destruct r as [|[]]; [done|]. intros y Hy. rewrite Hr, Hz by done.
    pose proof (past_step p _ Hp (Hpages y Hy)) as (_ & Hy1 & Hy0). specialize (Hdec Hne).
    assert (0 <= past p e) by (unfold past; apply Z.mod_pos_bound; done).
    assert (0 <= past p e - 1) by lia.
    destruct (Z.eqb_spec (TransactionIdToPage y) p) as [Ey|Ey].
    + assert (past p (TransactionIdToPage y) = 0) by (apply Hy0; congruence).
      rewrite (proj2 (Z.leb_le (past p _) (past p e))) by lia. by destruct (_ <=? _).
    + rewrite Hdec, Hy1 by congruence.
      destruct (Z.leb_spec (past p (TransactionIdToPage y) - 1) (past p e - 1)),
        (Z.leb_spec (past p (TransactionIdToPage y)) (past p e)); done || lia.
Qed.

(** ** Properties *)

(** Recording a parent and asking for it: after a successful call exactly
    the entry of that transaction has changed, and the next lookup returns the
    recorded parent (nothing for the permanent ids); lookups change nothing. *)
Theorem set_then_get_parent ctl xid parent st :
  slru_wf ctl st -> is_u32 xid -> is_u32 parent ->
  let '(st1, r1) := SubTransSetParent ctl xid parent st in
  slru_wf ctl st1 /\
  match r1 with
  | inl e => io_error e
  | inr _ =>
      (forall y, subtrans_parent st1 y = if y =? xid then parent else subtrans_parent st y) /\
      let '(st2, r2) := SubTransGetParent ctl xid st1 in
      keeps ctl st1 st2 /\
      match r2 with
      | inl e => io_error e
      | inr p => p = if TransactionIdIsNormal xid then parent else InvalidTransactionId
      end
  end.
Proof.
  intros Hok Hx Hp. assert (0 <= xid) by (unfold is_u32 in Hx; lia).
  destruct (SubTransSetParent ctl xid parent st) as [st1 r1] eqn:E.
  apply SetParent_spec in E as [Hok1 Hr]; [|done..]. split; [done|]. destruct r1 as [|[]]; [tauto|].
  split; [done|]. destruct (SubTransGetParent ctl xid st1) as [st2 r2] eqn:E.
  apply GetParent_spec in E as [Hk Hr2]; [|done..]. split; [done|]. destruct r2; [done|].
  rewrite Hr2, Hr, Z.eqb_refl. done.
Qed.

Definition demo_subtrans_ctl : SlruCtl := SubTransCtl 16 false (fun _ => None) (fun _ => None).
Definition demo_subtrans : Slru := SUBTRANSShmemInit 1024 16 {[ 0 := [zero_page; zero_page] ]} 0.

Lemma demo_subtrans_ok : slru_wf demo_subtrans_ctl demo_subtrans.
Proof.
  destruct (SimpleLruInit_ok demo_subtrans_ctl 16 0 {[ 0 := [zero_page; zero_page] ]} 0) as [Hok Hp]; [done..|].
  split; [exact Hok|]. intros q pg _ Hq. unfold demo_subtrans, SUBTRANSShmemInit in Hq.
  change (SUBTRANSShmemBuffers 1024 16) with 16 in Hq. rewrite Hp in Hq. unfold file_page in Hq.
  cbn [files SimpleLruInit] in Hq. destruct (decide (seg_of q = 0)) as [E|Hne].
  - rewrite E, lookup_singleton_eq in Hq. simpl in Hq.
    destruct (seg_index q) as [|[|i]]; simpl in Hq; [injection Hq as <-..|done]; apply zero_page_wf.
  - rewrite lookup_singleton_ne in Hq; done.
Qed.

Lemma set_then_get_parent_witness :
  let '(st1, r1) := SubTransSetParent demo_subtrans_ctl 2050 7 demo_subtrans in
  slru_wf demo_subtrans_ctl st1 /\
  match r1 with
  | inl e => io_error e
  | inr _ =>
      (forall y, subtrans_parent st1 y = if y =? 2050 then 7 else subtrans_parent demo_subtrans y) /\
      let '(st2, r2) := SubTransGetParent demo_subtrans_ctl 2050 st1 in
      keeps demo_subtrans_ctl st1 st2 /\
      match r2 with
      | inl e => io_error e
      | inr p => p = if TransactionIdIsNormal 2050 then 7 else InvalidTransactionId
      end
  end.
Proof.
  apply (set_then_get_parent demo_subtrans_ctl 2050 7 demo_subtrans);
    [apply demo_subtrans_ok|unfold is_u32; lia|unfold is_u32; lia].
Defined.

(** C39. Finding the top of a transaction's tree always terminates, also over a
    corrupted log: it returns an ancestor of the transaction (or itself) that
    either has no parent or precedes the horizon; or it reports an I/O error,
    or an entry on the way whose parent does not precede it. *)
Theorem topmost_terminates ctl xmin xid st :
  slru_wf ctl st -> is_u32 xmin -> TransactionIdIsNormal xmin = true ->
  is_u32 xid -> TransactionIdIsValid xid = true ->
  let '(st', r) := SubTransGetTopmostTransaction ctl xmin xid st in
  keeps ctl st st' /\ topmost_post xmin (subtrans_parent st) xid r.
Proof.
  intros. destruct (SubTransGetTopmostTransaction ctl xmin xid st) as [st' r] eqn:E. by apply GetTopmost_spec in E.
Qed.

Definition demo_family : Slru := fst (SubTransSetParent demo_subtrans_ctl 12 10 demo_subtrans).

Lemma demo_family_ok : slru_wf demo_subtrans_ctl demo_family.
Proof.
  unfold demo_family. destruct (SubTransSetParent demo_subtrans_ctl 12 10 demo_subtrans) as [st r] eqn:E.
  apply SetParent_spec in E; [apply E|apply demo_subtrans_ok|lia|unfold is_u32; lia].
Qed.

Lemma topmost_terminates_witness :
  let '(st', r) := SubTransGetTopmostTransaction demo_subtrans_ctl 5 12 demo_family in
  keeps demo_subtrans_ctl demo_family st' /\ topmost_post 5 (subtrans_parent demo_family) 12 r.
Proof.
  apply (topmost_terminates demo_subtrans_ctl 5 12 demo_family);
    [apply demo_family_ok|unfold is_u32; lia|done|unfold is_u32; lia|done].
Defined.

(** At startup every page from the oldest active transaction's to the next
    transaction's, going round the end of the id space if need be, is cleared,
    so that no transaction of that range has a parent; other entries are left
    alone.  The loop ends. *)
Theorem startup_clears_active ctl nextXid oldestActiveXID st :
  slru_wf ctl st -> is_u32 oldestActiveXID ->
  let startPage := TransactionIdToPage oldestActiveXID in
  let endPage := TransactionIdToPage (XidFromFullTransactionId nextXid) in
  let '(st', r) := StartupSUBTRANS ctl nextXid oldestActiveXID st in
  slru_wf ctl st' /\
  match r with
  | inr _ => forall y, is_u32 y -> subtrans_parent st' y =
      if past startPage (TransactionIdToPage y) <=? past startPage endPage
      then InvalidTransactionId else subtrans_parent st y
  | inl e => io_error e
  end.
Proof.
  intros Hok Hu startPage endPage.
  destruct (StartupSUBTRANS ctl nextXid oldestActiveXID st) as [st' r] eqn:E.
  apply StartupSUBTRANS_loop_spec in E; [done|done| | |].
  - change npages with 2097152. unfold is_u32 in Hu. subtrans_lia.
  - change npages with 2097152. assert (is_u32 (XidFromFullTransactionId nextXid)) as H by apply u32_range.
    unfold is_u32 in H. subtrans_lia.
  - fold startPage endPage. unfold past, npages.
    assert (0 <= (endPage - startPage) mod (TransactionIdToPage MaxTransactionId + 1)) by (apply Z.mod_pos_bound; done).
    lia.
Qed.

Lemma startup_clears_active_witness :
  let startPage := TransactionIdToPage 12 in
  let endPage := TransactionIdToPage (XidFromFullTransactionId (FullTransactionIdFromU64 3000)) in
  let '(st', r) := StartupSUBTRANS demo_subtrans_ctl (FullTransactionIdFromU64 3000) 12 demo_family in
  slru_wf demo_subtrans_ctl st' /\
  match r with
  | inr _ => forall y, is_u32 y -> subtrans_parent st' y =
      if past startPage (TransactionIdToPage y) <=? past startPage endPage
      then InvalidTransactionId else subtrans_parent demo_family y
  | inl e => io_error e
  end.
Proof.
  apply (startup_clears_active demo_subtrans_ctl (FullTransactionIdFromU64 3000) 12 demo_family);
    [apply demo_family_ok|unfold is_u32; lia].
Defined.

(** Truncation keeps the parent of every normal transaction that does not
    precede the one before [oldestXact]; extending the log to a new page clears
    that page only. *)
Theorem subtrans_pages_safe ctl xid st :
  (forall p q, PagePrecedes ctl p q = SubTransPagePrecedes p q) -> slru_wf ctl st ->
  is_u32 xid -> TransactionIdIsNormal (TransactionIdRetreat xid) = true -> is_u32 (TransactionIdRetreat xid) ->
  (let '(st', r) := TruncateSUBTRANS ctl xid st in
   slru_wf ctl st' /\
   (forall y, is_u32 y -> TransactionIdIsNormal y = true ->
      TransactionIdPrecedes y (TransactionIdRetreat xid) = false ->
      subtrans_parent st' y = subtrans_parent st y) /\
   match r with inl e => io_error e | inr _ => True end) /\
  (let '(st', r) := ExtendSUBTRANS ctl xid st in
   slru_wf ctl st' /\
   if (TransactionIdToEntry xid =? 0) || (xid =? FirstNormalTransactionId) then
     match r with
     | inr _ => forall y, subtrans_parent st' y =
         if TransactionIdToPage y =? TransactionIdToPage xid then InvalidTransactionId else subtrans_parent st y
     | inl e => io_error e
     end
   else st' = st /\ r = inr tt).
Proof.
  intros Hctl Hok Hu Hn Hu'. assert (SUBTRANS_XACTS_PER_PAGE = 32768 \/ SUBTRANS_XACTS_PER_PAGE = 2048) as HN by by right.
  unfold is_u32 in Hu, Hu'. split.
  - unfold TruncateSUBTRANS. set (o := TransactionIdRetreat xid) in *.
    destruct (SimpleLruTruncate ctl _ st) as [st' r] eqn:E.
    apply (truncate_wf _ HN) in E as (Hok' & Hkeep & Hr); [|done|done|apply page_nonneg; lia].
    split_and!; [done| |done]. intros y Hy Hny Hpy. unfold subtrans_parent. f_equal.
    apply page_le_default, Hkeep; [apply page_nonneg; unfold is_u32 in Hy; lia|].
    by apply (needed_not_deletable _ HN ctl).
  - destruct (ExtendSUBTRANS ctl xid st) as [st' r] eqn:E. apply (ExtendSUBTRANS_spec ctl xid) in E; [done|done|lia].
Qed.

Lemma subtrans_pages_safe_witness :
  (let '(st', r) := TruncateSUBTRANS demo_subtrans_ctl 4096 demo_family in
   slru_wf demo_subtrans_ctl st' /\
   (forall y, is_u32 y -> TransactionIdIsNormal y = true ->
      TransactionIdPrecedes y (TransactionIdRetreat 4096) = false ->
      subtrans_parent st' y = subtrans_parent demo_family y) /\
   match r with inl e => io_error e | inr _ => True end) /\
  (let '(st', r) := ExtendSUBTRANS demo_subtrans_ctl 4096 demo_family in
   slru_wf demo_subtrans_ctl st' /\
   if (TransactionIdToEntry 4096 =? 0) || (4096 =? FirstNormalTransactionId) then
     match r with
     | inr _ => forall y, subtrans_parent st' y =
         if TransactionIdToPage y =? TransactionIdToPage 4096 then InvalidTransactionId else subtrans_parent demo_family y
     | inl e => io_error e
     end
   else st' = demo_family /\ r = inr tt).
Proof.
  apply (subtrans_pages_safe demo_subtrans_ctl 4096 demo_family);
    [done|apply demo_family_ok|unfold is_u32; lia|done|unfold is_u32; split; done].
Defined.
