(* ===== verification/NewXid.v ===== *)
(** * Assigning transaction ids

    [GetNewTransactionId] of [src/backend/access/transam/varsup.c]: the guards
    against wraparound, the extension of the three logs that are indexed by
    transaction id ([Clog], [CommitTs], [Subtrans]), the step of the counter and
    the entry in the array of running transactions ([ProcArray]). *)

From Stdlib Require String.
From S2P Require Import Prelude.
From S2P Require Import CommitTs.
From S2P Require Import Clog.
From S2P Require Import Subtrans.
From S2P Require Import TransactionId.
From S2P Require Import Varsup.
From S2P Require Import ProcArray.
From S2P Require Import Running.
From S2P Require Import RunningSteps.
From S2P Require Import SnapshotTheorems.
From S2P Require Import Slru.
From S2P Require Import SlruEntries.

(** The shared state that an assignment touches, with the signals sent to the
    postmaster and the warnings given (database, ids left). *)
Record XidGen := MkXidGen {
  arr : ProcArrayStruct;
  pg_xact : Clog.Clog;
  pg_commit_ts : CommitTs.CommitTs;
  pg_subtrans : Slru;
  autovac_signals : nat;
  warnings : list (Z * Z);
}.

Inductive NewXidError :=
| ParallelOperation
| DuringRecovery
| PastStopLimit (oldest_datoid : Z) (datname : option String.string)
| ClogFailed (e : SlruError)
| CommitTsFailed (e : CommitTs.CommitTsError)
| SubtransFailed (e : SlruError).

(** [meanwhile] is what others do to the shared state while the lock is not
    held; [get_database_name] is a catalog lookup. *)
Record XidEnv := MkXidEnv {
  IsInParallelMode : bool;
  IsBootstrapProcessingMode : bool;
  IsUnderPostmaster : bool;
  get_database_name : Z -> option String.string;
  meanwhile : XidGen -> XidGen;
  xact_ctl : SlruCtl;
  cts_ctl : SlruCtl;
  subtrans_ctl : SlruCtl;
}.

Definition set_arr (s : XidGen) (pa : ProcArrayStruct) : XidGen :=
  MkXidGen pa (pg_xact s) (pg_commit_ts s) (pg_subtrans s) (autovac_signals s) (warnings s).

Definition send_signal (s : XidGen) : XidGen :=
  MkXidGen (arr s) (pg_xact s) (pg_commit_ts s) (pg_subtrans s) (S (autovac_signals s)) (warnings s).

Definition warn (w : Z * Z) (s : XidGen) : XidGen :=
  MkXidGen (arr s) (pg_xact s) (pg_commit_ts s) (pg_subtrans s) (autovac_signals s) (warnings s ++ [w]).

Definition on_pg_xact (m : prog Clog.Clog SlruError unit) : prog XidGen NewXidError unit :=
  fun s => let '(c, r) := m (pg_xact s) in
    (MkXidGen (arr s) c (pg_commit_ts s) (pg_subtrans s) (autovac_signals s) (warnings s),
     match r with inl e => inl (ClogFailed e) | inr a => inr a end).

Definition on_pg_commit_ts (m : prog CommitTs.CommitTs CommitTs.CommitTsError unit) : prog XidGen NewXidError unit :=
  fun s => let '(c, r) := m (pg_commit_ts s) in
    (MkXidGen (arr s) (pg_xact s) c (pg_subtrans s) (autovac_signals s) (warnings s),
     match r with inl e => inl (CommitTsFailed e) | inr a => inr a end).

Definition on_pg_subtrans (m : prog Slru SlruError unit) : prog XidGen NewXidError unit :=
  fun s => let '(c, r) := m (pg_subtrans s) in
    (MkXidGen (arr s) (pg_xact s) (pg_commit_ts s) c (autovac_signals s) (warnings s),
     match r with inl e => inl (SubtransFailed e) | inr a => inr a end).

(** The guards.  The lock is released while signals and warnings are sent, and
    the limits are not looked at again afterwards. *)
Definition check_xid_limits (env : XidEnv) : prog XidGen NewXidError unit :=
  fun s =>
  let tv := TransamVariables (arr s) in
  let xid := XidFromFullTransactionId (nextXid tv) in
  if TransactionIdFollowsOrEquals xid (xidVacLimit tv) then
    let s := if IsUnderPostmaster env && (xid mod 65536 =? 0) then send_signal s else s in
    if IsUnderPostmaster env && TransactionIdFollowsOrEquals xid (xidStopLimit tv) then
      (s, inl (PastStopLimit (oldestXidDB tv) (get_database_name env (oldestXidDB tv))))
    else
      let s := if TransactionIdFollowsOrEquals xid (xidWarnLimit tv)
               then warn (oldestXidDB tv, u32 (xidWrapLimit tv - xid)) s else s in
      (meanwhile env s, inr tt)
  else (s, inr tt).

(** The logs get a page for the id where it is the first on one. *)
Definition make_room (env : XidEnv) (xid : Z) : prog XidGen NewXidError unit :=
  (on_pg_xact (Clog.ExtendCLOG (xact_ctl env) xid) ;;;
   on_pg_commit_ts (CommitTs.ExtendCommitTs (cts_ctl env) xid) ;;;
   on_pg_subtrans (Subtrans.ExtendSUBTRANS (subtrans_ctl env) xid))%prog.

(** What is done with the lock held to the end. *)
Definition assign_next_xid (env : XidEnv) (isSubXact : bool) (off : nat)
  : prog XidGen NewXidError FullTransactionId :=
  (full_xid <- pget (fun s => nextXid (TransamVariables (arr s))) ;;
   let xid := XidFromFullTransactionId full_xid in
   make_room env xid ;;;
   pmod (fun s => set_arr s (advertise_xid isSubXact off xid (arr s))) ;;;
   pret full_xid)%prog.

Definition GetNewTransactionId (env : XidEnv) (isSubXact : bool) (off : nat)
  : prog XidGen NewXidError FullTransactionId :=
  fun s =>
  if IsInParallelMode env then (s, inl ParallelOperation)
  else if IsBootstrapProcessingMode env then
    let p := procs (arr s) !!! off in
    (set_arr s (set_procs (arr s) (<[off := MkPGPROC (pgprocno p) (pid p) BootstrapTransactionId (proc_xmin p)
       (subxids p) (sub_overflowed p) (statusFlags p) (databaseId p)]> (procs (arr s)))),
     inr (FullTransactionIdFromEpochAndXid 0 BootstrapTransactionId))
  else if RecoveryInProgress (arr s) then (s, inl DuringRecovery)
  else
    (check_xid_limits env ;;; assign_next_xid env isSubXact off)%prog s.

(** ** A log that keeps pace with the counter *)

(** The first id of a page, and the first id after wraparound. *)
Definition opens (N x : Z) : bool := (x mod N =? 0) || (x =? FirstNormalTransactionId).

Section log.
Context (lo N : Z) (HN : N = 32768 \/ N = 2048 \/ N = 819).
Context (ctl : SlruCtl) (blank : list Z -> Z -> Prop) (Hzero : forall y, blank zero_page y).

Definition entry_blank (st : Slru) (y : Z) : Prop := blank (page_of st (y / N)) y.

(** Every assigned id has its page.  The page of the next id is there as well,
    with nothing recorded from that id on, unless the id opens its page. *)
Record ready (st : Slru) (pa : ProcArrayStruct) : Prop := {
  rd_wf : slru_wf ctl st;
  rd_assigned : forall y, assigned lo pa y -> present st (y / N);
  rd_next : opens N (next pa) = false ->
    present st (next pa / N) /\ forall y, y / N = next pa / N -> next pa <= y -> entry_blank st y;
}.

(** The log after room has been made for [x]. *)
Definition extended (x : Z) (st st' : Slru) : Prop :=
  if opens N x then modified ctl (x / N) (fun _ => zero_page) st st' else st' = st.

(** Ids on the page that [x] opens come after it, in both orders. *)
Lemma opens_first x y : in_use lo x -> in_use lo y -> opens N x = true -> y / N = x / N ->
  x <= y /\ xid_rank lo x <= xid_rank lo y.
Proof.
  unfold in_use, opens, TransactionIdIsNormal, FirstNormalTransactionId, xid_rank.
  intros (Hx & Hxn & Hxr) (Hy & Hyn & Hyr) Ho Hp.
  assert (x <= y) as Hle by (destruct HN as [->|[->| ->]]; lia).
  split; [done|]. assert (y - x < 32768) by (destruct HN as [->|[->| ->]]; lia). cint.
Qed.

(** The page that is zeroed for a new id holds no id that is already assigned. *)
Lemma extended_assigned x st st' y : in_use lo x -> in_use lo y -> xid_rank lo y < xid_rank lo x -> extended x st st' ->
  page_of st' (y / N) = page_of st (y / N).
Proof.
  intros Hx Hy Hr. unfold extended. destruct (opens N x) eqn:Ho; [|by intros ->].
  intros (_ & _ & Hpages & _). rewrite Hpages. destruct (Z.eqb_spec (y / N) (x / N)) as [E|]; [|done].
  destruct (opens_first x y Hx Hy Ho E). lia.
Qed.

Lemma extended_present x st st' p : extended x st st' -> present st p -> present st' p.
Proof. unfold extended. destruct (opens N x); [intros (_ & _ & _ & H); apply H|by intros ->]. Qed.

(** Making room keeps the log ready, also when the id is not assigned after
    all. *)
Lemma extended_ready st st' pa : ready st pa -> extended (next pa) st st' -> ready st' pa.
Proof.
  intros [Hwf Ha Hn] Hext. split.
  - unfold extended in Hext. destruct (opens _ _); [apply Hext|by subst].
  - intros y Hy. by eapply extended_present, Ha.
  - intros Ho. unfold extended in Hext. rewrite Ho in Hext. subst st'. by apply Hn.
Qed.

Lemma keeps_ready st st' pa : ready st pa -> keeps ctl st st' -> ready st' pa.
Proof.
  intros [Hwf Ha Hn] Hk. split; [by eapply keeps_wf|..].
  - intros y Hy. by eapply keeps_present, Ha.
  - intros Ho. destruct (Hn Ho) as [H1 H2]. split; [by eapply keeps_present|].
    intros y Hp Hy. unfold entry_blank. rewrite (keeps_page_of _ _ _ _ Hk). by apply H2.
Qed.

(** The new id has a page and nothing is recorded for it or after it. *)
Lemma extended_blank st st' pa : ready st pa -> extended (next pa) st st' ->
  present st' (next pa / N) /\ forall y, y / N = next pa / N -> next pa <= y -> entry_blank st' y.
Proof.
  intros [Hwf Ha Hn] Hext. unfold extended in Hext. destruct (opens N (next pa)) eqn:Ho.
  - destruct Hext as (_ & Hp & Hpages & _). split; [done|]. intros y E _. unfold entry_blank.
    rewrite Hpages, E, Z.eqb_refl. apply Hzero.
  - subst st'. by apply Hn.
Qed.

(** The log is ready for the id after the one just assigned. *)
Lemma assigned_ready st st' pa pa' : ready st pa -> extended (next pa) st st' ->
  in_use lo (next pa) -> next pa' = TransactionIdAdvance (next pa) ->
  (forall y, assigned lo pa' y -> assigned lo pa y \/ y = next pa) -> ready st' pa'.
Proof.
  intros Hr Hext Hu En Hass. destruct (extended_blank st st' pa Hr Hext) as [Hp Hb]. split.
  - apply (extended_ready st st' pa Hr Hext).
  - intros y [Hy| ->]%Hass; [|done]. by eapply extended_present, Hr.
  - rewrite En. intros Ho.
    assert (TransactionIdAdvance (next pa) = next pa + 1 /\ (next pa + 1) / N = next pa / N) as [-> E].
    { destruct Hu as (Hu & Hn & _). revert Ho. unfold TransactionIdAdvance, opens, TransactionIdIsNormal, FirstNormalTransactionId in *.
      destruct HN as [->|[->| ->]]; cint. }
    rewrite E. split; [done|]. intros y Hy Hle. apply Hb; [done|lia].
Qed.
End log.

(** ** The three logs *)

Definition clog_blank (pg : list Z) (y : Z) : Prop := page_get pg y = TRANSACTION_STATUS_IN_PROGRESS.
Definition cts_blank (pg : list Z) (y : Z) : Prop := read_ts pg y = MkCommitTimestampEntry 0 InvalidRepOriginId.
Definition subtrans_blank (pg : list Z) (y : Z) : Prop :=
  read_entry pg (Subtrans.TransactionIdToEntry y) = InvalidTransactionId.

Lemma cts_blank_zero y : cts_blank zero_page y.
Proof. unfold cts_blank, read_ts. by rewrite !get_le_zero by cts_lia. Qed.

Lemma subtrans_blank_zero y : subtrans_blank zero_page y.
Proof. apply read_entry_zero. Qed.

Lemma zero_extends N ctl x st st' r : slru_wf ctl st -> 0 <= x -> 0 < N -> opens N x = true ->
  SimpleLruZeroPage ctl (x / N) st = (st', r) ->
  match r with inr _ => extended N ctl x st st' | inl e => faulty ctl e /\ keeps ctl st st' end.
Proof.
  intros Hok Hx HN Ho E. apply zero_page_modified in E; [|done|by apply Z.div_pos].
  destruct r; [done|]. unfold extended. rewrite Ho. apply E.
Qed.

Lemma ExtendCLOG_extends ctl x c c' r : slru_wf ctl (xact c) -> 0 <= x -> ExtendCLOG ctl x c = (c', r) ->
  match r with
  | inr _ => extended 32768 ctl x (xact c) (xact c')
  | inl e => faulty ctl e /\ keeps ctl (xact c) (xact c')
  end.
Proof.
  intros Hok Hx. unfold ExtendCLOG, TransactionIdEquals. rewrite <- negb_orb. fold (opens 32768 x).
  change (_ || _) with (opens 32768 x). destruct (opens 32768 x) eqn:Ho; cbn [negb].
  2: { intros [= <- <-]. unfold extended. by rewrite Ho. }
  unfold ZeroCLOGPage, pbind, on_xact, pwhen, pmod, pret.
  destruct (SimpleLruZeroPage _ _ _) as [st r1] eqn:E. apply (zero_extends 32768) in E; [|done..].
  by destruct r1; intros [= <- <-].
Qed.

Lemma ExtendSUBTRANS_extends ctl x st st' r : slru_wf ctl st -> 0 <= x -> ExtendSUBTRANS ctl x st = (st', r) ->
  match r with inr _ => extended 2048 ctl x st st' | inl e => faulty ctl e /\ keeps ctl st st' end.
Proof.
  intros Hok Hx. unfold ExtendSUBTRANS, TransactionIdEquals. rewrite <- negb_orb.
  change (_ || _) with (opens 2048 x). destruct (opens 2048 x) eqn:Ho; cbn [negb].
  2: { intros [= <- <-]. unfold extended. by rewrite Ho. }
  unfold ZeroSUBTRANSPage, pbind, pret.
  destruct (SimpleLruZeroPage _ _ _) as [st1 r1] eqn:E. apply (zero_extends 2048) in E; [|done..].
  by destruct r1; intros [= <- <-].
Qed.

(** Nothing is done for the timestamps while the module is switched off. *)
Lemma ExtendCommitTs_extends ctl x c c' r : (commitTsActive c = true -> slru_wf ctl (cts c)) -> 0 <= x ->
  ExtendCommitTs ctl x c = (c', r) ->
  c' = MkCommitTs (cts c') (xidLastCommit c) (dataLastCommit c) (commitTsActive c) (oldestCommitTsXid c)
         (newestCommitTsXid c) (cts_xlog c') /\
  if commitTsActive c then
    match r with
    | inr _ => extended 819 ctl x (cts c) (cts c')
    | inl e => (exists e', e = CommitTsIO e' /\ faulty ctl e') /\ keeps ctl (cts c) (cts c')
    end
  else c' = c /\ r = inr tt.
Proof.
  intros Hok Hx. unfold ExtendCommitTs, TransactionIdEquals. destruct (commitTsActive c) eqn:Ha; cbn [negb].
  2: { intros [= <- <-]. split; [by destruct c; cbn in *; subst|done]. }
  rewrite <- negb_orb. change (_ || _) with (opens 819 x). destruct (opens 819 x) eqn:Ho; cbn [negb].
  2: { intros [= <- <-]. split; [by destruct c; cbn in *; subst|]. unfold extended. by rewrite Ho. }
  unfold ZeroCommitTsPage, pbind, on_cts, pwhen, pmod, pret.
  destruct (SimpleLruZeroPage _ _ _) as [st r1] eqn:E. apply (zero_extends 819) in E; [|by apply Hok|done..].
  destruct r1 as [e|n]; [|destruct (negb (InRecovery ctl))]; intros [= <- <-]; (split; [by rewrite <- Ha|]); [|exact E..].
  destruct E as [Hf Hk]. split; [by exists e|done].
Qed.

(** ** Assignment *)

Section assign.
Context (env : XidEnv) (lo : Z) (topmost : Z -> Z) (Htop : topmost_ok lo topmost) (aborted : Z -> bool).

(** The array is well formed and every log keeps pace with the counter. *)
Record xg_ok (s : XidGen) : Prop := {
  xg_arr : pa_ok lo topmost aborted (arr s);
  xg_clog : ready lo 32768 (xact_ctl env) clog_blank (xact (pg_xact s)) (arr s);
  xg_cts : commitTsActive (pg_commit_ts s) = true ->
    ready lo 819 (cts_ctl env) cts_blank (cts (pg_commit_ts s)) (arr s);
  xg_subtrans : ready lo 2048 (subtrans_ctl env) subtrans_blank (pg_subtrans s) (arr s);
}.

(** The logs of [s'] have room for the next id of [s]; nothing else differs. *)
Record made_room (s s' : XidGen) : Prop := {
  mr_arr : arr s' = arr s;
  mr_active : commitTsActive (pg_commit_ts s') = commitTsActive (pg_commit_ts s);
  mr_clog : extended 32768 (xact_ctl env) (next (arr s)) (xact (pg_xact s)) (xact (pg_xact s'));
  mr_cts : commitTsActive (pg_commit_ts s) = true ->
    extended 819 (cts_ctl env) (next (arr s)) (cts (pg_commit_ts s)) (cts (pg_commit_ts s'));
  mr_subtrans : extended 2048 (subtrans_ctl env) (next (arr s)) (pg_subtrans s) (pg_subtrans s');
}.

(** A page could not be written to make room in a cache. *)
Definition extension_fault (e : NewXidError) : Prop :=
  match e with
  | ClogFailed e => faulty (xact_ctl env) e
  | CommitTsFailed (CommitTsIO e) => faulty (cts_ctl env) e
  | SubtransFailed e => faulty (subtrans_ctl env) e
  | _ => False
  end.

Lemma next_nonneg s : xg_ok s -> 0 <= next (arr s).
Proof. intros Hok. destruct (pk_next _ _ _ _ (xg_arr _ Hok)) as (_ & Hu & _). destruct Hu as [[] _]. done. Qed.

Lemma make_room_spec s s' r : xg_ok s -> make_room env (next (arr s)) s = (s', r) ->
  match r with
  | inr _ => made_room s s'
  | inl e => extension_fault e /\ arr s' = arr s /\ xg_ok s'
  end.
Proof.
  intros Hok. pose proof (next_nonneg s Hok) as Hx. destruct Hok as [Ha Hc Ht Hs].
  unfold make_room, pbind, on_pg_xact, on_pg_commit_ts, on_pg_subtrans.
  destruct (ExtendCLOG _ _ _) as [c r1] eqn:E1. apply ExtendCLOG_extends in E1; [|apply Hc|done].
  destruct r1 as [e|[]]; cbn [pg_xact pg_commit_ts pg_subtrans arr].
  { intros [= <- <-]. destruct E1 as [Hf Hk]. split; [done|]. split; [done|]. split; try done. by eapply keeps_ready. }
  pose proof (extended_ready _ _ _ _ _ _ _ Hc E1) as Hc'.
  destruct (ExtendCommitTs _ _ _) as [t r2] eqn:E2.
  apply ExtendCommitTs_extends in E2 as [Ft E2]; [|intros; by apply Ht|done].
  assert (commitTsActive t = commitTsActive (pg_commit_ts s)) as Hact by (by rewrite Ft).
  destruct r2 as [e|[]]; cbn [pg_xact pg_commit_ts pg_subtrans arr].
  { intros [= <- <-]. destruct (commitTsActive (pg_commit_ts s)) eqn:Hon; [|by destruct E2].
    destruct E2 as [(e' & -> & Hf) Hk]. split; [done|]. split; [done|]. split; try done. intros _. eapply keeps_ready; [by apply Ht|done]. }
  assert (commitTsActive (pg_commit_ts s) = true -> extended 819 (cts_ctl env) (next (arr s)) (cts (pg_commit_ts s)) (cts t)) as Hext.
  { intros Hon. by rewrite Hon in E2. }
  destruct (ExtendSUBTRANS _ _ _) as [u r3] eqn:E3. apply ExtendSUBTRANS_extends in E3; [|apply Hs|done].
  destruct r3 as [e|[]]; intros [= <- <-]; [|done].
  destruct E3 as [Hf Hk]. split; [done|]. split; [done|]. split; try done; [|by eapply keeps_ready].
  cbn. rewrite Hact. intros Hon. eapply extended_ready; [by apply Ht|by apply Hext].
Qed.
(** The limits that were copied before the lock was released. *)
Definition past_stop (s : XidGen) : bool :=
  let tv := TransamVariables (arr s) in
  IsUnderPostmaster env && TransactionIdFollowsOrEquals (next (arr s)) (xidVacLimit tv)
  && TransactionIdFollowsOrEquals (next (arr s)) (xidStopLimit tv).

Lemma xg_ok_ext s s' : arr s' = arr s -> pg_xact s' = pg_xact s -> pg_commit_ts s' = pg_commit_ts s ->
  pg_subtrans s' = pg_subtrans s -> xg_ok s -> xg_ok s'.
Proof. intros E1 E2 E3 E4 [H1 H2 H3 H4]. split; rewrite ?E1, ?E2, ?E3, ?E4; done. Qed.

(** Refusal comes from the limits alone, and changes nothing that matters. *)
Lemma check_xid_limits_spec s s1 r : xg_ok s -> (forall t, xg_ok t -> xg_ok (meanwhile env t)) ->
  check_xid_limits env s = (s1, r) ->
  xg_ok s1 /\
  match r with
  | inr _ => past_stop s = false
  | inl e => past_stop s = true /\ arr s1 = arr s /\ pg_xact s1 = pg_xact s /\
      pg_commit_ts s1 = pg_commit_ts s /\ pg_subtrans s1 = pg_subtrans s /\
      e = PastStopLimit (oldestXidDB (TransamVariables (arr s))) (get_database_name env (oldestXidDB (TransamVariables (arr s))))
  end.
Proof.
  intros Hok Hmean. unfold check_xid_limits, past_stop, next.
  set (x := XidFromFullTransactionId _). destruct (TransactionIdFollowsOrEquals x (xidVacLimit _)) eqn:Hv.
  2: { intros [= <- <-]. by rewrite andb_false_r. }
  destruct (TransactionIdFollowsOrEquals x (xidStopLimit (TransamVariables (arr s)))),
    (TransactionIdFollowsOrEquals x (xidWarnLimit (TransamVariables (arr s)))),
    (IsUnderPostmaster env), (x mod 65536 =? 0); cbn [andb]; intros [= <- <-];
    (split; [|done]); try apply Hmean; by apply (xg_ok_ext s).
Qed.

(** The entry of [y] in each of the logs. *)
Definition same_entries (s s' : XidGen) (y : Z) : Prop :=
  xid_status (xact (pg_xact s')) y = xid_status (xact (pg_xact s)) y /\
  (commitTsActive (pg_commit_ts s) = true -> cts_entry (pg_commit_ts s') y = cts_entry (pg_commit_ts s) y) /\
  subtrans_parent (pg_subtrans s') y = subtrans_parent (pg_subtrans s) y.

Definition no_entries (s : XidGen) (x : Z) : Prop :=
  xid_status (xact (pg_xact s)) x = TRANSACTION_STATUS_IN_PROGRESS /\
  (commitTsActive (pg_commit_ts s) = true ->
     cts_entry (pg_commit_ts s) x = MkCommitTimestampEntry 0 InvalidRepOriginId) /\
  subtrans_parent (pg_subtrans s) x = InvalidTransactionId.

Lemma made_room_entries s s' : xg_ok s -> made_room s s' ->
  no_entries s' (next (arr s)) /\ forall y, assigned lo (arr s) y -> same_entries s s' y.
Proof.
  intros [Ha Hc Ht Hs] [_ Hact Mc Mt Ms]. destruct (pk_next _ _ _ _ Ha) as (_ & Hu & _).
  split; [split_and!|intros y [Hy Hr]; split_and!].
  - apply (extended_blank lo 32768 _ clog_blank page_get_zero _ _ _ Hc Mc); done.
  - rewrite Hact. intros Hon. apply (extended_blank lo 819 _ cts_blank cts_blank_zero _ _ _ (Ht Hon) (Mt Hon)); done.
  - apply (extended_blank lo 2048 _ subtrans_blank subtrans_blank_zero _ _ _ Hs Ms); done.
  - exact (f_equal (fun pg => page_get pg y) (extended_assigned lo 32768 ltac:(auto) _ _ _ _ _ Hu Hy Hr Mc)).
  - intros Hon. exact (f_equal (fun pg => read_ts pg y) (extended_assigned lo 819 ltac:(auto) _ _ _ _ _ Hu Hy Hr (Mt Hon))).
  - exact (f_equal (fun pg => read_entry pg (Subtrans.TransactionIdToEntry y)) (extended_assigned lo 2048 ltac:(auto) _ _ _ _ _ Hu Hy Hr Ms)).
Qed.

Section advertise.
Context (isSub : bool) (off : nat) (p : PGPROC) (s s' : XidGen) (Hok : xg_ok s) (Hroom : made_room s s').
Context (Hp : procs (arr s) !! off = Some p) (Hv : TransactionIdIsValid (proc_xid p) = isSub).
Context (Ht : topmost (next (arr s)) = if isSub then proc_xid p else next (arr s)) (Hr : room lo (arr s)).

Abbreviation pa' := (advertise_xid isSub off (next (arr s)) (arr s)).

Lemma advertise_step : pa_step lo topmost (aborted, arr s) (aborted, pa').
Proof. destruct isSub; [eapply step_assign_sub|eapply step_assign_top]; done. Qed.

Lemma advertise_assigned y : assigned lo pa' y <-> assigned lo (arr s) y \/ y = next (arr s).
Proof.
  pose proof (xg_arr _ Hok) as Ha. destruct (pk_next _ _ _ _ Ha) as (_ & Hu & _).
  destruct (next_bounds lo topmost aborted isSub (arr s) off Ha Hr) as (_ & _ & _ & Hb). unfold assigned. split.
  - intros [Hy Hlt]. apply Hb in Hlt; [|done]. destruct (decide (y = next (arr s))) as [|Hne]; [by right|left].
    split; [done|]. assert (xid_rank lo y <> xid_rank lo (next (arr s))); [|lia].
    intros E. apply Hne, (rank_inj lo); [apply Hy|apply Hu|done].
  - intros [[Hy Hlt]| ->]; (split; [done|]); apply Hb; (done || lia).
Qed.

Lemma advertise_ok : xg_ok (set_arr s' pa').
Proof.
  pose proof (xg_arr _ Hok) as Ha. destruct (pk_next _ _ _ _ Ha) as (Hn & Hu & _).
  assert (next pa' = TransactionIdAdvance (next (arr s))) as En by (apply (advance_xid _ Hn), Hr).
  pose proof (fun y => proj1 (advertise_assigned y)) as Hass.
  destruct Hok as [_ Hc Hts Hs]. destruct Hroom as [_ Hact Mc Mt Ms]. split; cbn.
  - by apply (step_ok lo topmost Htop (aborted, arr s) (aborted, pa') Ha advertise_step).
  - by apply (assigned_ready lo 32768 ltac:(auto) _ _ page_get_zero _ _ _ _ Hc Mc).
  - rewrite Hact. intros Hon. by apply (assigned_ready lo 819 ltac:(auto) _ _ cts_blank_zero _ _ _ _ (Hts Hon) (Mt Hon)).
  - by apply (assigned_ready lo 2048 ltac:(auto) _ _ subtrans_blank_zero _ _ _ _ Hs Ms).
Qed.
End advertise.
End assign.

(** After the guards, nothing refuses for the sake of the limits. *)
Lemma assign_never_refuses env isSub off db name t :
  (assign_next_xid env isSub off t).2 <> inl (PastStopLimit db name).
Proof.
  unfold assign_next_xid, make_room, on_pg_xact, on_pg_commit_ts, on_pg_subtrans, pbind, pget, pmod, pret. repeat case_match; naive_solver.
Qed.

(** ** Theorems *)

(** C19. [GetNewTransactionId] hands out the id that the counter shows once it
    holds the lock, an id that was not assigned before and is afterwards; this
    is a step of the array of running transactions.  Each of the three logs has
    a page for the id and nothing recorded for it, although pages are made only
    where an id opens one, and no entry of an id assigned earlier is lost.  On
    every error, counter and array are as they were and the invariant holds, so
    that the next caller can try again. *)
Theorem new_xid_assigned env lo topmost aborted isSub off p s :
  topmost_ok lo topmost -> xg_ok env lo topmost aborted s ->
  (forall t, xg_ok env lo topmost aborted t -> xg_ok env lo topmost aborted (meanwhile env t)) ->
  IsBootstrapProcessingMode env = false ->
  let s1 := (check_xid_limits env s).1 in
  let x := next (arr s1) in
  procs (arr s1) !! off = Some p -> TransactionIdIsValid (proc_xid p) = isSub ->
  topmost x = (if isSub then proc_xid p else x) -> room lo (arr s1) ->
  let '(s', r) := GetNewTransactionId env isSub off s in
  xg_ok env lo topmost aborted s' /\
  match r with
  | inr full =>
      full = nextXid (TransamVariables (arr s1)) /\ past_stop env s = false /\
      pa_step lo topmost (aborted, arr s1) (aborted, arr s') /\
      (forall y, assigned lo (arr s') y <-> assigned lo (arr s1) y \/ y = x) /\ ~ assigned lo (arr s1) x /\
      no_entries s' x /\ (forall y, assigned lo (arr s1) y -> same_entries s1 s' y)
  | inl ParallelOperation => IsInParallelMode env = true /\ s' = s
  | inl DuringRecovery => RecoveryInProgress (arr s) = true /\ s' = s
  | inl (PastStopLimit _ _) => past_stop env s = true /\ arr s' = arr s
  | inl e => extension_fault env e /\ arr s' = arr s1
  end.
Proof.
  intros Htop Hok Hmean Hboot s1 x Hp Hv Ht Hr. unfold GetNewTransactionId. rewrite Hboot.
  destruct (IsInParallelMode env); [done|]. destruct (RecoveryInProgress (arr s)); [done|].
  unfold pbind at 1. destruct (check_xid_limits env s) as [t r0] eqn:E0. cbn in s1. subst s1.
  apply (check_xid_limits_spec env lo topmost aborted) in E0 as [Hok1 Hlim]; [|done..].
  destruct r0 as [e|[]]; [destruct Hlim as (Hps & Ha & _ & _ & _ & ->); done|].
  unfold assign_next_xid, pbind, pget, pmod, pret. change (XidFromFullTransactionId _) with (next (arr t)).
  destruct (make_room env (next (arr t)) t) as [s2 r2] eqn:E2.
  apply (make_room_spec env lo topmost aborted) in E2; [|done]. destruct r2 as [e|[]].
  { destruct E2 as (Hf & Ha & Hok2). split; [done|]. by destruct e. }
  destruct (made_room_entries env lo topmost aborted t s2 Hok1 E2) as [Hno Hsame].
  pose proof (mr_arr _ _ _ E2) as Ea. rewrite Ea.
  pose proof (advertise_assigned env lo topmost aborted isSub off t Hok1 Hr) as Hass.
  split; [by apply (advertise_ok env lo topmost Htop aborted isSub off p t s2)|].
  split_and!; try done; [by apply (advertise_step lo topmost aborted isSub off p t)|].
  intros [_ Hlt]. unfold x in Hlt. lia.
Qed.

(** The array of [SnapshotTheorems], with limits, and three logs of zeroed pages. *)
Definition demo_limits : ProcArrayStruct :=
  set_transam demo_pa (set_limits demo_tv 3 200000003 2107483650 2144483650 2147483650 5).
Definition demo_env : XidEnv :=
  MkXidEnv false false true (fun _ => None) (fun s => s) demo_xact_ctl demo_cts_ctl demo_subtrans_ctl.
Definition demo_gen : XidGen := MkXidGen demo_limits demo_clog demo_cts demo_subtrans 0 [].

Lemma demo_ready N ctl blank st : N = 32768 \/ N = 2048 \/ N = 819 -> (forall y, blank zero_page y) ->
  slru_wf ctl st -> present st 0 -> page_of st 0 = zero_page -> ready 3 N ctl blank st demo_limits.
Proof.
  intros HN Hz Hok Hp Hpg. change (next demo_limits) with 16. assert (16 / N = 0) as E by (destruct HN as [->|[->| ->]]; done).
  split; [done| |].
  - intros y [Hy Hr]. change (xid_rank 3 (next demo_limits)) with 13 in Hr. pose proof (rank_lt_bound y Hy Hr).
    rewrite Z.div_small; [done|]. destruct HN as [->|[->| ->]]; lia.
  - intros _. change (next demo_limits) with 16. rewrite E. split; [done|]. intros y Hy _. unfold entry_blank. by rewrite Hy, Hpg.
Qed.

Lemma demo_gen_ok : xg_ok demo_env 3 demo_top no_aborts demo_gen.
Proof.
  split.
  - destruct demo_pa_ok. by split.
  - apply demo_ready; [auto|apply page_get_zero|apply demo_clog_ok|by eexists|by vm_compute].
  - intros _. apply demo_ready; [auto|apply cts_blank_zero|apply demo_cts_ok|by eexists|by vm_compute].
  - apply demo_ready; [auto|apply subtrans_blank_zero|apply demo_subtrans_ok|by eexists|by vm_compute].
Qed.

Lemma new_xid_assigned_witness :
  let '(s', r) := GetNewTransactionId demo_env false 0 demo_gen in
  xg_ok demo_env 3 demo_top no_aborts s' /\ r = inr (MkFullTransactionId 16) /\ no_entries s' 16.
Proof.
  pose proof (new_xid_assigned demo_env 3 demo_top no_aborts false 0 (MkPGPROC 0 100 0 0 [] false 0 5) demo_gen
    demo_topmost_ok demo_gen_ok (fun t H => H) eq_refl eq_refl eq_refl eq_refl ltac:(split; by vm_compute)) as H.
  assert ((GetNewTransactionId demo_env false 0 demo_gen).2 = inr (MkFullTransactionId 16)) as Hr by (vm_compute; reflexivity).
  destruct (GetNewTransactionId demo_env false 0 demo_gen) as [s' r]. cbn [snd] in Hr. subst r.
  destruct H as (Hok & _ & _ & _ & _ & _ & Hno & _). exact (conj Hok (conj eq_refl Hno)).
Defined.

(** Transaction ids are refused exactly when the server runs under a
    postmaster, both the vacuum and the stop limit are reached, and none of the
    modes that decide before applies.  The refusal names the database that
    holds the oldest id, and changes neither the array nor any log. *)
Theorem new_xid_refused env isSub off s db name :
  let '(s', r) := GetNewTransactionId env isSub off s in
  (r = inl (PastStopLimit db name) <->
   IsInParallelMode env = false /\ IsBootstrapProcessingMode env = false /\ RecoveryInProgress (arr s) = false /\
   past_stop env s = true /\ db = oldestXidDB (TransamVariables (arr s)) /\ name = get_database_name env db) /\
  (r = inl (PastStopLimit db name) ->
   arr s' = arr s /\ pg_xact s' = pg_xact s /\ pg_commit_ts s' = pg_commit_ts s /\ pg_subtrans s' = pg_subtrans s).
Proof.
  unfold GetNewTransactionId, past_stop. destruct (IsInParallelMode env); [split; [split; [done|by intros []]|done]|].
  destruct (IsBootstrapProcessingMode env); [split; [split; [done|by intros (_ & ? & _)]|done]|].
  destruct (RecoveryInProgress (arr s)); [split; [split; [done|by intros (_ & _ & ? & _)]|done]|].
  unfold pbind at 1, check_xid_limits, next. set (tv := TransamVariables (arr s)).
  set (x := XidFromFullTransactionId (nextXid tv)).
  pose proof (assign_never_refuses env isSub off db name) as Hnot. set (k := assign_next_xid env isSub off) in *.
  destruct (TransactionIdFollowsOrEquals x (xidVacLimit tv)).
  2: { specialize (Hnot s). destruct (k s) as [s' r]. rewrite andb_false_r. naive_solver. }
  destruct (IsUnderPostmaster env), (TransactionIdFollowsOrEquals x (xidStopLimit tv)); cbn [andb];
    try (match goal with |- context [k ?t] => specialize (Hnot t); destruct (k t) as [s' r] end; naive_solver).
  destruct (x mod 65536 =? 0); naive_solver.
Qed.
