(* ===== verification/Transam.v ===== *)
(** * Transaction status

    [src/backend/access/transam/transam.c]: whether a transaction committed or
    aborted, from the commit log, the subtransaction log and a cache of one
    entry, and the functions that record the fate of a transaction tree.  The
    state is both logs and the backend-local cache. *)

From S2P Require Import Prelude.
From S2P Require Import TransactionId.
From S2P Require Import Slru.
From S2P Require Import XidPages.
From S2P Require Import Clog.
From S2P Require Import Subtrans.

Record Transam := MkTransam {
  clog : Clog;
  subtrans : Slru;
  cachedFetchXid : Z;
  cachedFetchXidStatus : Z;
  cachedCommitLSN : Z;
}.

Definition set_clog (t : Transam) (c : Clog) : Transam :=
  MkTransam c (subtrans t) (cachedFetchXid t) (cachedFetchXidStatus t) (cachedCommitLSN t).
Definition set_subtrans (t : Transam) (s : Slru) : Transam :=
  MkTransam (clog t) s (cachedFetchXid t) (cachedFetchXidStatus t) (cachedCommitLSN t).
Definition set_cache (t : Transam) (xid status lsn : Z) : Transam :=
  MkTransam (clog t) (subtrans t) xid status lsn.

Definition on_clog {A} (m : prog Clog SlruError A) : prog Transam SlruError A :=
  fun t => let '(c, r) := m (clog t) in (set_clog t c, r).
Definition on_subtrans {A} (m : prog Slru SlruError A) : prog Transam SlruError A :=
  fun t => let '(s, r) := m (subtrans t) in (set_subtrans t s, r).

(** The control structures of the two logs. *)
Record TransamCtl := MkTransamCtl { xact_ctl : SlruCtl; subtrans_ctl : SlruCtl }.

Definition TransactionLogFetch (ctl : TransamCtl) (transactionId : Z) : prog Transam SlruError Z :=
  fun t =>
  if TransactionIdEquals transactionId (cachedFetchXid t) then (t, inr (cachedFetchXidStatus t))
  else if negb (TransactionIdIsNormal transactionId) then
    if TransactionIdEquals transactionId BootstrapTransactionId then (t, inr TRANSACTION_STATUS_COMMITTED)
    else if TransactionIdEquals transactionId FrozenTransactionId then (t, inr TRANSACTION_STATUS_COMMITTED)
    else (t, inr TRANSACTION_STATUS_ABORTED)
  else
    match on_clog (TransactionIdGetStatus (xact_ctl ctl) transactionId) t with
    | (t, inl e) => (t, inl e)
    | (t, inr (xidstatus, xidlsn)) =>
        if negb (xidstatus =? TRANSACTION_STATUS_IN_PROGRESS)
           && negb (xidstatus =? TRANSACTION_STATUS_SUB_COMMITTED)
        then (set_cache t transactionId xidstatus xidlsn, inr xidstatus)
        else (t, inr xidstatus)
    end.

Fixpoint DidCommit_rec (fuel : nat) (ctl : TransamCtl) (TransactionXmin transactionId : Z)
  : prog Transam SlruError bool :=
  match fuel with
  | O => preturn SlruOutOfFuel
  | S fuel =>
      (xidstatus <- TransactionLogFetch ctl transactionId ;;
       if xidstatus =? TRANSACTION_STATUS_COMMITTED then pret true
       else if xidstatus =? TRANSACTION_STATUS_SUB_COMMITTED then
         if TransactionIdPrecedes transactionId TransactionXmin then pret false
         else
           (parentXid <- on_subtrans (SubTransGetParent (subtrans_ctl ctl) transactionId) ;;
            if negb (TransactionIdIsValid parentXid) then pret false
            else DidCommit_rec fuel ctl TransactionXmin parentXid)
       else pret false)%prog
  end.

(** Each recursion is on a parent closer to [TransactionXmin]. *)
Definition recursion_fuel (TransactionXmin xid : Z) : nat := S (S (Z.to_nat (off TransactionXmin xid))).

Definition TransactionIdDidCommit (ctl : TransamCtl) (TransactionXmin transactionId : Z)
  : prog Transam SlruError bool :=
  DidCommit_rec (recursion_fuel TransactionXmin transactionId) ctl TransactionXmin transactionId.

Fixpoint DidAbort_rec (fuel : nat) (ctl : TransamCtl) (TransactionXmin transactionId : Z)
  : prog Transam SlruError bool :=
  match fuel with
  | O => preturn SlruOutOfFuel
  | S fuel =>
      (xidstatus <- TransactionLogFetch ctl transactionId ;;
       if xidstatus =? TRANSACTION_STATUS_ABORTED then pret true
       else if xidstatus =? TRANSACTION_STATUS_SUB_COMMITTED then
         if TransactionIdPrecedes transactionId TransactionXmin then pret true
         else
           (parentXid <- on_subtrans (SubTransGetParent (subtrans_ctl ctl) transactionId) ;;
            if negb (TransactionIdIsValid parentXid) then pret true
            else DidAbort_rec fuel ctl TransactionXmin parentXid)
       else pret false)%prog
  end.

Definition TransactionIdDidAbort (ctl : TransamCtl) (TransactionXmin transactionId : Z)
  : prog Transam SlruError bool :=
  DidAbort_rec (recursion_fuel TransactionXmin transactionId) ctl TransactionXmin transactionId.

Definition TransactionIdCommitTree (ctl : TransamCtl) (my : MyProcXids) (cont : Contention)
    (xid : Z) (xids : list Z) : prog Transam SlruError unit :=
  on_clog (TransactionIdSetTreeStatus (xact_ctl ctl) my cont xid xids TRANSACTION_STATUS_COMMITTED 0).

Definition TransactionIdAsyncCommitTree (ctl : TransamCtl) (my : MyProcXids) (cont : Contention)
    (xid : Z) (xids : list Z) (lsn : Z) : prog Transam SlruError unit :=
  on_clog (TransactionIdSetTreeStatus (xact_ctl ctl) my cont xid xids TRANSACTION_STATUS_COMMITTED lsn).

Definition TransactionIdAbortTree (ctl : TransamCtl) (my : MyProcXids) (cont : Contention)
    (xid : Z) (xids : list Z) : prog Transam SlruError unit :=
  on_clog (TransactionIdSetTreeStatus (xact_ctl ctl) my cont xid xids TRANSACTION_STATUS_ABORTED 0).

Definition TransactionIdGetCommitLSN (ctl : TransamCtl) (xid : Z) : prog Transam SlruError Z :=
  fun t =>
  if TransactionIdEquals xid (cachedFetchXid t) then (t, inr (cachedCommitLSN t))
  else if negb (TransactionIdIsNormal xid) then (t, inr 0)
  else
    match on_clog (TransactionIdGetStatus (xact_ctl ctl) xid) t with
    | (t, inl e) => (t, inl e)
    | (t, inr (_, result)) => (t, inr result)
    end.

(** ** The meaning of the logs *)

(** The status the functions go by: permanent ids have a fixed one. *)
Definition fetch_status (f : Z -> Z) (xid : Z) : Z :=
  if TransactionIdIsNormal xid then f xid
  else if (xid =? BootstrapTransactionId) || (xid =? FrozenTransactionId)
  then TRANSACTION_STATUS_COMMITTED else TRANSACTION_STATUS_ABORTED.

Section meaning.
Context (f : Z -> Z) (parent : Z -> Z) (xmin : Z).

(** A transaction committed when it is marked so, or when it is a finished
    subtransaction, recent enough to look up, of a committed parent. *)
Inductive did_commit : Z -> Prop :=
| did_commit_top x : fetch_status f x = TRANSACTION_STATUS_COMMITTED -> did_commit x
| did_commit_sub x :
    fetch_status f x = TRANSACTION_STATUS_SUB_COMMITTED -> TransactionIdPrecedes x xmin = false ->
    TransactionIdIsValid (parent x) = true -> did_commit (parent x) -> did_commit x.

Inductive did_abort : Z -> Prop :=
| did_abort_top x : fetch_status f x = TRANSACTION_STATUS_ABORTED -> did_abort x
| did_abort_orphan x :
    fetch_status f x = TRANSACTION_STATUS_SUB_COMMITTED ->
    TransactionIdPrecedes x xmin = true \/ TransactionIdIsValid (parent x) = false -> did_abort x
| did_abort_sub x :
    fetch_status f x = TRANSACTION_STATUS_SUB_COMMITTED -> TransactionIdPrecedes x xmin = false ->
    TransactionIdIsValid (parent x) = true -> did_abort (parent x) -> did_abort x.

Lemma commit_abort_exclusive x : did_commit x -> did_abort x -> False.
Proof.
  induction 1 as [x Hx|x Hx Hp Hv Hc IH]; intros Ha; inversion Ha as [y Hy|y Hy Ho|y Hy Hp' Hv' Ha']; subst; rewrite Hx in Hy; try done.
  destruct Ho; congruence.
Qed.
End meaning.

Create HintDb transam discriminated.
#[export] Hint Constructors did_commit did_abort : transam.

(** The cache remembers only final statuses, and the right ones. *)
Definition cache_ok (t : Transam) : Prop :=
  cachedFetchXid t = InvalidTransactionId \/
  TransactionIdIsNormal (cachedFetchXid t) = true /\
  cachedFetchXidStatus t = xid_status (xact (clog t)) (cachedFetchXid t) /\
  (cachedFetchXidStatus t = TRANSACTION_STATUS_COMMITTED \/ cachedFetchXidStatus t = TRANSACTION_STATUS_ABORTED).

Record transam_ok (ctl : TransamCtl) (t : Transam) : Prop := {
  t_clog : slru_wf (xact_ctl ctl) (xact (clog t));
  t_subtrans : slru_wf (subtrans_ctl ctl) (subtrans t);
  t_cache : cache_ok t;
}.

Definition statuses (t : Transam) : Z -> Z := xid_status (xact (clog t)).
Definition parents (t : Transam) : Z -> Z := subtrans_parent (subtrans t).

(** Lookups leave both logs as they were. *)
Record looked (ctl : TransamCtl) (t t' : Transam) : Prop := {
  looked_ok : transam_ok ctl t';
  looked_status : forall x, statuses t' x = statuses t x;
  looked_parent : forall x, parents t' x = parents t x;
}.

Lemma looked_refl ctl t : transam_ok ctl t -> looked ctl t t.
Proof. by split. Qed.

Lemma looked_trans ctl t1 t2 t3 : looked ctl t1 t2 -> looked ctl t2 t3 -> looked ctl t1 t3.
Proof. intros [] []. split; [done|congruence..]. Qed.

Lemma LogFetch_spec ctl x t t' r :
  transam_ok ctl t -> 0 <= x -> (x = InvalidTransactionId -> cachedFetchXid t <> InvalidTransactionId) ->
  TransactionLogFetch ctl x t = (t', r) ->
  looked ctl t t' /\
  match r with
  | inr status => status = fetch_status (statuses t) x
  | inl e => io_error e
  end.
Proof.
  intros Hok Hx Hx0. pose proof Hok as [Hc Hs Hcache]. unfold TransactionLogFetch, TransactionIdEquals.
  destruct (Z.eqb_spec x (cachedFetchXid t)) as [->|Hne].
  { intros [= <- <-]. split; [by apply looked_refl|]. destruct Hcache as [E|(Hn & E & _)]; [tauto|].
    unfold fetch_status, statuses. by rewrite Hn. }
  unfold fetch_status. destruct (TransactionIdIsNormal x) eqn:Hn; simpl.
  2:{ destruct (x =? BootstrapTransactionId), (x =? FrozenTransactionId); intros [= <- <-];
      (split; [by apply looked_refl|done]). }
  unfold on_clog. destruct (TransactionIdGetStatus _ _ _) as [c [e|[status lsn]]] eqn:E;
    apply GetStatus_spec in E as (Hk & _ & _ & Hr); try done;
    assert (forall y, xid_status (xact c) y = xid_status (xact (clog t)) y) as Hsame by (intros; apply view_status, Hk);
    pose proof (keeps_wf _ _ _ Hk Hc) as Hc'.
  { intros [= <- <-]. split; [|done]. split; [split|apply Hsame|done]; try done.
    destruct Hcache as [?|(? & ? & ?)]; [by left|right]. simpl. by rewrite Hsame. }
  destruct (_ && _) eqn:Hfinal; intros [= <- <-]; (split; [|done]); (split; [split|apply Hsame|done]); try done.
  - right. simpl. rewrite Hsame. split_and!; [done..|].
    pose proof (xid_status_range (xact (clog t)) x) as Hrange. rewrite <- Hr in Hrange.
    unfold is_status, TRANSACTION_STATUS_IN_PROGRESS, TRANSACTION_STATUS_SUB_COMMITTED,
      TRANSACTION_STATUS_COMMITTED, TRANSACTION_STATUS_ABORTED in *. lia.
  - destruct Hcache as [?|(? & ? & ?)]; [by left|right]. simpl. by rewrite Hsame.
Qed.

Lemma fetch_status_ext f f' x : (forall y, f y = f' y) -> fetch_status f x = fetch_status f' x.
Proof. intros H. unfold fetch_status. by rewrite H. Qed.

Lemma did_commit_ext f f' p p' xmin x :
  (forall y, f y = f' y) -> (forall y, p y = p' y) -> did_commit f p xmin x -> did_commit f' p' xmin x.
Proof.
  intros Hf Hp. induction 1 as [x Hx|x Hx Hxm Hv Hc IH];
    rewrite (fetch_status_ext f f') in Hx by done; rewrite ?Hp in *; eauto with transam.
Qed.

Lemma did_abort_ext f f' p p' xmin x :
  (forall y, f y = f' y) -> (forall y, p y = p' y) -> did_abort f p xmin x -> did_abort f' p' xmin x.
Proof.
  intros Hf Hp. induction 1 as [x Hx|x Hx Ho|x Hx Hxm Hv Hc IH];
    rewrite (fetch_status_ext f f') in Hx by done; rewrite ?Hp in *; eauto with transam.
Qed.

Section lookups.
Context (ctl : TransamCtl) (xmin : Z).
Context (Hxmin : is_u32 xmin) (Hxnormal : TransactionIdIsNormal xmin = true).

(** Parents are assigned before their children. *)
Definition parents_ok (t : Transam) : Prop :=
  forall x, is_u32 x -> TransactionIdIsValid x = true -> TransactionIdIsValid (parents t x) = true ->
  TransactionIdPrecedes (parents t x) x = true.

Lemma parents_ok_looked t t' : looked ctl t t' -> parents_ok t -> parents_ok t'.
Proof. intros Hl H x. rewrite (looked_parent _ _ _ Hl). apply H. Qed.

(** The next step of the recursion has fuel left. *)
Definition enough (x : Z) (fuel : nat) : Prop :=
  (1 <= fuel)%nat /\ (TransactionIdPrecedes x xmin = false -> off xmin x + 1 < Z.of_nat fuel).

Lemma enough_parent t x fuel :
  transam_ok ctl t -> parents_ok t -> is_u32 x -> TransactionIdIsValid x = true ->
  TransactionIdPrecedes x xmin = false -> TransactionIdIsValid (parents t x) = true ->
  enough x (S fuel) -> is_u32 (parents t x) /\ enough (parents t x) fuel.
Proof.
  intros Hok Hpar Hx Hxv Hxp Hpv [_ He]. specialize (He Hxp).
  assert (is_u32 (parents t x)) as Hpu.
  { apply (subtrans_parent_range (subtrans_ctl ctl)); [apply Hok|unfold is_u32 in Hx; lia]. }
  split; [done|]. assert (0 <= off xmin x) by (unfold off; cint). split; [lia|]. intros Hpp.
  pose proof (off_decreases xmin x (parents t x) Hxmin Hx Hpu Hxnormal Hxv Hpv Hxp Hpp (Hpar x Hx Hxv Hpv)). lia.
Qed.

Lemma sub_committed_normal g x :
  fetch_status g x = TRANSACTION_STATUS_SUB_COMMITTED -> TransactionIdIsNormal x = true.
Proof. unfold fetch_status. destruct (TransactionIdIsNormal x); [done|]. by destruct (_ || _). Qed.

Lemma GetParent_looked t t' x r :
  transam_ok ctl t -> is_u32 x -> TransactionIdIsNormal x = true ->
  on_subtrans (SubTransGetParent (subtrans_ctl ctl) x) t = (t', r) ->
  looked ctl t t' /\ match r with inr p => p = parents t x | inl e => io_error e end.
Proof.
  intros Hok Hx Hn. unfold on_subtrans. destruct (SubTransGetParent _ _ _) as [s r1] eqn:E.
  apply GetParent_spec in E as [Hk Hr]; [|apply Hok|unfold is_u32 in Hx; lia].
  intros [= <- <-]. rewrite Hn in Hr. split; [|by destruct r1].
  destruct Hok. split; [split|done|intros y; apply view_parent, Hk]; try done. by eapply keeps_wf.
Qed.

Lemma DidCommit_rec_spec fuel : forall x t t' r,
  transam_ok ctl t -> parents_ok t -> is_u32 x -> TransactionIdIsValid x = true -> enough x fuel ->
  DidCommit_rec fuel ctl xmin x t = (t', r) ->
  looked ctl t t' /\
  match r with
  | inr b => b = true <-> did_commit (statuses t) (parents t) xmin x
  | inl e => io_error e
  end.
Proof.
  induction fuel as [|fuel IH]; intros x t t' r Hok Hpar Hx Hxv He; [destruct He; lia|].
  cbn [DidCommit_rec]. unfold pbind at 1.
  destruct (TransactionLogFetch ctl x t) as [t1 [e|status]] eqn:Ef;
    apply LogFetch_spec in Ef as [Hl1 Hs]; try (done || (unfold is_u32 in Hx; lia) || (intros ->; done)).
  { by intros [= <- <-]. }
  destruct (Z.eqb_spec status TRANSACTION_STATUS_COMMITTED) as [Ec|Ec].
  { intros [= <- <-]. split; [done|]. split; [|done]. intros _. apply did_commit_top. congruence. }
  destruct (Z.eqb_spec status TRANSACTION_STATUS_SUB_COMMITTED) as [Es|Es].
  2:{ intros [= <- <-]. split; [done|]. split; [done|]. intros Hd. inversion Hd; congruence. }
  destruct (TransactionIdPrecedes x xmin) eqn:Hxp.
  { intros [= <- <-]. split; [done|]. split; [done|]. intros Hd. inversion Hd; congruence. }
  pose proof (sub_committed_normal (statuses t) x) as Hn. rewrite <- Hs, Es in Hn. specialize (Hn eq_refl).
  unfold pbind. destruct (on_subtrans _ t1) as [t2 [e|p]] eqn:Eg;
    apply GetParent_looked in Eg as [Hl2 Hp]; try (done || apply Hl1);
    pose proof (looked_trans _ _ _ _ Hl1 Hl2) as Hl12.
  { by intros [= <- <-]. }
  rewrite (looked_parent _ _ _ Hl1) in Hp. destruct (TransactionIdIsValid p) eqn:Hpv; simpl.
  2:{ intros [= <- <-]. split; [done|]. split; [done|]. intros Hd. inversion Hd; congruence. }
  subst p. destruct (enough_parent t x fuel) as [Hpu Hpe]; try done.
  intros Hrec. apply IH in Hrec as [Hl3 Hr]; try done; [|apply Hl2|by eapply parents_ok_looked].
  split; [by eapply looked_trans|]. destruct r as [e|b]; [done|]. rewrite Hr. split; intros Hd.
  - apply did_commit_sub; [congruence|done|done|].
    eapply did_commit_ext; [| |exact Hd]; intros y; [apply (looked_status _ _ _ Hl12)|apply (looked_parent _ _ _ Hl12)].
  - inversion Hd as [y Hy|y Hy Hyp Hyv Hyc]; subst; [congruence|].
    eapply did_commit_ext; [| |exact Hyc]; intros y; symmetry; [apply (looked_status _ _ _ Hl12)|apply (looked_parent _ _ _ Hl12)].
Qed.

Lemma DidAbort_rec_spec fuel : forall x t t' r,
  transam_ok ctl t -> parents_ok t -> is_u32 x -> TransactionIdIsValid x = true -> enough x fuel ->
  DidAbort_rec fuel ctl xmin x t = (t', r) ->
  looked ctl t t' /\
  match r with
  | inr b => b = true <-> did_abort (statuses t) (parents t) xmin x
  | inl e => io_error e
  end.
Proof.
  induction fuel as [|fuel IH]; intros x t t' r Hok Hpar Hx Hxv He; [destruct He; lia|].
  cbn [DidAbort_rec]. unfold pbind at 1.
  destruct (TransactionLogFetch ctl x t) as [t1 [e|status]] eqn:Ef;
    apply LogFetch_spec in Ef as [Hl1 Hs]; try (done || (unfold is_u32 in Hx; lia) || (intros ->; done)).
  { by intros [= <- <-]. }
  destruct (Z.eqb_spec status TRANSACTION_STATUS_ABORTED) as [Ec|Ec].
  { intros [= <- <-]. split; [done|]. split; [|done]. intros _. apply did_abort_top. congruence. }
  destruct (Z.eqb_spec status TRANSACTION_STATUS_SUB_COMMITTED) as [Es|Es].
  2:{ intros [= <- <-]. split; [done|]. split; [done|]. intros Hd. inversion Hd; congruence. }
  assert (fetch_status (statuses t) x = TRANSACTION_STATUS_SUB_COMMITTED) as Hsub by congruence.
  destruct (TransactionIdPrecedes x xmin) eqn:Hxp.
  { intros [= <- <-]. split; [done|]. split; [|done]. intros _. apply did_abort_orphan; auto. }
  pose proof (sub_committed_normal (statuses t) x Hsub) as Hn.
  unfold pbind. destruct (on_subtrans _ t1) as [t2 [e|p]] eqn:Eg;
    apply GetParent_looked in Eg as [Hl2 Hp]; try (done || apply Hl1);
    pose proof (looked_trans _ _ _ _ Hl1 Hl2) as Hl12.
  { by intros [= <- <-]. }
  rewrite (looked_parent _ _ _ Hl1) in Hp. subst p. destruct (TransactionIdIsValid (parents t x)) eqn:Hpv; simpl.
  2:{ intros [= <- <-]. split; [done|]. split; [|done]. intros _. apply did_abort_orphan; auto. }
  destruct (enough_parent t x fuel) as [Hpu Hpe]; try done.
  intros Hrec. apply IH in Hrec as [Hl3 Hr]; try done; [|apply Hl2|by eapply parents_ok_looked].
  split; [by eapply looked_trans|]. destruct r as [e|b]; [done|]. rewrite Hr. split; intros Hd.
  - apply did_abort_sub; [congruence|done|done|].
    eapply did_abort_ext; [| |exact Hd]; intros y; [apply (looked_status _ _ _ Hl12)|apply (looked_parent _ _ _ Hl12)].
  - inversion Hd as [y Hy|y Hy Ho|y Hy Hyp Hyv Hyc]; subst; [congruence|destruct Ho; congruence|].
    eapply did_abort_ext; [| |exact Hyc]; intros y; symmetry; [apply (looked_status _ _ _ Hl12)|apply (looked_parent _ _ _ Hl12)].
Qed.

Lemma enough_fuel x : enough x (recursion_fuel xmin x).
Proof.
  unfold enough, recursion_fuel. assert (0 <= off xmin x) by (unfold off; cint). split; [lia|]. intros _. lia.
Qed.
End lookups.

(** ** Atomicity seen through lookups *)

Section onlookers.
Context (parent : Z -> Z) (xmin xid : Z) (subxids : list Z) (f : Z -> Z).

(** The tree is wholly recent: its members do not precede the horizon, and the
    chain of parents leads from each to the top. *)
Record recent_tree : Prop := {
  tree_normal : forall x, x ∈ xid :: subxids -> TransactionIdIsNormal x = true;
  tree_recent : forall x, x ∈ xid :: subxids -> TransactionIdPrecedes x xmin = false;
  tree_up : forall x, x ∈ subxids -> chain parent x xid;
  tree_closed : forall x, x ∈ subxids -> parent x ∈ xid :: subxids;
}.

Context (Htree : recent_tree) (Hatomic : tree_atomic xid subxids f).
Context (Htop : f xid <> TRANSACTION_STATUS_SUB_COMMITTED).

Lemma tree_fetch x : x ∈ xid :: subxids -> fetch_status f x = f x.
Proof. intros Hx. unfold fetch_status. by rewrite (tree_normal Htree). Qed.

Lemma normal_valid x : TransactionIdIsNormal x = true -> TransactionIdIsValid x = true.
Proof. unfold TransactionIdIsNormal, TransactionIdIsValid, FirstNormalTransactionId, InvalidTransactionId. lia. Qed.

Lemma top_committed : did_commit f parent xmin xid <-> f xid = TRANSACTION_STATUS_COMMITTED.
Proof.
  split.
  - inversion 1 as [y Hy|y Hy]; subst; rewrite tree_fetch in Hy by elem; [done|by destruct Htop].
  - intros Hx. apply did_commit_top. rewrite tree_fetch by elem. done.
Qed.

Lemma tree_not_committed x :
  f xid <> TRANSACTION_STATUS_COMMITTED -> x ∈ xid :: subxids -> ~ did_commit f parent xmin x.
Proof.
  intros Hx Hin Hd. revert Hin. induction Hd as [x Hs|x Hs Hp Hv Hd IH]; intros Hin.
  - rewrite tree_fetch in Hs by done. destruct Hatomic as [[? _]|[_ H]]; [done|].
    apply elem_of_cons in Hin as [->|Hin]; [done|]. by apply (H x).
  - apply IH. apply elem_of_cons in Hin as [->|Hin]; [|by apply (tree_closed Htree)].
    rewrite tree_fetch in Hs by elem. by destruct Htop.
Qed.

Lemma tree_committed x :
  f xid = TRANSACTION_STATUS_COMMITTED -> x ∈ xid :: subxids -> did_commit f parent xmin x.
Proof.
  intros Hx Hin. assert (chain parent x xid) as Hch.
  { apply elem_of_cons in Hin as [->|Hin]; [apply chain_refl|by apply (tree_up Htree)]. }
  assert (forall a b, chain parent a b -> b = xid -> a ∈ xid :: subxids -> did_commit f parent xmin a) as H.
  { clear x Hin Hch. induction 1 as [x|x y Hv Hch IH]; intros Hy Hin.
    - subst x. by apply top_committed.
    - destruct (decide (x = xid)) as [->|Hne]; [by apply top_committed|].
      assert (x ∈ subxids) as Hsub by (apply elem_of_cons in Hin; tauto).
      destruct Hatomic as [[_ H]|[H _]]; [|done]. destruct (H x Hsub) as [Hs|Hs].
      + apply did_commit_sub; [by rewrite tree_fetch|by apply (tree_recent Htree)|done|].
        apply IH; [done|by apply (tree_closed Htree)].
      + apply did_commit_top. by rewrite tree_fetch. }
  by apply (H x xid).
Qed.

(** Anybody who asks gets the same answer for every member of the tree. *)
Lemma lookups_atomic x :
  x ∈ subxids -> did_commit f parent xmin x <-> did_commit f parent xmin xid.
Proof.
  intros Hx. rewrite top_committed. destruct (decide (f xid = TRANSACTION_STATUS_COMMITTED)) as [E|E].
  - split; [done|]. intros _. apply tree_committed; [done|elem].
  - split; [|done]. intros Hd. by apply tree_not_committed in Hd; [|done|elem].
Qed.

Lemma member_committed x : x ∈ xid :: subxids -> did_commit f parent xmin x <-> f xid = TRANSACTION_STATUS_COMMITTED.
Proof.
  intros [->|Hx]%elem_of_cons; [apply top_committed|]. by rewrite lookups_atomic, top_committed.
Qed.
End onlookers.

Lemma recent_tree_ext parent parent' xmin xid subxids : (forall x, parent' x = parent x) ->
  recent_tree parent xmin xid subxids -> recent_tree parent' xmin xid subxids.
Proof.
  intros E [H1 H2 H3 H4]. split; [done|done| |intros x Hx; rewrite E; auto]. intros x Hx. specialize (H3 x Hx). clear H1 H2 H4 Hx.
  induction H3 as [x|x y Hv Hch IH]; [apply chain_refl|]. apply chain_step; by rewrite E.
Qed.

(** ** Properties *)

(** [TransactionIdDidCommit] and [TransactionIdDidAbort] decide what the two
    logs mean: following sub-committed transactions to their parents, with the
    one-entry cache and after any number of earlier lookups.  They terminate,
    never both answer true, and change neither log. *)
Theorem did_commit_decides ctl xmin x t :
  transam_ok ctl t -> parents_ok t -> is_u32 xmin -> TransactionIdIsNormal xmin = true ->
  is_u32 x -> TransactionIdIsValid x = true ->
  (let '(t', r) := TransactionIdDidCommit ctl xmin x t in
   looked ctl t t' /\
   match r with
   | inr b => b = true <-> did_commit (statuses t) (parents t) xmin x
   | inl e => io_error e
   end) /\
  (let '(t', r) := TransactionIdDidAbort ctl xmin x t in
   looked ctl t t' /\
   match r with
   | inr b => b = true <-> did_abort (statuses t) (parents t) xmin x
   | inl e => io_error e
   end) /\
  ~ (did_commit (statuses t) (parents t) xmin x /\ did_abort (statuses t) (parents t) xmin x).
Proof.
  intros Hok Hpar Hxm Hxn Hx Hv. 
  assert (enough xmin x (recursion_fuel xmin x)) as He by by apply enough_fuel.
  split; [|split].
  - destruct (TransactionIdDidCommit ctl xmin x t) eqn:E. by apply DidCommit_rec_spec in E.
  - destruct (TransactionIdDidAbort ctl xmin x t) eqn:E. by apply DidAbort_rec_spec in E.
  - intros [Hc Ha]. by eapply commit_abort_exclusive.
Qed.

Definition demo_ctls : TransamCtl := MkTransamCtl demo_xact_ctl demo_subtrans_ctl.
Definition demo_transam : Transam := MkTransam demo_clog demo_family InvalidTransactionId 0 0.

Lemma demo_transam_ok : transam_ok demo_ctls demo_transam.
Proof. split; [apply demo_clog_ok|apply demo_family_ok|by left]. Qed.

Lemma demo_parents x : parents demo_transam x = if x =? 12 then 10 else 0.
Proof.
  unfold parents, demo_transam, subtrans, demo_family.
  destruct (SubTransSetParent demo_subtrans_ctl 12 10 demo_subtrans) as [st r] eqn:E.
  assert (r = inr tt) as -> by (apply (f_equal snd) in E; vm_compute in E; congruence).
  apply SetParent_spec in E as [_ Hr]; [|apply demo_subtrans_ok|lia|unfold is_u32; lia].
  simpl. rewrite Hr. destruct (x =? 12); [done|].
  unfold subtrans_parent. destruct (SimpleLruInit_ok demo_subtrans_ctl 16 0 {[ 0 := [zero_page; zero_page] ]} 0) as [_ Hp]; [done..|].
  unfold demo_subtrans, SUBTRANSShmemInit. change (SUBTRANSShmemBuffers 1024 16) with 16. rewrite Hp.
  unfold file_page. cbn [files SimpleLruInit]. destruct (decide (seg_of (TransactionIdToPage x) = 0)) as [->|Hne].
  - rewrite lookup_singleton_eq. simpl. destruct (seg_index (TransactionIdToPage x)) as [|[|i]]; apply read_entry_zero.
  - rewrite lookup_singleton_ne by done. apply read_entry_zero.
Qed.

Lemma demo_parents_ok : parents_ok demo_transam.
Proof.
  intros x _ _. rewrite demo_parents. destruct (Z.eqb_spec x 12) as [->|]; done.
Qed.

Lemma did_commit_decides_witness :
  (let '(t', r) := TransactionIdDidCommit demo_ctls 5 12 demo_transam in
   looked demo_ctls demo_transam t' /\
   match r with
   | inr b => b = true <-> did_commit (statuses demo_transam) (parents demo_transam) 5 12
   | inl e => io_error e
   end) /\
  (let '(t', r) := TransactionIdDidAbort demo_ctls 5 12 demo_transam in
   looked demo_ctls demo_transam t' /\
   match r with
   | inr b => b = true <-> did_abort (statuses demo_transam) (parents demo_transam) 5 12
   | inl e => io_error e
   end) /\
  ~ (did_commit (statuses demo_transam) (parents demo_transam) 5 12 /\
     did_abort (statuses demo_transam) (parents demo_transam) 5 12).
Proof.
  apply (did_commit_decides demo_ctls 5 12 demo_transam);
    [apply demo_transam_ok|apply demo_parents_ok|unfold is_u32; lia|done|unfold is_u32; lia|done].
Defined.

(** What anybody is told about a member of a tree that is recent, settled as a
    whole and whose top is not sub-committed. *)
Lemma onlooker_answer ctl xmin xid xids o x : transam_ok ctl o -> parents_ok o -> is_u32 xmin -> TransactionIdIsNormal xmin = true ->
  recent_tree (parents o) xmin xid xids -> tree_atomic xid xids (statuses o) -> statuses o xid <> TRANSACTION_STATUS_SUB_COMMITTED ->
  is_u32 x -> x ∈ xid :: xids ->
  match (TransactionIdDidCommit ctl xmin x o).2 with
  | inr b => b = true <-> statuses o xid = TRANSACTION_STATUS_COMMITTED
  | inl e => io_error e
  end.
Proof.
  intros Hok Hpar Hxm Hxn Htree Hat Htop Hx Hin. destruct (TransactionIdDidCommit ctl xmin x o) as [o' r] eqn:E. cbn.
  apply DidCommit_rec_spec in E as [_ Hr]; [|done..|by eapply normal_valid, tree_normal|by apply enough_fuel].
  destruct r; [done|]. by rewrite Hr, (member_committed (parents o) xmin xid xids).
Qed.

(** While a tree is committed, its top is never seen sub-committed and its
    members always agree. *)
Lemma commit_moments ctl my cont xid xids st t k :
  TransactionIdIsValid xid = true -> xid ∉ xids -> foreign xid xids (contention_writes cont) ->
  (forall x, x ∈ xid :: xids -> statuses t x = TRANSACTION_STATUS_IN_PROGRESS) ->
  (forall x, xid_status st x = write_statuses (InRecovery (xact_ctl ctl)) (take k (tree_writes my cont xid xids TRANSACTION_STATUS_COMMITTED)) (statuses t) x) ->
  tree_atomic xid xids (xid_status st) /\ xid_status st xid <> TRANSACTION_STATUS_SUB_COMMITTED.
Proof.
  intros Hxv Hn Hf H0 Hst. assert (tree_atomic xid xids (statuses t)) as HA.
  { right. split; [rewrite H0 by elem; done|]. intros s Hs. rewrite H0 by elem. done. }
  split.
  - pose proof (commit_throughout (InRecovery (xact_ctl ctl)) my cont xid xids _ Hxv Hn Hf HA k) as Hk.
    unfold tree_atomic in *. rewrite !Hst. destruct Hk as [[? Hk]|[? Hk]]; [left|right];
      (split; [done|]); intros s Hs; rewrite Hst; auto.
  - rewrite Hst. apply (throughout_inv (InRecovery (xact_ctl ctl)) (fun g => g xid <> TRANSACTION_STATUS_SUB_COMMITTED)
      (take k (tree_writes my cont xid xids TRANSACTION_STATUS_COMMITTED))).
    + intros [y s] g Hw%subseteq_take Hg. unfold write_status. simpl.
      destruct (Z.eqb_spec y xid) as [->|]; [|done].
      apply tree_writes_top in Hw; [|done..]. simpl in Hw. subst s. by destruct (_ && _).
    + rewrite H0 by elem. done.
Qed.

(** C11. No onlooker sees half a commit.  Take any moment of the commit of a tree
    (also an asynchronous one), and any process that looks up a member of the
    tree with [TransactionIdDidCommit] when the status log stands as at that
    moment, whatever this process has cached: unless a system call fails, it is
    told that the member committed exactly if the top transaction's own status
    says so, whatever the nesting of the tree, so that subtransactions and the
    top always get the same answer.  When the call has returned, that answer is
    that the tree committed. *)
Theorem commit_atomic_for_onlookers ctl my cont xmin xid xids lsn t :
  transam_ok ctl t -> parents_ok t -> Forall is_u32 (xid :: xids) -> contention_req cont ->
  is_u32 xmin -> TransactionIdIsNormal xmin = true ->
  xid ∉ xids -> foreign xid xids (contention_writes cont) -> recent_tree (parents t) xmin xid xids ->
  (forall x, x ∈ xid :: xids -> statuses t x = TRANSACTION_STATUS_IN_PROGRESS) ->
  let '(t', r) := TransactionIdAsyncCommitTree ctl my cont xid xids lsn t in
  (r = inr tt -> statuses t' xid = TRANSACTION_STATUS_COMMITTED) /\
  exists T, observed (clog t') = observed (clog t) ++ T /\
    Forall (fun st => forall o x, transam_ok ctl o ->
      (forall y, statuses o y = xid_status st y) -> (forall y, parents o y = parents t y) -> x ∈ xid :: xids ->
      match (TransactionIdDidCommit ctl xmin x o).2 with
      | inr b => b = true <-> xid_status st xid = TRANSACTION_STATUS_COMMITTED
      | inl e => io_error e
      end) (T ++ [xact (clog t')]).
Proof.
  intros Hok Hpar Hreq Hcont Hxm Hxn Hn Hf Htree H0. unfold TransactionIdAsyncCommitTree, on_clog.
  destruct (TransactionIdSetTreeStatus _ _ _ _ _ _ _ _) as [c' r] eqn:E.
  assert (TransactionIdIsValid xid = true) as Hxv by (apply normal_valid, (tree_normal _ _ _ _ Htree); elem).
  apply SetTreeStatus_spec in E as Hpost; [|apply Hok|by eapply Forall_impl; [exact Hreq|intros ? []]|done|done]. split.
  { intros ->. destruct Hpost as [_ Hr]. unfold statuses. cbn [clog]. rewrite (wrote_status _ _ _ _ Hr).
    eapply (proj1 (tree_writes_final _ my cont xid xids TRANSACTION_STATUS_COMMITTED _ xid Hxv Hf ltac:(discriminate))). elem. }
  destruct (writes_post_observed _ _ _ _ _ Hpost) as (T & HT & HF). exists T. split; [done|].
  eapply Forall_impl; [exact HF|]. intros st [k Hst] o x Hoko Es Ep Hx.
  destruct (commit_moments ctl my cont xid xids st t k) as [HA Htop]; [done..|]. rewrite <- Es in Htop |- *.
  apply (onlooker_answer ctl xmin xid xids); [done| |done|done|by eapply recent_tree_ext| |done| |done].
  - intros y. rewrite Ep. apply Hpar.
  - unfold tree_atomic in *. rewrite !Es. destruct HA as [[? HA]|[? HA]]; [left|right]; (split; [done|]); intros s Hs; rewrite Es; auto.
  - by eapply (proj1 (Forall_forall _ _)).
Qed.

Lemma demo_recent_tree : recent_tree (parents demo_transam) 5 10 [12].
Proof.
  split.
  - intros x. rewrite !elem_of_cons, elem_of_nil. intros [->|[->|[]]]; done.
  - intros x. rewrite !elem_of_cons, elem_of_nil. intros [->|[->|[]]]; done.
  - intros x ->%list_elem_of_singleton. apply chain_step; rewrite demo_parents; [done|]. apply chain_refl.
  - intros x ->%list_elem_of_singleton. rewrite demo_parents. left.
Qed.

(** The commit of 10 with its subtransaction 12 is written by a group leader,
    together with the abort of another transaction; afterwards 12 has
    committed according to any process. *)
Lemma commit_atomic_for_onlookers_witness :
  let '(t', r) := TransactionIdAsyncCommitTree demo_ctls (MkMyProcXids 10 [12])
                    (GroupJoined [] [MkGroupMember 20 [21] TRANSACTION_STATUS_ABORTED 0 0]) 10 [12] 77 demo_transam in
  (r = inr tt -> statuses t' 10 = TRANSACTION_STATUS_COMMITTED) /\
  exists T, observed (clog t') = observed (clog demo_transam) ++ T /\
    Forall (fun st => forall o x, transam_ok demo_ctls o ->
      (forall y, statuses o y = xid_status st y) -> (forall y, parents o y = parents demo_transam y) -> x ∈ [10; 12] ->
      match (TransactionIdDidCommit demo_ctls 5 x o).2 with
      | inr b => b = true <-> xid_status st 10 = TRANSACTION_STATUS_COMMITTED
      | inl e => io_error e
      end) (T ++ [xact (clog t')]).
Proof.
  apply (commit_atomic_for_onlookers demo_ctls (MkMyProcXids 10 [12])
    (GroupJoined [] [MkGroupMember 20 [21] TRANSACTION_STATUS_ABORTED 0 0]) 5 10 [12] 77 demo_transam).
  - apply demo_transam_ok.
  - apply demo_parents_ok.
  - repeat constructor; lia.
  - apply Forall_singleton. split; [done|done|by repeat constructor|split; done].
  - unfold is_u32; lia.
  - reflexivity.
  - rewrite !elem_of_cons, elem_of_nil. lia.
  - repeat constructor; simpl; rewrite ?elem_of_cons, ?elem_of_nil; lia.
  - apply demo_recent_tree.
  - intros x. rewrite !elem_of_cons, elem_of_nil. intros [->|[->|[]]]; by vm_compute.
Defined.

(** Recording the fate of a tree whose members are all undecided makes
    lookups answer accordingly for every member, commits and aborts alike; the
    cache of the backend stays coherent, and no other transaction is affected. *)
Theorem fate_is_recorded ctl my cont xid xids t (commit : bool) :
  transam_ok ctl t -> xids_req (xid :: xids) -> contention_req cont ->
  TransactionIdIsValid xid = true -> xid ∉ xids -> foreign xid xids (contention_writes cont) ->
  (forall x, x ∈ xid :: xids \/ x ∈ (contention_writes cont).*1 ->
     statuses t x <> TRANSACTION_STATUS_COMMITTED /\ statuses t x <> TRANSACTION_STATUS_ABORTED) ->
  let '(t', r) := (if commit then TransactionIdCommitTree else TransactionIdAbortTree) ctl my cont xid xids t in
  transam_ok ctl t' /\ (forall x, parents t' x = parents t x) /\
  match r with
  | inl e => io_error e
  | inr _ =>
      (forall x, x ∈ xid :: xids -> TransactionIdIsNormal x = true -> forall xmin,
         if commit then did_commit (statuses t') (parents t') xmin x
         else did_abort (statuses t') (parents t') xmin x) /\
      (forall x, x ∉ xid :: xids -> x ∉ (contention_writes cont).*1 -> statuses t' x = statuses t x)
  end.
Proof.
  intros Hok Hreq Hcont Hx Hn Hf Hund. set (status := if commit then TRANSACTION_STATUS_COMMITTED else TRANSACTION_STATUS_ABORTED).
  assert ((if commit then TransactionIdCommitTree else TransactionIdAbortTree) ctl my cont xid xids
    = on_clog (TransactionIdSetTreeStatus (xact_ctl ctl) my cont xid xids status 0)) as -> by by destruct commit.
  unfold on_clog. destruct (TransactionIdSetTreeStatus _ _ _ _ _ _ _ _) as [c' r] eqn:E.
  apply SetTreeStatus_spec in E as Hpost; [|apply Hok|done|by unfold status; destruct commit|done].
  assert (status <> TRANSACTION_STATUS_SUB_COMMITTED) as Hns by (unfold status; by destruct commit).
  pose proof (fun y => tree_writes_final (InRecovery (xact_ctl ctl)) my cont xid xids status (statuses t) y Hx Hf Hns) as Hfin.
  assert (forall x, x ∉ xid :: xids -> x ∉ (contention_writes cont).*1 -> xid_status (xact c') x = statuses t x) as Hother.
  { intros x Hx1 Hx2. destruct (writes_post_observed _ _ _ _ _ Hpost) as (T & _ & HF).
    apply Forall_app in HF as [_ [k Hk]%Forall_singleton]. rewrite Hk. by apply Hfin. }
  split; [|split; [done|]].
  - pose proof Hok as [? ? Hcache]. split; [apply Hpost|done..|].
    destruct Hcache as [Hc|(Hc1 & Hc2 & Hc3)]; [by left|right]. simpl. split_and!; [done| |done].
    rewrite Hother; [done| |]; intros Hin;
      (destruct (Hund (cachedFetchXid t)); [tauto|]); unfold statuses in *; destruct Hc3; congruence.
  - destruct Hpost as [_ Hr]. destruct r as [e|[]]; [tauto|]. split; [|done].
    intros x Hin Hnx xmin. assert (fetch_status (xid_status (xact c')) x = status) as Hs.
    { unfold fetch_status. rewrite Hnx, (wrote_status _ _ _ _ Hr). by apply Hfin. }
    unfold status in Hs. destruct commit; [by apply did_commit_top|by apply did_abort_top].
Qed.

Lemma fate_is_recorded_witness :
  let '(t', r) := TransactionIdCommitTree demo_ctls (MkMyProcXids 0 []) LockFree 10 [12; 40000] demo_transam in
  transam_ok demo_ctls t' /\ (forall x, parents t' x = parents demo_transam x) /\
  match r with
  | inl e => io_error e
  | inr _ =>
      (forall x, x ∈ [10; 12; 40000] -> TransactionIdIsNormal x = true -> forall xmin,
         did_commit (statuses t') (parents t') xmin x) /\
      (forall x, x ∉ [10; 12; 40000] -> x ∉ (contention_writes LockFree).*1 -> statuses t' x = statuses demo_transam x)
  end.
Proof.
  apply (fate_is_recorded demo_ctls (MkMyProcXids 0 []) LockFree 10 [12; 40000] demo_transam true).
  - apply demo_transam_ok.
  - repeat constructor; lia.
  - done.
  - done.
  - rewrite !elem_of_cons, elem_of_nil. lia.
  - by constructor.
  - intros x [Hx|Hx]; [|by apply elem_of_nil in Hx]. revert Hx. rewrite !elem_of_cons, elem_of_nil.
    intros [->|[->|[->|[]]]]; by vm_compute.
Defined.
