(* ===== verification/HeapTuple.v ===== *)
(** * Heap tuple headers

    The transaction fields and flag words of a heap tuple and the macros that
    read and change them: [src/include/access/htup_details.h].  Flag words are
    16-bit; the union of command id and xvac is one field. *)

From S2P Require Import Prelude.
From S2P Require Import TransactionId.

Record ItemPointerData := MkItemPointer { ip_blkid : Z; ip_posid : Z }.

#[export] Instance ItemPointerData_eq_dec : EqDecision ItemPointerData.
Proof. solve_decision. Defined.

Definition SpecTokenOffsetNumber : Z := 0xfffe.

Record HeapTupleHeaderData := MkHeapTupleHeader {
  t_xmin : Z;
  t_xmax : Z;
  t_field3 : Z;
  t_ctid : ItemPointerData;
  t_infomask2 : Z;
  t_infomask : Z;
}.

Definition set_xmin (tup : HeapTupleHeaderData) (x : Z) : HeapTupleHeaderData :=
  MkHeapTupleHeader x (t_xmax tup) (t_field3 tup) (t_ctid tup) (t_infomask2 tup) (t_infomask tup).
Definition set_xmax (tup : HeapTupleHeaderData) (x : Z) : HeapTupleHeaderData :=
  MkHeapTupleHeader (t_xmin tup) x (t_field3 tup) (t_ctid tup) (t_infomask2 tup) (t_infomask tup).
Definition set_field3 (tup : HeapTupleHeaderData) (x : Z) : HeapTupleHeaderData :=
  MkHeapTupleHeader (t_xmin tup) (t_xmax tup) x (t_ctid tup) (t_infomask2 tup) (t_infomask tup).
Definition set_infomask (tup : HeapTupleHeaderData) (m : Z) : HeapTupleHeaderData :=
  MkHeapTupleHeader (t_xmin tup) (t_xmax tup) (t_field3 tup) (t_ctid tup) (t_infomask2 tup) m.

(** ** Flags of [t_infomask] *)

Definition HEAP_XMAX_KEYSHR_LOCK : Z := 0x0010.
Definition HEAP_COMBOCID : Z := 0x0020.
Definition HEAP_XMAX_EXCL_LOCK : Z := 0x0040.
Definition HEAP_XMAX_LOCK_ONLY : Z := 0x0080.
Definition HEAP_XMAX_SHR_LOCK : Z := Z.lor HEAP_XMAX_EXCL_LOCK HEAP_XMAX_KEYSHR_LOCK.
Definition HEAP_LOCK_MASK : Z :=
  Z.lor HEAP_XMAX_SHR_LOCK (Z.lor HEAP_XMAX_EXCL_LOCK HEAP_XMAX_KEYSHR_LOCK).
Definition HEAP_XMIN_COMMITTED : Z := 0x0100.
Definition HEAP_XMIN_INVALID : Z := 0x0200.
Definition HEAP_XMIN_FROZEN : Z := Z.lor HEAP_XMIN_COMMITTED HEAP_XMIN_INVALID.
Definition HEAP_XMAX_COMMITTED : Z := 0x0400.
Definition HEAP_XMAX_INVALID : Z := 0x0800.
Definition HEAP_XMAX_IS_MULTI : Z := 0x1000.
Definition HEAP_UPDATED : Z := 0x2000.
Definition HEAP_MOVED_OFF : Z := 0x4000.
Definition HEAP_MOVED_IN : Z := 0x8000.
Definition HEAP_MOVED : Z := Z.lor HEAP_MOVED_OFF HEAP_MOVED_IN.
Definition HEAP_HOT_UPDATED : Z := 0x4000.

Definition HEAP_XMAX_IS_LOCKED_ONLY (infomask : Z) : bool :=
  flag_set infomask HEAP_XMAX_LOCK_ONLY
  || (Z.land infomask (Z.lor HEAP_XMAX_IS_MULTI HEAP_LOCK_MASK) =? HEAP_XMAX_EXCL_LOCK).

Definition HEAP_LOCKED_UPGRADED (infomask : Z) : bool :=
  flag_set infomask HEAP_XMAX_IS_MULTI
  && flag_set infomask HEAP_XMAX_LOCK_ONLY
  && (Z.land infomask (Z.lor HEAP_XMAX_EXCL_LOCK HEAP_XMAX_KEYSHR_LOCK) =? 0).

(** ** Accessors *)

Definition HeapTupleHeaderGetRawXmin (tup : HeapTupleHeaderData) : Z := t_xmin tup.
Definition HeapTupleHeaderXminFrozen (tup : HeapTupleHeaderData) : bool :=
  Z.land (t_infomask tup) HEAP_XMIN_FROZEN =? HEAP_XMIN_FROZEN.
Definition HeapTupleHeaderGetXmin (tup : HeapTupleHeaderData) : Z :=
  if HeapTupleHeaderXminFrozen tup then FrozenTransactionId else HeapTupleHeaderGetRawXmin tup.
Definition HeapTupleHeaderXminCommitted (tup : HeapTupleHeaderData) : bool :=
  flag_set (t_infomask tup) HEAP_XMIN_COMMITTED.
Definition HeapTupleHeaderXminInvalid (tup : HeapTupleHeaderData) : bool :=
  Z.land (t_infomask tup) (Z.lor HEAP_XMIN_COMMITTED HEAP_XMIN_INVALID) =? HEAP_XMIN_INVALID.
Definition HeapTupleHeaderSetXminFrozen (tup : HeapTupleHeaderData) : HeapTupleHeaderData :=
  set_infomask tup (Z.lor (t_infomask tup) HEAP_XMIN_FROZEN).
Definition HeapTupleHeaderGetRawXmax (tup : HeapTupleHeaderData) : Z := t_xmax tup.
Definition HeapTupleHeaderGetRawCommandId (tup : HeapTupleHeaderData) : Z := t_field3 tup.

Definition HeapTupleHeaderSetCmin (tup : HeapTupleHeaderData) (cid : Z) : HeapTupleHeaderData :=
  set_infomask (set_field3 tup cid) (Z.ldiff (t_infomask tup) HEAP_COMBOCID).
Definition HeapTupleHeaderSetCmax (tup : HeapTupleHeaderData) (cid : Z) (iscombo : bool) : HeapTupleHeaderData :=
  set_infomask (set_field3 tup cid)
    (if iscombo then Z.lor (t_infomask tup) HEAP_COMBOCID else Z.ldiff (t_infomask tup) HEAP_COMBOCID).

Definition HeapTupleHeaderGetXvac (tup : HeapTupleHeaderData) : Z :=
  if flag_set (t_infomask tup) HEAP_MOVED then t_field3 tup else InvalidTransactionId.

Definition HeapTupleHeaderIsSpeculative (tup : HeapTupleHeaderData) : bool :=
  ip_posid (t_ctid tup) =? SpecTokenOffsetNumber.
Definition HeapTupleHeaderGetSpeculativeToken (tup : HeapTupleHeaderData) : Z := ip_blkid (t_ctid tup).

Definition ItemPointerEquals (p q : ItemPointerData) : bool :=
  (ip_blkid p =? ip_blkid q) && (ip_posid p =? ip_posid q).

(** ** Adding hint bits

    The four hint bits are the only part of a header that the visibility
    routines change, and they change it by adding bits. *)

Definition add_flags (tup : HeapTupleHeaderData) (f : Z) : HeapTupleHeaderData :=
  set_infomask tup (Z.lor (t_infomask tup) f).

Definition HINT_BITS : Z := 0x0F00.

(** Reading a flag word through a mask that the added bits do not touch. *)
Lemma land_add tup f m : Z.land f m = 0 -> Z.land (t_infomask (add_flags tup f)) m = Z.land (t_infomask tup) m.
Proof. apply land_lor_disjoint. Qed.

Lemma flag_set_add tup f m : Z.land f m = 0 -> flag_set (t_infomask (add_flags tup f)) m = flag_set (t_infomask tup) m.
Proof. intros H. unfold flag_set. by rewrite land_add. Qed.

Lemma flag_set_add_self tup f : f <> 0 -> flag_set (t_infomask (add_flags tup f)) f = true.
Proof.
  intros Hf. unfold add_flags. cbn [t_infomask set_infomask]. rewrite flag_set_lor.
  apply orb_true_iff. right. unfold flag_set. rewrite Z.land_diag. by apply negb_true_iff, Z.eqb_neq.
Qed.

(** The macros that do not look at hint bits. *)
Section no_hints.
Context (tup : HeapTupleHeaderData) (f : Z) (Hf : f ∈ [HEAP_XMIN_COMMITTED; HEAP_XMIN_INVALID; HEAP_XMAX_COMMITTED; HEAP_XMAX_INVALID]).

Lemma hint_disjoint m : Z.land HINT_BITS m = 0 -> Z.land f m = 0.
Proof.
  intros H. assert (Z.land f HINT_BITS = f) as E.
  { revert Hf. rewrite !elem_of_cons, elem_of_nil. intros [->|[->|[->|[->|[]]]]]; reflexivity. }
  rewrite <- E, <- Z.land_assoc, H. apply Z.land_0_r.
Qed.

Lemma locked_only_add : HEAP_XMAX_IS_LOCKED_ONLY (t_infomask (add_flags tup f)) = HEAP_XMAX_IS_LOCKED_ONLY (t_infomask tup).
Proof.
  unfold HEAP_XMAX_IS_LOCKED_ONLY. rewrite flag_set_add, land_add; [done|by apply hint_disjoint..].
Qed.

Lemma locked_upgraded_add : HEAP_LOCKED_UPGRADED (t_infomask (add_flags tup f)) = HEAP_LOCKED_UPGRADED (t_infomask tup).
Proof.
  unfold HEAP_LOCKED_UPGRADED. rewrite !flag_set_add, land_add; [done|by apply hint_disjoint..].
Qed.

Lemma is_multi_add : flag_set (t_infomask (add_flags tup f)) HEAP_XMAX_IS_MULTI = flag_set (t_infomask tup) HEAP_XMAX_IS_MULTI.
Proof. apply flag_set_add. by apply hint_disjoint. Qed.

Lemma lock_only_add : flag_set (t_infomask (add_flags tup f)) HEAP_XMAX_LOCK_ONLY = flag_set (t_infomask tup) HEAP_XMAX_LOCK_ONLY.
Proof. apply flag_set_add. by apply hint_disjoint. Qed.

Lemma combocid_add : flag_set (t_infomask (add_flags tup f)) HEAP_COMBOCID = flag_set (t_infomask tup) HEAP_COMBOCID.
Proof. apply flag_set_add. by apply hint_disjoint. Qed.

Lemma moved_off_add : flag_set (t_infomask (add_flags tup f)) HEAP_MOVED_OFF = flag_set (t_infomask tup) HEAP_MOVED_OFF.
Proof. apply flag_set_add. by apply hint_disjoint. Qed.

Lemma moved_in_add : flag_set (t_infomask (add_flags tup f)) HEAP_MOVED_IN = flag_set (t_infomask tup) HEAP_MOVED_IN.
Proof. apply flag_set_add. by apply hint_disjoint. Qed.

Lemma xvac_add : HeapTupleHeaderGetXvac (add_flags tup f) = HeapTupleHeaderGetXvac tup.
Proof. unfold HeapTupleHeaderGetXvac. rewrite flag_set_add by by apply hint_disjoint. done. Qed.
End no_hints.
