(* ===== verification/ComboCid.v ===== *)
(** * Combo command identifiers

    [src/backend/utils/time/combocid.c].  A tuple header has one field for
    two command ids; when the transaction that inserted a tuple also deletes
    it, the field holds an index into a backend-private array of
    (cmin, cmax) pairs.  The array is a finite map because [palloc]ed
    memory starts without contents; its allocated size is kept beside it.
    An operation that ends in [ereport(ERROR)] is [None]. *)

From S2P Require Import Prelude.
From S2P Require Import TransactionId.
From S2P Require Import HeapTuple.

Record ComboCidKeyData := MkComboCidKey { key_cmin : Z; key_cmax : Z }.

#[export] Instance ComboCidKeyData_eq_dec : EqDecision ComboCidKeyData.
Proof. solve_decision. Defined.
#[export] Instance ComboCidKeyData_countable : Countable ComboCidKeyData.
Proof.
  refine (inj_countable' (fun k => (key_cmin k, key_cmax k)) (fun p => MkComboCidKey p.1 p.2) _).
  by intros [].
Defined.
#[export] Instance ComboCidKeyData_inhabited : Inhabited ComboCidKeyData := populate (MkComboCidKey 0 0).

(** The file's static variables.  [comboHash = None] is the NULL pointer. *)
Record ComboCidState := MkComboCidState {
  comboHash : option (gmap ComboCidKeyData Z);
  comboCids : gmap Z ComboCidKeyData;
  usedComboCids : Z;
  sizeComboCids : Z;
}.

Definition CCID_ARRAY_SIZE : Z := 100.
Definition sizeof_ComboCidKeyData : Z := 8.
Definition MaxAllocSize : Z := 0x3fffffff.

Definition AtEOXact_ComboCid (s : ComboCidState) : ComboCidState :=
  MkComboCidState None ∅ 0 0.

(** The hash table and array are made on first use. *)
Definition combo_create (s : ComboCidState) : ComboCidState :=
  match comboHash s with
  | Some _ => s
  | None => MkComboCidState (Some ∅) ∅ 0 CCID_ARRAY_SIZE
  end.

(** [repalloc] refuses requests above [MaxAllocSize]. *)
Definition combo_grow (s : ComboCidState) : option ComboCidState :=
  if sizeComboCids s <=? usedComboCids s then
    let newsize := sizeComboCids s * 2 in
    if sizeof_ComboCidKeyData * newsize <=? MaxAllocSize
    then Some (MkComboCidState (comboHash s) (comboCids s) (usedComboCids s) newsize)
    else None
  else Some s.

Definition GetComboCommandId (cmin cmax : Z) (s : ComboCidState) : option (Z * ComboCidState) :=
  s ← combo_grow (combo_create s);
  let key := MkComboCidKey cmin cmax in
  h ← comboHash s;
  match h !! key with
  | Some combocid => Some (combocid, s)
  | None =>
      let combocid := usedComboCids s in
      Some (combocid,
            MkComboCidState (Some (<[key := combocid]> h)) (<[combocid := key]> (comboCids s))
                            (usedComboCids s + 1) (sizeComboCids s))
  end.

Definition GetRealCmin (combocid : Z) (s : ComboCidState) : Z := key_cmin (comboCids s !!! combocid).
Definition GetRealCmax (combocid : Z) (s : ComboCidState) : Z := key_cmax (comboCids s !!! combocid).

Definition HeapTupleHeaderGetCmin (s : ComboCidState) (tup : HeapTupleHeaderData) : Z :=
  let cid := HeapTupleHeaderGetRawCommandId tup in
  if flag_set (t_infomask tup) HEAP_COMBOCID then GetRealCmin cid s else cid.

Definition HeapTupleHeaderGetCmax (s : ComboCidState) (tup : HeapTupleHeaderData) : Z :=
  let cid := HeapTupleHeaderGetRawCommandId tup in
  if flag_set (t_infomask tup) HEAP_COMBOCID then GetRealCmax cid s else cid.

(** [is_current] is [TransactionIdIsCurrentTransactionId]; the results are
    the two out parameters. *)
Definition HeapTupleHeaderAdjustCmax (is_current : Z -> bool) (tup : HeapTupleHeaderData) (cmax : Z)
    (s : ComboCidState) : option (Z * bool * ComboCidState) :=
  if negb (HeapTupleHeaderXminCommitted tup) && is_current (HeapTupleHeaderGetRawXmin tup) then
    '(c, s') ← GetComboCommandId (HeapTupleHeaderGetCmin s tup) cmax s;
    Some (c, true, s')
  else Some (cmax, false, s).

(** ** Shipping the table to parallel workers

    Memory is a list of 32-bit words: the count, then the pairs. *)

Definition EstimateComboCIDStateSpace (s : ComboCidState) : Z :=
  4 + sizeof_ComboCidKeyData * usedComboCids s.

Definition combo_pairs (s : ComboCidState) : list ComboCidKeyData :=
  (fun i => comboCids s !!! Z.of_nat i) <$> seq 0 (Z.to_nat (usedComboCids s)).

Fixpoint pair_words (l : list ComboCidKeyData) : list Z :=
  match l with [] => [] | k :: l => key_cmin k :: key_cmax k :: pair_words l end.

(** The memory at [start_address] after the call, and whether it returned. *)
Definition SerializeComboCIDState (maxsize : Z) (s : ComboCidState) : list Z * bool :=
  if maxsize <? 4 + sizeof_ComboCidKeyData * usedComboCids s
  then ([usedComboCids s], false)
  else (usedComboCids s :: pair_words (combo_pairs s), true).

Fixpoint restore_loop (n : nat) (i : Z) (keydata : list Z) (s : ComboCidState) : option ComboCidState :=
  match n, keydata with
  | O, _ => Some s
  | S n, cmin :: cmax :: rest =>
      '(cid, s) ← GetComboCommandId cmin cmax s;
      if cid =? i then restore_loop n (i + 1) rest s else None
  | S _, _ => None
  end.

Definition RestoreComboCIDState (comboCIDstate : list Z) (s : ComboCidState) : option ComboCidState :=
  match comboCIDstate with
  | num_elements :: keydata => restore_loop (Z.to_nat num_elements) 0 keydata s
  | [] => None
  end.

(** ** Invariant *)

(** The largest array that [repalloc] grants. *)
Definition max_combos : Z := 104857600.

Definition is_combo_size (z : Z) : Prop := exists k, 0 <= k <= 20 /\ z = CCID_ARRAY_SIZE * 2 ^ k.

Record combo_ok (s : ComboCidState) : Prop := {
  co_null : comboHash s = None -> comboCids s = ∅ /\ usedComboCids s = 0 /\ sizeComboCids s = 0;
  co_size : comboHash s <> None -> is_combo_size (sizeComboCids s);
  co_used : 0 <= usedComboCids s <= sizeComboCids s;
  co_hash : forall h, comboHash s = Some h ->
    forall k c, h !! k = Some c <-> comboCids s !! c = Some k;
  co_dom : forall c, is_Some (comboCids s !! c) <-> 0 <= c < usedComboCids s;
}.

(** [c] stands for the pair [(cmin, cmax)]. *)
Definition combo_is (s : ComboCidState) (c cmin cmax : Z) : Prop := comboCids s !! c = Some (MkComboCidKey cmin cmax).

Lemma combo_real s c cmin cmax :
  combo_is s c cmin cmax -> GetRealCmin c s = cmin /\ GetRealCmax c s = cmax.
Proof. unfold combo_is, GetRealCmin, GetRealCmax, lookup_total, map_lookup_total. by intros ->. Qed.

Lemma AtEOXact_ComboCid_ok s : combo_ok (AtEOXact_ComboCid s).
Proof.
  split; simpl; try done. intros c. rewrite lookup_empty. split; [intros [? [=]]|lia].
Qed.

Lemma combo_create_ok s : combo_ok s ->
  combo_ok (combo_create s) /\ comboHash (combo_create s) <> None /\
  comboCids (combo_create s) = comboCids s /\ usedComboCids (combo_create s) = usedComboCids s.
Proof.
  intros Hok. unfold combo_create. destruct (comboHash s) as [h|] eqn:E; [by rewrite E|].
  destruct (co_null s Hok E) as (-> & -> & _). split_and!; try done.
  split; simpl; try done.
  - intros _. by exists 0.
  - intros h [= <-] k c. by rewrite !lookup_empty.
  - intros c. rewrite lookup_empty. split; [intros [? [=]]|lia].
Qed.

Lemma is_combo_size_double z :
  is_combo_size z -> (sizeof_ComboCidKeyData * (z * 2) <= MaxAllocSize <-> z < max_combos) /\
  (z < max_combos -> is_combo_size (z * 2)) /\ z <= max_combos.
Proof.
  intros (k & Hk & ->). unfold sizeof_ComboCidKeyData, MaxAllocSize, CCID_ARRAY_SIZE, max_combos.
  assert (k = 20 \/ k <= 19) as [->|H] by lia; [split_and!; [split; lia|lia|lia]|].
  assert (2 ^ k <= 2 ^ 19) by (apply Z.pow_le_mono_r; lia).
  change (2 ^ 19) with 524288 in *. split_and!; [split; lia| |lia].
  intros _. exists (k + 1). split; [lia|]. rewrite Z.pow_add_r by lia. unfold CCID_ARRAY_SIZE. lia.
Qed.

Lemma combo_grow_ok s s' : combo_ok s -> comboHash s <> None -> combo_grow s = Some s' ->
  combo_ok s' /\ comboHash s' = comboHash s /\ comboCids s' = comboCids s /\
  usedComboCids s' = usedComboCids s /\ usedComboCids s' < sizeComboCids s'.
Proof.
  intros Hok Hh. unfold combo_grow.
  pose proof (co_size s Hok Hh) as Hs. pose proof (co_used s Hok) as Hu.
  destruct (is_combo_size_double _ Hs) as (H1 & H2 & _).
  assert (0 < sizeComboCids s).
  { destruct Hs as (k & ? & ->). unfold CCID_ARRAY_SIZE. pose proof (Z.pow_pos_nonneg 2 k). lia. }
  destruct (Z.leb_spec (sizeComboCids s) (usedComboCids s)); [|intros [= <-]; by split_and!].
  destruct (Z.leb_spec (sizeof_ComboCidKeyData * (sizeComboCids s * 2)) MaxAllocSize); [|done].
  intros [= <-]. simpl. split_and!; try done; [|lia].
  destruct Hok. split; simpl; try done; [intros _; tauto|lia].
Qed.

Lemma combo_grow_total s : combo_ok s -> comboHash s <> None -> usedComboCids s < max_combos ->
  is_Some (combo_grow s).
Proof.
  intros Hok Hh Hu. unfold combo_grow. destruct (is_combo_size_double _ (co_size s Hok Hh)) as (H1 & _).
  destruct (Z.leb_spec (sizeComboCids s) (usedComboCids s)); [|eauto].
  rewrite (proj2 (Z.leb_le _ _)); [eauto|]. apply H1. lia.
Qed.

(** ** Allocation *)

(** [s'] has all the combo ids of [s]. *)
Definition combo_extends (s s' : ComboCidState) : Prop := comboCids s ⊆ comboCids s'.

#[export] Instance combo_extends_preorder : PreOrder combo_extends.
Proof. unfold combo_extends. split; [by intros ?|by intros ?? ? ->]. Qed.

Lemma combo_is_extends s s' c cmin cmax : combo_extends s s' -> combo_is s c cmin cmax -> combo_is s' c cmin cmax.
Proof. intros H Hc. by eapply lookup_weaken. Qed.

Lemma combo_insert_ok s h k : combo_ok s -> comboHash s = Some h -> h !! k = None ->
  usedComboCids s < sizeComboCids s ->
  combo_ok (MkComboCidState (Some (<[k := usedComboCids s]> h)) (<[usedComboCids s := k]> (comboCids s))
                            (usedComboCids s + 1) (sizeComboCids s)).
Proof.
  intros [Hn Hs Hu Hh Hd] E Hk Hlt. split; simpl; [done|intros _; apply Hs; by rewrite E|lia| |].
  - intros h' [= <-] k' c. assert (comboCids s !! usedComboCids s = None) as Hf.
    { apply eq_None_not_Some. rewrite Hd. lia. }
    destruct (decide (k' = k)) as [->|Hk'], (decide (c = usedComboCids s)) as [->|Hc].
    + by rewrite !lookup_insert_eq.
    + rewrite lookup_insert_eq, lookup_insert_ne by done. rewrite <- (Hh h E), Hk. split; congruence.
    + rewrite lookup_insert_ne, lookup_insert_eq by done. rewrite (Hh h E), Hf. split; congruence.
    + rewrite !lookup_insert_ne by done. by apply Hh.
  - intros c. rewrite lookup_insert_is_Some, Hd. destruct (decide (usedComboCids s = c)); intuition lia.
Qed.

Lemma GetComboCommandId_ok cmin cmax s c s' : combo_ok s -> GetComboCommandId cmin cmax s = Some (c, s') ->
  combo_ok s' /\ combo_extends s s' /\ combo_is s' c cmin cmax /\ (s' = combo_create s' ) /\
  usedComboCids s <= usedComboCids s' <= usedComboCids s + 1.
Proof.
  intros Hok. unfold GetComboCommandId, combo_is, combo_extends.
  destruct (combo_create_ok s Hok) as (Hok1 & Hh1 & Hc1 & Hu1).
  destruct (combo_grow (combo_create s)) as [s1|] eqn:E; [|done]. simpl.
  destruct (combo_grow_ok _ _ Hok1 Hh1 E) as (Hok2 & Hh2 & Hc2 & Hu2 & Hlt).
  destruct (comboHash s1) as [h|] eqn:Eh; [simpl|congruence].
  rewrite <- Hc1, <- Hc2, <- Hu1, <- Hu2.
  destruct (h !! MkComboCidKey cmin cmax) as [c'|] eqn:El; intros [= <- <-]; cbn [comboCids usedComboCids].
  - split_and!; try done; [by apply (co_hash s1 Hok2 h)|unfold combo_create; by rewrite Eh|lia].
  - split_and!; try lia; [by apply combo_insert_ok| |by rewrite lookup_insert_eq|done].
    apply insert_subseteq, eq_None_not_Some. rewrite (co_dom s1 Hok2). lia.
Qed.

Lemma GetComboCommandId_total cmin cmax s : combo_ok s -> usedComboCids s < max_combos ->
  is_Some (GetComboCommandId cmin cmax s).
Proof.
  intros Hok Hlt. unfold GetComboCommandId.
  destruct (combo_create_ok s Hok) as (Hok1 & Hh1 & Hc1 & Hu1).
  destruct (combo_grow_total _ Hok1 Hh1) as [s1 E]; [lia|].
  destruct (combo_grow_ok _ _ Hok1 Hh1 E) as (_ & Hh2 & _). rewrite E. simpl.
  destruct (comboHash s1); [simpl|congruence]. case_match; eauto.
Qed.

(** The ids that a header's command id field can hold: a plain command id, or
    an allocated combo id under the flag. *)
Definition cid_ok (s : ComboCidState) (tup : HeapTupleHeaderData) : Prop :=
  flag_set (t_infomask tup) HEAP_COMBOCID = true -> 0 <= t_field3 tup < usedComboCids s.

Lemma cids_extend s s' tup : combo_ok s -> combo_extends s s' -> cid_ok s tup ->
  HeapTupleHeaderGetCmin s' tup = HeapTupleHeaderGetCmin s tup /\
  HeapTupleHeaderGetCmax s' tup = HeapTupleHeaderGetCmax s tup.
Proof.
  intros Hok He Hc. unfold HeapTupleHeaderGetCmin, HeapTupleHeaderGetCmax, cid_ok in *.
  destruct (flag_set _ _); [|done].
  destruct (proj2 (co_dom s Hok (t_field3 tup)) (Hc eq_refl)) as [[a b] E].
  destruct (combo_real s _ a b E), (combo_real s' _ a b (combo_is_extends _ _ _ _ _ He E)).
  unfold HeapTupleHeaderGetRawCommandId. split; congruence.
Qed.

Lemma combocid_set tup c b : flag_set (t_infomask (HeapTupleHeaderSetCmax tup c b)) HEAP_COMBOCID = b.
Proof.
  unfold HeapTupleHeaderSetCmax. cbn [t_infomask set_infomask]. destruct b.
  - rewrite flag_set_lor. apply orb_true_r.
  - unfold flag_set. by rewrite Z.land_ldiff.
Qed.

(** ** Shipping *)

Lemma combo_pairs_lookup s i k : combo_ok s -> combo_pairs s !! i = Some k <-> comboCids s !! Z.of_nat i = Some k.
Proof.
  intros Hok. pose proof (co_dom s Hok (Z.of_nat i)) as Hd. unfold combo_pairs.
  rewrite list_lookup_fmap_Some. split.
  - intros (j & -> & Hj). apply lookup_seq in Hj as [-> Hlt]. simpl in *.
    rewrite lookup_lookup_total; [done|]. apply Hd. lia.
  - intros E. exists i. split; [by rewrite (lookup_total_correct _ _ _ E)|apply lookup_seq; split; [done|]].
    assert (is_Some (comboCids s !! Z.of_nat i)) as H by eauto. apply Hd in H. lia.
Qed.

Lemma combo_pairs_length s : length (combo_pairs s) = Z.to_nat (usedComboCids s).
Proof. unfold combo_pairs. by rewrite length_fmap, length_seq. Qed.

(** A pair is in the table once: reuse keeps the list free of duplicates. *)
Lemma combo_pairs_NoDup s : combo_ok s -> NoDup (combo_pairs s).
Proof.
  intros Hok. apply NoDup_alt. intros i j k Hi Hj.
  apply combo_pairs_lookup in Hi, Hj; [|done..].
  destruct (comboHash s) as [h|] eqn:E.
  - apply (co_hash s Hok h E) in Hi, Hj. rewrite Hi in Hj. injection Hj. lia.
  - destruct (co_null s Hok E) as (He & _). by rewrite He, lookup_empty in Hi.
Qed.

Lemma combo_new_id cmin cmax s c s' : combo_ok s -> MkComboCidKey cmin cmax ∉ combo_pairs s ->
  GetComboCommandId cmin cmax s = Some (c, s') ->
  c = usedComboCids s /\ usedComboCids s' = usedComboCids s + 1 /\
  comboCids s' = <[usedComboCids s := MkComboCidKey cmin cmax]> (comboCids s).
Proof.
  intros Hok Hni. unfold GetComboCommandId.
  destruct (combo_create_ok s Hok) as (Hok1 & Hh1 & Hc1 & Hu1).
  destruct (combo_grow (combo_create s)) as [s1|] eqn:E; [|done]. simpl.
  destruct (combo_grow_ok _ _ Hok1 Hh1 E) as (Hok2 & Hh2 & Hc2 & Hu2 & Hlt).
  destruct (comboHash s1) as [h|] eqn:Eh; [simpl|congruence].
  destruct (h !! MkComboCidKey cmin cmax) as [c'|] eqn:El.
  - exfalso. apply Hni, list_elem_of_lookup. apply (co_hash s1 Hok2 h) in El; [|done].
    assert (0 <= c' < usedComboCids s1) as Hr by by apply (co_dom s1 Hok2).
    exists (Z.to_nat c'). apply combo_pairs_lookup; [done|].
    rewrite Z2Nat.id by lia. congruence.
  - intros [= <- <-]. cbn [comboCids usedComboCids]. by rewrite Hu2, Hu1, Hc2, Hc1.
Qed.

Lemma combo_pairs_snoc s s' k : combo_ok s -> combo_ok s' -> usedComboCids s' = usedComboCids s + 1 ->
  comboCids s' = <[usedComboCids s := k]> (comboCids s) -> combo_pairs s' = combo_pairs s ++ [k].
Proof.
  intros Hok Hok' Hu Hc. pose proof (co_used s Hok). unfold combo_pairs. rewrite Hu, Hc.
  rewrite Z2Nat.inj_add, seq_app, fmap_app by lia. f_equal.
  - apply list_fmap_ext. intros i x Hx. apply lookup_seq in Hx as [-> ?].
    unfold lookup_total, map_lookup_total. rewrite lookup_insert_ne by lia. done.
  - simpl. rewrite Z2Nat.id by lia. unfold lookup_total, map_lookup_total. by rewrite lookup_insert_eq.
Qed.

Lemma restore_loop_ok l : forall s, combo_ok s -> NoDup (combo_pairs s ++ l) ->
  usedComboCids s + zlength l <= max_combos ->
  exists s', restore_loop (length l) (usedComboCids s) (pair_words l) s = Some s' /\
             combo_ok s' /\ combo_pairs s' = combo_pairs s ++ l.
Proof.
  induction l as [|[a b] l IH]; intros s Hok Hnd Hmax.
  - exists s. by rewrite app_nil_r.
  - unfold zlength in *. cbn [length pair_words restore_loop] in *.
    destruct (GetComboCommandId_total a b s) as [[c s1] E]; [done|lia|]. cbn [key_cmin key_cmax]. rewrite E.
    assert (MkComboCidKey a b ∉ combo_pairs s) as Hni.
    { apply NoDup_app in Hnd as (_ & Hd & _). intros Hin. apply (Hd _ Hin). by left. }
    destruct (GetComboCommandId_ok _ _ _ _ _ Hok E) as (Hok1 & _).
    destruct (combo_new_id _ _ _ _ _ Hok Hni E) as (-> & Hu & Hc).
    cbn [mbind option_bind]. rewrite Z.eqb_refl, <- Hu.
    pose proof (combo_pairs_snoc _ _ _ Hok Hok1 Hu Hc) as Hp.
    destruct (IH s1) as (s' & -> & Hok' & Hp'); [done|by rewrite Hp, <- app_assoc|lia|].
    exists s'. split_and!; [done..|]. by rewrite Hp', Hp, <- app_assoc.
Qed.

Lemma combo_pairs_cids s s' : combo_ok s -> combo_ok s' -> combo_pairs s' = combo_pairs s -> comboCids s' = comboCids s.
Proof.
  intros Hok Hok' Hp. apply map_eq. intros c.
  assert (usedComboCids s' = usedComboCids s) as Hu.
  { pose proof (combo_pairs_length s). pose proof (combo_pairs_length s').
    pose proof (co_used s Hok). pose proof (co_used s' Hok'). rewrite Hp in *. lia. }
  destruct (decide (0 <= c < usedComboCids s)) as [Hc|Hc].
  - apply option_eq. intros k. rewrite <- (Z2Nat.id c) by lia. by rewrite <- !combo_pairs_lookup, Hp.
  - trans (@None ComboCidKeyData); [|symmetry]; apply eq_None_not_Some;
      [rewrite (co_dom s' Hok')|rewrite (co_dom s Hok)]; lia.
Qed.

(** The state of a backend that has no combo ids yet. *)
Definition combo_init : ComboCidState := MkComboCidState None ∅ 0 0.

(** ** Properties *)

(** Deleting a tuple that the transaction itself inserted records the
    deleting command without losing the inserting one: after the adjusted
    command id has been stored, the header still yields the old cmin and
    yields the deleting command as cmax, in the backend's table as it is
    then; the command ids of every other tuple keep their meaning; and the
    table can only refuse once the array has reached the size limit. *)
Theorem combo_cid_delete is_current tup cid s :
  combo_ok s -> cid_ok s tup ->
  (usedComboCids s < max_combos -> is_Some (HeapTupleHeaderAdjustCmax is_current tup cid s)) /\
  (forall c iscombo s', HeapTupleHeaderAdjustCmax is_current tup cid s = Some (c, iscombo, s') ->
    let tup' := HeapTupleHeaderSetCmax tup c iscombo in
    combo_ok s' /\ cid_ok s' tup' /\
    HeapTupleHeaderGetCmax s' tup' = cid /\
    (HeapTupleHeaderXminCommitted tup = false -> is_current (t_xmin tup) = true ->
     HeapTupleHeaderGetCmin s' tup' = HeapTupleHeaderGetCmin s tup) /\
    (forall other, cid_ok s other ->
       cid_ok s' other /\ HeapTupleHeaderGetCmin s' other = HeapTupleHeaderGetCmin s other /\
       HeapTupleHeaderGetCmax s' other = HeapTupleHeaderGetCmax s other)).
Proof.
  intros Hok Hcid. unfold HeapTupleHeaderAdjustCmax, HeapTupleHeaderGetRawXmin.
  destruct (negb (HeapTupleHeaderXminCommitted tup) && is_current (t_xmin tup)) eqn:E.
  - split.
    { intros H. destruct (GetComboCommandId_total (HeapTupleHeaderGetCmin s tup) cid s Hok H) as [[c s'] ->]. by eexists. }
    intros c b s'. destruct (GetComboCommandId _ _ _) as [[c' s1]|] eqn:Eg; [|done]. intros [= -> <- ->].
    destruct (GetComboCommandId_ok _ _ _ _ _ Hok Eg) as (Hok' & Hext & Hc & _ & Hu).
    destruct (combo_real _ _ _ _ Hc) as [H1 H2].
    unfold cid_ok at 1, HeapTupleHeaderGetCmax at 1, HeapTupleHeaderGetCmin at 1.
    rewrite combocid_set. split_and!; try done.
    + intros _. apply (co_dom s' Hok'). eexists. exact Hc.
    + intros o Ho. destruct (cids_extend s s' o Hok Hext Ho). split_and!; try done.
      intros Hf. specialize (Ho Hf). lia.
  - split; [by eexists|]. intros c b s' [= <- <- <-].
    unfold cid_ok at 1, HeapTupleHeaderGetCmax at 1. rewrite combocid_set. split_and!; try done.
    intros H1 H2. by rewrite H1, H2 in E.
Qed.

(** A tuple inserted by transaction 100 in command 3. *)
Definition demo_own_tuple : HeapTupleHeaderData :=
  MkHeapTupleHeader 100 0 3 (MkItemPointer 0 1) 2 HEAP_XMAX_INVALID.

Lemma combo_init_ok : combo_ok combo_init.
Proof. apply (AtEOXact_ComboCid_ok combo_init). Qed.

Lemma combo_cid_delete_witness :
  exists c s', HeapTupleHeaderAdjustCmax (Z.eqb 100) demo_own_tuple 7 combo_init = Some (c, true, s') /\
    HeapTupleHeaderGetCmax s' (HeapTupleHeaderSetCmax demo_own_tuple c true) = 7 /\
    HeapTupleHeaderGetCmin s' (HeapTupleHeaderSetCmax demo_own_tuple c true) = 3.
Proof.
  destruct (combo_cid_delete (Z.eqb 100) demo_own_tuple 7 combo_init) as [_ H].
  - apply combo_init_ok.
  - intros [=].
  - eexists _, _. split; [reflexivity|].
    destruct (H _ _ _ eq_refl) as (_ & _ & Hmax & Hmin & _). split; [exact Hmax|by apply Hmin].
Defined.

(** The combo id table survives its trip to a parallel worker: with the
    estimated amount of space the leader's table is written out, and the
    worker that restores it from there has a table in which every combo id of
    the leader denotes the same pair, and no others. *)
Theorem combo_cid_restore s maxsize :
  combo_ok s -> usedComboCids s <= max_combos -> EstimateComboCIDStateSpace s <= maxsize ->
  exists mem s', SerializeComboCIDState maxsize s = (mem, true) /\
    RestoreComboCIDState mem combo_init = Some s' /\
    combo_ok s' /\ comboCids s' = comboCids s /\ usedComboCids s' = usedComboCids s /\
    (forall tup, HeapTupleHeaderGetCmin s' tup = HeapTupleHeaderGetCmin s tup /\
                 HeapTupleHeaderGetCmax s' tup = HeapTupleHeaderGetCmax s tup).
Proof.
  intros Hok Hmax Hspace. unfold SerializeComboCIDState, EstimateComboCIDStateSpace in *.
  rewrite (proj2 (Z.ltb_ge _ _) Hspace).
  destruct (restore_loop_ok (combo_pairs s) combo_init) as (s' & Hr & Hok' & Hp).
  - apply combo_init_ok.
  - apply combo_pairs_NoDup, Hok.
  - pose proof (co_used s Hok). unfold zlength. rewrite combo_pairs_length. simpl. lia.
  - assert (comboCids s' = comboCids s) as Hc by by apply combo_pairs_cids.
    eexists _, s'. split; [reflexivity|]. split_and!; try done.
    + simpl. by rewrite <- combo_pairs_length.
    + pose proof (combo_pairs_length s'). pose proof (combo_pairs_length s).
      pose proof (co_used s Hok). pose proof (co_used s' Hok'). rewrite Hp in *. simpl in *. lia.
    + intros tup. unfold HeapTupleHeaderGetCmin, HeapTupleHeaderGetCmax, GetRealCmin, GetRealCmax. by rewrite Hc.
Qed.

Lemma combo_cid_restore_witness :
  exists s mem s', GetComboCommandId 3 7 combo_init = Some (0, s) /\
    SerializeComboCIDState 12 s = (mem, true) /\ RestoreComboCIDState mem combo_init = Some s' /\
    comboCids s' = comboCids s.
Proof.
  destruct (GetComboCommandId 3 7 combo_init) as [[c s]|] eqn:E; [|discriminate E].
  destruct (GetComboCommandId_ok 3 7 combo_init c s combo_init_ok E) as [Hok _].
  vm_compute in E. injection E as <- Es. destruct (combo_cid_restore s 12) as (mem & s' & H1 & H2 & _ & H3 & _).
  - exact Hok.
  - by subst.
  - by subst.
  - exists s, mem, s'. subst s. done.
Defined.
