(* ===== verification/Visibility.v ===== *)
(** * Tuple visibility

    [src/backend/access/heap/heapam_visibility.c], with the multixact queries
    of [heapam.c] and [multixact.c] that it makes.  A routine reads one tuple
    header, may add hint bits to it, and asks other components about
    transactions; since other backends run meanwhile, every question to shared
    state advances a clock and is answered as of that moment. *)

From S2P Require Import Prelude.
From S2P Require Import Search.
From S2P Require Import TransactionId.
From S2P Require Import HeapTuple.
From S2P Require Import ComboCid.
From S2P Require Import Snapshot.

Inductive MultiXactStatus :=
  | MultiXactStatusForKeyShare | MultiXactStatusForShare | MultiXactStatusForNoKeyUpdate
  | MultiXactStatusForUpdate | MultiXactStatusNoKeyUpdate | MultiXactStatusUpdate.

Definition ISUPDATE_from_mxstatus (status : MultiXactStatus) : bool :=
  match status with MultiXactStatusNoKeyUpdate | MultiXactStatusUpdate => true | _ => false end.

Record MultiXactMember := MkMember { mem_xid : Z; mem_status : MultiXactStatus }.

Inductive TM_Result :=
  | TM_Ok | TM_Invisible | TM_SelfModified | TM_Updated | TM_Deleted | TM_BeingModified | TM_WouldBlock.

Inductive HTSV_Result :=
  | HEAPTUPLE_DEAD | HEAPTUPLE_LIVE | HEAPTUPLE_RECENTLY_DEAD | HEAPTUPLE_INSERT_IN_PROGRESS
  | HEAPTUPLE_DELETE_IN_PROGRESS.

#[export] Instance HTSV_Result_eq_dec : EqDecision HTSV_Result.
Proof. solve_decision. Defined.

Definition InvalidCommandId : Z := 0xFFFFFFFF.

(** ** What the routines ask

    The answers of the shared components at each moment: the array of running
    transactions, the commit log, WAL, the multixact log, the page, and the
    approximate removal horizons. *)
Class World := {
  TransactionIdIsInProgress_at : nat -> Z -> bool;
  TransactionIdDidCommit_at : nat -> Z -> bool;
  TransactionIdGetCommitLSN_at : nat -> Z -> Z;
  XLogNeedsFlush_at : nat -> Z -> bool;
  BufferGetLSNAtomic_at : nat -> Z;
  GetMultiXactIdMembers_at : nat -> Z -> bool -> list MultiXactMember;
  GlobalVisTestIsRemovableXid_at : nat -> GlobalVisHorizonKind -> Z -> bool;
  BufferIsPermanent : bool;
}.

(** What belongs to the backend that asks: its own transaction ids, its combo
    command ids, and its view of subtransaction parents. *)
Record Asker := MkAsker {
  TransactionIdIsCurrentTransactionId : Z -> bool;
  comboState : ComboCidState;
  SubTransGetTopmostTransaction : Z -> Z;
}.

(** The tuple, the moment, and whether the buffer was marked dirty. *)
Record VisState := MkVis { v_tuple : HeapTupleHeaderData; v_clock : nat; v_dirty : bool }.

Section visibility.
Context `{W : World} (be : Asker).

Abbreviation IsCurrent := (TransactionIdIsCurrentTransactionId be).
Abbreviation GetCmin := (HeapTupleHeaderGetCmin (comboState be)).
Abbreviation GetCmax := (HeapTupleHeaderGetCmax (comboState be)).
Abbreviation InSnapshot := (XidInMVCCSnapshot (SubTransGetTopmostTransaction be)).

Definition ask {R A} (f : nat -> A) : prog VisState R A :=
  fun s => (MkVis (v_tuple s) (S (v_clock s)) (v_dirty s), inr (f (v_clock s))).

Definition TransactionIdIsInProgress {R} (xid : Z) : prog VisState R bool := ask (fun n => TransactionIdIsInProgress_at n xid).
Definition TransactionIdDidCommit {R} (xid : Z) : prog VisState R bool := ask (fun n => TransactionIdDidCommit_at n xid).
Definition GetMultiXactIdMembers {R} (multi : Z) (isLockOnly : bool) : prog VisState R (list MultiXactMember) :=
  ask (fun n => GetMultiXactIdMembers_at n multi isLockOnly).

(** ** Hint bits *)

(** The part of [SetHintBits] that decides whether it is too early. *)
Definition hint_too_early {R} (xid : Z) : prog VisState R bool := (
  if TransactionIdIsValid xid then
    commitLSN <- ask (fun n => TransactionIdGetCommitLSN_at n xid) ;;
    if BufferIsPermanent then
      needs <- ask (fun n => XLogNeedsFlush_at n commitLSN) ;;
      if needs then
        lsn <- ask (fun n => BufferGetLSNAtomic_at n) ;;
        pret (lsn <? commitLSN)
      else pret false
    else pret false
  else pret false)%prog.

Definition SetHintBits {R} (infomask xid : Z) : prog VisState R unit := (
  early <- hint_too_early xid ;;
  pwhen (negb early) (pmod (fun s => MkVis (add_flags (v_tuple s) infomask) (v_clock s) true)))%prog.

(** ** Multixacts *)

Fixpoint running_loop {R} (members : list MultiXactMember) : prog VisState R bool := (
  match members with
  | [] => pret false
  | m :: members =>
      b <- TransactionIdIsInProgress (mem_xid m) ;;
      if b then pret true else running_loop members
  end)%prog.

Definition MultiXactIdIsRunning {R} (multi : Z) (isLockOnly : bool) : prog VisState R bool := (
  members <- GetMultiXactIdMembers multi isLockOnly ;;
  if (length members =? 0)%nat then pret false
  else if existsb (fun m => IsCurrent (mem_xid m)) members then pret true
  else running_loop members)%prog.

(** The first updater, if any. *)
Fixpoint update_member (members : list MultiXactMember) : Z :=
  match members with
  | [] => InvalidTransactionId
  | m :: members => if negb (ISUPDATE_from_mxstatus (mem_status m)) then update_member members else mem_xid m
  end.

Definition MultiXactIdGetUpdateXid {R} (xmax : Z) : prog VisState R Z := (
  members <- GetMultiXactIdMembers xmax false ;;
  pret (update_member members))%prog.

Definition HeapTupleGetUpdateXid {R} (tuple : HeapTupleHeaderData) : prog VisState R Z :=
  MultiXactIdGetUpdateXid (HeapTupleHeaderGetRawXmax tuple).

Definition HeapTupleHeaderGetUpdateXid {R} (tuple : HeapTupleHeaderData) : prog VisState R Z :=
  if negb (flag_set (t_infomask tuple) HEAP_XMAX_INVALID)
     && flag_set (t_infomask tuple) HEAP_XMAX_IS_MULTI
     && negb (flag_set (t_infomask tuple) HEAP_XMAX_LOCK_ONLY)
  then HeapTupleGetUpdateXid tuple
  else pret (HeapTupleHeaderGetRawXmax tuple).

(** ** Tuples moved by an old VACUUM FULL

    The same two blocks stand in five routines; [busy] is the routine's test
    for a transaction that does not count as finished, and [r] what it returns
    for an invisible tuple. *)

Definition check_moved_off {R} (busy : Z -> prog VisState R bool) (r : R) (tuple : HeapTupleHeaderData)
  : prog VisState R unit := (
  let xvac := HeapTupleHeaderGetXvac tuple in
  if IsCurrent xvac then preturn r
  else
    b <- busy xvac ;;
    pwhen (negb b) (
      c <- TransactionIdDidCommit xvac ;;
      if c then SetHintBits HEAP_XMIN_INVALID InvalidTransactionId ;;; preturn r
      else SetHintBits HEAP_XMIN_COMMITTED InvalidTransactionId))%prog.

Definition check_moved_in {R} (busy : Z -> prog VisState R bool) (r : R) (tuple : HeapTupleHeaderData)
  : prog VisState R unit := (
  let xvac := HeapTupleHeaderGetXvac tuple in
  pwhen (negb (IsCurrent xvac)) (
    b <- busy xvac ;;
    if b then preturn r
    else
      c <- TransactionIdDidCommit xvac ;;
      if c then SetHintBits HEAP_XMIN_COMMITTED InvalidTransactionId
      else SetHintBits HEAP_XMIN_INVALID InvalidTransactionId ;;; preturn r))%prog.

(** The last two arms of the chain on xmin: it is not ours and not busy. *)
Definition check_xmin_committed {R} (r : R) (tuple : HeapTupleHeaderData) : prog VisState R unit := (
  c <- TransactionIdDidCommit (HeapTupleHeaderGetRawXmin tuple) ;;
  if c then SetHintBits HEAP_XMIN_COMMITTED (HeapTupleHeaderGetRawXmin tuple)
  else SetHintBits HEAP_XMIN_INVALID InvalidTransactionId ;;; preturn r)%prog.

(** ** HeapTupleSatisfiesSelf *)

(** A tuple that this transaction inserted; the block stands here and in
    [HeapTupleSatisfiesDirty]. *)
Definition check_own {R} (visible gone : R) (tuple : HeapTupleHeaderData) : prog VisState R unit := (
  if flag_set (t_infomask tuple) HEAP_XMAX_INVALID then preturn visible
  else if HEAP_XMAX_IS_LOCKED_ONLY (t_infomask tuple) then preturn visible
  else if flag_set (t_infomask tuple) HEAP_XMAX_IS_MULTI then
    xmax <- HeapTupleGetUpdateXid tuple ;;
    if negb (IsCurrent xmax) then preturn visible else preturn gone
  else if negb (IsCurrent (HeapTupleHeaderGetRawXmax tuple)) then
    SetHintBits HEAP_XMAX_INVALID InvalidTransactionId ;;; preturn visible
  else preturn gone)%prog.

Definition self_xmin : prog VisState bool unit := (
  tuple <- pget v_tuple ;;
  pwhen (negb (HeapTupleHeaderXminCommitted tuple)) (
    if HeapTupleHeaderXminInvalid tuple then preturn false
    else if flag_set (t_infomask tuple) HEAP_MOVED_OFF then check_moved_off TransactionIdIsInProgress false tuple
    else if flag_set (t_infomask tuple) HEAP_MOVED_IN then check_moved_in TransactionIdIsInProgress false tuple
    else if IsCurrent (HeapTupleHeaderGetRawXmin tuple) then check_own true false tuple
    else
      b <- TransactionIdIsInProgress (HeapTupleHeaderGetRawXmin tuple) ;;
      if b then preturn false else check_xmin_committed false tuple))%prog.

Definition self_xmax : prog VisState bool bool := (
  tuple <- pget v_tuple ;;
  if flag_set (t_infomask tuple) HEAP_XMAX_INVALID then preturn true
  else if flag_set (t_infomask tuple) HEAP_XMAX_COMMITTED then
    if HEAP_XMAX_IS_LOCKED_ONLY (t_infomask tuple) then preturn true else preturn false
  else if flag_set (t_infomask tuple) HEAP_XMAX_IS_MULTI then
    if HEAP_XMAX_IS_LOCKED_ONLY (t_infomask tuple) then preturn true
    else
      xmax <- HeapTupleGetUpdateXid tuple ;;
      if IsCurrent xmax then preturn false
      else
        b <- TransactionIdIsInProgress xmax ;;
        if b then preturn true
        else
          c <- TransactionIdDidCommit xmax ;;
          if c then preturn false else preturn true
  else if IsCurrent (HeapTupleHeaderGetRawXmax tuple) then
    if HEAP_XMAX_IS_LOCKED_ONLY (t_infomask tuple) then preturn true else preturn false
  else
    b <- TransactionIdIsInProgress (HeapTupleHeaderGetRawXmax tuple) ;;
    if b then preturn true
    else
      c <- TransactionIdDidCommit (HeapTupleHeaderGetRawXmax tuple) ;;
      if negb c then SetHintBits HEAP_XMAX_INVALID InvalidTransactionId ;;; preturn true
      else if HEAP_XMAX_IS_LOCKED_ONLY (t_infomask tuple) then
        SetHintBits HEAP_XMAX_INVALID InvalidTransactionId ;;; preturn true
      else
        SetHintBits HEAP_XMAX_COMMITTED (HeapTupleHeaderGetRawXmax tuple) ;;; preturn false)%prog.

Definition HeapTupleSatisfiesSelf : prog VisState bool bool := (self_xmin ;;; self_xmax)%prog.

Definition HeapTupleSatisfiesAny : prog VisState bool bool := (preturn true)%prog.

(** ** HeapTupleSatisfiesToast *)

Definition HeapTupleSatisfiesToast : prog VisState bool bool := (
  tuple <- pget v_tuple ;;
  pwhen (negb (HeapTupleHeaderXminCommitted tuple)) (
    if HeapTupleHeaderXminInvalid tuple then preturn false
    else if flag_set (t_infomask tuple) HEAP_MOVED_OFF then check_moved_off TransactionIdIsInProgress false tuple
    else if flag_set (t_infomask tuple) HEAP_MOVED_IN then check_moved_in TransactionIdIsInProgress false tuple
    else if negb (TransactionIdIsValid (HeapTupleHeaderGetXmin tuple)) then preturn false
    else pret tt) ;;;
  preturn true)%prog.

(** ** HeapTupleSatisfiesUpdate *)

(** "Updated after the scan started" or before. *)
Definition modified_by_us (curcid : Z) (tuple : HeapTupleHeaderData) : TM_Result :=
  if GetCmax tuple >=? curcid then TM_SelfModified else TM_Invisible.

(** [t_self] is the tuple's own address. *)
Definition updated_or_deleted (t_self : ItemPointerData) (tuple : HeapTupleHeaderData) : TM_Result :=
  if negb (ItemPointerEquals t_self (t_ctid tuple)) then TM_Updated else TM_Deleted.

Definition update_own (curcid : Z) (tuple : HeapTupleHeaderData) : prog VisState TM_Result unit := (
  if GetCmin tuple >=? curcid then preturn TM_Invisible
  else if flag_set (t_infomask tuple) HEAP_XMAX_INVALID then preturn TM_Ok
  else if HEAP_XMAX_IS_LOCKED_ONLY (t_infomask tuple) then
    let xmax := HeapTupleHeaderGetRawXmax tuple in
    if flag_set (t_infomask tuple) HEAP_XMAX_IS_MULTI then
      b <- MultiXactIdIsRunning xmax true ;;
      if b then preturn TM_BeingModified else preturn TM_Ok
    else
      b <- TransactionIdIsInProgress xmax ;;
      if negb b then preturn TM_Ok else preturn TM_BeingModified
  else if flag_set (t_infomask tuple) HEAP_XMAX_IS_MULTI then
    xmax <- HeapTupleGetUpdateXid tuple ;;
    if negb (IsCurrent xmax) then
      b <- MultiXactIdIsRunning (HeapTupleHeaderGetRawXmax tuple) false ;;
      if b then preturn TM_BeingModified else preturn TM_Ok
    else preturn (modified_by_us curcid tuple)
  else if negb (IsCurrent (HeapTupleHeaderGetRawXmax tuple)) then
    SetHintBits HEAP_XMAX_INVALID InvalidTransactionId ;;; preturn TM_Ok
  else preturn (modified_by_us curcid tuple))%prog.

Definition update_xmin (curcid : Z) : prog VisState TM_Result unit := (
  tuple <- pget v_tuple ;;
  pwhen (negb (HeapTupleHeaderXminCommitted tuple)) (
    if HeapTupleHeaderXminInvalid tuple then preturn TM_Invisible
    else if flag_set (t_infomask tuple) HEAP_MOVED_OFF then check_moved_off TransactionIdIsInProgress TM_Invisible tuple
    else if flag_set (t_infomask tuple) HEAP_MOVED_IN then check_moved_in TransactionIdIsInProgress TM_Invisible tuple
    else if IsCurrent (HeapTupleHeaderGetRawXmin tuple) then update_own curcid tuple
    else
      b <- TransactionIdIsInProgress (HeapTupleHeaderGetRawXmin tuple) ;;
      if b then preturn TM_Invisible else check_xmin_committed TM_Invisible tuple))%prog.

(** The inserter committed and xmax is an unresolved multixact. *)
Definition update_multi (curcid : Z) (t_self : ItemPointerData) (tuple : HeapTupleHeaderData)
  : prog VisState TM_Result TM_Result := (
  if HEAP_LOCKED_UPGRADED (t_infomask tuple) then preturn TM_Ok
  else if HEAP_XMAX_IS_LOCKED_ONLY (t_infomask tuple) then
    b <- MultiXactIdIsRunning (HeapTupleHeaderGetRawXmax tuple) true ;;
    if b then preturn TM_BeingModified
    else SetHintBits HEAP_XMAX_INVALID InvalidTransactionId ;;; preturn TM_Ok
  else
    xmax <- HeapTupleGetUpdateXid tuple ;;
    pwhen (negb (TransactionIdIsValid xmax)) (
      b <- MultiXactIdIsRunning (HeapTupleHeaderGetRawXmax tuple) false ;;
      pwhen b (preturn TM_BeingModified)) ;;;
    if IsCurrent xmax then preturn (modified_by_us curcid tuple)
    else
      b <- MultiXactIdIsRunning (HeapTupleHeaderGetRawXmax tuple) false ;;
      if b then preturn TM_BeingModified
      else
        c <- TransactionIdDidCommit xmax ;;
        if c then preturn (updated_or_deleted t_self tuple)
        else
          b <- MultiXactIdIsRunning (HeapTupleHeaderGetRawXmax tuple) false ;;
          if negb b then SetHintBits HEAP_XMAX_INVALID InvalidTransactionId ;;; preturn TM_Ok
          else preturn TM_BeingModified)%prog.

Definition update_xmax (curcid : Z) (t_self : ItemPointerData) : prog VisState TM_Result TM_Result := (
  tuple <- pget v_tuple ;;
  if flag_set (t_infomask tuple) HEAP_XMAX_INVALID then preturn TM_Ok
  else if flag_set (t_infomask tuple) HEAP_XMAX_COMMITTED then
    if HEAP_XMAX_IS_LOCKED_ONLY (t_infomask tuple) then preturn TM_Ok
    else preturn (updated_or_deleted t_self tuple)
  else if flag_set (t_infomask tuple) HEAP_XMAX_IS_MULTI then update_multi curcid t_self tuple
  else if IsCurrent (HeapTupleHeaderGetRawXmax tuple) then
    if HEAP_XMAX_IS_LOCKED_ONLY (t_infomask tuple) then preturn TM_BeingModified
    else preturn (modified_by_us curcid tuple)
  else
    b <- TransactionIdIsInProgress (HeapTupleHeaderGetRawXmax tuple) ;;
    if b then preturn TM_BeingModified
    else
      c <- TransactionIdDidCommit (HeapTupleHeaderGetRawXmax tuple) ;;
      if negb c then SetHintBits HEAP_XMAX_INVALID InvalidTransactionId ;;; preturn TM_Ok
      else if HEAP_XMAX_IS_LOCKED_ONLY (t_infomask tuple) then
        SetHintBits HEAP_XMAX_INVALID InvalidTransactionId ;;; preturn TM_Ok
      else
        SetHintBits HEAP_XMAX_COMMITTED (HeapTupleHeaderGetRawXmax tuple) ;;;
        preturn (updated_or_deleted t_self tuple))%prog.

Definition HeapTupleSatisfiesUpdate (t_self : ItemPointerData) (curcid : Z) : prog VisState TM_Result TM_Result :=
  (update_xmin curcid ;;; update_xmax curcid t_self)%prog.

(** ** HeapTupleSatisfiesDirty

    The snapshot is an output: it is returned with the verdict. *)

Definition dirty_snapshot (s : SnapshotData) (xmin xmax token : Z) : SnapshotData :=
  MkSnapshot (snapshot_type s) xmin xmax (xip s) (subxip s) (suboverflowed s)
    (takenDuringRecovery s) (curcid s) token (vistest s) (snapXactCompletionCount s).

Definition dirty_xmin (snap : SnapshotData) : prog VisState (bool * SnapshotData) unit := (
  tuple <- pget v_tuple ;;
  pwhen (negb (HeapTupleHeaderXminCommitted tuple)) (
    if HeapTupleHeaderXminInvalid tuple then preturn (false, snap)
    else if flag_set (t_infomask tuple) HEAP_MOVED_OFF then check_moved_off TransactionIdIsInProgress (false, snap) tuple
    else if flag_set (t_infomask tuple) HEAP_MOVED_IN then check_moved_in TransactionIdIsInProgress (false, snap) tuple
    else if IsCurrent (HeapTupleHeaderGetRawXmin tuple) then check_own (true, snap) (false, snap) tuple
    else
      b <- TransactionIdIsInProgress (HeapTupleHeaderGetRawXmin tuple) ;;
      if b then
        preturn (true, dirty_snapshot snap (HeapTupleHeaderGetRawXmin tuple) (snap_xmax snap)
                         (if HeapTupleHeaderIsSpeculative tuple then HeapTupleHeaderGetSpeculativeToken tuple
                          else speculativeToken snap))
      else check_xmin_committed (false, snap) tuple))%prog.

Definition dirty_xmax (snap : SnapshotData) : prog VisState (bool * SnapshotData) (bool * SnapshotData) := (
  tuple <- pget v_tuple ;;
  if flag_set (t_infomask tuple) HEAP_XMAX_INVALID then preturn (true, snap)
  else if flag_set (t_infomask tuple) HEAP_XMAX_COMMITTED then
    if HEAP_XMAX_IS_LOCKED_ONLY (t_infomask tuple) then preturn (true, snap) else preturn (false, snap)
  else if flag_set (t_infomask tuple) HEAP_XMAX_IS_MULTI then
    if HEAP_XMAX_IS_LOCKED_ONLY (t_infomask tuple) then preturn (true, snap)
    else
      xmax <- HeapTupleGetUpdateXid tuple ;;
      if IsCurrent xmax then preturn (false, snap)
      else
        b <- TransactionIdIsInProgress xmax ;;
        if b then preturn (true, dirty_snapshot snap (snap_xmin snap) xmax (speculativeToken snap))
        else
          c <- TransactionIdDidCommit xmax ;;
          if c then preturn (false, snap) else preturn (true, snap)
  else if IsCurrent (HeapTupleHeaderGetRawXmax tuple) then
    if HEAP_XMAX_IS_LOCKED_ONLY (t_infomask tuple) then preturn (true, snap) else preturn (false, snap)
  else
    b <- TransactionIdIsInProgress (HeapTupleHeaderGetRawXmax tuple) ;;
    if b then
      if negb (HEAP_XMAX_IS_LOCKED_ONLY (t_infomask tuple))
      then preturn (true, dirty_snapshot snap (snap_xmin snap) (HeapTupleHeaderGetRawXmax tuple) (speculativeToken snap))
      else preturn (true, snap)
    else
      c <- TransactionIdDidCommit (HeapTupleHeaderGetRawXmax tuple) ;;
      if negb c then SetHintBits HEAP_XMAX_INVALID InvalidTransactionId ;;; preturn (true, snap)
      else if HEAP_XMAX_IS_LOCKED_ONLY (t_infomask tuple) then
        SetHintBits HEAP_XMAX_INVALID InvalidTransactionId ;;; preturn (true, snap)
      else
        SetHintBits HEAP_XMAX_COMMITTED (HeapTupleHeaderGetRawXmax tuple) ;;; preturn (false, snap))%prog.

Definition HeapTupleSatisfiesDirty (snapshot : SnapshotData) : prog VisState (bool * SnapshotData) (bool * SnapshotData) := (
  let snap := dirty_snapshot snapshot InvalidTransactionId InvalidTransactionId 0 in
  dirty_xmin snap ;;; dirty_xmax snap)%prog.

(** ** HeapTupleSatisfiesMVCC *)

(** "Deleted after the scan started" or before. *)
Definition deleted_after (snapshot : SnapshotData) (tuple : HeapTupleHeaderData) : bool :=
  if GetCmax tuple >=? curcid snapshot then true else false.

Definition mvcc_own (snapshot : SnapshotData) (tuple : HeapTupleHeaderData) : prog VisState bool unit := (
  if GetCmin tuple >=? curcid snapshot then preturn false
  else if flag_set (t_infomask tuple) HEAP_XMAX_INVALID then preturn true
  else if HEAP_XMAX_IS_LOCKED_ONLY (t_infomask tuple) then preturn true
  else if flag_set (t_infomask tuple) HEAP_XMAX_IS_MULTI then
    xmax <- HeapTupleGetUpdateXid tuple ;;
    if negb (IsCurrent xmax) then preturn true
    else preturn (deleted_after snapshot tuple)
  else if negb (IsCurrent (HeapTupleHeaderGetRawXmax tuple)) then
    SetHintBits HEAP_XMAX_INVALID InvalidTransactionId ;;; preturn true
  else preturn (deleted_after snapshot tuple))%prog.

(** A snapshot does not change, so asking it takes no time. *)
Definition mvcc_xmin (snapshot : SnapshotData) : prog VisState bool unit := (
  tuple <- pget v_tuple ;;
  if negb (HeapTupleHeaderXminCommitted tuple) then
    if HeapTupleHeaderXminInvalid tuple then preturn false
    else if flag_set (t_infomask tuple) HEAP_MOVED_OFF
      then check_moved_off (fun x => pret (InSnapshot x snapshot)) false tuple
    else if flag_set (t_infomask tuple) HEAP_MOVED_IN
      then check_moved_in (fun x => pret (InSnapshot x snapshot)) false tuple
    else if IsCurrent (HeapTupleHeaderGetRawXmin tuple) then mvcc_own snapshot tuple
    else if InSnapshot (HeapTupleHeaderGetRawXmin tuple) snapshot then preturn false
    else check_xmin_committed false tuple
  else
    pwhen (negb (HeapTupleHeaderXminFrozen tuple) && InSnapshot (HeapTupleHeaderGetRawXmin tuple) snapshot)
      (preturn false))%prog.

Definition mvcc_xmax (snapshot : SnapshotData) : prog VisState bool bool := (
  tuple <- pget v_tuple ;;
  if flag_set (t_infomask tuple) HEAP_XMAX_INVALID then preturn true
  else if HEAP_XMAX_IS_LOCKED_ONLY (t_infomask tuple) then preturn true
  else if flag_set (t_infomask tuple) HEAP_XMAX_IS_MULTI then
    xmax <- HeapTupleGetUpdateXid tuple ;;
    if IsCurrent xmax then preturn (deleted_after snapshot tuple)
    else if InSnapshot xmax snapshot then preturn true
    else
      c <- TransactionIdDidCommit xmax ;;
      if c then preturn false else preturn true
  else if negb (flag_set (t_infomask tuple) HEAP_XMAX_COMMITTED) then
    if IsCurrent (HeapTupleHeaderGetRawXmax tuple) then preturn (deleted_after snapshot tuple)
    else if InSnapshot (HeapTupleHeaderGetRawXmax tuple) snapshot then preturn true
    else
      c <- TransactionIdDidCommit (HeapTupleHeaderGetRawXmax tuple) ;;
      if negb c then SetHintBits HEAP_XMAX_INVALID InvalidTransactionId ;;; preturn true
      else SetHintBits HEAP_XMAX_COMMITTED (HeapTupleHeaderGetRawXmax tuple) ;;; preturn false
  else if InSnapshot (HeapTupleHeaderGetRawXmax tuple) snapshot then preturn true
  else preturn false)%prog.

Definition HeapTupleSatisfiesMVCC (snapshot : SnapshotData) : prog VisState bool bool :=
  (mvcc_xmin snapshot ;;; mvcc_xmax snapshot)%prog.

(** ** Is it only locked? *)

Definition HeapTupleHeaderIsOnlyLocked {R} (tuple : HeapTupleHeaderData) : prog VisState R bool := (
  if flag_set (t_infomask tuple) HEAP_XMAX_INVALID then pret true
  else if flag_set (t_infomask tuple) HEAP_XMAX_LOCK_ONLY then pret true
  else if negb (TransactionIdIsValid (HeapTupleHeaderGetRawXmax tuple)) then pret true
  else if negb (flag_set (t_infomask tuple) HEAP_XMAX_IS_MULTI) then pret false
  else
    xmax <- HeapTupleGetUpdateXid tuple ;;
    if IsCurrent xmax then pret false
    else
      b <- TransactionIdIsInProgress xmax ;;
      if b then pret false
      else
        c <- TransactionIdDidCommit xmax ;;
        if c then pret false else pret true)%prog.

(** ** HeapTupleSatisfiesVacuum

    The workhorse returns the verdict with [dead_after]. *)

Definition vacuum_own (tuple : HeapTupleHeaderData) : prog VisState (HTSV_Result * Z) unit := (
  if flag_set (t_infomask tuple) HEAP_XMAX_INVALID then preturn (HEAPTUPLE_INSERT_IN_PROGRESS, InvalidTransactionId)
  else
    locked <- (if HEAP_XMAX_IS_LOCKED_ONLY (t_infomask tuple) then pret true else HeapTupleHeaderIsOnlyLocked tuple) ;;
    if locked then preturn (HEAPTUPLE_INSERT_IN_PROGRESS, InvalidTransactionId)
    else
      xmax <- HeapTupleHeaderGetUpdateXid tuple ;;
      if IsCurrent xmax then preturn (HEAPTUPLE_DELETE_IN_PROGRESS, InvalidTransactionId)
      else preturn (HEAPTUPLE_INSERT_IN_PROGRESS, InvalidTransactionId))%prog.

Definition vacuum_moved_off (tuple : HeapTupleHeaderData) : prog VisState (HTSV_Result * Z) unit := (
  let xvac := HeapTupleHeaderGetXvac tuple in
  if IsCurrent xvac then preturn (HEAPTUPLE_DELETE_IN_PROGRESS, InvalidTransactionId)
  else
    b <- TransactionIdIsInProgress xvac ;;
    if b then preturn (HEAPTUPLE_DELETE_IN_PROGRESS, InvalidTransactionId)
    else
      c <- TransactionIdDidCommit xvac ;;
      if c then SetHintBits HEAP_XMIN_INVALID InvalidTransactionId ;;; preturn (HEAPTUPLE_DEAD, InvalidTransactionId)
      else SetHintBits HEAP_XMIN_COMMITTED InvalidTransactionId)%prog.

Definition vacuum_moved_in (tuple : HeapTupleHeaderData) : prog VisState (HTSV_Result * Z) unit := (
  let xvac := HeapTupleHeaderGetXvac tuple in
  if IsCurrent xvac then preturn (HEAPTUPLE_INSERT_IN_PROGRESS, InvalidTransactionId)
  else
    b <- TransactionIdIsInProgress xvac ;;
    if b then preturn (HEAPTUPLE_INSERT_IN_PROGRESS, InvalidTransactionId)
    else
      c <- TransactionIdDidCommit xvac ;;
      if c then SetHintBits HEAP_XMIN_COMMITTED InvalidTransactionId
      else SetHintBits HEAP_XMIN_INVALID InvalidTransactionId ;;; preturn (HEAPTUPLE_DEAD, InvalidTransactionId))%prog.

Definition vacuum_xmin : prog VisState (HTSV_Result * Z) unit := (
  tuple <- pget v_tuple ;;
  pwhen (negb (HeapTupleHeaderXminCommitted tuple)) (
    if HeapTupleHeaderXminInvalid tuple then preturn (HEAPTUPLE_DEAD, InvalidTransactionId)
    else if flag_set (t_infomask tuple) HEAP_MOVED_OFF then vacuum_moved_off tuple
    else if flag_set (t_infomask tuple) HEAP_MOVED_IN then vacuum_moved_in tuple
    else if IsCurrent (HeapTupleHeaderGetRawXmin tuple) then vacuum_own tuple
    else
      b <- TransactionIdIsInProgress (HeapTupleHeaderGetRawXmin tuple) ;;
      if b then preturn (HEAPTUPLE_INSERT_IN_PROGRESS, InvalidTransactionId)
      else check_xmin_committed (HEAPTUPLE_DEAD, InvalidTransactionId) tuple))%prog.

(** The inserter committed and xmax is a lock. *)
Definition vacuum_locked (tuple : HeapTupleHeaderData) : prog VisState (HTSV_Result * Z) (HTSV_Result * Z) := (
  pwhen (negb (flag_set (t_infomask tuple) HEAP_XMAX_COMMITTED)) (
    if flag_set (t_infomask tuple) HEAP_XMAX_IS_MULTI then
      b <- (if negb (HEAP_LOCKED_UPGRADED (t_infomask tuple))
            then MultiXactIdIsRunning (HeapTupleHeaderGetRawXmax tuple) true else pret false) ;;
      if b then preturn (HEAPTUPLE_LIVE, InvalidTransactionId)
      else SetHintBits HEAP_XMAX_INVALID InvalidTransactionId
    else
      b <- TransactionIdIsInProgress (HeapTupleHeaderGetRawXmax tuple) ;;
      if b then preturn (HEAPTUPLE_LIVE, InvalidTransactionId)
      else SetHintBits HEAP_XMAX_INVALID InvalidTransactionId) ;;;
  preturn (HEAPTUPLE_LIVE, InvalidTransactionId))%prog.

Definition vacuum_multi (tuple : HeapTupleHeaderData) : prog VisState (HTSV_Result * Z) (HTSV_Result * Z) := (
  xmax <- HeapTupleGetUpdateXid tuple ;;
  b <- TransactionIdIsInProgress xmax ;;
  if b then preturn (HEAPTUPLE_DELETE_IN_PROGRESS, InvalidTransactionId)
  else
    c <- TransactionIdDidCommit xmax ;;
    if c then preturn (HEAPTUPLE_RECENTLY_DEAD, xmax)
    else
      r <- MultiXactIdIsRunning (HeapTupleHeaderGetRawXmax tuple) false ;;
      pwhen (negb r) (SetHintBits HEAP_XMAX_INVALID InvalidTransactionId) ;;;
      preturn (HEAPTUPLE_LIVE, InvalidTransactionId))%prog.

Definition vacuum_xmax : prog VisState (HTSV_Result * Z) (HTSV_Result * Z) := (
  tuple <- pget v_tuple ;;
  if flag_set (t_infomask tuple) HEAP_XMAX_INVALID then preturn (HEAPTUPLE_LIVE, InvalidTransactionId)
  else if HEAP_XMAX_IS_LOCKED_ONLY (t_infomask tuple) then vacuum_locked tuple
  else if flag_set (t_infomask tuple) HEAP_XMAX_IS_MULTI then vacuum_multi tuple
  else
    pwhen (negb (flag_set (t_infomask tuple) HEAP_XMAX_COMMITTED)) (
      b <- TransactionIdIsInProgress (HeapTupleHeaderGetRawXmax tuple) ;;
      if b then preturn (HEAPTUPLE_DELETE_IN_PROGRESS, InvalidTransactionId)
      else
        c <- TransactionIdDidCommit (HeapTupleHeaderGetRawXmax tuple) ;;
        if c then SetHintBits HEAP_XMAX_COMMITTED (HeapTupleHeaderGetRawXmax tuple)
        else SetHintBits HEAP_XMAX_INVALID InvalidTransactionId ;;; preturn (HEAPTUPLE_LIVE, InvalidTransactionId)) ;;;
    preturn (HEAPTUPLE_RECENTLY_DEAD, HeapTupleHeaderGetRawXmax tuple))%prog.

Definition HeapTupleSatisfiesVacuumHorizon : prog VisState (HTSV_Result * Z) (HTSV_Result * Z) :=
  (vacuum_xmin ;;; vacuum_xmax)%prog.

Definition HeapTupleSatisfiesVacuum (OldestXmin : Z) (s : VisState) : HTSV_Result * VisState :=
  let '(res, dead_after, s) := prun HeapTupleSatisfiesVacuumHorizon s in
  if decide (res = HEAPTUPLE_RECENTLY_DEAD) then
    (if TransactionIdPrecedes dead_after OldestXmin then HEAPTUPLE_DEAD else res, s)
  else (res, s).

Definition HeapTupleSatisfiesNonVacuumable (snapshot : SnapshotData) (s : VisState) : bool * VisState :=
  let '(res, dead_after, s) := prun HeapTupleSatisfiesVacuumHorizon s in
  let '(res, s) :=
    if decide (res = HEAPTUPLE_RECENTLY_DEAD) then
      let removable := GlobalVisTestIsRemovableXid_at (v_clock s) (vistest snapshot) dead_after in
      (if removable then HEAPTUPLE_DEAD else res, MkVis (v_tuple s) (S (v_clock s)) (v_dirty s))
    else (res, s) in
  (bool_decide (res <> HEAPTUPLE_DEAD), s).

Definition HeapTupleIsSurelyDead (kind : GlobalVisHorizonKind) : prog VisState bool bool := (
  tuple <- pget v_tuple ;;
  if negb (HeapTupleHeaderXminCommitted tuple) then preturn (HeapTupleHeaderXminInvalid tuple)
  else if flag_set (t_infomask tuple) HEAP_XMAX_INVALID then preturn false
  else if HEAP_XMAX_IS_LOCKED_ONLY (t_infomask tuple) then preturn false
  else if flag_set (t_infomask tuple) HEAP_XMAX_IS_MULTI then preturn false
  else if negb (flag_set (t_infomask tuple) HEAP_XMAX_COMMITTED) then preturn false
  else
    b <- ask (fun n => GlobalVisTestIsRemovableXid_at n kind (HeapTupleHeaderGetRawXmax tuple)) ;;
    preturn b)%prog.

(** ** HeapTupleSatisfiesHistoricMVCC

    [bsearch] over the sorted array. *)
Definition TransactionIdInArray (xid : Z) (a : list Z) : bool :=
  (0 <? zlength a) && binary_search (S (length a)) Z.eqb Z.ltb a xid 0 (zlength a - 1).

(** [resolved] is the outcome of [ResolveCminCmaxDuringDecoding] for this
    tuple: its cmin and cmax, if the combo command id has been decoded. *)
Definition historic_xmin (resolved : option (Z * Z)) (snapshot : SnapshotData) (tuple : HeapTupleHeaderData)
  : prog VisState bool unit := (
  let xmin := HeapTupleHeaderGetXmin tuple in
  if HeapTupleHeaderXminInvalid tuple then preturn false
  else if TransactionIdInArray xmin (subxip snapshot) then
    match resolved with
    | None => preturn false
    | Some (cmin, _) => if cmin >=? curcid snapshot then preturn false else pret tt
    end
  else if TransactionIdPrecedes xmin (snap_xmin snapshot) then
    pwhen (negb (HeapTupleHeaderXminCommitted tuple)) (
      c <- TransactionIdDidCommit xmin ;;
      pwhen (negb c) (preturn false))
  else if TransactionIdFollowsOrEquals xmin (snap_xmax snapshot) then preturn false
  else if TransactionIdInArray xmin (xip snapshot) then pret tt
  else preturn false)%prog.

Definition historic_xmax (resolved : option (Z * Z)) (snapshot : SnapshotData) (tuple : HeapTupleHeaderData)
  : prog VisState bool bool := (
  if flag_set (t_infomask tuple) HEAP_XMAX_INVALID then preturn true
  else if HEAP_XMAX_IS_LOCKED_ONLY (t_infomask tuple) then preturn true
  else
    xmax <- (if flag_set (t_infomask tuple) HEAP_XMAX_IS_MULTI then HeapTupleGetUpdateXid tuple
             else pret (HeapTupleHeaderGetRawXmax tuple)) ;;
    if TransactionIdInArray xmax (subxip snapshot) then
      match resolved with
      | None => preturn true
      | Some (_, cmax) =>
          if cmax =? InvalidCommandId then preturn true
          else if cmax >=? curcid snapshot then preturn true else preturn false
      end
    else if TransactionIdPrecedes xmax (snap_xmin snapshot) then
      if flag_set (t_infomask tuple) HEAP_XMAX_COMMITTED then preturn false
      else c <- TransactionIdDidCommit xmax ;; preturn (negb c)
    else if TransactionIdFollowsOrEquals xmax (snap_xmax snapshot) then preturn true
    else if TransactionIdInArray xmax (xip snapshot) then preturn false
    else preturn true)%prog.

Definition HeapTupleSatisfiesHistoricMVCC (resolved : option (Z * Z)) (snapshot : SnapshotData)
  : prog VisState bool bool := (
  tuple <- pget v_tuple ;;
  historic_xmin resolved snapshot tuple ;;; historic_xmax resolved snapshot tuple)%prog.

(** ** The dispatcher

    Only [SNAPSHOT_DIRTY] changes the snapshot. *)
Definition HeapTupleSatisfiesVisibility (resolved : option (Z * Z)) (snapshot : SnapshotData) (s : VisState)
  : bool * SnapshotData * VisState :=
  let plain (m : prog VisState bool bool) := let '(b, s) := prun m s in (b, snapshot, s) in
  match snapshot_type snapshot with
  | SNAPSHOT_MVCC => plain (HeapTupleSatisfiesMVCC snapshot)
  | SNAPSHOT_SELF => plain HeapTupleSatisfiesSelf
  | SNAPSHOT_ANY => plain HeapTupleSatisfiesAny
  | SNAPSHOT_TOAST => plain HeapTupleSatisfiesToast
  | SNAPSHOT_DIRTY => prun (HeapTupleSatisfiesDirty snapshot) s
  | SNAPSHOT_HISTORIC_MVCC => plain (HeapTupleSatisfiesHistoricMVCC resolved snapshot)
  | SNAPSHOT_NON_VACUUMABLE => let '(b, s) := HeapTupleSatisfiesNonVacuumable snapshot s in (b, snapshot, s)
  end.
End visibility.
