(* ===== verification/MultiXactPages.v ===== *)
(** * The pages of the multixact logs

    The layout that [src/backend/access/transam/multixact.c] gives to its two
    SLRU areas: four bytes per multixact in the offsets area, and in the members
    area groups of four status bytes followed by the four transaction ids they
    belong to, 409 groups to a page. *)

From S2P Require Import Prelude.
From S2P Require Import Slru.
From S2P Require Import SlruEntries.
From S2P Require Import Visibility.

Definition InvalidMultiXactId : Z := 0.
Definition FirstMultiXactId : Z := 1.
Definition MaxMultiXactId : Z := 0xFFFFFFFF.
Definition MaxMultiXactOffset : Z := 0xFFFFFFFF.
Definition MultiXactIdIsValid (multi : Z) : bool := negb (multi =? InvalidMultiXactId).

Definition MULTIXACT_OFFSETS_PER_PAGE : Z := BLCKSZ / 4.
Definition MultiXactIdToOffsetPage (multi : Z) : Z := multi / MULTIXACT_OFFSETS_PER_PAGE.
Definition MultiXactIdToOffsetEntry (multi : Z) : Z := multi mod MULTIXACT_OFFSETS_PER_PAGE.

Definition MXACT_MEMBER_BITS_PER_XACT : Z := 8.
Definition MXACT_MEMBER_FLAGS_PER_BYTE : Z := 1.
Definition MXACT_MEMBER_XACT_BITMASK : Z := Z.shiftl 1 MXACT_MEMBER_BITS_PER_XACT - 1.
Definition MULTIXACT_FLAGBYTES_PER_GROUP : Z := 4.
Definition MULTIXACT_MEMBERS_PER_MEMBERGROUP : Z := MULTIXACT_FLAGBYTES_PER_GROUP * MXACT_MEMBER_FLAGS_PER_BYTE.
Definition MULTIXACT_MEMBERGROUP_SIZE : Z :=
  4 * MULTIXACT_MEMBERS_PER_MEMBERGROUP + MULTIXACT_FLAGBYTES_PER_GROUP.
Definition MULTIXACT_MEMBERGROUPS_PER_PAGE : Z := BLCKSZ / MULTIXACT_MEMBERGROUP_SIZE.
Definition MULTIXACT_MEMBERS_PER_PAGE : Z := MULTIXACT_MEMBERGROUPS_PER_PAGE * MULTIXACT_MEMBERS_PER_MEMBERGROUP.
Definition MAX_MEMBERS_IN_LAST_MEMBERS_PAGE : Z := u32 (0xFFFFFFFF mod MULTIXACT_MEMBERS_PER_PAGE + 1).

Definition MXOffsetToMemberPage (offset : Z) : Z := offset / MULTIXACT_MEMBERS_PER_PAGE.
Definition MXOffsetToMemberSegment (offset : Z) : Z := MXOffsetToMemberPage offset / SLRU_PAGES_PER_SEGMENT.

Definition MXOffsetToFlagsOffset (offset : Z) : Z :=
  let group := offset / MULTIXACT_MEMBERS_PER_MEMBERGROUP in
  let grouponpg := group mod MULTIXACT_MEMBERGROUPS_PER_PAGE in
  grouponpg * MULTIXACT_MEMBERGROUP_SIZE.

Definition MXOffsetToFlagsBitShift (offset : Z) : Z :=
  let member_in_group := offset mod MULTIXACT_MEMBERS_PER_MEMBERGROUP in
  member_in_group * MXACT_MEMBER_BITS_PER_XACT.

Definition MXOffsetToMemberOffset (offset : Z) : Z :=
  let member_in_group := offset mod MULTIXACT_MEMBERS_PER_MEMBERGROUP in
  MXOffsetToFlagsOffset offset + MULTIXACT_FLAGBYTES_PER_GROUP + member_in_group * 4.

(** The numbers of the enumeration. *)
Definition mxstatus_code (status : MultiXactStatus) : Z :=
  match status with
  | MultiXactStatusForKeyShare => 0
  | MultiXactStatusForShare => 1
  | MultiXactStatusForNoKeyUpdate => 2
  | MultiXactStatusForUpdate => 3
  | MultiXactStatusNoKeyUpdate => 4
  | MultiXactStatusUpdate => 5
  end.

(** A stored byte as a status.  The source does not look at bytes that are no
    status; they have none here. *)
Definition mxstatus_of (code : Z) : option MultiXactStatus :=
  if code =? 0 then Some MultiXactStatusForKeyShare
  else if code =? 1 then Some MultiXactStatusForShare
  else if code =? 2 then Some MultiXactStatusForNoKeyUpdate
  else if code =? 3 then Some MultiXactStatusForUpdate
  else if code =? 4 then Some MultiXactStatusNoKeyUpdate
  else if code =? 5 then Some MultiXactStatusUpdate
  else None.

(** [*offptr] for the entry of a multixact. *)
Definition get_offset (pg : list Z) (multi : Z) : Z := get_le pg (4 * MultiXactIdToOffsetEntry multi) 4.
Definition put_offset (multi offset : Z) (pg : list Z) : list Z := put_le pg (4 * MultiXactIdToOffsetEntry multi) 4 offset.

Definition get_member_xid (pg : list Z) (offset : Z) : Z := get_le pg (MXOffsetToMemberOffset offset) 4.
Definition get_member_code (pg : list Z) (offset : Z) : Z :=
  Z.land (Z.shiftr (get_le pg (MXOffsetToFlagsOffset offset) 4) (MXOffsetToFlagsBitShift offset)) MXACT_MEMBER_XACT_BITMASK.

(** The flags word with one status replaced. *)
Definition set_flags (flagsval bshift code : Z) : Z :=
  Z.lor (Z.land flagsval (u32 (Z.lnot (Z.shiftl (Z.shiftl 1 MXACT_MEMBER_BITS_PER_XACT - 1) bshift))))
    (Z.shiftl code bshift).

Definition put_member (offset : Z) (m : MultiXactMember) (pg : list Z) : list Z :=
  let pg := put_le pg (MXOffsetToMemberOffset offset) 4 (mem_xid m) in
  let flagsoff := MXOffsetToFlagsOffset offset in
  put_le pg flagsoff 4 (set_flags (get_le pg flagsoff 4) (MXOffsetToFlagsBitShift offset) (mxstatus_code (mem_status m))).

(** ** Bits of a flags word *)

Lemma testbit_byte c n : 0 <= c < 256 -> 8 <= n -> Z.testbit c n = false.
Proof.
  intros Hc Hn. rewrite <- (Z.mod_small c (2 ^ 8)) by (change (2 ^ 8) with 256; lia). apply Z.mod_pow2_bits_high. lia.
Qed.

Lemma testbit_255 n : 0 <= n -> Z.testbit 255 n = (n <? 8).
Proof. intros Hn. change 255 with (Z.ones 8). rewrite Z.testbit_ones by lia. lia. Qed.

Lemma testbit_u32 z n : 0 <= n -> Z.testbit (u32 z) n = (n <? 32) && Z.testbit z n.
Proof.
  intros Hn. unfold u32. change 0x100000000 with (2 ^ 32). destruct (Z.ltb_spec n 32).
  - by rewrite Z.mod_pow2_bits_low by lia.
  - by rewrite Z.mod_pow2_bits_high by lia.
Qed.

Lemma set_flags_testbit f b c n : 0 <= b -> 0 <= n -> 0 <= c < 256 ->
  Z.testbit (set_flags f b c) n =
  (Z.testbit f n && (n <? 32) && negb ((b <=? n) && (n <? b + 8))) || ((b <=? n) && (n <? b + 8) && Z.testbit c (n - b)).
Proof.
  intros Hb Hn Hc. unfold set_flags. change (Z.shiftl 1 MXACT_MEMBER_BITS_PER_XACT - 1) with 255.
  rewrite Z.lor_spec, Z.land_spec, testbit_u32, Z.lnot_spec, !Z.shiftl_spec by lia.
  rewrite <- andb_assoc. destruct (Z.leb_spec b n).
  - rewrite testbit_255 by lia. destruct (Z.ltb_spec (n - b) 8), (Z.ltb_spec n (b + 8)); try lia; cbn; [done|].
    rewrite (testbit_byte c) by lia. by rewrite andb_true_r.
  - rewrite !(Z.testbit_neg_r _ (n - b)) by lia. cbn. by rewrite andb_true_r.
Qed.

(** One status of the word changes, the three others do not. *)
Lemma set_flags_code f b b' c : is_u32 f -> 0 <= b <= 24 -> 0 <= b' <= 24 -> b = b' \/ b + 8 <= b' \/ b' + 8 <= b -> 0 <= c < 256 ->
  Z.land (Z.shiftr (set_flags f b c) b') 255 = if b =? b' then c else Z.land (Z.shiftr f b') 255.
Proof.
  intros Hf Hb Hb' Hd Hc. apply Z.bits_inj'. intros n Hn. rewrite Z.land_spec, Z.shiftr_spec, testbit_255 by lia.
  destruct (Z.eqb_spec b b') as [->|Hne]; [|rewrite Z.land_spec, Z.shiftr_spec, testbit_255 by lia];
    (destruct (Z.ltb_spec n 8); [rewrite set_flags_testbit by lia|rewrite !andb_false_r, ?(testbit_byte c) by lia; done]).
  - replace (n + b' - b') with n by lia. destruct (Z.leb_spec b' (n + b')), (Z.ltb_spec (n + b') (b' + 8)); try lia; cbn.
    by rewrite !andb_false_r, andb_true_r.
  - destruct (Z.leb_spec b (n + b')), (Z.ltb_spec (n + b') (b + 8)), (Z.ltb_spec (n + b') 32); try lia; cbn;
      by rewrite !andb_true_r, ?orb_false_r, ?andb_true_r.
Qed.

Lemma set_flags_u32 f b c : 0 <= b <= 24 -> 0 <= c < 256 -> is_u32 (set_flags f b c).
Proof.
  intros Hb Hc. assert (set_flags f b c = u32 (set_flags f b c)) as ->; [|apply u32_range].
  apply Z.bits_inj'. intros n Hn. rewrite testbit_u32, set_flags_testbit by lia.
  destruct (Z.ltb_spec n 32), (Z.ltb_spec n (b + 8)); try lia; cbn; rewrite ?andb_false_r; cbn; try done.
Qed.

(** ** Members on a page *)

Ltac mx_unfold :=
  unfold MXOffsetToMemberOffset, MXOffsetToFlagsOffset, MXOffsetToFlagsBitShift, MXOffsetToMemberPage,
    MultiXactIdToOffsetPage, MultiXactIdToOffsetEntry in *;
  change MULTIXACT_OFFSETS_PER_PAGE with 2048 in *; change MULTIXACT_MEMBERS_PER_PAGE with 1636 in *;
  change MULTIXACT_MEMBERS_PER_MEMBERGROUP with 4 in *; change MULTIXACT_MEMBERGROUPS_PER_PAGE with 409 in *;
  change MULTIXACT_MEMBERGROUP_SIZE with 20 in *; change MULTIXACT_FLAGBYTES_PER_GROUP with 4 in *;
  change MXACT_MEMBER_BITS_PER_XACT with 8 in *; change BLCKSZ with 8192 in *.
Ltac mx_lia := mx_unfold; lia.

Lemma mxstatus_code_range s : 0 <= mxstatus_code s < 256.
Proof. destruct s; cbn; lia. Qed.

Lemma mxstatus_of_code s : mxstatus_of (mxstatus_code s) = Some s.
Proof. by destruct s. Qed.

Definition on_page (o : Z) : Prop :=
  0 <= MXOffsetToFlagsOffset o /\ MXOffsetToFlagsOffset o + 4 <= MXOffsetToMemberOffset o /\
  MXOffsetToMemberOffset o + 4 <= MXOffsetToFlagsOffset o + 20 /\ MXOffsetToFlagsOffset o + 20 <= BLCKSZ /\
  0 <= MXOffsetToFlagsBitShift o <= 24.

Lemma offset_on_page o : on_page o.
Proof. unfold on_page. mx_lia. Qed.

(** Two members of a page are in different groups or share their group's word
    of flags. *)
Lemma member_positions o o' : MXOffsetToMemberPage o = MXOffsetToMemberPage o' -> o <> o' ->
  (MXOffsetToFlagsOffset o = MXOffsetToFlagsOffset o' /\
   (MXOffsetToMemberOffset o + 4 <= MXOffsetToMemberOffset o' \/ MXOffsetToMemberOffset o' + 4 <= MXOffsetToMemberOffset o) /\
   (MXOffsetToFlagsBitShift o + 8 <= MXOffsetToFlagsBitShift o' \/ MXOffsetToFlagsBitShift o' + 8 <= MXOffsetToFlagsBitShift o)) \/
  MXOffsetToFlagsOffset o + 20 <= MXOffsetToFlagsOffset o' \/ MXOffsetToFlagsOffset o' + 20 <= MXOffsetToFlagsOffset o.
Proof. mx_lia. Qed.

Lemma put_member_wf o m pg : page_wf pg -> page_wf (put_member o m pg).
Proof. intros. by apply put_le_wf, put_le_wf. Qed.

Lemma flags_u32 pg o : page_wf pg -> is_u32 (get_le pg (MXOffsetToFlagsOffset o) 4).
Proof.
  intros Hwf. destruct (offset_on_page o) as (H1 & H2 & H3 & H4 & _).
  pose proof (get_le_range 4 pg (MXOffsetToFlagsOffset o) Hwf ltac:(lia) ltac:(lia)) as H.
  change (0x100 ^ Z.of_nat 4) with 0x100000000 in H. exact H.
Qed.

Section members.
Context (pg : list Z) (Hwf : page_wf pg) (o o' : Z) (m : MultiXactMember) (Hx : is_u32 (mem_xid m)).
Context (Hpage : MXOffsetToMemberPage o = MXOffsetToMemberPage o').

Lemma zlength_page : zlength pg = BLCKSZ.
Proof. destruct Hwf as [H _]. unfold zlength. by rewrite H. Qed.

Lemma get_put_member_xid : get_member_xid (put_member o m pg) o' = if o =? o' then mem_xid m else get_member_xid pg o'.
Proof.
  pose proof zlength_page as Hl. destruct (offset_on_page o) as (H1 & H2 & H3 & H4 & _).
  destruct (offset_on_page o') as (H1' & H2' & H3' & H4' & _). unfold get_member_xid, put_member.
  destruct (Z.eqb_spec o o') as [<-|Hne].
  - rewrite get_put_other by lia. apply get_put_same; [lia..|]. change (0x100 ^ Z.of_nat 4) with 0x100000000. exact Hx.
  - destruct (member_positions o o' Hpage Hne) as [(Ef & Hm & _)|Hd]; rewrite !get_put_other by lia; done.
Qed.

Lemma get_put_member_code : get_member_code (put_member o m pg) o' =
  if o =? o' then mxstatus_code (mem_status m) else get_member_code pg o'.
Proof.
  pose proof zlength_page as Hl. destruct (offset_on_page o) as (H1 & H2 & H3 & H4 & Hb).
  destruct (offset_on_page o') as (H1' & H2' & H3' & H4' & Hb'). pose proof (mxstatus_code_range (mem_status m)) as Hc.
  unfold get_member_code, put_member. change MXACT_MEMBER_XACT_BITMASK with 255.
  set (pg1 := put_le pg (MXOffsetToMemberOffset o) 4 (mem_xid m)). assert (page_wf pg1) as Hwf1 by (by apply put_le_wf).
  assert (zlength pg1 = BLCKSZ) as Hl1 by (destruct Hwf1 as [E _]; unfold zlength; by rewrite E).
  set (v := set_flags _ _ _). assert (is_u32 v) as Hv by (by apply set_flags_u32).
  assert (MXOffsetToFlagsOffset o = MXOffsetToFlagsOffset o' -> get_le (put_le pg1 (MXOffsetToFlagsOffset o) 4 v) (MXOffsetToFlagsOffset o') 4 = v) as Hsame.
  { intros E. rewrite <- E. apply get_put_same; [lia..|]. change (0x100 ^ Z.of_nat 4) with 0x100000000. exact Hv. }
  assert (forall a, MXOffsetToFlagsOffset a + 20 <= MXOffsetToFlagsOffset o \/ MXOffsetToFlagsOffset o + 20 <= MXOffsetToFlagsOffset a \/
    MXOffsetToFlagsOffset a = MXOffsetToFlagsOffset o -> 0 <= MXOffsetToFlagsOffset a ->
    get_le pg1 (MXOffsetToFlagsOffset a) 4 = get_le pg (MXOffsetToFlagsOffset a) 4) as Hpg1.
  { intros a Ha H0. unfold pg1. rewrite get_put_other by lia. done. }
  destruct (Z.eqb_spec o o') as [<-|Hne].
  - rewrite Hsame by done. unfold v. rewrite set_flags_code; [by rewrite Z.eqb_refl|by apply flags_u32|lia..].
  - destruct (member_positions o o' Hpage Hne) as [(Ef & _ & Hs)|Hd].
    + rewrite Hsame by done. unfold v. rewrite set_flags_code; [|by apply flags_u32|lia..].
      rewrite (proj2 (Z.eqb_neq _ _)) by lia. rewrite Hpg1, Ef by lia. done.
    + rewrite get_put_other, Hpg1 by lia. done.
Qed.
End members.

Lemma get_put_offset pg m m' o : page_wf pg -> is_u32 o -> MultiXactIdToOffsetPage m = MultiXactIdToOffsetPage m' ->
  get_offset (put_offset m o pg) m' = if m =? m' then o else get_offset pg m'.
Proof.
  intros Hwf Ho Hp. pose proof (zlength_page pg Hwf) as Hl. unfold get_offset, put_offset.
  destruct (Z.eqb_spec m m') as [<-|Hne].
  - apply get_put_same; [mx_lia..|]. change (0x100 ^ Z.of_nat 4) with 0x100000000. exact Ho.
  - apply get_put_other; mx_lia.
Qed.
