(* ===== verification/MultiXact.v ===== *)
(** * Multixacts

    [src/backend/access/transam/multixact.c]: sets of transactions that hold a
    row, each with its kind of lock or update, under an id of their own.  The
    state is the shared counters and limits, the two SLRU areas of
    [MultiXactPages], the records written to the WAL, and the cache of the
    backend at hand. *)

From Stdlib Require String.
From stdpp Require Import sorting.
From S2P Require Import Prelude.
From S2P Require Import TransactionId.
From S2P Require Import Slru.
From S2P Require Import SlruEntries.
From S2P Require Import Visibility.
From S2P Require Import MultiXactPages.

Record MultiXactStateData := MkMultiXactState {
  nextMXact : Z;
  nextOffset : Z;
  finishedStartup : bool;
  oldestMultiXactId : Z;
  oldestMultiXactDB : Z;
  oldestOffset : Z;
  oldestOffsetKnown : bool;
  multiVacLimit : Z;
  multiWarnLimit : Z;
  multiStopLimit : Z;
  multiWrapLimit : Z;
  offsetStopLimit : Z;
  OldestMemberMXactId : list Z;
  OldestVisibleMXactId : list Z;
}.

Record mXactCacheEnt := MkCacheEnt {
  ce_multi : Z;
  ce_members : list MultiXactMember;
}.

Inductive MultiXactRecord :=
| XLOG_MULTIXACT_ZERO_OFF_PAGE (pageno : Z)
| XLOG_MULTIXACT_ZERO_MEM_PAGE (pageno : Z)
| XLOG_MULTIXACT_CREATE_ID (mid moff : Z) (members : list MultiXactMember)
| XLOG_MULTIXACT_TRUNCATE_ID (oldestMultiDB startTruncOff endTruncOff startTruncMemb endTruncMemb : Z).

Record MX := MkMX {
  MultiXactState : MultiXactStateData;
  mx_offsets : Slru;
  mx_members : Slru;
  MXactCache : list mXactCacheEnt;
  mx_xlog : list MultiXactRecord;
  mx_signals : nat;
  mx_warnings : list (Z * Z);
}.

Inductive MultiXactError :=
| MultiXactIO (e : SlruError)
| MultiXactDuringRecovery
| MultiXactStopLimit (oldest_datoid : Z) (datname : option String.string)
| MultiXactMembersLimit (nmembers : Z)
| MultiXactTwoUpdaters
| MultiXactNoLongerExists (multi : Z)
| MultiXactNotCreatedYet (multi : Z)
| MultiXactBadStatus (code : Z)
| MultiXactStillWaiting.

(** What the code finds around it.  [meanwhile] and [while_asleep] are what
    others do to the shared state while this process holds no lock, and while
    it sleeps on [nextoff_cv]. *)
Record MXEnv := MkMXEnv {
  MyProcNumber : nat;
  MX_IsUnderPostmaster : bool;
  MX_RecoveryInProgress : bool;
  MX_get_database_name : Z -> option String.string;
  MX_meanwhile : MX -> MX;
  while_asleep : MX -> MX;
  MultiXactOffsetCtl : SlruCtl;
  MultiXactMemberCtl : SlruCtl;
}.

Definition mx_set_state (s : MX) (m : MultiXactStateData) : MX :=
  MkMX m (mx_offsets s) (mx_members s) (MXactCache s) (mx_xlog s) (mx_signals s) (mx_warnings s).
Definition mx_set_offsets (s : MX) (st : Slru) : MX :=
  MkMX (MultiXactState s) st (mx_members s) (MXactCache s) (mx_xlog s) (mx_signals s) (mx_warnings s).
Definition mx_set_members (s : MX) (st : Slru) : MX :=
  MkMX (MultiXactState s) (mx_offsets s) st (MXactCache s) (mx_xlog s) (mx_signals s) (mx_warnings s).
Definition mx_set_cache (s : MX) (c : list mXactCacheEnt) : MX :=
  MkMX (MultiXactState s) (mx_offsets s) (mx_members s) c (mx_xlog s) (mx_signals s) (mx_warnings s).
Definition mx_log (r : MultiXactRecord) (s : MX) : MX :=
  MkMX (MultiXactState s) (mx_offsets s) (mx_members s) (MXactCache s) (mx_xlog s ++ [r]) (mx_signals s) (mx_warnings s).
Definition mx_signal (s : MX) : MX :=
  MkMX (MultiXactState s) (mx_offsets s) (mx_members s) (MXactCache s) (mx_xlog s) (S (mx_signals s)) (mx_warnings s).
Definition mx_warn (w : Z * Z) (s : MX) : MX :=
  MkMX (MultiXactState s) (mx_offsets s) (mx_members s) (MXactCache s) (mx_xlog s) (mx_signals s) (mx_warnings s ++ [w]).

Definition set_counters (m : MultiXactStateData) (multi offset : Z) : MultiXactStateData :=
  MkMultiXactState multi offset (finishedStartup m) (oldestMultiXactId m) (oldestMultiXactDB m) (oldestOffset m)
    (oldestOffsetKnown m) (multiVacLimit m) (multiWarnLimit m) (multiStopLimit m) (multiWrapLimit m)
    (offsetStopLimit m) (OldestMemberMXactId m) (OldestVisibleMXactId m).
Definition set_backend_ids (m : MultiXactStateData) (member visible : list Z) : MultiXactStateData :=
  MkMultiXactState (nextMXact m) (nextOffset m) (finishedStartup m) (oldestMultiXactId m) (oldestMultiXactDB m)
    (oldestOffset m) (oldestOffsetKnown m) (multiVacLimit m) (multiWarnLimit m) (multiStopLimit m)
    (multiWrapLimit m) (offsetStopLimit m) member visible.
Definition set_multi_limits (m : MultiXactStateData) (oldest db vac warn stop wrap : Z) : MultiXactStateData :=
  MkMultiXactState (nextMXact m) (nextOffset m) (finishedStartup m) oldest db (oldestOffset m) (oldestOffsetKnown m)
    vac warn stop wrap (offsetStopLimit m) (OldestMemberMXactId m) (OldestVisibleMXactId m).
Definition set_offset_limits (m : MultiXactStateData) (oldest : Z) (known : bool) (stop : Z) : MultiXactStateData :=
  MkMultiXactState (nextMXact m) (nextOffset m) (finishedStartup m) (oldestMultiXactId m) (oldestMultiXactDB m)
    oldest known (multiVacLimit m) (multiWarnLimit m) (multiStopLimit m) (multiWrapLimit m) stop
    (OldestMemberMXactId m) (OldestVisibleMXactId m).
Definition set_started (m : MultiXactStateData) : MultiXactStateData :=
  MkMultiXactState (nextMXact m) (nextOffset m) true (oldestMultiXactId m) (oldestMultiXactDB m) (oldestOffset m)
    (oldestOffsetKnown m) (multiVacLimit m) (multiWarnLimit m) (multiStopLimit m) (multiWrapLimit m)
    (offsetStopLimit m) (OldestMemberMXactId m) (OldestVisibleMXactId m).

Definition upd_state (f : MultiXactStateData -> MultiXactStateData) : prog MX MultiXactError unit :=
  pmod (fun s => mx_set_state s (f (MultiXactState s))).

(** Run an operation of one of the two areas. *)
Definition on_offsets {A} (m : prog Slru SlruError A) : prog MX MultiXactError A :=
  fun s => match m (mx_offsets s) with
           | (st, inl e) => (mx_set_offsets s st, inl (MultiXactIO e))
           | (st, inr a) => (mx_set_offsets s st, inr a)
           end.
Definition on_members {A} (m : prog Slru SlruError A) : prog MX MultiXactError A :=
  fun s => match m (mx_members s) with
           | (st, inl e) => (mx_set_members s st, inl (MultiXactIO e))
           | (st, inr a) => (mx_set_members s st, inr a)
           end.

(** ** Order *)

Definition MultiXactIdPrecedes (multi1 multi2 : Z) : bool := i32 (multi1 - multi2) <? 0.
Definition MultiXactIdPrecedesOrEquals (multi1 multi2 : Z) : bool := i32 (multi1 - multi2) <=? 0.
Definition MultiXactOffsetPrecedes (offset1 offset2 : Z) : bool := i32 (offset1 - offset2) <? 0.
Definition PreviousMultiXactId (multi : Z) : Z := if multi =? FirstMultiXactId then MaxMultiXactId else u32 (multi - 1).

(** [nextMXact] with the wrapped-around state put right. *)
Definition valid_multi (multi : Z) : Z := if multi <? FirstMultiXactId then FirstMultiXactId else multi.

Definition MultiXactOffsetWouldWrap (boundary start distance : Z) : bool :=
  let finish := u32 (start + distance) in
  let finish := if finish <? start then u32 (finish + 1) else finish in
  if start <? boundary then (boundary <=? finish) || (finish <? start)
  else (boundary <=? finish) && (finish <? start).

(** ** The cache of a backend *)

Definition MAX_CACHE_ENTRIES : nat := 256.

#[export] Instance MultiXactStatus_eq_dec : EqDecision MultiXactStatus.
Proof. solve_decision. Defined.
#[export] Instance MultiXactMember_eq_dec : EqDecision MultiXactMember.
Proof. solve_decision. Defined.

Definition mxactMemberComparator (member1 member2 : MultiXactMember) : Z :=
  if mem_xid member2 <? mem_xid member1 then 1
  else if mem_xid member1 <? mem_xid member2 then -1
  else if mxstatus_code (mem_status member2) <? mxstatus_code (mem_status member1) then 1
  else if mxstatus_code (mem_status member1) <? mxstatus_code (mem_status member2) then -1
  else 0.

Definition member_le (m1 m2 : MultiXactMember) : Prop := mxactMemberComparator m1 m2 <= 0.
#[export] Instance member_le_dec : RelDecision member_le := fun m1 m2 => Z_le_dec _ _.

(** [qsort] by the comparator. *)
Definition sort_members (members : list MultiXactMember) : list MultiXactMember := merge_sort member_le members.

(** The first entry that satisfies [p], and the list with it moved to the head. *)
Fixpoint cache_find (p : mXactCacheEnt -> bool) (before cache : list mXactCacheEnt)
  : option (mXactCacheEnt * list mXactCacheEnt) :=
  match cache with
  | [] => None
  | e :: rest => if p e then Some (e, e :: rev before ++ rest) else cache_find p (e :: before) rest
  end.

(** The array is sorted in place, whether or not its set is found. *)
Definition mXactCacheGetBySet (members : list MultiXactMember) : prog MX MultiXactError (Z * list MultiXactMember) :=
  fun s =>
  let members := sort_members members in
  match cache_find (fun e => bool_decide (ce_members e = members)) [] (MXactCache s) with
  | Some (e, cache) => (mx_set_cache s cache, inr (ce_multi e, members))
  | None => (s, inr (InvalidMultiXactId, members))
  end.

Definition mXactCacheGetById (multi : Z) : prog MX MultiXactError (option (list MultiXactMember)) :=
  fun s =>
  match cache_find (fun e => ce_multi e =? multi) [] (MXactCache s) with
  | Some (e, cache) => (mx_set_cache s cache, inr (Some (ce_members e)))
  | None => (s, inr None)
  end.

Definition mXactCachePut (multi : Z) (members : list MultiXactMember) (s : MX) : MX :=
  let cache := MkCacheEnt multi (sort_members members) :: MXactCache s in
  mx_set_cache s (take MAX_CACHE_ENTRIES cache).

(** ** What each backend may still look at *)

Definition MultiXactIdSetOldestMember (env : MXEnv) (s : MX) : MX :=
  let m := MultiXactState s in
  if negb (MultiXactIdIsValid (OldestMemberMXactId m !!! MyProcNumber env)) then
    mx_set_state s (set_backend_ids m (<[MyProcNumber env := valid_multi (nextMXact m)]> (OldestMemberMXactId m))
      (OldestVisibleMXactId m))
  else s.

(** The older of the entries of an array that are valid, and [oldest]. *)
Definition oldest_of (oldest : Z) (ids : list Z) : Z :=
  foldl (fun oldest this => if MultiXactIdIsValid this && MultiXactIdPrecedes this oldest then this else oldest) oldest ids.

Definition MultiXactIdSetOldestVisible (env : MXEnv) (s : MX) : MX :=
  let m := MultiXactState s in
  if negb (MultiXactIdIsValid (OldestVisibleMXactId m !!! MyProcNumber env)) then
    let oldestMXact := oldest_of (valid_multi (nextMXact m)) (OldestMemberMXactId m) in
    mx_set_state s (set_backend_ids m (OldestMemberMXactId m)
      (<[MyProcNumber env := oldestMXact]> (OldestVisibleMXactId m)))
  else s.

Definition ReadNextMultiXactId (s : MX) : Z := valid_multi (nextMXact (MultiXactState s)).

Definition ReadMultiXactIdRange (s : MX) : Z * Z :=
  (valid_multi (oldestMultiXactId (MultiXactState s)), valid_multi (nextMXact (MultiXactState s))).

(** Both arrays are walked together. *)
Fixpoint interleave (l1 l2 : list Z) : list Z :=
  match l1, l2 with
  | x :: l1, y :: l2 => x :: y :: interleave l1 l2
  | _, _ => []
  end.

Definition GetOldestMultiXactId (s : MX) : Z :=
  let m := MultiXactState s in
  oldest_of (valid_multi (nextMXact m)) (interleave (OldestMemberMXactId m) (OldestVisibleMXactId m)).

Definition AtEOXact_MultiXact (env : MXEnv) (s : MX) : MX :=
  let m := MultiXactState s in
  mx_set_cache
    (mx_set_state s (set_backend_ids m (<[MyProcNumber env := InvalidMultiXactId]> (OldestMemberMXactId m))
       (<[MyProcNumber env := InvalidMultiXactId]> (OldestVisibleMXactId m)))) [].

(** [None]: nothing is registered with the two-phase state. *)
Definition AtPrepare_MultiXact (env : MXEnv) (s : MX) : option Z :=
  let myOldestMember := OldestMemberMXactId (MultiXactState s) !!! MyProcNumber env in
  if MultiXactIdIsValid myOldestMember then Some myOldestMember else None.

(** [dummyProcNumber] is the slot that [twophase.c] keeps for the prepared
    transaction. *)
Definition PostPrepare_MultiXact (env : MXEnv) (dummyProcNumber : nat) (s : MX) : MX :=
  let m := MultiXactState s in
  let myOldestMember := OldestMemberMXactId m !!! MyProcNumber env in
  let member :=
    if MultiXactIdIsValid myOldestMember
    then <[MyProcNumber env := InvalidMultiXactId]> (<[dummyProcNumber := myOldestMember]> (OldestMemberMXactId m))
    else OldestMemberMXactId m in
  mx_set_cache
    (mx_set_state s (set_backend_ids m member (<[MyProcNumber env := InvalidMultiXactId]> (OldestVisibleMXactId m)))) [].

Definition multixact_twophase_recover (dummyProcNumber : nat) (oldestMember : Z) (s : MX) : MX :=
  let m := MultiXactState s in
  mx_set_state s (set_backend_ids m (<[dummyProcNumber := oldestMember]> (OldestMemberMXactId m)) (OldestVisibleMXactId m)).

Definition multixact_twophase_postcommit (dummyProcNumber : nat) (s : MX) : MX :=
  let m := MultiXactState s in
  mx_set_state s (set_backend_ids m (<[dummyProcNumber := InvalidMultiXactId]> (OldestMemberMXactId m)) (OldestVisibleMXactId m)).

Definition multixact_twophase_postabort (dummyProcNumber : nat) (s : MX) : MX :=
  multixact_twophase_postcommit dummyProcNumber s.

(** ** New pages *)

Definition WriteMZeroPageXlogRec (record : MultiXactRecord) : prog MX MultiXactError unit := pmod (mx_log record).

Definition ZeroMultiXactOffsetPage (env : MXEnv) (pageno : Z) (writeXlog : bool) : prog MX MultiXactError Z :=
  (slotno <- on_offsets (SimpleLruZeroPage (MultiXactOffsetCtl env) pageno) ;;
   pwhen writeXlog (WriteMZeroPageXlogRec (XLOG_MULTIXACT_ZERO_OFF_PAGE pageno)) ;;;
   pret slotno)%prog.

Definition ZeroMultiXactMemberPage (env : MXEnv) (pageno : Z) (writeXlog : bool) : prog MX MultiXactError Z :=
  (slotno <- on_members (SimpleLruZeroPage (MultiXactMemberCtl env) pageno) ;;
   pwhen writeXlog (WriteMZeroPageXlogRec (XLOG_MULTIXACT_ZERO_MEM_PAGE pageno)) ;;;
   pret slotno)%prog.

Definition BootStrapMultiXact (env : MXEnv) : prog MX MultiXactError unit :=
  (slotno <- ZeroMultiXactOffsetPage env 0 false ;;
   on_offsets (SimpleLruWritePage (MultiXactOffsetCtl env) slotno) ;;;
   slotno <- ZeroMultiXactMemberPage env 0 false ;;
   on_members (SimpleLruWritePage (MultiXactMemberCtl env) slotno))%prog.

Definition MaybeExtendOffsetSlru (env : MXEnv) : prog MX MultiXactError unit :=
  (pageno <- pget (fun s => MultiXactIdToOffsetPage (nextMXact (MultiXactState s))) ;;
   present <- on_offsets (SimpleLruDoesPhysicalPageExist (MultiXactOffsetCtl env) pageno) ;;
   pwhen (negb present)
     (slotno <- ZeroMultiXactOffsetPage env pageno false ;;
      on_offsets (SimpleLruWritePage (MultiXactOffsetCtl env) slotno)))%prog.

Definition ExtendMultiXactOffset (env : MXEnv) (multi : Z) : prog MX MultiXactError unit :=
  if negb (MultiXactIdToOffsetEntry multi =? 0) && negb (multi =? FirstMultiXactId) then pret tt
  else (ZeroMultiXactOffsetPage env (MultiXactIdToOffsetPage multi) true ;;; pret tt)%prog.

(** The number of members until the end of the page that [offset] is on. *)
Definition left_on_page (offset : Z) : Z :=
  if u32 (offset + MAX_MEMBERS_IN_LAST_MEMBERS_PAGE) <? offset
  then u32 (MaxMultiXactOffset - offset + 1)
  else MULTIXACT_MEMBERS_PER_PAGE - offset mod MULTIXACT_MEMBERS_PER_PAGE.

Fixpoint extend_members_loop (fuel : nat) (env : MXEnv) (offset nmembers : Z) : prog MX MultiXactError unit :=
  match fuel with
  | O => pret tt
  | S fuel =>
      if negb (0 <? nmembers) then pret tt
      else
        (pwhen ((MXOffsetToFlagsOffset offset =? 0) && (MXOffsetToFlagsBitShift offset =? 0))
           (ZeroMultiXactMemberPage env (MXOffsetToMemberPage offset) true ;;; pret tt) ;;;
         let difference := left_on_page offset in
         extend_members_loop fuel env (u32 (offset + difference)) (nmembers - difference))%prog
  end.

(** Each round is past at least one member. *)
Definition ExtendMultiXactMember (env : MXEnv) (offset nmembers : Z) : prog MX MultiXactError unit :=
  extend_members_loop (Z.to_nat nmembers) env offset nmembers.

(** ** Creation *)

Definition OFFSET_WARN_SEGMENTS : Z := 20.
Definition MULTIXACT_MEMBER_SAFE_THRESHOLD : Z := MaxMultiXactOffset / 2.
Definition MULTIXACT_MEMBER_DANGER_THRESHOLD : Z := MaxMultiXactOffset - MaxMultiXactOffset / 4.

(** The guards on the id.  The lock is released while messages are sent, and
    what is read when it is taken again is neither checked nor stored back. *)
Definition check_multi_limits (env : MXEnv) : prog MX MultiXactError Z :=
  fun s =>
  let m := MultiXactState s in
  let m := set_counters m (valid_multi (nextMXact m)) (nextOffset m) in
  let s := mx_set_state s m in
  let result := nextMXact m in
  if negb (MultiXactIdPrecedes result (multiVacLimit m)) then
    if MX_IsUnderPostmaster env && negb (MultiXactIdPrecedes result (multiStopLimit m)) then
      (mx_signal s, inl (MultiXactStopLimit (oldestMultiXactDB m) (MX_get_database_name env (oldestMultiXactDB m))))
    else
      let s := if MX_IsUnderPostmaster env && (result mod 65536 =? 0) then mx_signal s else s in
      let s := if negb (MultiXactIdPrecedes result (multiWarnLimit m))
               then mx_warn (oldestMultiXactDB m, u32 (multiWrapLimit m - result)) s else s in
      let s := MX_meanwhile env s in
      (s, inr (valid_multi (nextMXact (MultiXactState s))))
  else (s, inr result).

(** The guards on the space for members. *)
Definition check_member_limits (nmembers : Z) : prog MX MultiXactError unit :=
  fun s =>
  let m := MultiXactState s in
  let segment := MULTIXACT_MEMBERS_PER_PAGE * SLRU_PAGES_PER_SEGMENT in
  if oldestOffsetKnown m && MultiXactOffsetWouldWrap (offsetStopLimit m) (nextOffset m) (u32 nmembers) then
    (mx_signal s, inl (MultiXactMembersLimit nmembers))
  else
    let s :=
      if (negb (oldestOffsetKnown m) || (MULTIXACT_MEMBER_SAFE_THRESHOLD <? u32 (nextOffset m - oldestOffset m)))
         && negb (MXOffsetToMemberPage (nextOffset m) / SLRU_PAGES_PER_SEGMENT =?
                  MXOffsetToMemberPage (u32 (nextOffset m + nmembers)) / SLRU_PAGES_PER_SEGMENT)
      then mx_signal s else s in
    let s :=
      if oldestOffsetKnown m
         && MultiXactOffsetWouldWrap (offsetStopLimit m) (nextOffset m) (u32 (nmembers + segment * OFFSET_WARN_SEGMENTS))
      then mx_warn (oldestMultiXactDB m, u32 (offsetStopLimit m - nextOffset m + nmembers)) s else s in
    (s, inr tt).

(** The id, and the offset from which its members are to be stored. *)
Definition GetNewMultiXactId (env : MXEnv) (nmembers : Z) : prog MX MultiXactError (Z * Z) :=
  if MX_RecoveryInProgress env then preturn MultiXactDuringRecovery
  else
    (result <- check_multi_limits env ;;
     ExtendMultiXactOffset env result ;;;
     next <- pget (fun s => nextOffset (MultiXactState s)) ;;
     let offset := if next =? 0 then 1 else next in
     let nmembers := if next =? 0 then nmembers + 1 else nmembers in
     check_member_limits nmembers ;;;
     ExtendMultiXactMember env next nmembers ;;;
     upd_state (fun m => set_counters m (u32 (nextMXact m + 1)) (u32 (nextOffset m + nmembers))) ;;;
     pret (result, offset))%prog.

(** The members from [offset] on; the page is looked up where it changes. *)
Fixpoint record_members (ctl : SlruCtl) (prev_pageno slotno offset : Z) (members : list MultiXactMember)
  : prog Slru SlruError unit :=
  match members with
  | [] => pret tt
  | m :: members =>
      let pageno := MXOffsetToMemberPage offset in
      (slotno <- (if negb (pageno =? prev_pageno) then SimpleLruReadPage ctl pageno true else pret slotno) ;;
       pmod (fun st => upd_slot st slotno (fun s =>
         slot_set_dirty true (slot_set_buffer (put_member offset m (page_buffer s)) s))) ;;;
       record_members ctl pageno slotno (u32 (offset + 1)) members)%prog
  end.

Definition RecordNewMultiXact (env : MXEnv) (multi offset : Z) (members : list MultiXactMember)
  : prog MX MultiXactError unit :=
  (on_offsets (modify_page (MultiXactOffsetCtl env) (MultiXactIdToOffsetPage multi) (put_offset multi offset)) ;;;
   on_members (record_members (MultiXactMemberCtl env) (-1) 0 offset members))%prog.

(** More than one update among the members. *)
Definition two_updaters (members : list MultiXactMember) : bool :=
  (2 <=? length (filter (fun m => ISUPDATE_from_mxstatus (mem_status m) = true) members))%nat.

Definition MultiXactIdCreateFromMembers (env : MXEnv) (members : list MultiXactMember) : prog MX MultiXactError Z :=
  (found <- mXactCacheGetBySet members ;;
   let '(multi, members) := found in
   if MultiXactIdIsValid multi then pret multi
   else if two_updaters members then preturn MultiXactTwoUpdaters
   else
     new <- GetNewMultiXactId env (zlength members) ;;
     let '(multi, offset) := new in
     pmod (mx_log (XLOG_MULTIXACT_CREATE_ID multi offset members)) ;;;
     RecordNewMultiXact env multi offset members ;;;
     pmod (mXactCachePut multi members) ;;;
     pret multi)%prog.

Definition MultiXactIdCreate (env : MXEnv) (xid1 : Z) (status1 : MultiXactStatus) (xid2 : Z) (status2 : MultiXactStatus)
  : prog MX MultiXactError Z :=
  MultiXactIdCreateFromMembers env [MkMember xid1 status1; MkMember xid2 status2].

(** ** Members *)

(** The stretch of the members area that belongs to a multixact: where it
    starts and its length.  [None]: the next multixact has its id but not yet
    its offset.  The page is looked up again only where it changes. *)
Definition find_members (ctl : SlruCtl) (multi nextMXact nextOffset : Z) : prog Slru SlruError (option (Z * Z)) :=
  let pageno := MultiXactIdToOffsetPage multi in
  (slotno <- SimpleLruReadPage ctl pageno true ;;
   offset <- pget (fun st => get_offset (page_buffer (slot st slotno)) multi) ;;
   let tmpMXact := u32 (multi + 1) in
   if nextMXact =? tmpMXact then pret (Some (offset, i32 (nextOffset - offset)))
   else
     let tmpMXact := valid_multi tmpMXact in
     slotno <- (if negb (MultiXactIdToOffsetPage tmpMXact =? pageno)
                then SimpleLruReadPage ctl (MultiXactIdToOffsetPage tmpMXact) true else pret slotno) ;;
     nextMXOffset <- pget (fun st => get_offset (page_buffer (slot st slotno)) tmpMXact) ;;
     pret (if nextMXOffset =? 0 then None else Some (offset, i32 (nextMXOffset - offset))))%prog.

(** [goto retry] after each sleep. *)
Fixpoint find_members_loop (fuel : nat) (env : MXEnv) (multi nextMXact nextOffset : Z)
  : prog MX MultiXactError (Z * Z) :=
  match fuel with
  | O => preturn MultiXactStillWaiting
  | S fuel =>
      (found <- on_offsets (find_members (MultiXactOffsetCtl env) multi nextMXact nextOffset) ;;
       match found with
       | Some range => pret range
       | None => pmod (while_asleep env) ;;; find_members_loop fuel env multi nextMXact nextOffset
       end)%prog
  end.

(** The valid slots of [n] from [offset] on, with the numbers of their status. *)
Fixpoint read_members (ctl : SlruCtl) (prev_pageno slotno offset : Z) (n : nat) : prog Slru SlruError (list (Z * Z)) :=
  match n with
  | O => pret []
  | S n =>
      let pageno := MXOffsetToMemberPage offset in
      (slotno <- (if negb (pageno =? prev_pageno) then SimpleLruReadPage ctl pageno true else pret slotno) ;;
       xid <- pget (fun st => get_member_xid (page_buffer (slot st slotno)) offset) ;;
       code <- pget (fun st => get_member_code (page_buffer (slot st slotno)) offset) ;;
       rest <- read_members ctl pageno slotno (u32 (offset + 1)) n ;;
       pret (if negb (TransactionIdIsValid xid) then rest else (xid, code) :: rest))%prog
  end.

Fixpoint decode_members (l : list (Z * Z)) : MultiXactError + list MultiXactMember :=
  match l with
  | [] => inr []
  | (xid, code) :: l =>
      match mxstatus_of code, decode_members l with
      | None, _ => inl (MultiXactBadStatus code)
      | _, inl e => inl e
      | Some status, inr ms => inr (MkMember xid status :: ms)
      end
  end.

(** [None] is the answer -1; [retries] bounds the number of times that the
    process wakes up in vain. *)
Definition GetMultiXactIdMembers (retries : nat) (env : MXEnv) (multi : Z) (from_pgupgrade isLockOnly : bool)
  : prog MX MultiXactError (option (list MultiXactMember)) :=
  if negb (MultiXactIdIsValid multi) || from_pgupgrade then pret None
  else
    (cached <- mXactCacheGetById multi ;;
     match cached with
     | Some members => pret (Some members)
     | None =>
         pmod (MultiXactIdSetOldestVisible env) ;;;
         m <- pget MultiXactState ;;
         if isLockOnly && MultiXactIdPrecedes multi (OldestVisibleMXactId m !!! MyProcNumber env) then pret None
         else if MultiXactIdPrecedes multi (oldestMultiXactId m) then preturn (MultiXactNoLongerExists multi)
         else if negb (MultiXactIdPrecedes multi (nextMXact m)) then preturn (MultiXactNotCreatedYet multi)
         else
           range <- find_members_loop (S retries) env multi (nextMXact m) (nextOffset m) ;;
           let '(offset, length) := range in
           raw <- on_members (read_members (MultiXactMemberCtl env) (-1) 0 offset (Z.to_nat length)) ;;
           match decode_members raw with
           | inl e => preturn e
           | inr members => pmod (mXactCachePut multi members) ;;; pret (Some members)
           end
     end)%prog.

(** [in_progress] and [did_commit] answer for other transactions at the time of
    the call. *)
Definition MultiXactIdExpand (retries : nat) (env : MXEnv) (in_progress did_commit : Z -> bool)
    (multi xid : Z) (status : MultiXactStatus) : prog MX MultiXactError Z :=
  (found <- GetMultiXactIdMembers retries env multi false false ;;
   match found with
   | None => MultiXactIdCreateFromMembers env [MkMember xid status]
   | Some members =>
       if existsb (fun m => TransactionIdEquals (mem_xid m) xid && bool_decide (mem_status m = status)) members
       then pret multi
       else
         let keep := filter (fun m => (in_progress (mem_xid m)
           || ISUPDATE_from_mxstatus (mem_status m) && did_commit (mem_xid m)) = true) members in
         MultiXactIdCreateFromMembers env (keep ++ [MkMember xid status])
   end)%prog.

(** ** Startup *)

Definition MultiXactOffsetPagePrecedes (page1 page2 : Z) : bool :=
  let multi1 := u32 (u32 page1 * MULTIXACT_OFFSETS_PER_PAGE) in
  let multi1 := u32 (multi1 + (FirstMultiXactId + 1)) in
  let multi2 := u32 (u32 page2 * MULTIXACT_OFFSETS_PER_PAGE) in
  let multi2 := u32 (multi2 + (FirstMultiXactId + 1)) in
  MultiXactIdPrecedes multi1 multi2
  && MultiXactIdPrecedes multi1 (u32 (multi2 + MULTIXACT_OFFSETS_PER_PAGE - 1)).

Definition MultiXactMemberPagePrecedes (page1 page2 : Z) : bool :=
  let offset1 := u32 (u32 page1 * MULTIXACT_MEMBERS_PER_PAGE) in
  let offset2 := u32 (u32 page2 * MULTIXACT_MEMBERS_PER_PAGE) in
  MultiXactOffsetPrecedes offset1 offset2
  && MultiXactOffsetPrecedes offset1 (u32 (offset2 + MULTIXACT_MEMBERS_PER_PAGE - 1)).

(** Shared memory starts zeroed. *)
Definition MultiXactShmemInit (MaxOldestSlot : nat) (multixact_offset_buffers multixact_member_buffers : Z)
    (offset_files member_files : gmap Z (list (list Z))) (wal : Z) : MX :=
  MkMX (MkMultiXactState 0 0 false 0 0 0 false 0 0 0 0 0 (replicate MaxOldestSlot 0) (replicate MaxOldestSlot 0))
    (SimpleLruInit multixact_offset_buffers 0 offset_files wal) (SimpleLruInit multixact_member_buffers 0 member_files wal)
    [] [] 0 [].

Definition StartupMultiXact (s : MX) : MX :=
  let m := MultiXactState s in
  let s := mx_set_offsets s (set_latest (mx_offsets s) (MultiXactIdToOffsetPage (nextMXact m))) in
  mx_set_members s (set_latest (mx_members s) (MXOffsetToMemberPage (nextOffset m))).

Definition MultiXactGetCheckptMulti (s : MX) : Z * Z * Z * Z :=
  let m := MultiXactState s in (nextMXact m, nextOffset m, oldestMultiXactId m, oldestMultiXactDB m).

Definition CheckPointMultiXact (env : MXEnv) : prog MX MultiXactError unit :=
  (on_offsets (SimpleLruWriteAll (MultiXactOffsetCtl env)) ;;;
   on_members (SimpleLruWriteAll (MultiXactMemberCtl env)))%prog.

Definition MultiXactSetNextMXact (env : MXEnv) (IsBinaryUpgrade : bool) (nextMulti nextMultiOffset : Z)
  : prog MX MultiXactError unit :=
  (upd_state (fun m => set_counters m nextMulti nextMultiOffset) ;;;
   pwhen IsBinaryUpgrade (MaybeExtendOffsetSlru env))%prog.

Definition MultiXactAdvanceNextMXact (minMulti minMultiOffset : Z) (m : MultiXactStateData) : MultiXactStateData :=
  let m := if MultiXactIdPrecedes (nextMXact m) minMulti then set_counters m minMulti (nextOffset m) else m in
  if MultiXactOffsetPrecedes (nextOffset m) minMultiOffset then set_counters m (nextMXact m) minMultiOffset else m.

(** ** Limits *)

(** [None]: the page is not on disk. *)
Definition find_multixact_start (env : MXEnv) (multi : Z) : prog MX MultiXactError (option Z) :=
  let pageno := MultiXactIdToOffsetPage multi in
  (on_offsets (SimpleLruWriteAll (MultiXactOffsetCtl env)) ;;;
   on_members (SimpleLruWriteAll (MultiXactMemberCtl env)) ;;;
   present <- on_offsets (SimpleLruDoesPhysicalPageExist (MultiXactOffsetCtl env) pageno) ;;
   if negb present then pret None
   else
     offset <- on_offsets (look_page (MultiXactOffsetCtl env) pageno (fun pg => get_offset pg multi)) ;;
     pret (Some offset))%prog.

(** Whether members must be vacuumed at once. *)
Definition SetOffsetVacuumLimit (env : MXEnv) : prog MX MultiXactError bool :=
  (m <- pget MultiXactState ;;
   found <- (if oldestMultiXactId m =? nextMXact m then pret (Some (nextOffset m))
             else find_multixact_start env (oldestMultiXactId m)) ;;
   let segment := MULTIXACT_MEMBERS_PER_PAGE * SLRU_PAGES_PER_SEGMENT in
   let '(oldest, known, stop) :=
     match found with
     | Some oldest => (oldest, true, u32 (u32 (oldest - oldest mod segment) - segment))
     | None => if oldestOffsetKnown m then (oldestOffset m, true, offsetStopLimit m) else (0, false, 0)
     end in
   upd_state (fun m => set_offset_limits m oldest known stop) ;;;
   pret (negb known || (MULTIXACT_MEMBER_SAFE_THRESHOLD <? u32 (nextOffset m - oldest))))%prog.

Definition SetMultiXactIdLimit (env : MXEnv) (autovacuum_multixact_freeze_max_age : Z)
    (oldest_datminmxid oldest_datoid : Z) : prog MX MultiXactError unit :=
  let up x := let x := u32 x in if x <? FirstMultiXactId then u32 (x + FirstMultiXactId) else x in
  let down x := let x := u32 x in if x <? FirstMultiXactId then u32 (x - FirstMultiXactId) else x in
  let multiWrapLimit := up (oldest_datminmxid + Z.shiftr MaxMultiXactId 1) in
  let multiStopLimit := down (multiWrapLimit - 3000000) in
  let multiWarnLimit := down (multiWrapLimit - 40000000) in
  let multiVacLimit := up (oldest_datminmxid + autovacuum_multixact_freeze_max_age) in
  (upd_state (fun m => set_multi_limits m oldest_datminmxid oldest_datoid multiVacLimit multiWarnLimit
     multiStopLimit multiWrapLimit) ;;;
   curMulti <- pget (fun s => nextMXact (MultiXactState s)) ;;
   started <- pget (fun s => finishedStartup (MultiXactState s)) ;;
   if negb started then pret tt
   else
     needs_offset_vacuum <- SetOffsetVacuumLimit env ;;
     pwhen ((MultiXactIdPrecedes multiVacLimit curMulti || needs_offset_vacuum) && MX_IsUnderPostmaster env)
       (pmod mx_signal) ;;;
     pwhen (MultiXactIdPrecedes multiWarnLimit curMulti)
       (pmod (mx_warn (oldest_datoid, u32 (multiWrapLimit - curMulti)))))%prog.

Definition MultiXactAdvanceOldest (env : MXEnv) (autovacuum_multixact_freeze_max_age oldestMulti oldestMultiDB : Z)
  : prog MX MultiXactError unit :=
  (oldest <- pget (fun s => oldestMultiXactId (MultiXactState s)) ;;
   pwhen (MultiXactIdPrecedes oldest oldestMulti)
     (SetMultiXactIdLimit env autovacuum_multixact_freeze_max_age oldestMulti oldestMultiDB))%prog.

(** [None]: the space in use is not known. *)
Definition ReadMultiXactCounts (s : MX) : option (Z * Z) :=
  let m := MultiXactState s in
  if negb (oldestOffsetKnown m) then None
  else Some (u32 (nextMXact m - oldestMultiXactId m), u32 (nextOffset m - oldestOffset m)).

(** A page with the bytes from [off] on zeroed. *)
Definition zero_from (off : Z) (pg : list Z) : list Z :=
  take (Z.to_nat off) pg ++ replicate (Z.to_nat (BLCKSZ - off)) 0.

Definition TrimMultiXact (env : MXEnv) (autovacuum_multixact_freeze_max_age : Z) : prog MX MultiXactError unit :=
  (m <- pget MultiXactState ;;
   let pageno := MultiXactIdToOffsetPage (nextMXact m) in
   let entryno := MultiXactIdToOffsetEntry (nextMXact m) in
   pmod (fun s => mx_set_offsets s (set_latest (mx_offsets s) pageno)) ;;;
   pwhen (negb (entryno =? 0))
     (on_offsets (modify_page (MultiXactOffsetCtl env) pageno (zero_from (entryno * 4)))) ;;;
   let offset := nextOffset m in
   let pageno := MXOffsetToMemberPage offset in
   pmod (fun s => mx_set_members s (set_latest (mx_members s) pageno)) ;;;
   pwhen (negb (MXOffsetToFlagsOffset offset =? 0))
     (on_members (modify_page (MultiXactMemberCtl env) pageno (zero_from (MXOffsetToMemberOffset offset)))) ;;;
   upd_state set_started ;;;
   SetMultiXactIdLimit env autovacuum_multixact_freeze_max_age (oldestMultiXactId m) (oldestMultiXactDB m))%prog.

(** ** Truncation *)

(** The earliest page among the segments, [-1] if there are none. *)
Definition SlruScanDirCbFindEarliest (ctl : SlruCtl) (segpage earliest : Z) : Z :=
  if (earliest =? -1) || PagePrecedes ctl segpage earliest then segpage else earliest.

Definition SlruScanDirectory_FindEarliest (ctl : SlruCtl) (st : Slru) : Z :=
  foldl (fun earliest segno => SlruScanDirCbFindEarliest ctl (segno * SLRU_PAGES_PER_SEGMENT) earliest) (-1)
    (elements (dom (files st))).

Fixpoint delete_member_segments (fuel : nat) (ctl : SlruCtl) (segment endsegment : Z) : prog Slru SlruError unit :=
  match fuel with
  | O => preturn SlruOutOfFuel
  | S fuel =>
      if negb (segment =? endsegment) then
        (SlruDeleteSegment ctl segment ;;;
         delete_member_segments fuel ctl
           (if segment =? MXOffsetToMemberSegment MaxMultiXactOffset then 0 else segment + 1) endsegment)%prog
      else pret tt
  end.

(** One round per segment, going round the end of the space. *)
Definition PerformMembersTruncation (env : MXEnv) (oldestOffset newOldestOffset : Z) : prog MX MultiXactError unit :=
  on_members (delete_member_segments (S (S (Z.to_nat (MXOffsetToMemberSegment MaxMultiXactOffset))))
    (MultiXactMemberCtl env) (MXOffsetToMemberSegment oldestOffset) (MXOffsetToMemberSegment newOldestOffset)).

Definition PerformOffsetsTruncation (env : MXEnv) (newOldestMulti : Z) : prog MX MultiXactError unit :=
  on_offsets (SimpleLruTruncate (MultiXactOffsetCtl env) (MultiXactIdToOffsetPage (PreviousMultiXactId newOldestMulti))).

Definition WriteMTruncateXlogRec (oldestMultiDB startTruncOff endTruncOff startTruncMemb endTruncMemb : Z)
  : prog MX MultiXactError unit :=
  pmod (mx_log (XLOG_MULTIXACT_TRUNCATE_ID oldestMultiDB startTruncOff endTruncOff startTruncMemb endTruncMemb)).

Definition TruncateMultiXact (env : MXEnv) (newOldestMulti newOldestMultiDB : Z) : prog MX MultiXactError unit :=
  (m <- pget MultiXactState ;;
   let oldestMulti := oldestMultiXactId m in
   if MultiXactIdPrecedesOrEquals newOldestMulti oldestMulti then pret tt
   else
     first <- pget (fun s => SlruScanDirectory_FindEarliest (MultiXactOffsetCtl env) (mx_offsets s)) ;;
     let earliest := valid_multi (u32 (first * MULTIXACT_OFFSETS_PER_PAGE)) in
     if MultiXactIdPrecedes oldestMulti earliest then pret tt
     else
       start <- (if oldestMulti =? nextMXact m then pret (Some (nextOffset m)) else find_multixact_start env oldestMulti) ;;
       match start with
       | None => pret tt
       | Some oldestOffset =>
           stop <- (if newOldestMulti =? nextMXact m then pret (Some (nextOffset m))
                    else find_multixact_start env newOldestMulti) ;;
           match stop with
           | None => pret tt
           | Some newOldestOffset =>
               WriteMTruncateXlogRec newOldestMultiDB oldestMulti newOldestMulti oldestOffset newOldestOffset ;;;
               upd_state (fun m => set_multi_limits m newOldestMulti newOldestMultiDB (multiVacLimit m)
                 (multiWarnLimit m) (multiStopLimit m) (multiWrapLimit m)) ;;;
               PerformMembersTruncation env oldestOffset newOldestOffset ;;;
               PerformOffsetsTruncation env newOldestMulti
           end
       end)%prog.

(** ** Replay

    The greatest transaction id that a record of a creation mentions is the
    result, for the counter of [varsup.c] to be moved past. *)
Definition multixact_redo (env : MXEnv) (autovacuum_multixact_freeze_max_age record_xid : Z) (record : MultiXactRecord)
  : prog MX MultiXactError (option Z) :=
  match record with
  | XLOG_MULTIXACT_ZERO_OFF_PAGE pageno =>
      (slotno <- ZeroMultiXactOffsetPage env pageno false ;;
       on_offsets (SimpleLruWritePage (MultiXactOffsetCtl env) slotno) ;;; pret None)%prog
  | XLOG_MULTIXACT_ZERO_MEM_PAGE pageno =>
      (slotno <- ZeroMultiXactMemberPage env pageno false ;;
       on_members (SimpleLruWritePage (MultiXactMemberCtl env) slotno) ;;; pret None)%prog
  | XLOG_MULTIXACT_CREATE_ID mid moff members =>
      (RecordNewMultiXact env mid moff members ;;;
       upd_state (MultiXactAdvanceNextMXact (u32 (mid + 1)) (u32 (moff + zlength members))) ;;;
       pret (Some (foldl (fun max_xid m => if TransactionIdPrecedes max_xid (mem_xid m) then mem_xid m else max_xid)
         record_xid members)))%prog
  | XLOG_MULTIXACT_TRUNCATE_ID oldestMultiDB startTruncOff endTruncOff startTruncMemb endTruncMemb =>
      (SetMultiXactIdLimit env autovacuum_multixact_freeze_max_age endTruncOff oldestMultiDB ;;;
       PerformMembersTruncation env startTruncMemb endTruncMemb ;;;
       pmod (fun s => mx_set_offsets s (set_latest (mx_offsets s) (MultiXactIdToOffsetPage endTruncOff))) ;;;
       PerformOffsetsTruncation env endTruncOff ;;; pret None)%prog
  end.
