(* ===== verification/Standby.v ===== *)
(** * Following the primary

    What the startup process of a hot standby does with transaction ids while
    it replays the log: the recovery side of
    [src/backend/storage/ipc/procarray.c], the replay of transaction records
    of [src/backend/access/transam/xact.c] and of standby records of
    [src/backend/storage/ipc/standby.c]. *)

From S2P Require Import Prelude.
From S2P Require Import Clog.
From S2P Require Import CommitTs.
From S2P Require Import MultiXact.
From S2P Require Import TransactionId.
From S2P Require Import Varsup.
From S2P Require Import KnownAssigned.
From S2P Require Import StandbyLocks.
From S2P Require Import ProcArray.

(** ** The logs

    What recovery asks of the commit log, the subtransaction log, the commit
    timestamps and the multixacts; [L] is their state and [E] the errors.  The
    last four replay the records of these modules: [log_multixact_redo] is
    given the id in the record's header and returns the greatest id that the
    record mentions, if it is of a creation. *)
Class RecoveryLogs (L E : Type) := {
  log_extend_subtrans : Z -> prog L E unit;
  log_set_parent : Z -> Z -> prog L E unit;
  log_did_commit : Z -> prog L E bool;
  log_did_abort : Z -> prog L E bool;
  log_commit_tree : Z -> list Z -> prog L E unit;
  log_async_commit_tree : Z -> list Z -> Z -> prog L E unit;
  log_abort_tree : Z -> list Z -> prog L E unit;
  log_set_commit_ts : Z -> list Z -> Z -> Z -> prog L E unit;
  log_set_next_multi : Z -> Z -> prog L E unit;
  log_advance_next_multi : Z -> Z -> prog L E unit;
  log_advance_oldest_multi : Z -> Z -> prog L E unit;
  log_clog_redo : ClogRecord -> prog L E unit;
  log_commit_ts_redo : CommitTsRecord -> prog L E unit;
  log_commit_ts_parameter : bool -> bool -> FullTransactionId -> prog L E unit;
  log_multixact_redo : Z -> MultiXactRecord -> prog L E (option Z);
}.

Inductive HotStandbyState :=
| STANDBY_DISABLED
| STANDBY_INITIALIZED
| STANDBY_SNAPSHOT_PENDING
| STANDBY_SNAPSHOT_READY.

#[export] Instance HotStandbyState_eq_dec : EqDecision HotStandbyState.
Proof. solve_decision. Defined.

Inductive subxids_array_status := SUBXIDS_IN_ARRAY | SUBXIDS_MISSING | SUBXIDS_IN_SUBTRANS.

#[export] Instance subxids_array_status_eq_dec : EqDecision subxids_array_status.
Proof. solve_decision. Defined.

Record RunningTransactionsData := MkRunning {
  xcnt : Z;
  subxcnt : Z;
  subxid_status : subxids_array_status;
  run_nextXid : Z;
  oldestRunningXid : Z;
  oldestDatabaseRunningXid : Z;
  run_latestCompletedXid : Z;
  run_xids : list Z;
}.

(** Of the checkpoint record, what concerns ids. *)
Record CheckPoint := MkCheckPoint {
  ckpt_nextXid : FullTransactionId;
  ckpt_nextOid : Z;
  ckpt_nextMulti : Z;
  ckpt_nextMultiOffset : Z;
  ckpt_oldestXid : Z;
  ckpt_oldestXidDB : Z;
  ckpt_oldestMulti : Z;
  ckpt_oldestMultiDB : Z;
}.

Section standby.
Context {L E LM : Type} `{RecoveryLogs L E} `{LockManager LM}.

(** The state: the shared array, the static variables of procarray.c and
    standby.c, and the logs. *)
Record Standby := MkStandby {
  sb_pa : ProcArrayStruct;
  sb_kax : Compressor;
  standbyState : HotStandbyState;
  latestObservedXid : Z;
  standbySnapshotPendingXmin : Z;
  sb_locks : StandbyLocks LM;
  sb_logs : L;
}.

Inductive StandbyError :=
| KnownAssignedFailed (e : KnownAssignedError)
| KnownAssignedNotEmpty
| LogFailed (e : E).

(** [now] are the readings of the clock; [prepared] is the answer of
    [StandbyTransactionIdIsPrepared] (twophase.c) at the time of the record;
    [freeze_max_age] is the setting [autovacuum_freeze_max_age]. *)
Record StandbyEnv := MkStandbyEnv {
  now : nat -> Z;
  prepared : Z -> bool;
  freeze_max_age : Z;
}.

Abbreviation M := (prog Standby StandbyError).

Definition set_pa (s : Standby) (pa : ProcArrayStruct) : Standby :=
  MkStandby pa (sb_kax s) (standbyState s) (latestObservedXid s) (standbySnapshotPendingXmin s) (sb_locks s) (sb_logs s).
Definition set_known (s : Standby) (k : KnownAssigned * Compressor) : Standby :=
  let pa := sb_pa s in
  MkStandby (MkProcArray (procs pa) (maxProcs pa) k.1 (lastOverflowedXid pa) (replication_slot_xmin pa)
               (replication_slot_catalog_xmin pa) (TransamVariables pa) (RecoveryInProgress pa))
    k.2 (standbyState s) (latestObservedXid s) (standbySnapshotPendingXmin s) (sb_locks s) (sb_logs s).
Definition set_overflowed (s : Standby) (xid : Z) : Standby :=
  let pa := sb_pa s in
  set_pa s (MkProcArray (procs pa) (maxProcs pa) (knownAssigned pa) xid (replication_slot_xmin pa)
              (replication_slot_catalog_xmin pa) (TransamVariables pa) (RecoveryInProgress pa)).
Definition set_standby_state (s : Standby) (st : HotStandbyState) : Standby :=
  MkStandby (sb_pa s) (sb_kax s) st (latestObservedXid s) (standbySnapshotPendingXmin s) (sb_locks s) (sb_logs s).
Definition set_observed (s : Standby) (xid : Z) : Standby :=
  MkStandby (sb_pa s) (sb_kax s) (standbyState s) xid (standbySnapshotPendingXmin s) (sb_locks s) (sb_logs s).
Definition set_pending (s : Standby) (xid : Z) : Standby :=
  MkStandby (sb_pa s) (sb_kax s) (standbyState s) (latestObservedXid s) xid (sb_locks s) (sb_logs s).
Definition set_locks (s : Standby) (l : StandbyLocks LM) : Standby :=
  MkStandby (sb_pa s) (sb_kax s) (standbyState s) (latestObservedXid s) (standbySnapshotPendingXmin s) l (sb_logs s).

Definition set_logs (s : Standby) (l : L) : Standby :=
  MkStandby (sb_pa s) (sb_kax s) (standbyState s) (latestObservedXid s) (standbySnapshotPendingXmin s) (sb_locks s) l.

Definition known_of (s : Standby) : KnownAssigned * Compressor := (knownAssigned (sb_pa s), sb_kax s).

Definition on_logs {A} (m : prog L E A) : M A :=
  fun s => let '(l, r) := m (sb_logs s) in
    (set_logs s l, match r with inl e => inl (LogFailed e) | inr a => inr a end).

Definition on_known (m : prog (KnownAssigned * Compressor) KnownAssignedError unit) : M unit :=
  fun s => let '(k, r) := m (known_of s) in
    (set_known s k, match r with inl e => inl (KnownAssignedFailed e) | inr a => inr a end).

Definition mod_known (f : KnownAssigned * Compressor -> KnownAssigned * Compressor) (s : Standby) : Standby :=
  set_known s (f (known_of s)).

Definition advance_next (xid : Z) (s : Standby) : Standby :=
  set_pa s (set_transam (sb_pa s) (AdvanceNextFullTransactionIdPastXid xid (TransamVariables (sb_pa s)))).

(** ** Tracking ids *)

(** [while (TransactionIdPrecedes(next_expected_xid, xid))]. *)
Fixpoint extend_to (fuel : nat) (next_expected_xid xid : Z) : M unit :=
  match fuel with
  | O => pret tt
  | S fuel =>
      if TransactionIdPrecedes next_expected_xid xid then
        (let next_expected_xid := TransactionIdAdvance next_expected_xid in
         on_logs (log_extend_subtrans next_expected_xid) ;;;
         extend_to fuel next_expected_xid xid)%prog
      else pret tt
  end.

Definition machinery_up (st : HotStandbyState) : bool :=
  match st with STANDBY_DISABLED | STANDBY_INITIALIZED => false | _ => true end.

(** The loop advances at least one id a round. *)
Definition RecordKnownAssignedTransactionIds (env : StandbyEnv) (xid : Z) : M unit :=
  (s <- pget id ;;
   if TransactionIdFollows xid (latestObservedXid s) then
     extend_to (Z.to_nat (u32 (xid - latestObservedXid s))) (latestObservedXid s) xid ;;;
     if negb (machinery_up (standbyState s)) then pmod (fun s => set_observed s xid)
     else
       on_known (KnownAssignedXidsAdd (now env) (TransactionIdAdvance (latestObservedXid s)) xid) ;;;
       pmod (fun s => set_observed s xid) ;;;
       pmod (advance_next xid)
   else pret tt)%prog.

Definition ExpireTreeKnownAssignedTransactionIds (env : StandbyEnv) (xid : Z) (subxids : list Z) (max_xid : Z)
    (s : Standby) : Standby :=
  let s := mod_known (KnownAssignedXidsRemoveTree (now env) xid subxids) s in
  set_pa s (bump_completion (MaintainLatestCompletedXidRecovery max_xid (sb_pa s))).

Definition ExpireAllKnownAssignedTransactionIds (env : StandbyEnv) (s : Standby) : Standby :=
  set_overflowed (mod_known (KnownAssignedXidsRemovePreceding (now env) (prepared env) InvalidTransactionId) s)
    InvalidTransactionId.

Definition ExpireOldKnownAssignedTransactionIds (env : StandbyEnv) (xid : Z) (s : Standby) : Standby :=
  let s := if TransactionIdPrecedes (lastOverflowedXid (sb_pa s)) xid
           then set_overflowed s InvalidTransactionId else s in
  mod_known (KnownAssignedXidsRemovePreceding (now env) (prepared env) xid) s.

Definition KnownAssignedTransactionIdsIdleMaintenance (env : StandbyEnv) (s : Standby) : Standby :=
  mod_known (KnownAssignedXidsCompress (now env) KAX_STARTUP_PROCESS_IDLE) s.

Definition ProcArrayInitRecovery (initializedUptoXID : Z) (s : Standby) : Standby :=
  set_observed s (TransactionIdRetreat initializedUptoXID).

(** ** Running-transactions records *)

(** The comparison function of [qsort]: -1, 1 or 0. *)
Definition xidLogicalComparator (xid1 xid2 : Z) : Z :=
  if TransactionIdPrecedes xid1 xid2 then -1
  else if TransactionIdPrecedes xid2 xid1 then 1 else 0.

Definition comparator_le (xid1 xid2 : Z) : Prop := xidLogicalComparator xid1 xid2 <= 0.

#[global] Instance comparator_le_dec : RelDecision comparator_le.
Proof. intros x y. apply Z_le_dec. Defined.

Definition qsort_xids (xids : list Z) : list Z := merge_sort comparator_le xids.

(** The ids that have not already completed. *)
Fixpoint still_running (l : list Z) : M (list Z) :=
  match l with
  | [] => pret []
  | xid :: l =>
      (committed <- on_logs (log_did_commit xid) ;;
       if committed : bool then still_running l
       else
         aborted <- on_logs (log_did_abort xid) ;;
         if aborted : bool then still_running l
         else xids <- still_running l ;; pret (xid :: xids))%prog
  end.

(** The sorted ids are entered one by one, duplicates left out. *)
Fixpoint add_sorted (env : StandbyEnv) (previous : option Z) (l : list Z) : M unit :=
  match l with
  | [] => pret tt
  | xid :: l =>
      (if decide (previous = Some xid) then add_sorted env (Some xid) l
       else on_known (KnownAssignedXidsAdd (now env) xid xid) ;;; add_sorted env (Some xid) l)%prog
  end.

(** [while (TransactionIdPrecedes(latestObservedXid, running->nextXid))]. *)
Fixpoint observe_to (fuel : nat) (nextXid : Z) : M unit :=
  match fuel with
  | O => pret tt
  | S fuel =>
      (x <- pget latestObservedXid ;;
       if TransactionIdPrecedes x nextXid then
         on_logs (log_extend_subtrans x) ;;;
         pmod (fun s => set_observed s (TransactionIdAdvance (latestObservedXid s))) ;;;
         observe_to fuel nextXid
       else pret tt)%prog
  end.

(** From [Assert(standbyState == STANDBY_INITIALIZED)] on. *)
Definition initialize_snapshot (env : StandbyEnv) (running : RunningTransactionsData) : M unit :=
  (xids <- still_running (take (Z.to_nat (xcnt running + subxcnt running)) (run_xids running)) ;;
   pwhen (0 <? zlength xids)
     (ka <- pget (fun s => knownAssigned (sb_pa s)) ;;
      pwhen (negb (numKnownAssignedXids ka =? 0)) (preturn KnownAssignedNotEmpty) ;;;
      add_sorted env None (qsort_xids xids)) ;;;
   pmod (fun s => set_observed s (TransactionIdAdvance (latestObservedXid s))) ;;;
   s <- pget id ;;
   observe_to (Z.to_nat (u32 (run_nextXid running - latestObservedXid s))) (run_nextXid running) ;;;
   pmod (fun s => set_observed s (TransactionIdRetreat (latestObservedXid s))) ;;;
   pmod (fun s =>
     if decide (subxid_status running = SUBXIDS_MISSING) then
       set_overflowed (set_pending (set_standby_state s STANDBY_SNAPSHOT_PENDING) (latestObservedXid s))
         (latestObservedXid s)
     else
       let s := set_pending (set_standby_state s STANDBY_SNAPSHOT_READY) InvalidTransactionId in
       if decide (subxid_status running = SUBXIDS_IN_SUBTRANS)
       then set_overflowed s (latestObservedXid s)
       else set_overflowed s InvalidTransactionId) ;;;
   pmod (fun s => set_pa s (MaintainLatestCompletedXidRecovery (run_latestCompletedXid running) (sb_pa s))))%prog.

Definition ProcArrayApplyRecoveryInfo (env : StandbyEnv) (running : RunningTransactionsData) : M unit :=
  (pmod (ExpireOldKnownAssignedTransactionIds env (oldestRunningXid running)) ;;;
   pmod (advance_next (TransactionIdRetreat (run_nextXid running))) ;;;
   pmod (fun s => set_locks s (StandbyReleaseOldLocks (prepared env) (oldestRunningXid running) (sb_locks s))) ;;;
   s <- pget id ;;
   match standbyState s with
   | STANDBY_SNAPSHOT_READY => pret tt
   | STANDBY_SNAPSHOT_PENDING =>
       if negb (bool_decide (subxid_status running = SUBXIDS_MISSING)) || (xcnt running =? 0) then
         pmod (fun s => set_known s (KnownAssignedXidsReset (knownAssigned (sb_pa s)), sb_kax s)) ;;;
         pmod (fun s => set_standby_state s STANDBY_INITIALIZED) ;;;
         initialize_snapshot env running
       else
         pwhen (TransactionIdPrecedes (standbySnapshotPendingXmin s) (oldestRunningXid running))
           (pmod (fun s => set_standby_state s STANDBY_SNAPSHOT_READY))
   | _ => initialize_snapshot env running
   end)%prog.

(** ** Assignment records *)

Fixpoint set_parents (topxid : Z) (subxids : list Z) : M unit :=
  match subxids with
  | [] => pret tt
  | x :: l => (on_logs (log_set_parent x topxid) ;;; set_parents topxid l)%prog
  end.

Definition ProcArrayApplyXidAssignment (env : StandbyEnv) (topxid : Z) (subxids : list Z) : M unit :=
  (let max_xid := TransactionIdLatest topxid subxids in
   RecordKnownAssignedTransactionIds env max_xid ;;;
   set_parents topxid subxids ;;;
   st <- pget standbyState ;;
   if decide (st = STANDBY_INITIALIZED) then pret tt
   else
     pmod (mod_known (KnownAssignedXidsRemoveTree (now env) InvalidTransactionId subxids)) ;;;
     pmod (fun s => if TransactionIdPrecedes (lastOverflowedXid (sb_pa s)) max_xid then set_overflowed s max_xid else s))%prog.

(** ** Replay of transaction records *)

(** Of [xl_xact_parsed_commit] and [xl_xact_parsed_abort]. *)
Record xl_xact_parsed := MkParsed {
  xact_time : Z;
  origin_timestamp : Z;
  subxacts : list Z;
  has_origin : bool;
  has_ae_locks : bool;
}.

Definition advance_past_latest (max_xid : Z) : M unit := pmod (advance_next max_xid).

Definition release_lock_tree (parsed : xl_xact_parsed) (xid : Z) : M unit :=
  pwhen (has_ae_locks parsed) (pmod (fun s => set_locks s (StandbyReleaseLockTree xid (subxacts parsed) (sb_locks s)))).

Definition xact_redo_commit (env : StandbyEnv) (parsed : xl_xact_parsed) (xid lsn origin_id : Z) : M unit :=
  (let max_xid := TransactionIdLatest xid (subxacts parsed) in
   let commit_time := if has_origin parsed then origin_timestamp parsed else xact_time parsed in
   advance_past_latest max_xid ;;;
   on_logs (log_set_commit_ts xid (subxacts parsed) commit_time origin_id) ;;;
   st <- pget standbyState ;;
   if decide (st = STANDBY_DISABLED) then on_logs (log_commit_tree xid (subxacts parsed))
   else
     RecordKnownAssignedTransactionIds env max_xid ;;;
     on_logs (log_async_commit_tree xid (subxacts parsed) lsn) ;;;
     pmod (ExpireTreeKnownAssignedTransactionIds env xid (subxacts parsed) max_xid) ;;;
     release_lock_tree parsed xid)%prog.

Definition xact_redo_abort (env : StandbyEnv) (parsed : xl_xact_parsed) (xid : Z) : M unit :=
  (let max_xid := TransactionIdLatest xid (subxacts parsed) in
   advance_past_latest max_xid ;;;
   st <- pget standbyState ;;
   if decide (st = STANDBY_DISABLED) then on_logs (log_abort_tree xid (subxacts parsed))
   else
     RecordKnownAssignedTransactionIds env max_xid ;;;
     on_logs (log_abort_tree xid (subxacts parsed)) ;;;
     pmod (ExpireTreeKnownAssignedTransactionIds env xid (subxacts parsed) max_xid) ;;;
     release_lock_tree parsed xid)%prog.

(** ** Standby records *)

Record xl_running_xacts := MkXlRunning {
  xl_xcnt : Z;
  xl_subxcnt : Z;
  subxid_overflow : bool;
  xl_nextXid : Z;
  xl_oldestRunningXid : Z;
  xl_latestCompletedXid : Z;
  xl_xids : list Z;
}.

(** What the record says to the standby. *)
Definition running_of (r : xl_running_xacts) : RunningTransactionsData :=
  MkRunning (xl_xcnt r) (xl_subxcnt r) (if subxid_overflow r then SUBXIDS_MISSING else SUBXIDS_IN_ARRAY)
    (xl_nextXid r) (xl_oldestRunningXid r) InvalidTransactionId (xl_latestCompletedXid r) (xl_xids r).

Definition acquire_lock (key : xl_standby_lock) : M unit :=
  (if negb (TransactionIdIsValid (lock_xid key)) then pret tt
   else
     committed <- on_logs (log_did_commit (lock_xid key)) ;;
     if committed : bool then pret tt
     else
       aborted <- on_logs (log_did_abort (lock_xid key)) ;;
       pmod (fun s => set_locks s (StandbyAcquireAccessExclusiveLock (fun _ => false) (fun _ => aborted) key (sb_locks s))))%prog.

Fixpoint acquire_locks (l : list xl_standby_lock) : M unit :=
  match l with
  | [] => pret tt
  | key :: l => (acquire_lock key ;;; acquire_locks l)%prog
  end.

(** ** Prepared transactions at a shutdown checkpoint

    [gxacts] are the prepared transactions whose state could be read, with
    their subtransactions (twophase.c). *)

Definition PrescanPreparedTransactions (gxacts : list (Z * list Z)) (s : Standby) : Z * list Z * Standby :=
  let origNextXid := XidFromFullTransactionId (nextXid (TransamVariables (sb_pa s))) in
  (foldl (fun result g => if TransactionIdPrecedes g.1 result then g.1 else result) origNextXid gxacts,
   gxacts.*1,
   foldl (fun s x => advance_next x s) s (concat gxacts.*2)).

Fixpoint StandbyRecoverPreparedTransactions (gxacts : list (Z * list Z)) : M unit :=
  match gxacts with
  | [] => pret tt
  | (xid, subxids) :: l => (set_parents xid subxids ;;; StandbyRecoverPreparedTransactions l)%prog
  end.

Definition mod_transam (f : TransamVariablesData -> TransamVariablesData) : M unit :=
  pmod (fun s => set_pa s (set_transam (sb_pa s) (f (TransamVariables (sb_pa s))))).

Definition set_limit (env : StandbyEnv) (checkPoint : CheckPoint) (tv : TransamVariablesData) : TransamVariablesData :=
  (SetTransactionIdLimit (freeze_max_age env) true true (ckpt_oldestXid checkPoint) (ckpt_oldestXidDB checkPoint) tv).1.1.

(** "Believe the counters exactly". *)
Definition believe_counters (env : StandbyEnv) (checkPoint : CheckPoint) : M unit :=
  (mod_transam (fun tv => set_oids (set_next_xid tv (ckpt_nextXid checkPoint)) (ckpt_nextOid checkPoint) 0) ;;;
   on_logs (log_set_next_multi (ckpt_nextMulti checkPoint) (ckpt_nextMultiOffset checkPoint)) ;;;
   on_logs (log_advance_oldest_multi (ckpt_oldestMulti checkPoint) (ckpt_oldestMultiDB checkPoint)) ;;;
   mod_transam (set_limit env checkPoint))%prog.

(** A shutdown checkpoint; the control file, the timeline and restart points
    are left out. *)
Definition redo_shutdown_checkpoint (env : StandbyEnv) (gxacts : list (Z * list Z)) (checkPoint : CheckPoint)
  : M unit :=
  (believe_counters env checkPoint ;;;
   s <- pget id ;;
   if decide (standbyState s = STANDBY_DISABLED) then pret tt
   else
     let '(oldestActiveXID, xids, s) := PrescanPreparedTransactions gxacts s in
     pmod (fun _ => s) ;;;
     StandbyRecoverPreparedTransactions gxacts ;;;
     let nextXid := XidFromFullTransactionId (ckpt_nextXid checkPoint) in
     ProcArrayApplyRecoveryInfo env
       (MkRunning (zlength xids) 0 SUBXIDS_IN_SUBTRANS nextXid oldestActiveXID InvalidTransactionId
          (TransactionIdRetreat nextXid) xids))%prog.

(** The counters of an online checkpoint may be behind. *)
Definition redo_online_checkpoint (env : StandbyEnv) (checkPoint : CheckPoint) : M unit :=
  (mod_transam (fun tv =>
     if FullTransactionIdPrecedes (nextXid tv) (ckpt_nextXid checkPoint) then set_next_xid tv (ckpt_nextXid checkPoint) else tv) ;;;
   on_logs (log_advance_next_multi (ckpt_nextMulti checkPoint) (ckpt_nextMultiOffset checkPoint)) ;;;
   on_logs (log_advance_oldest_multi (ckpt_oldestMulti checkPoint) (ckpt_oldestMultiDB checkPoint)) ;;;
   mod_transam (fun tv =>
     if TransactionIdPrecedes (oldestXid tv) (ckpt_oldestXid checkPoint) then set_limit env checkPoint tv else tv))%prog.

Definition redo_next_oid (oid : Z) : M unit := mod_transam (fun tv => set_oids tv oid 0).

(** Changed settings of the primary: what concerns commit timestamps, with the
    value that the control file had; the other settings are only noted there. *)
Definition redo_parameter_change (track_commit_timestamp old : bool) : M unit :=
  (next <- pget (fun s => nextXid (TransamVariables (sb_pa s))) ;;
   on_logs (log_commit_ts_parameter track_commit_timestamp old next))%prog.

(** ** Records of the logs *)

(** The shared variable [oldestClogXid] moves before any segment goes. *)
Definition redo_clog (record : ClogRecord) : M unit :=
  (match record with
   | CLOG_TRUNCATE _ oldestXact _ => mod_transam (AdvanceOldestClogXid oldestXact)
   | CLOG_ZEROPAGE _ => pret tt
   end ;;;
   on_logs (log_clog_redo record))%prog.

(** After the members of a multixact are stored, the next id is made to follow
    all of them. *)
Definition redo_multixact (xl_xid : Z) (record : MultiXactRecord) : M unit :=
  (max_xid <- on_logs (log_multixact_redo xl_xid record) ;;
   match max_xid with
   | Some max_xid => pmod (advance_next max_xid)
   | None => pret tt
   end)%prog.

(** ** Replaying one record

    [XLOG_OTHER] stands for the records that touch neither ids nor the logs:
    those of heaps, indexes and other storage, and the remaining ones of the
    managers below. *)

Inductive WalRecord :=
| XLOG_XACT_COMMIT (parsed : xl_xact_parsed) (xid lsn origin_id : Z)
| XLOG_XACT_COMMIT_PREPARED (parsed : xl_xact_parsed) (twophase_xid lsn origin_id : Z)
| XLOG_XACT_ABORT (parsed : xl_xact_parsed) (xid : Z)
| XLOG_XACT_ABORT_PREPARED (parsed : xl_xact_parsed) (twophase_xid : Z)
| XLOG_XACT_PREPARE
| XLOG_XACT_ASSIGNMENT (xtop : Z) (xsub : list Z)
| XLOG_XACT_INVALIDATIONS
| XLOG_STANDBY_LOCK (locks : list xl_standby_lock)
| XLOG_RUNNING_XACTS (running : xl_running_xacts)
| XLOG_INVALIDATIONS
| XLOG_CHECKPOINT_SHUTDOWN (gxacts : list (Z * list Z)) (checkPoint : CheckPoint)
| XLOG_CHECKPOINT_ONLINE (checkPoint : CheckPoint)
| XLOG_NEXTOID (oid : Z)
| XLOG_PARAMETER_CHANGE (track_commit_timestamp old : bool)
| XLOG_CLOG (record : ClogRecord)
| XLOG_COMMIT_TS (record : CommitTsRecord)
| XLOG_MULTIXACT (record : MultiXactRecord)
| XLOG_OTHER.

Definition xact_redo (env : StandbyEnv) (r : WalRecord) : M unit :=
  match r with
  | XLOG_XACT_COMMIT parsed xid lsn origin_id | XLOG_XACT_COMMIT_PREPARED parsed xid lsn origin_id =>
      xact_redo_commit env parsed xid lsn origin_id
  | XLOG_XACT_ABORT parsed xid | XLOG_XACT_ABORT_PREPARED parsed xid => xact_redo_abort env parsed xid
  | XLOG_XACT_ASSIGNMENT xtop xsub =>
      (st <- pget standbyState ;;
       if decide (st = STANDBY_DISABLED) then pret tt else ProcArrayApplyXidAssignment env xtop xsub)%prog
  | _ => pret tt
  end.

Definition standby_redo (env : StandbyEnv) (r : WalRecord) : M unit :=
  (st <- pget standbyState ;;
   if decide (st = STANDBY_DISABLED) then pret tt
   else
     match r with
     | XLOG_STANDBY_LOCK locks => acquire_locks locks
     | XLOG_RUNNING_XACTS running => ProcArrayApplyRecoveryInfo env (running_of running)
     | _ => pret tt
     end)%prog.

Definition xlog_redo (env : StandbyEnv) (r : WalRecord) : M unit :=
  match r with
  | XLOG_NEXTOID oid => redo_next_oid oid
  | XLOG_CHECKPOINT_SHUTDOWN gxacts checkPoint => redo_shutdown_checkpoint env gxacts checkPoint
  | XLOG_CHECKPOINT_ONLINE checkPoint => redo_online_checkpoint env checkPoint
  | XLOG_PARAMETER_CHANGE track_commit_timestamp old => redo_parameter_change track_commit_timestamp old
  | _ => pret tt
  end.

(** The resource manager of a record. *)
Definition rm_redo (env : StandbyEnv) (xl_xid : Z) (r : WalRecord) : M unit :=
  match r with
  | XLOG_STANDBY_LOCK _ | XLOG_RUNNING_XACTS _ | XLOG_INVALIDATIONS => standby_redo env r
  | XLOG_CHECKPOINT_SHUTDOWN _ _ | XLOG_CHECKPOINT_ONLINE _ | XLOG_NEXTOID _ | XLOG_PARAMETER_CHANGE _ _ => xlog_redo env r
  | XLOG_CLOG record => redo_clog record
  | XLOG_COMMIT_TS record => on_logs (log_commit_ts_redo record)
  | XLOG_MULTIXACT record => redo_multixact xl_xid record
  | XLOG_OTHER => pret tt
  | _ => xact_redo env r
  end.

(** [xl_xid] is the id in the header of the record. *)
Definition ApplyWalRecord (env : StandbyEnv) (xl_xid : Z) (r : WalRecord) : M unit :=
  (pmod (advance_next xl_xid) ;;;
   st <- pget standbyState ;;
   pwhen (negb (bool_decide (st = STANDBY_DISABLED)) && TransactionIdIsValid xl_xid)
     (RecordKnownAssignedTransactionIds env xl_xid) ;;;
   rm_redo env xl_xid r)%prog.
End standby.

Arguments Standby : clear implicits.
Arguments StandbyError : clear implicits.
