(* ===== verification/StandbyTracking.v ===== *)
(** * What the standby knows of the primary

    The invariant of [Standby]: at every point of the replay, the transactions
    that are unfinished by the log so far are known to the standby, and no
    finished one is.  [top] is the transaction tree of the primary; [gone]
    are the ids of transactions that ended without leaving a record, which a
    later running-transactions record reveals. *)

From S2P Require Import Prelude.
From S2P Require Import Clog.
From S2P Require Import CommitTs.
From S2P Require Import MultiXact.
From S2P Require Import TransactionId.
From S2P Require Import Varsup.
From S2P Require Import KnownAssigned.
From S2P Require Import KnownAssignedTheorems.
From S2P Require Import StandbyLocks.
From S2P Require Import ProcArray.
From S2P Require Import Running.
From S2P Require Import RunningSteps.
From S2P Require Import Standby.

(** ** What recovery relies on of the logs

    A view of their state: the parent of an id ([0] when there is none) and
    its fate; [log_fault] are the I/O errors. *)
Class RecoveryLogsLaws (lo : Z) (L E : Type) `{RecoveryLogs L E} := {
  logs_ok : L -> Prop;
  parent_of : L -> Z -> Z;
  committed : L -> Z -> bool;
  aborted : L -> Z -> bool;
  log_fault : E -> Prop;
  law_extend : forall x l l' r, logs_ok l -> in_use lo x -> log_extend_subtrans x l = (l', r) ->
    match r with
    | inl e => log_fault e
    | inr _ => logs_ok l' /\
        (forall y, in_use lo y -> committed l' y = committed l y /\ aborted l' y = aborted l y) /\
        (forall y, in_use lo y -> xid_rank lo y < xid_rank lo x -> parent_of l' y = parent_of l y) /\
        (forall y, in_use lo y -> xid_rank lo x <= xid_rank lo y -> parent_of l y = 0 -> parent_of l' y = 0)
    end;
  law_set_parent : forall x p l l' r, logs_ok l -> in_use lo x -> in_use lo p -> log_set_parent x p l = (l', r) ->
    match r with
    | inl e => log_fault e
    | inr _ => logs_ok l' /\
        (forall y, in_use lo y -> committed l' y = committed l y /\ aborted l' y = aborted l y) /\
        (forall y, in_use lo y -> parent_of l' y = if decide (y = x) then p else parent_of l y)
    end;
  law_did_commit : forall x l l' r, logs_ok l -> in_use lo x -> log_did_commit x l = (l', r) ->
    match r with
    | inl e => log_fault e
    | inr b => logs_ok l' /\ b = committed l x /\
        (forall y, in_use lo y -> committed l' y = committed l y /\ aborted l' y = aborted l y /\ parent_of l' y = parent_of l y)
    end;
  law_did_abort : forall x l l' r, logs_ok l -> in_use lo x -> log_did_abort x l = (l', r) ->
    match r with
    | inl e => log_fault e
    | inr b => logs_ok l' /\ b = aborted l x /\
        (forall y, in_use lo y -> committed l' y = committed l y /\ aborted l' y = aborted l y /\ parent_of l' y = parent_of l y)
    end;
  law_commit : forall x xs lsn l l' r, logs_ok l -> Forall (in_use lo) (x :: xs) ->
    Forall (fun y => aborted l y = false) (x :: xs) -> log_async_commit_tree x xs lsn l = (l', r) ->
    match r with
    | inl e => log_fault e
    | inr _ => logs_ok l' /\
        (forall y, in_use lo y -> committed l' y = committed l y || bool_decide (y ∈ x :: xs) /\
           aborted l' y = aborted l y /\ parent_of l' y = parent_of l y)
    end;
  law_abort : forall x xs l l' r, logs_ok l -> Forall (in_use lo) (x :: xs) ->
    Forall (fun y => committed l y = false) (x :: xs) -> log_abort_tree x xs l = (l', r) ->
    match r with
    | inl e => log_fault e
    | inr _ => logs_ok l' /\
        (forall y, in_use lo y -> aborted l' y = aborted l y || bool_decide (y ∈ x :: xs) /\
           committed l' y = committed l y /\ parent_of l' y = parent_of l y)
    end;
  law_commit_ts : forall x xs t o l l' r, logs_ok l -> Forall (in_use lo) (x :: xs) -> log_set_commit_ts x xs t o l = (l', r) ->
    match r with
    | inl e => log_fault e
    | inr _ => logs_ok l' /\
        (forall y, in_use lo y -> committed l' y = committed l y /\ aborted l' y = aborted l y /\ parent_of l' y = parent_of l y)
    end;
  law_multi : forall m a b l l' r, m ∈ [log_set_next_multi; log_advance_next_multi; log_advance_oldest_multi] -> logs_ok l ->
    m a b l = (l', r) ->
    match r with
    | inl e => log_fault e
    | inr _ => logs_ok l' /\
        (forall y, in_use lo y -> committed l' y = committed l y /\ aborted l' y = aborted l y /\ parent_of l' y = parent_of l y)
    end;
  law_clog_zero : forall pageno l l' r, logs_ok l -> 0 <= pageno ->
    (forall y, in_use lo y -> TransactionIdToPage y = pageno -> committed l y = false /\ aborted l y = false) ->
    log_clog_redo (CLOG_ZEROPAGE pageno) l = (l', r) ->
    match r with
    | inl e => log_fault e
    | inr _ => logs_ok l' /\
        (forall y, in_use lo y -> committed l' y = committed l y /\ aborted l' y = aborted l y /\ parent_of l' y = parent_of l y)
    end;
  law_clog_truncate : forall oldest db l l' r, logs_ok l -> is_u32 oldest -> TransactionIdIsNormal oldest = true ->
    (forall y, in_use lo y -> TransactionIdPrecedes y oldest = true -> committed l y = false /\ aborted l y = false) ->
    log_clog_redo (CLOG_TRUNCATE (TransactionIdToPage oldest) oldest db) l = (l', r) ->
    match r with
    | inl e => log_fault e
    | inr _ => logs_ok l' /\
        (forall y, in_use lo y -> committed l' y = committed l y /\ aborted l' y = aborted l y /\ parent_of l' y = parent_of l y)
    end;
  law_commit_ts_redo : forall record l l' r, logs_ok l -> log_commit_ts_redo record l = (l', r) ->
    match r with
    | inl e => log_fault e
    | inr _ => logs_ok l' /\
        (forall y, in_use lo y -> committed l' y = committed l y /\ aborted l' y = aborted l y /\ parent_of l' y = parent_of l y)
    end;
  law_commit_ts_parameter : forall new old next l l' r, logs_ok l -> log_commit_ts_parameter new old next l = (l', r) ->
    match r with
    | inl e => log_fault e
    | inr _ => logs_ok l' /\
        (forall y, in_use lo y -> committed l' y = committed l y /\ aborted l' y = aborted l y /\ parent_of l' y = parent_of l y)
    end;
  law_multixact_redo : forall xid record l l' r, logs_ok l -> log_multixact_redo xid record l = (l', r) ->
    match r with
    | inl e => log_fault e
    | inr _ => logs_ok l' /\
        (forall y, in_use lo y -> committed l' y = committed l y /\ aborted l' y = aborted l y /\ parent_of l' y = parent_of l y)
    end;
}.

Section tracking.
Context {L E LM : Type} `{Logs : RecoveryLogs L E} `{Locks : LockManager LM}.
Context (lo : Z) `{!RecoveryLogsLaws lo L E}.
Context (top : Z -> Z) (Htop : topmost_ok lo top) (Htop2 : forall x, in_use lo x -> top (top x) = top x).

Abbreviation rank := (xid_rank lo).
Abbreviation in_use := (in_use lo).
Abbreviation State := (Standby L LM).
Implicit Types (s : State).

Definition obs s : Z := latestObservedXid s.
Definition known s : list Z := KnownAssignedXids (knownAssigned (sb_pa s)).
Definition array s : KnownAssigned := knownAssigned (sb_pa s).
Definition parent s : Z -> Z := parent_of (sb_logs s).
Definition ended s (x : Z) : Prop := committed (sb_logs s) x = true \/ aborted (sb_logs s) x = true.
Definition overflowed s : Z := lastOverflowedXid (sb_pa s).
Definition pending s (x : Z) : Prop :=
  standbyState s = STANDBY_SNAPSHOT_PENDING /\ rank x <= rank (standbySnapshotPendingXmin s).

(** Unfinished, as far as the log so far and the later revelations tell. *)
Definition alive (gone : Z -> Prop) s (x : Z) : Prop := ~ ended s x /\ ~ gone x.

(** The known ids, or a way to a known ancestor. *)
Definition reachable s (x : Z) : Prop :=
  x ∈ known s \/
  top x <> x /\ ((parent s x = top x /\ in_use (overflowed s) /\ rank x <= rank (overflowed s)) \/ pending s x).

Record tracking (gone : Z -> Prop) s : Prop := {
  tr_logs : logs_ok (sb_logs s);
  tr_array : ka_ok lo (array s);
  tr_obs : in_use (obs s) /\ rank (obs s) < 0x7ffffff0;
  tr_below : forall x, x ∈ (window (array s)).*1 -> rank x <= rank (obs s);
  tr_idle : machinery_up (standbyState s) = false -> window (array s) = [];
  tr_future : forall x, in_use x -> rank (obs s) < rank x -> ~ ended s x /\ parent s x = 0;
  tr_parent : forall x, in_use x -> parent s x <> 0 -> parent s x = top x /\ top x <> x;
  tr_tree : forall x, in_use x -> rank x <= rank (obs s) -> alive gone s x -> alive gone s (top x);
  tr_committed : forall x, in_use x -> committed (sb_logs s) x = true -> ended s (top x);
  tr_known : forall x, x ∈ known s -> ~ ended s x;
  tr_complete : machinery_up (standbyState s) = true -> forall x, in_use x -> rank x <= rank (obs s) ->
    alive gone s x -> reachable s x;
  tr_overflowed : TransactionIdIsValid (overflowed s) = true -> in_use (overflowed s);
  tr_pending : standbyState s = STANDBY_SNAPSHOT_PENDING -> in_use (standbySnapshotPendingXmin s);
  tr_latest : TransactionIdIsValid (latest (sb_pa s)) = true ->
    in_use (latest (sb_pa s)) /\ rank (latest (sb_pa s)) <= rank (obs s);
  tr_xmax : machinery_up (standbyState s) = true -> TransactionIdIsValid (latest (sb_pa s)) = true;
}.

(** The errors that can stop the replay: the log files fail, or more ids are
    running than there is room for. *)
Definition stops (e : StandbyError E) : Prop :=
  match e with
  | LogFailed e => log_fault e
  | KnownAssignedFailed KAX_TooMany => True
  | _ => False
  end.

(** Replay goes on in a state that satisfies [Q], or stops. *)
Definition goes_on {A} (Q : A -> State -> Prop) (r : StandbyError E + A) s : Prop :=
  match r with inl e => stops e | inr a => Q a s end.

Lemma wp_go_bind {A B} (m : prog State (StandbyError E) A) (k : A -> prog State (StandbyError E) B) (P : A -> State -> Prop) Q s :
  wp m (goes_on P) s -> (forall a s', P a s' -> wp (k a) (goes_on Q) s') -> wp (pbind m k) (goes_on Q) s.
Proof.
  intros Hm Hk. apply wp_bind. eapply wp_mono; [|exact Hm]. intros [e|a] s'; simpl; [done|]. apply Hk.
Qed.

Lemma wp_on_logs {A} (m : prog L E A) (P : A -> L -> Prop) s :
  (forall l' r, m (sb_logs s) = (l', r) -> match r with inl e => log_fault e | inr a => P a l' end) ->
  wp (on_logs m) (goes_on (fun a s' => exists l', s' = set_logs s l' /\ P a l')) s.
Proof.
  intros Hm. unfold wp, on_logs. destruct (m (sb_logs s)) as [l' r] eqn:E0. specialize (Hm l' r eq_refl).
  destruct r; simpl; [done|]. by exists l'.
Qed.

(** *** Extending the subtransaction log *)

Record logs_grow (x : Z) (l l' : L) : Prop := {
  lg_ok : logs_ok l';
  lg_fate : forall y, in_use y -> committed l' y = committed l y /\ aborted l' y = aborted l y;
  lg_old : forall y, in_use y -> rank y <= rank x -> parent_of l' y = parent_of l y;
  lg_new : forall y, in_use y -> rank x < rank y -> parent_of l y = 0 -> parent_of l' y = 0;
}.

Lemma logs_grow_refl x l : logs_ok l -> logs_grow x l l.
Proof. by split. Qed.

Lemma logs_grow_extend x x' l l1 l2 : in_use x -> in_use x' ->
  (forall y, in_use y -> rank y < rank x' <-> rank y <= rank x) ->
  logs_ok l1 /\
  (forall y, in_use y -> committed l1 y = committed l y /\ aborted l1 y = aborted l y) /\
  (forall y, in_use y -> rank y < rank x' -> parent_of l1 y = parent_of l y) /\
  (forall y, in_use y -> rank x' <= rank y -> parent_of l y = 0 -> parent_of l1 y = 0) ->
  logs_grow x' l1 l2 -> logs_grow x l l2.
Proof.
  intros Hx Hx' Hadv (Hok & Hf & Ho & Hn) [Hok2 Hf2 Ho2 Hn2]. split; [done|..].
  - intros y Hy. destruct (Hf y Hy), (Hf2 y Hy). split; congruence.
  - intros y Hy Hr. rewrite Ho2, Ho; try done; [by apply Hadv|]. apply Hadv in Hr; [lia|done].
  - intros y Hy Hr H0. destruct (decide (rank y <= rank x')) as [Hle|Hgt].
    + rewrite Ho2 by done. apply Hn; [done| |done]. destruct (Hadv y Hy). lia.
    + apply Hn2; [done|lia|]. apply Hn; [done|lia|done].
Qed.

Lemma extend_to_spec xid fuel : forall x s, logs_ok (sb_logs s) -> in_use x -> in_use xid -> rank xid < 0x7ffffff0 ->
  wp (extend_to fuel x xid) (goes_on (fun _ s' => exists l', s' = set_logs s l' /\ logs_grow x (sb_logs s) l')) s.
Proof.
  induction fuel as [|fuel IH]; intros x s Hok Hx Hxid Hr; simpl.
  - exists (sb_logs s). split; [by destruct s|by apply logs_grow_refl].
  - rewrite (precedes_rank lo) by done. destruct (Z.ltb_spec (rank x) (rank xid)) as [Hlt|Hge].
    2:{ exists (sb_logs s). split; [by destruct s|by apply logs_grow_refl]. }
    destruct (advance_rank lo x x Hx ltac:(lia) Hx) as [Ha _].
    eapply wp_go_bind; [apply wp_on_logs; intros l' r; by apply law_extend|].
    intros _ s1 (l1 & -> & H1). eapply wp_mono; [|apply IH; [apply H1|done..]].
    intros [e|[]] s'; simpl; [done|]. intros (l2 & -> & H2). exists l2. split; [done|].
    eapply logs_grow_extend; [exact Hx|exact Ha| |exact H1|exact H2].
    intros y Hy. apply (advance_rank lo x y Hx); [lia|done].
Qed.

(** *** Observing an id *)

(** Links in the subtransaction log stay. *)
Definition parents_kept s s' : Prop := forall y, in_use y -> parent s y <> 0 -> parent s' y = parent s y.

Lemma parents_kept_trans s1 s2 s3 : parents_kept s1 s2 -> parents_kept s2 s3 -> parents_kept s1 s3.
Proof. intros H1 H2 y Hy Hp. rewrite H2; [auto|done|]. by rewrite H1. Qed.

(** The ids observed with [xid] belong to unfinished transactions. *)
Definition newcomers (gone : Z -> Prop) s (xid : Z) : Prop :=
  forall y, in_use y -> rank (obs s) < rank y <= rank xid -> ~ gone y -> alive gone s (top y).

(** What observing an id leaves as it was. *)
Record recorded (gone : Z -> Prop) (xid : Z) s s' : Prop := {
  rc_tracking : tracking gone s';
  rc_obs : rank (obs s') = Z.max (rank (obs s)) (rank xid);
  rc_fate : forall y, in_use y ->
    committed (sb_logs s') y = committed (sb_logs s) y /\ aborted (sb_logs s') y = aborted (sb_logs s) y;
  rc_parent : forall y, in_use y -> rank y <= rank (obs s) -> parent s' y = parent s y;
  rc_state : standbyState s' = standbyState s /\ standbySnapshotPendingXmin s' = standbySnapshotPendingXmin s;
  rc_over : overflowed s' = overflowed s;
  rc_latest : latest (sb_pa s') = latest (sb_pa s);
}.

Lemma ended_grow x s l' y : logs_grow x (sb_logs s) l' -> in_use y -> ended (set_logs s l') y <-> ended s y.
Proof. intros Hg Hy. unfold ended. simpl. by destruct (lg_fate _ _ _ Hg y Hy) as [-> ->]. Qed.

Lemma latest_advance pa x : latest (set_transam pa (AdvanceNextFullTransactionIdPastXid x (TransamVariables pa))) = latest pa.
Proof. unfold latest, AdvanceNextFullTransactionIdPastXid. simpl. by destruct (negb _). Qed.

Section observe.
Context (gone : Z -> Prop) (s : State) (xid : Z).
Context (Ht : tracking gone s) (Hx : in_use xid) (Hr : rank xid < 0x7ffffff0) (Hlt : rank (obs s) < rank xid).
Context (Hnew : newcomers gone s xid).
Context (l' : L) (Hg : logs_grow (obs s) (sb_logs s) l').

(** The fields that do not depend on the array: the ids up to [xid] are now
    observed. *)
Lemma observed_tracking s' : sb_logs s' = l' -> obs s' = xid -> standbyState s' = standbyState s ->
  standbySnapshotPendingXmin s' = standbySnapshotPendingXmin s -> overflowed s' = overflowed s ->
  latest (sb_pa s') = latest (sb_pa s) -> ka_ok lo (array s') ->
  (forall x, x ∈ (window (array s')).*1 -> rank x <= rank xid) ->
  (machinery_up (standbyState s) = false -> window (array s') = []) ->
  (machinery_up (standbyState s) = true -> forall x, x ∈ known s' <-> x ∈ known s \/ (in_use x /\ rank (obs s) < rank x <= rank xid)) ->
  recorded gone xid s s'.
Proof.
  intros El Eo Es Ep Eov Elat Hka Hbelow Hidle Hknown.
  assert (forall y, in_use y -> ended s' y <-> ended s y) as He.
  { intros y Hy. unfold ended. rewrite El. by destruct (lg_fate _ _ _ Hg y Hy) as [-> ->]. }
  assert (forall y, in_use y -> alive gone s' y <-> alive gone s y) as Hal by (intros y Hy; unfold alive; by rewrite He).
  split; try done; [|rewrite Eo; lia|intros y Hy; rewrite El; by apply (lg_fate _ _ _ Hg)|intros y Hy Hle; unfold parent; rewrite El; by apply (lg_old _ _ _ Hg)].
  split; rewrite ?El, ?Es, ?Eov, ?Elat, ?Eo.
  - apply (lg_ok _ _ _ Hg).
  - done.
  - done.
  - done.
  - done.
  - intros x Hux Hr'. destruct (tr_future _ _ Ht x Hux ltac:(lia)) as (H1 & H3). rewrite He by done.
    split; [done|]. unfold parent. rewrite El. apply (lg_new _ _ _ Hg); [done|lia|done].
  - intros x Hux. unfold parent. rewrite El. destruct (decide (rank x <= rank (obs s))) as [Hle|Hgt].
    + rewrite (lg_old _ _ _ Hg) by done. by apply (tr_parent _ _ Ht).
    + intros Hp. destruct Hp. apply (lg_new _ _ _ Hg); [done|lia|]. apply (tr_future _ _ Ht); [done|lia].
  - intros x Hux Hle. rewrite Hal by done. rewrite Hal by (by apply (top_in_use _ _ Htop)).
    destruct (decide (rank x <= rank (obs s))); [by apply (tr_tree _ _ Ht)|]. intros [_ ?]. apply Hnew; [done|lia|done].
  - intros x Hux. rewrite He by (by apply (top_in_use _ _ Htop)). destruct (lg_fate _ _ _ Hg x Hux) as [-> _].
    by apply (tr_committed _ _ Ht).
  - intros x Hin. assert (in_use x) as Hux by (eapply ascending_use; [by apply known_ascending|done]).
    rewrite He by done. destruct (machinery_up (standbyState s)) eqn:Hup.
    + apply Hknown in Hin; [|done]. destruct Hin as [Hin|[_ Hin]]; [by apply (tr_known _ _ Ht)|].
      apply (tr_future _ _ Ht); [done|lia].
    + unfold known, KnownAssignedXids in Hin. fold (array s') in Hin. rewrite Hidle in Hin by done. by apply elem_of_nil in Hin.
  - intros Hup x Hux Hle Ha. rewrite Hal in Ha by done. unfold reachable. rewrite Eov. unfold pending. rewrite Es, Ep.
    destruct (decide (rank x <= rank (obs s))) as [Hle'|Hgt].
    + destruct (tr_complete _ _ Ht Hup x Hux Hle' Ha) as [Hk|[Hne Hk]]; [left; apply Hknown; auto|right].
      split; [done|]. unfold parent. rewrite El, (lg_old _ _ _ Hg) by done. exact Hk.
    + left. apply Hknown; [done|]. right. split; [done|lia].
  - apply (tr_overflowed _ _ Ht).
  - rewrite Ep. apply (tr_pending _ _ Ht).
  - intros Hv. apply (tr_latest _ _ Ht) in Hv as [? ?]. split; [done|lia].
  - apply (tr_xmax _ _ Ht).
Qed.
End observe.

Lemma recorded_parents gone xid s s' : tracking gone s -> recorded gone xid s s' -> parents_kept s s'.
Proof.
  intros Ht Hr y Hy Hp. apply (rc_parent _ _ _ _ Hr); [done|]. apply Z.nlt_ge. intros Hlt.
  by destruct (tr_future _ _ Ht y Hy Hlt).
Qed.

Lemma recorded_refl gone xid s : tracking gone s -> rank xid <= rank (obs s) -> recorded gone xid s s.
Proof. intros. split; try done. lia. Qed.

Lemma record_known_spec env gone xid s : tracking gone s -> in_use xid -> rank xid < 0x7ffffff0 -> newcomers gone s xid ->
  wp (RecordKnownAssignedTransactionIds env xid) (goes_on (fun _ s' => recorded gone xid s s')) s.
Proof.
  intros Ht Hx Hr Hnew. unfold RecordKnownAssignedTransactionIds. apply wp_bind, wp_get. simpl.
  destruct (tr_obs _ _ Ht) as [Hou Hor]. unfold id. fold (obs s). rewrite (follows_rank lo) by done.
  destruct (Z.ltb_spec (rank (obs s)) (rank xid)) as [Hlt|Hge]; [|apply wp_ret; by apply recorded_refl].
  eapply wp_go_bind; [apply extend_to_spec; [apply (tr_logs _ _ Ht)|done..]|].
  intros _ s1 (l1 & -> & Hg). destruct (machinery_up (standbyState s)) eqn:Hup; simpl.
  2:{ unfold wp, pmod. simpl. apply (observed_tracking gone s xid Ht Hx Hr Hlt Hnew l1 Hg); try done.
      - apply (tr_array _ _ Ht).
      - simpl. intros x Hin. unfold array in Hin. simpl in Hin. apply (tr_below _ _ Ht) in Hin. lia.
      - intros _. apply (tr_idle _ _ Ht Hup).
      - congruence. }
  destruct (advance_rank lo (obs s) (obs s) Hou Hor Hou) as [Ha Hlta].
  destruct (advance_rank lo (obs s) xid Hou Hor Hx) as [_ Hltx].
  destruct (add_spec lo (now env) (TransactionIdAdvance (obs s)) xid (array s) (sb_kax s) (tr_array _ _ Ht) Ha Hx) as (new & Hrange & Hadd); [lia|done|].
  unfold wp, pbind, on_known, pmod. change (known_of (set_logs s l1)) with (array s, sb_kax s).
  destruct (KnownAssignedXidsAdd _ _ _ _) as [[ka c] r]. simpl in Hadd. destruct Hadd as [Hok _ Hwin Hres].
  destruct r as [[]|[]]; simpl.
  - destruct Hres as [Hb _]. apply Hb. intros x Hin. apply (tr_below _ _ Ht) in Hin. lia.
  - done.
  - destruct Hres as (_ & Hk & _). simpl in Hok, Hk, Hwin.
    assert (forall y, y ∈ new <-> in_use y /\ rank (obs s) < rank y <= rank xid) as Hn.
    { intros y. rewrite (proj2 Hrange). split; intros [Hy ?]; (split; [done|]);
        destruct (advance_rank lo (obs s) y Hou Hor Hy) as [_ ?]; lia. }
    apply (observed_tracking gone s xid Ht Hx Hr Hlt Hnew l1 Hg); try done; simpl.
    + exact (latest_advance (sb_pa s) xid).
    + intros x [Hin|Hin]%Hwin; [apply (tr_below _ _ Ht) in Hin; lia|]. apply Hn in Hin. lia.
    + congruence.
    + intros _ x. unfold known. simpl. rewrite Hk, elem_of_app, Hn. done.
Qed.

(** *** The end of a tree *)

Lemma maintain_recovery x pa : in_use x -> (TransactionIdIsValid (latest pa) = true -> in_use (latest pa)) ->
  let pa' := MaintainLatestCompletedXidRecovery x pa in
  in_use (latest pa') /\ rank x <= rank (latest pa') /\
  (latest pa' = x \/ TransactionIdIsValid (latest pa) = true /\ latest pa' = latest pa) /\
  (TransactionIdIsValid (latest pa) = true -> rank (latest pa) <= rank (latest pa')) /\
  procs pa' = procs pa /\ knownAssigned pa' = knownAssigned pa /\ lastOverflowedXid pa' = lastOverflowedXid pa.
Proof.
  intros Hx Hl. unfold MaintainLatestCompletedXidRecovery, FullTransactionIdIsValid. fold (latest pa).
  assert (latest (set_latest pa (FullXidRelativeTo (nextXid (TransamVariables pa)) x)) = x) as E0 by apply relative_xid, Hx.
  destruct (TransactionIdIsValid (latest pa)) eqn:Hv; cbn [negb orb].
  2:{ cbv zeta. rewrite E0. split_and!; try done; by left. }
  specialize (Hl eq_refl). rewrite (precedes_rank lo) by done.
  destruct (Z.ltb_spec (rank (latest pa)) (rank x)); cbv zeta; rewrite ?E0; split_and!; try done; try lia; auto.
Qed.

Record finished (gone : Z -> Prop) (xs : list Z) s s' : Prop := {
  fi_tracking : tracking gone s';
  fi_ended : forall y, in_use y -> ended s' y <-> ended s y \/ y ∈ xs;
  fi_latest : forall y, y ∈ xs -> rank y <= rank (latest (sb_pa s'));
  fi_obs : obs s' = obs s;
  fi_state : standbyState s' = standbyState s;
}.

Lemma finish_tracking gone s xs s' : tracking gone s -> Forall in_use xs -> (forall x, x ∈ xs -> rank x <= rank (obs s)) ->
  logs_ok (sb_logs s') -> (forall y, in_use y -> parent s' y = parent s y) ->
  (forall y, in_use y -> ended s' y <-> ended s y \/ y ∈ xs) ->
  (forall y, in_use y -> committed (sb_logs s') y = true -> ended s' (top y)) ->
  (forall y, in_use y -> rank y <= rank (obs s) -> alive gone s y -> top y ∈ xs -> y ∈ xs) ->
  (forall y, in_use y -> y ∈ known s' <-> y ∈ known s /\ y ∉ xs) -> shrinks lo (array s) (array s') ->
  obs s' = obs s -> standbyState s' = standbyState s -> standbySnapshotPendingXmin s' = standbySnapshotPendingXmin s ->
  overflowed s' = overflowed s -> in_use (latest (sb_pa s')) -> rank (latest (sb_pa s')) <= rank (obs s) ->
  tracking gone s'.
Proof.
  intros Ht Hxs Hle Hlogs Hpar He Hcom Htree Hknown Hsh Eo Es Ep Eov Hlu Hlle.
  assert (forall y, in_use y -> alive gone s' y <-> alive gone s y /\ y ∉ xs) as Hal.
  { intros y Hy. unfold alive. rewrite He by done. tauto. }
  split; rewrite ?Es, ?Eov, ?Eo.
  - done.
  - apply (sh_ok _ _ _ Hsh).
  - apply (tr_obs _ _ Ht).
  - intros x Hx. apply (tr_below _ _ Ht). by apply (sh_window _ _ _ Hsh).
  - intros Hup. pose proof (tr_idle _ _ Ht Hup) as Hw. destruct (window (array s')) as [|[x b] w] eqn:Ew; [done|].
    assert (x ∈ (window (array s)).*1) as Hin by (apply (sh_window _ _ _ Hsh); rewrite Ew; by left).
    rewrite Hw in Hin. by apply elem_of_nil in Hin.
  - intros x Hx Hr. destruct (tr_future _ _ Ht x Hx Hr) as (H1 & H3). rewrite He, Hpar by done. split; [|done].
    intros [?|Hin%Hle]; [done|lia].
  - intros x Hx. rewrite Hpar by done. by apply (tr_parent _ _ Ht).
  - intros x Hx Hr. rewrite Hal by done. intros [Ha Hn]. rewrite Hal by (by apply (top_in_use _ _ Htop)).
    split; [by apply (tr_tree _ _ Ht)|]. intros Hin. apply Hn. by apply Htree.
  - done.
  - intros x Hin. assert (in_use x) as Hx by (eapply ascending_use; [apply known_ascending, (sh_ok _ _ _ Hsh)|done]).
    apply Hknown in Hin as [Hin Hn]; [|done]. rewrite He by done. intros [?|?]; [by apply (tr_known _ _ Ht x Hin)|done].
  - intros Hup x Hx Hr Ha. apply Hal in Ha as [Ha Hn]; [|done]. unfold reachable, pending. rewrite Eov, Es, Ep, Hpar by done.
    destruct (tr_complete _ _ Ht Hup x Hx Hr Ha) as [Hk|Hk]; [left; by apply Hknown|by right].
  - apply (tr_overflowed _ _ Ht).
  - rewrite Ep. apply (tr_pending _ _ Ht).
  - done.
  - intros _. by apply (in_use_valid lo).
Qed.

(** The ids of the tree end together: the log marks them, then they leave the
    array. *)
Lemma expire_tree_spec env gone x xs s l' : let ids := x :: xs in
  tracking gone s -> Forall in_use ids -> (forall y, y ∈ ids -> rank y <= rank (obs s)) ->
  logs_ok l' -> (forall y, in_use y -> parent_of l' y = parent s y) ->
  let s1 := set_logs s l' in
  (forall y, in_use y -> ended s1 y <-> ended s y \/ y ∈ ids) ->
  (forall y, in_use y -> committed l' y = true -> ended s1 (top y)) ->
  (forall y, in_use y -> rank y <= rank (obs s) -> alive gone s y -> top y ∈ ids -> y ∈ ids) ->
  finished gone ids s (ExpireTreeKnownAssignedTransactionIds env x xs (TransactionIdLatest x xs) s1).
Proof.
  intros ids Ht Hids Hle Hlogs Hpar s1 He Hcom Htree.
  destruct (latest_rank lo x xs Hids) as [Hmin Hmax]. fold ids in Hmin, Hmax. set (m := TransactionIdLatest x xs) in *.
  assert (in_use m) as Hm by (rewrite Forall_forall in Hids; by apply Hids).
  pose proof Hids as Hids2. apply Forall_cons in Hids2 as [Hx Hxs].
  destruct (remove_tree_spec lo (now env) x xs (array s) (sb_kax s) (tr_array _ _ Ht) (fun _ => Hx) Hxs) as [Hsh Hk].
  unfold ExpireTreeKnownAssignedTransactionIds, mod_known. change (known_of s1) with (array s, sb_kax s).
  destruct (KnownAssignedXidsRemoveTree (now env) x xs (array s, sb_kax s)) as [ka c]. simpl in Hsh, Hk.
  set (s2 := set_known s1 (ka, c)). assert (latest (sb_pa s2) = latest (sb_pa s)) as El by done.
  destruct (maintain_recovery m (sb_pa s2)) as (Hlu & Hlm & Hor & _ & _ & Hka & Hov); [done|rewrite El; apply (tr_latest _ _ Ht)|].
  set (pa' := MaintainLatestCompletedXidRecovery m (sb_pa s2)) in *. set (s' := set_pa s2 (bump_completion pa')).
  assert (rank (latest pa') <= rank (obs s)) as Hlo.
  { destruct Hor as [->|[Hv E0]]; [by apply Hle|]. rewrite E0, El in *. by apply (tr_latest _ _ Ht). }
  assert (array s' = ka) as Ha by exact Hka.
  split; [|done|intros y Hy; change (latest (sb_pa s')) with (latest pa'); specialize (Hmax y Hy); lia|done|done].
  apply (finish_tracking gone s ids); try done.
  - intros y Hy. unfold known. fold (array s'). rewrite Ha, Hk by done. unfold ids. rewrite not_elem_of_cons. done.
  - by rewrite Ha.
Qed.

(** *** Steps that change nothing of interest *)

Record same_view s s' : Prop := {
  sm_ok : logs_ok (sb_logs s) -> logs_ok (sb_logs s');
  sm_logs : forall y, in_use y -> committed (sb_logs s') y = committed (sb_logs s) y /\
    aborted (sb_logs s') y = aborted (sb_logs s) y /\ parent s' y = parent s y;
  sm_array : array s' = array s;
  sm_obs : obs s' = obs s;
  sm_state : standbyState s' = standbyState s;
  sm_pending : standbySnapshotPendingXmin s' = standbySnapshotPendingXmin s;
  sm_over : overflowed s' = overflowed s;
  sm_latest : latest (sb_pa s') = latest (sb_pa s);
}.

Lemma same_refl s : same_view s s.
Proof. by split. Qed.

Lemma same_trans s1 s2 s3 : same_view s1 s2 -> same_view s2 s3 -> same_view s1 s3.
Proof.
  intros [A1 A2 A3 A4 A5 A6 A7 A8] [B1 B2 B3 B4 B5 B6 B7 B8]. split; try congruence; [auto|].
  intros y Hy. destruct (A2 y Hy) as (? & ? & ?), (B2 y Hy) as (? & ? & ?). split_and!; congruence.
Qed.

Lemma same_ended s s' y : same_view s s' -> in_use y -> ended s' y <-> ended s y.
Proof. intros Hs Hy. unfold ended. by destruct (sm_logs _ _ Hs y Hy) as (-> & -> & _). Qed.

Lemma same_alive gone s s' y : same_view s s' -> in_use y -> alive gone s' y <-> alive gone s y.
Proof. intros Hs Hy. unfold alive. by rewrite same_ended. Qed.

Lemma same_newcomers gone s s' xid : same_view s s' -> newcomers gone s xid -> newcomers gone s' xid.
Proof.
  intros Hs Hn y Hy Hr Hg. rewrite (sm_obs _ _ Hs) in Hr. apply (same_alive gone s); [done|by apply (top_in_use _ _ Htop)|].
  by apply Hn.
Qed.

Lemma same_tracking gone s s' : tracking gone s -> same_view s s' -> tracking gone s'.
Proof.
  intros Ht Hs. pose proof (fun y Hy => same_ended s s' y Hs Hy) as He.
  pose proof (fun y Hy => same_alive gone s s' y Hs Hy) as Hal.
  assert (known s' = known s) as Ek by (unfold known; fold (array s') (array s); by rewrite (sm_array _ _ Hs)).
  split; rewrite ?(sm_array _ _ Hs), ?(sm_obs _ _ Hs), ?(sm_state _ _ Hs), ?(sm_over _ _ Hs), ?(sm_latest _ _ Hs), ?(sm_pending _ _ Hs), ?Ek;
    try apply Ht.
  - apply (sm_ok _ _ Hs), Ht.
  - intros x Hx Hr. rewrite He by done. destruct (sm_logs _ _ Hs x Hx) as (_ & _ & ->). by apply (tr_future _ _ Ht).
  - intros x Hx. destruct (sm_logs _ _ Hs x Hx) as (_ & _ & ->). by apply (tr_parent _ _ Ht).
  - intros x Hx Hr. rewrite !Hal by (done || by apply (top_in_use _ _ Htop)). by apply (tr_tree _ _ Ht).
  - intros x Hx. destruct (sm_logs _ _ Hs x Hx) as (-> & _). rewrite He by (by apply (top_in_use _ _ Htop)). by apply (tr_committed _ _ Ht).
  - intros x Hx. rewrite He; [by apply (tr_known _ _ Ht)|]. eapply ascending_use; [apply known_ascending, (tr_array _ _ Ht)|done].
  - intros Hup x Hx Hr Ha. rewrite Hal in Ha by done. pose proof (tr_complete _ _ Ht Hup x Hx Hr Ha) as Hreach.
    unfold reachable, pending in *. rewrite Ek, (sm_over _ _ Hs), (sm_state _ _ Hs), (sm_pending _ _ Hs).
    by destruct (sm_logs _ _ Hs x Hx) as (_ & _ & ->).
Qed.

Lemma same_next x s : same_view s (advance_next x s).
Proof. split; try done. apply latest_advance. Qed.

Lemma same_locks s k : same_view s (set_locks s k).
Proof. by split. Qed.

Lemma same_logs s l' : logs_ok l' ->
  (forall y, in_use y -> committed l' y = committed (sb_logs s) y /\ aborted l' y = aborted (sb_logs s) y /\ parent_of l' y = parent s y) ->
  same_view s (set_logs s l').
Proof. by split. Qed.

(** *** Commit records *)

Record commit_ok (gone : Z -> Prop) s (x : Z) (xs : list Z) : Prop := {
  co_ids : Forall (fun y => in_use y /\ rank y < 0x7ffffff0) (x :: xs);
  co_alive : Forall (alive gone s) (x :: xs);
  co_tree : forall y, y ∈ x :: xs -> top y = x;
  co_whole : forall y, in_use y -> rank y <= Z.max (rank (obs s)) (rank (TransactionIdLatest x xs)) ->
    alive gone s y -> top y = x -> y ∈ x :: xs;
  co_new : newcomers gone s (TransactionIdLatest x xs);
}.

(** After a commit record: the tree is committed, and counts as completed. *)
Record commit_done (gone : Z -> Prop) (x : Z) (xs : list Z) s s' : Prop := {
  cd_tracking : tracking gone s';
  cd_committed : forall y, in_use y -> committed (sb_logs s') y = committed (sb_logs s) y || bool_decide (y ∈ x :: xs);
  cd_aborted : forall y, in_use y -> aborted (sb_logs s') y = aborted (sb_logs s) y;
  cd_latest : forall y, y ∈ x :: xs -> rank y <= rank (latest (sb_pa s'));
  cd_obs : rank (obs s') = Z.max (rank (obs s)) (rank (TransactionIdLatest x xs));
  cd_state : standbyState s' = standbyState s;
  cd_parents : parents_kept s s';
}.

Lemma latest_in_use x xs : Forall (fun y => in_use y /\ rank y < 0x7ffffff0) (x :: xs) ->
  Forall in_use (x :: xs) /\ in_use (TransactionIdLatest x xs) /\ rank (TransactionIdLatest x xs) < 0x7ffffff0 /\
  (forall y, y ∈ x :: xs -> rank y <= rank (TransactionIdLatest x xs)).
Proof.
  intros Hids. assert (Forall in_use (x :: xs)) as Hu by (eapply Forall_impl; [exact Hids|by intros ? [? _]]).
  destruct (latest_rank lo x xs Hu) as [Hin Hmax]. rewrite Forall_forall in Hids. destruct (Hids _ Hin). done.
Qed.

Lemma release_tree_same (parsed : xl_xact_parsed) x s :
  wp (release_lock_tree parsed x) (goes_on (fun _ s' => same_view s s')) s.
Proof. unfold wp, release_lock_tree, pwhen. by destruct (has_ae_locks parsed). Qed.

Lemma recorded_same gone xid s s1 s2 : same_view s s1 -> recorded gone xid s1 s2 -> recorded gone xid s s2.
Proof.
  intros Hs [R1 R2 R3 R4 R5 R6 R7]. rewrite (sm_obs _ _ Hs), ?(sm_state _ _ Hs), ?(sm_pending _ _ Hs), ?(sm_over _ _ Hs), ?(sm_latest _ _ Hs) in *.
  split; try done; intros y Hy; destruct (sm_logs _ _ Hs y Hy) as (E1 & E2 & E3); [by rewrite <- E1, <- E2; apply R3|].
  intros Hle. rewrite <- E3. by apply R4.
Qed.

Lemma recorded_alive gone xid s s' y : recorded gone xid s s' -> in_use y -> alive gone s' y <-> alive gone s y.
Proof. intros Hr Hy. unfold alive, ended. by destruct (rc_fate _ _ _ _ Hr y Hy) as [-> ->]. Qed.

(** The last steps of the replay of a commit or an abort. *)
Lemma end_tree_spec env gone parsed x s l' : let ids := x :: subxacts parsed in
  tracking gone s -> Forall in_use ids -> (forall y, y ∈ ids -> rank y <= rank (obs s)) -> logs_ok l' ->
  (forall y, in_use y -> parent_of l' y = parent s y) ->
  (forall y, in_use y -> ended (set_logs s l') y <-> ended s y \/ y ∈ ids) ->
  (forall y, in_use y -> committed l' y = true -> ended (set_logs s l') (top y)) ->
  (forall y, in_use y -> rank y <= rank (obs s) -> alive gone s y -> top y ∈ ids -> y ∈ ids) ->
  wp (pmod (ExpireTreeKnownAssignedTransactionIds env x (subxacts parsed) (TransactionIdLatest x (subxacts parsed))) ;;;
      release_lock_tree parsed x)%prog
    (goes_on (fun _ s' => finished gone ids s s' /\
       forall y, in_use y -> committed (sb_logs s') y = committed l' y /\ aborted (sb_logs s') y = aborted l' y /\
         parent s' y = parent_of l' y)) (set_logs s l').
Proof.
  intros ids Ht Hu Hle Hok Hpar He Hcom Htree. apply wp_bind. unfold wp at 1, pmod. cbv beta iota.
  destruct (expire_tree_spec env gone x (subxacts parsed) s l') as [HT HE HL HO HS]; try done.
  eapply wp_mono; [|apply release_tree_same]. intros [e|[]] s'; simpl; [done|]. intros Hs'. split; [split|].
  - by eapply same_tracking.
  - intros y Hy. rewrite (same_ended _ _ _ Hs' Hy). by apply HE.
  - intros y Hy. rewrite (sm_latest _ _ Hs'). by apply HL.
  - by rewrite (sm_obs _ _ Hs'), HO.
  - by rewrite (sm_state _ _ Hs'), HS.
  - intros y Hy. by destruct (sm_logs _ _ Hs' y Hy) as (-> & -> & ->).
Qed.

(** Where the log marks [ids] and nothing else, they have ended. *)
Lemma marked_ended s l' (ids : list Z) y :
  committed l' y = committed (sb_logs s) y || bool_decide (y ∈ ids) /\ aborted l' y = aborted (sb_logs s) y \/
  aborted l' y = aborted (sb_logs s) y || bool_decide (y ∈ ids) /\ committed l' y = committed (sb_logs s) y ->
  ended (set_logs s l') y <-> ended s y \/ y ∈ ids.
Proof.
  unfold ended. simpl. intros [[-> ->]|[-> ->]]; rewrite orb_true_iff, bool_decide_eq_true; tauto.
Qed.

Lemma redo_commit_spec env gone parsed x lsn origin s : let ids := x :: subxacts parsed in
  tracking gone s -> standbyState s <> STANDBY_DISABLED -> commit_ok gone s x (subxacts parsed) ->
  wp (xact_redo_commit env parsed x lsn origin) (goes_on (fun _ s' => commit_done gone x (subxacts parsed) s s')) s.
Proof.
  intros ids Ht Hst [Hids Halive Htree Hwhole Hnew]. destruct (latest_in_use _ _ Hids) as (Hu & Hmu & Hmr & Hmax). fold ids in Hu, Hmax.
  unfold xact_redo_commit. cbv zeta. apply wp_bind. unfold advance_past_latest, wp at 1, pmod at 1. simpl.
  eapply wp_go_bind; [apply wp_on_logs; intros l1 r1 E1; eapply law_commit_ts in E1; [exact E1|apply Ht|exact Hu]|].
  intros _ s1 (l1 & -> & Hl1 & Hv1).
  assert (same_view s (set_logs (advance_next (TransactionIdLatest x (subxacts parsed)) s) l1)) as Hs1
    by (eapply same_trans; [apply same_next|by apply same_logs]).
  apply wp_bind, wp_get. cbv beta iota. rewrite decide_False by done.
  eapply wp_go_bind; [eapply record_known_spec; [by eapply same_tracking|done|done|by eapply same_newcomers]|].
  intros [] s2 Hrec. apply (recorded_same _ _ _ _ _ Hs1) in Hrec. clear Hs1 Hl1 Hv1. pose proof (rc_tracking _ _ _ _ Hrec) as Ht2.
  eapply wp_go_bind; [apply wp_on_logs; intros l3 r3 E3; eapply law_commit in E3; [exact E3|apply Ht2|exact Hu|]|].
  { rewrite Forall_forall in Halive, Hu |- *. intros y Hy. destruct (rc_fate _ _ _ _ Hrec y (Hu y Hy)) as [_ ->].
    apply not_true_iff_false. intros Ha. apply (proj1 (Halive y Hy)). by right. }
  intros _ s3 (l3 & -> & Hl3 & Hv3).
  assert (forall y, in_use y -> ended (set_logs s2 l3) y <-> ended s2 y \/ y ∈ ids) as He.
  { intros y Hy. apply marked_ended. left. by destruct (Hv3 y Hy) as (? & ? & _). }
  pose proof (rc_obs _ _ _ _ Hrec) as Hobs.
  eapply wp_mono; [|apply (end_tree_spec env gone parsed x s2 l3); try done].
  - intros [e|[]] s'; simpl; [done|]. intros [[HT HE HL HO HS] Hf]. split; try done.
    + intros y Hy. destruct (Hf y Hy) as (-> & _), (Hv3 y Hy) as (-> & _ & _). by destruct (rc_fate _ _ _ _ Hrec y Hy) as [-> _].
    + intros y Hy. destruct (Hf y Hy) as (_ & -> & _), (Hv3 y Hy) as (_ & -> & _). by destruct (rc_fate _ _ _ _ Hrec y Hy) as [_ ->].
    + rewrite HO. lia.
    + rewrite HS. apply (rc_state _ _ _ _ Hrec).
    + eapply parents_kept_trans; [by eapply recorded_parents|]. intros y Hy _.
      destruct (Hf y Hy) as (_ & _ & ->). by destruct (Hv3 y Hy) as (_ & _ & ->).
  - intros y Hy. specialize (Hmax y Hy). lia.
  - intros y Hy. by apply Hv3.
  - intros y Hy. destruct (Hv3 y Hy) as (-> & _ & _). rewrite He by (by apply (top_in_use _ _ Htop)).
    intros [Hc|Hc]%orb_true_iff; [left; by apply (tr_committed _ _ Ht2)|right]. apply bool_decide_eq_true in Hc. rewrite (Htree y Hc). by left.
  - intros y Hy Hr Ha Hin. assert (top y = x) as E4 by (rewrite <- (Htop2 y Hy); by apply Htree).
    apply Hwhole; [done|lia|by apply (recorded_alive _ _ _ _ _ Hrec)|done].
Qed.

(** *** Abort records

    A whole tree, or a subtransaction with its children. *)

Record abort_ok (gone : Z -> Prop) s (x : Z) (xs : list Z) : Prop := {
  ao_ids : Forall (fun y => in_use y /\ rank y < 0x7ffffff0) (x :: xs);
  ao_open : Forall (fun y => committed (sb_logs s) y = false) (x :: xs);
  ao_whole : forall y, in_use y -> rank y <= Z.max (rank (obs s)) (rank (TransactionIdLatest x xs)) ->
    alive gone s y -> top y ∈ x :: xs -> y ∈ x :: xs;
  ao_new : newcomers gone s (TransactionIdLatest x xs);
}.

Record abort_done (gone : Z -> Prop) (x : Z) (xs : list Z) s s' : Prop := {
  ad_tracking : tracking gone s';
  ad_committed : forall y, in_use y -> committed (sb_logs s') y = committed (sb_logs s) y;
  ad_aborted : forall y, in_use y -> aborted (sb_logs s') y = aborted (sb_logs s) y || bool_decide (y ∈ x :: xs);
  ad_obs : rank (obs s') = Z.max (rank (obs s)) (rank (TransactionIdLatest x xs));
  ad_state : standbyState s' = standbyState s;
  ad_parents : parents_kept s s';
}.

Lemma redo_abort_spec env gone parsed x s : let ids := x :: subxacts parsed in
  tracking gone s -> standbyState s <> STANDBY_DISABLED -> abort_ok gone s x (subxacts parsed) ->
  wp (xact_redo_abort env parsed x) (goes_on (fun _ s' => abort_done gone x (subxacts parsed) s s')) s.
Proof.
  intros ids Ht Hst [Hids Hopen Hwhole Hnew]. destruct (latest_in_use _ _ Hids) as (Hu & Hmu & Hmr & Hmax). fold ids in Hu, Hmax.
  unfold xact_redo_abort. cbv zeta. apply wp_bind. unfold advance_past_latest, wp at 1, pmod at 1. simpl.
  pose proof (same_next (TransactionIdLatest x (subxacts parsed)) s) as Hs1.
  apply wp_bind, wp_get. cbv beta iota. rewrite decide_False by done.
  eapply wp_go_bind; [eapply record_known_spec; [by eapply same_tracking|done|done|by eapply same_newcomers]|].
  intros [] s2 Hrec. apply (recorded_same _ _ _ _ _ Hs1) in Hrec. clear Hs1. pose proof (rc_tracking _ _ _ _ Hrec) as Ht2.
  eapply wp_go_bind; [apply wp_on_logs; intros l3 r3 E3; eapply law_abort in E3; [exact E3|apply Ht2|exact Hu|]|].
  { rewrite Forall_forall in Hopen, Hu |- *. intros y Hy. destruct (rc_fate _ _ _ _ Hrec y (Hu y Hy)) as [-> _]. by apply Hopen. }
  intros _ s3 (l3 & -> & Hl3 & Hv3).
  assert (forall y, in_use y -> ended (set_logs s2 l3) y <-> ended s2 y \/ y ∈ ids) as He.
  { intros y Hy. apply marked_ended. right. by destruct (Hv3 y Hy) as (? & ? & _). }
  pose proof (rc_obs _ _ _ _ Hrec) as Hobs.
  eapply wp_mono; [|apply (end_tree_spec env gone parsed x s2 l3); try done].
  - intros [e|[]] s'; simpl; [done|]. intros [[HT HE HL HO HS] Hf]. split; try done.
    + intros y Hy. destruct (Hf y Hy) as (-> & _), (Hv3 y Hy) as (_ & -> & _). by destruct (rc_fate _ _ _ _ Hrec y Hy) as [-> _].
    + intros y Hy. destruct (Hf y Hy) as (_ & -> & _), (Hv3 y Hy) as (-> & _ & _). by destruct (rc_fate _ _ _ _ Hrec y Hy) as [_ ->].
    + rewrite HO. lia.
    + rewrite HS. apply (rc_state _ _ _ _ Hrec).
    + eapply parents_kept_trans; [by eapply recorded_parents|]. intros y Hy _.
      destruct (Hf y Hy) as (_ & _ & ->). by destruct (Hv3 y Hy) as (_ & _ & ->).
  - intros y Hy. specialize (Hmax y Hy). lia.
  - intros y Hy. by apply Hv3.
  - intros y Hy. destruct (Hv3 y Hy) as (_ & -> & _). rewrite He by (by apply (top_in_use _ _ Htop)).
    intros Hc. left. by apply (tr_committed _ _ Ht2).
  - intros y Hy Hr Ha Hin. apply Hwhole; [done|lia|by apply (recorded_alive _ _ _ _ _ Hrec)|done].
Qed.

(** *** Assignment records *)

Lemma set_parents_spec t xs : forall s, logs_ok (sb_logs s) -> in_use t -> Forall in_use xs ->
  wp (set_parents t xs) (goes_on (fun _ s' => exists l', s' = set_logs s l' /\ logs_ok l' /\
    (forall y, in_use y -> committed l' y = committed (sb_logs s) y /\ aborted l' y = aborted (sb_logs s) y /\
       parent_of l' y = if decide (y ∈ xs) then t else parent s y))) s.
Proof.
  induction xs as [|x xs IH]; intros s Hok Ht Hxs; cbn [set_parents].
  - apply wp_ret. exists (sb_logs s). split; [by destruct s|]. split; [done|]. intros y Hy. by rewrite decide_False by apply not_elem_of_nil.
  - apply Forall_cons in Hxs as [Hx Hxs].
    eapply wp_go_bind; [apply wp_on_logs; intros l1 r1 E1; eapply law_set_parent in E1; [exact E1|done..]|].
    intros _ s1 (l1 & -> & Hl1 & Hf1 & Hp1). eapply wp_mono; [|by apply IH].
    intros [e|[]] s'; unfold goes_on; [done|]. intros (l2 & -> & Hl2 & Hv2). exists l2. split; [done|]. split; [done|].
    intros y Hy. cbn [sb_logs set_logs] in Hv2. destruct (Hv2 y Hy) as (-> & -> & ->), (Hf1 y Hy) as [-> ->]. split_and!; [done..|].
    change (parent (set_logs s l1) y) with (parent_of l1 y). rewrite Hp1 by done. destruct (decide (y ∈ xs)); [by rewrite decide_True by (by right)|].
    destruct (decide (y = x)) as [->|Hne]; [by rewrite decide_True by (by left)|].
    rewrite decide_False; [done|]. by rewrite not_elem_of_cons.
Qed.

Record assign_ok (gone : Z -> Prop) s (t : Z) (xs : list Z) : Prop := {
  as_ids : Forall (fun y => in_use y /\ rank y < 0x7ffffff0) (t :: xs);
  as_tree : forall y, y ∈ xs -> top y = t /\ y <> t;
  as_new : newcomers gone s (TransactionIdLatest t xs);
}.

Record kept (gone : Z -> Prop) (t : Z) (xs : list Z) s s' : Prop := {
  kp_tracking : tracking gone s';
  kp_fate : forall y, in_use y ->
    committed (sb_logs s') y = committed (sb_logs s) y /\ aborted (sb_logs s') y = aborted (sb_logs s) y;
  kp_obs : rank (obs s') = Z.max (rank (obs s)) (rank (TransactionIdLatest t xs));
  kp_state : standbyState s' = standbyState s;
  kp_parents : parents_kept s s';
}.

(** Children that are linked to their top may leave the array once
    [lastOverflowedXid] covers them. *)
Lemma linked_tracking gone t xs s s' : tracking gone s ->
  (forall y, y ∈ xs -> in_use y /\ rank y <= rank (obs s) /\ top y = t /\ y <> t) -> in_use t ->
  logs_ok (sb_logs s') ->
  (forall y, in_use y -> committed (sb_logs s') y = committed (sb_logs s) y /\ aborted (sb_logs s') y = aborted (sb_logs s) y /\
     parent s' y = if decide (y ∈ xs) then t else parent s y) ->
  shrinks lo (array s) (array s') ->
  (machinery_up (standbyState s) = true -> forall y, in_use y -> y ∈ known s' <-> y ∈ known s /\ y ∉ xs) ->
  obs s' = obs s -> standbyState s' = standbyState s -> standbySnapshotPendingXmin s' = standbySnapshotPendingXmin s ->
  latest (sb_pa s') = latest (sb_pa s) -> (TransactionIdIsValid (overflowed s') = true -> in_use (overflowed s')) ->
  (machinery_up (standbyState s) = true -> xs <> [] -> in_use (overflowed s') /\ forall y, y ∈ xs -> rank y <= rank (overflowed s')) ->
  (in_use (overflowed s) -> in_use (overflowed s') /\ rank (overflowed s) <= rank (overflowed s')) ->
  tracking gone s'.
Proof.
  intros Ht Hxs Htu Hok Hv Hsh Hk Eo Es Ep El Hov1 Hov2 Hov3.
  assert (forall y, in_use y -> ended s' y <-> ended s y) as He.
  { intros y Hy. unfold ended. by destruct (Hv y Hy) as (-> & -> & _). }
  assert (forall y, in_use y -> alive gone s' y <-> alive gone s y) as Hal by (intros y Hy; unfold alive; by rewrite He).
  assert (t <> 0) as Ht0 by (apply in_use_valid, negb_true_iff, Z.eqb_neq in Htu; done).
  split; rewrite ?Eo, ?Es, ?El; try done; try apply Ht.
  - apply (sh_ok _ _ _ Hsh).
  - intros x Hx. by apply (tr_below _ _ Ht), (sh_window _ _ _ Hsh).
  - intros Hup. pose proof (tr_idle _ _ Ht Hup) as Hw. destruct (window (array s')) as [|[x b] w] eqn:Ew; [done|].
    assert (x ∈ (window (array s)).*1) as Hin by (apply (sh_window _ _ _ Hsh); rewrite Ew; by left).
    rewrite Hw in Hin. by apply elem_of_nil in Hin.
  - intros x Hx Hr. rewrite He by done. destruct (Hv x Hx) as (_ & _ & ->). destruct (tr_future _ _ Ht x Hx Hr) as (H1 & H3).
    split; [done|]. rewrite decide_False; [done|]. intros Hin. apply Hxs in Hin. lia.
  - intros x Hx. destruct (Hv x Hx) as (_ & _ & ->). destruct (decide (x ∈ xs)) as [Hin|]; [|by apply (tr_parent _ _ Ht)].
    intros _. destruct (Hxs x Hin) as (_ & _ & -> & ?). done.
  - intros x Hx Hr. rewrite !Hal by (done || by apply (top_in_use _ _ Htop)). by apply (tr_tree _ _ Ht).
  - intros x Hx. destruct (Hv x Hx) as (-> & _). rewrite He by (by apply (top_in_use _ _ Htop)). by apply (tr_committed _ _ Ht).
  - intros x Hin. assert (in_use x) as Hx by (eapply ascending_use; [apply known_ascending, (sh_ok _ _ _ Hsh)|done]).
    rewrite He by done. destruct (machinery_up (standbyState s)) eqn:Hup; [apply (tr_known _ _ Ht); by apply Hk in Hin as [? _]|].
    apply valids_fst, (sh_window _ _ _ Hsh) in Hin. rewrite (tr_idle _ _ Ht Hup) in Hin. by apply elem_of_nil in Hin.
  - intros Hup x Hx Hr Ha. rewrite Hal in Ha by done. unfold reachable, pending. rewrite Es, Ep.
    destruct (Hv x Hx) as (_ & _ & ->). destruct (decide (x ∈ xs)) as [Hin|Hin].
    + right. destruct (Hxs x Hin) as (_ & _ & E1 & E2). split; [congruence|]. left. split; [done|].
      destruct (Hov2 Hup) as [? Hle]; [by intros ->; apply elem_of_nil in Hin|]. split; [done|by apply Hle].
    + destruct (tr_complete _ _ Ht Hup x Hx Hr Ha) as [Hkn|[Hne [(H1 & H2 & H3)|Hp]]]; [left; by apply Hk|right..].
      * split; [done|]. left. destruct (Hov3 H2). split_and!; [done..|lia].
      * split; [done|]. by right.
  - rewrite Ep. apply Ht.
Qed.

Lemma assignment_spec env gone t xs s : tracking gone s -> assign_ok gone s t xs ->
  wp (ProcArrayApplyXidAssignment env t xs) (goes_on (fun _ s' => kept gone t xs s s')) s.
Proof.
  intros Ht [Hids Htree Hnew]. destruct (latest_in_use _ _ Hids) as (Hu & Hmu & Hmr & Hmax).
  unfold ProcArrayApplyXidAssignment. cbv zeta. set (m := TransactionIdLatest t xs) in *.
  eapply wp_go_bind; [by eapply record_known_spec|]. intros [] s1 Hrec. cbv beta in Hrec. pose proof (rc_tracking _ _ _ _ Hrec) as Ht1.
  pose proof (rc_obs _ _ _ _ Hrec) as Hobs. pose proof Hu as Hu2. apply Forall_cons in Hu2 as [Htu Hxu].
  eapply wp_go_bind; [apply set_parents_spec; [apply Ht1|done..]|]. intros [] s2 (l2 & -> & Hl2 & Hv2).
  assert (forall y, y ∈ xs -> in_use y /\ rank y <= rank (obs s1) /\ top y = t /\ y <> t) as Hxs.
  { intros y Hy. rewrite Forall_forall in Hxu. specialize (Hmax y ltac:(by right)). destruct (Htree y Hy).
    split_and!; [by apply Hxu|lia|done..]. }
  assert (forall y, in_use y -> committed l2 y = committed (sb_logs s) y /\ aborted l2 y = aborted (sb_logs s) y) as Hf2.
  { intros y Hy. destruct (Hv2 y Hy) as (-> & -> & _). by apply (rc_fate _ _ _ _ Hrec). }
  assert (forall y, in_use y -> parent s y <> 0 -> parent_of l2 y = parent s y) as Hpk.
  { intros y Hy Hp. pose proof (recorded_parents _ _ _ _ Ht Hrec y Hy Hp) as E0. destruct (Hv2 y Hy) as (_ & _ & ->).
    case_decide as Hin; [|done]. destruct (Hxs y Hin) as (_ & _ & E1 & _). rewrite <- E0, <- E1.
    destruct (tr_parent _ _ Ht1 y Hy) as [-> _]; [by rewrite E0|done]. }
  destruct (rc_state _ _ _ _ Hrec) as [Est _].
  apply wp_bind, wp_get. cbv beta iota. simpl standbyState. destruct (decide (standbyState s1 = STANDBY_INITIALIZED)) as [Ei|Ei].
  - apply wp_ret. unfold goes_on. split; [|exact Hf2|exact Hobs|exact Est|exact Hpk].
    apply (linked_tracking gone t xs s1); try done; simpl; try apply Ht1; [by apply shrinks_refl, Ht1|..]; rewrite ?Ei; try done.
  - destruct (remove_tree_spec lo (now env) InvalidTransactionId xs (array s1) (sb_kax s1) (tr_array _ _ Ht1)) as [Hsh Hk]; [done..|].
    unfold wp, pbind, pmod, mod_known. change (known_of (set_logs s1 l2)) with (array s1, sb_kax s1).
    destruct (KnownAssignedXidsRemoveTree _ _ _ _) as [ka c]. simpl in Hsh, Hk. simpl lastOverflowedXid. fold (overflowed s1).
    assert (forall y, in_use y -> y <> InvalidTransactionId) as Hne.
    { intros y Hy. apply in_use_valid, negb_true_iff, Z.eqb_neq in Hy. done. }
    set (s' := if TransactionIdPrecedes (overflowed s1) m then _ else _).
    assert (sb_logs s' = l2 /\ array s' = ka /\ obs s' = obs s1 /\ standbyState s' = standbyState s1 /\
      standbySnapshotPendingXmin s' = standbySnapshotPendingXmin s1 /\ latest (sb_pa s') = latest (sb_pa s1) /\
      overflowed s' = if TransactionIdPrecedes (overflowed s1) m then m else overflowed s1) as (E1 & E2 & E3 & E4 & E5 & E6 & E7)
      by (unfold s'; by destruct (TransactionIdPrecedes (overflowed s1) m)).
    assert (in_use (overflowed s') /\ rank m <= rank (overflowed s') /\ (in_use (overflowed s1) -> rank (overflowed s1) <= rank (overflowed s'))) as (Hov1 & Hov2 & Hov3).
    { rewrite E7. destruct (TransactionIdIsValid (overflowed s1)) eqn:Hval.
      - pose proof (tr_overflowed _ _ Ht1 Hval) as Huo. rewrite (precedes_rank lo) by done.
        destruct (Z.ltb_spec (rank (overflowed s1)) (rank m)); split_and!; (done || lia).
      - apply negb_false_iff, Z.eqb_eq in Hval. rewrite Hval. destruct Hmu as (? & Hn & ?). unfold TransactionIdPrecedes. simpl.
        destruct (Z.ltb_spec InvalidTransactionId m) as [|Hge]; [split_and!; try done; intros (_ & [=] & _)|].
        unfold TransactionIdIsNormal, FirstNormalTransactionId, InvalidTransactionId in *. lia. }
    simpl. split; [|intros y Hy; rewrite E1; by apply Hf2|rewrite E3; exact Hobs|congruence|intros y Hy Hp; unfold parent at 1; rewrite E1; by apply Hpk].
    apply (linked_tracking gone t xs s1); try done.
    + by rewrite E1.
    + intros y Hy. unfold parent. rewrite E1. by apply Hv2.
    + by rewrite E2.
    + intros _ y Hy. unfold known. fold (array s'). rewrite E2, Hk by done. pose proof (Hne y Hy). tauto.
    + intros _ _. split; [done|]. intros y Hy. specialize (Hmax y ltac:(by right)). lia.
    + auto.
Qed.
End tracking.
