(* ===== verification/StandbyRunning.v ===== *)
(** * Running-transactions records

    How [ProcArrayApplyRecoveryInfo] builds the standby's picture of the
    primary from a running-transactions record, and how later records prune
    it. *)

From S2P Require Import Prelude.
From S2P Require Import TransactionId.
From S2P Require Import Varsup.
From S2P Require Import KnownAssigned.
From S2P Require Import KnownAssignedTheorems.
From S2P Require Import StandbyLocks.
From S2P Require Import ProcArray.
From S2P Require Import Running.
From S2P Require Import Standby.
From S2P Require Import StandbyTracking.

Section running.
Context {L E LM : Type} `{Logs : RecoveryLogs L E} `{Locks : LockManager LM}.
Context (lo : Z) `{!RecoveryLogsLaws lo L E}.
Context (top : Z -> Z) (Htop : topmost_ok lo top).

Abbreviation rank := (xid_rank lo).
Abbreviation in_use := (in_use lo).
Abbreviation State := (Standby L LM).
Abbreviation tracking := (tracking lo top).
Abbreviation goes_on := (goes_on lo).
Implicit Types (s : State).

(** ** Pruning *)

(** What a record with [oldest] reveals: unfinished ids before it will never
    finish. *)
Definition revealed (gone : Z -> Prop) (oldest : Z) s (x : Z) : Prop :=
  gone x \/ (rank x < rank oldest /\ ~ ended lo s x).

(** No running tree has a top before [oldest]. *)
Definition oldest_ok (gone : Z -> Prop) s (oldest : Z) : Prop :=
  in_use oldest /\ forall x, in_use x -> rank x <= rank (obs s) -> alive lo gone s x -> rank oldest <= rank x ->
    rank oldest <= rank (top x).

Lemma alive_revealed gone oldest s x : alive lo (revealed gone oldest s) s x <-> alive lo gone s x /\ rank oldest <= rank x.
Proof. unfold alive, revealed. destruct (decide (rank x < rank oldest)); intuition lia. Qed.

Lemma expire_old_spec env gone oldest s : tracking gone s -> oldest_ok gone s oldest ->
  let s' := ExpireOldKnownAssignedTransactionIds env oldest s in
  tracking (revealed gone oldest s) s' /\ sb_logs s' = sb_logs s /\ obs s' = obs s /\ standbyState s' = standbyState s /\
  standbySnapshotPendingXmin s' = standbySnapshotPendingXmin s /\ latest (sb_pa s') = latest (sb_pa s).
Proof.
  intros Ht [Hou Htree]. unfold ExpireOldKnownAssignedTransactionIds. fold (overflowed s).
  set (s1 := if TransactionIdPrecedes (overflowed s) oldest then _ else _).
  assert (sb_logs s1 = sb_logs s /\ array s1 = array s /\ obs s1 = obs s /\ standbyState s1 = standbyState s /\ sb_kax s1 = sb_kax s /\
    standbySnapshotPendingXmin s1 = standbySnapshotPendingXmin s /\ latest (sb_pa s1) = latest (sb_pa s) /\
    overflowed s1 = if TransactionIdPrecedes (overflowed s) oldest then InvalidTransactionId else overflowed s)
    as (E1 & E2 & E3 & E4 & E5 & E6 & E7 & E8) by (unfold s1; by destruct (TransactionIdPrecedes (overflowed s) oldest)).
  destruct (prune_spec lo (now env) (prepared env) oldest (array s) (sb_kax s) (tr_array _ _ _ _ Ht) Hou) as [Hsh Hk].
  unfold mod_known, known_of. fold (array s1). rewrite E2, E5.
  destruct (KnownAssignedXidsRemovePreceding _ _ _ _) as [ka c]. simpl in Hsh, Hk.
  set (s' := set_known s1 (ka, c)).
  assert (sb_logs s' = sb_logs s /\ array s' = ka /\ obs s' = obs s /\ standbyState s' = standbyState s /\
    standbySnapshotPendingXmin s' = standbySnapshotPendingXmin s /\ latest (sb_pa s') = latest (sb_pa s) /\
    overflowed s' = overflowed s1) as (F1 & F2 & F3 & F4 & F5 & F6 & F7) by (by rewrite <- E1, <- E3, <- E4, <- E6, <- E7).
  clearbody s' s1. clear E1 E2 E3 E4 E5 E6 E7. cbv zeta. split; [|by split_and!].
  assert (forall x, ended lo s' x <-> ended lo s x) as He by (intros x; unfold ended; by rewrite F1).
  assert (forall x, alive lo (revealed gone oldest s) s' x <-> alive lo gone s x /\ rank oldest <= rank x) as Hal.
  { intros x. rewrite <- alive_revealed. unfold alive. by rewrite He. }
  assert (forall x, parent lo s' x = parent lo s x) as Hpar by (intros x; unfold parent; by rewrite F1).
  split; rewrite ?F1, ?F2, ?F3, ?F4, ?F6; try apply Ht.
  - apply (sh_ok _ _ _ Hsh).
  - intros x Hx. by apply (tr_below _ _ _ _ Ht), (sh_window _ _ _ Hsh).
  - intros Hup. pose proof (tr_idle _ _ _ _ Ht Hup) as Hw. destruct (window ka) as [|[x b] w] eqn:Ew; [done|].
    assert (x ∈ (window (array s)).*1) as Hin by (apply (sh_window _ _ _ Hsh); rewrite Ew; by left).
    rewrite Hw in Hin. by apply elem_of_nil in Hin.
  - intros x Hx Hr. rewrite He, Hpar. by apply (tr_future _ _ _ _ Ht).
  - intros x Hx. rewrite Hpar. by apply (tr_parent _ _ _ _ Ht).
  - intros x Hx Hr. rewrite !Hal. intros [Ha Hge]. split; [by apply (tr_tree _ _ _ _ Ht)|by apply Htree].
  - intros x Hx. rewrite He. by apply (tr_committed _ _ _ _ Ht).
  - intros x Hin. unfold known in Hin. fold (array s') in Hin. rewrite F2 in Hin. rewrite He. apply Hk in Hin as [Hin _].
    by apply (tr_known _ _ _ _ Ht).
  - intros Hup x Hx Hr Ha. apply Hal in Ha as [Ha Hge]. unfold reachable, pending. rewrite F4, F5, F7, E8, Hpar.
    destruct (tr_complete _ _ _ _ Ht Hup x Hx Hr Ha) as [Hkn|[Hne [(H1 & H2 & H3)|Hp]]].
    + left. unfold known. fold (array s'). rewrite F2. apply Hk. auto.
    + right. split; [done|]. left. rewrite (precedes_rank lo) by done.
      rewrite (proj2 (Z.ltb_ge (rank (overflowed s)) (rank oldest))) by lia. done.
    + right. split; [done|]. by right.
  - rewrite F7, E8. destruct (TransactionIdPrecedes (overflowed s) oldest); [done|apply Ht].
  - rewrite F5. apply Ht.
Qed.

(** ** The first picture *)

(** The logs are only read. *)
Definition same_logs_view (l l' : L) : Prop :=
  logs_ok (lo := lo) l' /\
  forall y, in_use y -> committed (lo := lo) l' y = committed (lo := lo) l y /\ aborted (lo := lo) l' y = aborted (lo := lo) l y /\
    parent_of (lo := lo) l' y = parent_of (lo := lo) l y.

Lemma same_logs_trans l1 l2 l3 : same_logs_view l1 l2 -> same_logs_view l2 l3 -> same_logs_view l1 l3.
Proof.
  intros [_ H1] [Hok H2]. split; [done|]. intros y Hy. destruct (H1 y Hy) as (<- & <- & <-). by apply H2.
Qed.

Lemma still_running_spec xs : forall s, logs_ok (lo := lo) (sb_logs s) -> Forall in_use xs ->
  wp (still_running xs) (goes_on (fun l s' => exists l', s' = set_logs s l' /\ same_logs_view (sb_logs s) l' /\
    forall x, x ∈ l <-> x ∈ xs /\ ~ ended lo s x)) s.
Proof.
  induction xs as [|x xs IH]; intros s Hok Hxs; cbn [still_running].
  - apply wp_ret. exists (sb_logs s). split; [by destruct s|]. split; [by split|]. intros x. rewrite elem_of_nil. tauto.
  - apply Forall_cons in Hxs as [Hx Hxs].
    eapply wp_go_bind; [apply wp_on_logs; intros l1 r1 E1; eapply law_did_commit in E1; [exact E1|done..]|].
    intros c s1 (l1 & -> & Hl1 & -> & Hv1).
    assert (forall s0 l0 (P : list Z -> Prop), same_logs_view (sb_logs s) l0 -> s0 = set_logs s l0 ->
      (forall l, (forall y, y ∈ l <-> y ∈ xs /\ ~ ended lo s y) -> P l) ->
      wp (still_running xs) (goes_on (fun l s' => exists l', s' = set_logs s l' /\ same_logs_view (sb_logs s) l' /\ P l)) s0) as Hrec.
    { intros s0 l0 P Hs0 -> HP. eapply wp_mono; [|apply IH; [apply Hs0|done]]. intros [e|l] s'; unfold StandbyTracking.goes_on; [done|].
      intros (l' & -> & Hs' & Hl). exists l'. split; [done|]. split; [by eapply same_logs_trans|]. apply HP. intros y.
      rewrite Hl. split; intros [Hy Hn]; (split; [done|]); intros He; apply Hn; rewrite Forall_forall in Hxs; specialize (Hxs y Hy);
        unfold ended in *; simpl in *; destruct (proj2 Hs0 y Hxs) as (E1 & E2 & _); [by rewrite E1, E2|by rewrite <- E1, <- E2]. }
    destruct (committed (sb_logs s) x) eqn:Ec.
    { eapply Hrec; [by split|done|]. intros l Hl y. rewrite Hl, elem_of_cons. split; [tauto|]. intros [[->|?] Hn]; [|tauto].
      destruct Hn. by left. }
    eapply wp_go_bind; [apply wp_on_logs; intros l2 r2 E2; eapply law_did_abort in E2; [exact E2|done..]|].
    intros a s2 (l2 & -> & Hl2 & -> & Hv2). assert (same_logs_view (sb_logs s) l2) as Hs2 by (apply (same_logs_trans _ l1); by split).
    simpl. destruct (Hv1 x Hx) as (_ & -> & _). destruct (aborted (sb_logs s) x) eqn:Ea.
    { eapply Hrec; [done..|]. intros l Hl y. rewrite Hl, elem_of_cons. split; [tauto|]. intros [[->|?] Hn]; [|tauto].
      destruct Hn. by right. }
    eapply wp_go_bind; [eapply (Hrec _ l2 (fun l => forall y, y ∈ l <-> y ∈ xs /\ ~ ended lo s y)); [done..|tauto]|].
    intros l s3 (l3 & -> & Hs3 & Hl). apply wp_ret. exists l3. split; [done|]. split; [done|].
    intros y. rewrite !elem_of_cons, Hl. split; [|tauto]. intros [->|?]; [|tauto]. split; [by left|].
    unfold ended. rewrite Ec, Ea. by intros [|].
Qed.

Lemma comparator_le_rank a b : in_use a -> in_use b -> comparator_le a b <-> rank a <= rank b.
Proof.
  intros Ha Hb. unfold comparator_le, xidLogicalComparator. rewrite !(precedes_rank lo) by done.
  destruct (Z.ltb_spec (rank a) (rank b)), (Z.ltb_spec (rank b) (rank a)); lia.
Qed.

#[local] Instance comparator_total : Total comparator_le.
Proof.
  intros a b. unfold comparator_le, xidLogicalComparator.
  destruct (TransactionIdPrecedes a b), (TransactionIdPrecedes b a); lia.
Qed.

Lemma qsort_spec xs : Forall in_use xs ->
  StronglySorted (fun x y => rank x <= rank y) (qsort_xids xs) /\ (forall x, x ∈ qsort_xids xs <-> x ∈ xs).
Proof.
  intros Hu. pose proof (merge_sort_Permutation comparator_le xs) as Hp. fold (qsort_xids xs) in Hp.
  split; [|intros x; by rewrite Hp]. assert (Forall in_use (qsort_xids xs)) as Hu2 by (by rewrite Hp).
  assert (Sorted comparator_le (qsort_xids xs)) as Hs by apply Sorted_merge_sort, _.
  apply Sorted_StronglySorted; [intros x y z; lia|].
  revert Hs Hu2. generalize (qsort_xids xs). induction l as [|x l IH]; intros Hs Hl; [constructor|].
  apply Sorted_inv in Hs as [Hs Hh]. apply Forall_cons in Hl as [Hx Hl]. constructor; [auto|].
  destruct Hh as [|y l Hxy]; constructor. apply Forall_cons in Hl as [Hy _]. by apply comparator_le_rank.
Qed.

Lemma singleton_range x new : in_use x -> xid_range lo x x new -> forall y, y ∈ new <-> y = x.
Proof.
  intros Hx [_ Hn] y. rewrite Hn. split; [|intros ->; split; [done|lia]].
  intros [Hy Hr]. apply (rank_inj lo); [apply Hy|apply Hx|lia].
Qed.

(** Entering sorted ids one by one. *)
Lemma add_sorted_spec env xs : forall previous s, ka_ok lo (array s) -> Forall (fun x => in_use x /\ rank x < 0x7ffffff0) xs ->
  StronglySorted (fun x y => rank x <= rank y) xs ->
  (forall p, previous = Some p -> p ∈ known s /\ forall y, y ∈ xs -> rank p <= rank y) ->
  (forall x y, x ∈ (window (array s)).*1 -> y ∈ xs -> rank x < rank y \/ previous = Some x /\ rank x <= rank y) ->
  wp (add_sorted env previous xs) (goes_on (fun _ s' => exists k, s' = set_known s k /\ ka_ok lo k.1 /\
    (forall x, x ∈ (window k.1).*1 -> x ∈ (window (array s)).*1 \/ x ∈ xs) /\
    (forall x, x ∈ KnownAssignedXids k.1 <-> x ∈ known s \/ x ∈ xs))) s.
Proof.
  induction xs as [|x xs IH]; intros previous s Hok Hu Hs Hprev Hwin; cbn [add_sorted].
  - apply wp_ret. exists (known_of s). split_and!; [by destruct s as [[]]|done|by left|]. intros y. rewrite elem_of_nil. tauto.
  - apply Forall_cons in Hu as [[Hx Hr] Hu]. apply StronglySorted_inv in Hs as [Hs Hmin]. rewrite Forall_forall in Hmin.
    destruct (decide (previous = Some x)) as [->|Hne].
    { destruct (Hprev x eq_refl) as [Hxk _].
      eapply wp_mono; [|apply (IH (Some x) s Hok Hu Hs)].
      - intros [e|[]] s'; unfold StandbyTracking.goes_on; [done|]. intros (k & -> & Hk & Hw & Hm). exists k. split_and!; [done..| |].
        + intros y [?|?]%Hw; [by left|right; by right].
        + intros y. rewrite Hm, elem_of_cons. split; [tauto|]. intros [?|[->|?]]; tauto.
      - intros p [= <-]. split; [done|]. auto.
      - intros y z Hy Hz. destruct (Hwin y z Hy ltac:(by right)) as [?|[[= ->] ?]]; [by left|right; done]. }
    assert (beyond lo (array s) x) as Hb.
    { intros y Hy. destruct (Hwin y x Hy ltac:(by left)) as [?|[-> Hle]]; [done|].
      destruct (Hprev y eq_refl) as [Hyk _]. assert (in_use y) as Hyu by (eapply ascending_use; [by apply known_ascending|done]).
      destruct (decide (rank y = rank x)) as [Er|]; [|lia]. destruct Hne. f_equal. apply (rank_inj lo); [apply Hyu|apply Hx|done]. }
    destruct (add_spec lo (now env) x x (array s) (sb_kax s) Hok Hx Hx ltac:(lia) Hr) as (new & Hrange & Hadd).
    pose proof (singleton_range x new Hx Hrange) as Hn.
    apply wp_bind. unfold wp at 1, on_known. change (known_of s) with (array s, sb_kax s).
    destruct (KnownAssignedXidsAdd _ _ _ _) as [[ka c] r]. simpl in Hadd. destruct Hadd as [Hok1 _ Hwin1 Hres].
    destruct r as [[]|[]]; simpl.
    + by destruct Hres.
    + done.
    + destruct Hres as (_ & Hk1 & _). simpl in Hok1, Hwin1, Hk1.
      assert (forall y, y ∈ KnownAssignedXids ka <-> y ∈ known s \/ y = x) as Hk2.
      { intros y. by rewrite Hk1, elem_of_app, Hn. }
      eapply wp_mono; [|apply (IH (Some x) (set_known s (ka, c)) Hok1 Hu Hs)].
      * intros [e|[]] s'; unfold StandbyTracking.goes_on; [done|]. intros (k & -> & Hk & Hw & Hm). exists k. split_and!; [done..| |].
        -- intros y [Hy|?]%Hw; [|right; by right]. apply Hwin1 in Hy as [?|Hy]; [by left|right]. apply Hn in Hy as ->. by left.
        -- intros y. rewrite Hm. unfold known. simpl. rewrite Hk2, elem_of_cons. unfold known. tauto.
      * intros p [= <-]. split; [unfold known; simpl; apply Hk2; by right|]. auto.
      * intros y z Hy Hz. apply Hwin1 in Hy as [Hy|Hy].
        -- specialize (Hb y Hy). specialize (Hmin z Hz). left. lia.
        -- apply Hn in Hy as ->. right. split; [done|]. by apply Hmin.
Qed.

(** The rest of the ids up to [next] is observed. *)
Lemma observe_to_spec next fuel : forall o s, logs_ok (lo := lo) (sb_logs s) -> in_use o -> in_use (obs s) -> in_use next ->
  (forall y, in_use y -> rank y < rank (obs s) <-> rank y <= rank o) -> rank (obs s) <= rank next <= 0x7ffffff0 ->
  rank next - rank (obs s) <= Z.of_nat fuel ->
  wp (observe_to fuel next) (goes_on (fun _ s' => exists l', s' = set_observed (set_logs s l') next /\
    logs_grow lo o (sb_logs s) l')) s.
Proof.
  induction fuel as [|fuel IH]; intros o s Hok Ho Hu Hn Ho1 Hle Hf; cbn [observe_to].
  - apply wp_ret. exists (sb_logs s). split; [|by apply logs_grow_refl].
    assert (obs s = next) as <- by (apply (rank_inj lo); [apply Hu|apply Hn|lia]). by destruct s.
  - apply wp_bind, wp_get. cbv beta iota. fold (obs s). rewrite (precedes_rank lo) by done.
    destruct (Z.ltb_spec (rank (obs s)) (rank next)) as [Hlt|Hge].
    2:{ apply wp_ret. exists (sb_logs s). split; [|by apply logs_grow_refl].
        assert (obs s = next) as <- by (apply (rank_inj lo); [apply Hu|apply Hn|lia]). by destruct s. }
    eapply wp_go_bind; [apply wp_on_logs; intros l' r; by apply law_extend|].
    intros _ s1 (l1 & -> & H1). apply wp_bind. unfold wp at 1, pmod. cbn [snd fst].
    pose proof (fun y Hy => proj2 (advance_rank lo (obs s) y Hu ltac:(lia) Hy)) as Hadv.
    destruct (advance_rank lo (obs s) next Hu ltac:(lia) Hn) as [Ha Hna]. specialize (Hadv (obs s) Hu) as Hself.
    eapply wp_mono; [|eapply (IH (obs s)); [apply H1|exact Hu|exact Ha|exact Hn|exact Hadv|..]].
    + intros [e|[]] s'; unfold StandbyTracking.goes_on; [done|]. intros (l2 & -> & H2). exists l2. split; [done|].
      eapply logs_grow_extend; [exact Ho|exact Hu|exact Ho1|exact H1|exact H2].
    + unfold obs at 1. simpl. fold (obs s). lia.
    + unfold obs at 1. simpl. fold (obs s). lia.
Qed.

Lemma rank_distance x y : in_use x -> in_use y -> rank x <= rank y -> u32 (y - x) = rank y - rank x.
Proof. unfold in_use, xid_rank. intros (Hx & _ & _) (Hy & _ & _). cint. Qed.

Lemma logs_grow_same o l1 l2 l3 : same_logs_view l1 l2 -> logs_grow lo o l2 l3 -> logs_grow lo o l1 l3.
Proof.
  intros [_ Hs] [G1 G2 G3 G4]. split; [done|..]; intros y Hy; destruct (Hs y Hy) as (E1 & E2 & E3); rewrite <- ?E1, <- ?E2, <- ?E3; auto.
Qed.

(** What a running-transactions record says is true of the primary. *)
Record run_ok (gone : Z -> Prop) s (running : RunningTransactionsData) (xids : list Z) : Prop := {
  ru_xids : xids = take (Z.to_nat (xcnt running + subxcnt running)) (run_xids running);
  ru_next : in_use (run_nextXid running) /\ rank (obs s) < rank (run_nextXid running) <= 0x7ffffff0;
  ru_ids : Forall (fun x => in_use x /\ rank x < rank (run_nextXid running)) xids;
  ru_completed : in_use (run_latestCompletedXid running) /\ rank (run_latestCompletedXid running) < rank (run_nextXid running);
  ru_tree : forall x, in_use x -> rank x < rank (run_nextXid running) -> alive lo gone s x -> alive lo gone s (top x);
  ru_complete : forall x, in_use x -> rank x < rank (run_nextXid running) -> alive lo gone s x ->
    x ∈ xids \/ top x <> x /\
      match subxid_status running with
      | SUBXIDS_IN_ARRAY => False
      | SUBXIDS_MISSING => True
      | SUBXIDS_IN_SUBTRANS => parent lo s x = top x
      end;
}.

Definition state_after (status : subxids_array_status) : HotStandbyState :=
  if decide (status = SUBXIDS_MISSING) then STANDBY_SNAPSHOT_PENDING else STANDBY_SNAPSHOT_READY.

(** What building the picture leaves as it was. *)
Record pictured (gone : Z -> Prop) (running : RunningTransactionsData) s s' : Prop := {
  pi_tracking : tracking gone s';
  pi_fate : forall y, in_use y ->
    committed (lo := lo) (sb_logs s') y = committed (lo := lo) (sb_logs s) y /\
    aborted (lo := lo) (sb_logs s') y = aborted (lo := lo) (sb_logs s) y;
  pi_parent : forall y, in_use y -> rank y <= rank (obs s) -> parent lo s' y = parent lo s y;
  pi_obs : forall y, in_use y -> rank y <= rank (obs s') <-> rank y < rank (run_nextXid running);
  pi_state : standbyState s' = state_after (subxid_status running);
  pi_latest : rank (run_latestCompletedXid running) <= rank (latest (sb_pa s'));
}.

Section picture.
Context (gone : Z -> Prop) (running : RunningTransactionsData) (xids : list Z) (s : State).
Context (Ht : tracking gone s) (Hrun : run_ok gone s running xids).

Lemma picture_tracking s' :
  logs_grow lo (obs s) (sb_logs s) (sb_logs s') -> ka_ok lo (array s') ->
  (forall x, x ∈ (window (array s')).*1 -> x ∈ xids) ->
  (forall x, x ∈ known s' <-> x ∈ xids /\ ~ ended lo s x) ->
  obs s' = TransactionIdRetreat (run_nextXid running) -> standbyState s' = state_after (subxid_status running) ->
  (subxid_status running = SUBXIDS_MISSING -> standbySnapshotPendingXmin s' = obs s') ->
  overflowed s' = (if decide (subxid_status running = SUBXIDS_IN_ARRAY) then InvalidTransactionId else obs s') ->
  in_use (latest (sb_pa s')) -> rank (run_latestCompletedXid running) <= rank (latest (sb_pa s')) ->
  rank (latest (sb_pa s')) < rank (run_nextXid running) ->
  pictured gone running s s'.
Proof.
  intros Hg Hka Hwin Hkn Eo Es Ep Eov Hlu Hlc Hln. destruct (ru_next _ _ _ _ Hrun) as (Hnu & Hno & Hnm).
  destruct (tr_obs _ _ _ _ Ht) as [Hou _].
  pose proof (fun y Hy => retreat_rank lo (run_nextXid running) y (obs s) Hnu Hou Hno Hy) as Hret.
  rewrite <- Eo in Hret. assert (in_use (obs s')) as Hou' by apply (Hret _ Hou). pose proof (fun y Hy => proj2 (Hret y Hy)) as Hob.
  assert (forall y, in_use y -> ended lo s' y <-> ended lo s y) as He.
  { intros y Hy. unfold ended. by destruct (lg_fate _ _ _ _ Hg y Hy) as [-> ->]. }
  assert (forall y, in_use y -> alive lo gone s' y <-> alive lo gone s y) as Hal by (intros y Hy; unfold alive; by rewrite He).
  pose proof (proj1 (Forall_forall _ _) (ru_ids _ _ _ _ Hrun)) as Hids.
  pose proof (proj1 (Hob _ Hou') ltac:(lia)) as Hself. apply Hob in Hno as Hno'; [|done].
  split; [|apply (lg_fate _ _ _ _ Hg)|intros y Hy Hle; by apply (lg_old _ _ _ _ Hg)|done..]. split.
  - apply (lg_ok _ _ _ _ Hg).
  - done.
  - split; [done|lia].
  - intros x Hx. apply Hwin, Hids in Hx as [Hxu Hx]. by apply Hob.
  - rewrite Es. by destruct (subxid_status running).
  - intros x Hxu Hr. rewrite He by done. assert (rank (obs s) < rank x) as Hr2 by lia.
    destruct (tr_future _ _ _ _ Ht x Hxu Hr2) as [H1 H2]. split; [done|]. by apply (lg_new _ _ _ _ Hg).
  - intros x Hxu. unfold parent. destruct (decide (rank x <= rank (obs s))) as [Hle|Hgt].
    + rewrite (lg_old _ _ _ _ Hg) by done. by apply (tr_parent _ _ _ _ Ht).
    + intros Hp. destruct Hp. apply (lg_new _ _ _ _ Hg); [done|lia|]. apply (tr_future _ _ _ _ Ht); [done|lia].
  - intros x Hxu Hr. rewrite Hal, Hal by (try apply (top_in_use _ _ Htop); done). apply (ru_tree _ _ _ _ Hrun); [done|]. by apply Hob.
  - intros x Hxu. rewrite He by (by apply (top_in_use _ _ Htop)). destruct (lg_fate _ _ _ _ Hg x Hxu) as [-> _].
    by apply (tr_committed _ _ _ _ Ht).
  - intros x [Hin Hn]%Hkn. rewrite He; [done|]. by apply Hids.
  - intros _ x Hxu Hr Ha. apply Hob in Hr; [|done]. rewrite Hal in Ha by done.
    destruct (ru_complete _ _ _ _ Hrun x Hxu Hr Ha) as [Hin|[Hne Hst]]; [left; apply Hkn; split; [done|apply Ha]|right].
    split; [done|]. unfold pending. rewrite Es, Eov. unfold state_after. destruct (subxid_status running) eqn:Est; [done|..]; simpl.
    + right. split; [done|]. rewrite Ep by done. by apply Hob.
    + left. split_and!; [|done|by apply Hob]. unfold parent. rewrite (lg_old _ _ _ _ Hg); [done|done|].
      apply Z.nlt_ge. intros Hgt. destruct (tr_future _ _ _ _ Ht x Hxu Hgt) as [_ H0]. rewrite H0 in Hst.
      pose proof (in_use_valid lo (top x) (top_in_use _ _ Htop x Hxu)) as Hv. by rewrite <- Hst in Hv.
  - rewrite Eov. by case_decide.
  - rewrite Es. clear Eov. unfold state_after. case_decide as Hm; [|done]. intros _. by rewrite Ep.
  - intros _. split; [done|]. by apply Hob.
  - intros _. apply (in_use_valid lo), Hlu.
Qed.

Lemma idle_empty : machinery_up (standbyState s) = false -> numKnownAssignedXids (array s) = 0 /\ known s = [].
Proof.
  intros Hup. assert (known s = []) as Hk by (unfold known, KnownAssignedXids; fold (array s); by rewrite (tr_idle _ _ _ _ Ht Hup)).
  split; [|done]. rewrite (ka_num _ _ (tr_array _ _ _ _ Ht)). unfold known in Hk. fold (array s) in Hk. by rewrite Hk.
Qed.

(** Entering the ids that still run. *)
Lemma enter_spec env l' still : machinery_up (standbyState s) = false ->
  (forall x, x ∈ still <-> x ∈ xids /\ ~ ended lo s x) ->
  wp (pwhen (0 <? zlength still)
       (ka <- pget (fun s => knownAssigned (sb_pa s)) ;;
        pwhen (negb (numKnownAssignedXids ka =? 0)) (preturn KnownAssignedNotEmpty) ;;;
        add_sorted env None (qsort_xids still)))%prog
    (goes_on (fun _ s' => exists k, s' = set_known (set_logs s l') k /\ ka_ok lo k.1 /\
      (forall x, x ∈ (window k.1).*1 -> x ∈ xids) /\ (forall x, x ∈ KnownAssignedXids k.1 <-> x ∈ xids /\ ~ ended lo s x)))
    (set_logs s l').
Proof.
  intros Hup Hst. destruct (idle_empty Hup) as [Hnum Hkn]. pose proof (tr_idle _ _ _ _ Ht Hup) as Hw.
  pose proof (tr_array _ _ _ _ Ht) as Hka. pose proof (proj1 (Forall_forall _ _) (ru_ids _ _ _ _ Hrun)) as Hids.
  unfold pwhen at 1. destruct (Z.ltb_spec 0 (zlength still)) as [Hpos|Hz].
  2:{ apply wp_ret. exists (known_of s). assert (still = []) as -> by (destruct still; [done|unfold zlength in Hz; simpl in Hz; lia]).
      split_and!; [by destruct s as [[]]|done|unfold known_of; simpl; fold (array s); rewrite Hw; by intros x ?%elem_of_nil|].
      intros x. rewrite <- Hst. unfold known in Hkn. simpl. by rewrite Hkn. }
  apply wp_bind, wp_get. cbv beta iota. change (knownAssigned (sb_pa (set_logs s l'))) with (array s). rewrite Hnum.
  apply wp_bind, wp_ret. cbv beta iota. destruct (ru_next _ _ _ _ Hrun) as (_ & _ & Hmax).
  assert (Forall in_use still) as Hu by (apply Forall_forall; intros x [Hx _]%Hst; by apply Hids).
  destruct (qsort_spec still Hu) as [Hsort Hmem].
  eapply wp_mono; [|apply add_sorted_spec; [exact Hka| |exact Hsort|done|]].
  - intros [e|[]] s'; unfold StandbyTracking.goes_on; [done|]. intros (k & -> & Hk & Hwk & Hm). exists k. split_and!; [done..| |].
    + intros x [Hx|Hx]%Hwk; [change (array (set_logs s l')) with (array s) in Hx; rewrite Hw in Hx; by apply elem_of_nil in Hx|].
      by apply Hmem, Hst in Hx as [? _].
    + intros x. rewrite Hm, Hmem, Hst. change (known (set_logs s l')) with (known s). rewrite Hkn, elem_of_nil. tauto.
  - apply Forall_forall. intros x [Hx _]%Hmem%Hst. destruct (Hids x Hx). split; [done|lia].
  - intros x y Hx. change (array (set_logs s l')) with (array s) in Hx. rewrite Hw in Hx. by apply elem_of_nil in Hx.
Qed.

Lemma initialize_spec env : machinery_up (standbyState s) = false ->
  wp (initialize_snapshot env running) (goes_on (fun _ s' => pictured gone running s s')) s.
Proof.
  intros Hup. unfold initialize_snapshot. rewrite <- (ru_xids _ _ _ _ Hrun).
  destruct (ru_next _ _ _ _ Hrun) as (Hnu & Hno & Hnm). destruct (tr_obs _ _ _ _ Ht) as [Hou Hom].
  destruct (advance_rank lo (obs s) (run_nextXid running) Hou Hom Hnu) as [Hau Han].
  eapply wp_go_bind; [apply still_running_spec; [apply (tr_logs _ _ _ _ Ht)|]|].
  { eapply Forall_impl; [apply (ru_ids _ _ _ _ Hrun)|]. by intros x [? _]. }
  intros still s1 (l1 & -> & Hl1 & Hst). eapply wp_go_bind; [by apply (enter_spec env l1 still)|].
  intros [] s2 (k & -> & Hk & Hwk & Hm). apply wp_bind, wp_mod.
  apply wp_bind, wp_get. cbv beta iota.
  eapply wp_go_bind; [eapply (observe_to_spec _ _ (obs s)); [apply Hl1|exact Hou|exact Hau|exact Hnu|..]|].
  { intros y Hy. by apply (advance_rank lo). }
  { change (obs _) with (TransactionIdAdvance (obs s)). lia. }
  { unfold id. simpl. change (obs _) with (TransactionIdAdvance (obs s)). fold (obs s). rewrite Z2Nat.id by cint.
    rewrite rank_distance by (done || lia). lia. }
  intros [] s3 (l3 & -> & Hg). simpl in Hg.
  set (s4 := set_observed _ _). assert (sb_logs s4 = l3 /\ array s4 = k.1 /\ obs s4 = run_nextXid running /\ latest (sb_pa s4) = latest (sb_pa s))
    as (E1 & E2 & E3 & E4) by done. clearbody s4.
  unfold wp, pbind, pmod. cbn [fst snd goes_on]. set (s5 := if decide _ then _ else _).
  assert (sb_logs s5 = l3 /\ array s5 = k.1 /\ obs s5 = TransactionIdRetreat (run_nextXid running) /\ latest (sb_pa s5) = latest (sb_pa s) /\
    standbyState s5 = state_after (subxid_status running) /\ (subxid_status running = SUBXIDS_MISSING -> standbySnapshotPendingXmin s5 = obs s5) /\
    overflowed s5 = (if decide (subxid_status running = SUBXIDS_IN_ARRAY) then InvalidTransactionId else obs s5))
    as (F1 & F2 & F3 & F4 & F5 & F6 & F7) by (rewrite <- E3, <- E1, <- E2, <- E4; unfold s5, state_after; by destruct (subxid_status running)).
  clearbody s5. clear E1 E2 E3 E4 s4. destruct (ru_completed _ _ _ _ Hrun) as [Hcu Hcn].
  pose proof (tr_latest _ _ _ _ Ht) as Hlat. rewrite <- F4 in Hlat.
  destruct (maintain_recovery lo (run_latestCompletedXid running) (sb_pa s5) Hcu (fun Hv => proj1 (Hlat Hv))) as (M1 & M2 & M3 & _ & _ & M6 & M7).
  apply picture_tracking; simpl; try done.
  - rewrite F1. by apply (logs_grow_same _ _ l1).
  - unfold array. simpl. rewrite M6. fold (array s5). by rewrite F2.
  - unfold array. simpl. rewrite M6. fold (array s5). by rewrite F2.
  - unfold known. simpl. rewrite M6. fold (array s5). by rewrite F2.
  - unfold overflowed. simpl. rewrite M7. exact F7.
  - destruct M3 as [->|[Hv ->]]; [done|]. destruct (Hlat Hv). lia.
Qed.
End picture.

(** ** The record *)

(** A picture whose children were all revealed is complete. *)
Lemma promote_tracking gone s : tracking gone s -> machinery_up (standbyState s) = true ->
  (forall x, in_use x -> alive lo gone s x -> ~ pending lo s x) ->
  tracking gone (set_standby_state s STANDBY_SNAPSHOT_READY).
Proof.
  intros Ht Hup Hno. split; try apply Ht; try done.
  - intros _ x Hx Hr Ha. destruct (tr_complete _ _ _ _ Ht Hup x Hx Hr Ha) as [Hk|[Hne [Hp|Hp]]]; [by left|right; auto|].
    by destruct (Hno x Hx Ha).
  - intros _. apply (tr_xmax _ _ _ _ Ht Hup).
Qed.

(** An incomplete picture is dropped. *)
Lemma drop_tracking gone s : tracking gone s ->
  tracking gone (set_standby_state (set_known s (KnownAssignedXidsReset (knownAssigned (sb_pa s)), sb_kax s)) STANDBY_INITIALIZED).
Proof.
  intros Ht. destruct (reset_spec lo _ (tr_array _ _ _ _ Ht)) as [Hsh Hnil]. unfold array in Hsh, Hnil.
  split; try apply Ht; try done.
  - apply (sh_ok _ _ _ Hsh).
  - intros x Hx. by apply elem_of_nil in Hx.
  - intros x Hx. unfold known in Hx. simpl in Hx. rewrite Hnil in Hx. by apply elem_of_nil in Hx.
Qed.

Record applied (gone : Z -> Prop) (running : RunningTransactionsData) s s' : Prop := {
  ap_tracking : tracking gone s';
  ap_fate : forall y, in_use y ->
    committed (lo := lo) (sb_logs s') y = committed (lo := lo) (sb_logs s) y /\
    aborted (lo := lo) (sb_logs s') y = aborted (lo := lo) (sb_logs s) y;
  ap_parent : forall y, in_use y -> rank y <= rank (obs s) -> parent lo s' y = parent lo s y;
  ap_obs : rank (obs s) <= rank (obs s') < rank (run_nextXid running);
  ap_up : machinery_up (standbyState s') = true;
  ap_state : standbyState s = STANDBY_SNAPSHOT_READY \/ subxid_status running <> SUBXIDS_MISSING ->
    standbyState s' = STANDBY_SNAPSHOT_READY;
}.

Lemma pictured_applied gone running xids s s' : tracking gone s -> run_ok gone s running xids -> standbyState s <> STANDBY_SNAPSHOT_READY ->
  pictured gone running s s' -> applied gone running s s'.
Proof.
  intros Ht Hrun Hst [P1 P2 P3 P4 P5 P6]. destruct (ru_next _ _ _ _ Hrun) as (_ & Hno & _).
  split; try done; rewrite ?P5; unfold state_after; simpl.
  - split; [apply P4; [apply Ht|done]|]. apply P4; [apply P1|lia].
  - by case_decide.
  - intros [?|?]; [done|]. by rewrite decide_False.
Qed.

Lemma run_ok_same gone s s' running xids : run_ok gone s running xids -> obs s' = obs s -> sb_logs s' = sb_logs s -> run_ok gone s' running xids.
Proof.
  intros [R1 R2 R3 R4 R5 R6] Eo El. assert (forall x, alive lo gone s' x <-> alive lo gone s x) as Hal.
  { intros x. unfold alive, ended. by rewrite El. }
  split; rewrite ?Eo; try done.
  - intros x Hx Hr. rewrite !Hal. auto.
  - intros x Hx Hr. rewrite Hal. unfold parent. rewrite El. by apply R6.
Qed.

Lemma applied_same gone running s s0 (r : StandbyError E + unit) s' : obs s0 = obs s -> sb_logs s0 = sb_logs s -> standbyState s0 = standbyState s ->
  goes_on (fun _ s' => applied gone running s0 s') r s' -> goes_on (fun _ s' => applied gone running s s') r s'.
Proof.
  intros Eo El Es. destruct r as [e|[]]; [done|]. intros [A1 A2 A3 A4 A5 A6].
  split; rewrite <- ?Eo, <- ?El, <- ?Es; try done. intros y Hy Hr. rewrite A3 by done. unfold parent. by rewrite El.
Qed.

Lemma same_alive_logs gone s s' x : sb_logs s' = sb_logs s -> alive lo gone s' x <-> alive lo gone s x.
Proof. intros El. unfold alive, ended. by rewrite El. Qed.

(** From the switch on [standbyState] on. *)
Lemma apply_picture env gone running xids s : tracking gone s -> run_ok gone s running xids ->
  (standbyState s = STANDBY_SNAPSHOT_PENDING ->
    TransactionIdPrecedes (standbySnapshotPendingXmin s) (oldestRunningXid running) = true ->
    forall x, in_use x -> alive lo gone s x -> ~ pending lo s x) ->
  wp (match standbyState s with
      | STANDBY_SNAPSHOT_READY => pret tt
      | STANDBY_SNAPSHOT_PENDING =>
          if negb (bool_decide (subxid_status running = SUBXIDS_MISSING)) || (xcnt running =? 0) then
            pmod (fun s => set_known s (KnownAssignedXidsReset (knownAssigned (sb_pa s)), sb_kax s)) ;;;
            pmod (fun s => set_standby_state s STANDBY_INITIALIZED) ;;;
            initialize_snapshot env running
          else
            pwhen (TransactionIdPrecedes (standbySnapshotPendingXmin s) (oldestRunningXid running))
              (pmod (fun s => set_standby_state s STANDBY_SNAPSHOT_READY))
      | _ => initialize_snapshot env running
      end)%prog (goes_on (fun _ s' => applied gone running s s')) s.
Proof.
  intros Ht Hrun Hpend. assert (forall s', tracking gone s' -> obs s' = obs s -> sb_logs s' = sb_logs s ->
    machinery_up (standbyState s') = true -> standbyState s' = STANDBY_SNAPSHOT_READY \/ 
      standbyState s <> STANDBY_SNAPSHOT_READY /\ subxid_status running = SUBXIDS_MISSING -> applied gone running s s') as Hstay.
  { intros s' Ht' Eo El Hup Hs. destruct (ru_next _ _ _ _ Hrun) as (_ & Hno & _). split; rewrite ?El, ?Eo; try done.
    - intros y _ _. unfold parent. by rewrite El.
    - destruct Hs as [?|[? ?]]; [done|]. by intros [|]. }
  assert (machinery_up (standbyState s) = false -> wp (initialize_snapshot env running) (goes_on (fun _ s' => applied gone running s s')) s) as Hini.
  { intros Hup. eapply wp_mono; [|apply (initialize_spec gone running xids s Ht Hrun env Hup)].
    intros [e|[]] s'; unfold StandbyTracking.goes_on; [done|]. apply (pictured_applied _ _ xids); try done. intros E0. by rewrite E0 in Hup. }
  destruct (standbyState s) eqn:Est; try (by apply Hini).
  - destruct (negb _ || _) eqn:Hq.
    + apply wp_bind, wp_mod, wp_bind, wp_mod.
      set (s1 := set_standby_state _ _).
      assert (obs s1 = obs s /\ sb_logs s1 = sb_logs s) as [E1 E2] by done.
      apply (run_ok_same _ _ s1) in Hrun as Hrun1; [|done..]. pose proof (drop_tracking gone s Ht : tracking gone s1) as Ht1.
      eapply wp_mono; [|apply (initialize_spec gone running xids s1 Ht1 Hrun1 env eq_refl)].
      intros [e|[]] s'; unfold StandbyTracking.goes_on; [done|]. intros Hp.
      apply (pictured_applied _ _ xids _ _ Ht1 Hrun1) in Hp as [A1 A2 A3 A4 A5 A6]; [|done].
      split; try done. intros [E0|Hs]; [by rewrite Est in E0|auto].
    + apply orb_false_iff in Hq as [Hq _]. apply negb_false_iff, bool_decide_eq_true in Hq.
      unfold pwhen. destruct (TransactionIdPrecedes _ _) eqn:Hp.
      * apply wp_mod, Hstay; try done; [|by left]. apply promote_tracking; [done|by rewrite Est|auto].
      * apply wp_ret, Hstay; try done; [by rewrite Est|right; done].
  - apply wp_ret, Hstay; try done; [by rewrite Est|by left].
Qed.

(** With no running tree before [oldest], the record reveals nothing new. *)
Lemma revealed_gone gone oldest s : tracking gone s -> in_use oldest ->
  (forall x, in_use x -> rank x < rank oldest -> ~ alive lo gone s x) ->
  oldest_ok gone s oldest.
Proof.
  intros Ht Ho Hnone. split; [done|]. intros x Hx Hr Ha _. apply Z.nlt_ge. intros Hlt.
  apply (Hnone (top x)); [by apply (top_in_use _ _ Htop)|done|]. by apply (tr_tree _ _ _ _ Ht).
Qed.

(** A wider [gone]. *)
Lemma tracking_gone gone gone' s : tracking gone s -> (forall x, in_use x -> gone x -> ended lo s x \/ gone' x) ->
  (forall x, in_use x -> rank x <= rank (obs s) -> alive lo gone' s x -> alive lo gone' s (top x)) -> tracking gone' s.
Proof.
  intros Ht Hsub Htree. split; try apply Ht; [done|]. intros Hup x Hx Hr [Hne Hng]. apply (tr_complete _ _ _ _ Ht Hup x Hx Hr).
  split; [done|]. intros Hg. by destruct (Hsub x Hx Hg).
Qed.

Lemma apply_running_spec env gone running xids s : tracking gone s -> oldest_ok gone s (oldestRunningXid running) ->
  run_ok (revealed gone (oldestRunningXid running) s) s running xids ->
  wp (ProcArrayApplyRecoveryInfo env running)
    (goes_on (fun _ s' => applied (revealed gone (oldestRunningXid running) s) running s s')) s.
Proof.
  intros Ht Hold Hrun. set (oldest := oldestRunningXid running) in *. set (gone' := revealed gone oldest s) in *.
  destruct (expire_old_spec env gone oldest s Ht Hold) as (Ht1 & El & Eo & Es & Ep & _).
  unfold ProcArrayApplyRecoveryInfo. fold oldest. set (s1 := ExpireOldKnownAssignedTransactionIds env oldest s) in *.
  set (s3 := set_locks (advance_next (TransactionIdRetreat (run_nextXid running)) s1)
    (StandbyReleaseOldLocks (prepared env) oldest (sb_locks (advance_next (TransactionIdRetreat (run_nextXid running)) s1)))).
  assert (tracking gone' s3) as Ht3.
  { eapply same_tracking; [done|exact Ht1|]. eapply same_trans; [apply same_next|apply same_locks]. }
  assert (sb_logs s3 = sb_logs s /\ obs s3 = obs s /\ standbyState s3 = standbyState s /\
    standbySnapshotPendingXmin s3 = standbySnapshotPendingXmin s) as (F1 & F2 & F3 & F4) by done.
  apply wp_bind, wp_mod. fold s1. apply wp_bind, wp_mod, wp_bind, wp_mod. fold s3. apply wp_bind, wp_get. cbv beta iota. unfold id. clearbody s3.
  eapply wp_mono; [intros r s' Hr; eapply applied_same; [exact F2|exact F1|exact F3|exact Hr]|].
  apply (run_ok_same _ s s3) in Hrun as Hrun3; [|done..].
  apply (apply_picture env gone' running xids s3); try done.
  intros Hp. rewrite F3 in Hp. pose proof (tr_pending _ _ _ _ Ht Hp) as Hpu. rewrite F4. rewrite (precedes_rank lo) by (done || apply Hold).
  intros Hlt%Z.ltb_lt x Hx Ha [_ Hle]. rewrite F4 in Hle.
  apply (proj1 (same_alive_logs _ _ _ _ F1)), alive_revealed in Ha as [_ Hge]. unfold oldest in Hge. lia.
Qed.
End running.
