(* ===== verification/StandbyCompletion.v ===== *)
(** * Completions on a standby

    A query on a standby may use its last snapshot again as long as the shared
    counter of completions has not moved.  Here: which records move that
    counter and [latestCompletedXid], once the picture is complete.  The ends of
    transactions do, and nothing else. *)

From S2P Require Import Prelude.
From S2P Require Import Clog.
From S2P Require Import CommitTs.
From S2P Require Import MultiXact.
From S2P Require Import TransactionId.
From S2P Require Import Varsup.
From S2P Require Import KnownAssigned.
From S2P Require Import StandbyLocks.
From S2P Require Import ProcArray.
From S2P Require Import Running.
From S2P Require Import Standby.

Section completion.
Context {L E LM : Type} `{Logs : RecoveryLogs L E} `{Locks : LockManager LM}.

Abbreviation State := (Standby L LM).
Abbreviation M := (prog State (StandbyError E)).
Implicit Types (s : State).

Definition completion_count s : Z := xactCompletionCount (TransamVariables (sb_pa s)).

Definition core s : Z * Z * HotStandbyState := (completion_count s, latest (sb_pa s), standbyState s).

(** With a complete picture, the program leaves the core alone. *)
Definition quiet {A} (m : M A) : Prop := forall s, standbyState s = STANDBY_SNAPSHOT_READY -> core (m s).1 = core s.

Lemma core_state s s' : core s' = core s -> standbyState s' = standbyState s.
Proof. by intros [= _ _ ?]. Qed.

Lemma quiet_ret {A} (a : A) : quiet (pret a).
Proof. by intros s _. Qed.
Lemma quiet_return {A} e : quiet (preturn (A := A) e).
Proof. by intros s _. Qed.
Lemma quiet_get {A} (f : State -> A) : quiet (pget f).
Proof. by intros s _. Qed.
Lemma quiet_mod f : (forall s, core (f s) = core s) -> quiet (pmod f).
Proof. intros H s _. apply H. Qed.
Lemma quiet_logs {A} (m : prog L E A) : quiet (on_logs m).
Proof. intros s _. unfold on_logs. by destruct (m (sb_logs s)). Qed.
Lemma quiet_known m : quiet (on_known m).
Proof. intros s _. unfold on_known. by destruct (m (known_of s)). Qed.
Lemma quiet_bind {A B} (m : M A) (k : A -> M B) : quiet m -> (forall a, quiet (k a)) -> quiet (pbind m k).
Proof.
  intros Hm Hk s Hs. specialize (Hm s Hs). unfold pbind. destruct (m s) as [s1 [e|a]]; [done|]. simpl in Hm.
  rewrite Hk; [done|]. by rewrite (core_state _ _ Hm).
Qed.
Lemma quiet_get_bind {A B} (f : State -> A) (k : A -> M B) :
  (forall s, standbyState s = STANDBY_SNAPSHOT_READY -> core (k (f s) s).1 = core s) -> quiet (pbind (pget f) k).
Proof. intros H s Hs. by apply H. Qed.

Lemma core_next x s : core (advance_next x s) = core s.
Proof. unfold core, completion_count, latest, advance_next, AdvanceNextFullTransactionIdPastXid. simpl. by destruct (negb _). Qed.

Lemma quiet_next x : quiet (pmod (advance_next x)).
Proof. apply quiet_mod. intros s. apply core_next. Qed.

Lemma core_nexts xs : forall s, core (foldl (fun s x => advance_next x s) s xs) = core s.
Proof. induction xs as [|x xs IH]; intros s; simpl; [done|]. by rewrite IH, core_next. Qed.

Lemma quiet_transam f : (forall tv, latestCompletedXid (f tv) = latestCompletedXid tv /\ xactCompletionCount (f tv) = xactCompletionCount tv) ->
  quiet (mod_transam f).
Proof. intros H. apply quiet_mod. intros s. unfold core, completion_count, latest. simpl. by destruct (H (TransamVariables (sb_pa s))) as [-> ->]. Qed.

(** *** The parts of replay *)

Create HintDb quiet.
#[local] Hint Resolve quiet_ret quiet_return quiet_get quiet_logs quiet_known quiet_next : quiet.

Ltac quietly := repeat first
  [ solve [auto with quiet] | apply quiet_bind | apply quiet_ret | apply quiet_return | apply quiet_get | apply quiet_logs | apply quiet_known
  | apply quiet_next | apply quiet_mod; by intros ? | match goal with |- forall _, _ => intros ? end | case_match | done ].

Lemma extend_quiet fuel : forall x y, quiet (extend_to fuel x y).
Proof. induction fuel as [|fuel IH]; intros x y; simpl; quietly; auto. Qed.
#[local] Hint Resolve extend_quiet : quiet.

Lemma record_quiet env x : quiet (RecordKnownAssignedTransactionIds env x).
Proof. unfold RecordKnownAssignedTransactionIds. quietly. Qed.
#[local] Hint Resolve record_quiet : quiet.

Lemma expire_old_core env x s : core (ExpireOldKnownAssignedTransactionIds env x s) = core s.
Proof. unfold ExpireOldKnownAssignedTransactionIds. by case_match. Qed.

Lemma running_quiet env r : quiet (ProcArrayApplyRecoveryInfo env r).
Proof.
  unfold ProcArrayApplyRecoveryInfo. apply quiet_bind; [apply quiet_mod; intros s; apply expire_old_core|]. intros _.
  apply quiet_bind; [apply quiet_next|]. intros _. apply quiet_bind; [by apply quiet_mod|]. intros _.
  apply quiet_get_bind. intros s Hs. unfold id. by rewrite Hs.
Qed.
#[local] Hint Resolve running_quiet : quiet.

Lemma parents_quiet t xs : quiet (set_parents t xs).
Proof. induction xs as [|x xs IH]; simpl; quietly; auto. Qed.
#[local] Hint Resolve parents_quiet : quiet.

Lemma assignment_quiet env t xs : quiet (ProcArrayApplyXidAssignment env t xs).
Proof.
  unfold ProcArrayApplyXidAssignment. apply quiet_bind; [apply record_quiet|]. intros _. apply quiet_bind; [apply parents_quiet|]. intros _.
  quietly. apply quiet_mod. intros s. by case_match.
Qed.
#[local] Hint Resolve assignment_quiet : quiet.

Lemma locks_quiet l : quiet (acquire_locks l).
Proof. induction l as [|k l IH]; simpl; [quietly|]. apply quiet_bind; [unfold acquire_lock; quietly|]. intros _. apply IH. Qed.
#[local] Hint Resolve locks_quiet : quiet.

Lemma prepared_quiet gxacts : quiet (StandbyRecoverPreparedTransactions gxacts).
Proof. induction gxacts as [|[t xs] l IH]; simpl; [quietly|]. apply quiet_bind; [apply parents_quiet|]. intros _. apply IH. Qed.
#[local] Hint Resolve prepared_quiet : quiet.

Lemma counters_quiet env cp : quiet (believe_counters env cp).
Proof. unfold believe_counters. apply quiet_bind; [by apply quiet_transam|]. intros _. quietly. Qed.
#[local] Hint Resolve counters_quiet : quiet.

Lemma shutdown_quiet env gxacts cp : quiet (redo_shutdown_checkpoint env gxacts cp).
Proof.
  unfold redo_shutdown_checkpoint. apply quiet_bind; [apply counters_quiet|]. intros _. apply quiet_get_bind. intros s Hs. unfold id.
  case_decide; [done|]. unfold PrescanPreparedTransactions. set (s2 := foldl _ s _). assert (core s2 = core s) as Ec by apply core_nexts.
  unfold pbind at 1, pmod at 1. rewrite <- Ec. apply quiet_bind; [apply prepared_quiet|intros _; apply running_quiet|].
  by rewrite (core_state _ _ Ec).
Qed.
#[local] Hint Resolve shutdown_quiet : quiet.

Lemma online_quiet env cp : quiet (redo_online_checkpoint env cp).
Proof.
  unfold redo_online_checkpoint. apply quiet_bind; [apply quiet_transam; intros tv; by case_match|]. intros _. quietly.
  apply quiet_transam. intros tv. by case_match.
Qed.
#[local] Hint Resolve online_quiet : quiet.

Lemma clog_quiet r : quiet (redo_clog r).
Proof.
  unfold redo_clog. quietly. apply quiet_transam. intros tv. unfold AdvanceOldestClogXid. by case_match.
Qed.
#[local] Hint Resolve clog_quiet : quiet.

(** *** The end of a tree *)

(** The tree that a record ends. *)
Definition ends_tree (r : WalRecord) : option (Z * list Z) :=
  match r with
  | XLOG_XACT_COMMIT parsed x _ _ | XLOG_XACT_COMMIT_PREPARED parsed x _ _ => Some (x, subxacts parsed)
  | XLOG_XACT_ABORT parsed x | XLOG_XACT_ABORT_PREPARED parsed x => Some (x, subxacts parsed)
  | _ => None
  end.

(** The tree is expired in a state with the same core, and after that the core
    stays. *)
Definition expired env (x : Z) (xs : list Z) s s' : Prop :=
  exists s1, core s1 = core s /\ core s' = core (ExpireTreeKnownAssignedTransactionIds env x xs (TransactionIdLatest x xs) s1).

Lemma quiet_run {A} (m : M A) s s' r : quiet m -> standbyState s = STANDBY_SNAPSHOT_READY -> m s = (s', r) -> core s' = core s.
Proof. intros Hm Hs E1. specialize (Hm s Hs). by rewrite E1 in Hm. Qed.

(** A quiet program, then the expiry, then a quiet one. *)
Lemma expired_run {A} env x xs (m1 : M A) (m2 : M unit) s s' : quiet m1 -> quiet m2 -> standbyState s = STANDBY_SNAPSHOT_READY ->
  (m1 ;;; pmod (ExpireTreeKnownAssignedTransactionIds env x xs (TransactionIdLatest x xs)) ;;; m2)%prog s = (s', inr tt) -> expired env x xs s s'.
Proof.
  intros H1 H2 Hs. unfold pbind at 1. destruct (m1 s) as [s1 [e|a]] eqn:E1; [done|]. apply (quiet_run m1) in E1; [|done..].
  unfold pbind, pmod. intros E2. exists s1. split; [done|]. apply (quiet_run m2) in E2; [done..|]. exact (eq_trans (core_state _ _ E1) Hs).
Qed.

Lemma release_quiet parsed x : quiet (release_lock_tree parsed x).
Proof. unfold release_lock_tree, pwhen. quietly. Qed.
#[local] Hint Resolve release_quiet : quiet.

Lemma commit_expires env parsed x lsn origin s s' : standbyState s = STANDBY_SNAPSHOT_READY ->
  xact_redo_commit env parsed x lsn origin s = (s', inr tt) -> expired env x (subxacts parsed) s s'.
Proof.
  intros Hs. unfold xact_redo_commit, advance_past_latest. unfold pbind at 1, pmod at 1.
  set (s1 := advance_next _ s). assert (core s1 = core s) as E1 by apply core_next. pose proof (core_state _ _ E1) as S1.
  unfold pbind at 1. destruct (on_logs _ s1) as [s2 [e|[]]] eqn:E2; [done|]. apply quiet_run in E2; [|apply quiet_logs|congruence].
  pose proof (core_state _ _ E2) as S2. unfold pbind at 1, pget at 1. rewrite decide_False by congruence.
  intros E3. rewrite <- pbind_assoc in E3. apply expired_run in E3 as (s3 & H1 & H2); [|apply quiet_bind; [apply record_quiet|intros; apply quiet_logs]|apply release_quiet|congruence].
  exists s3. split; congruence.
Qed.

Lemma abort_expires env parsed x s s' : standbyState s = STANDBY_SNAPSHOT_READY ->
  xact_redo_abort env parsed x s = (s', inr tt) -> expired env x (subxacts parsed) s s'.
Proof.
  intros Hs. unfold xact_redo_abort, advance_past_latest. unfold pbind at 1, pmod at 1.
  set (s1 := advance_next _ s). assert (core s1 = core s) as E1 by apply core_next. pose proof (core_state _ _ E1) as S1.
  unfold pbind at 1, pget at 1. rewrite decide_False by congruence.
  intros E3. rewrite <- pbind_assoc in E3. apply expired_run in E3 as (s3 & H1 & H2); [|apply quiet_bind; [apply record_quiet|intros; apply quiet_logs]|apply release_quiet|congruence].
  exists s3. split; congruence.
Qed.

(** *** One record *)

Lemma redo_quiet env xid r : ends_tree r = None -> quiet (rm_redo env xid r).
Proof.
  intros He. destruct r; try done; cbn [rm_redo xact_redo standby_redo xlog_redo]; unfold redo_next_oid, redo_parameter_change, redo_multixact;
    quietly.
Qed.

Lemma apply_core env xid r s s' : standbyState s = STANDBY_SNAPSHOT_READY -> ApplyWalRecord env xid r s = (s', inr tt) ->
  match ends_tree r with Some (x, xs) => expired env x xs s s' | None => core s' = core s end.
Proof.
  intros Hs. unfold ApplyWalRecord. unfold pbind at 1, pmod at 1. set (s1 := advance_next _ s).
  assert (core s1 = core s) as E1 by apply core_next. pose proof (core_state _ _ E1) as S1.
  unfold pbind at 1, pget at 1. unfold pbind at 1. destruct (pwhen _ _ s1) as [s2 [e|[]]] eqn:E2; [done|].
  apply quiet_run in E2; [|unfold pwhen; case_match; [apply record_quiet|apply quiet_ret]|congruence].
  pose proof (core_state _ _ E2) as S2. assert (standbyState s2 = STANDBY_SNAPSHOT_READY) as Hs2 by congruence.
  assert (core s2 = core s) as E12 by congruence. destruct (ends_tree r) as [[x xs]|] eqn:He.
  - intros E3. assert (expired env x xs s2 s') as (s3 & H1 & H2); [|exists s3; split; congruence].
    destruct r; try done; injection He as <- <-; cbn [rm_redo xact_redo] in E3; eauto using commit_expires, abort_expires.
  - intros E3. apply quiet_run in E3; [congruence|by apply redo_quiet|done].
Qed.

(** *** What the end of a tree does to the core *)

Lemma expired_count env x xs s s' : expired env x xs s s' -> completion_count s' = u64 (completion_count s + 1).
Proof.
  intros (s1 & [= E1 _ _] & [= E2 _ _]). rewrite E2, <- E1. unfold completion_count, ExpireTreeKnownAssignedTransactionIds, MaintainLatestCompletedXidRecovery.
  simpl. by case_match.
Qed.

Lemma expired_latest env x xs s s' : expired env x xs s s' ->
  exists pa, latest pa = latest (sb_pa s) /\ latest (sb_pa s') = latest (MaintainLatestCompletedXidRecovery (TransactionIdLatest x xs) pa).
Proof.
  intros (s1 & [= _ E1 _] & [= _ E2 _]). exists (sb_pa (mod_known (KnownAssignedXidsRemoveTree (now env) x xs) s1)). split; [exact E1|].
  rewrite E2. done.
Qed.
End completion.
