(* ===== verification/StandbyReplay.v ===== *)
(** * Replaying the log of a primary

    A primary assigns ids, logs records that carry them and ends its
    transactions; [primary_step] says which record it may write in which
    state.  The theorems run [ApplyWalRecord] on such a log and relate the
    state of the standby to the state of the primary. *)

From S2P Require Import Prelude.
From S2P Require Import Clog.
From S2P Require Import CommitTs.
From S2P Require Import MultiXact.
From S2P Require Import TransactionId.
From S2P Require Import Varsup.
From S2P Require Import KnownAssigned.
From S2P Require Import KnownAssignedTheorems.
From S2P Require Import StandbyLocks.
From S2P Require Import ProcArray.
From S2P Require Import Running.
From S2P Require Import Standby.
From S2P Require Import StandbyTracking.
From S2P Require Import StandbyRunning.

(** ** The primary *)

(** [p_lost] are the ids that were running when the primary crashed, and
    [p_logged] the ids that the log has mentioned. *)
Record Primary := MkPrimary {
  p_next : Z;
  p_logged : list Z;
  p_committed : list Z;
  p_aborted : list Z;
  p_lost : list Z;
}.

Section primary.
Context (lo : Z) (top : Z -> Z).

Abbreviation rank := (xid_rank lo).
Abbreviation in_use := (in_use lo).
Implicit Types p : Primary.

Definition running p (x : Z) : Prop :=
  in_use x /\ rank x < rank (p_next p) /\ x ∉ p_committed p /\ x ∉ p_aborted p /\ x ∉ p_lost p.

Definition log_ids (xs : list Z) p : Primary :=
  MkPrimary (p_next p) (xs ++ p_logged p) (p_committed p) (p_aborted p) (p_lost p).
Definition assign_next p : Primary :=
  MkPrimary (TransactionIdAdvance (p_next p)) (p_logged p) (p_committed p) (p_aborted p) (p_lost p).
Definition commit_ids (xs : list Z) p : Primary :=
  MkPrimary (p_next p) (xs ++ p_logged p) (xs ++ p_committed p) (p_aborted p) (p_lost p).
Definition abort_ids (xs : list Z) p : Primary :=
  MkPrimary (p_next p) (xs ++ p_logged p) (p_committed p) (xs ++ p_aborted p) (p_lost p).
Definition lose_ids (xs : list Z) p : Primary :=
  MkPrimary (p_next p) (p_logged p) (p_committed p) (p_aborted p) (xs ++ p_lost p).

(** The id in the header of a record: none, or a running one. *)
Definition header p (xid : Z) : Prop := xid = InvalidTransactionId \/ running p xid.

(** A commit record names all that still runs of a tree. *)
Definition commits p (x : Z) (xs : list Z) : Prop :=
  Forall (running p) (x :: xs) /\ (forall y, running p y -> top y = x <-> y ∈ x :: xs).

(** An abort record names a tree, or part of one below its top. *)
Definition aborts p (x : Z) (xs : list Z) : Prop :=
  Forall (running p) (x :: xs) /\ (forall y, running p y -> top y ∈ x :: xs -> y ∈ x :: xs).

Definition assigns p (t : Z) (xs : list Z) : Prop :=
  Forall (running p) (t :: xs) /\ (forall y, y ∈ xs -> top y = t /\ y <> t).

(** A running-transactions record names every running id, or every top and
    the fact that children are missing.  It may name ids whose end was logged
    before. *)
Record describes p (r : xl_running_xacts) (xids : list Z) : Prop := {
  de_xids : xids = take (Z.to_nat (xl_xcnt r + xl_subxcnt r)) (xl_xids r);
  de_next : xl_nextXid r = p_next p;
  de_ids : Forall (fun x => in_use x /\ rank x < rank (p_next p)) xids;
  de_oldest : in_use (xl_oldestRunningXid r) /\ rank (xl_oldestRunningXid r) <= rank (p_next p);
  de_oldest_le : forall x, running p x -> rank (xl_oldestRunningXid r) <= rank x;
  de_completed : in_use (xl_latestCompletedXid r) /\ rank (xl_latestCompletedXid r) < rank (p_next p);
  de_complete : forall x, running p x -> x ∈ xids \/ (top x <> x /\ subxid_overflow r = true);
}.

(** What a shutdown checkpoint, or the checkpoint after a crash, says: of the
    running transactions only the prepared ones are left. *)
Record prepared_left p (gxacts : list (Z * list Z)) : Prop := {
  pl_running : forall x, running p x -> exists t xs, (t, xs) ∈ gxacts /\ x ∈ t :: xs;
  pl_trees : forall t xs, (t, xs) ∈ gxacts -> running p t /\ top t = t /\
    Forall (fun y => running p y /\ y ∈ p_logged p /\ top y = t /\ y <> t) xs;
}.

(** The commit log is truncated at an id that no id in use precedes. *)
Definition clog_cutoff p (oldest : Z) : Prop :=
  is_u32 oldest /\ TransactionIdIsNormal oldest = true /\
  (forall y, in_use y -> rank y < rank (p_next p) -> TransactionIdPrecedes y oldest = false).

(** A page of the commit log is zeroed when the first id of the page is about
    to be assigned. *)
Inductive primary_step : Primary -> option (Z * WalRecord) -> Primary -> Prop :=
| step_assign p : top (p_next p) = p_next p \/ running p (top (p_next p)) ->
    rank (p_next p) <= 0x7fffffe0 -> primary_step p None (assign_next p)
| step_commit p xid parsed x lsn origin : header p xid -> commits p x (subxacts parsed) ->
    primary_step p (Some (xid, XLOG_XACT_COMMIT parsed x lsn origin)) (commit_ids (x :: subxacts parsed) (log_ids [xid] p))
| step_commit_prepared p xid parsed x lsn origin : header p xid -> commits p x (subxacts parsed) ->
    primary_step p (Some (xid, XLOG_XACT_COMMIT_PREPARED parsed x lsn origin))
      (commit_ids (x :: subxacts parsed) (log_ids [xid] p))
| step_abort p xid parsed x : header p xid -> aborts p x (subxacts parsed) ->
    primary_step p (Some (xid, XLOG_XACT_ABORT parsed x)) (abort_ids (x :: subxacts parsed) (log_ids [xid] p))
| step_abort_prepared p xid parsed x : header p xid -> aborts p x (subxacts parsed) ->
    primary_step p (Some (xid, XLOG_XACT_ABORT_PREPARED parsed x)) (abort_ids (x :: subxacts parsed) (log_ids [xid] p))
| step_assignment p xid t xs : header p xid -> assigns p t xs ->
    primary_step p (Some (xid, XLOG_XACT_ASSIGNMENT t xs)) (log_ids (t :: xs) (log_ids [xid] p))
| step_running p xid r xids : header p xid -> describes p r xids ->
    primary_step p (Some (xid, XLOG_RUNNING_XACTS r)) (log_ids [xid] p)
| step_lock p xid locks : header p xid -> Forall (fun k => header p (lock_xid k)) locks ->
    primary_step p (Some (xid, XLOG_STANDBY_LOCK locks)) (log_ids [xid] p)
| step_checkpoint p lost gxacts cp : XidFromFullTransactionId (ckpt_nextXid cp) = p_next p ->
    Forall (running p) lost -> prepared_left (lose_ids lost p) gxacts ->
    primary_step p (Some (InvalidTransactionId, XLOG_CHECKPOINT_SHUTDOWN gxacts cp))
      (lose_ids lost (log_ids [InvalidTransactionId] p))
| step_online_checkpoint p xid cp : header p xid ->
    primary_step p (Some (xid, XLOG_CHECKPOINT_ONLINE cp)) (log_ids [xid] p)
| step_next_oid p xid oid : header p xid -> primary_step p (Some (xid, XLOG_NEXTOID oid)) (log_ids [xid] p)
| step_parameter p xid new old : header p xid -> primary_step p (Some (xid, XLOG_PARAMETER_CHANGE new old)) (log_ids [xid] p)
| step_clog_zero p xid : header p xid -> opens_page (p_next p) = true ->
    primary_step p (Some (xid, XLOG_CLOG (CLOG_ZEROPAGE (TransactionIdToPage (p_next p))))) (log_ids [xid] p)
| step_clog_truncate p xid oldest db : header p xid -> clog_cutoff p oldest ->
    primary_step p (Some (xid, XLOG_CLOG (CLOG_TRUNCATE (TransactionIdToPage oldest) oldest db))) (log_ids [xid] p)
| step_commit_ts p xid record : header p xid -> primary_step p (Some (xid, XLOG_COMMIT_TS record)) (log_ids [xid] p)
| step_multixact p xid record : header p xid -> primary_step p (Some (xid, XLOG_MULTIXACT record)) (log_ids [xid] p)
| step_other p xid r : header p xid ->
    r = XLOG_OTHER \/ r = XLOG_XACT_PREPARE \/ r = XLOG_XACT_INVALIDATIONS \/ r = XLOG_INVALIDATIONS ->
    primary_step p (Some (xid, r)) (log_ids [xid] p).

Record primary_ok p : Prop := {
  po_next : in_use (p_next p) /\ rank (p_next p) <= 0x7ffffff0;
  po_tree : forall x, running p x -> running p (top x);
  po_past : forall x, x ∈ p_committed p ++ p_aborted p ++ p_lost p -> in_use x -> rank x < rank (p_next p);
}.

Lemma running_log xs p x : running (log_ids xs p) x <-> running p x.
Proof. done. Qed.

Lemma log_ok xs p : primary_ok p -> primary_ok (log_ids xs p).
Proof. intros [H1 H2 H3]. by split. Qed.

Lemma running_commit xs p x : running (commit_ids xs p) x <-> running p x /\ x ∉ xs.
Proof. clear top. unfold running. simpl. rewrite not_elem_of_app. tauto. Qed.
Lemma running_abort xs p x : running (abort_ids xs p) x <-> running p x /\ x ∉ xs.
Proof. clear top. unfold running. simpl. rewrite not_elem_of_app. tauto. Qed.
Lemma running_lose xs p x : running (lose_ids xs p) x <-> running p x /\ x ∉ xs.
Proof. clear top. unfold running. simpl. rewrite not_elem_of_app. tauto. Qed.

Lemma running_assign p x : primary_ok p -> rank (p_next p) <= 0x7fffffe0 -> running (assign_next p) x <-> running p x \/ x = p_next p.
Proof.
  intros [[Hn _] _ Hpast] Hr. unfold running. simpl.
  assert (p_next p ∉ p_committed p ++ p_aborted p ++ p_lost p) as Hnew by (intros Hin; specialize (Hpast _ Hin Hn); lia).
  rewrite !not_elem_of_app in Hnew. split.
  - intros (Hx & Hlt & Hrest). apply (advance_rank lo) in Hlt; [|done|lia|done].
    destruct (decide (rank x = rank (p_next p))) as [E0|]; [right|left; split_and!; try apply Hrest; (done || lia)].
    apply (rank_inj lo); [apply Hx|apply Hn|done].
  - intros [(Hx & Hlt & Hrest)| ->]; split_and!; try done; try apply Hrest; try apply Hnew; apply (advance_rank lo); (done || lia).
Qed.

Lemma ended_ok p p' ids : primary_ok p -> p_next p' = p_next p -> Forall (running p) ids ->
  (forall x, running p' x <-> running p x /\ x ∉ ids) ->
  (forall x, x ∈ p_committed p' ++ p_aborted p' ++ p_lost p' -> x ∈ ids \/ x ∈ p_committed p ++ p_aborted p ++ p_lost p) ->
  (forall y, running p y -> top y ∈ ids -> y ∈ ids) -> primary_ok p'.
Proof.
  intros [H1 H2 H3] En Hids Hrun Hpast Htree. rewrite Forall_forall in Hids. split; rewrite ?En; [done|..].
  - intros x [Hx Hn]%Hrun. apply Hrun. split; [by apply H2|]. intros Hin. by apply Hn, Htree.
  - intros x [Hin|Hin]%Hpast Hu; [by apply Hids in Hin as (_ & ? & _)|auto].
Qed.

Lemma commits_closed p x xs : commits p x xs -> (forall y, running p y -> running p (top y)) -> (forall y, in_use y -> top (top y) = top y) ->
  forall y, running p y -> top y ∈ x :: xs -> y ∈ x :: xs.
Proof.
  intros [_ Hall] Htree Htop2 y Hy Hin. apply Hall; [done|]. rewrite <- (Htop2 y) by apply Hy. apply Hall; [by apply Htree|done].
Qed.

Ltac listed := simpl; set_unfold; tauto.

Lemma commit_primary p x xs : (forall y, in_use y -> top (top y) = top y) -> primary_ok p -> commits p x xs ->
  primary_ok (commit_ids (x :: xs) p).
Proof.
  intros Htop2 Hp Hc. apply (ended_ok p _ (x :: xs)); [done|done|apply Hc|apply running_commit|intros y; listed|].
  apply (commits_closed p); [done|apply Hp|done].
Qed.

Lemma abort_primary p x xs : primary_ok p -> aborts p x xs -> primary_ok (abort_ids (x :: xs) p).
Proof. intros Hp Hc. apply (ended_ok p _ (x :: xs)); [done|done|apply Hc|apply running_abort|intros y; listed|apply Hc]. Qed.

Lemma lose_primary p lost gxacts : primary_ok p -> Forall (running p) lost -> prepared_left (lose_ids lost p) gxacts ->
  primary_ok (lose_ids lost p).
Proof.
  intros Hp Hl Hleft.
  apply (ended_ok p _ lost); try done; [apply running_lose|intros y; listed|]. intros y Hy Hin.
  destruct (decide (y ∈ lost)) as [|Hn]; [done|]. destruct (pl_running _ _ Hleft y) as (t & xs & Hg & Hyt); [by apply running_lose|].
  destruct (pl_trees _ _ Hleft t xs Hg) as (Ht & Htt & Hxs). rewrite Forall_forall in Hxs.
  assert (top y = t) as E0 by (apply elem_of_cons in Hyt as [->|Hyt]; [done|by apply Hxs]).
  apply running_lose in Ht as [_ Ht]. by rewrite E0 in Hin.
Qed.

Lemma prepared_log l xs p gxacts : prepared_left (lose_ids xs p) gxacts -> prepared_left (lose_ids xs (log_ids l p)) gxacts.
Proof.
  intros [L1 L2]. split; [exact L1|]. intros t ys Hg. destruct (L2 t ys Hg) as (T1 & T2 & T3).
  split_and!; [done..|]. eapply Forall_impl; [exact T3|]. intros y (Y1 & Y2 & Y3 & Y4). split_and!; try done.
  simpl in *. apply elem_of_app. by right.
Qed.

Lemma step_primary_ok p o p' : (forall y, in_use y -> top (top y) = top y) -> primary_ok p -> primary_step p o p' -> primary_ok p'.
Proof.
  intros Htop2 Hp Hs. pose proof Hp as [H1 H2 H3].
  destruct Hs as [p Ht Hr|p xid parsed x lsn origin Hh Hc|p xid parsed x lsn origin Hh Hc|p xid parsed x Hh Hc|p xid parsed x Hh Hc|
    | | |p lost gxacts next En Hl Hleft| | | | | | | |]; try (by repeat apply log_ok).
  - split; simpl.
    + pose proof (advance_rank_le lo (p_next p) (proj1 H1)). split; [apply (advance_rank lo (p_next p) (p_next p)); (done || apply H1 || lia)|lia].
    + intros x [Hx| ->]%running_assign; try done; apply running_assign; try done; [left; auto|]. destruct Ht; auto.
    + intros x Hin Hu. specialize (H3 x Hin Hu). apply (advance_rank lo); (done || apply H1 || lia).
  - apply commit_primary; [done|by apply log_ok|done].
  - apply commit_primary; [done|by apply log_ok|done].
  - apply abort_primary; [by apply log_ok|done].
  - apply abort_primary; [by apply log_ok|done].
  - apply lose_primary with gxacts; [by apply log_ok|done|by apply prepared_log].
Qed.
End primary.

(** ** The standby follows *)

Section follow.
Context {L E LM : Type} `{Logs : RecoveryLogs L E} `{Locks : LockManager LM}.
Context (lo : Z) `{!RecoveryLogsLaws lo L E}.
Context (top : Z -> Z) (Htop : topmost_ok lo top) (Htop2 : forall x, in_use lo x -> top (top x) = top x).

Abbreviation rank := (xid_rank lo).
Abbreviation in_use := (in_use lo).
Abbreviation State := (Standby L LM).
Abbreviation goes_on := (goes_on lo).
Abbreviation running := (running lo).
Implicit Types (s : State) (p : Primary).

Definition lost p (x : Z) : Prop := x ∈ p_lost p.

(** The state of a standby that has replayed what [p] logged. *)
Record follows p s : Prop := {
  fo_ok : primary_ok lo top p;
  fo_tracking : tracking lo top (lost p) s;
  fo_enabled : standbyState s <> STANDBY_DISABLED;
  fo_committed : forall x, in_use x -> committed (lo := lo) (sb_logs s) x = true <-> x ∈ p_committed p;
  fo_aborted : forall x, in_use x -> aborted (lo := lo) (sb_logs s) x = true <-> x ∈ p_aborted p;
  fo_next : rank (obs s) < rank (p_next p);
  fo_logged : forall x, x ∈ p_logged p -> in_use x -> rank x <= rank (obs s);
}.

Lemma follows_ended p s x : follows p s -> in_use x -> ended lo s x <-> x ∈ p_committed p \/ x ∈ p_aborted p.
Proof. intros Hf Hx. unfold ended. by rewrite (fo_committed _ _ Hf), (fo_aborted _ _ Hf). Qed.

Lemma follows_alive p s x : follows p s -> in_use x -> rank x < rank (p_next p) -> alive lo (lost p) s x <-> running p x.
Proof. intros Hf Hx Hr. unfold alive, lost, StandbyReplay.running. rewrite (follows_ended _ _ _ Hf Hx). tauto. Qed.

Lemma follows_newcomers p s xid : follows p s -> rank xid < rank (p_next p) -> newcomers lo top (lost p) s xid.
Proof.
  intros Hf Hx y Hy Hr Hn. assert (running p y) as Hrun.
  { apply (follows_alive p s); [done|done|lia|]. split; [|done]. apply (tr_future _ _ _ _ (fo_tracking _ _ Hf)); [done|lia]. }
  apply (po_tree _ _ _ (fo_ok _ _ Hf)) in Hrun as Ht. pose proof Ht as (Htu & Htr & _). by apply (follows_alive p s).
Qed.

Lemma running_bound p s x : follows p s -> running p x -> in_use x /\ rank x < 0x7ffffff0.
Proof. intros Hf (Hx & Hr & _). split; [done|]. pose proof (proj2 (po_next _ _ _ (fo_ok _ _ Hf))). lia. Qed.

(** A step that changes no fate. *)
Lemma follows_kept p s s' xs : follows p s -> tracking lo top (lost p) s' ->
  (forall y, in_use y -> committed (lo := lo) (sb_logs s') y = committed (lo := lo) (sb_logs s) y /\
     aborted (lo := lo) (sb_logs s') y = aborted (lo := lo) (sb_logs s) y) ->
  standbyState s' <> STANDBY_DISABLED -> rank (obs s) <= rank (obs s') < rank (p_next p) ->
  (forall x, x ∈ xs -> in_use x -> rank x <= rank (obs s')) -> follows (log_ids xs p) s'.
Proof.
  intros [F1 F2 F3 F4 F5 F6 F7] Ht Hfate Hst Ho Hxs. split; [by apply log_ok|done|done|..]; simpl.
  - intros x Hx. destruct (Hfate x Hx) as [-> _]. by apply F4.
  - intros x Hx. destruct (Hfate x Hx) as [_ ->]. by apply F5.
  - lia.
  - intros x [Hin|Hin]%elem_of_app Hx; [auto|]. specialize (F7 x Hin Hx). lia.
Qed.

(** One or more records later. *)
Record onward p s s' : Prop := {
  on_follows : follows p s';
  on_ready : standbyState s = STANDBY_SNAPSHOT_READY -> standbyState s' = STANDBY_SNAPSHOT_READY;
  on_parents : parents_kept lo s s';
}.

Lemma onward_trans p1 p2 s1 s2 s3 : onward p1 s1 s2 -> onward p2 s2 s3 -> onward p2 s1 s3.
Proof. intros [A1 A2 A3] [B1 B2 B3]. split; [done|auto|by eapply parents_kept_trans]. Qed.

Lemma onward_refl p s : follows p s -> onward p s s.
Proof. by split. Qed.

Lemma onward_intro p s s' : follows p s' -> standbyState s' = standbyState s -> parents_kept lo s s' -> onward p s s'.
Proof. intros Hf Es Hp. split; [done|by rewrite Es|done]. Qed.

Lemma record_follows env p xid s : follows p s -> running p xid ->
  wp (RecordKnownAssignedTransactionIds env xid) (goes_on (fun _ s' => onward (log_ids [xid] p) s s')) s.
Proof.
  intros Hf Hx. destruct (running_bound _ _ _ Hf Hx) as [Hu Hb]. pose proof Hx as (_ & Hr & _). pose proof (fo_next _ _ Hf) as Hn.
  eapply wp_mono; [|eapply record_known_spec; [exact Htop|apply (fo_tracking _ _ Hf)|exact Hu|exact Hb|by apply follows_newcomers]].
  intros [e|[]] s'; unfold StandbyTracking.goes_on; [done|]. intros Hrec.
  pose proof (recorded_parents _ _ _ _ _ _ (fo_tracking _ _ Hf) Hrec) as Hpk. destruct Hrec as [R1 R2 R3 _ [R5 _] _ _].
  apply onward_intro; [|done|done].
  apply (follows_kept p s); [done|done|done|rewrite R5; apply (fo_enabled _ _ Hf)|lia|].
  intros x ->%list_elem_of_singleton _. lia.
Qed.

(** The id in the header. *)
Lemma header_follows env p xid s : follows p s -> header lo p xid ->
  wp (pwhen (negb (bool_decide (standbyState s = STANDBY_DISABLED)) && TransactionIdIsValid xid)
        (RecordKnownAssignedTransactionIds env xid))
    (goes_on (fun _ s' => onward (log_ids [xid] p) s s')) s.
Proof.
  intros Hf Hh. rewrite bool_decide_eq_false_2 by apply (fo_enabled _ _ Hf).
  destruct Hh as [->|Hx]; simpl.
  - apply wp_ret, onward_intro; [|done|done]. pose proof (fo_next _ _ Hf) as Hn.
    apply (follows_kept p s); [done|apply Hf|done|apply Hf|lia|].
    intros x ->%list_elem_of_singleton Hx. by apply in_use_valid in Hx.
  - rewrite (in_use_valid lo) by apply Hx. by apply record_follows.
Qed.

Lemma follows_same p s s' : follows p s -> same_view lo s s' -> follows p s'.
Proof.
  intros Hf Hs. pose proof (same_tracking lo top Htop _ _ _ (fo_tracking _ _ Hf) Hs) as Ht.
  split; [apply Hf|done|rewrite (sm_state _ _ _ Hs); apply Hf|..].
  - intros x Hx. destruct (sm_logs _ _ _ Hs x Hx) as (-> & _). by apply Hf.
  - intros x Hx. destruct (sm_logs _ _ _ Hs x Hx) as (_ & -> & _). by apply Hf.
  - rewrite (sm_obs _ _ _ Hs). apply (fo_next _ _ Hf).
  - rewrite (sm_obs _ _ _ Hs). apply (fo_logged _ _ Hf).
Qed.

Lemma onward_same p s s' : follows p s -> same_view lo s s' -> onward p s s'.
Proof.
  intros Hf Hs. apply onward_intro; [by eapply follows_same|apply (sm_state _ _ _ Hs)|].
  intros y Hy _. by destruct (sm_logs _ _ _ Hs y Hy) as (_ & _ & ->).
Qed.

Lemma apply_follows env p xid r s Q : follows p s -> header lo p xid ->
  (forall s', onward (log_ids [xid] p) s s' -> wp (rm_redo env xid r) (goes_on Q) s') ->
  wp (ApplyWalRecord env xid r) (goes_on Q) s.
Proof.
  intros Hf Hh Hr. unfold ApplyWalRecord. apply wp_bind, wp_mod, wp_bind, wp_get. cbv beta iota.
  pose proof (onward_same p s _ Hf (same_next lo xid s)) as Hon0.
  eapply wp_go_bind; [apply header_follows; [apply Hon0|done]|]. intros [] s' Hon. apply Hr. by eapply onward_trans.
Qed.

(** *** Transaction ends *)

Lemma ids_bound p s x xs : follows p s -> Forall (running p) (x :: xs) ->
  Forall (fun y => in_use y /\ rank y < 0x7ffffff0) (x :: xs) /\ rank (TransactionIdLatest x xs) < rank (p_next p) /\
  (forall y, y ∈ x :: xs -> rank y <= rank (TransactionIdLatest x xs)).
Proof.
  intros Hf Hrun. assert (Forall (fun y => in_use y /\ rank y < 0x7ffffff0) (x :: xs)) as Hids.
  { eapply Forall_impl; [exact Hrun|]. intros y Hy. by apply (running_bound p s). }
  split; [done|]. destruct (latest_in_use _ _ _ Hids) as (Hu & _ & _ & Hmax). split; [|done].
  destruct (latest_rank lo x xs Hu) as [Hin _]. rewrite Forall_forall in Hrun. by destruct (Hrun _ Hin) as (_ & ? & _).
Qed.

Lemma commit_follows env p parsed x lsn origin s : follows p s -> commits lo top p x (subxacts parsed) ->
  wp (xact_redo_commit env parsed x lsn origin)
    (goes_on (fun _ s' => onward (commit_ids (x :: subxacts parsed) p) s s' /\
       forall y, y ∈ x :: subxacts parsed -> rank y <= rank (latest (sb_pa s')))) s.
Proof.
  intros Hf Hc. pose proof Hc as [Hrun Hall]. destruct (ids_bound _ _ _ _ Hf Hrun) as (Hids & Hlt & Hmax).
  pose proof (proj1 (Forall_forall _ _) Hrun) as Hrun'. pose proof (fo_next _ _ Hf) as Hn.
  eapply wp_mono; [|eapply (redo_commit_spec lo top Htop Htop2); [apply (fo_tracking _ _ Hf)|apply (fo_enabled _ _ Hf)|]].
  - intros [e|[]] s'; unfold StandbyTracking.goes_on; [done|]. intros [C1 C2 C3 C4 C5 C6 C7]. split; [|done].
    apply onward_intro; [|done|done]. split; cbn [commit_ids p_next p_logged p_committed p_aborted]; [|exact C1|rewrite C6; apply (fo_enabled _ _ Hf)|..].
    + apply commit_primary; [done|apply Hf|done].
    + intros y Hy. rewrite C2, orb_true_iff, bool_decide_eq_true, (fo_committed _ _ Hf) by done. set_unfold. tauto.
    + intros y Hy. rewrite C3 by done. by apply (fo_aborted _ _ Hf).
    + rewrite C5. lia.
    + intros y [Hin|Hin]%elem_of_app Hy; rewrite C5; [specialize (Hmax y Hin); lia|]. pose proof (fo_logged _ _ Hf y Hin Hy). lia.
  - split; [done| | | |by apply follows_newcomers].
    + apply Forall_forall. intros y Hy. destruct (Hrun' y Hy) as (Hu & Hr & _). apply follows_alive; auto.
    + intros y Hy. apply Hall; auto.
    + intros y Hy Hr Ha Ht. apply Hall; [|done]. apply (follows_alive p s); [done|done|lia|done].
Qed.

Lemma abort_follows env p parsed x s : follows p s -> aborts lo top p x (subxacts parsed) ->
  wp (xact_redo_abort env parsed x)
    (goes_on (fun _ s' => onward (abort_ids (x :: subxacts parsed) p) s s')) s.
Proof.
  intros Hf Hc. pose proof Hc as [Hrun Hall]. destruct (ids_bound _ _ _ _ Hf Hrun) as (Hids & Hlt & Hmax).
  pose proof (proj1 (Forall_forall _ _) Hrun) as Hrun'. pose proof (fo_next _ _ Hf) as Hn.
  eapply wp_mono; [|eapply (redo_abort_spec lo top Htop); [apply (fo_tracking _ _ Hf)|apply (fo_enabled _ _ Hf)|]].
  - intros [e|[]] s'; unfold StandbyTracking.goes_on; [done|]. intros [C1 C2 C3 C5 C6 C7].
    apply onward_intro; [|done|done]. split; cbn [abort_ids p_next p_logged p_committed p_aborted]; [|exact C1|rewrite C6; apply (fo_enabled _ _ Hf)|..].
    + apply abort_primary; [apply Hf|done].
    + intros y Hy. rewrite C2 by done. by apply (fo_committed _ _ Hf).
    + intros y Hy. rewrite C3, orb_true_iff, bool_decide_eq_true, (fo_aborted _ _ Hf) by done. set_unfold. tauto.
    + rewrite C5. lia.
    + intros y [Hin|Hin]%elem_of_app Hy; rewrite C5; [specialize (Hmax y Hin); lia|]. pose proof (fo_logged _ _ Hf y Hin Hy). lia.
  - split; [done| | |by apply follows_newcomers].
    + apply Forall_forall. intros y Hy. destruct (Hrun' y Hy) as (Hu & Hr & Hnc & _).
      apply not_true_iff_false. by rewrite (fo_committed _ _ Hf).
    + intros y Hy Hr Ha Ht. apply Hall; [|done]. apply (follows_alive p s); [done|done|lia|done].
Qed.

Lemma assignment_follows env p t xs s : follows p s -> assigns lo top p t xs ->
  wp (ProcArrayApplyXidAssignment env t xs)
    (goes_on (fun _ s' => onward (log_ids (t :: xs) p) s s')) s.
Proof.
  intros Hf [Hrun Hall]. destruct (ids_bound _ _ _ _ Hf Hrun) as (Hids & Hlt & Hmax). pose proof (fo_next _ _ Hf) as Hn.
  eapply wp_mono; [|eapply (assignment_spec lo top Htop); [apply (fo_tracking _ _ Hf)|]].
  - intros [e|[]] s'; unfold StandbyTracking.goes_on; [done|]. intros [C1 C2 C3 C4 C5]. apply onward_intro; [|done|done].
    apply (follows_kept p s); [done..|rewrite C4; apply (fo_enabled _ _ Hf)|lia|].
    intros y Hy _. specialize (Hmax y Hy). lia.
  - split; [done|done|by apply follows_newcomers].
Qed.

(** *** Running-transactions data *)

(** What the data handed to [ProcArrayApplyRecoveryInfo] say is true of the
    primary. *)
Record tells p s (r : RunningTransactionsData) (xids : list Z) : Prop := {
  te_xids : xids = take (Z.to_nat (xcnt r + subxcnt r)) (run_xids r);
  te_next : run_nextXid r = p_next p;
  te_ids : Forall (fun x => in_use x /\ rank x < rank (p_next p)) xids;
  te_oldest : in_use (oldestRunningXid r) /\ rank (oldestRunningXid r) <= rank (p_next p);
  te_oldest_le : forall x, running p x -> rank (oldestRunningXid r) <= rank x;
  te_completed : in_use (run_latestCompletedXid r) /\ rank (run_latestCompletedXid r) < rank (p_next p);
  te_complete : forall x, running p x -> x ∈ xids \/ top x <> x /\
    match subxid_status r with
    | SUBXIDS_IN_ARRAY => False
    | SUBXIDS_MISSING => True
    | SUBXIDS_IN_SUBTRANS => parent lo s x = top x
    end;
}.

Lemma running_follows env p r xids s : follows p s -> tells p s r xids ->
  wp (ProcArrayApplyRecoveryInfo env r)
    (goes_on (fun _ s' => onward p s s' /\ machinery_up (standbyState s') = true /\
       (subxid_status r <> SUBXIDS_MISSING -> standbyState s' = STANDBY_SNAPSHOT_READY))) s.
Proof.
  intros Hf [T1 T2 T3 [T4 T4'] T5 T6 T7]. pose proof (fo_tracking _ _ Hf) as Ht. pose proof (fo_next _ _ Hf) as Hn.
  destruct (po_next _ _ _ (fo_ok _ _ Hf)) as [Hnu Hnm].
  assert (forall x, in_use x -> rank x < rank (oldestRunningXid r) -> ~ alive lo (lost p) s x) as Hnone.
  { intros x Hx Hr Ha. apply (follows_alive p s) in Ha; [|done|done|lia]. apply T5 in Ha. lia. }
  assert (forall x, in_use x -> revealed lo (lost p) (oldestRunningXid r) s x -> ended lo s x \/ lost p x) as Hrev.
  { intros x Hx [?|[Hr Hne]]; [by right|]. destruct (decide (x ∈ p_lost p)); [by right|]. by destruct (Hnone x Hx Hr). }
  assert (forall x, in_use x -> rank x < rank (p_next p) -> alive lo (revealed lo (lost p) (oldestRunningXid r) s) s x <-> running p x) as Hal.
  { intros x Hx Hr. rewrite alive_revealed, (follows_alive p s) by done. split; [tauto|]. intros Hrun. split; [done|by apply T5]. }
  pose proof (po_tree _ _ _ (fo_ok _ _ Hf)) as Htree.
  eapply wp_mono; [|eapply (apply_running_spec lo top Htop env (lost p) r xids); [exact Ht|by apply (revealed_gone lo top Htop)|]].
  - intros [e|[]] s'; unfold StandbyTracking.goes_on; [done|]. intros [A1 A2 A3 A4 A5 A6]. rewrite T2 in A4.
    split; [split; [|by auto|]|by auto].
    2:{ intros y Hy Hp. apply A3; [done|]. apply Z.nlt_ge. intros Hlt. by destruct (tr_future _ _ _ _ Ht y Hy Hlt). }
    assert (forall x, in_use x -> ended lo s' x <-> ended lo s x) as He.
    { intros x Hx. unfold ended. by destruct (A2 x Hx) as [-> ->]. }
    enough (follows (log_ids [] p) s') as Hq by (by destruct p).
    apply (follows_kept p s s' []); [done| |done|by intros Hst; rewrite Hst in A5|lia|by intros x ?%elem_of_nil].
    apply (tracking_gone lo top _ _ _ A1).
    + intros x Hx Hg. rewrite He by done. by apply Hrev.
    + intros x Hx Hr. unfold alive. rewrite !He by (done || by apply (top_in_use _ _ Htop)).
      assert (rank x < rank (p_next p)) as Hxn by lia. change (alive lo (lost p) s x -> alive lo (lost p) s (top x)).
      rewrite (follows_alive p s x) by done. intros Hrun%Htree. pose proof Hrun as (? & ? & _). by apply (follows_alive p s).
  - split; rewrite ?T2; try done.
    + intros x Hx Hr. rewrite Hal by done. intros Hrun%Htree. pose proof Hrun as (? & ? & _). by apply Hal.
    + intros x Hx Hr Ha. apply Hal in Ha; [|done..]. by apply T7.
Qed.

(** *** Locks *)

Lemma acquire_same key s : logs_ok (lo := lo) (sb_logs s) -> TransactionIdIsValid (lock_xid key) = true -> in_use (lock_xid key) ->
  wp (acquire_lock key) (goes_on (fun _ s' => same_view lo s s')) s.
Proof.
  intros Hok Hv Hu. unfold acquire_lock. rewrite Hv. cbn [negb].
  eapply wp_go_bind; [apply wp_on_logs; intros l1 r1 E1; eapply law_did_commit in E1; [exact E1|done..]|].
  intros c s1 (l1 & -> & Hl1 & -> & Hv1). assert (same_view lo s (set_logs s l1)) as Hs1 by (by apply same_logs).
  destruct (committed _ _); [by apply wp_ret|].
  eapply wp_go_bind; [apply wp_on_logs; intros l2 r2 E2; eapply law_did_abort in E2; [exact E2|done..]|].
  intros a s2 (l2 & -> & Hl2 & -> & Hv2). apply wp_mod. unfold StandbyTracking.goes_on.
  eapply same_trans; [exact Hs1|]. eapply same_trans; [by apply same_logs|apply same_locks].
Qed.

Lemma acquire_locks_follows p locks : forall s, follows p s -> Forall (fun k => header lo p (lock_xid k)) locks ->
  wp (acquire_locks locks) (goes_on (fun _ s' => onward p s s')) s.
Proof.
  induction locks as [|key locks IH]; intros s Hf Hl; cbn [acquire_locks]; [by apply wp_ret, onward_refl|].
  apply Forall_cons in Hl as [Hk Hl]. apply wp_go_bind with (P := fun _ s' => same_view lo s s').
  - destruct (TransactionIdIsValid (lock_xid key)) eqn:Hv.
    + destruct Hk as [E0|[Hu _]]; [by rewrite E0 in Hv|]. apply acquire_same; [apply (fo_tracking _ _ Hf)|done..].
    + unfold acquire_lock. rewrite Hv. apply wp_ret. by split.
  - intros [] s1 Hs1. eapply wp_mono; [|apply IH; [by eapply follows_same|done]].
    intros [e|[]] s'; unfold StandbyTracking.goes_on; [done|]. apply (onward_trans p). by apply onward_same.
Qed.

(** *** Shutdown checkpoints *)

Lemma lose_follows p xs gxacts s : follows p s -> Forall (running p) xs -> prepared_left lo top (lose_ids xs p) gxacts ->
  follows (lose_ids xs p) s.
Proof.
  intros Hf Hl Hleft. pose proof (lose_primary _ _ _ _ _ (fo_ok _ _ Hf) Hl Hleft) as Hp.
  split; [done| |apply (fo_enabled _ _ Hf)|apply (fo_committed _ _ Hf)|apply (fo_aborted _ _ Hf)|apply (fo_next _ _ Hf)|apply (fo_logged _ _ Hf)].
  assert (forall x, alive lo (lost (lose_ids xs p)) s x <-> alive lo (lost p) s x /\ x ∉ xs) as Hal.
  { intros x. unfold alive, lost. simpl. rewrite elem_of_app. tauto. }
  apply (tracking_gone lo top (lost p)); [apply (fo_tracking _ _ Hf)|intros x _ Hx; right; unfold lost in *; simpl; by apply elem_of_app; right|].
  intros x Hx Hr. rewrite !Hal. pose proof (fo_next _ _ Hf) as Hn. rewrite (follows_alive p s) by (done || lia).
  intros Hrun%running_lose%(po_tree _ _ _ Hp)%running_lose. pose proof Hrun as [(Hu & Hlt & _) _]. by rewrite (follows_alive p s).
Qed.

(** Linking children to their tops. *)
Lemma link_tracking gone t (xs : list Z) s l' : tracking lo top gone s -> logs_ok (lo := lo) l' ->
  (forall y, in_use y -> committed (lo := lo) l' y = committed (lo := lo) (sb_logs s) y /\
     aborted (lo := lo) l' y = aborted (lo := lo) (sb_logs s) y /\
     parent_of (lo := lo) l' y = if decide (y ∈ xs) then t else parent lo s y) ->
  (forall y, y ∈ xs -> in_use y /\ rank y <= rank (obs s) /\ top y = t /\ y <> t) ->
  tracking lo top gone (set_logs s l').
Proof.
  intros Ht Hok Hv Hxs. assert (forall y, in_use y -> ended lo (set_logs s l') y <-> ended lo s y) as He.
  { intros y Hy. unfold ended. simpl. by destruct (Hv y Hy) as (-> & -> & _). }
  assert (forall y, in_use y -> parent lo (set_logs s l') y = if decide (y ∈ xs) then t else parent lo s y) as Hpar by (intros y Hy; by apply Hv).
  assert (forall y, in_use y -> alive lo gone (set_logs s l') y <-> alive lo gone s y) as Hal by (intros y Hy; unfold alive; by rewrite He).
  assert (forall y, in_use y -> in_use (top y)) as Hu by apply (top_in_use _ _ Htop).
  split; try apply Ht; try done.
  - intros x Hx Hr. change (rank (obs s) < rank x) in Hr. rewrite He, Hpar by done. rewrite decide_False; [by apply (tr_future _ _ _ _ Ht)|].
    intros Hin%Hxs. lia.
  - intros x Hx. rewrite Hpar by done. case_decide as Hin; [|by apply (tr_parent _ _ _ _ Ht)]. destruct (Hxs x Hin) as (_ & _ & E1 & E2).
    intros _. split; congruence.
  - intros x Hx Hr. rewrite !Hal by auto. by apply (tr_tree _ _ _ _ Ht).
  - intros x Hx Hc. rewrite He by auto. apply (tr_committed _ _ _ _ Ht); [done|]. simpl in Hc. by destruct (Hv x Hx) as (<- & _).
  - intros x Hin. rewrite He; [by apply (tr_known _ _ _ _ Ht)|]. eapply ascending_use; [by apply known_ascending, (tr_array _ _ _ _ Ht)|exact Hin].
  - intros Hup x Hx Hr Ha. apply Hal in Ha; [|done]. destruct (tr_complete _ _ _ _ Ht Hup x Hx Hr Ha) as [Hk|[Hne Hk]]; [by left|right].
    split; [done|]. destruct Hk as [(E1 & Hov)|Hk]; [left; split; [|done]|by right]. rewrite Hpar by done. case_decide as Hin; [|done].
    symmetry. by apply Hxs.
Qed.

Definition linked s (t : Z) (xs : list Z) : Prop :=
  in_use t /\ Forall (fun y => in_use y /\ rank y <= rank (obs s) /\ top y = t /\ y <> t) xs.

Lemma recover_prepared_spec gone gxacts : forall s, tracking lo top gone s ->
  (forall t xs, (t, xs) ∈ gxacts -> linked s t xs) ->
  wp (StandbyRecoverPreparedTransactions gxacts) (goes_on (fun _ s' => exists l', s' = set_logs s l' /\ tracking lo top gone s' /\
    (forall y, in_use y -> committed (lo := lo) l' y = committed (lo := lo) (sb_logs s) y /\
       aborted (lo := lo) l' y = aborted (lo := lo) (sb_logs s) y) /\
    (forall y, in_use y -> parent lo s y = top y \/ (exists t xs, (t, xs) ∈ gxacts /\ y ∈ xs) -> parent lo s' y = top y))) s.
Proof.
  induction gxacts as [|[t xs] gxacts IH]; intros s Ht Hg; cbn [StandbyRecoverPreparedTransactions].
  - apply wp_ret. exists (sb_logs s). assert (set_logs s (sb_logs s) = s) as -> by (by destruct s). split_and!; [done..|].
    intros y _ [?|(t & xs & Hin & _)]; [done|]. by apply elem_of_nil in Hin.
  - destruct (Hg t xs ltac:(by left)) as [Htu Hxs].
    eapply wp_go_bind; [apply (set_parents_spec lo); [apply (tr_logs _ _ _ _ Ht)|done|]|].
    { eapply Forall_impl; [exact Hxs|]. by intros y [? _]. }
    intros [] s1 (l1 & -> & Hl1 & Hv1). rewrite Forall_forall in Hxs.
    pose proof (link_tracking gone t xs s l1 Ht Hl1 Hv1 Hxs) as Ht1.
    eapply wp_mono; [|apply IH; [exact Ht1|intros t' xs' Hin; apply Hg; by right]].
    intros [e|[]] s'; unfold StandbyTracking.goes_on; [done|]. intros (l2 & -> & Ht2 & Hf2 & Hp2). exists l2. split_and!; [done..| |].
    + intros y Hy. cbn [sb_logs set_logs] in Hf2. destruct (Hf2 y Hy) as [-> ->]. by destruct (Hv1 y Hy) as (-> & -> & _).
    + intros y Hy Hor. apply Hp2; [done|]. change (parent lo (set_logs s l1) y) with (parent_of (lo := lo) l1 y).
      destruct (Hv1 y Hy) as (_ & _ & ->). case_decide as Hin; [left; symmetry; by apply Hxs|].
      destruct Hor as [?|(t' & xs' & Hin' & Hy')]; [by left|]. apply elem_of_cons in Hin' as [[= -> ->]|Hin']; [done|right; eauto].
Qed.

Lemma advances_same xs : forall s, same_view lo s (foldl (fun s x => advance_next x s) s xs).
Proof. induction xs as [|x xs IH]; intros s; simpl; [by split|]. eapply same_trans; [apply same_next|apply IH]. Qed.

(** The oldest of the prepared transactions. *)
Lemma prescan_oldest (gxacts : list (Z * list Z)) : forall x, in_use x -> Forall (fun g => in_use g.1) gxacts ->
  let oldest := foldl (fun result g => if TransactionIdPrecedes g.1 result then g.1 else result) x gxacts in
  in_use oldest /\ rank oldest <= rank x /\ (forall g, g ∈ gxacts -> rank oldest <= rank g.1).
Proof.
  induction gxacts as [|g gxacts IH]; intros x Hx Hg; simpl.
  - split_and!; [done|lia|]. by intros g ?%elem_of_nil.
  - apply Forall_cons in Hg as [Hgu Hg]. rewrite (precedes_rank lo) by done.
    destruct (IH (if rank g.1 <? rank x then g.1 else x)) as (H1 & H2 & H3); [by case_match|done|]. split_and!; [done|..].
    + destruct (Z.ltb_spec (rank g.1) (rank x)); lia.
    + intros g' [->|Hin]%elem_of_cons; [|by apply H3]. destruct (Z.ltb_spec (rank g.1) (rank x)); lia.
Qed.

(** What a checkpoint says about multixacts. *)
Lemma multi_same m a b p s : m ∈ [log_set_next_multi; log_advance_next_multi; log_advance_oldest_multi] -> follows p s ->
  wp (on_logs (m a b)) (goes_on (fun _ s' => exists l', s' = set_logs s l' /\ onward p s s')) s.
Proof.
  intros Hm Hf. eapply wp_mono; [|apply wp_on_logs; intros l' r E1; eapply law_multi in E1; [exact E1|exact Hm|]].
  - intros [e|[]] s'; unfold StandbyTracking.goes_on; [done|]. intros (l' & -> & Hok & Hl). exists l'. split; [done|].
    by apply onward_same, same_logs.
  - apply (tr_logs _ _ _ _ (fo_tracking _ _ Hf)).
Qed.

Lemma transam_onward p f s : follows p s -> (forall tv, latestCompletedXid (f tv) = latestCompletedXid tv) ->
  wp (mod_transam f) (goes_on (fun _ s' => s' = set_pa s (set_transam (sb_pa s) (f (TransamVariables (sb_pa s)))) /\ onward p s s')) s.
Proof.
  intros Hf Hfl. apply wp_mod. split; [done|]. apply onward_same; [done|]. split; try done. unfold latest. simpl. by rewrite Hfl.
Qed.

Lemma counters_follow env p cp s : follows p s ->
  wp (believe_counters env cp)
    (goes_on (fun _ s' => onward p s s' /\ nextXid (TransamVariables (sb_pa s')) = ckpt_nextXid cp)) s.
Proof.
  intros Hf. unfold believe_counters. eapply wp_go_bind; [by apply (transam_onward p)|]. intros [] s1 [-> H1].
  eapply wp_go_bind; [eapply (multi_same _ _ _ p); [set_solver|apply H1]|]. intros [] s2 (l2 & -> & H2).
  eapply wp_go_bind; [eapply (multi_same _ _ _ p); [set_solver|apply H2]|]. intros [] s3 (l3 & -> & H3).
  eapply wp_mono; [|apply (transam_onward p); [apply H3|done]]. intros [e|[]] s4; unfold StandbyTracking.goes_on; [done|].
  intros [-> H4]. split; [|done]. eauto using onward_trans.
Qed.

Lemma online_follows env p cp s : follows p s -> wp (redo_online_checkpoint env cp) (goes_on (fun _ s' => onward p s s')) s.
Proof.
  intros Hf. unfold redo_online_checkpoint. eapply wp_go_bind; [apply (transam_onward p); [done|intros tv; by case_match]|]. intros [] s1 [_ H1].
  eapply wp_go_bind; [eapply (multi_same _ _ _ p); [set_solver|apply H1]|]. intros [] s2 (l2 & -> & H2).
  eapply wp_go_bind; [eapply (multi_same _ _ _ p); [set_solver|apply H2]|]. intros [] s3 (l3 & -> & H3).
  eapply wp_mono; [|apply (transam_onward p); [apply H3|intros tv; by case_match]]. intros [e|[]] s4; unfold StandbyTracking.goes_on; [done|].
  intros [_ H4]. eauto using onward_trans.
Qed.

Lemma checkpoint_follows env p gxacts cp s : follows p s -> XidFromFullTransactionId (ckpt_nextXid cp) = p_next p -> prepared_left lo top p gxacts ->
  wp (redo_shutdown_checkpoint env gxacts cp)
    (goes_on (fun _ s' => onward p s s' /\ standbyState s' = STANDBY_SNAPSHOT_READY)) s.
Proof.
  intros Hf En [Hleft Htrees]. unfold redo_shutdown_checkpoint.
  eapply wp_go_bind; [by apply (counters_follow env p)|]. intros [] s1 [Hs1 En1].
  apply wp_bind, wp_get. cbv beta iota. unfold id. rewrite decide_False by apply (fo_enabled _ _ (on_follows _ _ _ Hs1)).
  unfold PrescanPreparedTransactions. rewrite En1, En.
  set (oldest := foldl _ (p_next p) _). set (s2 := foldl _ s1 _).
  assert (onward p s s2) as Hon by (eapply onward_trans; [exact Hs1|]; apply onward_same; [apply Hs1|apply advances_same]).
  pose proof (on_follows _ _ _ Hon) as Hf2. clearbody s2. apply wp_bind, wp_mod. destruct (po_next _ _ _ (fo_ok _ _ Hf)) as [Hnu Hnm]. pose proof (fo_next _ _ Hf2) as Hn.
  destruct (prescan_oldest gxacts (p_next p) Hnu) as (O1 & O2 & O3).
  { apply Forall_forall. intros [t xs] Hin. by destruct (Htrees t xs Hin) as ((? & _) & _). }
  fold oldest in O1, O2, O3. clearbody oldest.
  eapply wp_go_bind; [apply (recover_prepared_spec (lost p)); [apply (fo_tracking _ _ Hf2)|]|].
  { intros t xs Hin. destruct (Htrees t xs Hin) as ((Htu & _) & _ & Hxs). split; [done|]. eapply Forall_impl; [exact Hxs|].
    intros y ((Hy & _) & Hlog & Et & Hne). split_and!; try done. by apply (fo_logged _ _ Hf2). }
  intros [] s3 (l3 & -> & Ht3 & Hfate & Hpar).
  assert (follows (log_ids [] p) (set_logs s2 l3)) as Hf3.
  { apply (follows_kept p s2); [done|done|exact Hfate|apply (fo_enabled _ _ Hf2)|unfold obs in *; simpl; lia|by intros x ?%elem_of_nil]. }
  assert (onward p s (set_logs s2 l3)) as Hon3.
  { eapply onward_trans; [exact Hon|]. apply onward_intro; [by destruct p|done|]. intros y Hy Hp.
    destruct (tr_parent _ _ _ _ (fo_tracking _ _ Hf2) y Hy Hp) as [E0 _]. rewrite E0. apply Hpar; auto. }
  pose proof (on_follows _ _ _ Hon3) as Hf3'. clear Hf3.
  eapply wp_mono; [|eapply (running_follows env p _ gxacts.*1); [exact Hf3'|]].
  - intros [e|[]] s'; unfold StandbyTracking.goes_on; [done|]. intros (H1 & _ & H2). split; [by eapply onward_trans|]. by apply H2.
  - destruct (tr_obs _ _ _ _ (fo_tracking _ _ Hf2)) as [Hou _]. split; simpl; rewrite ?En; try done.
    + unfold zlength. rewrite Z.add_0_r, Nat2Z.id. by rewrite firstn_all.
    + apply Forall_fmap, Forall_forall. intros [t xs] Hin. by destruct (Htrees t xs Hin) as ((? & ? & _) & _).
    + intros x Hx. destruct (Hleft x Hx) as (t & xs & Hin & Hxt). specialize (O3 _ Hin). simpl in O3.
      destruct (Htrees t xs Hin) as (_ & Htt & Hxs). rewrite Forall_forall in Hxs.
      assert (top x = t) as E0 by (apply elem_of_cons in Hxt as [->|Hxt]; [done|by apply Hxs]).
      pose proof (top_le _ _ Htop x (proj1 Hx)). rewrite E0 in *. lia.
    + pose proof (retreat_rank lo (p_next p) (TransactionIdRetreat (p_next p)) (obs s2) Hnu Hou Hn) as Hret.
      destruct (retreat_rank lo (p_next p) (obs s2) (obs s2) Hnu Hou Hn Hou) as [Hru _]. split; [done|]. by apply (Hret Hru).
    + intros x Hx. destruct (Hleft x Hx) as (t & xs & Hin & Hxt). destruct (Htrees t xs Hin) as (_ & Htt & Hxs). rewrite Forall_forall in Hxs.
      apply elem_of_cons in Hxt as [->|Hxt]; [left; by apply (list_elem_of_fmap_2' fst gxacts (t, xs))|right].
      destruct (Hxs x Hxt) as (_ & _ & Et & Hne). split; [congruence|]. apply Hpar; [apply Hx|right; eauto].
Qed.

(** *** Records of the logs *)

(** The first id of a page comes before the others in use. *)
Lemma opened_page x y : in_use x -> in_use y -> opens_page x = true -> TransactionIdToPage y = TransactionIdToPage x -> rank x <= rank y.
Proof.
  intros (Hxu & Hxn & Hxr) (Hyu & Hyn & Hyr). unfold opens_page, TransactionIdToPgIndex, TransactionIdToPage, CLOG_XACTS_PER_PAGE,
    CLOG_XACTS_PER_BYTE, Slru.BLCKSZ, xid_rank, TransactionIdIsNormal, FirstNormalTransactionId, is_u32 in *. unfold u32 in *. lia.
Qed.

(** Ids that the primary has not assigned have no fate on the standby. *)
Lemma unassigned_undecided p s y : follows p s -> in_use y -> rank (p_next p) <= rank y ->
  committed (lo := lo) (sb_logs s) y = false /\ aborted (lo := lo) (sb_logs s) y = false.
Proof.
  intros Hf Hy Hr. pose proof (po_past _ _ _ (fo_ok _ _ Hf) y) as Hpast. rewrite !elem_of_app in Hpast.
  split; apply not_true_iff_false; rewrite ?(fo_committed _ _ Hf), ?(fo_aborted _ _ Hf) by done; intros Hin; specialize (Hpast ltac:(tauto) Hy); lia.
Qed.

(** What only the logs see. *)
Lemma logs_onward {A} (m : prog L E A) p s : follows p s ->
  (forall l' r, m (sb_logs s) = (l', r) ->
    match r with
    | inl e => log_fault e
    | inr _ => logs_ok (lo := lo) l' /\
        (forall y, in_use y -> committed (lo := lo) l' y = committed (lo := lo) (sb_logs s) y /\
           aborted (lo := lo) l' y = aborted (lo := lo) (sb_logs s) y /\ parent_of (lo := lo) l' y = parent_of (lo := lo) (sb_logs s) y)
    end) ->
  wp (on_logs m) (goes_on (fun _ s' => onward p s s')) s.
Proof.
  intros Hf Hm. eapply wp_mono; [|apply wp_on_logs; intros l' r E1; specialize (Hm l' r E1); exact Hm]. intros [e|a] s'; unfold StandbyTracking.goes_on; [done|].
  intros (l' & -> & Hok & Hl). by apply onward_same, same_logs.
Qed.

Lemma clog_zero_follows p s : follows p s -> opens_page (p_next p) = true ->
  wp (redo_clog (CLOG_ZEROPAGE (TransactionIdToPage (p_next p)))) (goes_on (fun _ s' => onward p s s')) s.
Proof.
  intros Hf Ho. destruct (po_next _ _ _ (fo_ok _ _ Hf)) as [Hnu _]. unfold redo_clog. apply wp_bind, wp_ret. apply logs_onward; [done|]. intros l' r E1.
  eapply law_clog_zero in E1; [exact E1|apply (tr_logs _ _ _ _ (fo_tracking _ _ Hf))|apply TransactionIdToPage_nonneg; apply Hnu|].
  intros y Hy Hp. apply (unassigned_undecided p s); [done|done|by apply opened_page].
Qed.

Lemma clog_truncate_follows p oldest db s : follows p s -> clog_cutoff lo p oldest ->
  wp (redo_clog (CLOG_TRUNCATE (TransactionIdToPage oldest) oldest db)) (goes_on (fun _ s' => onward p s s')) s.
Proof.
  intros Hf (Hu & Hn & Hc). unfold redo_clog. eapply wp_go_bind; [apply (transam_onward p); [done|]|].
  { intros tv. unfold AdvanceOldestClogXid. by case_match. }
  intros [] s1 [-> H1]. eapply wp_mono; [|apply (logs_onward _ p); [apply H1|]].
  - intros [e|[]] s'; unfold StandbyTracking.goes_on; [done|]. by apply onward_trans with p.
  - intros l' r E1. eapply law_clog_truncate in E1; [exact E1|apply (tr_logs _ _ _ _ (fo_tracking _ _ Hf))|done|done|].
    intros y Hy Hp. apply (unassigned_undecided p s); [done|done|]. apply Z.nlt_ge. intros Hlt. rewrite Hc in Hp by done. done.
Qed.

Lemma multixact_follows p xid record s : follows p s -> wp (redo_multixact xid record) (goes_on (fun _ s' => onward p s s')) s.
Proof.
  intros Hf. unfold redo_multixact. eapply wp_go_bind; [apply (logs_onward _ p s Hf)|].
  - intros l' r E1. eapply law_multixact_redo in E1; [exact E1|apply (tr_logs _ _ _ _ (fo_tracking _ _ Hf))].
  - intros [x|] s1 H1; [|by apply wp_ret]. apply wp_mod. unfold StandbyTracking.goes_on.
    eapply onward_trans; [exact H1|]. apply onward_same; [apply H1|apply same_next].
Qed.

Lemma parameter_follows p new old s : follows p s -> wp (redo_parameter_change new old) (goes_on (fun _ s' => onward p s s')) s.
Proof.
  intros Hf. unfold redo_parameter_change. apply wp_bind, wp_get. cbv beta iota. apply logs_onward; [done|]. intros l' r E1.
  eapply law_commit_ts_parameter in E1; [exact E1|apply (tr_logs _ _ _ _ (fo_tracking _ _ Hf))].
Qed.

(** *** One step of the primary *)

Lemma assign_follows p s : follows p s -> primary_step lo top p None (assign_next p) -> follows (assign_next p) s.
Proof.
  intros Hf Hs. pose proof (step_primary_ok _ _ _ _ _ Htop2 (fo_ok _ _ Hf) Hs) as Hp. inversion Hs as [? _ Hr| | | | | | | | | | | | | | | |]; subst.
  destruct (po_next _ _ _ (fo_ok _ _ Hf)) as [Hnu _]. destruct (tr_obs _ _ _ _ (fo_tracking _ _ Hf)) as [Hou _].
  split; [done|apply (fo_tracking _ _ Hf)|apply (fo_enabled _ _ Hf)|apply (fo_committed _ _ Hf)|apply (fo_aborted _ _ Hf)| |apply (fo_logged _ _ Hf)].
  pose proof (fo_next _ _ Hf). simpl. apply (advance_rank lo); (done || lia).
Qed.

Lemma enabled_redo {A} (m1 m2 : prog State (StandbyError E) A) Q s : standbyState s <> STANDBY_DISABLED ->
  wp m2 Q s -> wp (st <- pget standbyState ;; if decide (st = STANDBY_DISABLED) then m1 else m2)%prog Q s.
Proof. intros Hs Hm. apply wp_bind, wp_get. cbv beta iota. by rewrite decide_False. Qed.

Lemma describes_tells l p s r xids : describes lo top p r xids -> tells (log_ids l p) s (running_of r) xids.
Proof.
  intros [D1 D2 D3 D4 D5 D6 D7]. split; try done. simpl. intros x Hx. destruct (D7 x Hx) as [?|[Hne ->]]; auto.
Qed.

Lemma step_follows env p xid r p' s : follows p s -> primary_step lo top p (Some (xid, r)) p' ->
  wp (ApplyWalRecord env xid r) (goes_on (fun _ s' => onward p' s s')) s.
Proof.
  intros Hf Hs. assert (header lo p xid) as Hh by (inversion Hs; subst; (done || by left)).
  apply (apply_follows env p); [done..|]. intros s1 Hon. pose proof (on_follows _ _ _ Hon) as Hf1.
  pose proof (fo_enabled _ _ Hf1) as Hst.
  assert (forall (m : prog State (StandbyError E) unit) p2, wp m (goes_on (fun _ s' => onward p2 s1 s')) s1 -> wp m (goes_on (fun _ s' => onward p2 s s')) s1) as Hgo.
  { intros m p2. apply wp_mono. intros [e|[]] s'; unfold StandbyTracking.goes_on; [done|]. by apply onward_trans with (log_ids [xid] p). }
  apply Hgo. inversion Hs; subst; cbn [rm_redo xlog_redo xact_redo standby_redo].
  1,2: eapply wp_mono; [|by apply commit_follows]; intros [e|[]] s'; unfold StandbyTracking.goes_on; [done|]; by intros [? _].
  1,2: by apply abort_follows.
  - by apply enabled_redo, assignment_follows.
  - apply enabled_redo; [done|]. eapply wp_mono; [|eapply running_follows; [exact Hf1|by eapply describes_tells]].
    intros [e|[]] s'; unfold StandbyTracking.goes_on; [done|]. by intros [? _].
  - by apply enabled_redo, acquire_locks_follows.
  - eapply wp_mono; [|apply (checkpoint_follows env (lose_ids lost0 (log_ids [InvalidTransactionId] p)))]; [|eapply lose_follows; [done|done|by apply prepared_log]|done|].
    + intros [e|[]] s'; unfold StandbyTracking.goes_on; [done|]. by intros [? _].
    + by apply prepared_log.
  - by apply online_follows.
  - eapply wp_mono; [|by apply (transam_onward (log_ids [xid] p))]. intros [e|[]] s'; unfold StandbyTracking.goes_on; [done|]. by intros [_ ?].
  - by apply parameter_follows.
  - apply (clog_zero_follows (log_ids [xid] p)); done.
  - apply (clog_truncate_follows (log_ids [xid] p)); done.
  - apply logs_onward; [done|]. intros l' r E1. eapply law_commit_ts_redo in E1; [exact E1|apply (tr_logs _ _ _ _ (fo_tracking _ _ Hf1))].
  - by apply multixact_follows.
  - destruct_or?; subst; try by apply wp_ret, onward_refl. apply enabled_redo; [done|]. by apply wp_ret, onward_refl.
Qed.
End follow.
