(* ===== verification/StandbyTheorems.v ===== *)
(** * A hot standby shows a consistent picture

    Replaying the log of a primary, record by record, keeps the standby's
    picture of the running transactions true, and the snapshots its queries
    take from it are right, now and while replay goes on. *)

From S2P Require Import Prelude.
From S2P Require Import TransactionId.
From S2P Require Import Varsup.
From S2P Require Import KnownAssigned.
From S2P Require Import KnownAssignedTheorems.
From S2P Require Import StandbyLocks.
From S2P Require Import Snapshot.
From S2P Require Import ProcArray.
From S2P Require Import Running.
From S2P Require Import SnapshotTheorems.
From S2P Require Import Standby.
From S2P Require Import StandbyTracking.
From S2P Require Import StandbyRunning.
From S2P Require Import StandbyCompletion.
From S2P Require Import StandbyReplay.

Section replay.
Context {L E LM : Type} `{Logs : RecoveryLogs L E} `{Locks : LockManager LM}.

(** The main redo loop over the records of a stretch of log. *)
Fixpoint PerformWalRecovery (l : list (StandbyEnv * (Z * WalRecord))) : prog (Standby L LM) (StandbyError E) unit :=
  match l with
  | [] => pret tt
  | (env, (xid, r)) :: l => (ApplyWalRecord env xid r ;;; PerformWalRecovery l)%prog
  end.
End replay.

(** The records of a stretch of history of the primary. *)
Inductive history (lo : Z) (top : Z -> Z) : Primary -> list (Z * WalRecord) -> Primary -> Prop :=
| history_nil p : history lo top p [] p
| history_assign p p1 l p2 : primary_step lo top p None p1 -> history lo top p1 l p2 -> history lo top p l p2
| history_record p r p1 l p2 : primary_step lo top p (Some r) p1 -> history lo top p1 l p2 -> history lo top p (r :: l) p2.

Section theorems.
Context {L E LM : Type} `{Logs : RecoveryLogs L E} `{Locks : LockManager LM}.
Context (lo : Z) `{!RecoveryLogsLaws lo L E}.
Context (top : Z -> Z) (Htop : topmost_ok lo top) (Htop2 : forall x, in_use lo x -> top (top x) = top x).

Abbreviation rank := (xid_rank lo).
Abbreviation in_use := (in_use lo).
Abbreviation State := (Standby L LM).
Abbreviation running := (running lo).
Abbreviation follows := (follows lo top).
Abbreviation onward := (onward lo top).
Implicit Types (s : State) (p : Primary).

Lemma history_follows p l p' : history lo top p l.*2 p' -> forall s, follows p s ->
  wp (PerformWalRecovery l) (goes_on lo (fun _ s' => onward p' s s')) s.
Proof.
  remember l.*2 as rs eqn:El. intros Hh. revert l El.
  induction Hh as [p|p p1 rs p2 Hs Hh IH|p r p1 rs p2 Hs Hh IH]; intros l El s Hf.
  - symmetry in El. apply fmap_nil_inv in El as ->. by apply wp_ret, onward_refl.
  - assert (p1 = assign_next p) as -> by (by inversion Hs). pose proof (assign_follows lo top Htop2 p s Hf Hs) as Hf1.
    by apply IH.
  - destruct l as [|[env [xid r0]] l]; [done|]. simpl in El. injection El as -> ->. cbn [PerformWalRecovery].
    eapply wp_go_bind; [by eapply step_follows|]. intros [] s1 Hon.
    eapply wp_mono; [|apply (IH l eq_refl s1), (on_follows _ _ _ _ _ Hon)].
    intros [e|[]] s'; unfold goes_on; [done|]. by eapply onward_trans.
Qed.

(** ** Snapshots *)

(** What a search for the top of an id may return while [s] or a later state
    is current: a link that [s] has is followed. *)
Record topmost_search s (xmin : Z) (T : Z -> Z) : Prop := {
  ts_range : forall x, in_use x -> T x = x \/ T x = top x;
  ts_linked : forall x, in_use x -> rank xmin <= rank x -> parent lo s x = top x -> T x = top x;
}.

(** A backend of a standby, which has no id of its own. *)
Definition on_standby s (be : BackendState) : Prop :=
  RecoveryInProgress (sb_pa s) = true /\ proc_xid (procs (sb_pa s) !!! my_pgxactoff be) = InvalidTransactionId.

(** A snapshot taken by scanning the array. *)
Definition fresh_on_standby s (be : BackendState) (old : SnapshotData) (cid : Z) : Prop :=
  on_standby s be /\ GetSnapshotDataReuse cid old (sb_pa s) be = None.

(** What it holds. *)
Record standby_snapshot s (snap : SnapshotData) : Prop := {
  ss_recovery : takenDuringRecovery snap = true;
  ss_use : in_use (snap_xmin snap) /\ in_use (snap_xmax snap) /\ rank (snap_xmin snap) <= rank (snap_xmax snap);
  ss_xmax : forall x, in_use x -> rank x < rank (snap_xmax snap) <-> rank x <= rank (latest (sb_pa s));
  ss_low : forall x, x ∈ known s -> rank (snap_xmin snap) <= rank x;
  ss_subxip : forall x, x ∈ subxip snap <-> x ∈ known s /\ rank x < rank (snap_xmax snap);
  ss_over : suboverflowed snap = true <-> in_use (overflowed s) /\ rank (snap_xmin snap) <= rank (overflowed s);
}.

Lemma ascending_head x l y : ascending lo (x :: l) -> y ∈ x :: l -> rank x <= rank y.
Proof.
  intros Ha [->|Hy]%elem_of_cons; [lia|]. apply ascending_cons in Ha as (_ & _ & Ha). specialize (Ha y Hy). lia.
Qed.

Lemma take_standby_snapshot gone s be old cid : tracking lo top gone s -> machinery_up (standbyState s) = true ->
  fresh_on_standby s be old cid -> standby_snapshot s (GetSnapshotData cid old (sb_pa s) be).1.
Proof.
  intros Ht Hup ([Hrec Hme] & Hfresh). pose proof (tr_xmax _ _ _ _ Ht Hup) as Hv. destruct (tr_latest _ _ _ _ Ht Hv) as [Hlu Hlr].
  destruct (tr_obs _ _ _ _ Ht) as [Hou Hom]. pose proof (tr_array _ _ _ _ Ht) as Hka.
  pose proof (fun y Hy => advance_rank lo (latest (sb_pa s)) y Hlu ltac:(lia) Hy) as Hadv.
  assert (in_use (snapshot_xmax (sb_pa s))) as Hxu by apply (Hadv _ Hlu).
  unfold GetSnapshotData. rewrite Hfresh. unfold install_xmin, snapshot_collect. rewrite Hrec. cbn [negb].
  unfold snapshot_xmin0. rewrite Hme. change (TransactionIdIsNormal InvalidTransactionId) with false. cbn [andb].
  fold (array s). rewrite (get_spec lo _ _ _ Hka Hxu). change (KnownAssignedXids (array s)) with (known s).
  set (xmin := match known s with [] => _ | _ => _ end).
  assert (in_use xmin /\ rank xmin <= rank (snapshot_xmax (sb_pa s)) /\ forall x, x ∈ known s -> rank xmin <= rank x) as (Hmu & Hmx & Hlow).
  { pose proof (known_ascending lo _ Hka) as Hasc. change (KnownAssignedXids (array s)) with (known s) in Hasc. unfold xmin.
    destruct (known s) as [|x l]; [split_and!; [done|lia|by intros x ?%elem_of_nil]|].
    assert (in_use x) as Hx by (by apply ascending_cons in Hasc as (? & _)). rewrite (precedes_rank lo) by done.
    destruct (Z.ltb_spec (rank x) (rank (snapshot_xmax (sb_pa s)))); split_and!; try done; try lia;
      intros y Hy; pose proof (ascending_head _ _ _ Hasc Hy); lia. }
  clearbody xmin. cbn [fst col_xmin col_subxip col_suboverflowed]. split; cbn [takenDuringRecovery snap_xmin snap_xmax subxip suboverflowed]; try done.
  - intros x Hx. by apply Hadv.
  - intros x. rewrite list_elem_of_filter. tauto.
  - fold (overflowed s). destruct (TransactionIdIsValid (overflowed s)) eqn:Hval.
    + pose proof (tr_overflowed _ _ _ _ Ht Hval) as Hov. rewrite (precedes_eq_rank lo), Z.leb_le by done. tauto.
    + apply negb_false_iff, Z.eqb_eq in Hval. rewrite Hval. split; [|intros [(_ & [=] & _) _]].
      destruct Hmu as (_ & Hmn & _). unfold TransactionIdPrecedesOrEquals, TransactionIdIsNormal, InvalidTransactionId, FirstNormalTransactionId in *.
      destruct (negb _ || _) eqn:Hq; [lia|]. apply orb_false_iff in Hq as [_ Hq]. done.
Qed.

Section verdicts.
Context (gone : Z -> Prop) (s : State) (snap : SnapshotData) (T : Z -> Z).
Context (Ht : tracking lo top gone s) (Hready : standbyState s = STANDBY_SNAPSHOT_READY).
Context (Hsnap : standby_snapshot s snap) (HT : topmost_search s (snap_xmin snap) T).

(** The top of an unfinished tree is itself in the array. *)
Lemma top_known x : in_use x -> rank x <= rank (obs s) -> alive lo gone s x -> top x ∈ known s.
Proof.
  intros Hx Hr Ha. pose proof (top_in_use _ _ Htop x Hx) as Htu. pose proof (top_le _ _ Htop x Hx) as Hle.
  destruct (tr_complete _ _ _ _ Ht) with (x := top x) as [?|[Hne _]]; [by rewrite Hready|done|lia|by apply (tr_tree _ _ _ _ Ht)|done|].
  by destruct Hne; apply Htop2.
Qed.

Lemma verdict_between x : in_use x -> rank (snap_xmin snap) <= rank x < rank (snap_xmax snap) ->
  XidInMVCCSnapshot T x snap = true <->
  if suboverflowed snap then TransactionIdPrecedes (T x) (snap_xmin snap) = false /\ T x ∈ subxip snap else x ∈ subxip snap.
Proof.
  intros Hx Hr. destruct (ss_use _ _ Hsnap) as (Hmu & Hxu & _). unfold XidInMVCCSnapshot.
  rewrite (precedes_rank lo), (follows_eq_rank lo) by done.
  rewrite (proj2 (Z.ltb_ge _ _)), (proj2 (Z.leb_gt _ _)) by lia. rewrite (ss_recovery _ _ Hsnap). cbn [negb].
  destruct (suboverflowed snap); rewrite <- xid_listed_elem; [|done].
  destruct (TransactionIdPrecedes _ _), (xid_listed _ _); intuition congruence.
Qed.

Lemma sees_unfinished x : in_use x -> rank (latest (sb_pa s)) < rank x \/ (rank x <= rank (obs s) /\ alive lo gone s x) ->
  XidInMVCCSnapshot T x snap = true.
Proof.
  intros Hx Hor. destruct (ss_use _ _ Hsnap) as (Hmu & Hxu & Hmx). pose proof (ss_xmax _ _ Hsnap x Hx) as Hmax.
  destruct (decide (rank (snap_xmax snap) <= rank x)) as [Hge|Hlt].
  { by apply (snapshot_above_xmax lo). }
  destruct Hor as [Hl|[Hr Ha]]; [lia|]. pose proof (top_le _ _ Htop x Hx) as Hle. pose proof (top_in_use _ _ Htop x Hx) as Htu.
  pose proof (top_known x Hx Hr Ha) as Htk. pose proof (ss_low _ _ Hsnap _ Htk) as Htm.
  assert (TransactionIdPrecedes (top x) (snap_xmin snap) = false /\ top x ∈ subxip snap) as Hok.
  { rewrite (precedes_rank lo), Z.ltb_ge by done. split; [done|]. apply (ss_subxip _ _ Hsnap). split; [done|lia]. }
  apply verdict_between; [done|lia|].
  destruct (tr_complete _ _ _ _ Ht) with (x := x) as [Hk|[Hne [(Hp & Hou & Hov)|[Hp _]]]];
    [by rewrite Hready|done|done|done| | |by rewrite Hready in Hp].
  - assert (x ∈ subxip snap) as Hin by (apply (ss_subxip _ _ Hsnap); split; [done|lia]).
    destruct (suboverflowed snap); [|done]. destruct (ts_range _ _ _ HT x Hx) as [->| ->]; [|done].
    rewrite (precedes_rank lo), Z.ltb_ge by done. split; [lia|done].
  - rewrite (proj2 (ss_over _ _ Hsnap)) by (split; [done|lia]). by rewrite (ts_linked _ _ _ HT x Hx ltac:(lia) Hp).
Qed.

Lemma sees_committed x : in_use x -> committed (lo := lo) (sb_logs s) x = true -> rank x <= rank (latest (sb_pa s)) ->
  XidInMVCCSnapshot T x snap = false.
Proof.
  intros Hx Hc Hl. destruct (ss_use _ _ Hsnap) as (Hmu & Hxu & _).
  destruct (decide (rank x < rank (snap_xmin snap))) as [Hlt|Hge]; [by apply (snapshot_below_xmin lo)|].
  apply not_true_iff_false. rewrite verdict_between by (done || (apply (ss_xmax _ _ Hsnap x Hx) in Hl; lia)).
  assert (x ∉ subxip snap) as Hn by (rewrite (ss_subxip _ _ Hsnap); intros [Hk%(tr_known _ _ _ _ Ht) _]; apply Hk; by left).
  destruct (suboverflowed snap); [|done]. intros [_ Hin]. destruct (ts_range _ _ _ HT x Hx) as [E0|E0]; rewrite E0 in Hin; [done|].
  apply (ss_subxip _ _ Hsnap) in Hin as [Hk%(tr_known _ _ _ _ Ht) _]. by apply Hk, (tr_committed _ _ _ _ Ht).
Qed.
End verdicts.

Lemma search_later s s' xmin T : parents_kept lo s s' -> topmost_search s' xmin T -> topmost_search s xmin T.
Proof.
  intros Hp [H1 H2]. split; [done|]. intros x Hx Hr E0. apply H2; [done..|]. rewrite (Hp x Hx); [done|]. rewrite E0.
  pose proof (in_use_valid lo _ (top_in_use _ _ Htop x Hx)) as Hv. by apply negb_true_iff, Z.eqb_neq in Hv.
Qed.

(** ** The start of recovery *)

(** The logs agree with the primary at the redo point; no id is known yet. *)
Record starts p s : Prop := {
  st_primary : primary_ok lo top p;
  st_below : exists x, in_use x /\ rank x < rank (p_next p);
  st_state : standbyState s = STANDBY_INITIALIZED;
  st_array : ka_ok lo (array s) /\ window (array s) = [];
  st_latest : latest (sb_pa s) = InvalidTransactionId;
  st_overflowed : overflowed s = InvalidTransactionId;
  st_logs : logs_ok (lo := lo) (sb_logs s);
  st_committed : forall x, in_use x -> committed (lo := lo) (sb_logs s) x = true <-> x ∈ p_committed p;
  st_aborted : forall x, in_use x -> aborted (lo := lo) (sb_logs s) x = true <-> x ∈ p_aborted p;
  st_whole : forall x, in_use x -> x ∈ p_committed p -> top x ∈ p_committed p ++ p_aborted p;
  st_parent : forall x, in_use x -> parent lo s x <> 0 ->
    rank x < rank (p_next p) /\ parent lo s x = top x /\ top x <> x;
  st_logged : forall x, x ∈ p_logged p -> in_use x -> rank x < rank (p_next p);
}.

Lemma start_follows p s : starts p s -> follows p (ProcArrayInitRecovery (p_next p) s).
Proof.
  intros [S1 (b & Hb & Hbr) S3 [S4 S5] S6 S7 S8 S9 S10 S11 S12 S13]. destruct (po_next _ _ _ S1) as [Hnu Hnm].
  pose proof (fun x Hx => retreat_rank lo (p_next p) x b Hnu Hb Hbr Hx) as Hret.
  set (s' := ProcArrayInitRecovery (p_next p) s). assert (obs s' = TransactionIdRetreat (p_next p)) as Eo by done.
  assert (in_use (obs s')) as Hou by apply (Hret _ Hb). assert (rank (obs s') < rank (p_next p)) as Hor by (apply (Hret _ Hou); rewrite Eo; lia).
  assert (forall x, in_use x -> ended lo s' x <-> x ∈ p_committed p ++ p_aborted p) as He.
  { intros x Hx. rewrite elem_of_app. unfold ended. change (sb_logs s') with (sb_logs s). by rewrite (S9 x Hx), (S10 x Hx). }
  assert (forall x, in_use x -> rank x <= rank (obs s') -> alive lo (lost p) s' x <-> running p x) as Hal.
  { intros x Hx Hr. unfold alive, lost, StandbyReplay.running. rewrite He, elem_of_app by done.
    assert (rank x < rank (p_next p)) by lia. tauto. }
  split; try done; [|by change (standbyState s <> STANDBY_DISABLED); rewrite S3|].
  - split; try done.
    + split; [done|lia].
    + change (array s') with (array s). rewrite S5. by intros x ?%elem_of_nil.
    + intros x Hx Hr. rewrite He by done. split.
      * intros Hin. assert (x ∈ p_committed p ++ p_aborted p ++ p_lost p) as Hin' by (rewrite !elem_of_app in *; tauto).
        apply (po_past _ _ _ S1) in Hin'; [|done]. apply (Hret x Hx) in Hin'. rewrite <- Eo in Hin'. lia.
      * change (parent lo s' x) with (parent lo s x). destruct (decide (parent lo s x = 0)) as [|Hp]; [done|].
        destruct (S12 x Hx Hp) as [Hlt _]. apply (Hret x Hx) in Hlt. rewrite <- Eo in Hlt. lia.
    + intros x Hx Hp. by apply (S12 x Hx).
    + intros x Hx Hr. rewrite Hal by done. intros Hrun%(po_tree _ _ _ S1). pose proof (top_le _ _ Htop x Hx).
      apply Hal; [by apply (top_in_use _ _ Htop)|lia|done].
    + intros x Hx Hc. rewrite He by (by apply (top_in_use _ _ Htop)). apply S11; [done|]. by apply S9.
    + intros x Hin. change (known s') with (valids (window (array s))) in Hin. rewrite S5 in Hin. by apply elem_of_nil in Hin.
    + change (standbyState s') with (standbyState s). by rewrite S3.
    + change (overflowed s') with (overflowed s). by rewrite S7.
    + change (standbyState s') with (standbyState s). by rewrite S3.
    + change (latest (sb_pa s')) with (latest (sb_pa s)). by rewrite S6.
    + change (standbyState s') with (standbyState s). by rewrite S3.
  - intros x Hin Hx. rewrite Eo. apply (Hret x Hx). by apply S13.
Qed.

(** ** Is a transaction running, on a standby? *)

(** No backend of a standby has an id of its own. *)
Definition no_local_ids s : Prop :=
  RecoveryInProgress (sb_pa s) = true /\ forall q, q ∈ procs (sb_pa s) -> proc_xid q = InvalidTransactionId.

(** What a backend remembers of ids that have finished. *)
Definition remembers (gone : Z -> Prop) s (be : BackendState) : Prop :=
  in_use (RecentXmin be) /\ (forall y, in_use y -> rank y < rank (RecentXmin be) -> ~ alive lo gone s y) /\
  (in_use (cachedXidIsNotInProgress be) -> ~ alive lo gone s (cachedXidIsNotInProgress be)).

Lemma scan_no_ids x my l : forall i xids, (forall q, q ∈ l -> proc_xid q = InvalidTransactionId) -> scan_procs x my i l xids = inr xids.
Proof.
  induction l as [|q l IH]; intros i xids Hl; cbn [scan_procs]; [done|]. rewrite (Hl q) by (by left). simpl.
  assert (forall j, scan_procs x my j l xids = inr xids) as Hj by (intros j; apply IH; intros q' Hq; apply Hl; by right).
  by destruct (i =? my)%nat.
Qed.

Lemma standby_in_progress_spec gone s be T x : tracking lo top gone s -> standbyState s = STANDBY_SNAPSHOT_READY -> no_local_ids s ->
  remembers gone s be -> topmost_search s x T -> in_use x -> rank x <= rank (obs s) ->
  let r := TransactionIdIsInProgress (fun _ => false) (aborted (lo := lo) (sb_logs s)) T (sb_pa s) be x in
  (alive lo gone s x -> r.1 = true) /\ (ended lo s x -> rank x <= rank (latest (sb_pa s)) -> r.1 = false) /\ remembers gone s r.2.
Proof.
  intros Ht Hready [Hrec Hids] Hbe HT Hx Hr. pose proof Hbe as (Hru & Hrecent & Hcached).
  assert (machinery_up (standbyState s) = true) as Hup by (by rewrite Hready).
  destruct (tr_latest _ _ _ _ Ht (tr_xmax _ _ _ _ Ht Hup)) as [Hlu Hlo].
  assert (~ alive lo gone s x -> remembers gone s (set_cached be x)) as Hcache by (intros Hn; by split).
  assert (ended lo s x -> ~ alive lo gone s x) as Hdead by (by intros ? [? _]).
  unfold TransactionIdIsInProgress, TransactionIdEquals. rewrite (precedes_rank lo) by done.
  destruct (Z.ltb_spec (rank x) (rank (RecentXmin be))) as [Hlt|_]; [split_and!; [by intros ?%(Hrecent x Hx Hlt)|done|done]|].
  destruct (Z.eqb_spec (cachedXidIsNotInProgress be) x) as [<-|_]; [split_and!; [by intros ?%(Hcached Hx)|done|done]|].
  rewrite (precedes_rank lo) by done. fold (latest (sb_pa s)).
  destruct (Z.ltb_spec (rank (latest (sb_pa s))) (rank x)) as [Hlt|Hge]; [split_and!; [done|intros; lia|done]|].
  rewrite scan_no_ids by done. rewrite Hrec. cbn [andb]. fold (array s). rewrite (exists_spec lo) by (done || apply Ht).
  change (KnownAssignedXids (array s)) with (known s).
  destruct (bool_decide (x ∈ known s)) eqn:Hk; [apply bool_decide_eq_true in Hk|apply bool_decide_eq_false in Hk].
  { split_and!; [done|by intros ?%(tr_known _ _ _ _ Ht x Hk)|done]. }
  set (xids := if TransactionIdPrecedesOrEquals x (lastOverflowedXid (sb_pa s)) then KnownAssignedXidsGet (array s) x else []).
  assert (forall y, y ∈ xids -> y ∈ known s) as Hsub.
  { intros y. unfold xids, KnownAssignedXidsGet. case_match; [|by intros ?%elem_of_nil].
    rewrite (get_spec lo) by (done || apply Ht). simpl. rewrite list_elem_of_filter. by intros [_ ?]. }
  assert (alive lo gone s x -> top x ∈ xids /\ T x = top x /\ top x <> x /\ aborted (lo := lo) (sb_logs s) x = false) as Hlive.
  { intros Ha. destruct (tr_complete _ _ _ _ Ht Hup x Hx Hr Ha) as [?|[Hne [(Hp & Hou & Hov)|[Hp _]]]]; [done| |by rewrite Hready in Hp].
    split_and!; [|apply (ts_linked _ _ _ HT); (done || lia)|done|apply not_true_iff_false; intros Hab; apply (proj1 Ha); by right].
    unfold xids, KnownAssignedXidsGet. fold (overflowed s). rewrite (precedes_eq_rank lo), (proj2 (Z.leb_le _ _)) by done.
    rewrite (get_spec lo) by (done || apply Ht). simpl. apply list_elem_of_filter. split; [|by apply (top_known gone s)].
    pose proof (top_le _ _ Htop x Hx). destruct (decide (rank (top x) = rank x)) as [E0|]; [|lia].
    destruct Hne. apply (rank_inj lo); [by apply (top_in_use _ _ Htop)|apply Hx|done]. }
  assert (ended lo s x -> aborted (lo := lo) (sb_logs s) x = true \/ T x = x \/ T x ∉ xids) as Hend.
  { intros [Hc|?]; [|by left]. right. destruct (ts_range _ _ _ HT x Hx) as [|E0]; [by left|right]. rewrite E0.
    intros Hin%Hsub%(tr_known _ _ _ _ Ht). by apply Hin, (tr_committed _ _ _ _ Ht). }
  clearbody xids. destruct (Nat.eqb_spec (length xids) 0) as [E0|_].
  { apply nil_length_inv in E0. subst xids. split_and!; [by intros [?%elem_of_nil _]%Hlive|done|]. apply Hcache.
    by intros [?%elem_of_nil _]%Hlive. }
  destruct (aborted (sb_logs s) x); [split_and!; [by intros (_ & _ & _ & ?)%Hlive|done|apply Hcache; by intros (_ & _ & _ & ?)%Hlive]|].
  destruct (negb (T x =? x) && xid_listed (T x) xids) eqn:Hq.
  - apply andb_true_iff in Hq as [Hq1 Hq2%xid_listed_elem]. apply negb_true_iff, Z.eqb_neq in Hq1.
    split_and!; [done| |done]. intros He. by destruct (Hend He) as [|[|]].
  - assert (~ alive lo gone s x) as Hna; [|split_and!; [done|done|by apply Hcache]].
    intros (Hin & E1 & Hne & _)%Hlive. rewrite E1, (proj2 (xid_listed_elem _ _) Hin), (proj2 (Z.eqb_neq _ _) Hne) in Hq. done.
Qed.

(** ** Properties *)

(** Replaying a stretch of the primary's log, whatever records it is made
    of (commits and aborts of trees and of parts of them, prepared or not,
    assignments, running-transactions records, locks, shutdown and
    end-of-recovery checkpoints after a crash, other records): replay ends,
    either with an error of the log files or of an array that is too small
    (never because of an id out of order or an array that is not empty), or in
    a state that again follows the primary: the fates agree, the array is well
    formed and, with the links in the subtransaction log, leads from every
    running id to a known one.  A picture that was complete stays complete and
    links stay. *)
Theorem standby_follows_primary p p' (l : list (StandbyEnv * (Z * WalRecord))) s : follows p s -> history lo top p l.*2 p' ->
  match PerformWalRecovery l s with
  | (_, inl e) => stops lo e
  | (s', inr _) => onward p' s s'
  end.
Proof.
  intros Hf Hh. pose proof (history_follows p l p' Hh s Hf) as H. unfold wp, goes_on in H.
  by destruct (PerformWalRecovery l s) as [s' [e|u]].
Qed.

(** Recovery starts in a state that follows the primary, so that the
    replay of everything the primary logged from the redo point on does. *)
Theorem recovery_start_follows p p' (l : list (StandbyEnv * (Z * WalRecord))) s : starts p s -> history lo top p l.*2 p' ->
  match PerformWalRecovery l (ProcArrayInitRecovery (p_next p) s) with
  | (_, inl e) => stops lo e
  | (s', inr _) => follows p' s'
  end.
Proof.
  intros Hst Hh. pose proof (history_follows p l p' Hh _ (start_follows p s Hst)) as H. unfold wp, goes_on in H.
  destruct (PerformWalRecovery _ _) as [s' [e|u]]; [done|]. apply (on_follows _ _ _ _ _ H).
Qed.

(** *** Snapshots and completions *)

(** A snapshot that tells the truth about the primary, whatever the search for
    the top of an id returns. *)
Record truthful p s (snap : SnapshotData) : Prop := {
  tf_xmin : in_use (snap_xmin snap);
  tf_verdict : forall T, topmost_search s (snap_xmin snap) T ->
    (forall x, running p x -> XidInMVCCSnapshot T x snap = true) /\
    (forall x, in_use x -> x ∈ p_committed p -> rank x <= rank (latest (sb_pa s)) -> XidInMVCCSnapshot T x snap = false) /\
    (forall x, in_use x -> rank (latest (sb_pa s)) < rank x -> XidInMVCCSnapshot T x snap = true);
}.

(** A snapshot from the past, which is true if it may be used again. *)
Definition reusable_on_standby p s (old : SnapshotData) : Prop :=
  0 <= snapXactCompletionCount old <= completion_count s /\
  (snapXactCompletionCount old <> 0 -> snapXactCompletionCount old = completion_count s -> truthful p s old).

Lemma fresh_truthful p s be old cid : follows p s -> standbyState s = STANDBY_SNAPSHOT_READY -> fresh_on_standby s be old cid ->
  truthful p s (GetSnapshotData cid old (sb_pa s) be).1.
Proof.
  intros Hf Hready Hfresh. pose proof (fo_tracking _ _ _ _ Hf) as Ht. set (snap := (GetSnapshotData cid old (sb_pa s) be).1).
  assert (standby_snapshot s snap) as Hsnap by (eapply take_standby_snapshot; [exact Ht|by rewrite Hready|done]).
  split; [apply (ss_use _ _ Hsnap)|]. intros T HT.
  assert (forall x, in_use x -> rank (latest (sb_pa s)) < rank x -> XidInMVCCSnapshot T x snap = true) as Hfut
    by (intros x Hx Hl; eapply sees_unfinished; eauto).
  split_and!; [|intros x Hx Hc Hl; eapply sees_committed; eauto; by apply (fo_committed _ _ _ _ Hf)|done].
  intros x Hx. pose proof Hx as (Hu & Hr & _). destruct (tr_latest _ _ _ _ Ht) as [_ Hlo]; [apply (tr_xmax _ _ _ _ Ht); by rewrite Hready|].
  destruct (decide (rank x <= rank (obs s))) as [Hle|Hgt]; [|apply Hfut; [done|lia]].
  eapply sees_unfinished; eauto. right. split; [done|]. by apply (follows_alive lo top p s).
Qed.

Lemma stale_not_reused cid old pa be : snapXactCompletionCount old < xactCompletionCount (TransamVariables pa) ->
  GetSnapshotDataReuse cid old pa be = None.
Proof. intros H. unfold GetSnapshotDataReuse. case_match; [done|]. by rewrite (proj2 (Z.eqb_neq _ _)) by lia. Qed.

(** Used again or taken by scanning the array. *)
Lemma snapshot_truthful p s be old cid : follows p s -> standbyState s = STANDBY_SNAPSHOT_READY -> on_standby s be ->
  reusable_on_standby p s old ->
  let snap := (GetSnapshotData cid old (sb_pa s) be).1 in truthful p s snap /\ snapXactCompletionCount snap = completion_count s.
Proof.
  intros Hf Hready Hbe [_ Hold]. destruct (GetSnapshotDataReuse cid old (sb_pa s) be) as [r|] eqn:Er.
  - unfold GetSnapshotData. rewrite Er. revert Er. unfold GetSnapshotDataReuse.
    destruct (Z.eqb_spec (snapXactCompletionCount old) 0) as [|Hn]; [done|].
    destruct (Z.eqb_spec (xactCompletionCount (TransamVariables (sb_pa s))) (snapXactCompletionCount old)) as [Ec|]; [|done].
    intros [= <-]. destruct (Hold Hn (eq_sym Ec)) as [H1 H2]. split; [by split|done].
  - split; [by apply fresh_truthful|]. unfold GetSnapshotData. by rewrite Er.
Qed.

(** What a stretch of replay does to completions: the counter only grows; as
    long as it stands still nobody has ended, and whoever committed meanwhile
    counts as completed. *)
Record progress p s p' s' (n : Z) : Prop := {
  pr_count : completion_count s <= completion_count s' <= completion_count s + n;
  pr_still : completion_count s' = completion_count s ->
    latest (sb_pa s') = latest (sb_pa s) /\ (forall x, x ∈ p_committed p' -> x ∈ p_committed p) /\
    (forall x, running p' x -> running p x \/ rank (latest (sb_pa s)) < rank x);
  pr_latest : rank (latest (sb_pa s)) <= rank (latest (sb_pa s'));
  pr_committed : forall x, x ∈ p_committed p' -> x ∈ p_committed p \/ rank x <= rank (latest (sb_pa s'));
}.

Lemma progress_refl p s : progress p s p s 0.
Proof. split; [lia|by auto|lia|by left]. Qed.

Lemma progress_trans p1 s1 p2 s2 p3 s3 n m : progress p1 s1 p2 s2 n -> progress p2 s2 p3 s3 m -> progress p1 s1 p3 s3 (n + m).
Proof.
  intros [A1 A2 A3 A4] [B1 B2 B3 B4]. split; [lia| |lia|].
  - intros Ec. destruct A2 as (A2 & A5 & A6); [lia|]. destruct B2 as (B2 & B5 & B6); [lia|]. rewrite A2 in *. split; [done|]. split; [auto|].
    intros x [Hx|Hx]%B6; auto.
  - intros x [Hx|Hx]%B4; [|by right]. destruct (A4 x Hx); [by left|right; lia].
Qed.

Lemma assign_progress p s : follows p s -> standbyState s = STANDBY_SNAPSHOT_READY -> primary_step lo top p None (assign_next p) ->
  progress p s (assign_next p) s 0.
Proof.
  intros Hf Hready Hs. split; [lia| |lia|by left]. intros _. split; [done|]. split; [done|]. intros x Hx.
  inversion Hs as [? _ Hr| | | | | | | | | | | | | | | |]; subst. apply (running_assign lo top) in Hx as [Hx| ->]; [by left| |apply Hf|done]. right.
  pose proof (fo_tracking _ _ _ _ Hf) as Ht. pose proof (fo_next _ _ _ _ Hf).
  destruct (tr_latest _ _ _ _ Ht) as [_ ?]; [apply (tr_xmax _ _ _ _ Ht); by rewrite Hready|]. lia.
Qed.

(** The commit of a tree counts all of it as completed. *)
Lemma expired_progress env p s p' s' x xs : follows p s -> standbyState s = STANDBY_SNAPSHOT_READY -> 0 <= completion_count s < 0xFFFFFFFFFFFFFFFF ->
  Forall (running p) (x :: xs) -> expired env x xs s s' ->
  (forall y, y ∈ p_committed p' -> y ∈ p_committed p \/ y ∈ x :: xs) -> progress p s p' s' 1.
Proof.
  intros Hf Hready Hc Hrun Hex Hp'. pose proof (expired_count _ _ _ _ _ Hex) as Ec. destruct (expired_latest _ _ _ _ _ Hex) as (pa & El & El').
  pose proof (fo_tracking _ _ _ _ Hf) as Ht. destruct (tr_latest _ _ _ _ Ht) as [Hlu _]; [apply (tr_xmax _ _ _ _ Ht); by rewrite Hready|].
  destruct (ids_bound lo top p s x xs Hf Hrun) as (Hids & _ & Hmax). destruct (latest_in_use _ _ _ Hids) as (_ & Hmu & _ & _).
  destruct (maintain_recovery lo (TransactionIdLatest x xs) pa Hmu) as (_ & H1 & _ & H2 & _); [by rewrite El|].
  rewrite <- El' in H1, H2. rewrite El in H2. specialize (H2 (in_use_valid lo _ Hlu)).
  assert (completion_count s' = completion_count s + 1) as Ec1 by (rewrite Ec; unfold u64; apply Z.mod_small; lia).
  split; [lia|lia|done|]. intros y [?|Hy]%Hp'; [by left|right]. specialize (Hmax y Hy). lia.
Qed.

Lemma step_progress env p xid r p' s s' : follows p s -> standbyState s = STANDBY_SNAPSHOT_READY -> 0 <= completion_count s < 0xFFFFFFFFFFFFFFFF ->
  primary_step lo top p (Some (xid, r)) p' -> ApplyWalRecord env xid r s = (s', inr tt) -> progress p s p' s' 1.
Proof.
  intros Hf Hready Hc Hs Hrun. apply apply_core in Hrun; [|done]. destruct (ends_tree r) as [[x xs]|] eqn:He.
  - inversion Hs; subst; try done; try (by destruct_or?; subst); injection He as <- <-;
      (eapply expired_progress; [exact Hf|exact Hready|exact Hc| |exact Hrun|]);
      try (match goal with H : commits _ _ _ _ _ |- _ => apply H | H : aborts _ _ _ _ _ |- _ => apply H end);
      intros y; simpl; set_unfold; tauto.
  - assert (p_committed p' = p_committed p /\ forall x, running p' x -> running p x) as [Ep Hp].
    { inversion Hs; subst; try done; (split; [done|]); try (by intros x [? _]%running_lose). }
    injection Hrun as Ec El Es. split; [lia| |by rewrite El|intros x; rewrite Ep; by left].
    intros _. split; [done|]. split; [intros x; by rewrite Ep|]. intros x Hx. left. by apply Hp.
Qed.

(** Replay of a stretch of history; the counter, 64 bits wide, does not go
    round in it. *)
Lemma history_progress p l p' : history lo top p l.*2 p' -> forall s s', follows p s -> standbyState s = STANDBY_SNAPSHOT_READY ->
  0 <= completion_count s -> completion_count s + zlength l < 0x10000000000000000 ->
  PerformWalRecovery l s = (s', inr tt) -> onward p' s s' /\ progress p s p' s' (zlength l).
Proof.
  intros Hh s s' Hf Hready H0 Hc Hrun. split.
  { pose proof (history_follows p l p' Hh s Hf) as H. unfold wp, goes_on in H. by rewrite Hrun in H. }
  remember l.*2 as rs eqn:El. revert l El s s' Hf Hready H0 Hc Hrun.
  induction Hh as [p|p p1 rs p2 Hs Hh IH|p r p1 rs p2 Hs Hh IH]; intros l El s s' Hf Hready H0 Hc Hrun.
  - symmetry in El. apply fmap_nil_inv in El as ->. injection Hrun as <-. apply progress_refl.
  - assert (p1 = assign_next p) as -> by (by inversion Hs). pose proof (assign_follows lo top Htop2 p s Hf Hs) as Hf1.
    rewrite <- (Z.add_0_l (zlength l)). eapply progress_trans; [by apply assign_progress|by apply (IH l El)].
  - destruct l as [|[env [xid r0]] l]; [done|]. simpl in El. injection El as -> ->. cbn [PerformWalRecovery] in Hrun.
    unfold pbind in Hrun. destruct (ApplyWalRecord env xid r0 s) as [s1 [e|[]]] eqn:E1; [done|].
    pose proof (step_follows lo top Htop Htop2 env p xid r0 p1 s Hf Hs) as H1. unfold wp, goes_on in H1. rewrite E1 in H1. cbn [fst snd] in H1.
    unfold zlength in *. cbn [length] in *. apply (step_progress env p xid r0 p1) in E1 as P1; [|done|done|lia|done].
    pose proof (pr_count _ _ _ _ _ P1). replace (Z.of_nat (S (length l))) with (1 + Z.of_nat (length l)) by lia.
    eapply progress_trans; [exact P1|]. apply (IH l eq_refl s1 s'); [apply H1|by apply H1|lia|lia|done].
Qed.

Lemma truthful_later p s p' s' n snap : truthful p s snap -> onward p' s s' -> progress p s p' s' n ->
  completion_count s' = completion_count s -> truthful p' s' snap.
Proof.
  intros [T1 T2] Hon Hpr Ec. destruct (pr_still _ _ _ _ _ Hpr Ec) as (El & Hcom & Hrun). split; [done|]. intros T HT.
  apply (search_later s) in HT; [|apply (on_parents _ _ _ _ _ Hon)]. destruct (T2 T HT) as (H1 & H2 & H3). rewrite El. split_and!; [|auto|done].
  intros x Hx. destruct (Hrun x Hx) as [?|Hl]; [by apply H1|]. apply H3; [apply Hx|done].
Qed.

Lemma reusable_later p s p' s' n snap : reusable_on_standby p s snap -> onward p' s s' -> progress p s p' s' n ->
  reusable_on_standby p' s' snap.
Proof.
  intros [H1 H2] Hon Hpr. pose proof (pr_count _ _ _ _ _ Hpr). split; [lia|]. intros Hn Ec.
  eapply truthful_later; [apply H2; [done|lia]|done|done|lia].
Qed.

(** Taking a snapshot only advertises its xmin. *)
Lemma snapshot_installed cid old s be : let s1 := set_pa s (GetSnapshotData cid old (sb_pa s) be).2.1 in
  same_view lo s s1 /\ core s1 = core s.
Proof.
  assert (forall xmin, let pa := (install_xmin xmin (sb_pa s) be).1 in same_view lo s (set_pa s pa) /\ core (set_pa s pa) = core s) as H.
  { intros xmin. unfold install_xmin. cbn [fst]. by case_match. }
  unfold GetSnapshotData, GetSnapshotDataReuse. destruct (_ =? 0); [|destruct (negb _); [|apply H]]; cbn zeta;
    destruct (install_xmin _ _ _) as [pa' be'] eqn:Ei; cbn [fst snd]; specialize (H (col_xmin (snapshot_collect (sb_pa s) be)));
    by rewrite Ei in H.
Qed.

(** A backend takes a snapshot, perhaps its old one again, when a stretch [l]
    of the log has been replayed since the old one was known to be usable;
    replay goes on with [l'].  The snapshot is true, stays true, and can be the
    old one of the next call. *)
Lemma snapshot_stays p0 p p' (l l' : list (StandbyEnv * (Z * WalRecord))) s0 s s' be old cid : follows p0 s0 ->
  standbyState s0 = STANDBY_SNAPSHOT_READY -> reusable_on_standby p0 s0 old ->
  completion_count s0 + zlength l + zlength l' < 0x10000000000000000 ->
  history lo top p0 l.*2 p -> PerformWalRecovery l s0 = (s, inr tt) -> on_standby s be ->
  let r := GetSnapshotData cid old (sb_pa s) be in
  let snap := r.1 in
  history lo top p l'.*2 p' -> PerformWalRecovery l' (set_pa s r.2.1) = (s', inr tt) ->
  truthful p s snap /\ onward p' s s' /\ reusable_on_standby p' s' snap /\
  (forall x, x ∈ p_committed p -> x ∈ p_committed p0 \/ rank x <= rank (latest (sb_pa s))).
Proof.
  intros Hf Hready Hold Hc Hh Hrun Hbe. pose proof Hold as [Hold1 _].
  assert (0 <= zlength l' /\ 0 <= zlength l) as [Hz1 Hz2] by (unfold zlength; lia).
  destruct (history_progress p0 l p Hh s0 s) as [Hon Hpr]; [done|done|lia|lia|done|].
  pose proof (on_follows _ _ _ _ _ Hon) as Hfs. pose proof (on_ready _ _ _ _ _ Hon Hready) as Hrs. pose proof (pr_count _ _ _ _ _ Hpr) as Hcs.
  destruct (snapshot_truthful p s be old cid Hfs Hrs Hbe (reusable_later _ _ _ _ _ _ Hold Hon Hpr)) as [Htr Ec].
  destruct (snapshot_installed cid old s be) as [Hsame Hcore].
  destruct (GetSnapshotData cid old (sb_pa s) be) as [snap [pa be']]. cbn zeta. cbn [fst snd] in *. intros Hh' Hrun'.
  pose proof (onward_same lo top Htop p s _ Hfs Hsame) as Hon1. injection Hcore as Ec1 El1.
  destruct (history_progress p l' p' Hh' (set_pa s pa) s') as [Hon2 Hpr2]; [apply Hon1|exact Hrs|lia|lia|done|].
  assert (progress p s p (set_pa s pa) 0) as Hpr1 by (split; cbn [set_pa sb_pa]; rewrite ?El1; [lia|auto|lia|by left]).
  assert (onward p' s s') as Hon3 by (eapply onward_trans; [exact Hon1|exact Hon2]).
  split; [done|]. split; [done|]. split; [|apply (pr_committed _ _ _ _ _ Hpr)].
  eapply reusable_later; [|exact Hon3|eapply progress_trans; [exact Hpr1|exact Hpr2]]. split; [lia|done].
Qed.

(** C17. Replaying a commit record publishes the whole tree at once: whatever
    snapshot a backend took before, in the one that it takes after the record
    none of the tree's ids is running, while every other transaction that was
    running on the primary still is.  (The backend's previous snapshot does not
    come from the future: its completion count is at most that of the array
    before the record.) *)
Theorem standby_commit_published env p xid parsed x lsn origin s s' be old cid T : follows p s ->
  standbyState s = STANDBY_SNAPSHOT_READY ->
  primary_step lo top p (Some (xid, XLOG_XACT_COMMIT parsed x lsn origin)) (commit_ids (x :: subxacts parsed) (log_ids [xid] p)) ->
  ApplyWalRecord env xid (XLOG_XACT_COMMIT parsed x lsn origin) s = (s', inr tt) -> on_standby s' be ->
  0 <= snapXactCompletionCount old <= completion_count s -> completion_count s < 0xFFFFFFFFFFFFFFFF ->
  let snap := (GetSnapshotData cid old (sb_pa s') be).1 in
  topmost_search s' (snap_xmin snap) T ->
  (forall y, y ∈ x :: subxacts parsed -> XidInMVCCSnapshot T y snap = false) /\
  (forall y, running p y -> y ∉ x :: subxacts parsed -> XidInMVCCSnapshot T y snap = true).
Proof.
  intros Hf Hready Hstep Happly Hbe Hold Hc snap HT.
  assert (header lo p xid /\ commits lo top p x (subxacts parsed)) as [Hh Hcm].
  { inversion Hstep; subst; try done. by destruct_or?. }
  pose proof (apply_core _ _ _ _ _ Hready Happly) as Hex. cbn [ends_tree] in Hex.
  assert (completion_count s' = completion_count s + 1) as Ec.
  { rewrite (expired_count _ _ _ _ _ Hex). unfold u64. apply Z.mod_small. lia. }
  assert (progress p s (commit_ids (x :: subxacts parsed) (log_ids [xid] p)) s' 1) as Hpr by (eapply step_progress; eauto; lia).
  pose proof (step_follows lo top Htop Htop2 env p xid _ _ s Hf Hstep) as H. unfold wp, goes_on in H. rewrite Happly in H. cbn [fst snd] in H.
  destruct (fresh_truthful _ s' be old cid (on_follows _ _ _ _ _ H) (on_ready _ _ _ _ _ H Hready)) as [_ Hv].
  { split; [done|]. apply stale_not_reused. fold (completion_count s'). lia. }
  destruct (Hv T HT) as (H1 & H2 & _). destruct Hcm as [Hrun _]. rewrite Forall_forall in Hrun. split.
  - intros y Hy. assert (y ∈ p_committed (commit_ids (x :: subxacts parsed) (log_ids [xid] p))) as Hin by (apply elem_of_app; by left).
    apply H2; [apply Hrun, Hy|done|]. destruct (pr_committed _ _ _ _ _ Hpr y Hin) as [Hin'|]; [|done].
    by destruct (Hrun y Hy) as (_ & _ & ? & _).
  - intros y Hy Hn. apply H1. by apply running_commit.
Qed.

(** On a standby with a complete picture, [TransactionIdIsInProgress]
    reports every transaction that runs on the primary, as far as its id was
    seen in the log, and no transaction that has committed or aborted and
    counts as completed; what the backend remembers for the next calls stays
    true. *)
Theorem standby_in_progress p s be T x : follows p s -> standbyState s = STANDBY_SNAPSHOT_READY -> no_local_ids s ->
  remembers (lost p) s be -> topmost_search s x T -> in_use x -> rank x <= rank (obs s) ->
  let r := TransactionIdIsInProgress (fun _ => false) (aborted (lo := lo) (sb_logs s)) T (sb_pa s) be x in
  (running p x -> r.1 = true) /\
  (x ∈ p_committed p ++ p_aborted p -> rank x <= rank (latest (sb_pa s)) -> r.1 = false) /\
  remembers (lost p) s r.2.
Proof.
  intros Hf Hready Hloc Hbe HT Hx Hr r.
  destruct (standby_in_progress_spec (lost p) s be T x (fo_tracking _ _ _ _ Hf) Hready Hloc Hbe HT Hx Hr) as (H1 & H2 & H3).
  split_and!; [|rewrite elem_of_app; intros He; apply H2; by apply (follows_ended lo top p)|done].
  intros Hrun. apply H1. apply (follows_alive lo top p s); try done. apply Hrun.
Qed.
End theorems.

(** ** An example

    Logs in memory, a primary that starts with [7] (child [8]) and [9]
    running, and what it logs next. *)

Record DemoLogs := MkDemoLogs {
  dl_parent : list (Z * Z);
  dl_committed : list Z;
  dl_aborted : list Z;
}.

Fixpoint demo_parent (l : list (Z * Z)) (x : Z) : Z :=
  match l with [] => 0 | (y, t) :: l => if decide (y = x) then t else demo_parent l x end.

#[export] Instance demo_logs : RecoveryLogs DemoLogs unit := {|
  log_extend_subtrans x := pret tt;
  log_set_parent x t := pmod (fun l => MkDemoLogs ((x, t) :: dl_parent l) (dl_committed l) (dl_aborted l));
  log_did_commit x := pget (fun l => bool_decide (x ∈ dl_committed l));
  log_did_abort x := pget (fun l => bool_decide (x ∈ dl_aborted l));
  log_commit_tree x xs := pmod (fun l => MkDemoLogs (dl_parent l) (x :: xs ++ dl_committed l) (dl_aborted l));
  log_async_commit_tree x xs _ := pmod (fun l => MkDemoLogs (dl_parent l) ((x :: xs) ++ dl_committed l) (dl_aborted l));
  log_abort_tree x xs := pmod (fun l => MkDemoLogs (dl_parent l) (dl_committed l) ((x :: xs) ++ dl_aborted l));
  log_set_commit_ts x xs t o := pret tt;
  log_set_next_multi m o := pret tt;
  log_advance_next_multi m o := pret tt;
  log_advance_oldest_multi m d := pret tt;
  log_clog_redo r := pret tt;
  log_commit_ts_redo r := pret tt;
  log_commit_ts_parameter new old next := pret tt;
  log_multixact_redo x r := pret None;
|}.

Lemma elem_app_decide (x : Z) (l k : list Z) : bool_decide (x ∈ l ++ k) = bool_decide (x ∈ k) || bool_decide (x ∈ l).
Proof. apply eq_true_iff_eq. rewrite orb_true_iff, !bool_decide_eq_true, elem_of_app. tauto. Qed.

#[export] Instance demo_laws lo : RecoveryLogsLaws lo DemoLogs unit.
Proof.
  refine {| logs_ok := fun _ => True; parent_of := fun l => demo_parent (dl_parent l);
    committed := fun l x => bool_decide (x ∈ dl_committed l); aborted := fun l x => bool_decide (x ∈ dl_aborted l);
    log_fault := fun _ => False |}; try (intros; match goal with H : _ = (_, _) |- _ => injection H as <- <- end; done).
  - intros x t l l' r _ _ _ [= <- <-]. split; [done|]. split; [done|]. intros y _. simpl. repeat case_decide; congruence.
  - intros x xs lsn l l' r _ _ _ [= <- <-]. split; [done|]. intros y _. cbn [dl_committed dl_aborted dl_parent]. by rewrite app_comm_cons, elem_app_decide.
  - intros x xs l l' r _ _ _ [= <- <-]. split; [done|]. intros y _. cbn [dl_committed dl_aborted dl_parent]. by rewrite app_comm_cons, elem_app_decide.
  - intros m a b l l' r Hm _ E1. repeat (apply elem_of_cons in Hm as [->|Hm]); [by injection E1 as <- <-..|by apply elem_of_nil in Hm].
Defined.

Definition sd_top (x : Z) : Z := if x =? 8 then 7 else if x =? 11 then 9 else x.
Definition sd_primary : Primary := MkPrimary 10 [] [3; 4; 5] [6] [].
Definition sd_tv : TransamVariablesData :=
  MkTransamVariables 20000 0 (MkFullTransactionId 10) 3 0 0 0 0 0 (MkFullTransactionId 0) 7 3.
Definition sd_pa : ProcArrayStruct :=
  MkProcArray [MkPGPROC 0 100 0 0 [] false 0 5] 8 (init_known (replicate 20 (0, false))) 0 0 0 sd_tv true.
Definition sd_state : Standby DemoLogs (gmap (Z * Z) nat) :=
  MkStandby sd_pa (MkCompressor 0 0 0) STANDBY_INITIALIZED 0 0 (MkStandbyLocks ∅ ∅ ∅ 0) (MkDemoLogs [] [3; 4; 5] [6]).
Definition sd_env : StandbyEnv := MkStandbyEnv (fun _ => 0) (fun _ => false) 200000000.
Definition sd_parsed (xs : list Z) : xl_xact_parsed := MkParsed 0 0 xs false false.

(** The picture, then a new transaction, a child of [9], the commit of [7]
    with its child and an abort. *)
Definition sd_first : list (Z * WalRecord) := [(0, XLOG_RUNNING_XACTS (MkXlRunning 2 1 false 10 7 6 [7; 9; 8]))].
Definition sd_commit : WalRecord := XLOG_XACT_COMMIT (sd_parsed [8]) 7 1 0.
Definition sd_rest : list (Z * WalRecord) :=
  [(10, XLOG_OTHER); (0, XLOG_XACT_ASSIGNMENT 9 [11]); (7, sd_commit); (10, XLOG_XACT_ABORT (sd_parsed []) 10)].
Definition sd_logged (l : list (Z * WalRecord)) : list (StandbyEnv * (Z * WalRecord)) := (fun r => (sd_env, r)) <$> l.

Lemma sd_topmost : topmost_ok 3 sd_top.
Proof.
  split; intros x Hx; unfold sd_top; destruct (Z.eqb_spec x 8) as [->|]; try done; destruct (Z.eqb_spec x 11) as [->|]; try done; lia.
Qed.

Lemma sd_top_top x : in_use 3 x -> sd_top (sd_top x) = sd_top x.
Proof. intros _. unfold sd_top. repeat (case_match; try done; try lia). Qed.

(** The running ids, computed. *)
Definition live (p : Primary) : list Z :=
  filter (fun x => bool_decide (x ∉ p_committed p ++ p_aborted p ++ p_lost p) = true) (seqZ 3 (p_next p - 3)).

Lemma running_live p x : 3 <= p_next p < 100 -> running 3 p x <-> x ∈ live p.
Proof.
  intros Hn. unfold running, live. rewrite list_elem_of_filter, bool_decide_eq_true, !not_elem_of_app, elem_of_seqZ.
  unfold in_use, TransactionIdIsNormal, FirstNormalTransactionId, xid_rank, is_u32.
  assert (is_u32 x /\ (3 <=? x) = true /\ u32 (x - 3) < 2147483648 /\ u32 (x - 3) < u32 (p_next p - 3) <-> 3 <= x < 3 + (p_next p - 3)) by cint.
  unfold is_u32 in *. tauto.
Qed.

Ltac sd_runs := apply running_live; [vm_compute; by split|apply (bool_decide_eq_true_1 _); vm_compute; reflexivity].
Ltac sd_cases H :=
  apply running_live in H; [|vm_compute; by split];
  match type of H with _ ∈ live ?p => let l := eval vm_compute in (live p) in change (live p) with l in H end;
  repeat (apply elem_of_cons in H as [->|H]); try (by apply elem_of_nil in H).

Ltac sd_all := repeat (apply Forall_cons; split; [sd_runs|]); by apply Forall_nil.

Lemma sd_rank_lt x y : 3 <= x < 100 -> 3 <= y < 100 -> x < y -> xid_rank 3 x < xid_rank 3 y.
Proof. unfold xid_rank. cint. Qed.

Lemma sd_use x : 3 <= x < 100 -> in_use 3 x.
Proof. intros Hx. unfold in_use, TransactionIdIsNormal, FirstNormalTransactionId, xid_rank. split_and!; cint. Qed.

Lemma sd_describes : describes 3 sd_top sd_primary (MkXlRunning 2 1 false 10 7 6 [7; 9; 8]) [7; 9; 8].
Proof.
  split; simpl; try done.
  - repeat (apply Forall_cons; split; [split; [by apply sd_use|by apply sd_rank_lt]|]). by apply Forall_nil.
  - intros x Hx. sd_cases Hx; done.
  - intros x Hx. left. sd_cases Hx; set_solver.
Qed.

Lemma sd_history_first : history 3 sd_top sd_primary (sd_logged sd_first).*2 (log_ids [0] sd_primary).
Proof. eapply history_record; [|apply history_nil]. eapply step_running; [by left|apply sd_describes]. Qed.

Lemma sd_history_rest : exists p, history 3 sd_top (log_ids [0] sd_primary) (sd_logged sd_rest).*2 p.
Proof.
  eexists. eapply history_assign; [apply step_assign; [by left|done]|].
  eapply history_assign; [apply step_assign; [right; vm_compute (sd_top _); sd_runs|done]|].
  eapply history_record; [apply step_other; [right; sd_runs|by left]|].
  eapply history_record; [apply step_assignment; [by left|split; [sd_all|by intros y ->%list_elem_of_singleton]]|].
  eapply history_record; [apply step_commit; [right; sd_runs|split; [sd_all|]]|].
  { intros y Hy. sd_cases Hy; set_solver. }
  eapply history_record; [apply step_abort; [right; sd_runs|split; [sd_all|]]|apply history_nil].
  intros y Hy. sd_cases Hy; set_solver.
Qed.

Ltac sd_elems H := simpl in H; repeat (apply elem_of_cons in H as [->|H]); try (by apply elem_of_nil in H).
Ltac sd_start :=
  split; try done;
  [ split; [by split; [apply sd_use|]|intros x Hx; sd_cases Hx; sd_runs|intros x Hin Hx; sd_elems Hin; by apply sd_rank_lt]
  | exists 3; split; [by apply sd_use|by apply sd_rank_lt]
  | split; [apply init_known_ok|done]
  | intros x _; apply bool_decide_eq_true
  | intros x _; apply bool_decide_eq_true
  | intros x _ Hin; sd_elems Hin; by apply (bool_decide_eq_true_1 _)
  | intros x Hin; by apply elem_of_nil in Hin ].

Lemma sd_starts : starts 3 sd_top sd_primary sd_state.
Proof. sd_start. Qed.

Definition sd_ready : Standby DemoLogs (gmap (Z * Z) nat) :=
  (PerformWalRecovery (sd_logged sd_first) (ProcArrayInitRecovery (p_next sd_primary) sd_state)).1.

Lemma sd_follows : follows 3 sd_top (log_ids [0] sd_primary) sd_ready.
Proof.
  pose proof (start_follows 3 sd_top sd_topmost _ _ sd_starts) as Hs.
  pose proof (history_follows 3 sd_top sd_topmost sd_top_top _ _ _ sd_history_first _ Hs) as H. unfold wp, goes_on in H.
  assert ((PerformWalRecovery (sd_logged sd_first) (ProcArrayInitRecovery (p_next sd_primary) sd_state)).2 = inr tt) as E
    by (vm_compute; reflexivity).
  rewrite E in H. apply (on_follows _ _ _ _ _ H).
Qed.

Lemma recovery_start_follows_witness :
  match PerformWalRecovery (sd_logged sd_first) (ProcArrayInitRecovery (p_next sd_primary) sd_state) with
  | (_, inl e) => stops 3 e
  | (s', inr _) => follows 3 sd_top (log_ids [0] sd_primary) s'
  end.
Proof.
  apply (recovery_start_follows 3 sd_top sd_topmost sd_top_top sd_primary (log_ids [0] sd_primary) (sd_logged sd_first) sd_state);
    [apply sd_starts|apply sd_history_first].
Defined.

Lemma standby_follows_primary_witness : exists p',
  match PerformWalRecovery (sd_logged sd_rest) sd_ready with
  | (_, inl e) => stops 3 e
  | (s', inr _) => onward 3 sd_top p' sd_ready s'
  end.
Proof.
  destruct sd_history_rest as [p' Hh]. exists p'.
  apply (standby_follows_primary 3 sd_top sd_topmost sd_top_top (log_ids [0] sd_primary) p' (sd_logged sd_rest) sd_ready); [apply sd_follows|exact Hh].
Defined.

Lemma sd_search (s : Standby DemoLogs (gmap (Z * Z) nat)) xmin : topmost_search 3 sd_top s xmin sd_top.
Proof. split; [by right|done]. Qed.

Definition sd_done : Standby DemoLogs (gmap (Z * Z) nat) := (PerformWalRecovery (sd_logged sd_rest) sd_ready).1.

Definition sd_after : Standby DemoLogs (gmap (Z * Z) nat) := (ApplyWalRecord sd_env 7 sd_commit sd_ready).1.

Lemma standby_commit_published_witness :
  let snap := (GetSnapshotData 0 demo_old (sb_pa sd_after) demo_be).1 in
  (forall y, y ∈ [7; 8] -> XidInMVCCSnapshot sd_top y snap = false) /\
  (forall y, running 3 (log_ids [0] sd_primary) y -> y ∉ [7; 8] -> XidInMVCCSnapshot sd_top y snap = true).
Proof.
  apply (standby_commit_published 3 sd_top sd_topmost sd_top_top sd_env (log_ids [0] sd_primary) 7 (sd_parsed [8]) 7 1 0 sd_ready sd_after
    demo_be demo_old 0 sd_top sd_follows).
  - vm_compute. reflexivity.
  - apply step_commit; [right; sd_runs|split; [sd_all|]]. intros y Hy. sd_cases Hy; set_solver.
  - unfold sd_after. apply result_eq. vm_compute. reflexivity.
  - split; vm_compute; reflexivity.
  - vm_compute. split; congruence.
  - vm_compute. reflexivity.
  - apply sd_search.
Defined.

Lemma standby_in_progress_witness :
  let r x := TransactionIdIsInProgress (fun _ => false) (aborted (lo := 3) (sb_logs sd_ready)) sd_top (sb_pa sd_ready) demo_be x in
  (r 8).1 = true /\ (r 6).1 = false.
Proof.
  assert (no_local_ids sd_ready) as Hno.
  { split; [vm_compute; reflexivity|]. change (procs (sb_pa sd_ready)) with [MkPGPROC 0 100 0 0 [] false 0 5].
    by intros q ->%list_elem_of_singleton. }
  assert (remembers 3 (lost (log_ids [0] sd_primary)) sd_ready demo_be) as Hbe.
  { split; [by apply sd_use|]. split; [|by intros (_ & [=] & _)]. intros y _ Hr. unfold xid_rank in Hr. simpl in Hr. cint. }
  pose proof (fun x => standby_in_progress 3 sd_top sd_topmost sd_top_top (log_ids [0] sd_primary) sd_ready demo_be sd_top x sd_follows
    ltac:(vm_compute; reflexivity) Hno Hbe (sd_search _ _)) as H. split.
  - apply H; [by apply sd_use|vm_compute; by intros [=]|sd_runs].
  - apply H; [by apply sd_use|vm_compute; by intros [=]|apply (bool_decide_eq_true_1 _); vm_compute; reflexivity|vm_compute; by intros [=]].
Defined.
