(* ===== verification/RunningData.v ===== *)
(** * What a primary tells its standbys

    The running-transactions record: [GetRunningTransactionData] of
    [src/backend/storage/ipc/procarray.c], [LogCurrentRunningXacts] and
    [LogStandbySnapshot] of [src/backend/storage/ipc/standby.c], and the
    related scans for the oldest active id. *)

From S2P Require Import Prelude.
From S2P Require Import TransactionId.
From S2P Require Import Varsup.
From S2P Require Import KnownAssigned.
From S2P Require Import StandbyLocks.
From S2P Require Import ProcArray.
From S2P Require Import Running.
From S2P Require Import SnapshotTheorems.
From S2P Require Import Standby.
From S2P Require Import StandbyTracking.
From S2P Require Import StandbyReplay.
From S2P Require Import StandbyTheorems.

(** What the first loop gathers. *)
Record RunningScan := MkRunningScan {
  scan_oldest : Z;
  scan_oldest_db : Z;
  scan_suboverflowed : bool;
  scan_xids : list Z;
}.

Fixpoint scan_running (MyDatabaseId : Z) (l : list PGPROC) (c : RunningScan) : RunningScan :=
  match l with
  | [] => c
  | proc :: l =>
      let xid := proc_xid proc in
      if negb (TransactionIdIsValid xid) then scan_running MyDatabaseId l c
      else
        scan_running MyDatabaseId l
          (MkRunningScan
             (if TransactionIdPrecedes xid (scan_oldest c) then xid else scan_oldest c)
             (if (databaseId proc =? MyDatabaseId) && TransactionIdPrecedes xid (scan_oldest_db c) then xid else scan_oldest_db c)
             (if sub_overflowed proc then true else scan_suboverflowed c)
             (scan_xids c ++ [xid]))
  end.

(** The second loop. *)
Fixpoint scan_subxids (l : list PGPROC) : list Z :=
  match l with
  | [] => []
  | proc :: l => if (0 <? length (subxids proc))%nat then subxids proc ++ scan_subxids l else scan_subxids l
  end.

Definition GetRunningTransactionData (MyDatabaseId : Z) (pa : ProcArrayStruct) : RunningTransactionsData :=
  let latestCompletedXid := XidFromFullTransactionId (latestCompletedXid (TransamVariables pa)) in
  let nextXid := XidFromFullTransactionId (nextXid (TransamVariables pa)) in
  let c := scan_running MyDatabaseId (procs pa) (MkRunningScan nextXid nextXid false []) in
  let subs := if negb (scan_suboverflowed c) then scan_subxids (procs pa) else [] in
  MkRunning (zlength (scan_xids c)) (zlength subs)
    (if scan_suboverflowed c then SUBXIDS_IN_SUBTRANS else SUBXIDS_IN_ARRAY)
    nextXid (scan_oldest c) (scan_oldest_db c) latestCompletedXid (scan_xids c ++ subs).

(** The record that is written. *)
Definition LogCurrentRunningXacts (running : RunningTransactionsData) : xl_running_xacts :=
  MkXlRunning (xcnt running) (subxcnt running) (negb (bool_decide (subxid_status running = SUBXIDS_IN_ARRAY)))
    (run_nextXid running) (oldestRunningXid running) (run_latestCompletedXid running)
    (if 0 <? xcnt running then take (Z.to_nat (xcnt running + subxcnt running)) (run_xids running) else []).

(** [locks] are those of [GetRunningTransactionLocks]. *)
Definition LogStandbySnapshot (locks : list xl_standby_lock) (MyDatabaseId : Z) (pa : ProcArrayStruct) : list WalRecord :=
  (if 0 <? zlength locks then [XLOG_STANDBY_LOCK locks] else []) ++
  [XLOG_RUNNING_XACTS (LogCurrentRunningXacts (GetRunningTransactionData MyDatabaseId pa))].

Fixpoint oldest_normal (l : list PGPROC) (oldest : Z) : Z :=
  match l with
  | [] => oldest
  | proc :: l =>
      let xid := proc_xid proc in
      if negb (TransactionIdIsNormal xid) then oldest_normal l oldest
      else oldest_normal l (if TransactionIdPrecedes xid oldest then xid else oldest)
  end.

Definition GetOldestActiveTransactionId (pa : ProcArrayStruct) : Z :=
  oldest_normal (procs pa) (XidFromFullTransactionId (nextXid (TransamVariables pa))).

Definition GetOldestSafeDecodingTransactionId (catalogOnly : bool) (pa : ProcArrayStruct) : Z :=
  let oldestSafeXid := XidFromFullTransactionId (nextXid (TransamVariables pa)) in
  let oldestSafeXid :=
    if TransactionIdIsValid (replication_slot_xmin pa) && TransactionIdPrecedes (replication_slot_xmin pa) oldestSafeXid
    then replication_slot_xmin pa else oldestSafeXid in
  let oldestSafeXid :=
    if catalogOnly && TransactionIdIsValid (replication_slot_catalog_xmin pa)
       && TransactionIdPrecedes (replication_slot_catalog_xmin pa) oldestSafeXid
    then replication_slot_catalog_xmin pa else oldestSafeXid in
  if negb (RecoveryInProgress pa) then oldest_normal (procs pa) oldestSafeXid else oldestSafeXid.

Definition ProcArraySetReplicationSlotXmin (xmin catalog_xmin : Z) (pa : ProcArrayStruct) : ProcArrayStruct :=
  MkProcArray (procs pa) (maxProcs pa) (knownAssigned pa) (lastOverflowedXid pa) xmin catalog_xmin
    (TransamVariables pa) (RecoveryInProgress pa).

Definition ProcArrayGetReplicationSlotXmin (pa : ProcArrayStruct) : Z * Z :=
  (replication_slot_xmin pa, replication_slot_catalog_xmin pa).

(** ** What the record says *)

Section data.
Context (lo : Z) (topmost : Z -> Z) (Htop : topmost_ok lo topmost) (aborted : Z -> bool).

Abbreviation rank := (xid_rank lo).
Abbreviation in_use := (in_use lo).
Abbreviation busy p := (TransactionIdIsValid (proc_xid p) = true).

Lemma exists_nil {A} (P : A -> Prop) : (exists p, p ∈ [] /\ P p) <-> False.
Proof. split; [|done]. by intros (p & Hp%elem_of_nil & _). Qed.

Lemma exists_cons {A} (P : A -> Prop) q l : (exists p, p ∈ q :: l /\ P p) <-> P q \/ exists p, p ∈ l /\ P p.
Proof.
  split.
  - intros (p & [->|Hp]%elem_of_cons & HP); [by left|right; eauto].
  - intros [HP|(p & Hp & HP)]; [exists q; split; [by left|done]|exists p; split; [by right|done]].
Qed.

Record scanned (l : list PGPROC) (c c' : RunningScan) : Prop := {
  sc_use : in_use (scan_oldest c') /\ rank (scan_oldest c') <= rank (scan_oldest c);
  sc_low : forall p, p ∈ l -> busy p -> rank (scan_oldest c') <= rank (proc_xid p);
  sc_over : scan_suboverflowed c' = true <-> scan_suboverflowed c = true \/ exists p, p ∈ l /\ busy p /\ sub_overflowed p = true;
  sc_xids : forall x, x ∈ scan_xids c' <-> x ∈ scan_xids c \/ exists p, p ∈ l /\ busy p /\ x = proc_xid p;
}.

Lemma scan_running_spec db nx l : forall c, (forall p, p ∈ l -> proc_ok lo topmost aborted nx p) -> in_use (scan_oldest c) ->
  scanned l c (scan_running db l c).
Proof.
  induction l as [|p l IH]; intros c Hl Hc; cbn [scan_running].
  - split; [split; [done|lia]|by intros p ?%elem_of_nil|..]; [|intros x]; rewrite exists_nil; tauto.
  - assert (forall q, q ∈ l -> proc_ok lo topmost aborted nx q) as Hl' by (intros q Hq; apply Hl; by right).
    destruct (TransactionIdIsValid (proc_xid p)) eqn:Hv; cbn [negb].
    + destruct (po_xid _ _ _ _ _ (Hl p ltac:(by left)) Hv) as (Hu & _ & _).
      match goal with |- scanned _ _ (scan_running _ _ ?d) => destruct (IH d Hl') as [[S1 S2] S3 S4 S5] end;
        [simpl; by case_match|]; simpl in *. rewrite (precedes_rank lo) in * by done.
      split.
      * split; [done|]. destruct (Z.ltb_spec (rank (proc_xid p)) (rank (scan_oldest c))); lia.
      * intros q [->|Hq]%elem_of_cons Hb; [|by apply S3]. destruct (Z.ltb_spec (rank (proc_xid p)) (rank (scan_oldest c))); lia.
      * rewrite S4, exists_cons. destruct (sub_overflowed p) eqn:Eo; [tauto|]. intuition congruence.
      * intros x. rewrite S5, exists_cons, elem_of_app, list_elem_of_singleton. tauto.
    + destruct (IH c Hl' Hc) as [S1 S3 S4 S5]. split; [done|..].
      * intros q [->|Hq]%elem_of_cons Hb; [congruence|by apply S3].
      * rewrite S4, exists_cons. intuition congruence.
      * intros x. rewrite S5, exists_cons. intuition congruence.
Qed.

Lemma scan_oldest_eq db nx l : (forall p, p ∈ l -> proc_ok lo topmost aborted nx p) ->
  forall c, scan_oldest (scan_running db l c) = oldest_normal l (scan_oldest c).
Proof.
  induction l as [|p l IH]; intros Hl c; cbn [scan_running oldest_normal]; [done|].
  assert (forall q, q ∈ l -> proc_ok lo topmost aborted nx q) as Hl' by (intros q Hq; apply Hl; by right).
  assert (TransactionIdIsNormal (proc_xid p) = TransactionIdIsValid (proc_xid p)) as ->.
  { destruct (TransactionIdIsValid (proc_xid p)) eqn:Hv; [by destruct (po_xid _ _ _ _ _ (Hl p ltac:(by left)) Hv) as ((_ & ? & _) & _)|].
    unfold TransactionIdIsNormal, TransactionIdIsValid, FirstNormalTransactionId, InvalidTransactionId in *. lia. }
  destruct (TransactionIdIsValid (proc_xid p)); cbn [negb]; by rewrite (IH Hl').
Qed.

Lemma scan_subxids_spec l x : x ∈ scan_subxids l <-> exists p, p ∈ l /\ x ∈ subxids p.
Proof.
  induction l as [|p l IH]; cbn [scan_subxids]; [by rewrite exists_nil, elem_of_nil|]. rewrite exists_cons.
  destruct (Nat.ltb_spec 0 (length (subxids p))) as [|Hz]; [by rewrite elem_of_app, IH|].
  assert (subxids p = []) as -> by (apply nil_length_inv; lia). rewrite IH, elem_of_nil. tauto.
Qed.

(** *** The record and the array *)

Section record.
Context (db : Z) (pa : ProcArrayStruct) (Hpa : pa_ok lo topmost aborted pa).

Abbreviation running_data := (GetRunningTransactionData db pa).
Abbreviation written := (LogCurrentRunningXacts running_data).

Lemma running_data_scan :
  scanned (procs pa) (MkRunningScan (next pa) (next pa) false []) (scan_running db (procs pa) (MkRunningScan (next pa) (next pa) false [])).
Proof. eapply scan_running_spec; [apply (pk_procs _ _ _ _ Hpa)|apply (pk_next _ _ _ _ Hpa)]. Qed.

(** The ids in the record: the main ids and, unless a cache overflowed, the
    cached children. *)
Lemma written_xids x : x ∈ xl_xids written <->
  exists p, p ∈ procs pa /\ busy p /\ (x = proc_xid p \/ subxid_overflow written = false /\ x ∈ subxids p).
Proof.
  destruct running_data_scan as [_ _ _ Hx]. unfold written, LogCurrentRunningXacts, GetRunningTransactionData. fold (next pa).
  set (c := scan_running _ _ _) in *. cbn [xl_xids xcnt subxcnt run_xids subxid_status subxid_overflow].
  set (subs := if negb (scan_suboverflowed c) then _ else _).
  assert (forall p, p ∈ procs pa -> x ∈ subxids p -> busy p) as Hbusy.
  { intros p Hp Hin. destruct (TransactionIdIsValid (proc_xid p)) eqn:Hv; [done|].
    destruct (po_none _ _ _ _ _ (pk_procs _ _ _ _ Hpa p Hp) Hv) as [E0 _]. rewrite E0 in Hin. by apply elem_of_nil in Hin. }
  assert (forall st, (if scan_suboverflowed c then SUBXIDS_IN_SUBTRANS else SUBXIDS_IN_ARRAY) = st ->
    negb (bool_decide (st = SUBXIDS_IN_ARRAY)) = scan_suboverflowed c) as Hov by (intros st <-; by destruct (scan_suboverflowed c)).
  rewrite (Hov _ eq_refl).
  assert (x ∈ scan_xids c ++ subs <->
    exists p, p ∈ procs pa /\ busy p /\ (x = proc_xid p \/ scan_suboverflowed c = false /\ x ∈ subxids p)) as Hall.
  { rewrite elem_of_app, Hx, elem_of_nil. unfold subs. destruct (scan_suboverflowed c); cbn [negb]; rewrite ?elem_of_nil, ?scan_subxids_spec.
    - split; [intros [[[]|(p & ? & ? & ?)]|[]]|intros (p & ? & ? & [?|[? _]])]; eauto 8. done.
    - split; [intros [[[]|(p & ? & ? & ?)]|(p & ? & ?)]|intros (p & ? & ? & [?|[_ ?]])]; eauto 8. }
  destruct (Z.ltb_spec 0 (zlength (scan_xids c))) as [Hpos|Hz].
  - rewrite firstn_all2; [done|]. rewrite length_app. unfold zlength. lia.
  - rewrite elem_of_nil, <- Hall. split; [done|]. assert (scan_xids c = []) as E0
      by (destruct (scan_xids c); [done|unfold zlength in Hz; simpl in Hz; lia]).
    intros Hin. apply Hall in Hin as (p & Hp & Hb & _).
    assert (proc_xid p ∈ scan_xids c) as Hin by (apply Hx; right; eauto). rewrite E0 in Hin. by apply elem_of_nil in Hin.
Qed.

Lemma written_overflow : subxid_overflow written = true <-> exists p, p ∈ procs pa /\ busy p /\ sub_overflowed p = true.
Proof.
  destruct running_data_scan as [_ _ Ho _]. unfold written, LogCurrentRunningXacts, GetRunningTransactionData. fold (next pa).
  set (c := scan_running _ _ _) in *. cbn [subxid_status subxid_overflow]. simpl in Ho.
  destruct (scan_suboverflowed c); simpl; intuition congruence.
Qed.

Lemma written_take : take (Z.to_nat (xl_xcnt written + xl_subxcnt written)) (xl_xids written) = xl_xids written.
Proof.
  unfold written, LogCurrentRunningXacts. cbn [xl_xids xl_xcnt xl_subxcnt]. case_match; [|by rewrite take_nil].
  rewrite take_take. f_equal. lia.
Qed.

Lemma written_describes p : p_next p = next pa -> (forall x, running lo p x -> runs topmost aborted pa x) ->
  describes lo topmost p written (xl_xids written).
Proof.
  intros En Hruns. destruct running_data_scan as [[S1 S2] S3 _ _]. destruct (pk_latest _ _ _ _ Hpa) as [_ Hlu].
  destruct (pk_next _ _ _ _ Hpa) as (_ & Hnu & Hln & _).
  split; [by rewrite written_take|by rewrite En| |rewrite En; split; [exact S1|exact S2]| |rewrite En; split; [exact Hlu|exact Hln]|].
  - apply Forall_forall. intros x (q & Hq & Hb & Hor)%written_xids. pose proof (pk_procs _ _ _ _ Hpa q Hq) as Hok. rewrite En.
    destruct Hor as [->|[_ Hs]]; [by destruct (po_xid _ _ _ _ _ Hok Hb) as (? & ? & _)|].
    by destruct (po_sub _ _ _ _ _ Hok x Hs) as (? & ? & _).
  - intros x Hx. destruct (Hruns x Hx) as (q & Hq & Hr). pose proof (pk_procs _ _ _ _ Hpa q Hq) as Hok.
    pose proof (runs_in_rank _ _ _ _ _ _ Htop Hok (proj1 Hx) Hr) as Hle. specialize (S3 q Hq (proj1 Hr)).
    change (xl_oldestRunningXid written) with (scan_oldest (scan_running db (procs pa) (MkRunningScan (next pa) (next pa) false []))). lia.
  - intros x Hx. destruct (Hruns x Hx) as (q & Hq & Hb & Hor). destruct Hor as [->|[Hs|(Ho & Ht & Hne & _)]].
    + left. apply written_xids. eauto 6.
    + destruct (subxid_overflow written) eqn:Ho; [right|left; apply written_xids; eauto 8].
      split; [|done]. destruct (po_sub _ _ _ _ _ (pk_procs _ _ _ _ Hpa q Hq) x Hs) as (_ & _ & E0 & Hne). congruence.
    + right. split; [done|]. apply written_overflow. eauto.
Qed.
End record.

Lemma oldest_normal_spec nx l : forall x, (forall p, p ∈ l -> proc_ok lo topmost aborted nx p) -> in_use x ->
  let r := oldest_normal l x in
  in_use r /\ rank r <= rank x /\ (forall p, p ∈ l -> busy p -> rank r <= rank (proc_xid p)) /\
  (r = x \/ exists p, p ∈ l /\ busy p /\ r = proc_xid p).
Proof.
  induction l as [|p l IH]; intros x Hl Hx; cbn [oldest_normal].
  - split_and!; [done|lia|by intros p ?%elem_of_nil|by left].
  - assert (forall q, q ∈ l -> proc_ok lo topmost aborted nx q) as Hl' by (intros q Hq; apply Hl; by right).
    destruct (TransactionIdIsNormal (proc_xid p)) eqn:Hn; cbn [negb].
    + assert (busy p) as Hb by (unfold TransactionIdIsNormal, TransactionIdIsValid, FirstNormalTransactionId, InvalidTransactionId in *; lia).
      destruct (po_xid _ _ _ _ _ (Hl p ltac:(by left)) Hb) as (Hu & _). rewrite (precedes_rank lo) by done.
      destruct (IH (if rank (proc_xid p) <? rank x then proc_xid p else x) Hl') as (H1 & H2 & H3 & H4); [by case_match|].
      rewrite exists_cons. destruct (Z.ltb_spec (rank (proc_xid p)) (rank x)); split_and!; try done; try lia;
        [intros q [->|Hq]%elem_of_cons ?; [lia|auto]|tauto|intros q [->|Hq]%elem_of_cons ?; [lia|auto]|tauto].
    + destruct (IH x Hl' Hx) as (H1 & H2 & H3 & H4). rewrite exists_cons. split_and!; try done; [|tauto].
      intros q [->|Hq]%elem_of_cons Hb; [|auto]. destruct (po_xid _ _ _ _ _ (Hl p ltac:(by left)) Hb) as ((_ & ? & _) & _). congruence.
Qed.
End data.

(** ** Opening a standby *)

Section opening.
Context {L E LM : Type} `{Logs : RecoveryLogs L E} `{Locks : LockManager LM}.
Context (lo : Z) `{!RecoveryLogsLaws lo L E}.
Context (top : Z -> Z) (Htop : topmost_ok lo top) (Htop2 : forall x, in_use lo x -> top (top x) = top x).

(** What a running-transactions record without a missing child does. *)
Lemma running_record_opens env p r xids (s : Standby L LM) : follows lo top p s -> describes lo top p r xids ->
  wp (ApplyWalRecord env InvalidTransactionId (XLOG_RUNNING_XACTS r)) (goes_on lo (fun _ s' =>
    onward lo top (log_ids [InvalidTransactionId] p) s s' /\ machinery_up (standbyState s') = true /\
    (subxid_overflow r = false -> standbyState s' = STANDBY_SNAPSHOT_READY))) s.
Proof.
  intros Hf Hd. apply (apply_follows lo top Htop env p); [done|by left|]. intros s1 Hon. pose proof (on_follows _ _ _ _ _ Hon) as Hf1.
  cbn [rm_redo standby_redo]. apply enabled_redo; [apply (fo_enabled _ _ _ _ Hf1)|].
  eapply wp_mono; [|eapply running_follows; [exact Htop|exact Hf1|by apply describes_tells]].
  intros [e|[]] s'; unfold goes_on; [done|]. intros (H1 & H2 & H3). split; [by eapply onward_trans|]. split; [done|].
  intros Ho. apply H3. simpl. by rewrite Ho.
Qed.

(** A picture of what [p] runs; a complete one if no cache overflowed. *)
Definition opened p (pa : ProcArrayStruct) (s' : Standby L LM) : Prop :=
  exists p', follows lo top p' s' /\ (forall x, running lo p' x <-> running lo p x) /\
    machinery_up (standbyState s') = true /\
    ((forall q, q ∈ procs pa -> TransactionIdIsValid (proc_xid q) = true -> sub_overflowed q = false) ->
     standbyState s' = STANDBY_SNAPSHOT_READY).

Lemma opens_at env aborted db pa p q (s1 : Standby L LM) : pa_ok lo top aborted pa -> p_next p = next pa ->
  (forall x, running lo p x -> runs top aborted pa x) -> p_next q = p_next p -> (forall x, running lo q x <-> running lo p x) ->
  follows lo top q s1 ->
  wp (PerformWalRecovery [(env, (InvalidTransactionId, XLOG_RUNNING_XACTS (LogCurrentRunningXacts (GetRunningTransactionData db pa))))])
    (goes_on lo (fun _ s' => opened p pa s')) s1.
Proof.
  intros Hpa En Hruns Eq Hq Hf1. cbn [PerformWalRecovery]. eapply wp_go_bind.
  - eapply (running_record_opens env q _ _ s1 Hf1). eapply (written_describes lo top Htop aborted); [done|congruence|].
    intros x Hx. by apply Hruns, Hq.
  - intros [] s2 (Hon & Hup & Hready). apply wp_ret. exists (log_ids [InvalidTransactionId] q).
    split; [apply Hon|]. split; [exact Hq|]. split; [done|]. intros Hno. apply Hready. apply not_true_iff_false.
    rewrite (written_overflow lo top aborted) by done. intros (k & Hk & Hb & Ho). by rewrite Hno in Ho.
Qed.
End opening.

(** C24. A primary that logs its locks and running transactions with
    [LogStandbySnapshot] opens its standbys: what [GetRunningTransactionData]
    collects from the array of running transactions describes the primary, so
    a standby that has followed it so far follows it across the records, has
    a picture of the running transactions afterwards and, if no backend of
    the primary had overflowed its cache of subtransactions, a complete one,
    so that queries can start. *)
Theorem standby_opens {L E LM : Type} `{Logs : RecoveryLogs L E} `{Locks : LockManager LM} (lo : Z) `{!RecoveryLogsLaws lo L E}
    (top : Z -> Z) aborted env locks db pa p (s : Standby L LM) :
  topmost_ok lo top -> (forall x, in_use lo x -> top (top x) = top x) -> pa_ok lo top aborted pa ->
  p_next p = next pa -> (forall x, running lo p x -> runs top aborted pa x) ->
  Forall (fun k => header lo p (lock_xid k)) locks -> follows lo top p s ->
  match PerformWalRecovery ((fun r => (env, (InvalidTransactionId, r))) <$> LogStandbySnapshot locks db pa) s with
  | (_, inl e) => stops lo e
  | (s', inr _) => opened lo top p pa s'
  end.
Proof.
  intros Htop Htop2 Hpa En Hruns Hlocks Hf.
  assert (wp (PerformWalRecovery ((fun r => (env, (InvalidTransactionId, r))) <$> LogStandbySnapshot locks db pa))
    (goes_on lo (fun _ s' => opened lo top p pa s')) s) as H.
  { unfold LogStandbySnapshot. destruct (0 <? zlength locks); [|by apply (opens_at lo top Htop env aborted db pa p p)].
    cbn [app fmap list_fmap PerformWalRecovery].
    eapply wp_go_bind; [eapply (step_follows lo top Htop Htop2); [exact Hf|by apply step_lock; [left|]]|].
    intros [] s1 Hon. by apply (opens_at lo top Htop env aborted db pa p (log_ids [InvalidTransactionId] p)), Hon. }
  unfold wp, goes_on in H. by destruct (PerformWalRecovery _ s) as [s' [e|u]].
Qed.

(** The running-transactions record is exact: every id in it runs in the
    array; everything that runs is in it, or is a child of an id in it when
    the record says that children are missing; its oldest running id is the
    next id to be assigned or the main id of a backend, is not newer than
    anything that runs, and is what [GetOldestActiveTransactionId] answers. *)
Theorem running_record_exact lo top aborted db pa : topmost_ok lo top -> pa_ok lo top aborted pa ->
  let r := LogCurrentRunningXacts (GetRunningTransactionData db pa) in
  (forall x, x ∈ xl_xids r -> runs top aborted pa x) /\
  (forall x, runs top aborted pa x -> x ∈ xl_xids r \/ subxid_overflow r = true /\ top x ∈ xl_xids r /\ top x <> x) /\
  (forall x, in_use lo x -> runs top aborted pa x -> xid_rank lo (xl_oldestRunningXid r) <= xid_rank lo x) /\
  (xl_oldestRunningXid r = next pa \/ xl_oldestRunningXid r ∈ xl_xids r) /\
  GetOldestActiveTransactionId pa = xl_oldestRunningXid r.
Proof.
  intros Htop Hpa r. pose proof (written_xids lo top aborted db pa Hpa) as Hx. fold r in Hx.
  pose proof (written_overflow lo top aborted db pa Hpa) as Ho. fold r in Ho. pose proof (pk_procs _ _ _ _ Hpa) as Hok.
  destruct (oldest_normal_spec lo top aborted _ (procs pa) (next pa) Hok (proj1 (proj2 (pk_next _ _ _ _ Hpa)))) as (_ & _ & O3 & O4).
  assert (GetOldestActiveTransactionId pa = xl_oldestRunningXid r) as E0 by (symmetry; exact (scan_oldest_eq lo top aborted db _ _ Hok _)).
  change (oldest_normal (procs pa) (next pa)) with (GetOldestActiveTransactionId pa) in O3, O4. rewrite E0 in O3, O4. split_and!; [| | | |done].
  - intros x (q & Hq & Hb & Hor)%Hx. exists q. split; [done|]. split; [done|]. destruct Hor as [?|[_ ?]]; auto.
  - intros x (q & Hq & Hb & Hor). assert (proc_xid q ∈ xl_xids r) as Hin by (apply Hx; eauto 6).
    destruct Hor as [->|[Hs|(Hov & Ht & Hne & _)]]; [by left| |right; rewrite Ht in *; split; [apply Ho; eauto|done]].
    destruct (subxid_overflow r) eqn:Hov; [right|left; apply Hx; eauto 8].
    destruct (po_sub _ _ _ _ _ (Hok q Hq) x Hs) as (_ & _ & -> & Hne). done.
  - intros x Hu (q & Hq & Hr). pose proof (runs_in_rank _ _ _ _ _ _ Htop (Hok q Hq) Hu Hr). specialize (O3 q Hq (proj1 Hr)). lia.
  - destruct O4 as [->|(q & Hq & Hb & ->)]; [by left|right]. apply Hx. eauto 6.
Qed.

(** *** A primary and its standby

    The array of the demonstration: [10] with its child [12] and [14] run. *)

Definition rd_primary : Primary := MkPrimary 16 [] [3; 4; 5; 6; 7; 8; 9; 11; 13; 15] [] [].
Definition rd_state : Standby DemoLogs (gmap (Z * Z) nat) :=
  MkStandby sd_pa (MkCompressor 0 0 0) STANDBY_INITIALIZED 0 0 (MkStandbyLocks ∅ ∅ ∅ 0)
    (MkDemoLogs [] [3; 4; 5; 6; 7; 8; 9; 11; 13; 15] []).
Definition rd_standby : Standby DemoLogs (gmap (Z * Z) nat) := ProcArrayInitRecovery 16 rd_state.

Lemma rd_starts : starts 3 demo_top rd_primary rd_state.
Proof. sd_start. Qed.

Lemma rd_runs x : running 3 rd_primary x -> runs demo_top no_aborts demo_pa x.
Proof.
  intros Hx. sd_cases Hx.
  - exists (MkPGPROC 1 101 10 10 [12] false 0 5). split; [set_solver|]. split; [done|by left].
  - exists (MkPGPROC 1 101 10 10 [12] false 0 5). split; [set_solver|]. split; [done|]. right; left. set_solver.
  - exists (MkPGPROC 2 102 14 0 [] false 0 5). split; [set_solver|]. split; [done|by left].
Qed.

Lemma standby_opens_witness :
  match PerformWalRecovery ((fun r => (sd_env, (InvalidTransactionId, r))) <$> LogStandbySnapshot [MkStandbyLock 14 5 16384] 5 demo_pa) rd_standby with
  | (_, inl e) => False
  | (s', inr _) => opened 3 demo_top rd_primary demo_pa s' /\ standbyState s' = STANDBY_SNAPSHOT_READY
  end.
Proof.
  pose proof (standby_opens 3 demo_top no_aborts sd_env [MkStandbyLock 14 5 16384] 5 demo_pa rd_primary rd_standby demo_topmost_ok) as H.
  assert ((PerformWalRecovery ((fun r => (sd_env, (InvalidTransactionId, r))) <$> LogStandbySnapshot [MkStandbyLock 14 5 16384] 5 demo_pa) rd_standby).2
    = inr tt) as E by (vm_compute; reflexivity).
  destruct (PerformWalRecovery _ rd_standby) as [s' r]. simpl in E. subst r.
  assert (opened 3 demo_top rd_primary demo_pa s') as Ho.
  { apply H; [|apply demo_pa_ok|done|apply rd_runs| |by apply start_follows; [apply demo_topmost_ok|apply rd_starts]].
    - intros x _. unfold demo_top. repeat (case_match; try done; try lia).
    - apply Forall_cons; split; [right; sd_runs|by apply Forall_nil]. }
  split; [done|]. destruct Ho as (p' & _ & _ & _ & Hr). apply Hr. intros q Hq _. sd_elems Hq; done.
Defined.

Lemma running_record_exact_witness :
  let r := LogCurrentRunningXacts (GetRunningTransactionData 5 demo_pa) in
  xl_xids r = [10; 14; 12] /\ xl_oldestRunningXid r = 10 /\ runs demo_top no_aborts demo_pa 12.
Proof.
  intros r. split; [vm_compute; reflexivity|]. split; [vm_compute; reflexivity|].
  apply (running_record_exact 3 demo_top no_aborts 5 demo_pa demo_topmost_ok demo_pa_ok).
  apply (bool_decide_eq_true_1 _). vm_compute. reflexivity.
Defined.
