(* ===== verification/StandbyLogs.v ===== *)
(** * The logs of a standby

    The startup process asks the commit log, the subtransaction log, the
    commit timestamps and the multixacts of this development: they discharge
    the laws that [StandbyTracking] states of the logs.  In recovery a page of
    which no file exists yet reads as zeroes. *)

From S2P Require Import Prelude.
From S2P Require Import TransactionId.
From S2P Require Import Varsup.
From S2P Require Import KnownAssigned.
From S2P Require Import StandbyLocks.
From S2P Require Import Snapshot.
From S2P Require Import ProcArray.
From S2P Require Import Running.
From S2P Require Import SnapshotTheorems.
From S2P Require Import Slru.
From S2P Require Import Clog.
From S2P Require Import Subtrans.
From S2P Require Import Transam.
From S2P Require Import CommitTs.
From S2P Require Import MultiXact.
From S2P Require Import Standby.
From S2P Require Import StandbyTracking.
From S2P Require Import StandbyCompletion.
From S2P Require Import StandbyReplay.
From S2P Require Import StandbyTheorems.

Record ServerLogs := MkServerLogs {
  sl_transam : Transam;
  sl_commit_ts : CommitTs;
  sl_multixact : MX;
}.

Inductive LogError :=
| TransamFailed (e : SlruError)
| CommitTsFailed (e : CommitTsError)
| MultiXactFailed (e : MultiXactError).

(** The control structures, and the setting
    [autovacuum_multixact_freeze_max_age]. *)
Record LogEnv := MkLogEnv {
  le_ctl : TransamCtl;
  le_commit_ts : SlruCtl;
  le_multixact : MXEnv;
  multixact_freeze_max_age : Z;
}.

Definition on_transam {A} (m : prog Transam SlruError A) : prog ServerLogs LogError A :=
  fun l => let '(t, r) := m (sl_transam l) in
    (MkServerLogs t (sl_commit_ts l) (sl_multixact l), match r with inl e => inl (TransamFailed e) | inr a => inr a end).
Definition on_commit_ts {A} (m : prog CommitTs CommitTsError A) : prog ServerLogs LogError A :=
  fun l => let '(c, r) := m (sl_commit_ts l) in
    (MkServerLogs (sl_transam l) c (sl_multixact l), match r with inl e => inl (CommitTsFailed e) | inr a => inr a end).
Definition on_multixact {A} (m : prog MX MultiXactError A) : prog ServerLogs LogError A :=
  fun l => let '(x, r) := m (sl_multixact l) in
    (MkServerLogs (sl_transam l) (sl_commit_ts l) x, match r with inl e => inl (MultiXactFailed e) | inr a => inr a end).

(** The startup process has no id of its own, takes no snapshot, so that
    [TransactionXmin] keeps its initial value, and is the only one to write. *)
Definition startup_process : MyProcXids := MkMyProcXids InvalidTransactionId [].

Section instance.
Context (env : LogEnv).

#[local] Instance server_logs : RecoveryLogs ServerLogs LogError := {|
  log_extend_subtrans x := on_transam (on_subtrans (ExtendSUBTRANS (subtrans_ctl (le_ctl env)) x));
  log_set_parent x p := on_transam (on_subtrans (SubTransSetParent (subtrans_ctl (le_ctl env)) x p));
  log_did_commit x := on_transam (Transam.TransactionIdDidCommit (le_ctl env) FirstNormalTransactionId x);
  log_did_abort x := on_transam (TransactionIdDidAbort (le_ctl env) FirstNormalTransactionId x);
  log_commit_tree x xs := on_transam (TransactionIdCommitTree (le_ctl env) startup_process LockFree x xs);
  log_async_commit_tree x xs lsn := on_transam (TransactionIdAsyncCommitTree (le_ctl env) startup_process LockFree x xs lsn);
  log_abort_tree x xs := on_transam (TransactionIdAbortTree (le_ctl env) startup_process LockFree x xs);
  log_set_commit_ts x xs time origin := on_commit_ts (TransactionTreeSetCommitTsData (le_commit_ts env) x xs time origin);
  log_set_next_multi m o := on_multixact (MultiXactSetNextMXact (le_multixact env) false m o);
  log_advance_next_multi m o := on_multixact (upd_state (MultiXactAdvanceNextMXact m o));
  log_advance_oldest_multi m db := on_multixact (MultiXactAdvanceOldest (le_multixact env) (multixact_freeze_max_age env) m db);
  log_clog_redo r := on_transam (on_clog (clog_redo (xact_ctl (le_ctl env)) r));
  log_commit_ts_redo r := on_commit_ts (commit_ts_redo (le_commit_ts env) r);
  log_commit_ts_parameter new old next := on_commit_ts (CommitTsParameterChange (le_commit_ts env) new old next);
  log_multixact_redo x r := on_multixact (multixact_redo (le_multixact env) (multixact_freeze_max_age env) x r);
|}.

Context (lo : Z).
Abbreviation ctl := (le_ctl env).

(** The commit log has the order of its pages; no commit is half way: outside of
    a commit record being replayed no transaction is marked sub-committed; and
    what the startup process has cached is of an id in use. *)
Record settled (t : Transam) : Prop := {
  se_ok : transam_ok ctl t;
  se_order : PagePrecedes (xact_ctl ctl) = CLOGPagePrecedes;
  se_no_sub : forall x, in_use lo x -> statuses t x <> TRANSACTION_STATUS_SUB_COMMITTED;
  se_cached : cachedFetchXid t = InvalidTransactionId \/ in_use lo (cachedFetchXid t);
}.

Definition log_failure (e : LogError) : Prop := match e with TransamFailed e => io_error e | _ => True end.

Lemma fetch_in_use f x : in_use lo x -> fetch_status f x = f x.
Proof. intros (_ & Hn & _). unfold fetch_status. by rewrite Hn. Qed.

Lemma in_use_fetch t t' x r : settled t -> in_use lo x -> TransactionLogFetch ctl x t = (t', r) ->
  settled t' /\ looked ctl t t' /\ match r with inr s => s = statuses t x | inl e => io_error e end.
Proof.
  intros [Hok Hord Hs Hc] Hx E. assert (cachedFetchXid t' = cachedFetchXid t \/ cachedFetchXid t' = x) as Hc'.
  { revert E. unfold TransactionLogFetch, on_clog. repeat case_match; intros [= <- <-]; simplify_eq/=; auto. }
  apply LogFetch_spec in E as [Hl Hr]; [|done|destruct Hx as (? & _); unfold is_u32 in *; lia|].
  - split; [|split; [done|by rewrite fetch_in_use in Hr]]. split; [apply Hl|done| |].
    + intros y. rewrite (looked_status _ _ _ Hl). apply Hs.
    + destruct Hc' as [->| ->]; auto.
  - intros ->. by destruct Hx as (_ & Hn & _).
Qed.

(** Without sub-committed transactions the first look decides. *)
Lemma did_commit_settled t t' x r : settled t -> in_use lo x -> Transam.TransactionIdDidCommit ctl FirstNormalTransactionId x t = (t', r) ->
  match r with
  | inl e => io_error e
  | inr b => settled t' /\ looked ctl t t' /\ b = (statuses t x =? TRANSACTION_STATUS_COMMITTED)
  end.
Proof.
  intros Hset Hx. unfold Transam.TransactionIdDidCommit, recursion_fuel. cbn [DidCommit_rec]. unfold pbind at 1.
  destruct (TransactionLogFetch ctl x t) as [t1 [e|s]] eqn:E; apply in_use_fetch in E as (Hs1 & Hl & Hv); try done; [by intros [= <- <-]|].
  rewrite Hv. destruct (Z.eqb_spec (statuses t x) TRANSACTION_STATUS_COMMITTED); [by intros [= <- <-]|].
  rewrite (proj2 (Z.eqb_neq _ _) (se_no_sub _ Hset x Hx)). by intros [= <- <-].
Qed.

Lemma did_abort_settled t t' x r : settled t -> in_use lo x -> TransactionIdDidAbort ctl FirstNormalTransactionId x t = (t', r) ->
  match r with
  | inl e => io_error e
  | inr b => settled t' /\ looked ctl t t' /\ b = (statuses t x =? TRANSACTION_STATUS_ABORTED)
  end.
Proof.
  intros Hset Hx. unfold TransactionIdDidAbort, recursion_fuel. cbn [DidAbort_rec]. unfold pbind at 1.
  destruct (TransactionLogFetch ctl x t) as [t1 [e|s]] eqn:E; apply in_use_fetch in E as (Hs1 & Hl & Hv); try done; [by intros [= <- <-]|].
  rewrite Hv. destruct (Z.eqb_spec (statuses t x) TRANSACTION_STATUS_ABORTED); [by intros [= <- <-]|].
  rewrite (proj2 (Z.eqb_neq _ _) (se_no_sub _ Hset x Hx)). by intros [= <- <-].
Qed.

Lemma foreign_lockfree x xs : foreign x xs (contention_writes LockFree).
Proof. by constructor. Qed.

Lemma in_use_valid_id x : in_use lo x -> TransactionIdIsValid x = true.
Proof. intros (_ & Hn & _). unfold TransactionIdIsNormal, TransactionIdIsValid, FirstNormalTransactionId, InvalidTransactionId in *. lia. Qed.

(** Recording the fate of a tree none of whose members has the opposite one. *)
Lemma record_settled t t' x xs status lsn r : settled t -> Forall (in_use lo) (x :: xs) ->
  status = TRANSACTION_STATUS_COMMITTED \/ status = TRANSACTION_STATUS_ABORTED ->
  (forall y, y ∈ x :: xs -> statuses t y = TRANSACTION_STATUS_COMMITTED \/ statuses t y = TRANSACTION_STATUS_ABORTED -> statuses t y = status) ->
  on_clog (TransactionIdSetTreeStatus (xact_ctl ctl) startup_process LockFree x xs status lsn) t = (t', r) ->
  match r with
  | inl e => io_error e
  | inr _ => settled t' /\ (forall y, parents t' y = parents t y) /\
      (forall y, statuses t' y = if decide (y ∈ x :: xs) then status else statuses t y)
  end.
Proof.
  intros [Hok Hord Hs Hcu] Hxs Hst Hsame. unfold on_clog. destruct (TransactionIdSetTreeStatus _ _ _ _ _ _ _ _) as [c' r'] eqn:E. intros [= <- <-].
  assert (status <> TRANSACTION_STATUS_SUB_COMMITTED) as Hns by (destruct Hst as [->| ->]; done).
  apply SetTreeStatus_spec in E as [Hwf Hr]; [|apply Hok| |destruct Hst as [->| ->]; split; done|done].
  2:{ eapply Forall_impl; [exact Hxs|]. intros y (Hu & _). unfold is_u32 in Hu. lia. }
  destruct r' as [e|[]]; [tauto|].
  assert (forall y, xid_status (xact c') y = if decide (y ∈ x :: xs) then status else statuses t y) as Hall.
  { intros y. rewrite (wrote_status _ _ _ _ Hr).
    destruct (tree_writes_final (InRecovery (xact_ctl ctl)) startup_process LockFree x xs status (statuses t) y) as [H1 H2];
      [by apply in_use_valid_id; apply Forall_cons in Hxs as [? _]|apply foreign_lockfree|done|].
    case_decide as Hin; [by apply H1|]. specialize (H2 Hin ltac:(by intros ?%elem_of_nil) (length (tree_writes startup_process LockFree x xs status))).
    by rewrite take_ge in H2. }
  pose proof Hok as [? ? Hcache]. split; [|split; [done|exact Hall]]. split; [split; [done|done|]|done| |done].
  - destruct Hcache as [Hc|(Hc1 & Hc2 & Hc3)]; [by left|right]. simpl. split_and!; [done| |done].
    rewrite Hall. case_decide as Hin; [|done]. rewrite Hc2. apply (Hsame _ Hin). unfold statuses. rewrite <- Hc2. exact Hc3.
  - intros y Hy. unfold statuses. simpl. rewrite Hall. case_decide; [done|]. by apply Hs.
Qed.

Lemma parent_settled t t' x p r : settled t -> in_use lo x -> in_use lo p ->
  on_subtrans (SubTransSetParent (subtrans_ctl ctl) x p) t = (t', r) ->
  match r with
  | inl e => io_error e
  | inr _ => settled t' /\ (forall y, statuses t' y = statuses t y) /\
      (forall y, parents t' y = if decide (y = x) then p else parents t y)
  end.
Proof.
  intros [Hok Hord Hs Hcu] (Hx & _) (Hp & _). unfold on_subtrans. destruct (SubTransSetParent _ _ _ _) as [st r'] eqn:E. intros [= <- <-].
  apply SetParent_spec in E as [Hwf Hr]; [|apply Hok|unfold is_u32 in Hx; lia|done]. destruct r' as [e|[]]; [tauto|].
  destruct Hok. split; [by split; [split|..]|]. split; [done|]. intros y. unfold parents. simpl. rewrite Hr. case_decide; by repeat case_match; try lia.
Qed.

(** A page is opened by its first id, before any later one is used. *)
Lemma same_page_rank x y : in_use lo x -> in_use lo y -> Subtrans.TransactionIdToPage y = Subtrans.TransactionIdToPage x ->
  (TransactionIdToEntry x =? 0) || (x =? FirstNormalTransactionId) = true -> xid_rank lo x <= xid_rank lo y.
Proof.
  intros (Hxu & Hxn & Hxr) (Hyu & Hyn & Hyr) Hpage Hfirst. unfold xid_rank, TransactionIdIsNormal, FirstNormalTransactionId, is_u32 in *.
  unfold Subtrans.TransactionIdToPage, TransactionIdToEntry, SUBTRANS_XACTS_PER_PAGE, BLCKSZ in *. unfold u32 in *. lia.
Qed.

Lemma extend_settled t t' x r : settled t -> in_use lo x ->
  on_subtrans (ExtendSUBTRANS (subtrans_ctl ctl) x) t = (t', r) ->
  match r with
  | inl e => io_error e
  | inr _ => settled t' /\ (forall y, statuses t' y = statuses t y) /\
      (forall y, in_use lo y -> xid_rank lo y < xid_rank lo x -> parents t' y = parents t y) /\
      (forall y, in_use lo y -> xid_rank lo x <= xid_rank lo y -> parents t y = 0 -> parents t' y = 0)
  end.
Proof.
  intros Hset Hx. pose proof Hset as [Hok Hord Hs Hcu]. unfold on_subtrans. destruct (ExtendSUBTRANS _ _ _) as [st r'] eqn:E. intros [= <- <-].
  apply ExtendSUBTRANS_spec in E as [Hwf Hr]; [|apply Hok|destruct Hx as (Hu & _); unfold is_u32 in Hu; lia].
  destruct (_ || _) eqn:Hfirst; [|destruct Hr as [-> ->]; by destruct t]. destruct r' as [e|[]]; [done|].
  destruct Hok. split; [by split; [split|..]|]. split; [done|]. unfold parents. simpl. split; intros y Hy Hrank; rewrite Hr.
  - destruct (Z.eqb_spec (Subtrans.TransactionIdToPage y) (Subtrans.TransactionIdToPage x)); [|done].
    pose proof (same_page_rank x y Hx Hy). lia.
  - intros Hz. case_match; [done|exact Hz].
Qed.

(** Records of the commit log. *)
Lemma zero_settled t t' pageno r : settled t -> 0 <= pageno ->
  (forall y, in_use lo y -> Clog.TransactionIdToPage y = pageno -> statuses t y = TRANSACTION_STATUS_IN_PROGRESS) ->
  on_clog (clog_redo (xact_ctl ctl) (CLOG_ZEROPAGE pageno)) t = (t', r) ->
  match r with
  | inl e => io_error e
  | inr _ => settled t' /\ (forall y, in_use lo y -> statuses t' y = statuses t y) /\ (forall y, parents t' y = parents t y)
  end.
Proof.
  intros [Hok Hord Hs Hcu] Hp Hblank. unfold on_clog. destruct (clog_redo _ _ _) as [c' r'] eqn:E. intros [= <- <-].
  apply zero_and_write_spec in E as (Hwf & _ & Hr); [|apply Hok|done]. destruct r' as [e|[]]; [done|]. destruct Hr as [_ Hr].
  assert (forall y, in_use lo y -> xid_status (xact c') y = statuses t y) as Hall.
  { intros y Hy. rewrite Hr. destruct (Z.eqb_spec (Clog.TransactionIdToPage y) pageno); [|done]. by rewrite Hblank. }
  pose proof Hok as [? ? Hcache]. split; [|done]. split; [split; [done|done|]|done| |done].
  - destruct Hcache as [Hc|(Hc1 & Hc2 & Hc3)]; [by left|right]. simpl. destruct Hcu as [Hc|Hc]; [by rewrite Hc in Hc1|]. by rewrite Hall.
  - intros y Hy. unfold statuses. simpl. rewrite Hall by done. by apply Hs.
Qed.

Lemma truncate_settled t t' oldest db r : settled t -> is_u32 oldest -> TransactionIdIsNormal oldest = true ->
  (forall y, in_use lo y -> TransactionIdPrecedes y oldest = true -> statuses t y = TRANSACTION_STATUS_IN_PROGRESS) ->
  on_clog (clog_redo (xact_ctl ctl) (CLOG_TRUNCATE (Clog.TransactionIdToPage oldest) oldest db)) t = (t', r) ->
  match r with
  | inl e => io_error e
  | inr _ => settled t' /\ (forall y, in_use lo y -> statuses t' y = statuses t y) /\ (forall y, parents t' y = parents t y)
  end.
Proof.
  intros [Hok Hord Hs Hcu] Hu Hn Hblank. unfold on_clog. destruct (clog_redo _ _ _) as [c' r'] eqn:E. intros [= <- <-].
  apply truncate_replayed in E as [Hwf Hr]; [|done|apply Hok|done|done]. destruct r' as [e|[]]; [done|].
  assert (forall y, in_use lo y -> xid_status (xact c') y = statuses t y) as Hall.
  { intros y Hy. pose proof Hy as (Hyu & Hyn & _). destruct (Hr y Hyu Hyn) as [?|[-> Hpr]]; [done|]. by rewrite Hblank. }
  pose proof Hok as [? ? Hcache]. split; [|done]. split; [split; [done|done|]|done| |done].
  - destruct Hcache as [Hc|(Hc1 & Hc2 & Hc3)]; [by left|right]. simpl. destruct Hcu as [Hc|Hc]; [by rewrite Hc in Hc1|]. by rewrite Hall.
  - intros y Hy. unfold statuses. simpl. rewrite Hall by done. by apply Hs.
Qed.

Definition is_status_of (status : Z) (l : ServerLogs) (x : Z) : bool := statuses (sl_transam l) x =? status.

Lemma on_transam_spec {A} (m : prog Transam SlruError A) (P : A -> Transam -> Prop) l l' r :
  (forall t' r', m (sl_transam l) = (t', r') -> match r' with inl e => io_error e | inr a => P a t' end) ->
  on_transam m l = (l', r) -> match r with inl e => log_failure e | inr a => P a (sl_transam l') end.
Proof.
  intros Hm. unfold on_transam. destruct (m (sl_transam l)) as [t' r'] eqn:E. specialize (Hm _ _ eq_refl).
  intros [= <- <-]. by destruct r'.
Qed.

Lemma status_written status l l' x xs y :
  statuses (sl_transam l') y = (if decide (y ∈ x :: xs) then status else statuses (sl_transam l) y) ->
  is_status_of status l' y = is_status_of status l y || bool_decide (y ∈ x :: xs).
Proof.
  intros E. unfold is_status_of. rewrite E. case_decide.
  - by rewrite bool_decide_true, orb_true_r, Z.eqb_refl.
  - by rewrite bool_decide_false, orb_false_r.
Qed.

Lemma status_other status other l l' x xs y : status <> other ->
  Forall (fun z => is_status_of other l z = false) (x :: xs) ->
  statuses (sl_transam l') y = (if decide (y ∈ x :: xs) then status else statuses (sl_transam l) y) ->
  is_status_of other l' y = is_status_of other l y.
Proof.
  intros Hne Hno E. unfold is_status_of at 1. rewrite E. case_decide as Hin; [|done].
  rewrite Forall_forall in Hno. rewrite (Hno y Hin). by apply Z.eqb_neq.
Qed.

(** Neither committed nor aborted: in progress. *)
Lemma undecided_status l y : settled (sl_transam l) -> in_use lo y ->
  is_status_of TRANSACTION_STATUS_COMMITTED l y = false /\ is_status_of TRANSACTION_STATUS_ABORTED l y = false ->
  statuses (sl_transam l) y = TRANSACTION_STATUS_IN_PROGRESS.
Proof.
  intros Hs Hy. pose proof (se_no_sub _ Hs y Hy) as Hsub. pose proof (xid_status_range (xact (clog (sl_transam l))) y) as Hr.
  unfold is_status_of, statuses, is_status, TRANSACTION_STATUS_COMMITTED, TRANSACTION_STATUS_ABORTED, TRANSACTION_STATUS_IN_PROGRESS,
    TRANSACTION_STATUS_SUB_COMMITTED in *. lia.
Qed.

(** The other logs do not touch these. *)
Lemma on_commit_ts_spec {A} (m : prog CommitTs CommitTsError A) l l' r : on_commit_ts m l = (l', r) ->
  sl_transam l' = sl_transam l /\ match r with inl e => log_failure e | inr _ => True end.
Proof. unfold on_commit_ts. destruct (m (sl_commit_ts l)) as [c r']. intros [= <- <-]. by destruct r'. Qed.
Lemma on_multixact_spec {A} (m : prog MX MultiXactError A) l l' r : on_multixact m l = (l', r) ->
  sl_transam l' = sl_transam l /\ match r with inl e => log_failure e | inr _ => True end.
Proof. unfold on_multixact. destruct (m (sl_multixact l)) as [c r']. intros [= <- <-]. by destruct r'. Qed.

#[local] Instance server_laws : RecoveryLogsLaws lo ServerLogs LogError.
Proof.
  refine {| logs_ok l := settled (sl_transam l);
    parent_of l := parents (sl_transam l);
    committed := is_status_of TRANSACTION_STATUS_COMMITTED;
    aborted := is_status_of TRANSACTION_STATUS_ABORTED;
    log_fault := log_failure |}.
  - intros x l l' r Hok Hx E. eapply on_transam_spec in E; [|intros t' r'; by apply extend_settled].
    destruct r as [e|[]]; [done|]. destruct E as (E1 & E2 & E3 & E4). split; [done|]. unfold is_status_of. by setoid_rewrite E2.
  - intros x p l l' r Hok Hx Hp E. eapply on_transam_spec in E; [|intros t' r'; by apply parent_settled].
    destruct r as [e|[]]; [done|]. destruct E as (E1 & E2 & E3). split; [done|]. unfold is_status_of. by setoid_rewrite E2.
  - intros x l l' r Hok Hx E. eapply on_transam_spec in E; [|intros t' r'; by apply did_commit_settled].
    destruct r as [e|b]; [done|]. destruct E as (Hs' & Hl & ->). split; [done|]. split; [done|]. intros y _.
    unfold is_status_of. by rewrite (looked_status _ _ _ Hl), (looked_parent _ _ _ Hl).
  - intros x l l' r Hok Hx E. eapply on_transam_spec in E; [|intros t' r'; by apply did_abort_settled].
    destruct r as [e|b]; [done|]. destruct E as (Hs' & Hl & ->). split; [done|]. split; [done|]. intros y _.
    unfold is_status_of. by rewrite (looked_status _ _ _ Hl), (looked_parent _ _ _ Hl).
  - intros x xs lsn l l' r Hok Hxs Hno E. eapply on_transam_spec in E; [|intros t' r'; apply record_settled; [done|done|by left|]].
    2:{ rewrite Forall_forall in Hno. intros y Hy [?|Ha]; [done|]. specialize (Hno y Hy). unfold is_status_of in Hno. lia. }
    destruct r as [e|[]]; [done|]. destruct E as (E1 & E2 & E3). split; [done|]. intros y _.
    split; [by apply status_written|]. split; [|done]. by apply (status_other TRANSACTION_STATUS_COMMITTED _ l l' x xs).
  - intros x xs l l' r Hok Hxs Hno E. eapply on_transam_spec in E; [|intros t' r'; apply record_settled; [done|done|by right|]].
    2:{ rewrite Forall_forall in Hno. intros y Hy [Hc|?]; [|done]. specialize (Hno y Hy). unfold is_status_of in Hno. lia. }
    destruct r as [e|[]]; [done|]. destruct E as (E1 & E2 & E3). split; [done|]. intros y _.
    split; [by apply status_written|]. split; [|done]. by apply (status_other TRANSACTION_STATUS_ABORTED _ l l' x xs).
  - intros x xs t o l l' r Hok _ E. apply on_commit_ts_spec in E as [E Hr]. destruct r as [e|[]]; [done|]. unfold is_status_of. by rewrite E.
  - intros m a b l l' r Hm Hok E. assert (sl_transam l' = sl_transam l /\ match r with inl e => log_failure e | inr _ => True end) as [El Hr].
    { repeat (apply elem_of_cons in Hm as [->|Hm]); [by apply on_multixact_spec in E..|by apply elem_of_nil in Hm]. }
    destruct r as [e|[]]; [done|]. unfold is_status_of. by rewrite El.
  - intros pageno l l' r Hok Hp Hno E. eapply on_transam_spec in E; [|intros t' r'; apply zero_settled; [done|done|]].
    2:{ intros y Hy Hpage. by apply undecided_status, Hno. }
    destruct r as [e|[]]; [done|]. destruct E as (E1 & E2 & E3). split; [done|]. intros y Hy. unfold is_status_of. by rewrite E2, E3.
  - intros oldest db l l' r Hok Hu Hn Hno E. eapply on_transam_spec in E; [|intros t' r'; apply truncate_settled; [done|done|done|]].
    2:{ intros y Hy Hpr. by apply undecided_status, Hno. }
    destruct r as [e|[]]; [done|]. destruct E as (E1 & E2 & E3). split; [done|]. intros y Hy. unfold is_status_of. by rewrite E2, E3.
  - intros record l l' r Hok E. apply on_commit_ts_spec in E as [E Hr]. destruct r as [e|[]]; [done|]. unfold is_status_of. by rewrite E.
  - intros new old next l l' r Hok E. apply on_commit_ts_spec in E as [E Hr]. destruct r as [e|[]]; [done|]. unfold is_status_of. by rewrite E.
  - intros xid record l l' r Hok E. apply on_multixact_spec in E as [E Hr]. destruct r as [e|o]; [done|]. unfold is_status_of. by rewrite E.
Defined.
End instance.

(** ** Standbys on these logs *)

Section disk.
Context {LM : Type} `{Locks : LockManager LM} (env : LogEnv) (lo : Z).
Context (top : Z -> Z) (Htop : topmost_ok lo top) (Htop2 : forall x, in_use lo x -> top (top x) = top x).

#[local] Hint Extern 0 (RecoveryLogs ServerLogs _) => exact (server_logs env) : typeclass_instances.
#[local] Hint Extern 0 (RecoveryLogsLaws _ ServerLogs _) => exact (server_laws env lo) : typeclass_instances.

Abbreviation State := (Standby ServerLogs LM).
Abbreviation rank := (xid_rank lo).
Abbreviation in_use := (in_use lo).
Abbreviation transam s := (sl_transam (sb_logs s)).

(** The walk through the subtransaction log of a standby: recovery links a
    child to its top directly. *)
Lemma disk_topmost gone (s : State) xmin x st y : tracking lo top gone s -> in_use xmin -> in_use x ->
  SubTransGetTopmostTransaction (subtrans_ctl (le_ctl env)) xmin x (subtrans (transam s)) = (st, inr y) ->
  (y = x \/ y = top x) /\ (rank xmin <= rank x -> parent lo s x = top x -> y = top x).
Proof.
  intros Ht Hm Hx E. pose proof (tr_logs _ _ _ _ Ht) as [Hok _]. pose proof (proj1 Hm). pose proof (proj1 (proj2 Hm)).
  apply GetTopmost_spec in E as [_ [Hc Hend]]; [|apply Hok|done|done|apply Hx|by eapply in_use_valid_id].
  change (subtrans_parent (subtrans (transam s))) with (parent lo s) in Hc, Hend.
  assert (forall z, in_use z -> parent lo s z <> 0 -> parent lo s z = top z /\ top z <> z) as Hpar by apply (tr_parent _ _ _ _ Ht).
  inversion Hc as [z|z y' Hv Hc']; subst.
  - split; [by left|]. intros Hr Hl. destruct Hend as [Hp|Hp].
    + rewrite (precedes_rank lo) in Hp by done. lia.
    + pose proof (in_use_valid_id lo (top y) (top_in_use _ _ Htop y Hx)) as Hv. rewrite <- Hl, Hp in Hv. done.
  - assert (parent lo s x <> 0) as Hne by (intros E0; rewrite E0 in Hv; done). destruct (Hpar x Hx Hne) as [Ep Hne'].
    rewrite Ep in Hc'. pose proof (top_in_use _ _ Htop x Hx) as Htx. inversion Hc' as [z|z y' Hv' Hc'']; subst; [by split; [right|]|].
    destruct (Hpar (top x) Htx) as [_ []]; [intros E0; rewrite E0 in Hv'; done|by apply Htop2].
Qed.

Lemma one_answer T y x snap : T x = y -> XidInMVCCSnapshot T x snap = XidInMVCCSnapshot (fun _ => y) x snap.
Proof. intros <-. done. Qed.

(** C9. Replay on the logs of the server: a standby whose commit log and
    subtransaction log agree with the primary at the redo point follows the
    primary across everything it logged since: the ends of transactions,
    assignments, running transactions, locks and checkpoints, and the records of
    the logs themselves, which zero new pages and remove old segments.  Or it
    stops: because a call on the files of the commit log or subtransaction log
    fails, because the commit timestamps or multixacts report an error, or
    because more ids run than it can keep.  Its commit log then holds as
    committed and as aborted exactly the transactions that are so on the
    primary, although pages come into being and go during the replay, and a walk
    through its subtransaction log ends at the transaction itself or its top. *)
Theorem disk_standby_follows p p' (l : list (StandbyEnv * (Z * WalRecord))) (s : State) :
  starts lo top p s -> history lo top p l.*2 p' ->
  match PerformWalRecovery (E := LogError) l (ProcArrayInitRecovery (p_next p) s) with
  | (_, inl e) => stops (L := ServerLogs) lo e
  | (s', inr _) => follows lo top p' s' /\
      (forall x, in_use x -> statuses (transam s') x = TRANSACTION_STATUS_COMMITTED <-> x ∈ p_committed p') /\
      (forall x, in_use x -> statuses (transam s') x = TRANSACTION_STATUS_ABORTED <-> x ∈ p_aborted p') /\
      (forall x xmin st y, in_use x -> in_use xmin ->
         SubTransGetTopmostTransaction (subtrans_ctl (le_ctl env)) xmin x (subtrans (transam s')) = (st, inr y) -> y = x \/ y = top x)
  end.
Proof.
  intros Hst Hh. pose proof (history_follows lo top Htop Htop2 p l p' Hh _ (start_follows lo top Htop p s Hst)) as H.
  unfold wp, goes_on in H. destruct (PerformWalRecovery _ _) as [s' [e|u]]; [done|]. pose proof (on_follows _ _ _ _ _ H) as Hf.
  split; [done|]. split; [|split].
  - intros x Hx. rewrite <- (fo_committed _ _ _ _ Hf x Hx). symmetry. apply Z.eqb_eq.
  - intros x Hx. rewrite <- (fo_aborted _ _ _ _ Hf x Hx). symmetry. apply Z.eqb_eq.
  - intros x xmin st y Hx Hm E. by eapply disk_topmost; [apply (fo_tracking _ _ _ _ Hf)|..].
Qed.

(** C8. Snapshots over the logs of the server.  A backend of a standby with a
    complete picture calls [GetSnapshotData] after a stretch of replay, with a
    previous snapshot that was true at the beginning if it was usable then; it
    may be given that one again.  While replay goes on, the snapshot answers,
    through a walk in the subtransaction log as it is now, that everything that
    ran when it was taken is still running, and that what had committed by then
    is not: whatever committed during that stretch, and of what committed before
    whatever is not after [latestCompletedXid] (a commit that was logged just
    before the list of running transactions at which recovery started may be
    after it).  The snapshot can be the previous one of the next call. *)
Theorem disk_snapshot_stable p0 p p' (l l' : list (StandbyEnv * (Z * WalRecord))) (s0 s s' : State) be old cid : follows lo top p0 s0 ->
  standbyState s0 = STANDBY_SNAPSHOT_READY -> reusable_on_standby lo top p0 s0 old ->
  completion_count s0 + zlength l + zlength l' < 0x10000000000000000 ->
  history lo top p0 l.*2 p -> PerformWalRecovery l s0 = (s, inr tt) -> on_standby s be ->
  let r := GetSnapshotData cid old (sb_pa s) be in
  let snap := r.1 in
  history lo top p l'.*2 p' -> PerformWalRecovery l' (set_pa s r.2.1) = (s', inr tt) ->
  reusable_on_standby lo top p' s' snap /\
  forall x st y, in_use x ->
  SubTransGetTopmostTransaction (subtrans_ctl (le_ctl env)) (snap_xmin snap) x (subtrans (transam s')) = (st, inr y) ->
  (running lo p x -> XidInMVCCSnapshot (fun _ => y) x snap = true) /\
  (x ∈ p_committed p -> x ∉ p_committed p0 \/ rank x <= rank (latest (sb_pa s)) -> XidInMVCCSnapshot (fun _ => y) x snap = false).
Proof.
  intros Hf Hready Hold Hc Hh Hrun Hbe.
  pose proof (snapshot_stays lo top Htop Htop2 p0 p p' l l' s0 s s' be old cid Hf Hready Hold Hc Hh Hrun Hbe) as H.
  intros r snap Hh' Hrun'.
  destruct (H Hh' Hrun') as ([Hmu Hv] & Hon & Hre & Hcom). split; [done|]. intros x st y Hx E.
  destruct (disk_topmost _ s' _ x st y (fo_tracking _ _ _ _ (on_follows _ _ _ _ _ Hon)) Hmu Hx E) as [Hr Hl].
  set (T := fun z => if decide (z = x) then y else top z).
  assert (topmost_search lo top s' (snap_xmin snap) T) as HT.
  { split; intros z Hz; unfold T; case_decide; subst; auto. }
  destruct (Hv T) as (H1 & H2 & _); [by eapply search_later; [exact Htop|apply (on_parents _ _ _ _ _ Hon)|]|].
  rewrite <- (one_answer T y x snap) by (unfold T; by rewrite decide_True). split; [auto|].
  intros Hin Hor. apply H2; [done|done|]. destruct Hor as [Hn|?]; [|done]. by destruct (Hcom x Hin).
Qed.
End disk.

(** *** A standby without any files

    Every page is read as zeroes first.  On the primary [7] runs with its child
    [8], and so do the other ids up to [9]. *)

Definition no_fault : Z -> option SlruErrorCause := fun _ => None.
Definition dk_slru (precedes : Z -> Z -> bool) : SlruCtl := MkSlruCtl 1 0 precedes true no_fault no_fault.
Definition dk_env : LogEnv :=
  MkLogEnv (MkTransamCtl (XactCtl 16 true no_fault no_fault) (SubTransCtl 16 true no_fault no_fault))
    (CommitTsCtl 16 true no_fault no_fault)
    (MkMXEnv 0 true true (fun _ => None) id id (dk_slru MultiXactOffsetPagePrecedes) (dk_slru MultiXactMemberPagePrecedes))
    400000000.
Definition dk_transam : Transam :=
  MkTransam (MkClog (CLOGShmemInit 1024 16 ∅ 0) [] 0 3 []) (SUBTRANSShmemInit 1024 16 ∅ 0) InvalidTransactionId 0 0.
Definition dk_logs : ServerLogs :=
  MkServerLogs dk_transam (CommitTsShmemInit 1024 16 ∅ 0 3 3) (MultiXactShmemInit 4 16 16 ∅ ∅ 0).
Definition dk_primary : Primary := MkPrimary 10 [] [] [] [].
Definition dk_state : Standby ServerLogs (gmap (Z * Z) nat) :=
  MkStandby sd_pa (MkCompressor 0 0 0) STANDBY_INITIALIZED 0 0 (MkStandbyLocks ∅ ∅ ∅ 0) dk_logs.

Lemma empty_slru_wf ctl nslots nlsns wal : check_slru_buffers nslots = true -> 0 < nslots -> nbanks ctl = nslots / SLRU_BANK_SIZE ->
  slru_wf ctl (SimpleLruInit nslots nlsns ∅ wal) /\ forall p, slru_page (SimpleLruInit nslots nlsns ∅ wal) p = None.
Proof.
  intros H1 H2 H3. destruct (SimpleLruInit_ok ctl nslots nlsns ∅ wal H1 H2 H3) as [Hok Hp].
  assert (forall p, slru_page (SimpleLruInit nslots nlsns ∅ wal) p = None) as Hn by (intros p; rewrite Hp; done).
  split; [|done]. split; [done|]. intros q pg _ E. congruence.
Qed.

Lemma dk_blank x : statuses dk_transam x = 0 /\ parents dk_transam x = 0.
Proof.
  destruct (empty_slru_wf (XactCtl 16 true no_fault no_fault) 16 CLOG_LSNS_PER_PAGE 0) as [_ Hc]; [done..|].
  destruct (empty_slru_wf (SubTransCtl 16 true no_fault no_fault) 16 0 0) as [_ Hs]; [done..|].
  unfold statuses, xid_status, parents, subtrans_parent, dk_transam, CLOGShmemInit, SUBTRANSShmemInit. cbn [clog subtrans xact].
  change (CLOGShmemBuffers 1024 16) with 16. change (SUBTRANSShmemBuffers 1024 16) with 16. rewrite Hc, Hs.
  split; [apply page_get_zero|apply read_entry_zero].
Qed.

Lemma dk_settled : settled dk_env 3 dk_transam.
Proof.
  split; [split; [| |by left]|done| |by left].
  - by apply (empty_slru_wf (XactCtl 16 true no_fault no_fault) 16 CLOG_LSNS_PER_PAGE 0).
  - by apply (empty_slru_wf (SubTransCtl 16 true no_fault no_fault) 16 0 0).
  - intros x _. by rewrite (proj1 (dk_blank x)).
Qed.

#[local] Hint Extern 0 (RecoveryLogs ServerLogs _) => exact (server_logs dk_env) : typeclass_instances.
#[local] Hint Extern 0 (RecoveryLogsLaws _ ServerLogs _) => exact (server_laws dk_env 3) : typeclass_instances.

Lemma dk_starts : starts 3 sd_top dk_primary dk_state.
Proof.
  split; try done.
  - split; [by split; [apply sd_use|]|intros x Hx; sd_cases Hx; sd_runs|intros x Hin Hx; by apply elem_of_nil in Hin].
  - exists 3. split; [by apply sd_use|by apply sd_rank_lt].
  - split; [apply init_known_ok|done].
  - apply dk_settled.
  - intros x _. unfold committed. simpl. unfold is_status_of. simpl. rewrite (proj1 (dk_blank x)). split; [done|by intros ?%elem_of_nil].
  - intros x _. unfold aborted. simpl. unfold is_status_of. simpl. rewrite (proj1 (dk_blank x)). split; [done|by intros ?%elem_of_nil].
  - intros x _ Hin. by apply elem_of_nil in Hin.
  - intros x _ []. apply (dk_blank x).
  - intros x Hin. by apply elem_of_nil in Hin.
Qed.

Definition dk_rest : list (Z * WalRecord) := [(7, sd_commit)].

Lemma dk_commit p : p_next p = 10 -> p_committed p = [] -> p_aborted p = [] -> p_lost p = [] ->
  history 3 sd_top p (sd_logged dk_rest).*2 (commit_ids [7; 8] (log_ids [7] p)).
Proof.
  intros E1 E2 E3 E4. destruct p as [n lg c a ls]. simpl in *. subst. eapply history_record; [|apply history_nil].
  apply step_commit; [right; sd_runs|split; [sd_all|]]. intros y Hy. sd_cases Hy; set_solver.
Qed.

(** Before that, the logs are truncated and extended. *)
Definition dk_housekeeping : list (Z * WalRecord) :=
  [(0, XLOG_CLOG (CLOG_TRUNCATE 0 3 1)); (0, XLOG_COMMIT_TS (COMMIT_TS_ZEROPAGE 0));
   (0, XLOG_MULTIXACT (XLOG_MULTIXACT_ZERO_OFF_PAGE 0))].

Lemma dk_kept p : p_next p = 10 -> p_committed p = [] -> p_aborted p = [] -> p_lost p = [] ->
  history 3 sd_top p (sd_logged (dk_housekeeping ++ dk_rest)).*2 (commit_ids [7; 8] (log_ids [7] (log_ids [0] (log_ids [0] (log_ids [0] p))))).
Proof.
  intros E1 E2 E3 E4. eapply history_record; [apply (step_clog_truncate 3 sd_top p 0 3 1); [by left|]|].
  - split; [by vm_compute|]. split; [done|]. intros y Hy Hr. rewrite (precedes_rank 3); [|done|by apply sd_use].
    apply Z.ltb_ge. change (xid_rank 3 3) with 0. apply Z.mod_pos_bound. lia.
  - eapply history_record; [apply step_commit_ts; by left|]. eapply history_record; [apply step_multixact; by left|]. by apply dk_commit.
Qed.

Lemma disk_standby_follows_witness :
  let '(s', r) := PerformWalRecovery (E := LogError) (sd_logged (dk_housekeeping ++ dk_rest)) (ProcArrayInitRecovery 10 dk_state) in
  r = inr tt /\ statuses (sl_transam (sb_logs s')) 8 = TRANSACTION_STATUS_COMMITTED.
Proof.
  pose proof (disk_standby_follows dk_env 3 sd_top sd_topmost sd_top_top dk_primary _ (sd_logged (dk_housekeeping ++ dk_rest)) dk_state dk_starts
    (dk_kept dk_primary eq_refl eq_refl eq_refl eq_refl)) as H. change (p_next dk_primary) with 10 in H.
  assert ((PerformWalRecovery (E := LogError) (sd_logged (dk_housekeeping ++ dk_rest)) (ProcArrayInitRecovery 10 dk_state)).2 = inr tt) as E
    by (vm_compute; reflexivity).
  destruct (PerformWalRecovery _ _) as [s' r]. simpl in E. subst r. split; [reflexivity|]. destruct H as (_ & H & _). apply H; [by apply sd_use|set_solver].
Defined.

Definition dk_first : list (Z * WalRecord) :=
  [(0, XLOG_RUNNING_XACTS (MkXlRunning 6 1 false 10 3 9 [3; 4; 5; 6; 7; 9; 8]))].

Lemma dk_describes : describes 3 sd_top dk_primary (MkXlRunning 6 1 false 10 3 9 [3; 4; 5; 6; 7; 9; 8]) [3; 4; 5; 6; 7; 9; 8].
Proof.
  split; try done.
  - repeat (apply Forall_cons; split; [split; [by apply sd_use|by apply sd_rank_lt]|]). by apply Forall_nil.
  - intros x Hx. sd_cases Hx; done.
  - intros x Hx. left. sd_cases Hx; set_solver.
Qed.

Definition dk_ready : Standby ServerLogs (gmap (Z * Z) nat) :=
  (PerformWalRecovery (E := LogError) (sd_logged dk_first) (ProcArrayInitRecovery 10 dk_state)).1.
Definition dk_done : Standby ServerLogs (gmap (Z * Z) nat) := (PerformWalRecovery (E := LogError) (sd_logged dk_rest) dk_ready).1.

Lemma dk_follows : follows 3 sd_top (log_ids [0] dk_primary) dk_ready.
Proof.
  pose proof (start_follows 3 sd_top sd_topmost _ _ dk_starts) as Hs.
  assert (history 3 sd_top dk_primary (sd_logged dk_first).*2 (log_ids [0] dk_primary)) as Hh.
  { eapply history_record; [|apply history_nil]. eapply step_running; [by left|apply dk_describes]. }
  pose proof (history_follows 3 sd_top sd_topmost sd_top_top _ _ _ Hh _ Hs) as H. unfold wp, goes_on in H.
  assert ((PerformWalRecovery (E := LogError) (sd_logged dk_first) (ProcArrayInitRecovery (p_next dk_primary) dk_state)).2 = inr tt) as E
    by (vm_compute; reflexivity).
  rewrite E in H. apply (on_follows _ _ _ _ _ H).
Qed.

Lemma dk_first_snapshot : reusable_on_standby 3 sd_top (log_ids [0] dk_primary) dk_ready demo_old.
Proof. split; [vm_compute; split; congruence|]. intros []. reflexivity. Qed.

(** The array after a snapshot, and the replay of the commit from there. *)
Definition dk_installed : Standby ServerLogs (gmap (Z * Z) nat) := set_pa dk_ready (GetSnapshotData 0 demo_old (sb_pa dk_ready) demo_be).2.1.
Definition dk_later : Standby ServerLogs (gmap (Z * Z) nat) := (PerformWalRecovery (E := LogError) (sd_logged dk_rest) dk_installed).1.

(** The commit of [7] and [8] stays invisible to a snapshot taken before it, and
    is seen by one that is taken after it. *)
Lemma disk_snapshot_stable_witness :
  (statuses (sl_transam (sb_logs dk_later)) 8 = TRANSACTION_STATUS_COMMITTED /\
   XidInMVCCSnapshot (fun _ => 8) 8 (GetSnapshotData 0 demo_old (sb_pa dk_ready) demo_be).1 = true) /\
  XidInMVCCSnapshot (fun _ => 8) 8 (GetSnapshotData 0 demo_old (sb_pa dk_done) demo_be).1 = false.
Proof.
  split; [split; [vm_compute; reflexivity|]|].
  - eapply (disk_snapshot_stable dk_env 3 sd_top sd_topmost sd_top_top (log_ids [0] dk_primary) (log_ids [0] dk_primary) _ [] (sd_logged dk_rest)
      dk_ready dk_ready dk_later demo_be demo_old 0 dk_follows).
    + vm_compute. reflexivity.
    + apply dk_first_snapshot.
    + vm_compute. reflexivity.
    + apply history_nil.
    + exact eq_refl.
    + split; vm_compute; reflexivity.
    + by apply dk_commit.
    + fold dk_installed. unfold dk_later. apply result_eq. vm_compute. reflexivity.
    + by apply sd_use.
    + apply result_eq. vm_compute. reflexivity.
    + sd_runs.
  - eapply (disk_snapshot_stable dk_env 3 sd_top sd_topmost sd_top_top (log_ids [0] dk_primary) _ _ (sd_logged dk_rest) []
      dk_ready dk_done (set_pa dk_done (GetSnapshotData 0 demo_old (sb_pa dk_done) demo_be).2.1) demo_be demo_old 0 dk_follows).
    + vm_compute. reflexivity.
    + apply dk_first_snapshot.
    + vm_compute. reflexivity.
    + by apply dk_commit.
    + unfold dk_done. apply result_eq. vm_compute. reflexivity.
    + split; vm_compute; reflexivity.
    + apply history_nil.
    + exact eq_refl.
    + by apply sd_use.
    + apply result_eq. vm_compute. reflexivity.
    + cbn. set_solver +.
    + left. cbn. set_solver +.
Defined.
