(* ===== verification/MultiXactHistory.v ===== *)
(** * The multixact store as a history of member lists

    The two areas of [MultiXact] implement a history: one entry per multixact
    with its member list, entered when the id is handed out and completed when
    the members have been written.  Ids and offsets of the history are unbounded
    numbers; the 32-bit counters, the unused id 0, the unused member slot 0 and
    the pages are the implementation's. *)

From S2P Require Import Prelude.
From S2P Require Import TransactionId.
From S2P Require Import Slru.
From S2P Require Import SlruEntries.
From S2P Require Import Visibility.
From S2P Require Import MultiXactPages.
From S2P Require Import MultiXact.

(** ** Slots of the members area *)

(** The id and the status number in slot [o]. *)
Definition member_at (st : Slru) (o : Z) : Z * Z :=
  let pg := page_of st (MXOffsetToMemberPage o) in (get_member_xid pg o, get_member_code pg o).

Definition encode (m : MultiXactMember) : Z * Z := (mem_xid m, mxstatus_code (mem_status m)).

Definition member_ok (m : MultiXactMember) : Prop := 0 < mem_xid m < 0x100000000.

Lemma member_page_nonneg o : 0 <= o -> 0 <= MXOffsetToMemberPage o.
Proof. mx_lia. Qed.

Lemma keeps_member_at ctl st st' o : keeps ctl st st' -> member_at st' o = member_at st o.
Proof. intros Hk. unfold member_at. by rewrite (keeps_page_of _ _ _ _ Hk). Qed.

(** Writing one member. *)
Lemma put_member_modified ctl st st' o m : slru_wf ctl st -> 0 <= o -> member_ok m ->
  modified ctl (MXOffsetToMemberPage o) (put_member o m) st st' ->
  forall o', member_at st' o' = if o =? o' then encode m else member_at st o'.
Proof.
  intros Hok Ho Hm (_ & _ & Hpages & _) o'. unfold member_at, encode. rewrite Hpages.
  pose proof (page_of_wf ctl st (MXOffsetToMemberPage o) Hok (member_page_nonneg o Ho)) as Hwf.
  assert (is_u32 (mem_xid m)) as Hx by (unfold member_ok, is_u32 in *; lia).
  destruct (Z.eqb_spec (MXOffsetToMemberPage o') (MXOffsetToMemberPage o)) as [E|E].
  - rewrite E. rewrite get_put_member_xid, get_put_member_code by done. by destruct (o =? o').
  - destruct (Z.eqb_spec o o') as [<-|]; done.
Qed.

(** The outcome of a conditional look-up. *)
Ltac run_if st st' r E :=
  match goal with |- context [(if ?b then ?x else ?y) st] => destruct ((if b then x else y) st) as [st' r] eqn:E end.

(** Members written from [o] on: slot [o'] holds the one at its distance. *)
Definition written (ctl : SlruCtl) (o : Z) (ms : list MultiXactMember) (st st' : Slru) : Prop :=
  slru_wf ctl st' /\ (forall p, present st p -> present st' p) /\
  forall o', is_u32 o' -> member_at st' o' =
    match ms !! Z.to_nat (u32 (o' - o)) with Some m => encode m | None => member_at st o' end.

Lemma record_members_spec ctl ms : forall prev n o st st' r,
  slru_wf ctl st -> is_u32 o -> zlength ms < 0x100000000 -> Forall member_ok ms ->
  (forall k, 0 <= k < zlength ms -> present st (MXOffsetToMemberPage (u32 (o + k)))) ->
  (MXOffsetToMemberPage o = prev -> holding ctl st prev n) ->
  record_members ctl prev n o ms st = (st', r) ->
  match r with inr _ => written ctl o ms st st' | inl e => faulty ctl e /\ slru_wf ctl st' end.
Proof.
  induction ms as [|m ms IH]; intros prev n o st st' r Hok Ho Hlen Hms Hpr Hprev; cbn [record_members].
  { intros [= <- <-]. split_and!; [done..|]. intros o' _. by rewrite lookup_nil. }
  inversion_clear Hms as [|? ? Hm Hms']. assert (0 <= o) as H0 by (unfold is_u32 in Ho; lia).
  pose proof (member_page_nonneg o H0) as Hp0. unfold zlength in *. cbn [length] in *.
  assert (present st (MXOffsetToMemberPage o)) as Hpo.
  { rewrite <- (u32_small o) by done. replace o with (o + 0) at 1 by lia. apply Hpr. lia. }
  unfold pbind at 1. run_if st st1 r1 E1.
  apply hold_spec in E1 as [Hk E1]; [|done..|intros E; rewrite E; by apply Hprev].
  pose proof (keeps_wf _ _ _ Hk Hok) as Hok1.
  destruct r1 as [e|k]; [by intros [= <- <-]|]. destruct E1 as [Hh _].
  unfold pbind, pmod. destruct (slot_update_spec ctl st1 k _ (put_member o m) Hok1 Hp0 Hh (put_member_wf o m)) as [Hmod Hh'].
  set (st2 := upd_slot _ _ _) in *. intros E2. pose proof (put_member_modified ctl st1 st2 o m Hok1 H0 Hm Hmod) as Hat.
  assert (forall p, present st p -> present st2 p) as Hpr2.
  { intros p Hp. apply Hmod. by eapply keeps_present. }
  apply IH in E2; [|apply Hmod|apply u32_range|lia|done| |by intros _].
  2: { intros j Hj. apply Hpr2. replace (u32 (u32 (o + 1) + j)) with (u32 (o + (j + 1))) by cint. apply Hpr. lia. }
  destruct r as [e|[]]; [done|]. destruct E2 as (Hok3 & Hpr3 & Hat3). split_and!; [done|auto|].
  intros o' Ho'. rewrite Hat3 by done. destruct (Z.eqb_spec o o') as [<-|Hne].
  - rewrite Z.sub_diag. change (Z.to_nat (u32 0)) with 0%nat. cbn [lookup list_lookup].
    rewrite lookup_ge_None_2; [by rewrite Hat, Z.eqb_refl|]. cint.
  - replace (Z.to_nat (u32 (o' - o))) with (S (Z.to_nat (u32 (o' - u32 (o + 1))))) by cint. cbn [lookup list_lookup].
    destruct (ms !! _); [done|]. rewrite Hat, (proj2 (Z.eqb_neq _ _)) by done. by apply (keeps_member_at ctl).
Qed.

(** The contents of [n] slots from [o] on. *)
Fixpoint slots_from (st : Slru) (o : Z) (n : nat) : list (Z * Z) :=
  match n with
  | O => []
  | S n => member_at st o :: slots_from st (u32 (o + 1)) n
  end.

Definition used (slots : list (Z * Z)) : list (Z * Z) := filter (fun x => TransactionIdIsValid x.1 = true) slots.

Lemma used_cons x l : used (x :: l) = if TransactionIdIsValid x.1 then x :: used l else used l.
Proof. unfold used. rewrite filter_cons. by destruct (TransactionIdIsValid x.1). Qed.

Lemma keeps_slots_from ctl st st' n : forall o, keeps ctl st st' -> slots_from st' o n = slots_from st o n.
Proof.
  induction n as [|n IH]; intros o Hk; [done|]. cbn. by rewrite (keeps_member_at ctl st st'), IH.
Qed.

Lemma read_members_spec ctl n : forall prev k o st st' r,
  slru_wf ctl st -> is_u32 o -> (forall j, 0 <= j < Z.of_nat n -> present st (MXOffsetToMemberPage (u32 (o + j)))) ->
  (MXOffsetToMemberPage o = prev -> holding ctl st prev k) ->
  read_members ctl prev k o n st = (st', r) ->
  keeps ctl st st' /\ match r with inr l => l = used (slots_from st o n) | inl e => faulty ctl e end.
Proof.
  induction n as [|n IH]; intros prev k o st st' r Hok Ho Hpr Hprev; cbn [read_members].
  { intros [= <- <-]. split; [apply keeps_refl, Hok|done]. }
  assert (0 <= o) as H0 by (unfold is_u32 in Ho; lia).
  assert (present st (MXOffsetToMemberPage o)) as Hpo.
  { rewrite <- (u32_small o) by done. replace o with (o + 0) at 1 by lia. apply Hpr. lia. }
  unfold pbind at 1. run_if st st1 r1 E1.
  apply hold_spec in E1 as [Hk E1]; [|done|by apply member_page_nonneg|done|intros E; rewrite E; by apply Hprev].
  destruct r1 as [e|q]; [by intros [= <- <-]|]. destruct E1 as [Hh Hbuf]. unfold pbind, pget, pret. rewrite Hbuf.
  destruct (read_members _ _ _ _ _ st1) as [st2 r2] eqn:E2.
  apply IH in E2 as [Hk2 E2]; [|by eapply keeps_wf|apply u32_range| |by intros _].
  2: { intros j Hj. eapply keeps_present; [done|].
       replace (u32 (u32 (o + 1) + j)) with (u32 (o + (j + 1))) by cint. apply Hpr. lia. }
  destruct r2 as [e|l]; intros [= <- <-]; (split; [by eapply keeps_trans|]); [done|].
  rewrite E2, (keeps_slots_from ctl st st1) by done. cbn [slots_from]. rewrite used_cons. cbn [member_at fst].
  by destruct (TransactionIdIsValid _).
Qed.

Lemma decode_encode ms : decode_members (encode <$> ms) = inr ms.
Proof.
  induction ms as [|m ms IH]; [done|]. rewrite fmap_cons. unfold encode at 1. cbn [decode_members].
  rewrite mxstatus_of_code, IH. by destruct m.
Qed.

Lemma used_encode ms : Forall member_ok ms -> used (encode <$> ms) = encode <$> ms.
Proof.
  induction 1 as [|m ms Hm _ IH]; [done|]. rewrite fmap_cons, used_cons, IH.
  assert (TransactionIdIsValid (encode m).1 = true) as ->; [|done].
  unfold member_ok, encode, TransactionIdIsValid, InvalidTransactionId in *. cbn. lia.
Qed.

(** A slot list read back from where it was written. *)
Lemma slots_from_members st ms : forall o,
  (forall j m, ms !! j = Some m -> member_at st (u32 (o + Z.of_nat j)) = encode m) -> is_u32 o ->
  slots_from st o (length ms) = encode <$> ms.
Proof.
  induction ms as [|m ms IH]; intros o H Ho; [done|]. cbn. f_equal.
  - specialize (H 0%nat m eq_refl). cbn in H. rewrite Z.add_0_r, u32_small in H by done. done.
  - apply IH; [|apply u32_range]. intros j x Hj. specialize (H (S j) x Hj).
    by replace (u32 (u32 (o + 1) + Z.of_nat j)) with (u32 (o + Z.of_nat (S j))) by cint.
Qed.

(** ** Histories *)

(** The id of multixact number [M]; id 0 is never used. *)
Definition multi_of (M : Z) : Z := 1 + M mod 0xFFFFFFFF.

(** A multixact from offset [e_start] on; [None] until its members are stored. *)
Record Entry := MkEntry {
  e_start : Z;
  e_count : nat;
  e_members : option (list MultiXactMember);
}.

(** Slot 0 of the members area is passed over. *)
Definition skip (P : Z) : Z := if u32 P =? 0 then 1 else 0.
Definition e_first (e : Entry) : Z := e_start e + skip (e_start e).
Definition e_end (e : Entry) : Z := e_first e + Z.of_nat (e_count e).

Record History := MkHistory {
  h_base : Z;
  h_offset : Z;
  h_entries : list Entry;
}.

Definition h_next (h : History) : Z := h_base h + zlength (h_entries h).

Fixpoint chain (P : Z) (l : list Entry) : Prop :=
  match l with
  | [] => True
  | e :: l => e_start e = P /\ chain (e_end e) l
  end.

Fixpoint ends (P : Z) (l : list Entry) : Z :=
  match l with
  | [] => P
  | e :: l => ends (e_end e) l
  end.

Definition h_end (h : History) : Z := ends (h_offset h) (h_entries h).

Lemma skip_range P : 0 <= skip P <= 1.
Proof. unfold skip. destruct (_ =? _); lia. Qed.

Lemma e_bounds e : e_start e <= e_first e <= e_end e.
Proof. pose proof (skip_range (e_start e)). unfold e_end, e_first. lia. Qed.

Lemma ends_ge l : forall P, chain P l -> P <= ends P l.
Proof.
  induction l as [|e l IH]; intros P; cbn; [lia|]. intros [<- Hc]. pose proof (e_bounds e). specialize (IH _ Hc). lia.
Qed.

Lemma ends_app P l e : ends P (l ++ [e]) = e_end e.
Proof. revert P. induction l as [|a l IH]; intros P; cbn; [done|]. apply IH. Qed.

Lemma chain_app P l e : chain P (l ++ [e]) <-> chain P l /\ e_start e = ends P l.
Proof. revert P. induction l as [|a l IH]; intros P; cbn; [tauto|]. rewrite IH. tauto. Qed.

Lemma chain_bounds l : forall P i e, chain P l -> l !! i = Some e -> P <= e_start e /\ e_end e <= ends P l.
Proof.
  induction l as [|a l IH]; intros P [|i] e Hc; cbn; try done; destruct Hc as [<- Hc].
  - intros [= <-]. pose proof (ends_ge l _ Hc). lia.
  - intros Hi. destruct (IH _ i e Hc Hi). pose proof (e_bounds a). lia.
Qed.

(** Entries follow each other without a gap. *)
Lemma chain_next l : forall P i e, chain P l -> l !! i = Some e ->
  (forall e', l !! S i = Some e' -> e_start e' = e_end e) /\ (l !! S i = None -> ends P l = e_end e).
Proof.
  induction l as [|a l IH]; intros P [|i] e Hc; cbn; try done; destruct Hc as [<- Hc].
  - intros [= <-]. destruct l as [|b l]; cbn in *; [done|]. split; [|done]. intros e' [= <-]. by destruct Hc.
  - intros Hi. by apply (IH (e_end a)).
Qed.

Lemma chain_order l : forall P i j e e', chain P l -> (i < j)%nat -> l !! i = Some e -> l !! j = Some e' -> e_end e <= e_start e'.
Proof.
  induction l as [|a l IH]; intros P [|i] [|j] e e' Hc Hij; cbn; try done; try lia; destruct Hc as [<- Hc].
  - intros [= <-] Hj. by apply (chain_bounds l (e_end a) j e' Hc).
  - intros Hi Hj. by apply (IH (e_end a) i j); [|lia|..].
Qed.

(** Storing the members changes neither place nor length. *)
Definition complete (ms : list MultiXactMember) (e : Entry) : Entry := MkEntry (e_start e) (e_count e) (Some ms).

Lemma chain_complete l ms : forall P i e, l !! i = Some e -> chain P l ->
  chain P (<[i := complete ms e]> l) /\ ends P (<[i := complete ms e]> l) = ends P l.
Proof.
  induction l as [|a l IH]; intros P [|i] e; cbn; try done.
  - intros [= <-] [<- Hc]. done.
  - intros Hi [<- Hc]. destruct (IH (e_end a) i e Hi Hc). done.
Qed.

Lemma multi_of_range M : 1 <= multi_of M <= 0xFFFFFFFF.
Proof. unfold multi_of. lia. Qed.

Lemma multi_of_inj M M' : multi_of M = multi_of M' -> - 0xFFFFFFFF < M - M' < 0xFFFFFFFF -> M = M'.
Proof. unfold multi_of. lia. Qed.

Lemma multi_of_next M : multi_of (M + 1) = valid_multi (u32 (multi_of M + 1)).
Proof. unfold multi_of, valid_multi, FirstMultiXactId, u32. case_match; lia. Qed.

(** ** The invariant *)

Definition offset_at (st : Slru) (m : Z) : Z := get_offset (page_of st (MultiXactIdToOffsetPage m)) m.

(** Multixact number [M] is stored as [e] says. *)
Record entry_ok (so sm : Slru) (M : Z) (e : Entry) : Prop := {
  eo_count : 0 < Z.of_nat (e_count e) < 0x7FFFFFFF;
  eo_present : present so (MultiXactIdToOffsetPage (multi_of M));
  eo_offset : offset_at so (multi_of M) = match e_members e with Some _ => u32 (e_first e) | None => 0 end;
  eo_pages : forall P, e_start e <= P < e_end e -> present sm (MXOffsetToMemberPage (u32 P));
  eo_skip : skip (e_start e) = 1 -> (member_at sm (u32 (e_start e))).1 = 0;
  eo_members : forall ms, e_members e = Some ms ->
    length ms = e_count e /\ Forall member_ok ms /\
    forall j m, ms !! j = Some m -> member_at sm (u32 (e_first e + Z.of_nat j)) = encode m;
}.

(** The multixacts that open a page of the offsets area. *)
Definition opens (m : Z) : bool := (MultiXactIdToOffsetEntry m =? 0) || (m =? FirstMultiXactId).

(** The offsets area is ready for the next id: its page is there, and blank from
    the id on, unless the id is to open it. *)
Definition offsets_ready (so : Slru) (m : Z) : Prop :=
  present so (MultiXactIdToOffsetPage m) /\
  forall m', MultiXactIdToOffsetPage m' = MultiXactIdToOffsetPage m -> m <= m' -> offset_at so m' = 0.

Definition members_ready (sm : Slru) (P : Z) : Prop :=
  u32 P mod MULTIXACT_MEMBERS_PER_PAGE = 0 \/ present sm (MXOffsetToMemberPage (u32 P)).

(** The counter is 0 between the last id and the first. *)
Definition counts (n M : Z) : Prop := n = multi_of M \/ n = 0 /\ multi_of M = 1.

Definition MULTIXACT_MEMBERS_PER_SEGMENT : Z := MULTIXACT_MEMBERS_PER_PAGE * SLRU_PAGES_PER_SEGMENT.

(** The first offset of a segment of the members area. *)
Definition segment_start (P : Z) : Z := P - u32 P mod MULTIXACT_MEMBERS_PER_SEGMENT.

(** Offsets that are not to be reached: a segment short of the first one in use. *)
Definition stop_ok (h : History) (stop : Z) : Prop :=
  h_end h < stop /\ stop + MULTIXACT_MEMBERS_PER_SEGMENT <= segment_start (h_offset h) + 0x100000000.

Lemma stop_page h stop : stop_ok h stop -> h_end h < stop /\ stop + MULTIXACT_MEMBERS_PER_PAGE <= h_offset h + 0x100000000.
Proof.
  unfold stop_ok, segment_start. change MULTIXACT_MEMBERS_PER_SEGMENT with 52352. change MULTIXACT_MEMBERS_PER_PAGE with 1636. lia.
Qed.

Record stored (so sm : Slru) (h : History) : Prop := {
  st_base : 0 <= h_base h;
  st_offset : 0 <= h_offset h;
  st_chain : chain (h_offset h) (h_entries h);
  st_few : zlength (h_entries h) < 0x7FFFFFFF;
  st_entries : forall i e, h_entries h !! i = Some e -> entry_ok so sm (h_base h + Z.of_nat i) e;
  st_offsets : opens (multi_of (h_next h)) = true \/ offsets_ready so (multi_of (h_next h));
  st_members : members_ready sm (h_end h);
}.

Record mx_ok (env : MXEnv) (s : MX) (h : History) : Prop := {
  mo_offsets : slru_wf (MultiXactOffsetCtl env) (mx_offsets s);
  mo_members : slru_wf (MultiXactMemberCtl env) (mx_members s);
  mo_stored : stored (mx_offsets s) (mx_members s) h;
  mo_next : counts (nextMXact (MultiXactState s)) (h_next h);
  mo_next_offset : nextOffset (MultiXactState s) = u32 (h_end h);
  mo_known : oldestOffsetKnown (MultiXactState s) = true;
  mo_stop : exists stop, stop_ok h stop /\ offsetStopLimit (MultiXactState s) = u32 stop;
}.

(** An entry is not affected by what happens elsewhere. *)
Lemma entry_local so sm so' sm' M e : entry_ok so sm M e ->
  present so' (MultiXactIdToOffsetPage (multi_of M)) -> offset_at so' (multi_of M) = offset_at so (multi_of M) ->
  (forall P, e_start e <= P < e_end e -> present sm' (MXOffsetToMemberPage (u32 P)) /\ member_at sm' (u32 P) = member_at sm (u32 P)) ->
  entry_ok so' sm' M e.
Proof.
  intros [] Hp Ho Hm. pose proof (e_bounds e). split; [done|done|congruence| | |].
  - intros P HP. by apply Hm.
  - intros Hs. destruct (Hm (e_start e)) as [_ ->]; [unfold e_end in *; lia|auto].
  - intros ms Hms. destruct (eo_members0 ms Hms) as (Hl & Hf & Hat). split_and!; [done..|]. intros j m Hj.
    pose proof (lookup_lt_Some _ _ _ Hj). destruct (Hm (e_first e + Z.of_nat j)) as [_ ->]; [unfold e_end; lia|auto].
Qed.

Lemma entry_frame so sm so' sm' M e : entry_ok so sm M e ->
  present so' (MultiXactIdToOffsetPage (multi_of M)) -> offset_at so' (multi_of M) = offset_at so (multi_of M) ->
  (forall p, present sm p -> present sm' p) ->
  (forall P, e_start e <= P < e_end e -> member_at sm' (u32 P) = member_at sm (u32 P)) -> entry_ok so' sm' M e.
Proof. intros He Hp Ho Hpm Hm. apply (entry_local so sm); [done..|]. intros P HP. split; [by apply Hpm, He|auto]. Qed.

(** ** New pages of the offsets area *)

Lemma offset_page_nonneg M : 0 <= MultiXactIdToOffsetPage (multi_of M).
Proof. pose proof (multi_of_range M). mx_lia. Qed.

(** The page opened for an id holds none of those before it. *)
Lemma opens_fresh M k : opens (multi_of M) = true -> 0 < k < 0x7FFFFFFF ->
  MultiXactIdToOffsetPage (multi_of (M - k)) <> MultiXactIdToOffsetPage (multi_of M).
Proof. unfold opens, FirstMultiXactId, multi_of. rewrite orb_true_iff, !Z.eqb_eq. intros. mx_lia. Qed.

(** On the page of an id, those before it are below. *)
Lemma before_below M k : 0 < k < 0x7FFFFFFF ->
  MultiXactIdToOffsetPage (multi_of (M - k)) = MultiXactIdToOffsetPage (multi_of M) -> multi_of (M - k) < multi_of M.
Proof. unfold multi_of. intros. mx_lia. Qed.

Lemma entry_behind so sm h i e : stored so sm h -> h_entries h !! i = Some e ->
  exists k, 0 < k < 0x7FFFFFFF /\ h_base h + Z.of_nat i = h_next h - k.
Proof.
  intros Hst Hi. apply lookup_lt_Some in Hi. pose proof (st_few _ _ _ Hst). unfold h_next, zlength in *.
  exists (Z.of_nat (length (h_entries h)) - Z.of_nat i). lia.
Qed.

Lemma zero_offsets m : get_offset zero_page m = 0.
Proof. apply get_le_zero; mx_lia. Qed.

Lemma extend_offset_spec env s h s' r : slru_wf (MultiXactOffsetCtl env) (mx_offsets s) ->
  stored (mx_offsets s) (mx_members s) h ->
  ExtendMultiXactOffset env (multi_of (h_next h)) s = (s', r) ->
  MultiXactState s' = MultiXactState s /\ mx_members s' = mx_members s /\ MXactCache s' = MXactCache s /\
  slru_wf (MultiXactOffsetCtl env) (mx_offsets s') /\ stored (mx_offsets s') (mx_members s) h /\
  match r with
  | inr _ => offsets_ready (mx_offsets s') (multi_of (h_next h))
  | inl e => exists err, e = MultiXactIO err /\ faulty (MultiXactOffsetCtl env) err
  end.
Proof.
  intros Hok Hst. unfold ExtendMultiXactOffset. rewrite <- negb_orb. fold (opens (multi_of (h_next h))).
  destruct (opens (multi_of (h_next h))) eqn:Hop; cbn [negb].
  2: { intros [= <- <-]. destruct (st_offsets _ _ _ Hst); [congruence|done]. }
  unfold ZeroMultiXactOffsetPage, WriteMZeroPageXlogRec, pwhen, pmod, pbind, pret, on_offsets.
  destruct (SimpleLruZeroPage _ _ _) as [st1 r1] eqn:E1.
  apply zero_page_modified in E1; [|done|apply offset_page_nonneg]. pose proof Hst as [H1 H2 H3 H4 H5 H6 H7].
  destruct r1 as [err|n]; intros [= <- <-]; cbn.
  - destruct E1 as [Hf Hk]. split_and!; [done..|by eapply keeps_wf| |by eexists].
    split; [done..| |by left|done]. intros i e Hi. apply (entry_frame (mx_offsets s) (mx_members s)); auto.
    + eapply keeps_present; [done|]. by eapply H5.
    + unfold offset_at. by rewrite (keeps_page_of _ _ _ _ Hk).
  - destruct E1 as [(W & P & Hpages & Hpr) _]. split_and!; [done..| |].
    + split; [done..| |by left|done]. intros i e Hi. apply (entry_frame (mx_offsets s) (mx_members s)); auto.
      * apply Hpr. by eapply H5.
      * destruct (entry_behind _ _ _ _ _ Hst Hi) as (k & Hk & ->). unfold offset_at. rewrite Hpages.
        by rewrite (proj2 (Z.eqb_neq _ _)) by (by apply opens_fresh).
    + split; [done|]. intros m' Hm' _. unfold offset_at. rewrite Hpages, Hm', Z.eqb_refl. apply zero_offsets.
Qed.

(** ** New pages of the members area *)

Lemma left_on_page_eq o : is_u32 o ->
  left_on_page o = Z.min (MULTIXACT_MEMBERS_PER_PAGE - o mod MULTIXACT_MEMBERS_PER_PAGE) (0x100000000 - o).
Proof.
  unfold is_u32, left_on_page, MaxMultiXactOffset. change MAX_MEMBERS_IN_LAST_MEMBERS_PAGE with 1036.
  change MULTIXACT_MEMBERS_PER_PAGE with 1636. unfold u32. intros Ho.
  destruct (Z.ltb_spec ((o + 1036) mod 0x100000000) o); lia.
Qed.

Lemma page_start o : is_u32 o ->
  (MXOffsetToFlagsOffset o =? 0) && (MXOffsetToFlagsBitShift o =? 0) = (o mod MULTIXACT_MEMBERS_PER_PAGE =? 0).
Proof. unfold is_u32. intros Ho. apply eq_true_iff_eq. rewrite andb_true_iff, !Z.eqb_eq. mx_lia. Qed.

(** The slots behind [P] are as they were, as far back as the area reaches when
    [lim] is the end of what is in use. *)
Definition behind_same (P lim : Z) (sm sm' : Slru) : Prop :=
  (forall p, present sm p -> present sm' p) /\
  forall Q, Q < P -> lim + MULTIXACT_MEMBERS_PER_PAGE <= Q + 0x100000000 -> member_at sm' (u32 Q) = member_at sm (u32 Q).

Lemma behind_trans P P' lim sm1 sm2 sm3 : P <= P' ->
  behind_same P lim sm1 sm2 -> behind_same P' lim sm2 sm3 -> behind_same P lim sm1 sm3.
Proof. intros Hle [Hp1 H1] [Hp2 H2]. split; [auto|]. intros Q HQ Hlim. rewrite H2, H1 by lia. done. Qed.

Lemma behind_keeps ctl P lim sm sm' : keeps ctl sm sm' -> behind_same P lim sm sm'.
Proof. intros Hk. split; [intros p; by eapply keeps_present|]. intros Q _ _. by eapply keeps_member_at. Qed.

Lemma zero_member o : (get_member_xid zero_page o) = 0.
Proof. destruct (offset_on_page o) as (? & ? & ? & ? & _). apply get_le_zero; lia. Qed.

Lemma behind_zero ctl P lim sm sm' : u32 P mod MULTIXACT_MEMBERS_PER_PAGE = 0 -> P <= lim ->
  modified ctl (MXOffsetToMemberPage (u32 P)) (fun _ => zero_page) sm sm' ->
  behind_same P lim sm sm' /\ (member_at sm' (u32 P)).1 = 0.
Proof.
  intros H0 Hlim (_ & _ & Hpages & Hpr). unfold behind_same, member_at. split; [split; [done|]|].
  - intros Q HQ Hb. rewrite Hpages. rewrite (proj2 (Z.eqb_neq _ _)); [done|]. unfold u32 in *. mx_lia.
  - rewrite Hpages, Z.eqb_refl. apply zero_member.
Qed.

Lemma zero_member_page_spec env s p s' r : slru_wf (MultiXactMemberCtl env) (mx_members s) -> 0 <= p ->
  (ZeroMultiXactMemberPage env p true ;;; pret tt)%prog s = (s', r) ->
  MultiXactState s' = MultiXactState s /\ mx_offsets s' = mx_offsets s /\ MXactCache s' = MXactCache s /\
  match r with
  | inr _ => modified (MultiXactMemberCtl env) p (fun _ => zero_page) (mx_members s) (mx_members s')
  | inl e => keeps (MultiXactMemberCtl env) (mx_members s) (mx_members s') /\
      exists err, e = MultiXactIO err /\ faulty (MultiXactMemberCtl env) err
  end.
Proof.
  intros Hok Hp. unfold ZeroMultiXactMemberPage, WriteMZeroPageXlogRec, pwhen, pmod, pbind, pret, on_members.
  destruct (SimpleLruZeroPage _ _ _) as [st1 r1] eqn:E1. apply zero_page_modified in E1; [|done..].
  destruct r1 as [err|n]; intros [= <- <-]; cbn; (split; [done|]; split; [done|]; split; [done|]).
  - destruct E1 as [Hf Hk]. split; [done|]. by exists err.
  - apply E1.
Qed.

(** The loop leaves the pages of [n] members from [P] on ready. *)
Definition members_extended (env : MXEnv) (P n : Z) (s s' : MX) (r : MultiXactError + unit) : Prop :=
  MultiXactState s' = MultiXactState s /\ mx_offsets s' = mx_offsets s /\ MXactCache s' = MXactCache s /\
  slru_wf (MultiXactMemberCtl env) (mx_members s') /\ behind_same P (P + n) (mx_members s) (mx_members s') /\
  match r with
  | inr _ =>
      (forall Q, P <= Q < P + n -> present (mx_members s') (MXOffsetToMemberPage (u32 Q))) /\
      (u32 P mod MULTIXACT_MEMBERS_PER_PAGE = 0 -> 0 < n -> (member_at (mx_members s') (u32 P)).1 = 0)
  | inl e => exists err, e = MultiXactIO err /\ faulty (MultiXactMemberCtl env) err
  end.

Lemma same_page P Q : P <= Q < P + left_on_page (u32 P) -> MXOffsetToMemberPage (u32 Q) = MXOffsetToMemberPage (u32 P).
Proof. rewrite left_on_page_eq by apply u32_range. unfold u32. intros. mx_lia. Qed.

(** The loop steps from page to page. *)
Lemma left_next P : u32 (P + left_on_page (u32 P)) mod MULTIXACT_MEMBERS_PER_PAGE = 0.
Proof. rewrite left_on_page_eq by apply u32_range. unfold u32. mx_lia. Qed.

Lemma left_pos o : is_u32 o -> 1 <= left_on_page o.
Proof. intros Ho. rewrite left_on_page_eq by done. unfold is_u32 in Ho. mx_lia. Qed.

(** One round: the page of [P] is there, and blank if it starts at [P]. *)
Lemma extend_round env s P n s' r : slru_wf (MultiXactMemberCtl env) (mx_members s) ->
  members_ready (mx_members s) P -> 0 <= n ->
  pwhen ((MXOffsetToFlagsOffset (u32 P) =? 0) && (MXOffsetToFlagsBitShift (u32 P) =? 0))
    (ZeroMultiXactMemberPage env (MXOffsetToMemberPage (u32 P)) true ;;; pret tt)%prog s = (s', r) ->
  MultiXactState s' = MultiXactState s /\ mx_offsets s' = mx_offsets s /\ MXactCache s' = MXactCache s /\
  slru_wf (MultiXactMemberCtl env) (mx_members s') /\ behind_same P (P + n) (mx_members s) (mx_members s') /\
  match r with
  | inr _ => present (mx_members s') (MXOffsetToMemberPage (u32 P)) /\
      (u32 P mod MULTIXACT_MEMBERS_PER_PAGE = 0 -> (member_at (mx_members s') (u32 P)).1 = 0)
  | inl e => exists err, e = MultiXactIO err /\ faulty (MultiXactMemberCtl env) err
  end.
Proof.
  intros Hok Hready Hn. rewrite page_start by apply u32_range. pose proof (u32_range P) as Hu.
  destruct (Z.eqb_spec (u32 P mod MULTIXACT_MEMBERS_PER_PAGE) 0) as [E0|E0]; cbn [pwhen].
  - intros E. apply zero_member_page_spec in E as (H1 & H2 & H3 & E); [|done|apply member_page_nonneg; unfold is_u32 in Hu; lia].
    repeat (split; [done|]). destruct r as [e|[]].
    + destruct E as [Hk He]. split; [by eapply keeps_wf|]. split; [by eapply behind_keeps|done].
    + destruct (behind_zero _ P (P + n) _ _ E0 ltac:(lia) E) as [Hb Hz]. split; [apply E|]. split; [done|].
      by split; [apply (proj1 (proj2 E))|].
  - intros [= <- <-]. destruct Hready as [?|Hpr]; [done|]. split_and!; try done.
Qed.

Lemma extend_done fuel env o n s : n <= 0 -> extend_members_loop fuel env o n s = (s, inr tt).
Proof. intros Hn. destruct fuel; cbn [extend_members_loop]; [done|]. by rewrite (proj2 (Z.ltb_ge 0 n)). Qed.

Lemma extend_members_spec env fuel : forall P n s s' r, slru_wf (MultiXactMemberCtl env) (mx_members s) ->
  members_ready (mx_members s) P -> 0 <= n <= Z.of_nat fuel -> n + MULTIXACT_MEMBERS_PER_PAGE <= 0x100000000 ->
  extend_members_loop fuel env (u32 P) n s = (s', r) -> members_extended env P n s s' r.
Proof.
  induction fuel as [|fuel IH]; intros P n s s' r Hok Hready Hn Hmax; cbn [extend_members_loop].
  { intros [= <- <-]. repeat (split; [done|]). split; intros; lia. }
  destruct (Z.ltb_spec 0 n) as [Hpos|Hpos]; cbn [negb].
  2: { intros [= <- <-]. repeat (split; [done|]). split; intros; lia. }
  unfold pbind at 1. destruct (pwhen _ _ _) as [s1 r1] eqn:E1.
  apply (extend_round _ _ _ n) in E1 as (S1 & O1 & C1 & W1 & B1 & R1); [|done|done|lia].
  destruct r1 as [e|[]]; [by intros [= <- <-]|]. destruct R1 as [Hp1 Hz1]. cbn zeta.
  set (d := left_on_page (u32 P)). pose proof (left_pos (u32 P) (u32_range P)) as Hd. fold d in Hd.
  replace (u32 (u32 P + d)) with (u32 (P + d)) by cint. destruct (Z.le_gt_cases n d) as [Hlast|Hmore].
  - rewrite extend_done by lia. intros [= <- <-]. repeat (split; [done|]). split; [|auto].
    intros Q HQ. by rewrite (same_page P Q) by lia.
  - intros E2. apply IH in E2; [|done|left; apply left_next|lia|lia].
    destruct E2 as (S2 & O2 & C2 & W2 & B2 & R2). replace (P + d + (n - d)) with (P + n) in * by lia.
    unfold members_extended. split_and!; [congruence..|done|by eapply (behind_trans P (P + d)); [lia|..]|].
    destruct r as [e|[]]; [done|]. destruct R2 as [R2 _]. split.
    + intros Q HQ. destruct (Z.lt_ge_cases Q (P + d)) as [Hq|Hq]; [|apply R2; lia].
      rewrite (same_page P Q) by lia. by apply B2.
    + intros H0 _. destruct B2 as [_ B2]. rewrite B2 by lia. auto.
Qed.

(** ** A new multixact *)

(** Histories grow: entries are added, and their members are stored. *)
Definition grown (e e' : Entry) : Prop :=
  e_start e' = e_start e /\ e_count e' = e_count e /\ forall ms, e_members e = Some ms -> e_members e' = Some ms.

Definition later (h h' : History) : Prop :=
  h_base h' = h_base h /\ h_offset h' = h_offset h /\
  forall i e, h_entries h !! i = Some e -> exists e', h_entries h' !! i = Some e' /\ grown e e'.

#[export] Instance later_preorder : PreOrder later.
Proof.
  split.
  - intros h. split_and!; [done..|]. intros i e Hi. by exists e.
  - intros h1 h2 h3 (Hb & Ho & H1) (Hb' & Ho' & H2). split_and!; [congruence..|]. intros i e Hi.
    destruct (H1 i e Hi) as (e2 & Hi2 & E1 & E2 & E3). destruct (H2 i e2 Hi2) as (e3 & Hi3 & F1 & F2 & F3).
    exists e3. split; [done|]. split_and!; [congruence..|auto].
Qed.

(** The history with an id handed out for [n] members. *)
Definition pending (h : History) (n : nat) : Entry := MkEntry (h_end h) n None.
Definition push (h : History) (n : nat) : History := MkHistory (h_base h) (h_offset h) (h_entries h ++ [pending h n]).

Lemma push_later h n : later h (push h n).
Proof. split_and!; [done..|]. intros i e Hi. exists e. split; [by apply lookup_app_l_Some|done]. Qed.

Lemma push_end h n : h_end (push h n) = h_end h + skip (h_end h) + Z.of_nat n.
Proof. unfold h_end at 1. cbn. by rewrite ends_app. Qed.

Lemma push_next h n : h_next (push h n) = h_next h + 1.
Proof. unfold h_next, zlength. cbn. rewrite length_app. cbn. lia. Qed.

Lemma ready_next so M : offsets_ready so (multi_of M) ->
  opens (multi_of (M + 1)) = true \/ offsets_ready so (multi_of (M + 1)).
Proof.
  intros [Hp Hz]. destruct (opens (multi_of (M + 1))) eqn:Ho; [by left|right].
  unfold opens, FirstMultiXactId in Ho. rewrite orb_false_iff, !Z.eqb_neq in Ho.
  assert (MultiXactIdToOffsetPage (multi_of (M + 1)) = MultiXactIdToOffsetPage (multi_of M) /\ multi_of M <= multi_of (M + 1)) as [E Hle].
  { unfold multi_of in *. mx_lia. }
  split; [by rewrite E|]. intros m' Em Hm. apply Hz; [congruence|lia].
Qed.

Lemma members_ready_end sm P Q : P < Q -> (forall Q', P <= Q' < Q -> present sm (MXOffsetToMemberPage (u32 Q'))) -> members_ready sm Q.
Proof.
  intros HPQ Hpr. destruct (Z.eq_dec (u32 Q mod MULTIXACT_MEMBERS_PER_PAGE) 0) as [E|E]; [by left|right].
  replace (MXOffsetToMemberPage (u32 Q)) with (MXOffsetToMemberPage (u32 (Q - 1))); [apply Hpr; lia|].
  unfold u32 in *. mx_lia.
Qed.

Lemma stored_push so sm h n : stored so sm h -> offsets_ready so (multi_of (h_next h)) ->
  0 < Z.of_nat n < 0x7FFFFFFF -> zlength (h_entries h) < 0x7FFFFFFE ->
  (forall Q, h_end h <= Q < h_end h + skip (h_end h) + Z.of_nat n -> present sm (MXOffsetToMemberPage (u32 Q))) ->
  (skip (h_end h) = 1 -> (member_at sm (u32 (h_end h))).1 = 0) -> stored so sm (push h n).
Proof.
  intros [H1 H2 H3 H4 H5 H6 H7] Hready Hn Hroom Hpages Hskip. split; try done.
  - cbn. by apply chain_app.
  - cbn. unfold zlength in *. rewrite length_app. cbn. lia.
  - cbn. intros i e [Hi|[Hi He]]%lookup_app_Some; [by apply H5|]. apply list_lookup_singleton_Some in He as [Ei <-].
    replace (h_base h + Z.of_nat i) with (h_next h) by (unfold h_next, zlength; lia). destruct Hready as [Hp Hz]. split; try done.
    cbn. by apply Hz.
  - rewrite push_next. by apply ready_next.
  - rewrite push_end. pose proof (skip_range (h_end h)). by apply (members_ready_end sm (h_end h)); [lia|].
Qed.

(** The guard on the members area is exact, and counts slot 0 where the stretch
    runs past the end of the area. *)
Lemma would_wrap_spec P stop n : P < stop -> stop <= P + 0x100000000 -> 0 <= n < 0x80000000 ->
  MultiXactOffsetWouldWrap (u32 stop) (u32 P) (u32 n) = (stop <=? P + n + (if u32 (P + n) <? u32 P then 1 else 0)).
Proof.
  intros H1 H2 Hn. unfold MultiXactOffsetWouldWrap. replace (u32 (u32 P + u32 n)) with (u32 (P + n)) by cint.
  apply eq_true_iff_eq. rewrite Z.leb_le.
  destruct (Z.ltb_spec (u32 (P + n)) (u32 P)) as [Hw|Hw]; [replace (u32 (u32 (P + n) + 1)) with (u32 (P + n + 1)) by cint|];
    (destruct (Z.ltb_spec (u32 P) (u32 stop)); [rewrite orb_true_iff|rewrite andb_true_iff]; rewrite Z.leb_le, Z.ltb_lt; unfold u32 in *; lia).
Qed.

(** Only the counters and the two areas matter. *)
Lemma mx_ok_same env s s' h : MultiXactState s' = MultiXactState s -> mx_offsets s' = mx_offsets s -> mx_members s' = mx_members s ->
  mx_ok env s h -> mx_ok env s' h.
Proof. intros E1 E2 E3 []. split; rewrite ?E1, ?E2, ?E3; done. Qed.

Lemma check_members_spec env n s h s' r : mx_ok env s h -> 0 <= n < 0x80000000 -> check_member_limits n s = (s', r) ->
  MultiXactState s' = MultiXactState s /\ mx_offsets s' = mx_offsets s /\ mx_members s' = mx_members s /\
  MXactCache s' = MXactCache s /\
  match r with
  | inr _ => exists stop, stop_ok h stop /\ offsetStopLimit (MultiXactState s) = u32 stop /\ h_end h + n < stop
  | inl e => e = MultiXactMembersLimit n
  end.
Proof.
  intros Hok Hn. destruct (mo_stop _ _ _ Hok) as (stop & Hstop & Es). destruct (stop_page _ _ Hstop) as [Hlt Hle]. unfold check_member_limits.
  pose proof (ends_ge _ _ (st_chain _ _ _ (mo_stored _ _ _ Hok))) as Hge. fold (h_end h) in Hge.
  rewrite (mo_known _ _ _ Hok), Es, (mo_next_offset _ _ _ Hok), would_wrap_spec by mx_lia.
  cbn [andb]. set (e := if _ <? _ then _ else _). assert (0 <= e) by (unfold e; case_match; lia).
  destruct (Z.leb_spec stop (h_end h + n + e)) as [Hw|Hw].
  { intros [= <- <-]. by split_and!. }
  intros [= <- <-]. repeat case_match; cbn; (repeat (split; [done|])); exists stop; (split; [done|]); (split; [done|lia]).
Qed.

(** There is an id left. *)
Definition few (h : History) : Prop := zlength (h_entries h) < 0x7FFFFFFE.

(** What others do while this process holds no lock: they hand out ids as long as
    there are any, and store members. *)
Definition others (env : MXEnv) (f : MX -> MX) : Prop :=
  forall s h, mx_ok env s h ->
  exists h', later h h' /\ mx_ok env (f s) h' /\ MXactCache (f s) = MXactCache s /\ (few h -> few h').

(** They do not use up the last id before the counter wraps around. *)
Definition keeps_id (f : MX -> MX) : Prop :=
  forall s, nextMXact (MultiXactState s) <> 0 -> nextMXact (MultiXactState (f s)) <> 0.

Lemma counts_valid n M : counts n M -> valid_multi n = multi_of M.
Proof.
  unfold counts, valid_multi, FirstMultiXactId. pose proof (multi_of_range M). intros [->|[-> E]]; [|done].
  destruct (Z.ltb_spec (multi_of M) 1); lia.
Qed.

Lemma check_multi_spec env s h s' r : mx_ok env s h -> others env (MX_meanwhile env) -> keeps_id (MX_meanwhile env) -> check_multi_limits env s = (s', r) ->
  exists h', later h h' /\ mx_ok env s' h' /\ MXactCache s' = MXactCache s /\ (few h -> few h') /\
  match r with
  | inr m => m = multi_of (h_next h') /\ nextMXact (MultiXactState s') = m
  | inl e => exists db, e = MultiXactStopLimit db (MX_get_database_name env db)
  end.
Proof.
  intros Hok Ho Hid. unfold check_multi_limits. cbn zeta. set (m := MultiXactState s).
  assert (valid_multi (nextMXact m) = multi_of (h_next h)) as Ev by (apply counts_valid, Hok).
  set (s1 := mx_set_state s _). assert (mx_ok env s1 h) as Hok1.
  { destruct Hok. split; try done. cbn. rewrite Ev. by left. }
  assert (forall t, MultiXactState t = MultiXactState s1 -> mx_offsets t = mx_offsets s1 -> mx_members t = mx_members s1 ->
    MXactCache t = MXactCache s -> exists h', later h h' /\ mx_ok env (MX_meanwhile env t) h' /\ MXactCache (MX_meanwhile env t) = MXactCache s /\ (few h -> few h') /\
      valid_multi (nextMXact (MultiXactState (MX_meanwhile env t))) = multi_of (h_next h') /\
      nextMXact (MultiXactState (MX_meanwhile env t)) = multi_of (h_next h')) as Hothers.
  { intros t E1 E2 E3 E4. destruct (Ho t h) as (h' & Hl & Hok' & Hc & Hf); [by apply (mx_ok_same env s1)|].
    exists h'. split_and!; [done|done|congruence|done|apply counts_valid, Hok'|].
    destruct (mo_next _ _ _ Hok') as [?|[E _]]; [done|]. exfalso. revert E. apply Hid.
    rewrite E1. cbn. rewrite Ev. pose proof (multi_of_range (h_next h)). lia. }
  destruct (negb (MultiXactIdPrecedes _ _)).
  2: { intros [= <- <-]. exists h. split_and!; done. }
  destruct (_ && negb _).
  { intros [= <- <-]. exists h. split_and!; [done|by apply (mx_ok_same env s1)|done|done|by eexists]. }
  intros [= <- <-]. match goal with |- context [MX_meanwhile env ?t] => set (t1 := t) end.
  destruct (Hothers t1) as (h' & Hl & Hok' & Hc & Hf & E1 & E2); [unfold t1; by repeat case_match..|].
  exists h'. split_and!; [done..|congruence].
Qed.

Lemma mx_offset_le env s h : mx_ok env s h -> h_offset h <= h_end h.
Proof. intros Hok. apply (ends_ge (h_entries h)), Hok. Qed.

Lemma stored_behind so sm sm' h lim stop : stored so sm h -> stop_ok h stop -> lim < stop ->
  behind_same (h_end h) lim sm sm' -> stored so sm' h.
Proof.
  intros [H1 H2 H3 H4 H5 H6 H7] [_ Hle]%stop_page Hlim [Hpr Hsame]. split; try done.
  - intros i e Hi. pose proof (H5 i e Hi) as He. apply (entry_frame so sm so sm'); try done; [apply He|].
    destruct (chain_bounds _ _ _ _ H3 Hi). intros P HP. apply Hsame; unfold h_end; lia.
  - destruct H7 as [?|?]; [by left|right; auto].
Qed.

(** Errors that the code reports as such. *)
Definition io_fault (env : MXEnv) (e : MultiXactError) : Prop :=
  exists err, e = MultiXactIO err /\ (faulty (MultiXactOffsetCtl env) err \/ faulty (MultiXactMemberCtl env) err).

Definition refusal (env : MXEnv) (e : MultiXactError) : Prop :=
  e = MultiXactDuringRecovery \/ (exists db, e = MultiXactStopLimit db (MX_get_database_name env db)) \/
  (exists n, e = MultiXactMembersLimit n) \/ io_fault env e.

Lemma reserve_members_spec env s h n s' r : mx_ok env s h -> nextMXact (MultiXactState s) = multi_of (h_next h) ->
  offsets_ready (mx_offsets s) (multi_of (h_next h)) -> 0 < Z.of_nat n < 0x7FFFFFFF -> zlength (h_entries h) < 0x7FFFFFFE ->
  (check_member_limits (Z.of_nat n + skip (h_end h)) ;;;
   ExtendMultiXactMember env (u32 (h_end h)) (Z.of_nat n + skip (h_end h)) ;;;
   upd_state (fun m => set_counters m (u32 (nextMXact m + 1)) (u32 (nextOffset m + (Z.of_nat n + skip (h_end h))))))%prog s = (s', r) ->
  MXactCache s' = MXactCache s /\
  match r with inr _ => mx_ok env s' (push h n) | inl e => mx_ok env s' h /\ refusal env e end.
Proof.
  intros Hok Hnext Hready Hn Hroom. pose proof (skip_range (h_end h)) as Hs. unfold pbind, upd_state, pmod.
  destruct (check_member_limits _ _) as [s1 r1] eqn:E1.
  apply (check_members_spec env _ s h) in E1 as (S1 & O1 & M1 & C1 & R1); [|done|lia].
  assert (mx_ok env s1 h) as Hok1 by (by apply (mx_ok_same env s)).
  destruct r1 as [e|[]]; [intros [= <- <-]; split; [done|split; [done|right; right; left; by eexists]]|]. destruct R1 as (stop & Hstop & Es & Hlt).
  unfold ExtendMultiXactMember. destruct (extend_members_loop _ _ _ _ _) as [s2 r2] eqn:E2.
  pose proof (mx_offset_le _ _ _ Hok) as Hge. destruct Hok1 as [W1 W2 W3 W4 W5 W6 W7].
  apply extend_members_spec in E2; [|done|apply W3|lia|apply stop_page in Hstop; lia].
  destruct E2 as (S2 & O2 & C2 & W8 & B & R2).
  assert (stored (mx_offsets s1) (mx_members s2) h) as Hst2 by (eapply stored_behind, B; [exact W3|exact Hstop|lia]).
  assert (mx_ok env s2 h) as Hok2 by (split; rewrite ?S2, ?O2; assumption).
  destruct r2 as [e|[]]; intros [= <- <-]; cbn; (split; [congruence|]).
  { destruct R2 as (err & -> & Hf). split; [done|]. do 3 right. exists err. auto. }
  destruct R2 as [Rp Rz]. split;
    cbn [mx_offsets mx_members MultiXactState mx_set_state set_counters nextMXact nextOffset oldestOffsetKnown offsetStopLimit];
    rewrite ?O2, ?S2; [done|done| | | |done|].
  - apply stored_push; [done|by rewrite O1|done|done| |].
    + intros Q HQ. apply Rp. lia.
    + unfold skip. destruct (Z.eqb_spec (u32 (h_end h)) 0) as [E0|E0]; [|lia]. intros _. apply Rz; [by rewrite E0|lia].
  - rewrite S1, Hnext, push_next. unfold counts. rewrite multi_of_next. unfold valid_multi, FirstMultiXactId.
    pose proof (u32_range (multi_of (h_next h) + 1)) as Hu. unfold is_u32 in Hu. destruct (Z.ltb_spec (u32 (multi_of (h_next h) + 1)) 1); lia.
  - rewrite W5, push_end. cint.
  - exists stop. rewrite S1. split; [|done]. destruct Hstop. split; [rewrite push_end; lia|done].
Qed.

Lemma and_then {S R A} (m k u : prog S R unit) (a : A) s :
  (m ;;; k ;;; u ;;; pret a)%prog s = match (m ;;; k ;;; u)%prog s with (s', inl e) => (s', inl e) | (s', inr _) => (s', inr a) end.
Proof. unfold pbind. destruct (m s) as [? [?|?]]; [done|]. destruct (k _) as [? [?|?]]; [done|]. by destruct (u _) as [? [?|?]]. Qed.

Lemma get_new_spec env n s h s' r : mx_ok env s h -> few h -> others env (MX_meanwhile env) -> keeps_id (MX_meanwhile env) -> 0 < Z.of_nat n < 0x7FFFFFFF ->
  GetNewMultiXactId env (Z.of_nat n) s = (s', r) ->
  exists h', later h h' /\ MXactCache s' = MXactCache s /\
  match r with
  | inr (multi, offset) => multi = multi_of (h_next h') /\ offset = u32 (e_first (pending h' n)) /\ mx_ok env s' (push h' n)
  | inl e => mx_ok env s' h' /\ refusal env e
  end.
Proof.
  intros Hok Hfew Ho Hid Hn. unfold GetNewMultiXactId. destruct (MX_RecoveryInProgress env).
  { intros [= <- <-]. exists h. split; [done|]. split; [done|]. split; [done|by left]. }
  unfold pbind at 1. destruct (check_multi_limits env s) as [s1 r1] eqn:E1.
  apply (check_multi_spec env s h) in E1 as (h1 & Hl & Hok1 & C1 & Hf1 & R1); [|done..]. specialize (Hf1 Hfew). destruct r1 as [e|m].
  { intros [= <- <-]. exists h1. split; [done|]. split; [done|]. split; [done|right; by left]. }
  destruct R1 as [-> Hnext]. unfold pbind at 1. destruct (ExtendMultiXactOffset _ _ _) as [s2 r2] eqn:E2.
  apply extend_offset_spec in E2 as (S2 & M2 & C2 & W2 & St2 & R2); [|apply Hok1..].
  assert (mx_ok env s2 h1) as Hok2 by (destruct Hok1; split; rewrite ?S2, ?M2; assumption).
  destruct r2 as [e|[]].
  { intros [= <- <-]. exists h1. split; [done|]. split; [congruence|]. split; [done|]. do 3 right.
    destruct R2 as (err & -> & Hf). exists err. auto. }
  unfold pbind at 1, pget at 1. rewrite S2, (mo_next_offset _ _ _ Hok1).
  replace (if u32 (h_end h1) =? 0 then Z.of_nat n + 1 else Z.of_nat n) with (Z.of_nat n + skip (h_end h1))
    by (unfold skip; destruct (_ =? _); lia).
  replace (if u32 (h_end h1) =? 0 then 1 else u32 (h_end h1)) with (u32 (e_first (pending h1 n)))
    by (unfold e_first, pending, skip; cbn [e_start]; destruct (Z.eqb_spec (u32 (h_end h1)) 0); cint).
  cbn zeta. rewrite and_then. destruct ((_ ;;; _)%prog s2) as [s3 r3] eqn:E3.
  intros E. exists h1. split; [done|].
  apply reserve_members_spec in E3 as [C3 R3]; [|done|by rewrite S2|done|done|done].
  destruct r3 as [e|[]]; injection E as <- <-; (split; [congruence|]); done.
Qed.

(** ** Storing the members *)

Definition fill (h : History) (i : nat) (ms : list MultiXactMember) : History :=
  MkHistory (h_base h) (h_offset h) (alter (complete ms) i (h_entries h)).

Lemma fill_insert h i e ms : h_entries h !! i = Some e -> h_entries (fill h i ms) = <[i := complete ms e]> (h_entries h).
Proof.
  intros Hi. cbn. apply list_eq. intros j. destruct (decide (i = j)) as [<-|Hne].
  - rewrite list_lookup_alter_eq, Hi, list_lookup_insert_eq; [done|]. by eapply lookup_lt_Some.
  - by rewrite list_lookup_alter_ne, list_lookup_insert_ne.
Qed.

Lemma fill_next h i ms : h_next (fill h i ms) = h_next h.
Proof. unfold h_next, zlength. cbn. by rewrite length_alter. Qed.

Lemma fill_end h i e ms : h_entries h !! i = Some e -> chain (h_offset h) (h_entries h) -> h_end (fill h i ms) = h_end h.
Proof. intros Hi Hc. unfold h_end. rewrite (fill_insert _ _ e) by done. by apply (chain_complete _ ms _ _ e Hi). Qed.

Lemma fill_later h i e ms : h_entries h !! i = Some e -> e_members e = None -> later h (fill h i ms).
Proof.
  intros Hi Hn. split_and!; [done..|]. intros j e' Hj. rewrite (fill_insert _ _ e) by done. destruct (decide (i = j)) as [<-|Hne].
  - rewrite list_lookup_insert_eq by (by eapply lookup_lt_Some). eexists. split; [done|].
    replace e' with e by congruence. split_and!; [done..|]. congruence.
  - rewrite list_lookup_insert_ne by done. by exists e'.
Qed.

(** No two multixacts of the history have an id or a slot in common. *)
Lemma ids_differ so sm h i j e e' : stored so sm h -> h_entries h !! i = Some e -> h_entries h !! j = Some e' -> i <> j ->
  multi_of (h_base h + Z.of_nat i) <> multi_of (h_base h + Z.of_nat j).
Proof.
  intros Hst Hi Hj Hne E. apply lookup_lt_Some in Hi, Hj. pose proof (st_few _ _ _ Hst) as Hfew. unfold zlength in Hfew.
  apply multi_of_inj in E; lia.
Qed.

Lemma slots_differ so sm h stop i j e e' P : stored so sm h -> stop_ok h stop ->
  h_entries h !! i = Some e -> h_entries h !! j = Some e' -> i <> j -> e_start e' <= P < e_end e' ->
  Z.of_nat (e_count e) <= u32 (u32 P - u32 (e_first e)).
Proof.
  intros Hst [Hlt Hle]%stop_page Hi Hj Hne HP. pose proof (st_chain _ _ _ Hst) as Hc. pose proof (e_bounds e) as He. pose proof (e_bounds e') as He'.
  destruct (chain_bounds _ _ _ _ Hc Hi), (chain_bounds _ _ _ _ Hc Hj). fold (h_end h) in *.
  assert (e_end e <= e_start e' \/ e_end e' <= e_start e) as Hd.
  { destruct (Nat.lt_ge_cases i j); [left; by eapply chain_order|right; eapply (chain_order _ _ j i); [done|lia|done..]]. }
  unfold e_end in *. unfold u32. mx_lia.
Qed.

(** What storing the members of entry [e] changes. *)
Definition offset_stored (M : Z) (e : Entry) (so so' : Slru) : Prop :=
  (forall p, present so p -> present so' p) /\
  forall m, offset_at so' m = if multi_of M =? m then u32 (e_first e) else offset_at so m.

Lemma stored_fill so sm so' sm' ctl h stop i e ms : stored so sm h -> stop_ok h stop -> h_entries h !! i = Some e ->
  length ms = e_count e -> Forall member_ok ms ->
  offset_stored (h_base h + Z.of_nat i) e so so' -> written ctl (u32 (e_first e)) ms sm sm' -> stored so' sm' (fill h i ms).
Proof.
  intros Hst Hstop Hi Hl Hms [Hpo Ho] (_ & Hpm & Hm). pose proof Hst as [H1 H2 H3 H4 H5 H6 H7].
  pose proof (H5 i e Hi) as [He1 He2 He3 He4 He5 _]. split; cbn [h_base h_offset fill]; try done.
  - rewrite (fill_insert _ _ e) by done. by apply (chain_complete _ ms _ _ e Hi).
  - cbn. unfold zlength. by rewrite length_alter.
  - intros j e'. rewrite (fill_insert _ _ e) by done. intros [[-> [<- _]]|[Hne Hj]]%list_lookup_insert_Some.
    + split; cbn [complete e_members e_start e_count]; try done; [auto|by rewrite Ho, Z.eqb_refl|auto| |].
      * intros Hs. rewrite Hm by apply u32_range. rewrite lookup_ge_None_2; [auto|].
        assert (e_first e = e_start e + 1) by (unfold e_first; lia). unfold zlength in *. unfold u32. lia.
      * intros ms' [= <-]. split_and!; [done..|]. intros k m Hk. change (e_first (complete ms e)) with (e_first e).
        rewrite Hm by apply u32_range. pose proof (lookup_lt_Some _ _ _ Hk).
        replace (u32 (u32 (e_first e + Z.of_nat k) - u32 (e_first e))) with (Z.of_nat k) by (unfold u32; lia). by rewrite Nat2Z.id, Hk.
    + pose proof (H5 j e' Hj) as He'. apply (entry_frame so sm); [done|apply Hpo, He'| |done|].
      * rewrite Ho, (proj2 (Z.eqb_neq _ _)); [done|]. by eapply ids_differ.
      * intros P HP. rewrite Hm by apply u32_range. rewrite lookup_ge_None_2; [done|].
        pose proof (slots_differ so sm h stop i j e e' P Hst Hstop Hi Hj Hne HP). lia.
  - rewrite fill_next. destruct H6 as [?|[Hp Hz]]; [by left|right]. split; [auto|]. intros m Em Hge. rewrite Ho.
    rewrite (proj2 (Z.eqb_neq _ _)); [auto|]. intros <-. destruct (entry_behind _ _ _ _ _ Hst Hi) as (k & Hk & Ek). rewrite Ek in *.
    pose proof (before_below (h_next h) k Hk Em). lia.
  - rewrite (fill_end _ _ e) by done. destruct H7 as [?|?]; [by left|right; auto].
Qed.

Lemma put_offset_stored ctl so so' M e : slru_wf ctl so ->
  modified ctl (MultiXactIdToOffsetPage (multi_of M)) (put_offset (multi_of M) (u32 (e_first e))) so so' -> offset_stored M e so so'.
Proof.
  intros Hok (_ & _ & Hpages & Hpr). split; [done|]. intros m. unfold offset_at. rewrite Hpages.
  pose proof (page_of_wf ctl so _ Hok (offset_page_nonneg M)) as Hwf.
  destruct (Z.eqb_spec (MultiXactIdToOffsetPage m) (MultiXactIdToOffsetPage (multi_of M))) as [E|E].
  - rewrite E. by apply get_put_offset; [|apply u32_range|].
  - destruct (Z.eqb_spec (multi_of M) m) as [<-|]; done.
Qed.

Lemma stored_keeps ctl so so' sm h : keeps ctl so so' -> stored so sm h -> stored so' sm h.
Proof.
  intros Hk [H1 H2 H3 H4 H5 H6 H7]. assert (forall m, offset_at so' m = offset_at so m) as Ho.
  { intros m. unfold offset_at. by rewrite (keeps_page_of _ _ _ _ Hk). }
  split; try done.
  - intros i e Hi. pose proof (H5 i e Hi) as He. apply (entry_frame so sm); [done| |done..]. eapply keeps_present; [done|apply He].
  - destruct H6 as [?|[Hp Hz]]; [by left|right]. split; [by eapply keeps_present|]. intros m. rewrite Ho. apply Hz.
Qed.

Lemma record_spec env s h i e ms s' r : mx_ok env s h -> h_entries h !! i = Some e -> e_members e = None ->
  length ms = e_count e -> Forall member_ok ms ->
  RecordNewMultiXact env (multi_of (h_base h + Z.of_nat i)) (u32 (e_first e)) ms s = (s', r) ->
  MultiXactState s' = MultiXactState s /\ MXactCache s' = MXactCache s /\
  match r with inr _ => mx_ok env s' (fill h i ms) | inl err => io_fault env err end.
Proof.
  intros Hok Hi Hn Hl Hms. pose proof Hok as [W1 W2 W3 W4 W5 W6 (stop & Hstop & Es)]. pose proof (st_entries _ _ _ W3 i e Hi) as He.
  pose proof (e_bounds e) as Hb. unfold RecordNewMultiXact, pbind, on_offsets, on_members.
  destruct (modify_page _ _ _ _) as [so1 r1] eqn:E1.
  apply modify_page_spec in E1; [|done|apply offset_page_nonneg|apply He|intros pg; apply put_le_wf].
  destruct r1 as [err|[]]; [intros [= <- <-]; split_and!; [done..|]; exists err; split; [done|left; apply E1]|]. cbn.
  pose proof (put_offset_stored _ _ _ _ _ W1 E1) as Ho. destruct (record_members _ _ _ _ _ _) as [sm1 r2] eqn:E2.
  apply record_members_spec in E2; [|done|apply u32_range|unfold zlength; rewrite Hl; pose proof (eo_count _ _ _ _ He); lia|done| |].
  2: { intros k Hk. replace (u32 (u32 (e_first e) + k)) with (u32 (e_first e + k)) by cint. apply (eo_pages _ _ _ _ He).
       unfold e_end, zlength in *. lia. }
  2: { pose proof (u32_range (e_first e)). unfold is_u32 in *. mx_lia. }
  destruct r2 as [err|[]]; intros [= <- <-]; cbn; (split; [done|]; split; [done|]).
  { exists err. split; [done|right; apply E2]. }
  split; cbn [mx_offsets mx_members MultiXactState mx_set_offsets mx_set_members]; [apply E1|apply E2| |by rewrite fill_next| |done|].
  - by eapply (stored_fill (mx_offsets s) (mx_members s)).
  - by rewrite (fill_end _ _ e) by (done || apply W3).
  - exists stop. split; [|done]. destruct Hstop. split; [|done]. by rewrite (fill_end _ _ e) by (done || apply W3).
Qed.

(** ** Reading the members back *)

(** What the reader knows of the multixact after the one it wants: it is the
    next one to be created, or it has its id. *)
Definition next_known (h : History) (i : nat) (e : Entry) (nextMXact nextOffset : Z) : Prop :=
  let multi := multi_of (h_base h + Z.of_nat i) in
  nextMXact = u32 (multi + 1) /\ nextOffset = u32 (e_end e) \/
  nextMXact <> u32 (multi + 1) /\ is_Some (h_entries h !! S i).

(** The length found may include slot 0 when the next multixact passes over it. *)
Definition stretch (h : History) (i : nat) (e : Entry) (len : Z) : Prop :=
  len = Z.of_nat (e_count e) \/
  len = Z.of_nat (e_count e) + 1 /\ exists e', h_entries h !! S i = Some e' /\ skip (e_start e') = 1 /\ e_start e' = e_end e.

Lemma first_nonzero e : u32 (e_first e) <> 0.
Proof. unfold e_first, skip. destruct (Z.eqb_spec (u32 (e_start e)) 0); cint. Qed.

Lemma span_count e n k : n = e_end e + k -> 0 <= k -> Z.of_nat (e_count e) + k < 0x80000000 ->
  i32 (u32 n - u32 (e_first e)) = Z.of_nat (e_count e) + k.
Proof. intros -> Hk Hc. unfold e_end. cint. Qed.

Lemma read_hold ctl p st st' r : slru_wf ctl st -> 0 <= p -> present st p -> SimpleLruReadPage ctl p true st = (st', r) ->
  keeps ctl st st' /\
  match r with
  | inr n => holding ctl st' p n /\ page_buffer (slot st' n) = page_of st p
  | inl e => faulty ctl e
  end.
Proof.
  intros Hok Hp Hpr E. apply (hold_spec ctl p (-1) 0); [done..|lia|]. by rewrite (proj2 (Z.eqb_neq p (-1))) by lia.
Qed.

Lemma find_spec ctl so sm h i e ms nm no so' r : slru_wf ctl so -> stored so sm h ->
  h_entries h !! i = Some e -> e_members e = Some ms -> next_known h i e nm no ->
  find_members ctl (multi_of (h_base h + Z.of_nat i)) nm no so = (so', r) ->
  keeps ctl so so' /\
  match r with
  | inr (Some (offset, len)) => offset = u32 (e_first e) /\ stretch h i e len
  | inr None => exists e', h_entries h !! S i = Some e' /\ e_members e' = None
  | inl err => faulty ctl err
  end.
Proof.
  intros Hok Hst Hi Hms Hnk. pose proof (st_entries _ _ _ Hst i e Hi) as [He1 He2 He3 _ _ _]. rewrite Hms in He3.
  unfold find_members. set (multi := multi_of (h_base h + Z.of_nat i)) in *. unfold pbind at 1.
  destruct (SimpleLruReadPage _ _ _ _) as [so1 r1] eqn:E1.
  apply read_hold in E1 as [Hk1 R1]; [|done|apply offset_page_nonneg|done]. pose proof (keeps_wf _ _ _ Hk1 Hok) as Hok1.
  destruct r1 as [err|n]; [by intros [= <- <-]|]. destruct R1 as [Hh Hbuf]. unfold pbind at 1, pget at 1. rewrite Hbuf.
  fold (offset_at so multi). rewrite He3. cbn zeta. fold multi in Hnk. destruct Hnk as [[-> ->]|[Hne [e' Hi']]].
  { rewrite Z.eqb_refl. intros [= <- <-]. split; [done|]. split; [done|left]. rewrite (span_count e _ 0) by lia. lia. }
  rewrite (proj2 (Z.eqb_neq _ _)) by done. set (multi' := multi_of (h_base h + Z.of_nat (S i))).
  assert (valid_multi (u32 (multi + 1)) = multi') as ->.
  { unfold multi, multi'. rewrite <- multi_of_next. f_equal. lia. }
  pose proof (st_entries _ _ _ Hst (S i) e' Hi') as [Hn1 Hn2 Hn3 _ _ _]. fold multi' in Hn2, Hn3.
  unfold pbind at 1. run_if so1 so2 r2 E2.
  apply hold_spec in E2 as [Hk2 R2]; [|done|apply offset_page_nonneg|by eapply keeps_present|intros E; by rewrite E].
  pose proof (keeps_trans _ _ _ _ Hk1 Hk2) as Hk. destruct r2 as [err|n2]; [by intros [= <- <-]|]. destruct R2 as [_ Hbuf2].
  unfold pbind, pget, pret. rewrite Hbuf2, (keeps_page_of _ _ _ _ Hk1). fold (offset_at so multi'). rewrite Hn3. intros [= <- <-]. split; [done|].
  destruct (e_members e') as [ms'|] eqn:Hms'; [|by exists e'].
  rewrite (proj2 (Z.eqb_neq _ _)) by apply first_nonzero. split; [done|].
  pose proof (proj1 (chain_next _ _ _ _ (st_chain _ _ _ Hst) Hi) e' Hi') as Hs. pose proof (skip_range (e_start e')) as Hr.
  rewrite (span_count e _ (skip (e_start e'))) by (unfold e_first; lia). destruct (Z.eq_dec (skip (e_start e')) 0) as [E0|E0].
  - left. lia.
  - right. split; [lia|]. exists e'. split; [done|]. split; [lia|done].
Qed.

(** The next multixact has its id and not yet its members. *)
Definition unstored_next (h : History) (i : nat) : Prop := exists e', h_entries h !! S i = Some e' /\ e_members e' = None.

(** Others store the next multixact before this process has woken up [n] times
    in vain; looking at pages of the offsets area does not keep them from it. *)
Fixpoint wakes (env : MXEnv) (i n : nat) (s : MX) (h : History) : Prop :=
  unstored_next h i -> forall so, keeps (MultiXactOffsetCtl env) (mx_offsets s) so ->
  match n with
  | O => False
  | S n =>
      let s' := while_asleep env (mx_set_offsets s so) in
      exists h', later h h' /\ mx_ok env s' h' /\ MXactCache s' = MXactCache s /\ wakes env i n s' h'
  end.

Lemma later_complete h h' i e ms : later h h' -> h_entries h !! i = Some e -> e_members e = Some ms -> h_entries h' !! i = Some e.
Proof.
  intros (_ & _ & Hl) Hi Hms. destruct (Hl i e Hi) as (e' & Hi' & E1 & E2 & E3). rewrite Hi'. f_equal. specialize (E3 ms Hms).
  destruct e, e'; cbn in *. congruence.
Qed.

Lemma next_known_later h h' i e nm no : later h h' -> next_known h i e nm no -> next_known h' i e nm no.
Proof.
  intros Hl [H|[Hne [e' Hi]]]; pose proof Hl as (Hb & _ & Hg); unfold next_known; rewrite Hb; [by left|right].
  split; [done|]. destruct (Hg _ _ Hi) as (e2 & -> & _). done.
Qed.

Lemma find_loop_unfold n env multi nm no s :
  find_members_loop (S n) env multi nm no s =
  (found <- on_offsets (find_members (MultiXactOffsetCtl env) multi nm no) ;;
   match found with
   | Some range => pret range
   | None => pmod (while_asleep env) ;;; find_members_loop n env multi nm no
   end)%prog s.
Proof. done. Qed.

Lemma find_once_spec env s h i e ms nm no s' r : mx_ok env s h -> h_entries h !! i = Some e -> e_members e = Some ms ->
  next_known h i e nm no -> on_offsets (find_members (MultiXactOffsetCtl env) (multi_of (h_base h + Z.of_nat i)) nm no) s = (s', r) ->
  mx_ok env s' h /\ (exists so, s' = mx_set_offsets s so /\ keeps (MultiXactOffsetCtl env) (mx_offsets s) so) /\
  match r with
  | inr (Some (offset, len)) => offset = u32 (e_first e) /\ stretch h i e len
  | inr None => unstored_next h i
  | inl err => io_fault env err
  end.
Proof.
  intros Hok Hi Hms Hnk. unfold on_offsets. destruct (find_members _ _ _ _ _) as [so1 r1] eqn:E1.
  eapply find_spec in E1 as [Hk R1]; [|apply Hok|apply Hok|done..].
  assert (mx_ok env (mx_set_offsets s so1) h) as Hok1.
  { destruct Hok. split; cbn; try done; [by eapply keeps_wf|by eapply stored_keeps]. }
  destruct r1 as [err|found]; intros [= <- <-]; (split; [done|]); (split; [by exists so1|]); [|done]. exists err. auto.
Qed.

Lemma find_loop_spec env i e ms nm no n : e_members e = Some ms -> forall h s s' r,
  mx_ok env s h -> h_entries h !! i = Some e -> next_known h i e nm no -> wakes env i n s h ->
  find_members_loop (S n) env (multi_of (h_base h + Z.of_nat i)) nm no s = (s', r) ->
  exists h', later h h' /\ mx_ok env s' h' /\ MXactCache s' = MXactCache s /\
  match r with
  | inr (offset, len) => offset = u32 (e_first e) /\ stretch h' i e len
  | inl err => io_fault env err
  end.
Proof.
  intros Hms. induction n as [|n IH]; intros h s s' r Hok Hi Hnk Hw; rewrite find_loop_unfold; unfold pbind at 1;
    destruct (on_offsets _ s) as [s1 r1] eqn:E1;
    apply (find_once_spec env s h i e ms) in E1 as (Hok1 & (so & -> & Hk) & R1); try done;
    (destruct r1 as [err|[[offset len]|]]; [intros [= <- <-]; by exists h|intros [= <- <-]; by exists h|]);
    specialize (Hw R1 so Hk); [done|].
  destruct Hw as (h1 & Hl & Hok2 & C & Hw). unfold pbind, pmod. intros E. rewrite <- (proj1 Hl) in E.
  apply IH in E as (h2 & Hl2 & Hok3 & C2 & R2); [|done|by eapply later_complete|by eapply next_known_later|done].
  exists h2. split; [by etrans|]. split; [done|]. split; [by rewrite C2, C|done].
Qed.

Lemma slots_from_S st n : forall o, is_u32 o -> slots_from st o (S n) = slots_from st o n ++ [member_at st (u32 (o + Z.of_nat n))].
Proof.
  induction n as [|n IH]; intros o Ho; [cbn; by rewrite Z.add_0_r, u32_small|].
  change (slots_from st o (S (S n))) with (member_at st o :: slots_from st (u32 (o + 1)) (S n)). rewrite IH by apply u32_range.
  by replace (u32 (u32 (o + 1) + Z.of_nat n)) with (u32 (o + Z.of_nat (S n))) by cint.
Qed.

Lemma used_app l l' : used (l ++ l') = used l ++ used l'.
Proof. apply filter_app. Qed.

(** The stretch holds the members of the multixact, and nothing else. *)
Lemma stretch_members env s h i e ms len st' r : mx_ok env s h -> h_entries h !! i = Some e -> e_members e = Some ms -> stretch h i e len ->
  read_members (MultiXactMemberCtl env) (-1) 0 (u32 (e_first e)) (Z.to_nat len) (mx_members s) = (st', r) ->
  keeps (MultiXactMemberCtl env) (mx_members s) st' /\
  match r with inr raw => decode_members raw = inr ms | inl err => faulty (MultiXactMemberCtl env) err end.
Proof.
  intros Hok Hi Hms Hlen E. pose proof (mo_stored _ _ _ Hok) as Hst. pose proof (st_entries _ _ _ Hst i e Hi) as He.
  destruct (eo_members _ _ _ _ He ms Hms) as (Hl & Hf & Hat). pose proof (e_bounds e) as Hb. pose proof (eo_count _ _ _ _ He) as Hc.
  apply read_members_spec in E as [Hk R]; [|apply Hok|apply u32_range| |].
  - split; [done|]. destruct r as [err|raw]; [done|]. subst raw.
    assert (slots_from (mx_members s) (u32 (e_first e)) (length ms) = encode <$> ms) as Hs.
    { apply slots_from_members; [|apply u32_range]. intros j m Hj. replace (u32 (u32 (e_first e) + Z.of_nat j)) with (u32 (e_first e + Z.of_nat j)) by cint. auto. }
    destruct Hlen as [->|(-> & e' & Hi' & Hsk & Hstart)].
    + rewrite Nat2Z.id, <- Hl, Hs, used_encode by done. apply decode_encode.
    + replace (Z.to_nat (Z.of_nat (e_count e) + 1)) with (S (length ms)) by lia. rewrite slots_from_S by apply u32_range.
      rewrite Hs, used_app, used_encode by done. replace (u32 (u32 (e_first e) + Z.of_nat (length ms))) with (u32 (e_start e'))
        by (rewrite Hstart; unfold e_end; rewrite Hl; cint).
      rewrite used_cons, (eo_skip _ _ _ _ (st_entries _ _ _ Hst _ _ Hi') Hsk). cbn. rewrite app_nil_r. apply decode_encode.
  - intros j Hj. replace (u32 (u32 (e_first e) + j)) with (u32 (e_first e + j)) by cint.
    destruct (Z.lt_ge_cases j (Z.of_nat (e_count e))); [apply (eo_pages _ _ _ _ He); unfold e_end; lia|].
    destruct Hlen as [->|(-> & e' & Hi' & Hsk & Hstart)]; [lia|]. pose proof (st_entries _ _ _ Hst _ _ Hi') as He'.
    apply (eo_pages _ _ _ _ He'). pose proof (eo_count _ _ _ _ He'). pose proof (e_bounds e'). unfold e_end in *. lia.
  - pose proof (u32_range (e_first e)). unfold is_u32 in *. mx_lia.
Qed.

Lemma stored_keeps_members ctl so sm sm' h : keeps ctl sm sm' -> stored so sm h -> stored so sm' h.
Proof.
  intros Hk [H1 H2 H3 H4 H5 H6 H7]. split; try done.
  - intros i e Hi. pose proof (H5 i e Hi) as He. apply (entry_frame so sm); [done|apply He|done|intros p; by eapply keeps_present|].
    intros P _. by eapply keeps_member_at.
  - destruct H7 as [?|?]; [by left|right]. by eapply keeps_present.
Qed.
