(* ===== verification/MultiXactTheorems.v ===== *)
(** * What the multixact store promises

    Creating a multixact adds an entry to the history of [MultiXactHistory] and
    stores its members; looking it up returns them, from the cache of the
    backend or from the two areas, whatever others created in the meantime. *)

From S2P Require Import Prelude.
From S2P Require Import TransactionId.
From S2P Require Import Slru.
From S2P Require Import SlruEntries.
From S2P Require Import Visibility.
From S2P Require Import MultiXactPages.
From S2P Require Import MultiXact.
From S2P Require Import MultiXactHistory.

(** ** The cache *)

(** Multixact [multi] of the history has its members stored: they are [ms]. *)
Definition has_members (h : History) (multi : Z) (ms : list MultiXactMember) : Prop :=
  exists i e, h_entries h !! i = Some e /\ e_members e = Some ms /\ multi = multi_of (h_base h + Z.of_nat i).

Definition cache_ok (h : History) (cache : list mXactCacheEnt) : Prop :=
  Forall (fun ent => exists ms, has_members h (ce_multi ent) ms /\ ce_members ent = sort_members ms) cache.

Definition mx_good (env : MXEnv) (s : MX) (h : History) : Prop := mx_ok env s h /\ cache_ok h (MXactCache s).

Lemma has_members_later h h' multi ms : later h h' -> has_members h multi ms -> has_members h' multi ms.
Proof.
  intros Hl (i & e & Hi & Hms & ->). exists i, e. split; [by eapply later_complete|]. split; [done|]. by rewrite (proj1 Hl).
Qed.

Lemma cache_ok_later h h' cache : later h h' -> cache_ok h cache -> cache_ok h' cache.
Proof.
  intros Hl H. eapply Forall_impl; [exact H|]. intros ent (ms & Hms & E). exists ms. split; [by eapply has_members_later|done].
Qed.

Lemma has_members_inj so sm h multi ms ms' : stored so sm h -> has_members h multi ms -> has_members h multi ms' -> ms = ms'.
Proof.
  intros Hst (i & e & Hi & Hms & ->) (j & e' & Hj & Hms' & E). destruct (decide (i = j)) as [->|Hne]; [congruence|].
  exfalso. by eapply ids_differ in E.
Qed.

(** The entry found moves to the front. *)
Lemma cache_find_spec p cache : forall before ent cache', cache_find p before cache = Some (ent, cache') ->
  p ent = true /\ ent ∈ cache /\ cache' ≡ₚ before ++ cache.
Proof.
  induction cache as [|x cache IH]; intros before ent cache'; cbn; [done|]. destruct (p x) eqn:E.
  - intros [= <- <-]. split; [done|]. split; [by left|]. rewrite <- (Permutation_rev before). by apply Permutation_middle.
  - intros H. apply IH in H as (Hp & Hin & Hperm). split; [done|]. split; [by right|]. rewrite Hperm. cbn. by apply Permutation_middle.
Qed.

Lemma sort_perm ms : sort_members ms ≡ₚ ms.
Proof. apply merge_sort_Permutation. Qed.

Lemma get_by_id_spec h multi s s' r : cache_ok h (MXactCache s) -> mXactCacheGetById multi s = (s', r) ->
  MultiXactState s' = MultiXactState s /\ mx_offsets s' = mx_offsets s /\ mx_members s' = mx_members s /\ cache_ok h (MXactCache s') /\
  match r with
  | inr (Some l) => exists ms, has_members h multi ms /\ l = sort_members ms
  | inr None => s' = s
  | inl _ => False
  end.
Proof.
  intros Hc. unfold mXactCacheGetById. destruct (cache_find _ _ _) as [[ent cache']|] eqn:E; intros [= <- <-]; [|done].
  apply cache_find_spec in E as (Hp & Hin & Hperm). cbn in *. repeat (split; [done|]). unfold cache_ok in *. split; [by rewrite Hperm|].
  rewrite Forall_forall in Hc. destruct (Hc _ Hin) as (ms & Hms & ->). exists ms. apply Z.eqb_eq in Hp. subst. done.
Qed.

Lemma put_cache_ok h multi ms s : has_members h multi ms -> cache_ok h (MXactCache s) -> cache_ok h (MXactCache (mXactCachePut multi ms s)).
Proof. intros Hms Hc. apply Forall_take, Forall_cons. split; [by exists ms|done]. Qed.

(** ** Looking up the members *)

Lemma set_visible_ok env s h : mx_ok env s h -> mx_ok env (MultiXactIdSetOldestVisible env s) h.
Proof. intros Hok. unfold MultiXactIdSetOldestVisible. case_match; [|done]. destruct Hok. by split. Qed.

Lemma set_visible_fields env s : let s' := MultiXactIdSetOldestVisible env s in
  nextMXact (MultiXactState s') = nextMXact (MultiXactState s) /\ nextOffset (MultiXactState s') = nextOffset (MultiXactState s) /\
  oldestMultiXactId (MultiXactState s') = oldestMultiXactId (MultiXactState s) /\ MXactCache s' = MXactCache s.
Proof. cbn. unfold MultiXactIdSetOldestVisible. by case_match. Qed.

(** An id of the history precedes the next one. *)
Lemma precedes_next M k n : 0 < k < 0x7FFFFFFF -> counts n M -> MultiXactIdPrecedes (multi_of (M - k)) n = true.
Proof.
  intros Hk Hn. unfold MultiXactIdPrecedes. apply Z.ltb_lt. unfold counts, multi_of in *.
  destruct Hn as [->|[-> Hn]]; unfold i32, u32; case_match; lia.
Qed.

(** The counter is not left at the first id with nothing created there. *)
Definition not_stranded (s : MX) (h : History) (i : nat) : Prop :=
  h_entries h !! S i = None -> nextMXact (MultiXactState s) = u32 (multi_of (h_base h + Z.of_nat i) + 1).

(** The last one created has nothing after it. *)
Lemma last_one env s h i : mx_ok env s h -> nextMXact (MultiXactState s) = u32 (multi_of (h_base h + Z.of_nat i) + 1) ->
  h_entries h !! S i = None.
Proof.
  intros Hok E. destruct (h_entries h !! S i) as [e'|] eqn:Hi'; [exfalso|done].
  pose proof (st_few _ _ _ (mo_stored _ _ _ Hok)) as Hfew. apply lookup_lt_Some in Hi'.
  pose proof (mo_next _ _ _ Hok) as Hn. unfold counts, h_next, zlength in *. rewrite E in Hn. clear E. revert Hn. unfold multi_of, u32. lia.
Qed.

Lemma known_next env s h i e : mx_ok env s h -> h_entries h !! i = Some e -> not_stranded s h i ->
  next_known h i e (nextMXact (MultiXactState s)) (nextOffset (MultiXactState s)).
Proof.
  intros Hok Hi Hns. unfold next_known. destruct (h_entries h !! S i) as [e'|] eqn:Hi'.
  - destruct (Z.eq_dec (nextMXact (MultiXactState s)) (u32 (multi_of (h_base h + Z.of_nat i) + 1))) as [E|E]; [|by right].
    pose proof (last_one _ _ _ _ Hok E). congruence.
  - left. split; [by apply Hns|]. rewrite (mo_next_offset _ _ _ Hok). f_equal.
    by apply (chain_next _ _ _ _ (st_chain _ _ _ (mo_stored _ _ _ Hok)) Hi).
Qed.

(** What a look-up by id depends on. *)
Record findable (env : MXEnv) (retries : nat) (s : MX) (h : History) (i : nat) : Prop := {
  fd_old : MultiXactIdPrecedes (multi_of (h_base h + Z.of_nat i)) (oldestMultiXactId (MultiXactState s)) = false;
  fd_next : not_stranded s h i;
  fd_wakes : wakes env i retries (MultiXactIdSetOldestVisible env s) h;
}.


Lemma read_found_spec env retries s h i e ms s' r : mx_ok env s h -> cache_ok h (MXactCache s) ->
  h_entries h !! i = Some e -> e_members e = Some ms -> not_stranded s h i -> wakes env i retries s h ->
  let multi := multi_of (h_base h + Z.of_nat i) in
  (range <- find_members_loop (S retries) env multi (nextMXact (MultiXactState s)) (nextOffset (MultiXactState s)) ;;
   let '(offset, length) := range in
   raw <- on_members (read_members (MultiXactMemberCtl env) (-1) 0 offset (Z.to_nat length)) ;;
   match decode_members raw with
   | inl e => preturn e
   | inr members => pmod (mXactCachePut multi members) ;;; pret (Some members)
   end)%prog s = (s', r) ->
  exists h', later h h' /\ mx_good env s' h' /\ match r with inr l => l = Some ms | inl err => io_fault env err end.
Proof.
  intros Hok Hc Hi Hms Hns Hw multi. pose proof (known_next _ _ _ _ _ Hok Hi Hns) as Hnk. unfold pbind at 1.
  destruct (find_members_loop _ _ _ _ _ _) as [s1 r1] eqn:E1. unfold multi in E1.
  apply (find_loop_spec env i e ms) in E1 as (h1 & Hl & Hok1 & C1 & R1); [|done..].
  assert (cache_ok h1 (MXactCache s1)) as Hc1 by (rewrite C1; by eapply cache_ok_later).
  destruct r1 as [err|[offset len]]; [intros [= <- <-]; by exists h1|]. destruct R1 as [-> Hlen].
  pose proof (later_complete _ _ _ _ _ Hl Hi Hms) as Hi1. unfold pbind at 1, on_members.
  destruct (read_members _ _ _ _ _ _) as [sm2 r2] eqn:E2.
  apply (stretch_members env s1 h1 i e ms) in E2 as [Hk R2]; [|done..].
  assert (mx_ok env (mx_set_members s1 sm2) h1) as Hok2.
  { destruct Hok1. split; cbn; try done; [by eapply keeps_wf|by eapply stored_keeps_members]. }
  destruct r2 as [err|raw].
  { intros [= <- <-]. exists h1. split; [done|]. split; [done|]. exists err. auto. }
  rewrite R2. unfold pbind, pmod, pret. intros [= <- <-]. exists h1. split; [done|]. split; [|done]. split.
  - by apply (mx_ok_same env (mx_set_members s1 sm2)).
  - apply put_cache_ok; [|done]. exists i, e. split; [done|]. split; [done|]. unfold multi. by rewrite (proj1 Hl).
Qed.

Lemma get_members_spec env retries s h i e ms s' r : mx_good env s h ->
  h_entries h !! i = Some e -> e_members e = Some ms -> findable env retries s h i ->
  MultiXact.GetMultiXactIdMembers retries env (multi_of (h_base h + Z.of_nat i)) false false s = (s', r) ->
  exists h', later h h' /\ mx_good env s' h' /\
  match r with
  | inr (Some l) => l = ms \/ l = sort_members ms
  | inr None => False
  | inl err => io_fault env err
  end.
Proof.
  intros [Hok Hc] Hi Hms Hfd. set (multi := multi_of _). pose proof (multi_of_range (h_base h + Z.of_nat i)) as Hm. fold multi in Hm.
  assert (has_members h multi ms) as Hhas by (by exists i, e). unfold MultiXact.GetMultiXactIdMembers, MultiXactIdIsValid, InvalidMultiXactId.
  rewrite (proj2 (Z.eqb_neq multi 0)) by lia. cbn [negb orb]. unfold pbind at 1. destruct (mXactCacheGetById _ _) as [s1 r1] eqn:E1.
  apply (get_by_id_spec h) in E1 as (S1 & O1 & M1 & C1 & R1); [|done]. destruct r1 as [err|[l|]]; [done| |].
  { intros [= <- <-]. exists h. split; [done|]. split; [split; [by apply (mx_ok_same env s)|done]|].
    destruct R1 as (ms' & Hms' & ->). right. f_equal. eapply has_members_inj; [apply (mo_stored _ _ _ Hok)|done..]. }
  subst s1. unfold pbind at 1, pmod at 1. unfold pbind at 1, pget at 1. set (s1 := MultiXactIdSetOldestVisible env s).
  pose proof (set_visible_ok env s h Hok) as Hok1. destruct (set_visible_fields env s) as (F1 & F2 & F3 & F4). fold s1 in Hok1, F1, F2, F3, F4.
  pose proof (fd_old _ _ _ _ _ Hfd) as Hold. fold multi in Hold. rewrite andb_false_l, F3, Hold.
  destruct (entry_behind _ _ _ _ _ (mo_stored _ _ _ Hok) Hi) as (k & Hk & Ek).
  assert (MultiXactIdPrecedes multi (nextMXact (MultiXactState s1)) = true) as ->.
  { rewrite F1. unfold multi. rewrite Ek. apply precedes_next; [done|apply Hok]. }
  cbn [negb]. intros E. eapply (read_found_spec env retries s1 h i e ms) in E as (h' & Hl & Hg & R); [|done|by rewrite F4|done|done| |apply Hfd].
  - exists h'. split; [done|]. split; [done|]. destruct r as [err|l]; [done|]. subst l. by left.
  - unfold not_stranded. rewrite F1. apply Hfd.
Qed.

(** ** Creation *)

Lemma get_by_set_spec h members s s' r : cache_ok h (MXactCache s) -> mXactCacheGetBySet members s = (s', r) ->
  MultiXactState s' = MultiXactState s /\ mx_offsets s' = mx_offsets s /\ mx_members s' = mx_members s /\ cache_ok h (MXactCache s') /\
  exists multi, r = inr (multi, sort_members members) /\
    (multi = InvalidMultiXactId \/ exists ms, has_members h multi ms /\ ms ≡ₚ members).
Proof.
  intros Hc. unfold mXactCacheGetBySet. cbn zeta. destruct (cache_find _ _ _) as [[ent cache']|] eqn:E; intros [= <- <-].
  2: { repeat (split; [done|]). eexists. split; [done|by left]. }
  apply cache_find_spec in E as (Hp & Hin & Hperm). cbn in *. repeat (split; [done|]). unfold cache_ok in *. split; [by rewrite Hperm|].
  rewrite Forall_forall in Hc. destruct (Hc _ Hin) as (ms & Hms & Es). eexists. split; [done|]. right. exists ms. split; [done|].
  apply bool_decide_eq_true in Hp. rewrite <- (sort_perm ms), <- Es, Hp. apply sort_perm.
Qed.

(** The history with a multixact created at its end. *)
Definition create (h : History) (ms : list MultiXactMember) : History :=
  fill (push h (length ms)) (length (h_entries h)) ms.

Lemma push_last h n : h_entries (push h n) !! length (h_entries h) = Some (pending h n).
Proof. cbn. by rewrite lookup_app_r, Nat.sub_diag by lia. Qed.

Lemma create_later h ms : later h (create h ms).
Proof. etrans; [apply (push_later h (length ms))|]. by eapply fill_later; [apply push_last|]. Qed.

Lemma create_has h ms : has_members (create h ms) (multi_of (h_next h)) ms.
Proof.
  exists (length (h_entries h)), (complete ms (pending h (length ms))). split; [|done]. unfold create.
  rewrite (fill_insert _ _ _ ms (push_last h (length ms))). apply list_lookup_insert_eq. cbn. rewrite length_app. cbn. lia.
Qed.

Lemma create_new_spec env s h ms s' r : mx_good env s h -> few h -> others env (MX_meanwhile env) -> keeps_id (MX_meanwhile env) ->
  0 < zlength ms < 0x7FFFFFFF -> Forall member_ok ms ->
  (new <- GetNewMultiXactId env (zlength ms) ;;
   let '(multi, offset) := new in
   pmod (mx_log (XLOG_MULTIXACT_CREATE_ID multi offset ms)) ;;;
   RecordNewMultiXact env multi offset ms ;;;
   pmod (mXactCachePut multi ms) ;;;
   pret multi)%prog s = (s', r) ->
  exists h1, later h h1 /\
  match r with
  | inr multi => multi = multi_of (h_next h1) /\ mx_good env s' (create h1 ms)
  | inl err => refusal env err
  end.
Proof.
  intros [Hok Hc] Hfew Ho Hid Hn Hms. unfold pbind at 1. destruct (GetNewMultiXactId _ _ _) as [s1 r1] eqn:E1. unfold zlength in Hn.
  apply (get_new_spec env (length ms) s h) in E1 as (h1 & Hl & C1 & R1); [|done..]. intros E. exists h1. split; [done|].
  destruct r1 as [err|[multi offset]]; [injection E as <- <-; apply R1|].
  destruct R1 as (-> & -> & Hok1). revert E. unfold pbind at 1, pmod at 1. set (s2 := mx_log _ s1).
  assert (mx_ok env s2 (push h1 (length ms))) as Hok2 by (by apply (mx_ok_same env s1)).
  unfold pbind at 1. destruct (RecordNewMultiXact _ _ _ _ _) as [s3 r3] eqn:E3.
  replace (h_next h1) with (h_base (push h1 (length ms)) + Z.of_nat (length (h_entries h1))) in E3 by done.
  eapply record_spec in E3 as (S3 & C3 & R3); [|done|apply push_last|done|done|done].
  destruct r3 as [err|[]]; [intros [= <- <-]; by do 3 right|]. intros [= <- <-]. split; [done|]. split.
  - by apply (mx_ok_same env s3).
  - apply put_cache_ok; [apply create_has|]. rewrite C3. cbn. rewrite C1. eapply cache_ok_later, Hc.
    etrans; [done|]. apply create_later.
Qed.

Lemma create_spec env s h members s' r : mx_good env s h -> few h -> others env (MX_meanwhile env) -> keeps_id (MX_meanwhile env) ->
  0 < zlength members < 0x7FFFFFFF -> Forall member_ok members -> MultiXactIdCreateFromMembers env members s = (s', r) ->
  exists h1, later h h1 /\
  match r with
  | inr multi =>
      (exists ms, has_members h multi ms /\ ms ≡ₚ members) /\ mx_good env s' h \/
      multi = multi_of (h_next h1) /\ mx_good env s' (create h1 (sort_members members))
  | inl err => err = MultiXactTwoUpdaters /\ two_updaters (sort_members members) = true \/ refusal env err
  end.
Proof.
  intros [Hok Hc] Hfew Ho Hid Hn Hms. unfold MultiXactIdCreateFromMembers. unfold pbind at 1.
  destruct (mXactCacheGetBySet _ _) as [s1 r1] eqn:E1. apply (get_by_set_spec h) in E1 as (S1 & O1 & M1 & C1 & multi & -> & R1); [|done].
  assert (mx_good env s1 h) as Hg1 by (split; [by apply (mx_ok_same env s)|done]). unfold MultiXactIdIsValid.
  destruct (Z.eqb_spec multi InvalidMultiXactId) as [E0|E0]; cbn [negb].
  2: { intros [= <- <-]. exists h. split; [done|]. left. destruct R1 as [?|?]; done. }
  destruct (two_updaters (sort_members members)).
  { intros [= <- <-]. exists h. split; [done|]. by left. }
  intros E. pose proof (sort_perm members) as Hp.
  eapply (create_new_spec env s1 h) in E as (h1 & Hl & R); [|done|done|done|done|unfold zlength in *; by rewrite Hp|by rewrite Hp].
  exists h1. split; [done|]. destruct r; by right.
Qed.

Lemma create_result env s h members s1 multi : mx_good env s h -> few h ->
  others env (MX_meanwhile env) -> keeps_id (MX_meanwhile env) -> 0 < zlength members < 0x7FFFFFFF -> Forall member_ok members ->
  MultiXactIdCreateFromMembers env members s = (s1, inr multi) ->
  exists h' ms, later h h' /\ mx_good env s1 h' /\ has_members h' multi ms /\ ms ≡ₚ members.
Proof.
  intros Hg Hf Ho Hid Hn Hms E. apply (create_spec env s h) in E as (h1 & Hl & R); [|done..].
  destruct R as [((ms & Hhas & Hp) & Hg')|[-> Hg']]; [by exists h, ms|].
  exists (create h1 (sort_members members)), (sort_members members). split; [etrans; [done|apply create_later]|].
  split; [done|]. split; [apply create_has|apply sort_perm].
Qed.

(** ** The promises *)

(** Creating a multixact from a list of members, in any state reached by
    creating multixacts and with others creating more of them whenever the lock
    is not held, either returns an id under which a permutation of the members
    is now stored, while every multixact that was there keeps its id and its
    members; or it fails because there are two updaters, because recovery is
    going on, because the ids or the space for members are used up, or because
    of a failing system call. *)
Theorem multixact_create env s h members s' r : mx_good env s h -> few h ->
  others env (MX_meanwhile env) -> keeps_id (MX_meanwhile env) ->
  0 < zlength members < 0x7FFFFFFF -> Forall member_ok members ->
  MultiXactIdCreateFromMembers env members s = (s', r) ->
  match r with
  | inr multi => exists h' ms, later h h' /\ mx_good env s' h' /\ has_members h' multi ms /\ ms ≡ₚ members
  | inl err => err = MultiXactTwoUpdaters /\ two_updaters (sort_members members) = true \/ refusal env err
  end.
Proof.
  intros Hg Hf Ho Hid Hn Hms E. destruct r as [err|multi]; [|by apply (create_result env s h members s' multi)].
  apply (create_spec env s h) in E as (h1 & Hl & R); done.
Qed.

(** C30. Looking up the members of a multixact comes to an end: if the next
    multixact has its id but not its members, the process sleeps until others
    have stored them, and after at most as many vain awakenings as the writer
    may cause it returns the members, in the order stored or sorted, unless a
    system call fails. *)
Theorem multixact_lookup_ends env retries s h i e ms s' r : mx_good env s h ->
  h_entries h !! i = Some e -> e_members e = Some ms -> findable env retries s h i ->
  MultiXact.GetMultiXactIdMembers retries env (multi_of (h_base h + Z.of_nat i)) false false s = (s', r) ->
  (exists h', later h h' /\ mx_good env s' h') /\
  match r with
  | inr (Some l) => l = ms \/ l = sort_members ms
  | inr None => False
  | inl err => err <> MultiXactStillWaiting /\ io_fault env err
  end.
Proof.
  intros Hg Hi Hms Hfd E. apply (get_members_spec env retries s h i e ms) in E as (h' & Hl & Hg' & R); [|done..].
  split; [by exists h'|]. destruct r as [err|[l|]]; try done. split; [|done]. by destruct R as (? & -> & _).
Qed.



(** ** Examples *)

Definition demo_offset_ctl : SlruCtl := MkSlruCtl 1 0 MultiXactOffsetPagePrecedes false (fun _ => None) (fun _ => None).
Definition demo_member_ctl : SlruCtl := MkSlruCtl 1 0 MultiXactMemberPagePrecedes false (fun _ => None) (fun _ => None).
Definition demo_env (meanwhile asleep : MX -> MX) : MXEnv :=
  MkMXEnv 0 true false (fun _ => None) meanwhile asleep demo_offset_ctl demo_member_ctl.
Definition quiet : MXEnv := demo_env id id.

(** A new cluster, with the limits set. *)
Definition demo_mx : MX :=
  ((upd_state set_started ;;; MultiXactSetNextMXact quiet false 1 0 ;;; SetMultiXactIdLimit quiet 400000000 1 1)%prog
     (MultiXactShmemInit 4 16 16 ∅ ∅ 0)).1.
Definition demo_history : History := MkHistory 0 0 [].

Lemma empty_area_wf ctl : nbanks ctl = 1 -> slru_wf ctl (SimpleLruInit 16 0 ∅ 0).
Proof.
  intros Hb. destruct (SimpleLruInit_ok ctl 16 0 ∅ 0) as [Hok Hp]; [done..|]. split; [exact Hok|]. intros q pg _ Hq.
  rewrite Hp in Hq. unfold file_page in Hq. cbn [files SimpleLruInit] in Hq. by rewrite lookup_empty in Hq.
Qed.

Lemma demo_mx_good f g : mx_good (demo_env f g) demo_mx demo_history.
Proof.
  split; [|apply Forall_nil_2]. split; [by apply empty_area_wf..| |by left|done|done|].
  - split; try done; [by left|by left].
  - exists (0x100000000 - 52352). split; [|done]. done.
Qed.

Lemma keeps_id_id : keeps_id id.
Proof. intros s H. exact H. Qed.

Lemma others_id env : others env id.
Proof. intros s h Hok. by exists h. Qed.

Definition demo_members : list MultiXactMember :=
  [MkMember 741 MultiXactStatusUpdate; MkMember 735 MultiXactStatusForKeyShare].

Lemma demo_members_ok : Forall member_ok demo_members.
Proof. repeat constructor; unfold member_ok; cbn; lia. Qed.

(** An update and a lock on the row: id 1 is created and found again. *)
Lemma multixact_create_witness :
  exists h' ms, later demo_history h' /\
    mx_good quiet (fst (MultiXactIdCreateFromMembers quiet demo_members demo_mx)) h' /\ has_members h' 1 ms /\ ms ≡ₚ demo_members.
Proof.
  apply (multixact_create quiet demo_mx demo_history demo_members _ (inr 1)).
  - apply demo_mx_good.
  - reflexivity.
  - apply others_id.
  - apply keeps_id_id.
  - unfold zlength, demo_members. cbn. lia.
  - apply demo_members_ok.
  - exact (result_eq (MultiXactIdCreateFromMembers quiet demo_members demo_mx) (inr 1) ltac:(vm_compute; reflexivity)).
Defined.




(** Another process stores the members of the next multixact while this one
    sleeps. *)
Definition demo_waiting (M offset : Z) (ms : list MultiXactMember) : MXEnv :=
  demo_env id (fun s => (RecordNewMultiXact quiet M offset ms s).1).

Lemma mx_ok_env f g f' g' s h : mx_ok (demo_env f g) s h -> mx_ok (demo_env f' g') s h.
Proof. intros []. by split. Qed.

Lemma demo_no_fault f g err : ~ io_fault (demo_env f g) err.
Proof. by intros (? & _ & [(? & ? & _ & [?|?])|(? & ? & _ & [?|?])]). Qed.

Lemma writer_wakes i e ms s h : let M := multi_of (h_base h + Z.of_nat (S i)) in
  let env := demo_waiting M (u32 (e_first e)) ms in
  mx_ok env s h -> h_entries h !! S i = Some e -> e_members e = None -> length ms = e_count e -> Forall member_ok ms ->
  wakes env i 1 s h.
Proof.
  intros M env Hok Hi Hn Hl Hms _ so Hk. cbn [wakes]. set (s1 := mx_set_offsets s so).
  assert (mx_ok quiet s1 h) as Hok1.
  { apply (mx_ok_env _ _ id id) in Hok. change (keeps (MultiXactOffsetCtl quiet) (mx_offsets s) so) in Hk. destruct Hok. split; cbn; try done; [by eapply keeps_wf|by eapply stored_keeps]. }
  change (while_asleep env s1) with (RecordNewMultiXact quiet M (u32 (e_first e)) ms s1).1.
  destruct (RecordNewMultiXact quiet M (u32 (e_first e)) ms s1) as [s2 r] eqn:E.
  apply (record_spec quiet s1 h (S i) e ms) in E as (_ & C & R); [|done..].
  destruct r as [err|[]]; [by apply demo_no_fault in R|]. exists (fill h (S i) ms). split; [by eapply fill_later|].
  split; [by apply (mx_ok_env id id)|]. split; [done|]. intros (e' & Hi' & Hn') _ _. revert Hi' Hn'. rewrite (fill_insert _ _ _ _ Hi).
  rewrite list_lookup_insert_eq by (by eapply lookup_lt_Some). by intros [= <-].
Qed.

(** Id 1 is created, and id 2 handed out. *)
Definition demo_created : MX := mx_set_cache (MultiXactIdCreateFromMembers quiet demo_members demo_mx).1 [].
Definition demo_pending : MX := (GetNewMultiXactId quiet (Z.of_nat 1) demo_created).1.
Definition demo_late : list MultiXactMember := [MkMember 742 MultiXactStatusForUpdate].

Lemma mx_ok_cache env s h cache : mx_ok env s h -> mx_ok env (mx_set_cache s cache) h.
Proof. by apply mx_ok_same. Qed.

Lemma demo_created_ok : exists h e ms, mx_ok quiet demo_created h /\ h_base h = 0 /\ h_entries h = [e] /\ e_members e = Some ms.
Proof.
  destruct (create_result quiet demo_mx demo_history demo_members (MultiXactIdCreateFromMembers quiet demo_members demo_mx).1 1)
    as (h & ms & Hl & [Hok _] & (i & e & Hi & Hms & E) & _); [apply demo_mx_good|done|apply others_id|apply keeps_id_id|done|apply demo_members_ok| |].
  { exact (result_eq (MultiXactIdCreateFromMembers quiet demo_members demo_mx) (inr 1) ltac:(vm_compute; reflexivity)). }
  apply (mx_ok_cache _ _ _ []) in Hok. fold demo_created in Hok.
  assert (h_entries h !! S i = None) as Hlast by (eapply last_one; [exact Hok|rewrite <- E; vm_compute; reflexivity]).
  pose proof (proj1 Hl) as Hb. cbn in Hb. rewrite Hb in E. pose proof (st_few _ _ _ (mo_stored _ _ _ Hok)) as Hfew. unfold zlength in Hfew.
  pose proof (lookup_lt_Some _ _ _ Hi). apply lookup_ge_None in Hlast. assert (i = 0%nat) as -> by (unfold multi_of in E; lia).
  exists h, e, ms. split; [exact Hok|]. split; [exact Hb|]. destruct (h_entries h) as [|e0 [|]]; cbn in *; try lia. by injection Hi as ->.
Qed.

Lemma demo_pending_ok : exists h e e' ms, mx_good quiet demo_pending h /\ h_base h = 0 /\ h_entries h = [e; e'] /\
  e_members e = Some ms /\ e_members e' = None /\ e_count e' = 1%nat /\ u32 (e_first e') = 3.
Proof.
  destruct demo_created_ok as (h & e & ms & Hok & Hb & He & Hms).
  pose proof (result_eq (GetNewMultiXactId quiet (Z.of_nat 1) demo_created) (inr (2, 3)) ltac:(vm_compute; reflexivity)) as En.
  assert (few h) as Hf by (unfold few; by rewrite He).
  destruct (get_new_spec quiet 1 demo_created h _ _ Hok Hf (others_id quiet) keeps_id_id ltac:(lia) En) as (h1 & Hl & C & E2 & E3 & Hok2).
  pose proof (later_complete h h1 0 e ms Hl ltac:(by rewrite He) Hms) as He1. pose proof (proj1 Hl) as Hb1. rewrite Hb in Hb1.
  pose proof (st_few _ _ _ (mo_stored _ _ _ Hok2)) as Hfew. cbn in Hfew. unfold zlength in Hfew. rewrite length_app in Hfew. cbn in Hfew.
  unfold h_next, zlength, multi_of in E2. rewrite Hb1 in E2. exists (push h1 1), e, (pending h1 1), ms.
  assert (h_entries h1 = [e]) as Hone.
  { destruct (h_entries h1) as [|e0 [|]]; cbn in *; [done|by injection He1 as ->|lia]. }
  split; [split; [exact Hok2|]|].
  - unfold demo_pending. rewrite C. apply Forall_nil_2.
  - cbn. rewrite Hone. split_and!; (done || by rewrite E3).
Qed.

Lemma multixact_lookup_ends_witness :
  let env := demo_waiting 2 3 demo_late in
  let '(s', r) := MultiXact.GetMultiXactIdMembers 1 env 1 false false demo_pending in
  (exists h h', later h h' /\ mx_good env s' h') /\
  match r with
  | inr l => exists ms, l = Some ms \/ l = Some (sort_members ms)
  | inl err => err <> MultiXactStillWaiting /\ io_fault env err
  end.
Proof.
  intros env. destruct demo_pending_ok as (h & e & e' & ms & [Hok Hc] & Hb & He & Hms & Hn & Hcount & E3).
  assert (multi_of (h_base h + Z.of_nat 0) = 1) as E1 by (by rewrite Hb).
  assert (mx_ok env demo_pending h) as Hok' by (by apply (mx_ok_env id id)).
  destruct (MultiXact.GetMultiXactIdMembers 1 env 1 false false demo_pending) as [s' r] eqn:E.
  rewrite <- E1 in E. apply (multixact_lookup_ends env 1 demo_pending h 0 e ms) in E as [(h' & H) R]; [|by split|by rewrite He|done|].
  - split; [by exists h, h'|]. destruct r as [err|[l|]]; [done| |done]. exists ms. destruct R as [->| ->]; auto.
  - split.
    + rewrite E1. vm_compute. reflexivity.
    + unfold not_stranded. by rewrite He.
    + replace env with (demo_waiting (multi_of (h_base h + Z.of_nat 1)) (u32 (e_first e')) demo_late) by (by rewrite Hb, E3).
      apply (writer_wakes 0 e' demo_late); [|by rewrite He|done|done|repeat constructor; unfold member_ok; cbn; lia].
      apply set_visible_ok. by apply (mx_ok_env id id).
Defined.

(** ** The last id *)

Lemma on_offsets_state {A} (m : prog Slru SlruError A) s s' r : on_offsets m s = (s', r) -> MultiXactState s' = MultiXactState s.
Proof. unfold on_offsets. destruct (m _) as [? [?|?]]; by intros [= <- _]. Qed.

Lemma on_members_state {A} (m : prog Slru SlruError A) s s' r : on_members m s = (s', r) -> MultiXactState s' = MultiXactState s.
Proof. unfold on_members. destruct (m _) as [? [?|?]]; by intros [= <- _]. Qed.

Lemma extend_offset_state env m s s' r : ExtendMultiXactOffset env m s = (s', r) -> MultiXactState s' = MultiXactState s.
Proof.
  unfold ExtendMultiXactOffset, ZeroMultiXactOffsetPage, WriteMZeroPageXlogRec, pwhen, pmod, pbind, pret.
  case_match; [by intros [= <- _]|]. destruct (on_offsets _ _) as [s1 [e|n]] eqn:E; intros [= <- _]; by apply on_offsets_state in E.
Qed.

Lemma extend_members_state fuel env : forall o n s s' r, extend_members_loop fuel env o n s = (s', r) -> MultiXactState s' = MultiXactState s.
Proof.
  induction fuel as [|fuel IH]; intros o n s s' r; cbn [extend_members_loop]; [by intros [= <- _]|].
  destruct (negb (0 <? n)); [by intros [= <- _]|]. unfold ZeroMultiXactMemberPage, WriteMZeroPageXlogRec, pwhen, pmod, pbind, pret.
  destruct (_ && _); [|apply IH]. destruct (on_members _ _) as [s1 [e|k]] eqn:E; apply on_members_state in E; [by intros [= <- _]|].
  intros H. apply IH in H. by rewrite H.
Qed.

Lemma check_members_state n s s' r : check_member_limits n s = (s', r) -> MultiXactState s' = MultiXactState s.
Proof. unfold check_member_limits. repeat case_match; by intros [= <- _]. Qed.

(** The id is the one that the guards let pass, and the counter moves by one. *)
Lemma get_new_counter env n s s' m o : GetNewMultiXactId env n s = (s', inr (m, o)) ->
  exists s1, check_multi_limits env s = (s1, inr m) /\ nextMXact (MultiXactState s') = u32 (nextMXact (MultiXactState s1) + 1).
Proof.
  unfold GetNewMultiXactId. destruct (MX_RecoveryInProgress env); [done|]. unfold pbind at 1.
  destruct (check_multi_limits env s) as [s1 [e|m1]]; [done|]. unfold pbind at 1.
  destruct (ExtendMultiXactOffset _ _ _) as [s2 [e|[]]] eqn:E2; [done|]. apply extend_offset_state in E2. unfold pbind at 1, pget at 1. cbn zeta.
  unfold pbind at 1. destruct (check_member_limits _ _) as [s3 [e|[]]] eqn:E3; [done|]. apply check_members_state in E3.
  unfold pbind at 1. destruct (ExtendMultiXactMember _ _ _ _) as [s4 [e|[]]] eqn:E4; [done|]. apply extend_members_state in E4.
  intros [= <- <- <-]. exists s1. split; [done|]. cbn. by rewrite E4, E3, E2.
Qed.

Lemma guards_counter env s s' m : check_multi_limits env s = (s', inr m) ->
  m = valid_multi (nextMXact (MultiXactState s')) /\
  (nextMXact (MultiXactState s') = valid_multi (nextMXact (MultiXactState s)) \/
   exists t, s' = MX_meanwhile env t /\ nextMXact (MultiXactState t) = valid_multi (nextMXact (MultiXactState s))).
Proof.
  unfold check_multi_limits. cbn zeta. destruct (negb (MultiXactIdPrecedes _ _)).
  - destruct (_ && negb _); [done|]. intros [= <- <-]. split; [done|right]. eexists. split; [done|]. by repeat case_match.
  - intros [= <- <-]. split; [|by left]. cbn. unfold valid_multi. destruct (Z.ltb_spec (nextMXact (MultiXactState s)) FirstMultiXactId); [done|].
    by rewrite (proj2 (Z.ltb_ge _ _)).
Qed.

(** C34. When others hand out the last id while this process has released the
    lock to send a warning, the counter it finds is 0: it takes id 1 and leaves
    the counter at 1, so that the next process to ask is given id 1 again. *)
Theorem last_id_handed_out_twice env n s t m s1 m1 o1 :
  check_multi_limits env s = (t, inr m) -> nextMXact (MultiXactState t) = 0 ->
  GetNewMultiXactId env n s = (s1, inr (m1, o1)) ->
  m1 = FirstMultiXactId /\ nextMXact (MultiXactState s1) = FirstMultiXactId /\
  forall env' n' s2 m2 o2, MX_meanwhile env' = id -> GetNewMultiXactId env' n' s1 = (s2, inr (m2, o2)) -> m2 = FirstMultiXactId.
Proof.
  intros Ht H0 E. apply get_new_counter in E as (t' & E & Hnext). rewrite Ht in E. injection E as <- <-. rewrite H0 in Hnext.
  split; [apply guards_counter in Ht as [-> _]; by rewrite H0|]. split; [done|]. intros env' n' s2 m2 o2 Hid E.
  apply get_new_counter in E as (t2 & E & _). apply guards_counter in E as (-> & [->|(t3 & -> & E3)]); [by rewrite Hnext|].
  rewrite Hid. unfold id. by rewrite E3, Hnext.
Qed.

(** One id is left before the counter wraps around, past the limit from which
    autovacuum is asked for; another process takes it. *)
Definition demo_last : MX :=
  mx_set_state demo_mx (set_multi_limits (set_counters (MultiXactState demo_mx) MaxMultiXactId 1)
    2200000000 1 2600000000 12516351 49516351 52516351).
Definition demo_racing : MXEnv := demo_env (fun t => (GetNewMultiXactId quiet 2 t).1) id.

Lemma last_id_handed_out_twice_witness :
  let s1 := (GetNewMultiXactId demo_racing 2 demo_last).1 in
  (GetNewMultiXactId demo_racing 2 demo_last).2 = inr (1, 3) /\
  (nextMXact (MultiXactState s1) = 1 /\
   forall env' n' s2 m2 o2, MX_meanwhile env' = id -> GetNewMultiXactId env' n' s1 = (s2, inr (m2, o2)) -> m2 = 1) /\
  (GetNewMultiXactId quiet 2 s1).2 = inr (1, 5).
Proof.
  split; [vm_compute; reflexivity|]. split; [|vm_compute; reflexivity].
  refine (proj2 (last_id_handed_out_twice demo_racing 2 demo_last (check_multi_limits demo_racing demo_last).1 1 _ 1 3 _ _ _)).
  - exact (result_eq (check_multi_limits demo_racing demo_last) (inr 1) ltac:(vm_compute; reflexivity)).
  - vm_compute. reflexivity.
  - exact (result_eq (GetNewMultiXactId demo_racing 2 demo_last) (inr (1, 3)) ltac:(vm_compute; reflexivity)).
Defined.

(** ** The limit on members *)

(** Space for members is refused exactly when the members, with slot 0
    counted where they run past the end of the area, would reach the limit that
    is kept ahead of the oldest multixact. *)
Theorem members_limit_exact env s h n : mx_ok env s h -> 0 <= n < 0x80000000 ->
  exists stop, stop_ok h stop /\ offsetStopLimit (MultiXactState s) = u32 stop /\
  ((check_member_limits n s).2 = inl (MultiXactMembersLimit n) <->
   stop <= h_end h + n + (if u32 (h_end h + n) <? u32 (h_end h) then 1 else 0)).
Proof.
  intros Hok Hn. destruct (mo_stop _ _ _ Hok) as (stop & Hstop & Es). destruct (stop_page _ _ Hstop) as [Hlt Hle]. exists stop. split; [done|]. split; [done|].
  pose proof (mx_offset_le _ _ _ Hok) as Hge. unfold check_member_limits. cbn zeta.
  rewrite (mo_known _ _ _ Hok), Es, (mo_next_offset _ _ _ Hok), would_wrap_spec by mx_lia. cbn [andb].
  set (e := if _ <? _ then _ else _). destruct (Z.leb_spec stop (h_end h + n + e)); [done|]. split; [|lia]. by repeat case_match.
Qed.

Lemma members_limit_exact_witness :
  exists stop, stop_ok demo_history stop /\ offsetStopLimit (MultiXactState demo_mx) = u32 stop /\
  ((check_member_limits 5 demo_mx).2 = inl (MultiXactMembersLimit 5) <->
   stop <= h_end demo_history + 5 + (if u32 (h_end demo_history + 5) <? u32 (h_end demo_history) then 1 else 0)).
Proof. apply (members_limit_exact quiet demo_mx demo_history 5); [apply demo_mx_good|lia]. Defined.
