(* ===== verification/MultiXactTruncate.v ===== *)
(** * Truncating the multixact store

    [TruncateMultiXact] and [SetOffsetVacuumLimit] of
    [src/backend/access/transam/multixact.c]: dropping the oldest multixacts of a
    history leaves the others as they were, although the segments of both areas
    are numbered round the clock; and the limit set for new members keeps them a
    segment away from the oldest ones. *)

From S2P Require Import Prelude.
From S2P Require Import TransactionId.
From S2P Require Import Slru.
From S2P Require Import SlruEntries.
From S2P Require Import SlruDelete.
From S2P Require Import XidPages.
From S2P Require Import Visibility.
From S2P Require Import MultiXactPages.
From S2P Require Import MultiXact.
From S2P Require Import MultiXactHistory.
From S2P Require Import MultiXactTheorems.

(** ** Segments of the members area *)

Definition MEMBER_SEGMENTS : Z := 82041.

Lemma max_segment : MXOffsetToMemberSegment MaxMultiXactOffset = MEMBER_SEGMENTS - 1.
Proof. reflexivity. Qed.

(** The number of a segment when the area is unrolled. *)
Definition turn_segment (P : Z) : Z := MEMBER_SEGMENTS * (P / 0x100000000) + u32 P / MULTIXACT_MEMBERS_PER_SEGMENT.

Ltac seg_lia :=
  unfold turn_segment, segment_start, MEMBER_SEGMENTS, u32 in *; change MULTIXACT_MEMBERS_PER_SEGMENT with 52352 in *; lia.

Lemma member_segment P : seg_of (MXOffsetToMemberPage (u32 P)) = turn_segment P mod MEMBER_SEGMENTS.
Proof.
  unfold seg_of. change SLRU_PAGES_PER_SEGMENT with 32. mx_unfold. rewrite Z.div_div by lia. seg_lia.
Qed.

Lemma turn_segment_mono P Q : P <= Q -> turn_segment P <= turn_segment Q.
Proof. seg_lia. Qed.

Lemma segment_start_mono P Q : P <= Q -> segment_start P <= segment_start Q.
Proof. seg_lia. Qed.

(** Nothing before the start of the same segment on the next turn shares it. *)
Lemma turn_segment_round P Q : P <= Q -> Q < segment_start P + 0x100000000 -> turn_segment Q < turn_segment P + MEMBER_SEGMENTS.
Proof. seg_lia. Qed.

(** The segments from [a] up to [b], going round. *)
Definition in_span (a b x : Z) : Prop := (x - a) mod MEMBER_SEGMENTS < (b - a) mod MEMBER_SEGMENTS.

Lemma span_safe Pold Pnew P : Pold <= Pnew -> Pnew <= P -> P < segment_start Pold + 0x100000000 ->
  ~ in_span (seg_of (MXOffsetToMemberPage (u32 Pold))) (seg_of (MXOffsetToMemberPage (u32 Pnew))) (seg_of (MXOffsetToMemberPage (u32 P))).
Proof.
  intros H1 H2 H3. rewrite !member_segment. pose proof (turn_segment_mono _ _ H1). pose proof (turn_segment_mono _ _ H2).
  pose proof (turn_segment_round Pold P ltac:(lia) H3). unfold in_span.
  rewrite !Zminus_mod_idemp_l, !Zminus_mod_idemp_r. unfold MEMBER_SEGMENTS in *.
  rewrite !Z.mod_small by lia. lia.
Qed.

Definition is_segment (x : Z) : Prop := 0 <= x < MEMBER_SEGMENTS.

Definition next_segment (x : Z) : Z := if x =? MXOffsetToMemberSegment MaxMultiXactOffset then 0 else x + 1.

Lemma next_segment_ok x : is_segment x -> is_segment (next_segment x).
Proof. unfold is_segment, next_segment. rewrite max_segment. unfold MEMBER_SEGMENTS. destruct (Z.eqb_spec x (82041 - 1)); lia. Qed.

Lemma span_step a b x : is_segment a -> is_segment b -> is_segment x -> a <> b ->
  (in_span a b x <-> x = a \/ in_span (next_segment a) b x) /\
  (b - next_segment a) mod MEMBER_SEGMENTS < (b - a) mod MEMBER_SEGMENTS.
Proof.
  unfold is_segment, next_segment, in_span. rewrite max_segment. unfold MEMBER_SEGMENTS. destruct (Z.eqb_spec a (82041 - 1)); lia.
Qed.

(** Segments outside the span are left alone, and the loop comes to an end. *)
Lemma delete_members_spec ctl b fuel : is_segment b -> forall a st st' r, is_segment a -> slru_wf ctl st ->
  (b - a) mod MEMBER_SEGMENTS < Z.of_nat fuel -> delete_member_segments fuel ctl a b st = (st', r) ->
  slru_wf ctl st' /\
  (forall q, is_segment (seg_of q) -> ~ in_span a b (seg_of q) -> page_le (slru_page st q) (slru_page st' q)) /\
  match r with inl e => faulty ctl e | inr _ => True end.
Proof.
  intros Hb. induction fuel as [|fuel IH]; intros a st st' r Ha Hok Hf; cbn [delete_member_segments].
  { unfold MEMBER_SEGMENTS in Hf. lia. }
  destruct (Z.eqb_spec a b) as [->|Hne]; cbn [negb]; [intros [= <- <-]; split_and!; [done..|by left|done]|].
  unfold pbind. destruct (SlruDeleteSegment ctl a st) as [st1 r1] eqn:E1. pose proof (delete_segment_wf _ _ _ _ _ Hok E1) as Hok1.
  apply SlruDeleteSegment_spec in E1 as (_ & Hpages & R1); [|apply Hok]. destruct r1 as [e|[]].
  - intros [= <- <-]. destruct R1 as [Hv (c & q & -> & Hw)]. split; [done|]. split; [intros q0 _ _; apply Hv|]. exists c, q. auto.
  - intros E. fold (next_segment a) in E. pose proof (next_segment_ok a Ha) as Hn.
    apply IH in E as (Hok2 & Hpages2 & R2); [|done|done|pose proof (span_step a b a Ha Hb Ha Hne); lia].
    split; [done|]. split; [|done]. intros q Hq Hout. rewrite (proj1 (span_step a b (seg_of q) Ha Hb Hq Hne)) in Hout.
    etransitivity; [apply Hpages|apply Hpages2]; tauto.
Qed.

Lemma page_le_present st st' q : page_le (slru_page st q) (slru_page st' q) -> present st q -> present st' q /\ page_of st' q = page_of st q.
Proof. intros H Hp. split; [by eapply page_le_is_Some|]. unfold page_of. by apply page_le_default. Qed.

(** The pages of the offsets from [Pnew] on survive. *)
Lemma members_truncation_spec env s Pold Pnew s' r : slru_wf (MultiXactMemberCtl env) (mx_members s) ->
  Pold <= Pnew -> PerformMembersTruncation env (u32 Pold) (u32 Pnew) s = (s', r) ->
  s' = mx_set_members s (mx_members s') /\ slru_wf (MultiXactMemberCtl env) (mx_members s') /\
  (forall P, Pnew <= P < segment_start Pold + 0x100000000 ->
    page_le (slru_page (mx_members s) (MXOffsetToMemberPage (u32 P))) (slru_page (mx_members s') (MXOffsetToMemberPage (u32 P)))) /\
  match r with inl e => io_fault env e | inr _ => True end.
Proof.
  intros Hok Hle. assert (forall P, is_segment (seg_of (MXOffsetToMemberPage (u32 P)))) as Hseg.
  { intros P. rewrite member_segment. unfold is_segment, MEMBER_SEGMENTS. lia. }
  unfold PerformMembersTruncation, on_members, MXOffsetToMemberSegment at 2 3.
  destruct (delete_member_segments _ _ _ _ _) as [st1 r1] eqn:E1.
  apply delete_members_spec in E1 as (Hok1 & Hpages & R1); [|apply Hseg|apply Hseg|done|].
  2: { rewrite max_segment. unfold MEMBER_SEGMENTS. rewrite !Nat2Z.inj_succ, Z2Nat.id by lia. lia. }
  destruct r1 as [e|[]]; intros [= <- <-]; (split; [done|]; split; [done|]; split).
  - intros P HP. apply Hpages; [apply Hseg|]. apply span_safe; lia.
  - exists e. auto.
  - intros P HP. apply Hpages; [apply Hseg|]. apply span_safe; lia.
  - done.
Qed.

(** ** Segments of the offsets area *)

(** Pages are ordered as those of the other logs with 2048 entries to a page. *)
Lemma offset_page_precedes p q : MultiXactOffsetPagePrecedes p q = xid_page_precedes 2048 p q.
Proof.
  unfold MultiXactOffsetPagePrecedes, xid_page_precedes, TransactionIdPrecedes, MultiXactIdPrecedes, TransactionIdIsNormal,
    FirstNormalTransactionId, FirstMultiXactId. change MULTIXACT_OFFSETS_PER_PAGE with 2048.
  assert (forall x, exists a, u32 (u32 x * 2048) = 2048 * a /\ 0 <= a <= 2097151) as Hpage.
  { intros x. exists (x mod 2097152). unfold u32. lia. }
  destruct (Hpage p) as (a & -> & Ha), (Hpage q) as (b & -> & Hb).
  rewrite !(proj2 (Z.leb_le 3 (u32 _))) by (unfold u32; lia). cbn [negb orb]. apply eq_true_iff_eq.
  rewrite !andb_true_iff, !Z.ltb_lt. unfold i32, u32. repeat case_match; lia.
Qed.

Lemma previous_multi M : PreviousMultiXactId (multi_of M) = multi_of (M - 1).
Proof.
  unfold PreviousMultiXactId, multi_of, FirstMultiXactId, MaxMultiXactId. destruct (Z.eqb_spec (1 + M mod 0xFFFFFFFF) 1); unfold u32; lia.
Qed.

(** The page of a multixact at or after the new oldest one is kept. *)
Lemma offset_page_kept ctl M d : (forall p q, PagePrecedes ctl p q = MultiXactOffsetPagePrecedes p q) -> 0 <= d <= 0x7FFFFFFE ->
  deletable ctl (MultiXactIdToOffsetPage (multi_of (M - 1))) (seg_of (MultiXactIdToOffsetPage (multi_of (M + d)))) = false.
Proof.
  intros Hctl Hd. destruct (deletable _ _ _) eqn:E; [|done]. exfalso.
  apply (xid_pages_convex 2048) in E; [|auto|intros; rewrite Hctl; apply offset_page_precedes|apply offset_page_nonneg..].
  rewrite Hctl, offset_page_precedes, xid_page_precedes_spec in E; [|auto|apply offset_page_nonneg..].
  destruct (i32_congr ((MultiXactIdToOffsetPage (multi_of (M + d)) - MultiXactIdToOffsetPage (multi_of (M - 1))) * 2048)) as [k Ek].
  revert E Ek. set (z := i32 _). clearbody z. unfold multi_of. mx_unfold. intros E Ek. lia.
Qed.

Lemma offsets_truncation_spec env s M s' r : slru_wf (MultiXactOffsetCtl env) (mx_offsets s) ->
  (forall p q, PagePrecedes (MultiXactOffsetCtl env) p q = MultiXactOffsetPagePrecedes p q) ->
  PerformOffsetsTruncation env (multi_of M) s = (s', r) ->
  s' = mx_set_offsets s (mx_offsets s') /\ slru_wf (MultiXactOffsetCtl env) (mx_offsets s') /\
  (forall d, 0 <= d <= 0x7FFFFFFE -> let p := MultiXactIdToOffsetPage (multi_of (M + d)) in
    page_le (slru_page (mx_offsets s) p) (slru_page (mx_offsets s') p)) /\
  match r with inl e => io_fault env e | inr _ => True end.
Proof.
  intros Hok Hctl. unfold PerformOffsetsTruncation, on_offsets. rewrite previous_multi.
  assert (forall p q, PagePrecedes (MultiXactOffsetCtl env) p q = xid_page_precedes 2048 p q) as Hctl'.
  { intros. rewrite Hctl. apply offset_page_precedes. }
  destruct (SimpleLruTruncate _ _ _) as [st1 r1] eqn:E1. pose proof (offset_page_nonneg (M - 1)) as H0.
  destruct (truncate_wf 2048 ltac:(auto) _ Hctl' _ _ _ _ Hok H0 E1) as (Hok1 & Hkeep & _).
  apply SimpleLruTruncate_spec in E1 as (_ & _ & R1); [|intros q Hq; by apply (xid_pages_convex 2048); auto|apply Hok].
  assert (forall d, 0 <= d <= 0x7FFFFFFE -> let p := MultiXactIdToOffsetPage (multi_of (M + d)) in
    page_le (slru_page (mx_offsets s) p) (slru_page st1 p)) as Hpages.
  { intros d Hd. apply Hkeep; [apply offset_page_nonneg|by apply offset_page_kept]. }
  destruct r1 as [e|[]]; intros [= <- <-]; (split; [done|]; split; [done|]; split; [done|]); [|done].
  destruct R1 as [_ (c & q & -> & Hw)]. eexists. split; [done|]. left. exists c, q. auto.
Qed.

(** ** Shorter histories *)

(** Where multixact number [k] of the history starts, or the next one to come. *)
Definition start_at (h : History) (k : nat) : Z := match h_entries h !! k with Some e => e_start e | None => h_end h end.
Definition first_at (h : History) (k : nat) : Z := match h_entries h !! k with Some e => e_first e | None => h_end h end.

(** The history without its first [k] multixacts. *)
Definition trunc (h : History) (k : nat) : History :=
  MkHistory (h_base h + Z.of_nat k) (start_at h k) (drop k (h_entries h)).

Lemma chain_drop l : forall P k, chain P l -> (k <= length l)%nat ->
  let P' := match l !! k with Some e => e_start e | None => ends P l end in
  chain P' (drop k l) /\ ends P' (drop k l) = ends P l.
Proof.
  induction l as [|e l IH]; intros P [|k] Hc Hk; cbn in *; [done|lia|by destruct Hc as [<- Hc]|].
  destruct Hc as [<- Hc]. apply (IH (e_end e) k Hc). lia.
Qed.

Lemma trunc_end h k : chain (h_offset h) (h_entries h) -> (k <= length (h_entries h))%nat -> h_end (trunc h k) = h_end h.
Proof. intros Hc Hk. by apply (chain_drop _ _ _ Hc Hk). Qed.

Lemma trunc_next h k : (k <= length (h_entries h))%nat -> h_next (trunc h k) = h_next h.
Proof. intros Hk. unfold h_next, zlength. cbn. rewrite length_drop. lia. Qed.

Lemma start_bounds h k : chain (h_offset h) (h_entries h) -> h_offset h <= start_at h k <= h_end h.
Proof.
  intros Hc. pose proof (ends_ge _ _ Hc) as Hge. fold (h_end h) in Hge. unfold start_at. destruct (h_entries h !! k) as [e|] eqn:Hk; [|lia].
  destruct (chain_bounds _ _ _ _ Hc Hk). pose proof (e_bounds e). fold (h_end h) in *. lia.
Qed.

Lemma start_first h : chain (h_offset h) (h_entries h) -> start_at h 0 = h_offset h.
Proof. unfold start_at, h_end. destruct (h_entries h) as [|e l]; cbn; [done|]. by intros [<- _]. Qed.

Lemma first_bounds h k : start_at h k <= first_at h k <= start_at h k + 1 /\
  (first_at h k = start_at h k \/ u32 (start_at h k) = 0 /\ is_Some (h_entries h !! k)).
Proof.
  unfold start_at, first_at. destruct (h_entries h !! k) as [e|]; [|lia]. unfold e_first, skip.
  destruct (Z.eqb_spec (u32 (e_start e)) 0); (split; [lia|]); [right|left]; [done|lia].
Qed.

Lemma first_mono h k : chain (h_offset h) (h_entries h) -> first_at h 0 <= first_at h k.
Proof.
  intros Hc. destruct (start_bounds h k Hc) as [_ H2].
  destruct (first_bounds h k) as [Hk _]. destruct k as [|k]; [lia|]. unfold first_at at 1. destruct (h_entries h !! 0%nat) as [e|] eqn:H0.
  - pose proof (e_bounds e). unfold first_at, start_at in *. destruct (h_entries h !! S k) as [e'|] eqn:Hk'.
    + pose proof (chain_order _ _ 0 (S k) _ _ Hc ltac:(lia) H0 Hk'). lia.
    + destruct (chain_bounds _ _ _ _ Hc H0). fold (h_end h) in *. lia.
  - unfold first_at. destruct (h_entries h); [|done]. cbn. lia.
Qed.

Definition kept_offsets (M : Z) (so so' : Slru) : Prop :=
  forall d, 0 <= d <= 0x7FFFFFFE -> let p := MultiXactIdToOffsetPage (multi_of (M + d)) in page_le (slru_page so p) (slru_page so' p).

Definition kept_members (P Q : Z) (sm sm' : Slru) : Prop :=
  forall P', P <= P' <= Q -> let p := MXOffsetToMemberPage (u32 P') in page_le (slru_page sm p) (slru_page sm' p).

Lemma stored_trunc so sm so' sm' h k : stored so sm h -> (k <= length (h_entries h))%nat ->
  kept_offsets (h_base h + Z.of_nat k) so so' -> kept_members (start_at h k) (h_end h) sm sm' -> stored so' sm' (trunc h k).
Proof.
  intros [H1 H2 H3 H4 H5 H6 H7] Hk Ho Hm. destruct (start_bounds h k H3) as [Hs1 Hs2]. unfold zlength in H4. split.
  - cbn. lia.
  - cbn. lia.
  - by apply (chain_drop _ _ _ H3 Hk).
  - cbn. unfold zlength. rewrite length_drop. lia.
  - cbn. intros j e. rewrite lookup_drop. intros Hj. pose proof (lookup_lt_Some _ _ _ Hj) as Hlt. pose proof (H5 _ _ Hj) as He.
    replace (h_base h + Z.of_nat k + Z.of_nat j) with (h_base h + Z.of_nat (k + j)) by lia.
    assert (page_le (slru_page so (MultiXactIdToOffsetPage (multi_of (h_base h + Z.of_nat (k + j)))))
      (slru_page so' (MultiXactIdToOffsetPage (multi_of (h_base h + Z.of_nat (k + j)))))) as Hle.
    { replace (h_base h + Z.of_nat (k + j)) with (h_base h + Z.of_nat k + Z.of_nat j) by lia. apply Ho. lia. }
    destruct (page_le_present _ _ _ Hle (eo_present _ _ _ _ He)) as [Hp Eo].
    apply (entry_local so sm); [done|done|unfold offset_at; by rewrite Eo|]. intros P HP.
    assert (start_at h k <= e_start e) as Hst.
    { unfold start_at in *. destruct (h_entries h !! k) as [ek|] eqn:Ek; [|apply lookup_ge_None in Ek; lia].
      destruct j as [|j]; [rewrite Nat.add_0_r in Hj; replace e with ek by congruence; lia|].
      pose proof (chain_order _ _ k (k + S j) _ _ H3 ltac:(lia) Ek Hj). pose proof (e_bounds ek). lia. }
    destruct (chain_bounds _ _ _ _ H3 Hj) as [_ He2]. fold (h_end h) in He2.
    destruct (page_le_present _ _ _ (Hm P ltac:(lia)) (eo_pages _ _ _ _ He P HP)) as [Hp2 Em]. split; [done|]. unfold member_at. by rewrite Em.
  - rewrite trunc_next by done. destruct H6 as [?|[Hp Hz]]; [by left|right].
    assert (page_le (slru_page so (MultiXactIdToOffsetPage (multi_of (h_next h)))) (slru_page so' (MultiXactIdToOffsetPage (multi_of (h_next h))))) as Hle.
    { replace (h_next h) with (h_base h + Z.of_nat k + (Z.of_nat (length (h_entries h)) - Z.of_nat k)) by (unfold h_next, zlength; lia). apply Ho. lia. }
    destruct (page_le_present _ _ _ Hle Hp) as [Hp' Eo]. split; [done|]. intros m' Em Hm'. rewrite <- (Hz m' Em Hm'). unfold offset_at. by rewrite Em, Eo.
  - rewrite trunc_end by done. destruct H7 as [?|Hp]; [by left|right]. by apply (page_le_present sm sm' _ (Hm (h_end h) ltac:(lia))).
Qed.

Lemma mx_ok_trunc env s so' sm' h k m : mx_ok env s h -> (k <= length (h_entries h))%nat ->
  slru_wf (MultiXactOffsetCtl env) so' -> slru_wf (MultiXactMemberCtl env) sm' ->
  kept_offsets (h_base h + Z.of_nat k) (mx_offsets s) so' -> kept_members (start_at h k) (h_end h) (mx_members s) sm' ->
  nextMXact m = nextMXact (MultiXactState s) -> nextOffset m = nextOffset (MultiXactState s) ->
  oldestOffsetKnown m = oldestOffsetKnown (MultiXactState s) -> offsetStopLimit m = offsetStopLimit (MultiXactState s) ->
  forall s', MultiXactState s' = m -> mx_offsets s' = so' -> mx_members s' = sm' -> mx_ok env s' (trunc h k).
Proof.
  intros [W1 W2 W3 W4 W5 W6 (stop & [Hs1 Hs2] & W7)] Hk Wo Wm Ho Hm E1 E2 E3 E4 s' <- <- <-. pose proof (st_chain _ _ _ W3) as Hc.
  split; rewrite ?E1, ?E2, ?E3, ?E4; [done|done|by eapply stored_trunc|by rewrite trunc_next|by rewrite trunc_end|done|].
  exists stop. split; [|done]. split; [by rewrite trunc_end|]. cbn [h_offset trunc]. destruct (start_bounds h k Hc) as [Hs _].
  pose proof (segment_start_mono _ _ Hs). lia.
Qed.

(** ** Where a multixact starts *)

(** Nothing but the contents of the caches of pages has changed. *)
Definition mx_looked (env : MXEnv) (s s' : MX) : Prop :=
  MultiXactState s' = MultiXactState s /\ MXactCache s' = MXactCache s /\
  keeps (MultiXactOffsetCtl env) (mx_offsets s) (mx_offsets s') /\ keeps (MultiXactMemberCtl env) (mx_members s) (mx_members s').

Lemma mx_looked_refl env s h : mx_ok env s h -> mx_looked env s s.
Proof. intros Hok. split_and!; [done..|apply keeps_refl, Hok|apply keeps_refl, Hok]. Qed.

Lemma mx_looked_trans env s1 s2 s3 : mx_looked env s1 s2 -> mx_looked env s2 s3 -> mx_looked env s1 s3.
Proof. intros (A1 & A2 & A3 & A4) (B1 & B2 & B3 & B4). split_and!; [congruence..|by eapply keeps_trans|by eapply keeps_trans]. Qed.

Lemma mx_looked_ok env s s' h : mx_looked env s s' -> mx_ok env s h -> mx_ok env s' h.
Proof.
  intros (E & _ & Ho & Hm) []. split; rewrite ?E; try done; [by eapply keeps_wf|by eapply keeps_wf|].
  eapply stored_keeps; [done|]. by eapply stored_keeps_members.
Qed.

Lemma on_offsets_looked {A} env (m : prog Slru SlruError A) s h s' r : mx_ok env s h ->
  (forall st' x, m (mx_offsets s) = (st', x) ->
     keeps (MultiXactOffsetCtl env) (mx_offsets s) st' /\ match x with inl e => faulty (MultiXactOffsetCtl env) e | inr _ => True end) ->
  on_offsets m s = (s', r) ->
  mx_looked env s s' /\ match r with inl e => io_fault env e | inr a => (m (mx_offsets s)).2 = inr a end.
Proof.
  intros Hok Hm. unfold on_offsets. destruct (m (mx_offsets s)) as [st1 x] eqn:E. destruct (Hm _ _ eq_refl) as [Hk R].
  destruct x as [e|a]; intros [= <- <-]; (split; [split_and!; [done..|apply keeps_refl, Hok]|]); [|done]. exists e. auto.
Qed.

Lemma on_members_looked {A} env (m : prog Slru SlruError A) s h s' r : mx_ok env s h ->
  (forall st' x, m (mx_members s) = (st', x) ->
     keeps (MultiXactMemberCtl env) (mx_members s) st' /\ match x with inl e => faulty (MultiXactMemberCtl env) e | inr _ => True end) ->
  on_members m s = (s', r) -> mx_looked env s s' /\ match r with inl e => io_fault env e | inr _ => True end.
Proof.
  intros Hok Hm. unfold on_members. destruct (m (mx_members s)) as [st1 x] eqn:E. destruct (Hm _ _ eq_refl) as [Hk R].
  destruct x as [e|a]; intros [= <- <-]; (split; [split_and!; [done|done|apply keeps_refl, Hok|done]|]); [|done]. exists e. auto.
Qed.

Lemma write_all_looked ctl st st' r : slru_wf ctl st -> SimpleLruWriteAll ctl st = (st', r) ->
  keeps ctl st st' /\ match r with inl e => faulty ctl e | inr _ => True end.
Proof.
  intros Hok E. apply SimpleLruWriteAll_spec in E as [Hk R]; [|apply Hok]. split; [done|]. destruct r as [e|]; [|done].
  destruct R as (c & q & -> & Hw). exists c, q. auto.
Qed.

Lemma exists_looked ctl p st st' r : slru_wf ctl st -> SimpleLruDoesPhysicalPageExist ctl p st = (st', r) ->
  keeps ctl st st' /\ match r with inl e => faulty ctl e | inr _ => True end.
Proof.
  intros Hok. unfold SimpleLruDoesPhysicalPageExist. destruct (read_fault ctl p) as [c|] eqn:Ef; [destruct c|];
    repeat case_match; intros [= <- <-]; (split; [apply keeps_refl, Hok|]); try done; eexists _, _; (split; [done|]); by right.
Qed.

Lemma find_start_spec env s h i e s' r : mx_ok env s h -> h_entries h !! i = Some e -> is_Some (e_members e) ->
  find_multixact_start env (multi_of (h_base h + Z.of_nat i)) s = (s', r) ->
  mx_looked env s s' /\ match r with inl err => io_fault env err | inr None => True | inr (Some o) => o = u32 (e_first e) end.
Proof.
  intros Hok Hi [ms Hms]. unfold find_multixact_start. cbn zeta. unfold pbind at 1. destruct (on_offsets _ s) as [s1 r1] eqn:E1.
  eapply on_offsets_looked in E1 as [L1 R1]; [|done|intros st' x; apply write_all_looked, Hok]. destruct r1 as [err|[]]; [by intros [= <- <-]|].
  pose proof (mx_looked_ok _ _ _ _ L1 Hok) as Hok1. unfold pbind at 1. destruct (on_members _ s1) as [s2 r2] eqn:E2.
  eapply on_members_looked in E2 as [L2 R2]; [|done|intros st' x; apply write_all_looked, Hok1].
  pose proof (mx_looked_trans _ _ _ _ L1 L2) as L12. destruct r2 as [err|[]]; [by intros [= <- <-]|].
  pose proof (mx_looked_ok _ _ _ _ L2 Hok1) as Hok2. unfold pbind at 1. destruct (on_offsets _ s2) as [s3 r3] eqn:E3.
  eapply on_offsets_looked in E3 as [L3 R3]; [|done|intros st' x; apply exists_looked, Hok2].
  pose proof (mx_looked_trans _ _ _ _ L12 L3) as L13. destruct r3 as [err|there]; [by intros [= <- <-]|].
  destruct (negb there); [by intros [= <- <-]|]. pose proof (mx_looked_ok _ _ _ _ L3 Hok2) as Hok3.
  pose proof (st_entries _ _ _ (mo_stored _ _ _ Hok3) i e Hi) as He. pose proof (offset_page_nonneg (h_base h + Z.of_nat i)) as H0.
  unfold pbind at 1. destruct (on_offsets _ s3) as [s4 r4] eqn:E4. eapply on_offsets_looked in E4 as [L4 R4]; [|done|].
  2: { intros st' x Ex. apply look_page_spec in Ex as [Hk Rx]; [|apply Hok3|done|apply He]. split; [done|]. by destruct x. }
  pose proof (mx_looked_trans _ _ _ _ L13 L4) as L14. destruct r4 as [err|o]; intros [= <- <-]; (split; [done|]); [done|].
  destruct (look_page _ _ _ _) as [st5 x] eqn:Ex. cbn in R4. subst x. apply look_page_spec in Ex as [_ ->]; [|apply Hok3|done|apply He].
  pose proof (eo_offset _ _ _ _ He) as Ho. by rewrite Hms in Ho.
Qed.

(** Number [k] has its members stored, or is the next one to be created. *)
Definition settled (s : MX) (h : History) (k : nat) : Prop :=
  match h_entries h !! k with
  | Some e => is_Some (e_members e)
  | None => k = length (h_entries h) /\ nextMXact (MultiXactState s) = multi_of (h_next h)
  end.

Lemma start_spec env s h k s' r : mx_ok env s h -> settled s h k ->
  (if multi_of (h_base h + Z.of_nat k) =? nextMXact (MultiXactState s) then pret (Some (nextOffset (MultiXactState s)))
   else find_multixact_start env (multi_of (h_base h + Z.of_nat k))) s = (s', r) ->
  mx_looked env s s' /\ match r with inl err => io_fault env err | inr None => True | inr (Some o) => o = u32 (first_at h k) end.
Proof.
  intros Hok. unfold settled, first_at. destruct (h_entries h !! k) as [e|] eqn:Hk.
  - intros He. destruct (entry_behind _ _ _ _ _ (mo_stored _ _ _ Hok) Hk) as (d & Hd & Ek).
    assert (multi_of (h_base h + Z.of_nat k) <> nextMXact (MultiXactState s)) as Hne.
    { pose proof (mo_next _ _ _ Hok) as Hn. rewrite Ek. unfold counts, multi_of in *. lia. }
    rewrite (proj2 (Z.eqb_neq _ _)) by done. by apply find_start_spec.
  - intros [-> Hn]. rewrite Hn. unfold h_next, zlength. rewrite Z.eqb_refl. intros [= <- <-].
    split; [by eapply mx_looked_refl|]. exact (mo_next_offset _ _ _ Hok).
Qed.

(** ** Truncation *)

(** Everything from the new oldest multixact on survives the removal of
    segments from both areas. *)
Lemma members_kept env s h k s' r : mx_ok env s h -> (k <= length (h_entries h))%nat ->
  PerformMembersTruncation env (u32 (first_at h 0)) (u32 (first_at h k)) s = (s', r) ->
  s' = mx_set_members s (mx_members s') /\ slru_wf (MultiXactMemberCtl env) (mx_members s') /\
  kept_members (start_at h k) (h_end h) (mx_members s) (mx_members s') /\ match r with inl e => io_fault env e | inr _ => True end.
Proof.
  intros Hok Hk E. destruct (mo_stop _ _ _ Hok) as (stop & [Hs1 Hs2] & _). pose proof (st_chain _ _ _ (mo_stored _ _ _ Hok)) as Hc.
  destruct (start_bounds h 0 Hc) as [Hb0 _]. destruct (first_bounds h 0) as [Hf0 _]. destruct (first_bounds h k) as [Hfk Hz].
  pose proof (segment_start_mono (h_offset h) (first_at h 0) ltac:(lia)) as Hseg.
  assert (0 <= MULTIXACT_MEMBERS_PER_SEGMENT) as Hpos by (unfold MULTIXACT_MEMBERS_PER_SEGMENT; done).
  apply members_truncation_spec in E as (E1 & Hwf & Hpages & R); [|apply Hok|by apply first_mono].
  split; [done|]. split; [done|]. split; [|done]. intros P HP p. destruct (Z.le_gt_cases (first_at h k) P) as [Hle|Hlt].
  - apply Hpages. lia.
  - assert (P = start_at h k /\ u32 (start_at h k) = 0 /\ first_at h k = start_at h k + 1) as (-> & Hz0 & Ef) by lia.
    assert (p = MXOffsetToMemberPage (u32 (first_at h k))) as ->.
    { unfold p. rewrite Ef, Hz0. replace (u32 (start_at h k + 1)) with 1 by cint. reflexivity. }
    apply Hpages. split; [lia|].
    destruct Hz as [?|[_ [e He]]]; [lia|]. destruct (chain_bounds _ _ _ _ Hc He) as [_ Hend]. fold (h_end h) in Hend.
    pose proof (e_bounds e). unfold first_at in *. rewrite He in *. lia.
Qed.

Lemma perform_truncation_spec env s h k record limits s' r : mx_ok env s h ->
  (forall p q, PagePrecedes (MultiXactOffsetCtl env) p q = MultiXactOffsetPagePrecedes p q) -> (k <= length (h_entries h))%nat ->
  (forall m, nextMXact (limits m) = nextMXact m /\ nextOffset (limits m) = nextOffset m /\
    oldestOffsetKnown (limits m) = oldestOffsetKnown m /\ offsetStopLimit (limits m) = offsetStopLimit m) ->
  (pmod (mx_log record) ;;; upd_state limits ;;;
   PerformMembersTruncation env (u32 (first_at h 0)) (u32 (first_at h k)) ;;;
   PerformOffsetsTruncation env (multi_of (h_base h + Z.of_nat k)))%prog s = (s', r) ->
  mx_ok env s' (trunc h k) /\ MultiXactState s' = limits (MultiXactState s) /\ match r with inl e => io_fault env e | inr _ => True end.
Proof.
  intros Hok Hctl Hk Hlim. unfold pbind, upd_state, pmod. set (s1 := mx_log record s). set (s2 := mx_set_state s1 _).
  destruct (Hlim (MultiXactState s)) as (L1 & L2 & L3 & L4).
  assert (mx_ok env s2 h) as Hok2 by (destruct Hok; split; cbn; rewrite ?L1, ?L2, ?L3, ?L4; assumption).
  destruct (PerformMembersTruncation _ _ _ _) as [s3 r3] eqn:E3.
  apply (members_kept env s2 h k) in E3 as (E3 & Wm & Km & R3); [|done..].
  assert (kept_offsets (h_base h + Z.of_nat k) (mx_offsets s) (mx_offsets s)) as Kid by (intros d Hd; by left).
  destruct r3 as [e|[]].
  - intros [= <- <-]. split; [|split; [by rewrite E3|done]].
    eapply (mx_ok_trunc env s (mx_offsets s) (mx_members s3)); [done|done|apply Hok|exact Wm|exact Kid|exact Km|exact L1|exact L2|exact L3|exact L4|..|done];
      by rewrite E3.
  - intros E4. assert (mx_offsets s3 = mx_offsets s) as Eo by (by rewrite E3).
    apply offsets_truncation_spec in E4 as (E4 & Wo & Ko & R4); [|rewrite Eo; apply Hok|done]. rewrite Eo in Ko.
    split; [|split; [by rewrite E4, E3|done]].
    eapply (mx_ok_trunc env s (mx_offsets s') (mx_members s3)); [done|done|exact Wo|exact Wm|exact Ko|exact Km|exact L1|exact L2|exact L3|exact L4|..];
      rewrite E4; [by rewrite E3|done|done].
Qed.

(** C23. Truncating the store up to a multixact whose members are stored, or up
    to the next one to be created, removes only what is before it: the store
    then holds the history without those multixacts, with the ids, the offsets
    and the members of the others unchanged, also when segment numbers have gone
    round or when a system call fails half way.  If the oldest multixact or the
    new oldest one is not found, nothing is removed. *)
Theorem multixact_truncate env s h k newOldestMultiDB s' r : mx_ok env s h ->
  (forall p q, PagePrecedes (MultiXactOffsetCtl env) p q = MultiXactOffsetPagePrecedes p q) ->
  oldestMultiXactId (MultiXactState s) = multi_of (h_base h) -> (k <= length (h_entries h))%nat -> settled s h 0 -> settled s h k ->
  TruncateMultiXact env (multi_of (h_base h + Z.of_nat k)) newOldestMultiDB s = (s', r) ->
  (mx_ok env s' h /\ oldestMultiXactId (MultiXactState s') = oldestMultiXactId (MultiXactState s) \/
   mx_ok env s' (trunc h k) /\ oldestMultiXactId (MultiXactState s') = multi_of (h_base (trunc h k))) /\
  match r with inl e => io_fault env e | inr _ => True end.
Proof.
  intros Hok Hctl Hold Hk H0 Hsk. unfold TruncateMultiXact. unfold pbind at 1, pget at 1. cbn zeta. rewrite Hold.
  destruct (MultiXactIdPrecedesOrEquals _ _); [intros [= <- <-]; auto|]. unfold pbind at 1, pget at 1.
  destruct (MultiXactIdPrecedes _ _); [intros [= <- <-]; auto|]. unfold pbind at 1.
  run_if s s1 r1 E1. replace (multi_of (h_base h)) with (multi_of (h_base h + Z.of_nat 0)) in E1 by (f_equal; lia).
  apply start_spec in E1 as [L1 R1]; [|done..]. pose proof (mx_looked_ok _ _ _ _ L1 Hok) as Hok1. pose proof (proj1 L1) as S1.
  destruct r1 as [err|[o1|]]; [intros [= <- <-]; rewrite S1, Hold; auto| |intros [= <- <-]; rewrite S1, Hold; auto]. subst o1.
  assert (settled s1 h k) as Hsk1 by (unfold settled in *; by rewrite S1). unfold pbind at 1. rewrite <- S1.
  run_if s1 s2 r2 E2. apply start_spec in E2 as [L2 R2]; [|done..]. pose proof (mx_looked_ok _ _ _ _ L2 Hok1) as Hok2. pose proof (proj1 L2) as S2.
  destruct r2 as [err|[o2|]]; [intros [= <- <-]; rewrite S2, S1, Hold; auto| |intros [= <- <-]; rewrite S2, S1, Hold; auto]. subst o2.
  intros E. apply (perform_truncation_spec env s2 h k) in E as (Hok3 & S3 & R3); [|done..]. rewrite S3. auto.
Qed.

(** The only multixact of the store is dropped. *)
Lemma multixact_truncate_witness : exists h,
  let '(s', r) := TruncateMultiXact quiet 2 7 demo_created in
  (mx_ok quiet s' h /\ oldestMultiXactId (MultiXactState s') = oldestMultiXactId (MultiXactState demo_created) \/
   mx_ok quiet s' (trunc h 1) /\ oldestMultiXactId (MultiXactState s') = multi_of (h_base (trunc h 1))) /\
  match r with inl e => io_fault quiet e | inr _ => True end.
Proof.
  destruct demo_created_ok as (h & e & ms & Hok & Hb & He & Hms). exists h.
  assert (multi_of (h_base h + Z.of_nat 1) = 2) as E2 by (by rewrite Hb).
  destruct (TruncateMultiXact quiet 2 7 demo_created) as [s' r] eqn:E. rewrite <- E2 in E.
  apply (multixact_truncate quiet demo_created h 1 7 s' r Hok); [reflexivity| | | | |exact E].
  - rewrite Hb. vm_compute. reflexivity.
  - rewrite He. cbn. lia.
  - unfold settled. rewrite He. cbn. by rewrite Hms.
  - unfold settled, h_next. rewrite He, Hb. cbn. split; [done|]. vm_compute. reflexivity.
Defined.

(** The condition on the new oldest multixact is needed, since truncation and
    creation do not exclude one another.  Here the members are in the last
    segment; id 2 has been handed out with its place in that segment, but its
    members are not stored yet when the store is truncated up to it.  The offset
    read for it is 0, which stands for segment 0: the segment that it is about to
    use is removed, and storing the members, which worked before, fails. *)
Definition demo_last_segment : MX :=
  ((upd_state set_started ;;; MultiXactSetNextMXact quiet false 1 4294958080 ;;; SetMultiXactIdLimit quiet 400000000 1 1)%prog
     (MultiXactShmemInit 4 16 16 ∅ ∅ 0)).1.
Definition demo_unstored : MX * (MultiXactError + Z * Z) :=
  GetNewMultiXactId quiet 2 (MultiXactIdCreateFromMembers quiet demo_members demo_last_segment).1.

Lemma truncation_to_unstored_loses :
  demo_unstored.2 = inr (2, 4294958082) /\
  (RecordNewMultiXact quiet 2 4294958082 demo_members demo_unstored.1).2 = inr tt /\
  let '(s', r) := TruncateMultiXact quiet 2 7 demo_unstored.1 in
  r = inr tt /\ last (mx_xlog s') = Some (XLOG_MULTIXACT_TRUNCATE_ID 7 1 2 4294958080 0) /\
  (RecordNewMultiXact quiet 2 4294958082 demo_members s').2 =
    inl (MultiXactIO (SlruIOError SLRU_OPEN_FAILED (MXOffsetToMemberPage 4294958082))).
Proof. vm_compute. repeat split. Qed.

(** ** The limit for members *)

(** Looking up the oldest multixact and setting the limit for members from
    it keeps the store well formed: the limit is a segment short of the segment
    in which the oldest members are, one turn later; it never moves back. *)
Theorem offset_limit_kept env s h s' r : mx_ok env s h -> oldestMultiXactId (MultiXactState s) = multi_of (h_base h) -> settled s h 0 ->
  SetOffsetVacuumLimit env s = (s', r) ->
  mx_ok env s' h /\
  match r with
  | inl e => io_fault env e
  | inr _ => offsetStopLimit (MultiXactState s') = offsetStopLimit (MultiXactState s) \/
      offsetStopLimit (MultiXactState s') = u32 (segment_start (h_offset h) - MULTIXACT_MEMBERS_PER_SEGMENT)
  end.
Proof.
  intros Hok Hold H0. unfold SetOffsetVacuumLimit. unfold pbind at 1, pget at 1. rewrite Hold. unfold pbind at 1.
  run_if s s1 r1 E1. replace (multi_of (h_base h)) with (multi_of (h_base h + Z.of_nat 0)) in E1 by (f_equal; lia).
  apply start_spec in E1 as [L1 R1]; [|done..]. pose proof (mx_looked_ok _ _ _ _ L1 Hok) as Hok1. pose proof (proj1 L1) as S1.
  destruct (mo_stop _ _ _ Hok1) as (stop & [Hs1 Hs2] & Es). pose proof (mo_known _ _ _ Hok) as Hkn.
  destruct r1 as [err|[o|]]; [by intros [= <- <-]| |].
  - subst o. cbn zeta. unfold pbind, upd_state, pmod, pret. fold MULTIXACT_MEMBERS_PER_SEGMENT.
    set (o := u32 (first_at h 0)). set (lim := u32 (u32 (o - o mod MULTIXACT_MEMBERS_PER_SEGMENT) - MULTIXACT_MEMBERS_PER_SEGMENT)).
    assert (lim = u32 (segment_start (h_offset h) - MULTIXACT_MEMBERS_PER_SEGMENT)) as El.
    { destruct (first_bounds h 0) as [Hf Hz]. rewrite (start_first h) in Hf, Hz by apply Hok. unfold lim, o. clearbody o lim.
      revert Hf Hz. generalize (first_at h 0). intros P Hf [->|[Hz _]]; seg_lia. }
    intros [= <- <-]. split; [|by right]. destruct Hok1. split; cbn; try assumption; [done|].
    exists (segment_start (h_offset h) - MULTIXACT_MEMBERS_PER_SEGMENT + 0x100000000). split; [split; lia|]. rewrite El. cint.
  - rewrite Hkn. cbn zeta. unfold pbind, upd_state, pmod, pret. intros [= <- <-]. cbn. split; [|by left].
    destruct Hok1. split; cbn; try assumption; [done|]. exists stop. by rewrite <- S1.
Qed.

Lemma offset_limit_kept_witness :
  let '(s', r) := SetOffsetVacuumLimit quiet demo_mx in
  mx_ok quiet s' demo_history /\
  match r with
  | inl e => io_fault quiet e
  | inr _ => offsetStopLimit (MultiXactState s') = offsetStopLimit (MultiXactState demo_mx) \/
      offsetStopLimit (MultiXactState s') = u32 (segment_start (h_offset demo_history) - MULTIXACT_MEMBERS_PER_SEGMENT)
  end.
Proof.
  destruct (SetOffsetVacuumLimit quiet demo_mx) as [s' r] eqn:E.
  apply (offset_limit_kept quiet demo_mx demo_history s' r); [apply demo_mx_good|vm_compute; reflexivity|split; vm_compute; reflexivity|exact E].
Defined.
