(* ===== verification/VisibilitySpec.v ===== *)
(** * Tuple visibility: what the routines rely on and what they mean

    The laws of the shared components during one call, the meaning of a tuple
    header as an insertion and a deletion, the truthfulness of hint bits, and
    the rules for reasoning about a routine step by step. *)

From S2P Require Import Prelude.
From S2P Require Import Search.
From S2P Require Import TransactionId.
From S2P Require Import HeapTuple.
From S2P Require Import ComboCid.
From S2P Require Import Snapshot.
From S2P Require Import Visibility.

(** ** The laws

    [assigned] holds of the ids that had been handed out before the call began
    (and of the invalid id), [record_lsn] is where a transaction's commit
    record ends in WAL and [flushed] how far WAL has been flushed.  The laws hold while one call
    runs; the moments after its end do not matter. *)
Class WorldLaws (W : World) (be : Asker) := {
  multi_members : Z -> list MultiXactMember;
  record_lsn : Z -> Z;
  flushed : nat -> Z;
  assigned : Z -> Prop;
  (* a finished transaction stays finished and its fate is decided *)
  finished_law n m x : assigned x -> (n <= m)%nat -> TransactionIdIsInProgress_at n x = false ->
    TransactionIdIsInProgress_at m x = false;
  fate_law n m x : assigned x -> (n <= m)%nat -> TransactionIdIsInProgress_at n x = false ->
    TransactionIdDidCommit_at m x = TransactionIdDidCommit_at n x;
  law_assigned_invalid : assigned InvalidTransactionId;
  (* this backend's own transactions run *)
  law_current n x : TransactionIdIsCurrentTransactionId be x = true ->
    TransactionIdIsInProgress_at n x = true /\ TransactionIdDidCommit_at n x = false;
  law_invalid n : TransactionIdIsInProgress_at n InvalidTransactionId = false /\
    TransactionIdDidCommit_at n InvalidTransactionId = false;
  (* the members of a multixact never change; an old one that only locks may
     be reported as empty *)
  law_members n multi : GetMultiXactIdMembers_at n multi false = multi_members multi;
  law_no_members : multi_members InvalidTransactionId = [];
  law_lock_members n multi : GetMultiXactIdMembers_at n multi true = multi_members multi \/
    (GetMultiXactIdMembers_at n multi true = [] /\
     forall m, m ∈ multi_members multi -> TransactionIdIsInProgress_at n (mem_xid m) = false);
  (* WAL *)
  law_flushed n m : (n <= m)%nat -> flushed n <= flushed m;
  law_needs_flush n lsn : XLogNeedsFlush_at n lsn = false -> lsn <= flushed n;
  law_commit_lsn n x : TransactionIdDidCommit_at n x = true ->
    record_lsn x <= TransactionIdGetCommitLSN_at n x \/ record_lsn x <= flushed n;
  law_page_lsn n m : (n <= m)%nat -> BufferGetLSNAtomic_at n <= BufferGetLSNAtomic_at m;
}.

(** That an id is assigned is found by instance search, in the context of a
    well-formed tuple. *)
Existing Class assigned.
#[export] Existing Instance law_assigned_invalid.
#[export] Hint Mode assigned - - - + : typeclass_instances.

Section meaning.
Context {W : World} {be : Asker} {L : WorldLaws W be}.

Lemma law_finished n m x `{Ha : !assigned x} : (n <= m)%nat -> TransactionIdIsInProgress_at n x = false ->
  TransactionIdIsInProgress_at m x = false.
Proof. by apply finished_law. Qed.

Lemma law_fate n m x `{Ha : !assigned x} : (n <= m)%nat -> TransactionIdIsInProgress_at n x = false ->
  TransactionIdDidCommit_at m x = TransactionIdDidCommit_at n x.
Proof. by apply fate_law. Qed.

Abbreviation IsCurrent := (TransactionIdIsCurrentTransactionId be).
Abbreviation IsInProgress := TransactionIdIsInProgress_at.
Abbreviation DidCommit := TransactionIdDidCommit_at.

Lemma finished_not_current n x : IsInProgress n x = false -> IsCurrent x = false.
Proof. intros H. destruct (IsCurrent x) eqn:E; [|done]. destruct (law_current n x E). congruence. Qed.

Lemma committed_not_current n x : DidCommit n x = true -> IsCurrent x = false.
Proof. intros H. destruct (IsCurrent x) eqn:E; [|done]. destruct (law_current n x E). congruence. Qed.

(** Committed in the log and out of the array. *)
Definition committed (n : nat) (x : Z) : bool := negb (IsInProgress n x) && DidCommit n x.

Lemma committed_later n m x `{Ha : !assigned x} : (n <= m)%nat -> committed n x = true -> committed m x = true.
Proof.
  unfold committed. intros Hle [H1%negb_true_iff H2]%andb_true_iff.
  rewrite (law_finished n m x Hle H1), (law_fate n m x Hle H1), H2. done.
Qed.

(** The commit record of [x] reaches disk before the page does. *)
Definition durable (n : nat) (x : Z) : Prop :=
  BufferIsPermanent = true -> record_lsn x <= flushed n \/ record_lsn x <= BufferGetLSNAtomic_at n.

Lemma durable_later n m x : (n <= m)%nat -> durable n x -> durable m x.
Proof.
  intros Hle H Hp. pose proof (law_flushed n m Hle). pose proof (law_page_lsn n m Hle). destruct (H Hp); [left|right]; lia.
Qed.

(** ** The meaning of a header *)

Definition is_multi (t : HeapTupleHeaderData) : bool := flag_set (t_infomask t) HEAP_XMAX_IS_MULTI.
Definition locked_only (t : HeapTupleHeaderData) : bool := HEAP_XMAX_IS_LOCKED_ONLY (t_infomask t).
Definition upgraded (t : HeapTupleHeaderData) : bool := HEAP_LOCKED_UPGRADED (t_infomask t).
Definition moved_off (t : HeapTupleHeaderData) : bool := flag_set (t_infomask t) HEAP_MOVED_OFF.
Definition moved_in (t : HeapTupleHeaderData) : bool := flag_set (t_infomask t) HEAP_MOVED_IN.
Definition moved (t : HeapTupleHeaderData) : bool := moved_off t || moved_in t.
Definition frozen (t : HeapTupleHeaderData) : bool := HeapTupleHeaderXminFrozen t.

(** The transaction that updated or deleted the row, if any. *)
Definition updater (t : HeapTupleHeaderData) : Z :=
  if locked_only t then InvalidTransactionId
  else if is_multi t then update_member (multi_members (t_xmax t)) else t_xmax t.

(** Everyone with a claim on xmax. *)
Definition holders (t : HeapTupleHeaderData) : list Z :=
  if is_multi t then (if upgraded t then [] else mem_xid <$> multi_members (t_xmax t)) else [t_xmax t].

(** Inserted by the transaction that asks. *)
Definition own (t : HeapTupleHeaderData) : bool := negb (frozen t) && negb (moved t) && IsCurrent (t_xmin t).

(** The insertion has taken effect. *)
Definition inserted (n : nat) (t : HeapTupleHeaderData) : bool :=
  if frozen t then true
  else if moved_off t then negb (DidCommit n (HeapTupleHeaderGetXvac t))
  else if moved_in t then DidCommit n (HeapTupleHeaderGetXvac t)
  else committed n (t_xmin t).

(** Hint bits tell the truth; the other clauses are rules of the system: only
    the inserter deletes a row whose insertion has not committed, share locks
    from old versions are not on rows that we inserted, old VACUUM FULL is
    over, and the ids that matter were handed out before they were stored. *)
Record tuple_ok (n : nat) (t : HeapTupleHeaderData) : Prop := {
  ok_committed : HeapTupleHeaderXminCommitted t = true ->
    inserted n t = true /\ own t = false /\ (frozen t = false -> moved t = false -> durable n (t_xmin t));
  ok_invalid : HeapTupleHeaderXminInvalid t = true ->
    own t = false /\ inserted n t = false /\ (moved t = false -> IsInProgress n (t_xmin t) = false);
  ok_xmax_invalid : flag_set (t_infomask t) HEAP_XMAX_INVALID = true ->
    (forall h, h ∈ holders t -> IsInProgress n h = false) /\ DidCommit n (updater t) = false;
  ok_xmax_committed : flag_set (t_infomask t) HEAP_XMAX_COMMITTED = true ->
    (forall h, h ∈ holders t -> IsInProgress n h = false) /\
    (locked_only t = false -> is_multi t = false /\ DidCommit n (t_xmax t) = true /\ durable n (t_xmax t));
  ok_own : own t = true -> IsCurrent (updater t) = true \/ committed n (updater t) = false /\ IsInProgress n (updater t) = false;
  ok_upgraded : upgraded t = true -> own t = false;
  ok_moved : moved t = true -> IsCurrent (HeapTupleHeaderGetXvac t) = false /\ IsInProgress n (HeapTupleHeaderGetXvac t) = false;
  ok_assigned_xmin : frozen t = false -> moved t = false -> assigned (t_xmin t);
  ok_assigned_xvac : moved t = true -> assigned (HeapTupleHeaderGetXvac t);
  ok_assigned_holder : forall h, h ∈ holders t -> assigned h;
}.

(** The updater is one of the holders. *)
Lemma update_member_in l : update_member l = InvalidTransactionId \/ update_member l ∈ mem_xid <$> l.
Proof.
  induction l as [|m l IH]; [by left|]. simpl. destruct (ISUPDATE_from_mxstatus _); simpl; [right; by left|].
  destruct IH; [by left|right; by right].
Qed.

Lemma upgraded_locked t : upgraded t = true -> locked_only t = true.
Proof.
  unfold upgraded, locked_only, HEAP_LOCKED_UPGRADED, HEAP_XMAX_IS_LOCKED_ONLY. intros [[_ ->]%andb_true_iff _]%andb_true_iff. done.
Qed.

Lemma not_locked_not_upgraded t : locked_only t = false -> upgraded t = false.
Proof. intros Hl. destruct (upgraded t) eqn:E; [|done]. apply upgraded_locked in E. congruence. Qed.

Lemma updater_holder t : updater t = InvalidTransactionId \/ updater t ∈ holders t.
Proof.
  unfold updater, holders. destruct (locked_only t) eqn:El; [by left|].
  destruct (is_multi t); [|right; by left].
  destruct (upgraded t) eqn:Eu; [by apply upgraded_locked in Eu; congruence|]. apply update_member_in.
Qed.

Lemma holders_done n t : (forall h, h ∈ holders t -> IsInProgress n h = false) -> IsInProgress n (updater t) = false.
Proof. intros H. destruct (updater_holder t) as [->|Hu]; [apply law_invalid|by apply H]. Qed.

(** ** The ids of a tuple are assigned *)

Lemma assigned_updater n t : tuple_ok n t -> assigned (updater t).
Proof. intros Hok. destruct (updater_holder t) as [->|Hu]; [apply law_assigned_invalid|by apply (ok_assigned_holder _ _ Hok)]. Qed.

Lemma assigned_xmax n t : tuple_ok n t -> is_multi t = false -> assigned (t_xmax t).
Proof. intros Hok Hm. apply (ok_assigned_holder _ _ Hok). unfold holders. rewrite Hm. by left. Qed.

Lemma assigned_member n t m : tuple_ok n t -> is_multi t = true -> upgraded t = false -> m ∈ multi_members (t_xmax t) ->
  assigned (mem_xid m).
Proof. intros Hok Hm Hu Hin. apply (ok_assigned_holder _ _ Hok). unfold holders. rewrite Hm, Hu. apply list_elem_of_fmap. eauto. Qed.

Lemma assigned_update_member n t : tuple_ok n t -> locked_only t = false -> is_multi t = true ->
  assigned (update_member (multi_members (t_xmax t))).
Proof. intros Hok Hl Hm. pose proof (assigned_updater n t Hok) as H. unfold updater in H. by rewrite Hl, Hm in H. Qed.

(** ** Time passes *)

Lemma inserted_later n m t : (n <= m)%nat ->
  (frozen t = false -> moved t = false -> assigned (t_xmin t)) -> (moved t = true -> assigned (HeapTupleHeaderGetXvac t)) ->
  (moved t = true -> IsInProgress n (HeapTupleHeaderGetXvac t) = false) ->
  inserted n t = true -> inserted m t = true.
Proof.
  intros Hle A1 A2 Hm. unfold inserted, moved in *. destruct (frozen t); [done|].
  destruct (moved_off t); [by rewrite (fate_law n m _ (A2 eq_refl) Hle (Hm eq_refl))|].
  destruct (moved_in t); [by rewrite (fate_law n m _ (A2 eq_refl) Hle (Hm eq_refl))|]. specialize (A1 eq_refl eq_refl). by apply committed_later.
Qed.

Lemma uninserted_later n m t : (n <= m)%nat ->
  (frozen t = false -> moved t = false -> assigned (t_xmin t)) -> (moved t = true -> assigned (HeapTupleHeaderGetXvac t)) ->
  (moved t = true -> IsInProgress n (HeapTupleHeaderGetXvac t) = false) ->
  (moved t = false -> IsInProgress n (t_xmin t) = false) ->
  inserted n t = false -> inserted m t = false.
Proof.
  intros Hle A1 A2 Hm Hx. unfold inserted, moved in *. destruct (frozen t); [done|].
  destruct (moved_off t); [by rewrite (fate_law n m _ (A2 eq_refl) Hle (Hm eq_refl))|].
  destruct (moved_in t); [by rewrite (fate_law n m _ (A2 eq_refl) Hle (Hm eq_refl))|]. specialize (A1 eq_refl eq_refl). unfold committed.
  rewrite (law_finished n m _ Hle (Hx eq_refl)), (law_fate n m _ Hle (Hx eq_refl)), (Hx eq_refl). done.
Qed.

Lemma tuple_ok_later n m t : (n <= m)%nat -> tuple_ok n t -> tuple_ok m t.
Proof.
  intros Hle Hok. pose proof (assigned_updater n t Hok) as Hau. destruct Hok as [H1 H2 H3 H4 H5 H6 H7 A1 A2 A3].
  assert (forall x, assigned x -> IsInProgress n x = false -> IsInProgress m x = false) as Hf by (intros; by eapply law_finished).
  split; try done.
  - intros Hc. destruct (H1 Hc) as (Hi & Ho & Hd). split_and!; [|done|intros; by eapply durable_later; [|apply Hd]].
    eapply inserted_later; [done..| |done]. intros; by apply H7.
  - intros Hc. destruct (H2 Hc) as (Ho & Hi & Hx). split_and!; [done| |].
    + eapply uninserted_later; [done..| |done|done]. intros; by apply H7.
    + intros Hm. apply Hf; [|auto]. apply A1; [|done]. unfold inserted in Hi. by destruct (frozen t).
  - intros Hc. destruct (H3 Hc) as [Hh Hu]. split; [auto|]. rewrite (law_fate n m _ Hle); [done|by apply holders_done].
  - intros Hc. destruct (H4 Hc) as [Hh Hu]. split; [auto|]. intros Hl. destruct (Hu Hl) as (Hm & Hd & Hw).
    split_and!; [done| |by eapply durable_later].
    assert (t_xmax t ∈ holders t) as Hin by (unfold holders; rewrite Hm; by left).
    rewrite (fate_law n m _ (A3 _ Hin) Hle); auto.
  - intros Ho. destruct (H5 Ho) as [|[Hc Hu]]; [by left|right]. split; [|auto].
    unfold committed in *. by rewrite (law_fate n m _ Hle Hu), (Hf _ Hau Hu), Hu in *.
  - intros Hm. destruct (H7 Hm). auto.
Qed.

(** ** Adding hint bits *)

(** The same tuple up to hint bits; whether it is frozen does not change. *)
Record same_tuple (t t' : HeapTupleHeaderData) : Prop := {
  st_xmin : t_xmin t' = t_xmin t;
  st_xmax : t_xmax t' = t_xmax t;
  st_field3 : t_field3 t' = t_field3 t;
  st_ctid : t_ctid t' = t_ctid t;
  st_infomask2 : t_infomask2 t' = t_infomask2 t;
  st_flags : forall m, Z.land HINT_BITS m = 0 -> Z.land (t_infomask t') m = Z.land (t_infomask t) m;
  st_frozen : frozen t' = frozen t;
}.

#[export] Instance same_tuple_preorder : PreOrder same_tuple.
Proof.
  split; [by intros t; split|]. intros t1 t2 t3 [H1 H2 H3 H4 H5 H6 H7] [K1 K2 K3 K4 K5 K6 K7].
  split; try congruence. intros m Hm. rewrite K6, H6 by done. done.
Qed.

Section same.
Context (t t' : HeapTupleHeaderData) (Hs : same_tuple t t').

Lemma same_flag f : Z.land HINT_BITS f = 0 -> flag_set (t_infomask t') f = flag_set (t_infomask t) f.
Proof. intros H. unfold flag_set. by rewrite (st_flags _ _ Hs). Qed.

Lemma same_multi : is_multi t' = is_multi t.
Proof. by apply same_flag. Qed.
Lemma same_moved_off : moved_off t' = moved_off t.
Proof. by apply same_flag. Qed.
Lemma same_moved_in : moved_in t' = moved_in t.
Proof. by apply same_flag. Qed.
Lemma same_moved : moved t' = moved t.
Proof. unfold moved. by rewrite same_moved_off, same_moved_in. Qed.
Lemma same_locked : locked_only t' = locked_only t.
Proof. unfold locked_only, HEAP_XMAX_IS_LOCKED_ONLY. by rewrite same_flag, (st_flags _ _ Hs). Qed.
Lemma same_upgraded : upgraded t' = upgraded t.
Proof. unfold upgraded, HEAP_LOCKED_UPGRADED. by rewrite !same_flag, (st_flags _ _ Hs). Qed.
Lemma same_xvac : HeapTupleHeaderGetXvac t' = HeapTupleHeaderGetXvac t.
Proof. unfold HeapTupleHeaderGetXvac. by rewrite same_flag, (st_field3 _ _ Hs). Qed.
Lemma same_updater : updater t' = updater t.
Proof. unfold updater. by rewrite same_locked, same_multi, (st_xmax _ _ Hs). Qed.
Lemma same_holders : holders t' = holders t.
Proof. unfold holders. by rewrite same_upgraded, same_multi, (st_xmax _ _ Hs). Qed.
Lemma same_own : own t' = own t.
Proof. unfold own. by rewrite same_moved, (st_frozen _ _ Hs), (st_xmin _ _ Hs). Qed.
Lemma same_inserted n : inserted n t' = inserted n t.
Proof. unfold inserted. by rewrite (st_frozen _ _ Hs), same_moved_off, same_moved_in, same_xvac, (st_xmin _ _ Hs). Qed.
Lemma same_cmin c : HeapTupleHeaderGetCmin c t' = HeapTupleHeaderGetCmin c t.
Proof. unfold HeapTupleHeaderGetCmin, HeapTupleHeaderGetRawCommandId. by rewrite same_flag, (st_field3 _ _ Hs). Qed.
Lemma same_cmax c : HeapTupleHeaderGetCmax c t' = HeapTupleHeaderGetCmax c t.
Proof. unfold HeapTupleHeaderGetCmax, HeapTupleHeaderGetRawCommandId. by rewrite same_flag, (st_field3 _ _ Hs). Qed.
End same.

Lemma hint_flag f m g : f ∈ [HEAP_XMIN_COMMITTED; HEAP_XMIN_INVALID; HEAP_XMAX_COMMITTED; HEAP_XMAX_INVALID] ->
  Z.land HINT_BITS g = 0 -> Z.land (Z.lor m f) g = Z.land m g.
Proof. intros Hf Hg. apply land_lor_disjoint. by eapply hint_disjoint. Qed.

Lemma same_add t f : f ∈ [HEAP_XMIN_COMMITTED; HEAP_XMIN_INVALID; HEAP_XMAX_COMMITTED; HEAP_XMAX_INVALID] ->
  frozen (add_flags t f) = frozen t -> same_tuple t (add_flags t f).
Proof. intros Hf Hz. split; try done. intros m Hm. by apply hint_flag. Qed.

(** Neither xmin bit is set. *)
Definition xmin_open (t : HeapTupleHeaderData) : Prop :=
  HeapTupleHeaderXminCommitted t = false /\ HeapTupleHeaderXminInvalid t = false.

Lemma xmin_open_bits t : xmin_open t -> Z.land (t_infomask t) HEAP_XMIN_FROZEN = 0.
Proof.
  intros [H1 H2]. unfold HeapTupleHeaderXminCommitted, HeapTupleHeaderXminInvalid, flag_set in *.
  apply negb_false_iff, Z.eqb_eq in H1. apply Z.eqb_neq in H2.
  assert (forall b, Z.testbit (t_infomask t) 8 = false -> b = Z.testbit (t_infomask t) 9 ->
    Z.land (t_infomask t) HEAP_XMIN_FROZEN = if b then HEAP_XMIN_INVALID else 0) as Hbits.
  { intros b H8 H9. apply Z.bits_inj'. intros k Hk. rewrite Z.land_spec.
    destruct (decide (k = 8)) as [->|]; [rewrite H8; by destruct b|].
    destruct (decide (k = 9)) as [->|]; [rewrite <- H9; by destruct b|].
    assert (Z.testbit HEAP_XMIN_FROZEN k = false) as ->.
    { unfold HEAP_XMIN_FROZEN, HEAP_XMIN_COMMITTED, HEAP_XMIN_INVALID. change (Z.lor 256 512) with (Z.lor (2^8) (2^9)).
      rewrite Z.lor_spec, !Z.pow2_bits_false by lia. done. }
    rewrite andb_false_r. destruct b; [|by rewrite Z.bits_0]. change HEAP_XMIN_INVALID with (2^9). by rewrite Z.pow2_bits_false by lia. }
  assert (Z.testbit (t_infomask t) 8 = false) as H8.
  { apply (f_equal (fun z => Z.testbit z 8)) in H1. rewrite Z.land_spec in H1. change (Z.testbit HEAP_XMIN_COMMITTED 8) with true in H1.
    by rewrite andb_true_r in H1. }
  specialize (Hbits _ H8 eq_refl). destruct (Z.testbit (t_infomask t) 9); [|done]. exfalso. by apply H2.
Qed.

(** Each of the four hints may be added when what it says is true. *)

Lemma add_xmin_bits t f : xmin_open t -> f = HEAP_XMIN_COMMITTED \/ f = HEAP_XMIN_INVALID ->
  frozen (add_flags t f) = false /\ frozen t = false /\
  HeapTupleHeaderXminCommitted (add_flags t f) = (f =? HEAP_XMIN_COMMITTED) /\
  HeapTupleHeaderXminInvalid (add_flags t f) = (f =? HEAP_XMIN_INVALID).
Proof.
  intros Ho Hf. pose proof (xmin_open_bits t Ho) as Hz.
  assert (Z.land (t_infomask (add_flags t f)) HEAP_XMIN_FROZEN = f) as E.
  { unfold add_flags. cbn [t_infomask set_infomask]. rewrite Z.land_lor_distr_l, Hz. by destruct Hf as [->| ->]. }
  unfold frozen, HeapTupleHeaderXminFrozen, HeapTupleHeaderXminInvalid, HeapTupleHeaderXminCommitted, flag_set.
  change (Z.lor HEAP_XMIN_COMMITTED HEAP_XMIN_INVALID) with HEAP_XMIN_FROZEN. rewrite E, Hz.
  assert (Z.land (t_infomask (add_flags t f)) HEAP_XMIN_COMMITTED = Z.land f HEAP_XMIN_COMMITTED) as ->.
  { rewrite <- E at 2. by rewrite <- Z.land_assoc. }
  by destruct Hf as [->| ->].
Qed.

Lemma open_not_frozen t : xmin_open t -> frozen t = false.
Proof. intros H. by destruct (add_xmin_bits t HEAP_XMIN_COMMITTED H ltac:(by left)) as (_ & ? & _). Qed.

Lemma add_xmax_bits t f : f = HEAP_XMAX_COMMITTED \/ f = HEAP_XMAX_INVALID ->
  frozen (add_flags t f) = frozen t /\
  HeapTupleHeaderXminCommitted (add_flags t f) = HeapTupleHeaderXminCommitted t /\
  HeapTupleHeaderXminInvalid (add_flags t f) = HeapTupleHeaderXminInvalid t.
Proof.
  intros Hf. assert (forall m, Z.land f m = 0 -> Z.land (t_infomask (add_flags t f)) m = Z.land (t_infomask t) m) as H.
  { intros m. by apply land_add. }
  unfold frozen, HeapTupleHeaderXminFrozen, HeapTupleHeaderXminInvalid, HeapTupleHeaderXminCommitted, flag_set.
  by destruct Hf as [->| ->]; rewrite !H.
Qed.

Lemma add_other_flag t f g : Z.land f g = 0 -> flag_set (t_infomask (add_flags t f)) g = flag_set (t_infomask t) g.
Proof. apply flag_set_add. Qed.

(** The clauses of [tuple_ok] read the header only through these. *)
Lemma tuple_ok_same n t t' : same_tuple t t' -> tuple_ok n t ->
  (HeapTupleHeaderXminCommitted t' = true -> HeapTupleHeaderXminCommitted t = true \/
     inserted n t = true /\ own t = false /\ (frozen t = false -> moved t = false -> durable n (t_xmin t))) ->
  (HeapTupleHeaderXminInvalid t' = true -> HeapTupleHeaderXminInvalid t = true \/
     own t = false /\ inserted n t = false /\ (moved t = false -> IsInProgress n (t_xmin t) = false)) ->
  (flag_set (t_infomask t') HEAP_XMAX_INVALID = true -> flag_set (t_infomask t) HEAP_XMAX_INVALID = true \/
     (forall h, h ∈ holders t -> IsInProgress n h = false) /\ DidCommit n (updater t) = false) ->
  (flag_set (t_infomask t') HEAP_XMAX_COMMITTED = true -> flag_set (t_infomask t) HEAP_XMAX_COMMITTED = true \/
     (forall h, h ∈ holders t -> IsInProgress n h = false) /\
     (locked_only t = false -> is_multi t = false /\ DidCommit n (t_xmax t) = true /\ durable n (t_xmax t))) ->
  tuple_ok n t'.
Proof.
  intros Hs [H1 H2 H3 H4 H5 H6 H7 A1 A2 A3] K1 K2 K3 K4.
  split; rewrite ?(same_own t t' Hs), ?(same_inserted t t' Hs), ?(st_frozen _ _ Hs), ?(same_moved t t' Hs),
    ?(st_xmin _ _ Hs), ?(st_xmax _ _ Hs), ?(same_holders t t' Hs), ?(same_updater t t' Hs), ?(same_locked t t' Hs),
    ?(same_multi t t' Hs), ?(same_upgraded t t' Hs), ?(same_xvac t t' Hs); try done; intros H.
  - destruct (K1 H); auto.
  - destruct (K2 H); auto.
  - destruct (K3 H); auto.
  - destruct (K4 H); auto.
Qed.

Lemma add_xmin_committed n t : tuple_ok n t -> xmin_open t -> inserted n t = true -> own t = false ->
  (moved t = false -> durable n (t_xmin t)) ->
  tuple_ok n (add_flags t HEAP_XMIN_COMMITTED) /\ same_tuple t (add_flags t HEAP_XMIN_COMMITTED).
Proof.
  intros Hok Ho Hi Hw Hd. destruct (add_xmin_bits t HEAP_XMIN_COMMITTED Ho ltac:(by left)) as (F1 & F2 & F3 & F4).
  assert (same_tuple t (add_flags t HEAP_XMIN_COMMITTED)) as Hs by (apply same_add; [by left|congruence]).
  split; [|done]. apply (tuple_ok_same n t); try done.
  - intros _. right. auto.
  - by rewrite F4.
  - rewrite add_other_flag by done. by left.
  - rewrite add_other_flag by done. by left.
Qed.

Lemma add_xmin_invalid n t : tuple_ok n t -> xmin_open t -> inserted n t = false -> own t = false ->
  (moved t = false -> IsInProgress n (t_xmin t) = false) ->
  tuple_ok n (add_flags t HEAP_XMIN_INVALID) /\ same_tuple t (add_flags t HEAP_XMIN_INVALID).
Proof.
  intros Hok Ho Hi Hw Hd. destruct (add_xmin_bits t HEAP_XMIN_INVALID Ho ltac:(by right)) as (F1 & F2 & F3 & F4).
  assert (same_tuple t (add_flags t HEAP_XMIN_INVALID)) as Hs by (apply same_add; [by right; left|congruence]).
  split; [|done]. apply (tuple_ok_same n t); try done.
  - by rewrite F3.
  - intros _. right. auto.
  - rewrite add_other_flag by done. by left.
  - rewrite add_other_flag by done. by left.
Qed.

Lemma add_xmax_invalid n t : tuple_ok n t -> (forall h, h ∈ holders t -> IsInProgress n h = false) ->
  DidCommit n (updater t) = false ->
  tuple_ok n (add_flags t HEAP_XMAX_INVALID) /\ same_tuple t (add_flags t HEAP_XMAX_INVALID).
Proof.
  intros Hok Hh Hu. destruct (add_xmax_bits t HEAP_XMAX_INVALID ltac:(by right)) as (F1 & F2 & F3).
  assert (same_tuple t (add_flags t HEAP_XMAX_INVALID)) as Hs by (apply same_add; [by right; right; right; left|done]).
  split; [|done]. apply (tuple_ok_same n t); try done.
  - rewrite F2. by left.
  - rewrite F3. by left.
  - intros _. by right.
  - rewrite add_other_flag by done. by left.
Qed.

Lemma add_xmax_committed n t : tuple_ok n t -> is_multi t = false -> IsInProgress n (t_xmax t) = false ->
  DidCommit n (t_xmax t) = true -> durable n (t_xmax t) ->
  tuple_ok n (add_flags t HEAP_XMAX_COMMITTED) /\ same_tuple t (add_flags t HEAP_XMAX_COMMITTED).
Proof.
  intros Hok Hm Hx Hc Hd. destruct (add_xmax_bits t HEAP_XMAX_COMMITTED ltac:(by left)) as (F1 & F2 & F3).
  assert (same_tuple t (add_flags t HEAP_XMAX_COMMITTED)) as Hs by (apply same_add; [by right; right; left|done]).
  split; [|done]. apply (tuple_ok_same n t); try done.
  - rewrite F2. by left.
  - rewrite F3. by left.
  - rewrite add_other_flag by done. by left.
  - intros _. right. split; [|done]. unfold holders. rewrite Hm. by intros h ->%list_elem_of_singleton.
Qed.

(** ** Steps of a routine *)

Lemma wp_ask {R A} (f : nat -> A) (Q : R + A -> VisState -> Prop) t n d :
  Q (inr (f n)) (MkVis t (S n) d) -> wp (ask f) Q (MkVis t n d).
Proof. done. Qed.

(** An unconditional hint. *)
Lemma wp_hint_now {R} f (Q : R + unit -> VisState -> Prop) t n d :
  Q (inr tt) (MkVis (add_flags t f) n true) -> wp (SetHintBits f InvalidTransactionId) Q (MkVis t n d).
Proof. done. Qed.

(** A hint that must wait for WAL may or may not be set. *)
Lemma wp_hint {R} f x (Q : R + unit -> VisState -> Prop) t n d : DidCommit n x = true ->
  (forall n' d', (n <= n')%nat -> Q (inr tt) (MkVis t n' d')) ->
  (forall n', (n <= n')%nat -> durable n' x -> Q (inr tt) (MkVis (add_flags t f) n' true)) ->
  wp (SetHintBits f x) Q (MkVis t n d).
Proof.
  intros Hc Hno Hyes. pose proof (law_commit_lsn n x Hc) as Hl.
  pose proof (fun k Hk => law_flushed n k Hk) as Hfl. destruct (TransactionIdIsValid x) eqn:Ev.
  2:{ unfold TransactionIdIsValid in Ev. apply negb_false_iff, Z.eqb_eq in Ev. subst x. destruct (law_invalid n). congruence. }
  unfold wp, SetHintBits, hint_too_early, pbind, ask, pret, pwhen, pmod. rewrite Ev. cbn.
  destruct BufferIsPermanent eqn:Ep; cbn.
  2:{ apply Hyes; [lia|]. unfold durable. congruence. }
  destruct (XLogNeedsFlush_at (S n) _) eqn:En; cbn.
  - destruct (Z.ltb_spec (BufferGetLSNAtomic_at (S (S n))) (TransactionIdGetCommitLSN_at n x)); cbn; [apply Hno; lia|].
    apply Hyes; [lia|]. intros _. pose proof (law_page_lsn (S (S n)) (S (S (S n))) ltac:(lia)).
    specialize (Hfl (S (S (S n))) ltac:(lia)). destruct Hl; [right|left]; lia.
  - apply Hyes; [lia|]. intros _. pose proof (law_needs_flush (S n) _ En).
    pose proof (law_flushed (S n) (S (S n)) ltac:(lia)). specialize (Hfl (S (S n)) ltac:(lia)). left. destruct Hl; lia.
Qed.

(** The loop stops at the first member that runs. *)
Lemma wp_running_loop {R} (Q : R + bool -> VisState -> Prop) t d l : (forall m, m ∈ l -> assigned (mem_xid m)) -> forall n,
  (forall n' m, (n < n')%nat -> m ∈ l -> IsInProgress (pred n') (mem_xid m) = true -> Q (inr true) (MkVis t n' d)) ->
  (forall n', (n <= n')%nat -> (forall m, m ∈ l -> IsInProgress n' (mem_xid m) = false) -> Q (inr false) (MkVis t n' d)) ->
  wp (running_loop l) Q (MkVis t n d).
Proof.
  induction l as [|m l IH]; intros Ha n Ht Hf; cbn [running_loop].
  { unfold wp, pret. cbn. apply Hf; [done|]. intros m Hm. by apply not_elem_of_nil in Hm. }
  apply wp_bind, wp_ask. destruct (IsInProgress n (mem_xid m)) eqn:Em.
  - unfold wp, pret. cbn. apply (Ht (S n) m); [lia|by left|done].
  - pose proof (Ha m ltac:(by left)) as Ham. apply IH.
    + intros m' Hm. apply Ha. by right.
    + intros n' m' Hn Hm. apply Ht; [lia|by right].
    + intros n' Hn Hall. apply Hf; [lia|]. intros m' [->|Hm]%elem_of_cons; [|auto]. by apply (finished_law n); [|lia|].
Qed.

Lemma wp_multi_running {R} (Q : R + bool -> VisState -> Prop) t d n multi b : (forall m, m ∈ multi_members multi -> assigned (mem_xid m)) ->
  (forall n' m, (n < n')%nat -> m ∈ multi_members multi -> IsInProgress (pred n') (mem_xid m) = true -> Q (inr true) (MkVis t n' d)) ->
  (forall n', (n <= n')%nat -> (forall m, m ∈ multi_members multi -> IsInProgress n' (mem_xid m) = false) ->
     Q (inr false) (MkVis t n' d)) ->
  wp (MultiXactIdIsRunning be multi b) Q (MkVis t n d).
Proof.
  intros Ha Ht Hf. unfold MultiXactIdIsRunning, GetMultiXactIdMembers. apply wp_bind, wp_ask.
  assert (GetMultiXactIdMembers_at n multi b = multi_members multi \/ (GetMultiXactIdMembers_at n multi b = [] /\
    forall m, m ∈ multi_members multi -> IsInProgress n (mem_xid m) = false)) as [E|[-> Hall]].
  { destruct b; [apply law_lock_members|left; apply law_members]. }
  2:{ unfold wp, pret. cbn. apply Hf; [lia|]. intros m Hm. apply (finished_law n); [by apply Ha|lia|by apply Hall]. }
  rewrite E. destruct (Nat.eqb_spec (length (multi_members multi)) 0) as [E0|_].
  { apply nil_length_inv in E0. unfold wp, pret. cbn. apply Hf; [lia|]. rewrite E0. intros m Hm. by apply not_elem_of_nil in Hm. }
  destruct (existsb _ _) eqn:Ec.
  - apply existsb_exists in Ec as (m & Hm%list_elem_of_In & Hc). unfold wp, pret. cbn.
    apply (Ht (S n) m); [lia|done|]. by apply (law_current n).
  - apply wp_running_loop; [done|intros n' m ?; apply Ht; lia|intros n' ?; apply Hf; lia].
Qed.

Lemma wp_tuple_running {R} (Q : R + bool -> VisState -> Prop) t t0 d n0 n b : tuple_ok n0 t -> is_multi t = true -> upgraded t = false ->
  (forall n' m, (n < n')%nat -> m ∈ multi_members (t_xmax t) -> IsInProgress (pred n') (mem_xid m) = true -> Q (inr true) (MkVis t0 n' d)) ->
  (forall n', (n <= n')%nat -> (forall m, m ∈ multi_members (t_xmax t) -> IsInProgress n' (mem_xid m) = false) ->
     Q (inr false) (MkVis t0 n' d)) ->
  wp (MultiXactIdIsRunning be (t_xmax t) b) Q (MkVis t0 n d).
Proof. intros Hok Hm Hu. apply wp_multi_running. intros m Hin. by eapply assigned_member. Qed.

(** The outcome of a routine: the tuple is the same up to truthful hints, and
    at some moment of the call the answer is the specified one. *)
Definition vpost {R} (n : nat) (t : HeapTupleHeaderData) (P : nat -> R -> Prop) (r : R) (s : VisState) : Prop :=
  (n <= v_clock s)%nat /\ tuple_ok (v_clock s) (v_tuple s) /\ same_tuple t (v_tuple s) /\
  exists k, (n <= k <= v_clock s)%nat /\ P k r.

(** The insertion is settled: what the part about xmax starts from. *)
Definition xmin_settled (n : nat) (t : HeapTupleHeaderData) (s : VisState) : Prop :=
  (n <= v_clock s)%nat /\ tuple_ok (v_clock s) (v_tuple s) /\ same_tuple t (v_tuple s) /\
  inserted (v_clock s) t = true /\ own t = false.
End meaning.

Arguments own : clear implicits.

Ltac solve_assigned :=
  match goal with
  | Hok : tuple_ok _ ?t |- assigned (updater ?t) => exact (assigned_updater _ t Hok)
  | Hok : tuple_ok _ ?t |- assigned (t_xmax ?t) => refine (assigned_xmax _ t Hok _); assumption
  | Hok : tuple_ok _ ?t |- assigned (t_xmin ?t) => refine (ok_assigned_xmin _ t Hok _ _); solve [assumption|apply open_not_frozen; assumption]
  | Hok : tuple_ok _ ?t |- assigned (HeapTupleHeaderGetXvac ?t) => refine (ok_assigned_xvac _ t Hok _); assumption
  | Hok : tuple_ok _ ?t |- assigned (update_member (multi_members (t_xmax ?t))) => refine (assigned_update_member _ t Hok _ _); assumption
  | Hok : tuple_ok _ ?t, Hm : ?m ∈ multi_members (t_xmax ?t) |- assigned (mem_xid ?m) =>
      refine (assigned_member _ t m Hok _ _ Hm); assumption
  end.

#[export] Hint Extern 0 (assigned _) => solve_assigned : typeclass_instances.

(** The members of the multixact of a tuple that is known to be good. *)
Ltac multi_running :=
  eapply wp_tuple_running;
    [eassumption|assumption|solve [assumption|apply not_locked_not_upgraded; assumption]|..].

(** What was found finished still is. *)
Ltac still_finished :=
  match goal with
  | H : TransactionIdIsInProgress_at ?n ?x = false |- TransactionIdIsInProgress_at ?m ?x = false =>
      apply (law_finished n m x); [lia|exact H]
  end.

(** One step of the program in the goal. *)
Ltac vis_step :=
  match goal with
  | |- wp (pbind _ _) _ _ => apply wp_bind
  | |- wp (pget v_tuple) _ _ => apply wp_get
  | |- wp (pret _) _ _ => apply wp_ret
  | |- wp (preturn _) _ _ => apply wp_return
  | |- wp (pwhen _ _) _ _ => unfold pwhen
  | |- wp (if negb true then _ else _) _ _ => idtac
  | |- wp (if negb false then _ else _) _ _ => idtac
  | |- wp (if negb ?b then _ else _) _ _ => let E := fresh "E" in destruct b eqn:E
  | |- wp (if ?b then _ else _) _ _ => let E := fresh "E" in destruct b eqn:E
  | |- wp (ask _) _ _ => apply wp_ask
  | |- wp (TransactionIdIsInProgress _) _ _ => apply wp_ask
  | |- wp (TransactionIdDidCommit _) _ _ => apply wp_ask
  | |- wp (HeapTupleGetUpdateXid _) _ _ => unfold HeapTupleGetUpdateXid, MultiXactIdGetUpdateXid, HeapTupleHeaderGetRawXmax
  | |- wp (GetMultiXactIdMembers _ false) _ _ => apply wp_ask; rewrite law_members
  end; cbn beta iota delta [negb v_tuple].
