(* ===== verification/VisibilityTheorems.v ===== *)
(** * Tuple visibility: the theorems

    Each routine of [Visibility] gives the answer that the tuple's insertion
    and deletion call for, as of one moment during the call, and leaves the
    tuple with truthful, durable hint bits. *)

From S2P Require Import Prelude.
From S2P Require Import Search.
From S2P Require Import TransactionId.
From S2P Require Import HeapTuple.
From S2P Require Import ComboCid.
From S2P Require Import Snapshot.
From S2P Require Import Visibility.
From S2P Require Import VisibilitySpec.

Section routines.
Context {W : World} {be : Asker} {L : WorldLaws W be}.

Abbreviation IsCurrent := (TransactionIdIsCurrentTransactionId be).
Abbreviation IsInProgress := TransactionIdIsInProgress_at.
Abbreviation DidCommit := TransactionIdDidCommit_at.
Abbreviation own := (VisibilitySpec.own be).
Abbreviation InSnapshot := (XidInMVCCSnapshot (SubTransGetTopmostTransaction be)).

(** ** The insertion *)

(** The insertion was found never to take effect. *)
Definition rejected (t : HeapTupleHeaderData) (k : nat) : Prop :=
  inserted k t = false /\ own t = false /\ (moved t = true \/ IsInProgress k (t_xmin t) = false).

Definition xmin_verdict {R} (n : nat) (t : HeapTupleHeaderData) (r : R) (o : R + unit) (s : VisState) : Prop :=
  match o with
  | inl r' => r' = r /\ vpost n t (fun k _ => rejected t k) r' s
  | inr _ => xmin_settled n t s
  end.

Lemma reject_with_hint {R} n0 n t (r : R) d : (n0 <= n)%nat -> tuple_ok n t -> xmin_open t -> rejected t n ->
  xmin_verdict n0 t r (inl r) (MkVis (add_flags t HEAP_XMIN_INVALID) n d).
Proof.
  intros Hle Hok Ho (Hi & Hw & Hx). split; [done|].
  destruct (add_xmin_invalid n t Hok Ho Hi Hw) as [Hok' Hs]; [intros Hm; destruct Hx; congruence|].
  split_and!; [done..|]. exists n. split; [cbn; lia|done].
Qed.

Lemma settle_with_hint {R} n0 n t (r : R) d : (n0 <= n)%nat -> tuple_ok n t -> xmin_open t -> inserted n t = true ->
  own t = false -> (moved t = false -> durable n (t_xmin t)) ->
  xmin_verdict n0 t r (inr tt) (MkVis (add_flags t HEAP_XMIN_COMMITTED) n d).
Proof.
  intros Hle Hok Ho Hi Hw Hd. destruct (add_xmin_committed n t Hok Ho Hi Hw Hd) as [Hok' Hs]. by split_and!.
Qed.

(** [busy] finds that [x] is not busy. *)
Definition finds_idle {R} (busy : Z -> prog VisState R bool) (t : HeapTupleHeaderData) (n : nat) (d : bool) (x : Z) : Prop :=
  forall Q : R + bool -> VisState -> Prop,
    (forall n', (n <= n')%nat -> Q (inr false) (MkVis t n' d)) -> wp (busy x) Q (MkVis t n d).

Lemma idle_in_progress {R} t n d x : IsInProgress n x = false -> finds_idle (R := R) TransactionIdIsInProgress t n d x.
Proof. intros H Q HQ. apply wp_ask. rewrite H. apply HQ. lia. Qed.

Lemma idle_snapshot {R} t n d x snap : InSnapshot x snap = false ->
  finds_idle (R := R) (fun x => pret (InSnapshot x snap)) t n d x.
Proof. intros H Q HQ. unfold wp, pret. cbn. rewrite H. by apply HQ. Qed.

Lemma moved_not_own t : moved t = true -> own t = false.
Proof. unfold own. intros ->. by rewrite andb_false_r. Qed.

Section moved.
Context {R : Type} (busy : Z -> prog VisState R bool) (r : R) (n : nat) (t : HeapTupleHeaderData) (d : bool).
Context (Hok : tuple_ok n t) (Ho : xmin_open t) (Hidle : finds_idle busy t n d (HeapTupleHeaderGetXvac t)).

Lemma wp_moved_off : moved_off t = true -> wp (check_moved_off be busy r t) (xmin_verdict n t r) (MkVis t n d).
Proof.
  intros Hm. assert (moved t = true) as Hmv by (unfold moved; by rewrite Hm).
  destruct (ok_moved _ _ Hok Hmv) as [Hc Hx]. unfold check_moved_off. rewrite Hc. vis_step. apply Hidle. intros n1 Hn1.
  repeat vis_step.
  all: assert (inserted (S n1) t = negb (DidCommit n1 (HeapTupleHeaderGetXvac t))) as Ei
    by (unfold inserted; rewrite (open_not_frozen t Ho), Hm; by rewrite (law_fate n (S n1) (HeapTupleHeaderGetXvac t) ltac:(lia) Hx), (law_fate n n1 (HeapTupleHeaderGetXvac t) ltac:(lia) Hx)); rewrite E in Ei.
  all: apply wp_hint_now; repeat vis_step.
  - apply reject_with_hint; [lia|eapply tuple_ok_later; [|done]; lia|done|]. split_and!; [done|by apply moved_not_own|by left].
  - apply settle_with_hint; [lia|eapply tuple_ok_later; [|done]; lia|done|done|by apply moved_not_own|congruence].
Qed.

Lemma wp_moved_in : moved_off t = false -> moved_in t = true ->
  wp (check_moved_in be busy r t) (xmin_verdict n t r) (MkVis t n d).
Proof.
  intros Hm0 Hm. assert (moved t = true) as Hmv by (unfold moved; by rewrite Hm, orb_true_r).
  destruct (ok_moved _ _ Hok Hmv) as [Hc Hx]. unfold check_moved_in. rewrite Hc. cbn [negb]. unfold pwhen.
  vis_step. apply Hidle. intros n1 Hn1. repeat vis_step.
  all: assert (inserted (S n1) t = DidCommit n1 (HeapTupleHeaderGetXvac t)) as Ei
    by (unfold inserted; rewrite (open_not_frozen t Ho), Hm0, Hm; by rewrite (law_fate n (S n1) (HeapTupleHeaderGetXvac t) ltac:(lia) Hx), (law_fate n n1 (HeapTupleHeaderGetXvac t) ltac:(lia) Hx)); rewrite E in Ei.
  all: apply wp_hint_now; repeat vis_step.
  - apply settle_with_hint; [lia|eapply tuple_ok_later; [|done]; lia|done|done|by apply moved_not_own|congruence].
  - apply reject_with_hint; [lia|eapply tuple_ok_later; [|done]; lia|done|]. split_and!; [done|by apply moved_not_own|by left].
Qed.
End moved.

(** xmin is neither ours nor running. *)
Lemma wp_xmin_committed {R} (r : R) n0 n t d : (n0 <= n)%nat -> tuple_ok n t -> xmin_open t -> moved t = false ->
  IsInProgress n (t_xmin t) = false -> wp (check_xmin_committed r t) (xmin_verdict n0 t r) (MkVis t n d).
Proof.
  intros Hle Hok Ho Hm Hx. unfold check_xmin_committed, HeapTupleHeaderGetRawXmin. vis_step. vis_step.
  pose proof (ok_assigned_xmin _ _ Hok (open_not_frozen t Ho) Hm) as Ha.
  assert (own t = false) as Hw by (unfold own; rewrite (finished_not_current n _ Hx); by rewrite andb_false_r).
  assert (forall k, (n <= k)%nat -> inserted k t = DidCommit n (t_xmin t)) as Hi.
  { intros k Hk. unfold inserted, moved, committed in *. apply orb_false_iff in Hm as [-> ->]. rewrite (open_not_frozen t Ho).
    by rewrite (law_finished n k _ Hk Hx), (law_fate n k _ Hk Hx). }
  destruct (DidCommit n (t_xmin t)) eqn:E.
  - apply wp_hint; [by rewrite (law_fate n (S n) (t_xmin t) ltac:(lia) Hx)| |].
    + intros n' d' Hn'. split_and!; [cbn; lia|eapply tuple_ok_later; [|done]; cbn; lia|done|apply Hi; cbn; lia|done].
    + intros n' Hn' Hd. apply settle_with_hint; [lia|eapply tuple_ok_later; [|done]; lia|done|apply Hi; lia|done|done].
  - vis_step. apply wp_hint_now. repeat vis_step.
    apply reject_with_hint; [lia|eapply tuple_ok_later; [|done]; lia|done|].
    split_and!; [apply Hi; lia|done|right; still_finished].
Qed.

(** ** Closing a path *)

Lemma vpost_same {R} n t (P : nat -> R -> Prop) r m k d : tuple_ok n t -> (n <= k <= m)%nat -> P k r -> vpost n t P r (MkVis t m d).
Proof.
  intros Hok Hk HP. split_and!; [cbn; lia|eapply tuple_ok_later; [|done]; cbn; lia|done|]. by exists k.
Qed.

Lemma vpost_hint {R} n t t' (P : nat -> R -> Prop) r m j k d : tuple_ok j t' /\ same_tuple t t' -> (j <= m)%nat -> (n <= k <= m)%nat ->
  P k r -> vpost n t P r (MkVis t' m d).
Proof.
  intros [Hok Hs] Hj Hk HP. split_and!; [cbn; lia|eapply tuple_ok_later; [|done]; cbn; lia|done|]. by exists k.
Qed.

(** From the insertion to a routine's own answer. *)
Lemma verdict_post {R} n t (r : R) (P : nat -> R -> Prop) o s : (forall k, rejected t k -> P k r) -> xmin_verdict n t r o s ->
  match o with inl r' => vpost n t P r' s | inr _ => xmin_settled n t s end.
Proof.
  intros HP. destruct o as [r'|u]; [|done]. intros [-> (H1 & H2 & H3 & k & Hk & Hr)]. split_and!; [done..|]. exists k. auto.
Qed.

Lemma open_own t : xmin_open t -> moved t = false -> own t = IsCurrent (t_xmin t).
Proof. intros Ho Hm. unfold VisibilitySpec.own. by rewrite (open_not_frozen t Ho), Hm. Qed.

Lemma open_inserted n t : xmin_open t -> moved t = false -> inserted n t = committed n (t_xmin t).
Proof. intros Ho Hm. unfold inserted, moved in *. apply orb_false_iff in Hm as [-> ->]. by rewrite (open_not_frozen t Ho). Qed.

Lemma running_not_inserted n t : xmin_open t -> moved t = false -> IsInProgress n (t_xmin t) = true -> inserted n t = false.
Proof. intros Ho Hm Hr. rewrite open_inserted by done. unfold committed. by rewrite Hr. Qed.

Lemma updater_locked t : locked_only t = true -> updater t = InvalidTransactionId.
Proof. unfold updater. by intros ->. Qed.
Lemma updater_single t : locked_only t = false -> is_multi t = false -> updater t = t_xmax t.
Proof. unfold updater. by intros -> ->. Qed.
Lemma updater_multi t : locked_only t = false -> is_multi t = true -> updater t = update_member (multi_members (t_xmax t)).
Proof. unfold updater. by intros -> ->. Qed.

(** The deletion has taken effect, as far as this transaction can tell. *)
Definition deleted (n : nat) (t : HeapTupleHeaderData) : bool := IsCurrent (updater t) || committed n (updater t).

Lemma invalid_not_deleted n : IsCurrent InvalidTransactionId = false /\ committed n InvalidTransactionId = false.
Proof.
  destruct (law_invalid n) as [H1 H2]. split; [by eapply finished_not_current|]. unfold committed. by rewrite H1, H2.
Qed.

Lemma locked_not_deleted n t : locked_only t = true -> deleted n t = false.
Proof. intros H. unfold deleted. rewrite updater_locked by done. by destruct (invalid_not_deleted n) as [-> ->]. Qed.

Lemma running_not_deleted n t : IsCurrent (updater t) = false -> IsInProgress n (updater t) = true -> deleted n t = false.
Proof. intros H1 H2. unfold deleted, committed. by rewrite H1, H2. Qed.

Lemma finished_deleted n t : IsInProgress n (updater t) = false -> deleted n t = DidCommit n (updater t).
Proof. intros H. unfold deleted, committed. by rewrite (finished_not_current n _ H), H. Qed.

Lemma hint_not_deleted n t : tuple_ok n t -> flag_set (t_infomask t) HEAP_XMAX_INVALID = true -> deleted n t = false.
Proof. intros Hok H. destruct (ok_xmax_invalid _ _ Hok H) as [Hh Hu]. rewrite finished_deleted; [done|by apply holders_done]. Qed.

Lemma hint_deleted n t : tuple_ok n t -> flag_set (t_infomask t) HEAP_XMAX_COMMITTED = true -> locked_only t = false ->
  deleted n t = true /\ updater t = t_xmax t /\ is_multi t = false.
Proof.
  intros Hok H Hl. destruct (ok_xmax_committed _ _ Hok H) as [Hh Hu]. destruct (Hu Hl) as (Hm & Hc & _).
  split_and!; [|by apply updater_single|done]. rewrite finished_deleted; [|by apply holders_done]. by rewrite updater_single.
Qed.

Lemma own_aborted n t : tuple_ok n t -> own t = true -> IsCurrent (updater t) = false ->
  IsInProgress n (updater t) = false /\ DidCommit n (updater t) = false.
Proof.
  intros Hok Ho Hc. destruct (ok_own _ _ Hok Ho) as [|[H1 H2]]; [congruence|]. split; [done|].
  unfold committed in H1. by rewrite H2 in H1.
Qed.

Lemma own_deleted n t : tuple_ok n t -> own t = true -> deleted n t = IsCurrent (updater t).
Proof.
  intros Hok Ho. unfold deleted. destruct (IsCurrent (updater t)) eqn:E; [done|].
  destruct (own_aborted n t Hok Ho E) as [H1 H2]. unfold committed. by rewrite H1, H2.
Qed.

(** An xmax that is one transaction: when it may be marked invalid. *)
Lemma single_gone n t : tuple_ok n t -> is_multi t = false -> IsInProgress n (t_xmax t) = false ->
  locked_only t = true \/ DidCommit n (t_xmax t) = false ->
  tuple_ok n (add_flags t HEAP_XMAX_INVALID) /\ same_tuple t (add_flags t HEAP_XMAX_INVALID).
Proof.
  intros Hok Hm Hx Hor. apply add_xmax_invalid; [done| |].
  - unfold holders. rewrite Hm. by intros h ->%list_elem_of_singleton.
  - destruct (locked_only t) eqn:El; [rewrite updater_locked by done; apply law_invalid|].
    destruct Hor; [done|]. by rewrite updater_single.
Qed.

Lemma multi_gone n t : tuple_ok n t -> is_multi t = true ->
  (forall m, m ∈ multi_members (t_xmax t) -> IsInProgress n (mem_xid m) = false) -> DidCommit n (updater t) = false ->
  tuple_ok n (add_flags t HEAP_XMAX_INVALID) /\ same_tuple t (add_flags t HEAP_XMAX_INVALID).
Proof.
  intros Hok Hm Hx Hc. apply add_xmax_invalid; [done| |done]. unfold holders. rewrite Hm.
  destruct (upgraded t); [by intros h ?%not_elem_of_nil|]. intros h (m & -> & Hin)%list_elem_of_fmap. auto.
Qed.

Lemma idle_moved {R} n t d : tuple_ok n t -> moved t = true ->
  finds_idle (R := R) TransactionIdIsInProgress t n d (HeapTupleHeaderGetXvac t).
Proof. intros Hok Hm. by apply idle_in_progress, (ok_moved _ _ Hok). Qed.

Lemma off_moved t : moved_off t = true -> moved t = true.
Proof. unfold moved. by intros ->. Qed.
Lemma in_moved t : moved_in t = true -> moved t = true.
Proof. unfold moved. intros ->. apply orb_true_r. Qed.

(** The chain of cases on xmin, common to the routines that ask whether xmin
    is in progress: [r0] for a tuple that was never there, [r1] for one whose
    inserter runs. *)
Lemma wp_xmin_phase {R} (r0 r1 : R) (off_case in_case own_case : prog VisState R unit) (P : nat -> R -> Prop) n t d :
  tuple_ok n t -> (forall k, rejected t k -> P k r0) ->
  (xmin_open t -> moved_off t = true -> wp off_case (xmin_verdict n t r0) (MkVis t n d)) ->
  (xmin_open t -> moved_off t = false -> moved_in t = true -> wp in_case (xmin_verdict n t r0) (MkVis t n d)) ->
  (xmin_open t -> own t = true ->
     wp own_case (fun o s => match o with inl r => vpost n t P r s | inr _ => xmin_settled n t s end) (MkVis t n d)) ->
  (forall k, xmin_open t -> moved t = false -> own t = false -> IsInProgress k (t_xmin t) = true -> k = n -> P k r1) ->
  wp (pwhen (negb (HeapTupleHeaderXminCommitted t)) (
        if HeapTupleHeaderXminInvalid t then preturn r0
        else if flag_set (t_infomask t) HEAP_MOVED_OFF then off_case
        else if flag_set (t_infomask t) HEAP_MOVED_IN then in_case
        else if IsCurrent (HeapTupleHeaderGetRawXmin t) then own_case
        else
          b <- TransactionIdIsInProgress (HeapTupleHeaderGetRawXmin t) ;;
          if b then preturn r1 else check_xmin_committed r0 t))%prog
     (fun o s => match o with inl r => vpost n t P r s | inr _ => xmin_settled n t s end) (MkVis t n d).
Proof.
  intros Hok Hr0 Hoff Hin Hown Hr1. unfold HeapTupleHeaderGetRawXmin. do 2 vis_step.
  { apply wp_ret. destruct (ok_committed _ _ Hok E) as (H1 & H2 & _). by split_and!. }
  destruct (HeapTupleHeaderXminInvalid t) eqn:E1.
  { apply wp_return. destruct (ok_invalid _ _ Hok E1) as (H1 & H2 & H3). apply (vpost_same n t _ _ _ n); [done|lia|].
    apply Hr0. split_and!; try done. destruct (moved t); [by left|right; by apply H3]. }
  assert (xmin_open t) as Ho by done. fold (moved_off t) (moved_in t).
  destruct (moved_off t) eqn:E2; [|destruct (moved_in t) eqn:E3].
  1,2: eapply wp_mono; [intros o s; apply (verdict_post n t r0 _ o s Hr0)|]; auto.
  assert (moved t = false) as Hm by (unfold moved; by rewrite E2, E3). pose proof (open_own t Ho Hm) as Eo.
  vis_step; [apply Hown; [done|congruence]|]. do 3 vis_step.
  - apply wp_return, (vpost_same n t _ _ _ n); [done|lia|]. apply Hr1; (done || congruence).
  - eapply wp_mono; [intros o s; apply (verdict_post n t r0 _ o s Hr0)|].
    apply wp_xmin_committed; [lia|eapply tuple_ok_later; [|done]; lia|done..|]. still_finished.
Qed.

(** Our own insertion: visible unless we have deleted it. *)
Lemma wp_check_own {R} (visible gone : R) (P : nat -> R -> Prop) Q n t d : tuple_ok n t -> own t = true ->
  (deleted n t = false -> P n visible) -> (deleted n t = true -> P n gone) ->
  (forall r s, vpost n t P r s -> Q (inl r) s) -> wp (check_own be visible gone t) Q (MkVis t n d).
Proof.
  intros Hok Ho Hvis Hgone HQ. unfold check_own, HeapTupleHeaderGetRawXmax.
  pose proof (own_deleted n t Hok Ho) as Hdel. repeat vis_step.
  - apply HQ, (vpost_same n t _ _ _ n); [done|lia|]. by apply Hvis, hint_not_deleted.
  - apply HQ, (vpost_same n t _ _ _ n); [done|lia|]. by apply Hvis, locked_not_deleted.
  - apply HQ, (vpost_same n t _ _ _ n); [done|lia|]. apply Hgone. by rewrite Hdel, updater_multi.
  - apply HQ, (vpost_same n t _ _ _ n); [done|lia|]. apply Hvis. by rewrite Hdel, updater_multi.
  - apply HQ, (vpost_same n t _ _ _ n); [done|lia|]. apply Hgone. by rewrite Hdel, updater_single.
  - pose proof (updater_single t ltac:(done) ltac:(done)) as Eu. rewrite <- Eu in E2.
    destruct (own_aborted n t Hok Ho E2) as [H1 H2]. rewrite Eu in H1, H2.
    apply wp_hint_now. repeat vis_step. apply HQ, (vpost_hint n t _ _ _ _ n n); [|done|lia|].
    + apply single_gone; [done..|by right].
    + apply Hvis. by rewrite Hdel, E2.
Qed.

(** ** HeapTupleSatisfiesSelf *)

Definition self_spec (n : nat) (t : HeapTupleHeaderData) : bool := (own t || inserted n t) && negb (deleted n t).

Abbreviation self_post n t := (vpost n t (fun k r => r = self_spec k t)).

Lemma self_rejected t k : rejected t k -> false = self_spec k t.
Proof. intros (H1 & H2 & _). unfold self_spec. by rewrite H1, H2. Qed.

Lemma self_xmin_ok n t d : tuple_ok n t ->
  wp (self_xmin be) (fun o s => match o with inl r => self_post n t r s | inr _ => xmin_settled n t s end) (MkVis t n d).
Proof.
  intros Hok. unfold self_xmin. vis_step. vis_step. apply wp_xmin_phase; [done|apply self_rejected|..].
  - intros Ho Hm. apply wp_moved_off; try done. by apply idle_moved, off_moved.
  - intros Ho H1 Hm. apply wp_moved_in; try done. by apply idle_moved, in_moved.
  - intros _ Ho. apply (wp_check_own _ _ (fun k r => r = self_spec k t)); try done; unfold self_spec; by intros ->; rewrite Ho.
  - intros k Ho Hm Hw Hr _. unfold self_spec. by rewrite (running_not_inserted k t Ho Hm Hr), Hw.
Qed.

(** What the second part of a routine may use. *)
Lemma still_inserted n t k : tuple_ok n t -> inserted n t = true -> (n <= k)%nat -> inserted k t = true.
Proof. intros Hok Hi Hk. eapply inserted_later; [done|apply Hok..| |done]. intros Hm. by apply (ok_moved _ _ Hok). Qed.

(** xmax is one transaction, found not to run: its fate decides. *)
Lemma wp_single_fate {R} (live dead : R) (P : nat -> R -> Prop) Q n m t d : (n <= m)%nat -> tuple_ok m t -> is_multi t = false ->
  IsInProgress m (t_xmax t) = false ->
  (forall k, (n <= k)%nat -> (forall h, h ∈ holders t -> IsInProgress k h = false) -> deleted k t = false -> P k live) ->
  (forall k, (n <= k)%nat -> (forall h, h ∈ holders t -> IsInProgress k h = false) -> deleted k t = true -> P k dead) ->
  (forall r s, vpost n t P r s -> Q (inl r) s) ->
  wp (c <- TransactionIdDidCommit (t_xmax t) ;;
      if negb c then SetHintBits HEAP_XMAX_INVALID InvalidTransactionId ;;; preturn live
      else if HEAP_XMAX_IS_LOCKED_ONLY (t_infomask t) then
        SetHintBits HEAP_XMAX_INVALID InvalidTransactionId ;;; preturn live
      else SetHintBits HEAP_XMAX_COMMITTED (t_xmax t) ;;; preturn (A := R) dead)%prog Q (MkVis t m d).
Proof.
  intros Hle Hok Hm Hx Hlive Hdead HQ.
  assert (forall k, (m <= k)%nat -> tuple_ok k t) as Hl by (intros; by eapply tuple_ok_later).
  assert (forall k, (m <= k)%nat -> IsInProgress k (t_xmax t) = false) as Hx' by (intros; still_finished).
  assert (forall k, (m <= k)%nat -> DidCommit k (t_xmax t) = DidCommit m (t_xmax t)) as Hc by (intros k Hk; by apply (law_fate m k (t_xmax t))).
  assert (forall k, (m <= k)%nat -> locked_only t = false -> deleted k t = DidCommit m (t_xmax t)) as Hd.
  { intros k Hk Hn. rewrite finished_deleted; rewrite updater_single by done; auto. }
  assert (forall h, h ∈ holders t -> IsInProgress m h = false) as Hh.
  { unfold holders. rewrite Hm. by intros h ->%list_elem_of_singleton. }
  repeat vis_step.
  - apply wp_hint_now. repeat vis_step. apply HQ, (vpost_hint n t _ _ _ _ (S m) m); [|done|lia|].
    + apply single_gone; auto.
    + apply Hlive; [lia|done|by apply locked_not_deleted].
  - apply wp_hint; [by rewrite Hc by lia| |].
    + intros n' d' Hn'. vis_step. apply HQ. apply (vpost_hint n t t _ _ _ m m); [done|lia|lia|].
      apply Hdead; [lia|done|]. by rewrite Hd.
    + intros n' Hn' Hw. vis_step. apply HQ, (vpost_hint n t _ _ _ _ n' m); [|done|lia|].
      * apply add_xmax_committed; [apply Hl; lia|done|apply Hx'; lia|rewrite Hc by lia; done|done].
      * apply Hdead; [lia|done|]. by rewrite Hd.
  - apply wp_hint_now. repeat vis_step. apply HQ, (vpost_hint n t _ _ _ _ (S m) m); [|done|lia|].
    + apply single_gone; [apply Hl; lia|done|apply Hx'; lia|right; rewrite Hc by lia; done].
    + apply Hlive; [lia|done|]. destruct (locked_only t) eqn:El; [by apply locked_not_deleted|by rewrite Hd].
Qed.

Lemma self_xmax_ok n t d : tuple_ok n t -> inserted n t = true -> own t = false ->
  wp (self_xmax be) (fun o s => match o with inl r | inr r => self_post n t r s end) (MkVis t n d).
Proof.
  intros Hok Hi Ho. unfold self_xmax, HeapTupleHeaderGetRawXmax.
  assert (forall k b, (n <= k)%nat -> deleted k t = negb b -> b = self_spec k t) as Hspec.
  { intros k b Hk Hd. unfold self_spec. rewrite (still_inserted n t k Hok Hi Hk), Ho, Hd. by destruct b. }
  assert (forall k, (n <= k)%nat -> tuple_ok k t) as Hlater by (intros; by eapply tuple_ok_later).
  repeat first [eapply (wp_single_fate true false (fun k r => r = self_spec k t) _ n)|vis_step].
  - apply (vpost_same n t _ _ _ n); [done|lia|]. apply Hspec; [done|by apply hint_not_deleted].
  - apply (vpost_same n t _ _ _ n); [done|lia|]. apply Hspec; [done|by apply locked_not_deleted].
  - apply (vpost_same n t _ _ _ n); [done|lia|]. apply Hspec; [done|by apply hint_deleted].
  - apply (vpost_same n t _ _ _ n); [done|lia|]. apply Hspec; [done|by apply locked_not_deleted].
  - apply (vpost_same n t _ _ _ n); [done|lia|]. apply Hspec; [done|]. unfold deleted. by rewrite updater_multi, E3.
  - apply (vpost_same n t _ _ _ (S n)); [done|lia|]. apply Hspec; [lia|]. apply running_not_deleted; by rewrite updater_multi.
  - apply (vpost_same n t _ _ _ (S (S n))); [done|lia|]. apply Hspec; [lia|]. rewrite finished_deleted; rewrite updater_multi; try done.
    still_finished.
  - apply (vpost_same n t _ _ _ (S (S n))); [done|lia|]. apply Hspec; [lia|]. rewrite finished_deleted; rewrite updater_multi; try done.
    still_finished.
  - apply (vpost_same n t _ _ _ n); [done|lia|]. apply Hspec; [done|by apply locked_not_deleted].
  - apply (vpost_same n t _ _ _ n); [done|lia|]. apply Hspec; [done|]. unfold deleted. by rewrite updater_single, E2.
  - apply (vpost_same n t _ _ _ n); [done|lia|]. apply Hspec; [done|].
    destruct (locked_only t) eqn:El; [by apply locked_not_deleted|apply running_not_deleted; by rewrite updater_single].
  - lia.
  - apply Hlater. lia.
  - done.
  - still_finished.
  - intros k Hk _ Hd. by apply Hspec.
  - intros k Hk _ Hd. by apply Hspec.
  - done.
Qed.

(** The two parts of a routine. *)
Lemma vpost_trans {R} n t n1 t1 (P P1 : nat -> R -> Prop) r s : same_tuple t t1 -> (n <= n1)%nat -> (forall k, P1 k r -> P k r) ->
  vpost n1 t1 P1 r s -> vpost n t P r s.
Proof.
  intros Hs Hn HP (H1 & H2 & H3 & k & Hk & Hr). split_and!; [lia|done|by etrans|]. exists k. split; [lia|auto].
Qed.

Lemma wp_two_parts {R} (first : prog VisState R unit) (second : prog VisState R R) (P : HeapTupleHeaderData -> nat -> R -> Prop) n t d :
  wp first (fun o s => match o with inl r => vpost n t (P t) r s | inr _ => xmin_settled n t s end) (MkVis t n d) ->
  (forall t1 n1 d1, tuple_ok n1 t1 -> inserted n1 t1 = true -> own t1 = false ->
     wp second (fun o s => match o with inl r | inr r => vpost n1 t1 (P t1) r s end) (MkVis t1 n1 d1)) ->
  (forall t1 k r, same_tuple t t1 -> P t1 k r -> P t k r) ->
  let '(r, s) := prun (first ;;; second)%prog (MkVis t n d) in vpost n t (P t) r s.
Proof.
  intros H1 H2 HP. rewrite (surjective_pairing (prun _ _)). apply (wp_prun _ (vpost n t (P t))), wp_bind. eapply wp_mono; [|exact H1].
  intros [r|u] s; [done|]. destruct s as [t1 n1 d1]. intros (Hn & Hok & Hs & Hi & Ho). cbn [v_tuple v_clock] in *.
  eapply wp_mono; [|apply H2]; [|done|by rewrite (same_inserted t t1 Hs)|by rewrite (same_own t t1 Hs)].
  intros [r|r] s; (apply vpost_trans; [done|done|]); intros k; by apply HP.
Qed.

Lemma same_deleted t t1 k : same_tuple t t1 -> deleted k t1 = deleted k t.
Proof. intros Hs. unfold deleted. by rewrite (same_updater t t1 Hs). Qed.

Lemma self_ok n t d : tuple_ok n t ->
  let '(r, s) := prun (HeapTupleSatisfiesSelf be) (MkVis t n d) in self_post n t r s.
Proof.
  intros Hok. apply (wp_two_parts _ _ (fun t k r => r = self_spec k t)).
  - by apply self_xmin_ok.
  - intros. by apply self_xmax_ok.
  - intros t1 k r Hs ->. unfold self_spec. by rewrite (same_own t t1 Hs), (same_inserted t t1 Hs), (same_deleted t t1 k Hs).
Qed.

(** ** HeapTupleSatisfiesDirty *)

Definition inserting (n : nat) (t : HeapTupleHeaderData) : bool :=
  negb (frozen t) && negb (moved t) && IsInProgress n (t_xmin t).

(** [s0] is the snapshot with its output fields cleared. *)
Definition dirty_spec (s0 : SnapshotData) (n : nat) (t : HeapTupleHeaderData) : bool * SnapshotData :=
  if own t then (negb (IsCurrent (updater t)), s0)
  else if inserting n t then
    (true, dirty_snapshot s0 (t_xmin t) (snap_xmax s0)
             (if HeapTupleHeaderIsSpeculative t then HeapTupleHeaderGetSpeculativeToken t else speculativeToken s0))
  else if negb (inserted n t) then (false, s0)
  else if IsCurrent (updater t) then (false, s0)
  else if IsInProgress n (updater t) then (true, dirty_snapshot s0 (snap_xmin s0) (updater t) (speculativeToken s0))
  else (negb (DidCommit n (updater t)), s0).

Abbreviation dirty_post s0 n t := (vpost n t (fun k r => r = dirty_spec s0 k t)).

Lemma inserted_not_inserting n t : inserted n t = true -> inserting n t = false.
Proof.
  unfold inserted, inserting, moved, committed. destruct (frozen t); [done|]. destruct (moved_off t), (moved_in t); try done.
  intros [->%negb_true_iff _]%andb_true_iff. done.
Qed.

Lemma rejected_not_inserting n t : rejected t n -> inserting n t = false.
Proof.
  intros (_ & _ & [H|H]); unfold inserting; rewrite H; [|apply andb_false_r]. by rewrite andb_false_r.
Qed.

Lemma dirty_rejected s0 t k : rejected t k -> (false, s0) = dirty_spec s0 k t.
Proof.
  intros Hr. unfold dirty_spec. rewrite (rejected_not_inserting k t Hr). destruct Hr as (H1 & H2 & _). by rewrite H1, H2.
Qed.

Lemma dirty_xmin_ok s0 n t d : tuple_ok n t ->
  wp (dirty_xmin be s0) (fun o s => match o with inl r => dirty_post s0 n t r s | inr _ => xmin_settled n t s end) (MkVis t n d).
Proof.
  intros Hok. unfold dirty_xmin. vis_step. vis_step. apply wp_xmin_phase; [done|apply dirty_rejected|..].
  - intros Ho Hm. apply wp_moved_off; try done. by apply idle_moved, off_moved.
  - intros Ho H1 Hm. apply wp_moved_in; try done. by apply idle_moved, in_moved.
  - intros _ Ho. pose proof (own_deleted n t Hok Ho) as Hd.
    apply (wp_check_own _ _ (fun k r => r = dirty_spec s0 k t)); try done; unfold dirty_spec; rewrite Ho, <- Hd; by intros ->.
  - intros k Ho Hm Hw Hr _. unfold dirty_spec, inserting. by rewrite Hw, (open_not_frozen t Ho), Hm, Hr.
Qed.

Lemma dirty_xmax_ok s0 n t d : tuple_ok n t -> inserted n t = true -> own t = false ->
  wp (dirty_xmax be s0) (fun o s => match o with inl r | inr r => dirty_post s0 n t r s end) (MkVis t n d).
Proof.
  intros Hok Hi Ho. unfold dirty_xmax, HeapTupleHeaderGetRawXmax.
  assert (forall k, (n <= k)%nat -> dirty_spec s0 k t = if IsCurrent (updater t) then (false, s0)
    else if IsInProgress k (updater t) then (true, dirty_snapshot s0 (snap_xmin s0) (updater t) (speculativeToken s0))
    else (negb (DidCommit k (updater t)), s0)) as Hspec.
  { intros k Hk. pose proof (still_inserted n t k Hok Hi Hk) as Hik. unfold dirty_spec.
    by rewrite Ho, Hik, (inserted_not_inserting k t Hik). }
  assert (forall k b, (n <= k)%nat -> IsInProgress k (updater t) = false -> deleted k t = negb b -> (b, s0) = dirty_spec s0 k t) as Hfin.
  { intros k b Hk Hx Hd. rewrite Hspec, (finished_not_current k _ Hx), Hx by done. rewrite finished_deleted in Hd by done.
    rewrite Hd. by rewrite negb_involutive. }
  assert (forall k, locked_only t = true -> IsInProgress k (updater t) = false) as Hlk.
  { intros k Hl. rewrite updater_locked by done. apply law_invalid. }
  repeat first [eapply (wp_single_fate (true, s0) (false, s0) (fun k r => r = dirty_spec s0 k t) _ n)|vis_step].
  - apply (vpost_same n t _ _ _ n); [done|lia|]. apply Hfin; [done| |by apply hint_not_deleted].
    by apply holders_done, (ok_xmax_invalid _ _ Hok).
  - apply (vpost_same n t _ _ _ n); [done|lia|]. apply Hfin; [done|by apply Hlk|by apply locked_not_deleted].
  - apply (vpost_same n t _ _ _ n); [done|lia|]. apply Hfin; [done| |by apply hint_deleted].
    by apply holders_done, (ok_xmax_committed _ _ Hok).
  - apply (vpost_same n t _ _ _ n); [done|lia|]. apply Hfin; [done|by apply Hlk|by apply locked_not_deleted].
  - apply (vpost_same n t _ _ _ n); [done|lia|]. by rewrite Hspec, updater_multi, E3.
  - apply (vpost_same n t _ _ _ (S n)); [done|lia|]. rewrite Hspec, updater_multi by (done || lia). by rewrite E3, E4.
  - apply (vpost_same n t _ _ _ (S (S n))); [done|lia|]. rewrite Hspec, updater_multi by (done || lia).
    by rewrite E3, E5, (law_finished (S n) (S (S n)) (update_member (multi_members (t_xmax t))) ltac:(lia) E4).
  - apply (vpost_same n t _ _ _ (S (S n))); [done|lia|]. rewrite Hspec, updater_multi by (done || lia).
    by rewrite E3, E5, (law_finished (S n) (S (S n)) (update_member (multi_members (t_xmax t))) ltac:(lia) E4).
  - apply (vpost_same n t _ _ _ n); [done|lia|]. apply Hfin; [done|by apply Hlk|by apply locked_not_deleted].
  - apply (vpost_same n t _ _ _ n); [done|lia|]. by rewrite Hspec, updater_single, E2.
  - apply (vpost_same n t _ _ _ n); [done|lia|]. apply Hfin; [done|by apply Hlk|by apply locked_not_deleted].
  - apply (vpost_same n t _ _ _ n); [done|lia|]. by rewrite Hspec, updater_single, E2, E3.
  - lia.
  - eapply tuple_ok_later; [|done]. lia.
  - done.
  - still_finished.
  - intros k Hk Hh Hd. apply Hfin; [done|by apply holders_done|done].
  - intros k Hk Hh Hd. apply Hfin; [done|by apply holders_done|done].
  - done.
Qed.

Lemma dirty_ok snap n t d : tuple_ok n t ->
  let '(r, s) := prun (HeapTupleSatisfiesDirty be snap) (MkVis t n d) in
  dirty_post (dirty_snapshot snap InvalidTransactionId InvalidTransactionId 0) n t r s.
Proof.
  intros Hok. apply (wp_two_parts _ _ (fun t k r => r = dirty_spec _ k t)).
  - by apply dirty_xmin_ok.
  - intros. by apply dirty_xmax_ok.
  - intros t1 k r Hs ->. unfold dirty_spec, inserting, HeapTupleHeaderIsSpeculative, HeapTupleHeaderGetSpeculativeToken.
    by rewrite (same_own t t1 Hs), (same_inserted t t1 Hs), (same_updater t t1 Hs), (st_xmin _ _ Hs), (st_ctid _ _ Hs),
      (st_frozen _ _ Hs), (same_moved t t1 Hs).
Qed.

(** ** HeapTupleSatisfiesVacuumHorizon *)

Definition vacuum_spec (n : nat) (t : HeapTupleHeaderData) : HTSV_Result * Z :=
  if own t then (if IsCurrent (updater t) then HEAPTUPLE_DELETE_IN_PROGRESS else HEAPTUPLE_INSERT_IN_PROGRESS, InvalidTransactionId)
  else if inserting n t then (HEAPTUPLE_INSERT_IN_PROGRESS, InvalidTransactionId)
  else if negb (inserted n t) then (HEAPTUPLE_DEAD, InvalidTransactionId)
  else if IsInProgress n (updater t) then (HEAPTUPLE_DELETE_IN_PROGRESS, InvalidTransactionId)
  else if DidCommit n (updater t) then (HEAPTUPLE_RECENTLY_DEAD, updater t)
  else (HEAPTUPLE_LIVE, InvalidTransactionId).

Abbreviation vacuum_post n t := (vpost n t (fun k r => r = vacuum_spec k t)).

Lemma vacuum_rejected t k : rejected t k -> (HEAPTUPLE_DEAD, InvalidTransactionId) = vacuum_spec k t.
Proof.
  intros Hr. unfold vacuum_spec. rewrite (rejected_not_inserting k t Hr). destruct Hr as (H1 & H2 & _). by rewrite H1, H2.
Qed.

Lemma invalid_updater t : t_xmax t = InvalidTransactionId -> updater t = InvalidTransactionId.
Proof. intros E. unfold updater. rewrite E, law_no_members. by destruct (locked_only t), (is_multi t). Qed.

Lemma lock_flag_locked t : flag_set (t_infomask t) HEAP_XMAX_LOCK_ONLY = true -> locked_only t = true.
Proof. unfold locked_only, HEAP_XMAX_IS_LOCKED_ONLY. by intros ->. Qed.

Lemma vacuum_own_ok n t d : tuple_ok n t -> own t = true ->
  wp (vacuum_own be t) (fun o s => match o with inl r => vacuum_post n t r s | inr _ => xmin_settled n t s end) (MkVis t n d).
Proof.
  intros Hok Ho. unfold vacuum_own, HeapTupleHeaderIsOnlyLocked, HeapTupleHeaderGetUpdateXid.
  assert (forall m k b d, (n <= k <= m)%nat -> IsCurrent (updater t) = b ->
    vacuum_post n t (if b then HEAPTUPLE_DELETE_IN_PROGRESS else HEAPTUPLE_INSERT_IN_PROGRESS, InvalidTransactionId) (MkVis t m d)) as Hpost.
  { intros m k b d' Hk Hb. apply (vpost_same n t _ _ _ k); [done|done|]. unfold vacuum_spec. by rewrite Ho, Hb. }
  assert (IsCurrent InvalidTransactionId = false) as H0 by apply (invalid_not_deleted n).
  vis_step.
  { vis_step. apply (Hpost n n false); [lia|]. eapply finished_not_current, holders_done. by apply (ok_xmax_invalid _ _ Hok). }
  vis_step. vis_step.
  { repeat vis_step. apply (Hpost n n false); [lia|]. by rewrite updater_locked. }
  repeat vis_step; unfold HeapTupleHeaderGetRawXmax in *.
  all: try (apply (Hpost _ n true); [lia|]; first [by rewrite updater_multi|by rewrite updater_single]).
  all: try (apply (Hpost _ n false); [lia|]; first [by rewrite updater_multi|by rewrite updater_single]).
  - apply lock_flag_locked in E1. unfold locked_only in E1. congruence.
  - apply (Hpost _ n false); [lia|]. rewrite invalid_updater; [done|]. by apply negb_false_iff, Z.eqb_eq in E2.
Qed.

Section vacuum_moved.
Context (n : nat) (t : HeapTupleHeaderData) (d : bool) (Hok : tuple_ok n t) (Ho : xmin_open t).

Lemma wp_vacuum_moved_off : moved_off t = true ->
  wp (vacuum_moved_off be t) (xmin_verdict n t (HEAPTUPLE_DEAD, InvalidTransactionId)) (MkVis t n d).
Proof.
  intros Hm. pose proof (wp_moved_off TransactionIdIsInProgress (HEAPTUPLE_DEAD, InvalidTransactionId) n t d Hok Ho
    (idle_moved n t d Hok (off_moved t Hm)) Hm) as H. revert H.
  destruct (ok_moved _ _ Hok (off_moved t Hm)) as [Hc Hx]. unfold vacuum_moved_off, check_moved_off, wp, pbind,
    TransactionIdIsInProgress, ask. cbn. rewrite Hc. cbn. rewrite Hx. done.
Qed.

Lemma wp_vacuum_moved_in : moved_off t = false -> moved_in t = true ->
  wp (vacuum_moved_in be t) (xmin_verdict n t (HEAPTUPLE_DEAD, InvalidTransactionId)) (MkVis t n d).
Proof.
  intros Hm0 Hm. pose proof (wp_moved_in TransactionIdIsInProgress (HEAPTUPLE_DEAD, InvalidTransactionId) n t d Hok Ho
    (idle_moved n t d Hok (in_moved t Hm)) Hm0 Hm) as H. revert H.
  destruct (ok_moved _ _ Hok (in_moved t Hm)) as [Hc Hx]. unfold vacuum_moved_in, check_moved_in, wp, pbind,
    TransactionIdIsInProgress, ask. cbn. rewrite Hc. cbn. rewrite Hx. done.
Qed.
End vacuum_moved.

Lemma vacuum_xmin_ok n t d : tuple_ok n t ->
  wp (vacuum_xmin be) (fun o s => match o with inl r => vacuum_post n t r s | inr _ => xmin_settled n t s end) (MkVis t n d).
Proof.
  intros Hok. unfold vacuum_xmin. vis_step. vis_step. apply wp_xmin_phase; [done|apply vacuum_rejected|..].
  - intros Ho Hm. by apply wp_vacuum_moved_off.
  - intros Ho H1 Hm. by apply wp_vacuum_moved_in.
  - intros _ Ho. by apply vacuum_own_ok.
  - intros k Ho Hm Hw Hr _. unfold vacuum_spec, inserting. by rewrite Hw, (open_not_frozen t Ho), Hm, Hr.
Qed.

Section vacuum_xmax.
Context (n : nat) (t : HeapTupleHeaderData) (d : bool).
Context (Hok : tuple_ok n t) (Hi : inserted n t = true) (Ho : own t = false).

Lemma vacuum_spec_xmax k : (n <= k)%nat -> vacuum_spec k t =
  if IsInProgress k (updater t) then (HEAPTUPLE_DELETE_IN_PROGRESS, InvalidTransactionId)
  else if DidCommit k (updater t) then (HEAPTUPLE_RECENTLY_DEAD, updater t) else (HEAPTUPLE_LIVE, InvalidTransactionId).
Proof.
  intros Hk. pose proof (still_inserted n t k Hok Hi Hk) as Hik. unfold vacuum_spec.
  by rewrite Ho, Hik, (inserted_not_inserting k t Hik).
Qed.

Lemma vacuum_live k : (n <= k)%nat -> IsInProgress k (updater t) = false -> DidCommit k (updater t) = false ->
  (HEAPTUPLE_LIVE, InvalidTransactionId) = vacuum_spec k t.
Proof. intros Hk H1 H2. by rewrite vacuum_spec_xmax, H1, H2. Qed.

Lemma vacuum_locked_ok : locked_only t = true ->
  wp (vacuum_locked be t) (fun o s => match o with inl r | inr r => vacuum_post n t r s end) (MkVis t n d).
Proof.
  intros Hl. assert (forall k, (n <= k)%nat -> (HEAPTUPLE_LIVE, InvalidTransactionId) = vacuum_spec k t) as Hspec.
  { intros k Hk. apply vacuum_live; [done|..]; rewrite updater_locked by done; apply law_invalid. }
  assert (forall k, DidCommit k (updater t) = false) as Hu by (intros; rewrite updater_locked by done; apply law_invalid).
  assert (forall k, (n <= k)%nat -> tuple_ok k t) as Hlater by (intros; by eapply tuple_ok_later).
  unfold vacuum_locked, HeapTupleHeaderGetRawXmax. vis_step. do 2 vis_step; [repeat vis_step; apply (vpost_same n t _ _ _ n); auto|].
  vis_step.
  - do 2 vis_step.
    + repeat vis_step. apply wp_hint_now. repeat vis_step. apply (vpost_hint n t _ _ _ _ n n); [|done|lia|auto].
      apply add_xmax_invalid; [done| |done]. unfold holders, is_multi, upgraded. rewrite E0, E1. by intros h ?%not_elem_of_nil.
    + multi_running.
      * intros n' m Hn' _ _. repeat vis_step. apply (vpost_same n t _ _ _ n); [done|lia|auto].
      * intros n' Hn' Hall. repeat vis_step. apply wp_hint_now. repeat vis_step.
        apply (vpost_hint n t _ _ _ _ n' n); [|done|lia|auto]. apply multi_gone; auto.
  - repeat vis_step; [apply (vpost_same n t _ _ _ n); [done|lia|auto]|].
    apply wp_hint_now. repeat vis_step. apply (vpost_hint n t _ _ _ _ (S n) n); [|done|lia|auto].
    apply single_gone; auto. still_finished.
Qed.

Lemma vacuum_multi_ok : locked_only t = false -> is_multi t = true ->
  wp (vacuum_multi be t) (fun o s => match o with inl r | inr r => vacuum_post n t r s end) (MkVis t n d).
Proof.
  intros Hl Hm. pose proof (updater_multi t Hl Hm) as Eu. unfold vacuum_multi.
  do 5 vis_step. rewrite <- Eu. do 2 vis_step. vis_step.
  { vis_step. apply (vpost_same n t _ _ _ (S n)); [done|lia|]. by rewrite vacuum_spec_xmax, E by lia. }
  pose proof (fun k Hk => law_finished (S n) k _ Hk E) as Hx. pose proof (fun k Hk => law_fate (S n) k _ Hk E) as Hc.
  vis_step. vis_step. vis_step.
  { vis_step. apply (vpost_same n t _ _ _ (S (S n))); [done|lia|]. by rewrite vacuum_spec_xmax, Hx, E0 by lia. }
  rewrite (Hc (S (S n)) ltac:(lia)) in E0.
  assert ((HEAPTUPLE_LIVE, InvalidTransactionId) = vacuum_spec (S n) t) as Hlive by (apply vacuum_live; [lia|done|done]).
  vis_step. multi_running; intros n'.
  - intros m Hn' _ _. repeat vis_step. apply (vpost_same n t _ _ _ (S n)); [done|lia|done].
  - intros Hn' Hall. repeat vis_step. apply wp_hint_now. repeat vis_step.
    apply (vpost_hint n t _ _ _ _ n' (S n)); [|done|lia|done].
    apply multi_gone; [eapply tuple_ok_later; [|done]; lia|done|done|]. by rewrite Hc by lia.
Qed.
End vacuum_xmax.

Lemma vacuum_xmax_ok n t d : tuple_ok n t -> inserted n t = true -> own t = false ->
  wp (vacuum_xmax be) (fun o s => match o with inl r | inr r => vacuum_post n t r s end) (MkVis t n d).
Proof.
  intros Hok Hi Ho. pose proof (vacuum_spec_xmax n t Hok Hi Ho) as Hspec. unfold vacuum_xmax, HeapTupleHeaderGetRawXmax.
  do 2 vis_step. vis_step.
  { vis_step. destruct (ok_xmax_invalid _ _ Hok E) as [Hh Hu]. apply (vpost_same n t _ _ _ n); [done|lia|].
    apply (vacuum_live n); try done. by apply holders_done. }
  vis_step; [by apply vacuum_locked_ok|]. vis_step; [by apply vacuum_multi_ok|].
  pose proof (updater_single t E0 E1) as Eu. rewrite <- Eu. do 2 vis_step. vis_step.
  { repeat vis_step. destruct (hint_deleted n t Hok E2 E0) as (Hd & _ & _). apply (vpost_same n t _ _ _ n); [done|lia|].
    destruct (ok_xmax_committed _ _ Hok E2) as [Hh _]. apply holders_done in Hh.
    rewrite Hspec, Hh by done. rewrite finished_deleted in Hd by done. by rewrite Hd. }
  do 2 vis_step. vis_step.
  { vis_step. apply (vpost_same n t _ _ _ n); [done|lia|]. by rewrite Hspec, E3. }
  pose proof (fun k Hk => law_finished n k _ Hk E3) as Hx. pose proof (fun k Hk => law_fate n k _ Hk E3) as Hc.
  assert (forall k, (n <= k)%nat -> tuple_ok k t) as Hlater by (intros; by eapply tuple_ok_later).
  do 2 vis_step. vis_step; rewrite (Hc (S n)) in E4 by lia.
  - assert ((HEAPTUPLE_RECENTLY_DEAD, updater t) = vacuum_spec n t) as Hdead by (by rewrite Hspec, E3, E4).
    apply wp_hint; [by rewrite Hc by lia| |].
    + intros n' d' Hn'. repeat vis_step. apply (vpost_same n t _ _ _ n); [done|lia|done].
    + intros n' Hn' Hw. repeat vis_step. apply (vpost_hint n t _ _ _ _ n' n); [|done|lia|done]. rewrite Eu in *.
      apply add_xmax_committed; [apply Hlater; lia|done|apply Hx; lia|rewrite Hc by lia; done|done].
  - vis_step. apply wp_hint_now. repeat vis_step. apply (vpost_hint n t _ _ _ _ (S (S n)) n); [|done|lia|].
    + rewrite Eu in *. apply single_gone; [apply Hlater; lia|done|apply Hx; lia|right; rewrite Hc by lia; done].
    + by rewrite Hspec, E3, E4.
Qed.

Lemma vacuum_ok n t d : tuple_ok n t ->
  let '(r, s) := prun (HeapTupleSatisfiesVacuumHorizon be) (MkVis t n d) in vacuum_post n t r s.
Proof.
  intros Hok. apply (wp_two_parts _ _ (fun t k r => r = vacuum_spec k t)).
  - by apply vacuum_xmin_ok.
  - intros. by apply vacuum_xmax_ok.
  - intros t1 k r Hs ->. unfold vacuum_spec, inserting.
    by rewrite (same_own t t1 Hs), (same_inserted t t1 Hs), (same_updater t t1 Hs), (st_xmin _ _ Hs),
      (st_frozen _ _ Hs), (same_moved t t1 Hs).
Qed.

(** ** HeapTupleSatisfiesUpdate *)

Section update.
Context (curcid : Z) (t_self : ItemPointerData).

(** What a visible tuple is to an updater. *)
Definition update_tail (n : nat) (t : HeapTupleHeaderData) : TM_Result :=
  if IsCurrent (updater t) then modified_by_us be curcid t
  else if existsb (IsInProgress n) (holders t) then TM_BeingModified
  else if committed n (updater t) then updated_or_deleted t_self t
  else TM_Ok.

Definition update_spec (n : nat) (t : HeapTupleHeaderData) : TM_Result :=
  if own t && (HeapTupleHeaderGetCmin (comboState be) t >=? curcid) then TM_Invisible
  else if negb (own t || inserted n t) then TM_Invisible
  else update_tail n t.

Abbreviation update_post n t := (vpost n t (fun k r => r = update_spec k t)).

Lemma tail_running k t h : h ∈ holders t -> IsInProgress k h = true -> IsCurrent (updater t) = false ->
  TM_BeingModified = update_tail k t.
Proof.
  intros Hh Hr Hc. unfold update_tail. rewrite Hc. assert (existsb (IsInProgress k) (holders t) = true) as ->; [|done].
  apply existsb_exists. exists h. split; [by apply list_elem_of_In|done].
Qed.

Lemma tail_done k t : (forall h, h ∈ holders t -> IsInProgress k h = false) ->
  update_tail k t = if deleted k t then updated_or_deleted t_self t else TM_Ok.
Proof.
  intros Hh. pose proof (holders_done k t Hh) as Hu. unfold update_tail, deleted. rewrite (finished_not_current k _ Hu).
  destruct (existsb _ _) eqn:E; [|done]. apply existsb_exists in E as (h & Hin%list_elem_of_In & Hr). rewrite Hh in Hr; done.
Qed.

Lemma locked_not_current t : locked_only t = true -> IsCurrent (updater t) = false.
Proof. intros Hl. rewrite updater_locked by done. apply (invalid_not_deleted 0). Qed.

Lemma holders_multi t m : is_multi t = true -> upgraded t = false -> m ∈ multi_members (t_xmax t) -> mem_xid m ∈ holders t.
Proof. intros Hm Hu Hin. unfold holders. rewrite Hm, Hu. apply list_elem_of_fmap. eauto. Qed.

Lemma holders_multi_done k t : is_multi t = true ->
  (forall m, m ∈ multi_members (t_xmax t) -> IsInProgress k (mem_xid m) = false) -> forall h, h ∈ holders t -> IsInProgress k h = false.
Proof.
  intros Hm Hall h. unfold holders. rewrite Hm. destruct (upgraded t); [by intros ?%not_elem_of_nil|].
  intros (m & -> & Hin)%list_elem_of_fmap. auto.
Qed.

Lemma holders_single t : is_multi t = false -> holders t = [t_xmax t].
Proof. unfold holders. by intros ->. Qed.

Lemma update_rejected t k : rejected t k -> TM_Invisible = update_spec k t.
Proof. intros (H1 & H2 & _). unfold update_spec. by rewrite H1, H2. Qed.

Lemma update_own_ok n t d : tuple_ok n t -> own t = true ->
  wp (update_own be curcid t) (fun o s => match o with inl r => update_post n t r s | inr _ => xmin_settled n t s end) (MkVis t n d).
Proof.
  intros Hok Ho. unfold update_own, HeapTupleHeaderGetRawXmax. vis_step.
  { vis_step. apply (vpost_same n t _ _ _ n); [done|lia|]. unfold update_spec. by rewrite Ho, E. }
  assert (forall m k r d, (n <= k <= m)%nat -> r = update_tail k t -> update_post n t r (MkVis t m d)) as Hpost.
  { intros m k r d' Hk ->. apply (vpost_same n t _ _ _ k); [done|done|]. unfold update_spec. by rewrite Ho, E. }
  assert (forall k, (n <= k)%nat -> deleted k t = IsCurrent (updater t)) as Hdel.
  { intros k Hk. apply own_deleted; [by eapply tuple_ok_later|done]. }
  assert (upgraded t = false) as Hup by (destruct (upgraded t) eqn:Eu; [by rewrite (ok_upgraded _ _ Hok Eu) in Ho|done]).
  vis_step; [vis_step; apply (Hpost n n); [lia|]|vis_step].
  { destruct (ok_xmax_invalid _ _ Hok E0) as [Hh _]. by rewrite tail_done, hint_not_deleted. }
  - pose proof (locked_not_current t E1) as Hc. vis_step; vis_step.
    + multi_running; intros n'.
      * intros m Hn' Hm Hr. repeat vis_step. apply (Hpost _ (pred n')); [lia|]. by eapply tail_running; [apply holders_multi| |].
      * intros Hn' Hall. repeat vis_step. apply (Hpost _ n'); [lia|]. rewrite tail_done by by apply holders_multi_done.
        by rewrite locked_not_deleted.
    + repeat vis_step; apply (Hpost _ n); try lia.
      * eapply tail_running; [rewrite holders_single by done; by left|done|done].
      * rewrite tail_done, locked_not_deleted; [done|done|]. rewrite holders_single by done. by intros h ->%list_elem_of_singleton.
  - vis_step.
    + do 5 vis_step. rewrite <- (updater_multi t) by done. vis_step.
      { vis_step. apply (Hpost _ n); [lia|]. unfold update_tail. by rewrite E3. }
      vis_step. multi_running; intros n'.
      * intros m Hn' Hm Hr. repeat vis_step. apply (Hpost _ (pred n')); [lia|]. by eapply tail_running; [apply holders_multi| |].
      * intros Hn' Hall. repeat vis_step. apply (Hpost _ n'); [lia|]. rewrite tail_done by by apply holders_multi_done.
        by rewrite Hdel by lia.
    + pose proof (updater_single t E1 E2) as Eu. rewrite <- Eu. vis_step.
      { vis_step. apply (Hpost _ n); [lia|]. unfold update_tail. by rewrite E3. }
      destruct (own_aborted n t Hok Ho E3) as [H1 H2]. vis_step. apply wp_hint_now. repeat vis_step.
      apply (vpost_hint n t _ _ _ _ n n); [|done|lia|].
      * rewrite Eu in *. apply single_gone; [done..|by right].
      * unfold update_spec. rewrite Ho, E. cbn. rewrite tail_done; [by rewrite Hdel|]. rewrite holders_single by done.
        rewrite <- Eu. by intros h ->%list_elem_of_singleton.
Qed.

Lemma update_xmin_ok n t d : tuple_ok n t ->
  wp (update_xmin be curcid) (fun o s => match o with inl r => update_post n t r s | inr _ => xmin_settled n t s end) (MkVis t n d).
Proof.
  intros Hok. unfold update_xmin. vis_step. vis_step. apply wp_xmin_phase; [done|apply update_rejected|..].
  - intros Ho Hm. apply wp_moved_off; try done. by apply idle_moved, off_moved.
  - intros Ho H1 Hm. apply wp_moved_in; try done. by apply idle_moved, in_moved.
  - intros _ Ho. by apply update_own_ok.
  - intros k Ho Hm Hw Hr _. unfold update_spec. by rewrite (running_not_inserted k t Ho Hm Hr), Hw.
Qed.

Section update_xmax.
Context (n : nat) (t : HeapTupleHeaderData).
Context (Hok : tuple_ok n t) (Hi : inserted n t = true) (Ho : own t = false).

Lemma update_spec_xmax k : (n <= k)%nat -> update_spec k t = update_tail k t.
Proof. intros Hk. unfold update_spec. by rewrite Ho, (still_inserted n t k Hok Hi Hk). Qed.

Lemma update_leaf m k r d : (n <= k <= m)%nat -> r = update_tail k t -> update_post n t r (MkVis t m d).
Proof. intros Hk ->. apply (vpost_same n t _ _ _ k); [done|done|]. rewrite update_spec_xmax; [done|lia]. Qed.

Lemma update_leaf_hint f m j k r d : tuple_ok j (add_flags t f) /\ same_tuple t (add_flags t f) -> (j <= m)%nat -> (n <= k <= m)%nat ->
  r = update_tail k t -> update_post n t r (MkVis (add_flags t f) m d).
Proof. intros Hs Hj Hk ->. apply (vpost_hint n t _ _ _ _ j k); [done..|]. rewrite update_spec_xmax; [done|lia]. Qed.

(** A member of the multixact runs, or all are done. *)
Lemma update_multi_running k m n' d : is_multi t = true -> upgraded t = false -> IsCurrent (updater t) = false ->
  (n <= k <= n')%nat -> m ∈ multi_members (t_xmax t) -> IsInProgress k (mem_xid m) = true ->
  update_post n t TM_BeingModified (MkVis t n' d).
Proof. intros Hm Hup Hc Hk Hin Hr. apply (update_leaf _ k); [done|]. by eapply tail_running; [apply holders_multi| |]. Qed.

Lemma update_multi_decided n1 d : (n <= n1)%nat -> is_multi t = true -> locked_only t = false -> IsCurrent (updater t) = false ->
  wp (b <- MultiXactIdIsRunning be (t_xmax t) false ;;
      if b then preturn TM_BeingModified
      else
        c <- TransactionIdDidCommit (updater t) ;;
        if c then preturn (updated_or_deleted t_self t)
        else
          b <- MultiXactIdIsRunning be (t_xmax t) false ;;
          if negb b then SetHintBits HEAP_XMAX_INVALID InvalidTransactionId ;;; preturn TM_Ok
          else preturn (A := TM_Result) TM_BeingModified)%prog
    (fun o s => match o with inl r | inr r => update_post n t r s end) (MkVis t n1 d).
Proof.
  intros Hn1 Hm Hl Hc. pose proof (not_locked_not_upgraded t Hl) as Hup.
  vis_step. multi_running; intros n2.
  { intros m Hn2 Hin Hr. repeat vis_step. by apply (update_multi_running (pred n2) m); [..|lia| |]. }
  intros Hn2 Hall. pose proof (holders_multi_done n2 t Hm Hall) as Hh. pose proof (holders_done n2 t Hh) as Hu.
  pose proof (finished_deleted n2 t Hu) as Hd. do 2 vis_step. vis_step.
  { vis_step. apply (update_leaf _ n2); [lia|]. by rewrite tail_done, Hd. }
  vis_step. multi_running; intros n3.
  - intros m Hn3 Hin Hr. repeat vis_step. by apply (update_multi_running (pred n3) m); [..|lia| |].
  - intros Hn3 Hall3. repeat vis_step. apply wp_hint_now. repeat vis_step.
    apply (update_leaf_hint _ _ n3 n2); [|done|lia|by rewrite tail_done, Hd].
    apply multi_gone; [eapply tuple_ok_later; [|done]; lia|done|done|]. by rewrite (law_fate n2 n3 (updater t) ltac:(lia) Hu).
Qed.

Lemma update_multi_ok d : is_multi t = true ->
  wp (update_multi be curcid t_self t) (fun o s => match o with inl r | inr r => update_post n t r s end) (MkVis t n d).
Proof.
  intros Hm. unfold update_multi, HeapTupleHeaderGetRawXmax. vis_step; [|vis_step].
  - vis_step. apply (update_leaf _ n); [lia|]. rewrite tail_done, locked_not_deleted; [done|by apply upgraded_locked|].
    unfold holders, upgraded. rewrite Hm, E. by intros h ?%not_elem_of_nil.
  - pose proof (locked_not_current t E0) as Hc. vis_step. multi_running; intros n1.
    + intros m Hn1 Hin Hr. repeat vis_step. by apply (update_multi_running (pred n1) m); [..|lia| |].
    + intros Hn1 Hall. repeat vis_step. apply wp_hint_now. repeat vis_step. apply (update_leaf_hint _ _ n1 n1); [|done|lia|].
      * apply multi_gone; [eapply tuple_ok_later; [|done]; lia|done|done|]. rewrite updater_locked by done. apply law_invalid.
      * rewrite tail_done by by apply holders_multi_done. by rewrite locked_not_deleted.
  - do 5 vis_step. rewrite <- (updater_multi t) by done. do 3 vis_step.
    + vis_step. vis_step; [vis_step; apply (update_leaf _ n); [lia|unfold update_tail; by rewrite E2]|].
      apply update_multi_decided; try done. lia.
    + assert (IsCurrent (updater t) = false) as Hc.
      { apply negb_false_iff, Z.eqb_eq in E1. rewrite E1. apply (invalid_not_deleted 0). }
      vis_step. multi_running; intros n1.
      * intros m Hn1 Hin Hr. repeat vis_step. by apply (update_multi_running (pred n1) m); [..|lia| |].
      * intros Hn1 Hall. do 2 vis_step; [congruence|]. apply update_multi_decided; try done. lia.
Qed.

Lemma update_xmax_ok d :
  wp (update_xmax be curcid t_self) (fun o s => match o with inl r | inr r => update_post n t r s end) (MkVis t n d).
Proof.
  unfold update_xmax, HeapTupleHeaderGetRawXmax. do 2 vis_step. vis_step; [|vis_step; [|vis_step]].
  - vis_step. apply (update_leaf _ n); [lia|]. destruct (ok_xmax_invalid _ _ Hok E) as [Hh _]. by rewrite tail_done, hint_not_deleted.
  - destruct (ok_xmax_committed _ _ Hok E0) as [Hh _]. repeat vis_step; apply (update_leaf _ n); try lia; rewrite tail_done by done.
    + by rewrite locked_not_deleted.
    + by destruct (hint_deleted n t Hok E0 E1) as [-> _].
  - by apply update_multi_ok.
  - vis_step.
    + repeat vis_step; apply (update_leaf _ n); try lia.
      * eapply (tail_running n t (t_xmax t)); [rewrite holders_single by done; by left|by apply law_current|by apply locked_not_current].
      * unfold update_tail. by rewrite updater_single, E2.
    + do 2 vis_step. vis_step.
      * vis_step. apply (update_leaf _ n); [lia|]. eapply (tail_running n t (t_xmax t)); [rewrite holders_single by done; by left|done|].
        destruct (locked_only t) eqn:El; [by apply locked_not_current|by rewrite updater_single].
      * apply (wp_single_fate _ _ (fun k r => r = update_spec k t) _ n); [lia|eapply tuple_ok_later; [|done]; lia|done|..].
        -- still_finished.
        -- intros k Hk Hh Hd. by rewrite update_spec_xmax, tail_done, Hd.
        -- intros k Hk Hh Hd. by rewrite update_spec_xmax, tail_done, Hd.
        -- done.
Qed.
End update_xmax.

Lemma update_ok n t d : tuple_ok n t ->
  let '(r, s) := prun (HeapTupleSatisfiesUpdate be t_self curcid) (MkVis t n d) in update_post n t r s.
Proof.
  intros Hok. apply (wp_two_parts _ _ (fun t k r => r = update_spec k t)).
  - by apply update_xmin_ok.
  - intros. by apply update_xmax_ok.
  - intros t1 k r Hs ->. unfold update_spec, update_tail, modified_by_us, updated_or_deleted.
    by rewrite (same_own t t1 Hs), (same_inserted t t1 Hs), (same_updater t t1 Hs), (same_cmin t t1 Hs), (same_cmax t t1 Hs),
      (same_holders t t1 Hs), (st_ctid _ _ Hs).
Qed.
End update.

(** ** HeapTupleSatisfiesMVCC *)

Section mvcc.
Context (snap : SnapshotData).

(** What the snapshot must be for this tuple: a transaction that it leaves
    out has finished, and old VACUUM FULL was over before it was taken. *)
Record snap_ok (n : nat) (t : HeapTupleHeaderData) : Prop := {
  so_xmin : frozen t = false -> moved t = false -> IsCurrent (t_xmin t) = false -> InSnapshot (t_xmin t) snap = false ->
    IsInProgress n (t_xmin t) = false;
  so_updater : IsCurrent (updater t) = false -> InSnapshot (updater t) snap = false -> IsInProgress n (updater t) = false;
  so_moved : moved t = true -> InSnapshot (HeapTupleHeaderGetXvac t) snap = false /\ InSnapshot (t_xmin t) snap = false;
}.

(** The insertion and the deletion as the snapshot sees them. *)
Definition mvcc_inserted (n : nat) (t : HeapTupleHeaderData) : bool :=
  if own t then negb (HeapTupleHeaderGetCmin (comboState be) t >=? curcid snap)
  else if frozen t || moved t then inserted n t
  else negb (InSnapshot (t_xmin t) snap) && DidCommit n (t_xmin t).

Definition mvcc_deleted (n : nat) (t : HeapTupleHeaderData) : bool :=
  if IsCurrent (updater t) then negb (HeapTupleHeaderGetCmax (comboState be) t >=? curcid snap)
  else negb (InSnapshot (updater t) snap) && DidCommit n (updater t).

Definition mvcc_spec (n : nat) (t : HeapTupleHeaderData) : bool := mvcc_inserted n t && negb (mvcc_deleted n t).

Abbreviation mvcc_post n t := (vpost n t (fun _ r => r = mvcc_spec n t)).

(** The verdict does not depend on the moment or on hint bits. *)
Lemma mvcc_deleted_later n m t : (n <= m)%nat -> tuple_ok n t -> snap_ok n t -> mvcc_deleted m t = mvcc_deleted n t.
Proof.
  intros Hle Hok Hs. unfold mvcc_deleted. destruct (IsCurrent (updater t)) eqn:Ec; [done|].
  destruct (InSnapshot (updater t) snap) eqn:Ei; [done|].
  rewrite (law_fate n m (updater t)); [done|done|by apply (so_updater _ _ Hs)].
Qed.

Lemma inserted_moved_later n m t : (n <= m)%nat -> tuple_ok n t -> frozen t || moved t = true -> inserted m t = inserted n t.
Proof.
  intros Hle Hok. unfold inserted. destruct (frozen t); [done|]. intros Hm. cbn in Hm. destruct (ok_moved _ _ Hok Hm) as [_ Hx].
  rewrite (law_fate n m _ Hle Hx). unfold moved in Hm. destruct (moved_off t); [done|]. by destruct (moved_in t).
Qed.

Lemma plain_not_current t : own t = false -> frozen t || moved t = false -> IsCurrent (t_xmin t) = false.
Proof. unfold VisibilitySpec.own. intros H [E1 E2]%orb_false_iff. by rewrite E1, E2 in H. Qed.

Lemma plain_inserted n t : frozen t || moved t = false -> inserted n t = committed n (t_xmin t).
Proof. intros [E1 [E2 E3]%orb_false_iff]%orb_false_iff. unfold inserted. by rewrite E1, E2, E3. Qed.

Lemma mvcc_inserted_later n m t : (n <= m)%nat -> tuple_ok n t -> snap_ok n t -> mvcc_inserted m t = mvcc_inserted n t.
Proof.
  intros Hle Hok Hs. unfold mvcc_inserted. destruct (own t) eqn:Eo; [done|].
  destruct (frozen t || moved t) eqn:Ef; [by apply inserted_moved_later|].
  pose proof (plain_not_current t Eo Ef) as Hc. apply orb_false_iff in Ef as [Ef Em].
  destruct (InSnapshot (t_xmin t) snap) eqn:Ei; [done|].
  rewrite (law_fate n m (t_xmin t)); [done|done|by apply (so_xmin _ _ Hs)].
Qed.

Lemma mvcc_spec_later n m t : (n <= m)%nat -> tuple_ok n t -> snap_ok n t -> mvcc_spec m t = mvcc_spec n t.
Proof. intros. unfold mvcc_spec. by rewrite (mvcc_deleted_later n m), (mvcc_inserted_later n m). Qed.

Lemma mvcc_spec_same n t t' : same_tuple t t' -> mvcc_spec n t' = mvcc_spec n t.
Proof.
  intros Hs. unfold mvcc_spec, mvcc_inserted, mvcc_deleted.
  by rewrite (same_own t t' Hs), (same_inserted t t' Hs), (same_updater t t' Hs), (same_cmin t t' Hs), (same_cmax t t' Hs),
    (st_xmin _ _ Hs), (st_frozen _ _ Hs), (same_moved t t' Hs).
Qed.

Lemma snap_ok_later n m t t' : (n <= m)%nat -> tuple_ok n t -> same_tuple t t' -> snap_ok n t -> snap_ok m t'.
Proof.
  intros Hle Hok Hs [H1 H2 H3]. split.
  - rewrite (st_xmin _ _ Hs), (st_frozen _ _ Hs), (same_moved t t' Hs). intros Hf Hm Hc Hi.
    apply (law_finished n m (t_xmin t)); auto.
  - rewrite (same_updater t t' Hs). intros Hc Hi. apply (law_finished n m (updater t)); auto.
  - by rewrite (same_moved t t' Hs), (same_xvac t t' Hs), (st_xmin _ _ Hs).
Qed.

(** An insertion that is settled, seen through the snapshot. *)
Lemma mvcc_settled n k t : (n <= k)%nat -> tuple_ok n t -> snap_ok n t -> own t = false -> inserted k t = true ->
  frozen t = true \/ InSnapshot (t_xmin t) snap = false -> mvcc_inserted n t = true.
Proof.
  intros Hle Hok Hs Ho Hi Hv. rewrite <- (mvcc_inserted_later n k) by done. unfold mvcc_inserted. rewrite Ho.
  destruct (frozen t || moved t) eqn:Ef; [done|]. rewrite plain_inserted in Hi by done.
  apply orb_false_iff in Ef as [Ef _]. destruct Hv as [|Hv]; [congruence|]. rewrite Hv.
  unfold committed in Hi. by apply andb_true_iff in Hi as [_ ->].
Qed.

Lemma mvcc_rejected n k t : (n <= k)%nat -> tuple_ok n t -> snap_ok n t -> rejected t k -> mvcc_spec n t = false.
Proof.
  intros Hle Hok Hs (Hi & Ho & Hx). rewrite <- (mvcc_spec_later n k) by done. unfold mvcc_spec, mvcc_inserted. rewrite Ho.
  destruct (frozen t || moved t) eqn:Ef; [by rewrite Hi|]. rewrite plain_inserted in Hi by done.
  apply orb_false_iff in Ef as [_ Ef]. destruct Hx as [|Hx]; [congruence|]. unfold committed in Hi. rewrite Hx in Hi. cbn in Hi.
  rewrite Hi. by rewrite andb_false_r.
Qed.

(** The insertion is settled and the snapshot sees it. *)
Definition mvcc_settled_post (n : nat) (t : HeapTupleHeaderData) (s : VisState) : Prop :=
  xmin_settled n t s /\ mvcc_inserted n t = true.

Lemma mvcc_verdict n t o s : tuple_ok n t -> snap_ok n t -> InSnapshot (t_xmin t) snap = false -> xmin_verdict n t false o s ->
  match o with inl r => mvcc_post n t r s | inr _ => mvcc_settled_post n t s end.
Proof.
  intros Hok Hs Hi. destruct o as [r|u].
  - intros [-> (H1 & H2 & H3 & k & Hk & Hr)]. split_and!; [done..|]. exists k. split; [done|]. symmetry.
    apply (mvcc_rejected n k); [lia|done..].
  - intros Hx. split; [done|]. destruct Hx as (Hn & _ & _ & Hin & Ho). apply (mvcc_settled n (v_clock s)); [done..|by right].
Qed.

(** Our own insertion: the command ids decide. *)
Lemma mvcc_own_ok n t d : tuple_ok n t -> own t = true ->
  wp (mvcc_own be snap t) (fun o s => match o with inl r => mvcc_post n t r s | inr _ => mvcc_settled_post n t s end) (MkVis t n d).
Proof.
  intros Hok Ho. unfold mvcc_own, HeapTupleHeaderGetRawXmax, deleted_after.
  assert (mvcc_spec n t = negb (HeapTupleHeaderGetCmin (comboState be) t >=? curcid snap) && negb (mvcc_deleted n t)) as Hspec
    by (unfold mvcc_spec, mvcc_inserted; by rewrite Ho).
  assert (IsCurrent (updater t) = false -> mvcc_deleted n t = false) as Hab.
  { intros Hc. unfold mvcc_deleted. rewrite Hc. destruct (own_aborted n t Hok Ho Hc) as [_ ->]. apply andb_false_r. }
  assert (IsCurrent (updater t) = true -> mvcc_deleted n t = negb (HeapTupleHeaderGetCmax (comboState be) t >=? curcid snap)) as Hcur
    by (unfold mvcc_deleted; by intros ->).
  pose proof (invalid_not_deleted n) as [Hinv _].
  repeat vis_step.
  - apply (vpost_same n t _ _ _ n); [done|lia|]. by rewrite Hspec.
  - apply (vpost_same n t _ _ _ n); [done|lia|]. rewrite Hspec, Hab; [done|].
    apply (finished_not_current n), holders_done, (ok_xmax_invalid _ _ Hok); done.
  - apply (vpost_same n t _ _ _ n); [done|lia|]. rewrite Hspec, Hab; [done|]. by rewrite updater_locked.
  - apply (vpost_same n t _ _ _ n); [done|lia|]. rewrite Hspec, Hcur by (by rewrite updater_multi). 
    by destruct (HeapTupleHeaderGetCmax _ _ >=? _).
  - apply (vpost_same n t _ _ _ n); [done|lia|]. rewrite Hspec, Hab; [done|]. by rewrite updater_multi.
  - apply (vpost_same n t _ _ _ n); [done|lia|]. rewrite Hspec, Hcur by (by rewrite updater_single). 
    by destruct (HeapTupleHeaderGetCmax _ _ >=? _).
  - pose proof (updater_single t ltac:(done) ltac:(done)) as Eu.
    rewrite <- Eu in E3. destruct (own_aborted n t Hok Ho E3) as [H1 H2]. rewrite Eu in H1, H2.
    apply wp_hint_now. repeat vis_step. apply (vpost_hint n t _ _ _ _ n n); [|done|lia|].
    + apply single_gone; [done..|by right].
    + by rewrite Hspec, Hab.
Qed.

Lemma mvcc_xmin_ok n t d : tuple_ok n t -> snap_ok n t ->
  wp (mvcc_xmin be snap) (fun o s => match o with inl r => mvcc_post n t r s | inr _ => mvcc_settled_post n t s end) (MkVis t n d).
Proof.
  intros Hok Hs. unfold mvcc_xmin, HeapTupleHeaderGetRawXmin. do 3 vis_step.
  (* the hint says committed *)
  { destruct (ok_committed _ _ Hok E) as (H1 & H2 & _). do 2 vis_step.
    - apply andb_true_iff in E0 as [Ef%negb_true_iff Ei]. apply (vpost_same n t _ _ _ n); [done|lia|].
      assert (moved t = false) as Hm by (destruct (moved t) eqn:Em; [destruct (so_moved _ _ Hs Em); congruence|done]).
      unfold mvcc_spec, mvcc_inserted. rewrite H2. unfold frozen. by rewrite Ef, Hm, Ei.
    - vis_step. split; [by split_and!|]. apply (mvcc_settled n n); try done.
      apply andb_false_iff in E0 as [Ef%negb_false_iff|Ei]; [by left|by right]. }
  (* the hint says aborted *)
  vis_step.
  { vis_step. destruct (ok_invalid _ _ Hok E0) as (H1 & H2 & H3). apply (vpost_same n t _ _ _ n); [done|lia|].
    symmetry. apply (mvcc_rejected n n); [lia|done..|]. split_and!; try done. destruct (moved t); [by left|right; by apply H3]. }
  assert (xmin_open t) as Ho by done. fold (moved_off t) (moved_in t).
  destruct (moved_off t) eqn:E2; [|destruct (moved_in t) eqn:E3].
  1: destruct (so_moved _ _ Hs (off_moved t E2)) as [Hx Hn].
  2: destruct (so_moved _ _ Hs (in_moved t E3)) as [Hx Hn].
  1,2: eapply wp_mono; [intros o s; by apply mvcc_verdict|].
  1: by apply wp_moved_off, E2; try done; apply idle_snapshot.
  1: by apply wp_moved_in, E3; try done; apply idle_snapshot.
  assert (moved t = false) as Hm by (unfold moved; by rewrite E2, E3). pose proof (open_own t Ho Hm) as Eo.
  vis_step; [apply mvcc_own_ok; [done|congruence]|]. vis_step; [vis_step|].
  - apply (vpost_same n t _ _ _ n); [done|lia|]. unfold mvcc_spec, mvcc_inserted.
    by rewrite Eo, (open_not_frozen t Ho), Hm, E4.
  - eapply wp_mono; [intros o s; by apply mvcc_verdict|]. apply wp_xmin_committed; try done.
    apply (so_xmin _ _ Hs); [by apply open_not_frozen|done..].
Qed.

Lemma mvcc_deleted_finished n t : IsCurrent (updater t) = false -> InSnapshot (updater t) snap = false ->
  mvcc_deleted n t = DidCommit n (updater t).
Proof. unfold mvcc_deleted. by intros -> ->. Qed.

Lemma mvcc_deleted_running n t : IsCurrent (updater t) = false -> InSnapshot (updater t) snap = true -> mvcc_deleted n t = false.
Proof. unfold mvcc_deleted. by intros -> ->. Qed.

Lemma mvcc_deleted_not n t : IsCurrent (updater t) = false -> DidCommit n (updater t) = false -> mvcc_deleted n t = false.
Proof. unfold mvcc_deleted. intros -> ->. apply andb_false_r. Qed.

Lemma mvcc_deleted_own n t : IsCurrent (updater t) = true -> deleted_after be snap t = negb (mvcc_deleted n t).
Proof. unfold mvcc_deleted, deleted_after. intros ->. by destruct (_ >=? _). Qed.

Abbreviation xmax_post n t := (vpost n t (fun _ r => r = negb (mvcc_deleted n t))).

Lemma mvcc_xmax_ok n t d : tuple_ok n t -> snap_ok n t ->
  wp (mvcc_xmax be snap) (fun o s => match o with inl r | inr r => xmax_post n t r s end) (MkVis t n d).
Proof.
  intros Hok Hs. unfold mvcc_xmax, HeapTupleHeaderGetRawXmax.
  pose proof (invalid_not_deleted n) as [Hinv _]. pose proof (law_invalid n) as [_ Hcom].
  assert (forall k, (n <= k)%nat -> tuple_ok k t) as Hl by (intros; by eapply tuple_ok_later).
  assert (forall k, (n <= k)%nat -> IsCurrent (updater t) = false -> InSnapshot (updater t) snap = false ->
    IsInProgress k (updater t) = false /\ DidCommit k (updater t) = DidCommit n (updater t)) as Hfin.
  { intros k Hk Hc Hi. assert (IsInProgress n (updater t) = false) by (by apply (so_updater _ _ Hs)).
    split; [by apply (law_finished n k (updater t))|by apply (law_fate n k (updater t))]. }
  assert (forall k b, (n <= k)%nat -> IsCurrent (updater t) = false -> InSnapshot (updater t) snap = false ->
    DidCommit k (updater t) = negb b -> b = negb (mvcc_deleted n t)) as Hspec.
  { intros k b Hk Hc Hi Hd. rewrite mvcc_deleted_finished by done. destruct (Hfin k Hk Hc Hi) as [_ <-]. rewrite Hd. by destruct b. }
  repeat vis_step.
  - apply (vpost_same n t _ _ _ n); [done|lia|]. destruct (ok_xmax_invalid _ _ Hok E) as [Hh Hu].
    rewrite mvcc_deleted_not; [done| |done]. apply (finished_not_current n), holders_done, Hh.
  - apply (vpost_same n t _ _ _ n); [done|lia|]. rewrite mvcc_deleted_not; by rewrite ?updater_locked.
  - apply (vpost_same n t _ _ _ n); [done|lia|]. apply mvcc_deleted_own. by rewrite updater_multi.
  - apply (vpost_same n t _ _ _ n); [done|lia|]. by rewrite mvcc_deleted_running; rewrite ?updater_multi.
  - apply (vpost_same n t _ _ _ n); [done|lia|]. by apply (Hspec (S n)); rewrite ?updater_multi; first [lia|done].
  - apply (vpost_same n t _ _ _ n); [done|lia|]. by apply (Hspec (S n)); rewrite ?updater_multi; first [lia|done].
  - apply (vpost_same n t _ _ _ n); [done|lia|]. destruct (hint_deleted n t Hok E2 E0) as (_ & Eu & _).
    destruct (ok_xmax_committed _ _ Hok E2) as [Hh _]. rewrite mvcc_deleted_running; [done| |congruence].
    apply (finished_not_current n), holders_done, Hh.
  - apply (vpost_same n t _ _ _ n); [done|lia|]. destruct (hint_deleted n t Hok E2 E0) as (_ & Eu & _).
    destruct (ok_xmax_committed _ _ Hok E2) as [Hh Hc]. apply (Hspec n); [lia| |congruence|by rewrite Eu; apply Hc].
    apply (finished_not_current n), holders_done, Hh.
  - apply (vpost_same n t _ _ _ n); [done|lia|]. apply mvcc_deleted_own. by rewrite updater_single.
  - apply (vpost_same n t _ _ _ n); [done|lia|]. by rewrite mvcc_deleted_running; rewrite ?updater_single.
  - pose proof (updater_single t E0 E1) as Eu. rewrite <- Eu in *. destruct (Hfin (S n) ltac:(lia) E3 E4) as [Hx Hc].
    apply wp_hint; [congruence| |].
    + intros n' d' Hn'. vis_step. apply (vpost_same n t _ _ _ n); [done|lia|]. by apply (Hspec n).
    + intros n' Hn' Hd. vis_step. apply (vpost_hint n t _ _ _ _ n' n); [|done|lia|by apply (Hspec n)].
      destruct (Hfin n' ltac:(lia) E3 E4) as [Hx' Hc']. rewrite Eu in *. apply add_xmax_committed; [apply Hl; lia|done..|congruence|done].
  - pose proof (updater_single t E0 E1) as Eu. rewrite <- Eu in *. destruct (Hfin (S n) ltac:(lia) E3 E4) as [Hx Hc].
    apply wp_hint_now. repeat vis_step. apply (vpost_hint n t _ _ _ _ (S n) n); [|done|lia|by apply (Hspec n)].
    rewrite Eu in *. apply single_gone; [apply Hl; lia|done..|right; congruence].
Qed.

Lemma mvcc_ok n t d : tuple_ok n t -> snap_ok n t ->
  let '(r, s) := prun (HeapTupleSatisfiesMVCC be snap) (MkVis t n d) in mvcc_post n t r s.
Proof.
  intros Hok Hsn. rewrite (surjective_pairing (prun _ _)). apply (wp_prun _ (mvcc_post n t)), wp_bind.
  eapply wp_mono; [|by apply mvcc_xmin_ok]. intros [r|u] s; [done|]. destruct s as [t1 n1 d1].
  intros [(Hn & Hok1 & Hs & Hi & Ho) Hin]. cbn [v_tuple v_clock] in *.
  eapply wp_mono; [|apply mvcc_xmax_ok; [done|by eapply snap_ok_later]].
  assert (mvcc_deleted n1 t1 = mvcc_deleted n t) as Ed.
  { rewrite <- (mvcc_deleted_later n n1) by done. unfold mvcc_deleted. by rewrite (same_updater t t1 Hs), (same_cmax t t1 Hs). }
  intros [r|r] s; (apply vpost_trans; [done|done|]); intros _ ->; unfold mvcc_spec; by rewrite Hin, Ed.
Qed.
End mvcc.
End routines.
