(* ===== verification/VisibilityGuarantees.v ===== *)
(** * Tuple visibility: the guarantees

    What each routine of [heapam_visibility.c] promises its callers, from the
    lemmas of [VisibilityTheorems], and a small world on which the theorems
    apply. *)

From S2P Require Import Prelude.
From S2P Require Import Search.
From S2P Require Import TransactionId.
From S2P Require Import HeapTuple.
From S2P Require Import ComboCid.
From S2P Require Import Snapshot.
From S2P Require Import CurrentXids.
From S2P Require Import Visibility.
From S2P Require Import VisibilitySpec.
From S2P Require Import VisibilityTheorems.

(** ** From one call to a later one

    Moment [m] of [W2] comes after moment [n] of [W1]: what had finished there
    has finished, with the same fate, and multixacts have the same members. *)
Record goes_on {W1 be1} {L1 : WorldLaws W1 be1} (n : nat) {W2 be2} (L2 : WorldLaws W2 be2) (m : nat) : Prop := {
  go_finished : forall x, TransactionIdIsInProgress_at (World := W1) n x = false -> assigned (WorldLaws := L1) x ->
    TransactionIdIsInProgress_at (World := W2) m x = false;
  go_fate : forall x, TransactionIdIsInProgress_at (World := W1) n x = false -> assigned (WorldLaws := L1) x ->
    TransactionIdDidCommit_at (World := W2) m x = TransactionIdDidCommit_at (World := W1) n x;
  go_members : forall multi, multi_members (WorldLaws := L2) multi = multi_members (WorldLaws := L1) multi;
}.
Arguments goes_on {W1 be1} L1 n {W2 be2} L2 m.

Section later.
Context {W1 W2 : World} {be1 be2 : Asker} {L1 : WorldLaws W1 be1} {L2 : WorldLaws W2 be2}.

Lemma goes_on_updater n m t : goes_on L1 n L2 m -> updater (L := L2) t = updater (L := L1) t.
Proof. intros H. unfold updater. by rewrite (go_members _ _ _ H). Qed.

(** A row that was never there, or is dead to everyone, cannot be seen. *)
Lemma never_there_invisible n k t m snap : goes_on L1 n L2 m -> (k <= n)%nat -> tuple_ok (L := L1) k t ->
  own be1 t = false -> inserting (W := W1) k t = false -> inserted (W := W1) k t = false ->
  mvcc_spec (W := W2) (be := be2) (L := L2) snap m t = false.
Proof.
  intros H Hk Hok _ Hins Hin. assert (frozen t = false) as Hf by (unfold inserted in Hin; by destruct (frozen t)).
  unfold mvcc_spec, mvcc_inserted. destruct (moved t) eqn:Em.
  - destruct (ok_moved _ _ Hok Em) as [_ Hx]. pose proof (ok_assigned_xvac _ _ Hok Em) as Ha.
    assert (inserted (W := W2) m t = inserted (W := W1) k t) as ->.
    { unfold inserted. rewrite Hf. rewrite (go_fate _ _ _ H) by (done || by apply (finished_law k)).
      rewrite (fate_law k n _ Ha Hk Hx). unfold moved in Em. destruct (moved_off t); [done|]. by destruct (moved_in t). }
    unfold own. by rewrite Em, Hf, Hin, andb_false_r.
  - unfold inserting in Hins. rewrite Hf, Em in Hins. cbn in Hins. pose proof (ok_assigned_xmin _ _ Hok Hf Em) as Ha.
    assert (TransactionIdIsInProgress_at (World := W1) n (t_xmin t) = false) as Hx by by apply (finished_law k).
    assert (own be2 t = false) as ->.
    { unfold own. rewrite (finished_not_current m (t_xmin t)); [apply andb_false_r|]. by apply (go_finished _ _ _ H). }
    rewrite Hf. cbn [orb]. rewrite (go_fate _ _ _ H) by done. rewrite (fate_law k n _ Ha Hk Hins).
    unfold inserted, committed in Hin. unfold moved in Em. apply orb_false_iff in Em as [E1 E2].
    rewrite Hf, E1, E2, Hins in Hin. cbn in Hin. rewrite Hin. by rewrite andb_false_r.
Qed.

Lemma deleted_invisible n k t m snap : goes_on L1 n L2 m -> (k <= n)%nat -> tuple_ok (L := L1) k t ->
  TransactionIdIsInProgress_at (World := W1) k (updater (L := L1) t) = false ->
  TransactionIdDidCommit_at (World := W1) k (updater (L := L1) t) = true ->
  XidInMVCCSnapshot (SubTransGetTopmostTransaction be2) (updater (L := L1) t) snap = false ->
  mvcc_spec (W := W2) (be := be2) (L := L2) snap m t = false.
Proof.
  intros H Hk Hok Hx Hc Hi. pose proof (assigned_updater k t Hok) as Ha.
  assert (TransactionIdIsInProgress_at (World := W1) n (updater (L := L1) t) = false) as Hxn by by apply (finished_law k).
  unfold mvcc_spec, mvcc_deleted. rewrite (goes_on_updater n m t H), Hi.
  rewrite (finished_not_current m (updater (L := L1) t)) by by apply (go_finished _ _ _ H).
  rewrite (go_fate _ _ _ H), (fate_law k n _ Ha Hk Hx), Hc by done. apply andb_false_r.
Qed.
End later.

Section guarantees.
Context {W : World} {be : Asker} {L : WorldLaws W be}.

(** The outcome of a call that began at moment [n] with tuple [t]: [P] holds
    of the result at some moment of the call, and the tuple that it leaves is
    the same up to hint bits, which are true and safe to write out. *)
Definition at_one_moment {R} (n : nat) (t : HeapTupleHeaderData) (P : nat -> R -> Prop) (rs : R * VisState) : Prop :=
  (exists k, (n <= k <= v_clock rs.2)%nat /\ P k rs.1) /\
  tuple_ok (v_clock rs.2) (v_tuple rs.2) /\ same_tuple t (v_tuple rs.2).

Lemma one_moment {R} n t (P : nat -> R -> Prop) rs : (let '(r, s) := rs in vpost n t P r s) -> at_one_moment n t P rs.
Proof. destruct rs as [r s]. by intros (_ & H1 & H2 & H3). Qed.

(** C2. [HeapTupleSatisfiesMVCC] shows a row to a snapshot exactly if the
    snapshot sees its insertion and not its deletion: an insertion by this
    transaction counts if an earlier command made it, one by another if the
    snapshot leaves the inserter out and the inserter committed; deletions
    likewise, whether xmax is one transaction or the updater among several
    lockers.  Locks, hint bits set before, and whatever other backends do
    during the call make no difference, and the hint bits that it adds are
    true and never reach disk before the commit record that they report. *)
Theorem mvcc_exact snap n t d : tuple_ok n t -> snap_ok (be := be) snap n t ->
  at_one_moment n t (fun _ r => r = mvcc_spec (be := be) snap n t) (prun (HeapTupleSatisfiesMVCC be snap) (MkVis t n d)).
Proof. intros Hok Hs. by apply one_moment, mvcc_ok. Qed.

(** C26. A statement sees the same rows each time it looks: however much later
    the same snapshot is asked about the same row, whatever hint bits have
    been set on it in between and whoever has committed or aborted since,
    [HeapTupleSatisfiesMVCC] gives the same answer. *)
Theorem mvcc_repeatable snap n t d n' t' d' : tuple_ok n t -> snap_ok (be := be) snap n t ->
  (n <= n')%nat -> same_tuple t t' -> tuple_ok n' t' ->
  (prun (HeapTupleSatisfiesMVCC be snap) (MkVis t' n' d')).1 = (prun (HeapTupleSatisfiesMVCC be snap) (MkVis t n d)).1.
Proof.
  intros Hok Hs Hle Hsame Hok'. pose proof (snap_ok_later snap n n' t t' Hle Hok Hsame Hs) as Hs'.
  pose proof (mvcc_ok snap n t d Hok Hs) as H. pose proof (mvcc_ok snap n' t' d' Hok' Hs') as H'.
  destruct (prun _ (MkVis t n d)) as [r s], (prun _ (MkVis t' n' d')) as [r' s'].
  destruct H as (_ & _ & _ & k & _ & ->). destruct H' as (_ & _ & _ & k' & _ & ->). cbn [fst].
  rewrite (mvcc_spec_same snap n' t t' Hsame). by apply mvcc_spec_later.
Qed.

(** C25. [HeapTupleSatisfiesUpdate] tells a writer the state of the row as of
    one moment of the call: not there for it, already changed by its own
    command, locked or being changed by a transaction that runs, updated or
    deleted by one that committed, or free. *)
Theorem update_exact curcid t_self n t d : tuple_ok n t ->
  at_one_moment n t (fun k r => r = update_spec (be := be) curcid t_self k t) (prun (HeapTupleSatisfiesUpdate be t_self curcid) (MkVis t n d)).
Proof. intros Hok. by apply one_moment, update_ok. Qed.

(** [HeapTupleSatisfiesDirty] sees the row as of one moment of the call,
    uncommitted changes included, and names in the snapshot the running
    inserter (with its speculative token) or the running deleter that the
    caller has to wait for, and nobody else. *)
Theorem dirty_exact snap n t d : tuple_ok n t ->
  at_one_moment n t
    (fun k r => r = dirty_spec (be := be) (dirty_snapshot snap InvalidTransactionId InvalidTransactionId 0) k t)
    (prun (HeapTupleSatisfiesDirty be snap) (MkVis t n d)).
Proof. intros Hok. by apply one_moment, dirty_ok. Qed.

(** [HeapTupleSatisfiesSelf] sees what has taken effect as of one moment
    of the call: rows inserted by this transaction or by a committed one, and
    not deleted by this transaction or by a committed one. *)
Theorem self_exact n t d : tuple_ok n t ->
  at_one_moment n t (fun k r => r = self_spec (be := be) k t) (prun (HeapTupleSatisfiesSelf be) (MkVis t n d)).
Proof. intros Hok. by apply one_moment, self_ok. Qed.

(** [HeapTupleSatisfiesVacuumHorizon] classifies the row as of one moment
    of the call: insertion or deletion still running, never there, live, or
    deleted by a committed transaction, which it names. *)
Theorem vacuum_exact n t d : tuple_ok n t ->
  at_one_moment n t (fun k r => r = vacuum_spec (be := be) k t) (prun (HeapTupleSatisfiesVacuumHorizon be) (MkVis t n d)).
Proof. intros Hok. by apply one_moment, vacuum_ok. Qed.
End guarantees.

(** ** Removing rows *)

(** The row is dead as of moment [k] to everyone who cannot see below the
    horizon [removable]. *)
Definition dead_at {W be} {L : WorldLaws W be} (removable : Z -> Prop) (k : nat) (t : HeapTupleHeaderData) : Prop :=
  vacuum_spec (be := be) k t = (HEAPTUPLE_DEAD, InvalidTransactionId) \/
  vacuum_spec (be := be) k t = (HEAPTUPLE_RECENTLY_DEAD, updater t) /\ removable (updater t).

Section removing.
Context {W1 W2 : World} {be1 be2 : Asker} {L1 : WorldLaws W1 be1} {L2 : WorldLaws W2 be2}.

Lemma vacuum_spec_dead k t : vacuum_spec (W := W1) (be := be1) k t = (HEAPTUPLE_DEAD, InvalidTransactionId) ->
  own be1 t = false /\ inserting (W := W1) k t = false /\ inserted (W := W1) k t = false.
Proof.
  unfold vacuum_spec. destruct (own be1 t); [by destruct (TransactionIdIsCurrentTransactionId _ _)|].
  destruct (inserting k t); [done|]. destruct (inserted k t); [|done]. cbn. by repeat case_match.
Qed.

Lemma vacuum_spec_recently k t u : vacuum_spec (W := W1) (be := be1) k t = (HEAPTUPLE_RECENTLY_DEAD, u) ->
  u = updater (L := L1) t /\ TransactionIdIsInProgress_at (World := W1) k u = false /\
  TransactionIdDidCommit_at (World := W1) k u = true.
Proof.
  unfold vacuum_spec. destruct (own be1 t); [by destruct (TransactionIdIsCurrentTransactionId _ _)|].
  destruct (inserting k t); [done|]. destruct (inserted k t); [|done]. cbn.
  destruct (TransactionIdIsInProgress_at k (updater t)) eqn:E1; [done|].
  destruct (TransactionIdDidCommit_at k (updater t)) eqn:E2; [|done]. by intros [= <-].
Qed.

Lemma dead_invisible (removable : Z -> Prop) k n t m snap : goes_on L1 n L2 m -> (k <= n)%nat -> tuple_ok (L := L1) k t ->
  dead_at (L := L1) removable k t ->
  (forall x, removable x -> XidInMVCCSnapshot (SubTransGetTopmostTransaction be2) x snap = false) ->
  mvcc_spec (W := W2) (be := be2) (L := L2) snap m t = false.
Proof.
  intros Hgo Hk Hok [Hd|[Hd Hr]] Hsnap.
  - destruct (vacuum_spec_dead k t Hd) as (H1 & H2 & H3). by apply (never_there_invisible (L1 := L1) n k).
  - destruct (vacuum_spec_recently k t _ Hd) as (_ & H1 & H2). apply (deleted_invisible (L1 := L1) n k); auto.
Qed.

Lemma vacuum_dead_at OldestXmin n t d s : tuple_ok (L := L1) n t ->
  HeapTupleSatisfiesVacuum (W := W1) be1 OldestXmin (MkVis t n d) = (HEAPTUPLE_DEAD, s) ->
  exists k, (n <= k <= v_clock s)%nat /\ tuple_ok (L := L1) k t /\
    dead_at (L := L1) (fun x => TransactionIdPrecedes x OldestXmin = true) k t.
Proof.
  intros Hok. unfold HeapTupleSatisfiesVacuum. pose proof (vacuum_ok (L := L1) n t d Hok) as H.
  destruct (prun _ _) as [[res dead_after] s']. destruct H as (_ & _ & _ & k & Hk & Hr).
  assert (tuple_ok (L := L1) k t) as Hokk by (apply (tuple_ok_later (L := L1) n); [lia|done]).
  destruct (decide (res = HEAPTUPLE_RECENTLY_DEAD)) as [->|Hne].
  - destruct (TransactionIdPrecedes dead_after OldestXmin) eqn:Ep; [|intros [=]]. intros [= <-]. exists k. split; [lia|split; [done|]].
    destruct (vacuum_spec_recently k t dead_after) as (-> & _); [done|]. right. auto.
  - intros [= -> <-]. exists k. split; [lia|split; [done|]]. left. rewrite <- Hr. f_equal.
    assert ((vacuum_spec (W := W1) (be := be1) k t).1 = HEAPTUPLE_DEAD -> (vacuum_spec (W := W1) (be := be1) k t).2 = InvalidTransactionId) as Hz.
    { unfold vacuum_spec. by repeat case_match. }
    rewrite <- Hr in Hz. by apply Hz.
Qed.

(** C3. VACUUM never removes a row that somebody can still see.  If
    [HeapTupleSatisfiesVacuum] calls a row dead, then from then on
    [HeapTupleSatisfiesMVCC] hides that row, with whatever hint bits it has
    acquired, from every snapshot of every other backend whose xmin is not
    older than the cutoff. *)
Theorem vacuum_dead_invisible lo OldestXmin snap n1 t d1 s1 n2 t2 d2 : tuple_ok (L := L1) n1 t ->
  HeapTupleSatisfiesVacuum (W := W1) be1 OldestXmin (MkVis t n1 d1) = (HEAPTUPLE_DEAD, s1) ->
  goes_on L1 (v_clock s1) L2 n2 -> same_tuple t t2 -> tuple_ok (L := L2) n2 t2 -> snap_ok (L := L2) snap n2 t2 ->
  in_use lo OldestXmin -> in_use lo (snap_xmin snap) -> TransactionIdPrecedesOrEquals OldestXmin (snap_xmin snap) = true ->
  (TransactionIdIsValid (updater (L := L1) t) = true -> in_use lo (updater (L := L1) t)) ->
  (prun (HeapTupleSatisfiesMVCC (W := W2) be2 snap) (MkVis t2 n2 d2)).1 = false.
Proof.
  intros Hok Hv Hgo Hsame Hok2 Hs Ho Hx Hle Hu. destruct (vacuum_dead_at _ _ _ _ _ Hok Hv) as (k & Hk & Hokk & Hd).
  pose proof (mvcc_ok (L := L2) snap n2 t2 d2 Hok2 Hs) as H. destruct (prun _ _) as [r s]. destruct H as (_ & _ & _ & _ & _ & ->). cbn [fst].
  rewrite (mvcc_spec_same snap n2 t t2 Hsame).
  destruct Hd as [Hd|[Hd Hp]]; [apply (dead_invisible (fun _ => False) k (v_clock s1)); [done|lia|done|by left|done]|].
  destruct (vacuum_spec_recently k t _ Hd) as (_ & H1 & H2).
  assert (in_use lo (updater (L := L1) t)) as Hin.
  { apply Hu. unfold TransactionIdIsValid. apply negb_true_iff, Z.eqb_neq. intros E. rewrite E in H2.
    destruct (law_invalid (WorldLaws := L1) k). congruence. }
  apply (deleted_invisible (L1 := L1) (v_clock s1) k); [done|lia|done..|]. apply (snapshot_below_xmin lo); [done..|].
  rewrite (precedes_rank lo) in Hp by done. rewrite (precedes_eq_rank lo) in Hle by done.
  apply Z.ltb_lt in Hp. apply Z.leb_le in Hle. lia.
Qed.
End removing.

Section surely_dead.
Context {W : World} {be : Asker} {L : WorldLaws W be}.

(** Dead rows stay dead. *)
Lemma dead_later (removable : Z -> Prop) n m t : (n <= m)%nat -> tuple_ok n t ->
  dead_at (be := be) removable n t -> dead_at (be := be) removable m t.
Proof.
  intros Hle Hok [Hd|[Hd Hr]]; [left|right; split; [|done]].
  - destruct (vacuum_spec_dead n t Hd) as (H1 & H2 & H3).
    assert (frozen t = false) as Hf by (unfold inserted in H3; by destruct (frozen t)).
    assert (moved t = false -> TransactionIdIsInProgress_at n (t_xmin t) = false) as Hx.
    { intros Hm. unfold inserting in H2. by rewrite Hf, Hm in H2. }
    assert (inserting m t = false) as Hi.
    { unfold inserting. destruct (moved t) eqn:Em; [by rewrite andb_false_r|]. specialize (Hx eq_refl).
      rewrite (law_finished n m (t_xmin t)); [apply andb_false_r|done..]. }
    unfold vacuum_spec. rewrite H1, Hi. rewrite (uninserted_later n m t); try done; try apply Hok.
  - destruct (vacuum_spec_recently (L1 := L) n t _ Hd) as (_ & H1 & H2). unfold vacuum_spec in Hd.
    destruct (own be t) eqn:Eo; [by destruct (TransactionIdIsCurrentTransactionId _ _)|].
    destruct (inserting n t) eqn:Ei; [done|]. destruct (inserted n t) eqn:Ein; [|done].
    pose proof (still_inserted n t m Hok Ein Hle) as Him.
    unfold vacuum_spec. rewrite Eo, Him, (inserted_not_inserting m t Him). cbn [negb].
    by rewrite (law_finished n m (updater t) Hle H1), (law_fate n m (updater t) Hle H1), H2.
Qed.

Lemma surely_dead_at kind n t d : tuple_ok n t -> (prun (HeapTupleIsSurelyDead kind) (MkVis t n d)).1 = true ->
  dead_at (be := be) (fun x => GlobalVisTestIsRemovableXid_at n kind x = true) n t.
Proof.
  intros Hok. unfold HeapTupleIsSurelyDead, prun, pbind, pget, ask, preturn. cbn [v_tuple].
  destruct (HeapTupleHeaderXminCommitted t) eqn:E1; cbn [negb].
  2:{ cbn. intros E2. destruct (ok_invalid _ _ Hok E2) as (H1 & H2 & H3). left. symmetry. apply vacuum_rejected. split_and!; [done..|].
      destruct (moved t); [by left|right; auto]. }
  destruct (flag_set _ HEAP_XMAX_INVALID) eqn:E2; [done|]. destruct (HEAP_XMAX_IS_LOCKED_ONLY _) eqn:E3; [done|].
  destruct (flag_set _ HEAP_XMAX_IS_MULTI) eqn:E4; [done|]. destruct (flag_set _ HEAP_XMAX_COMMITTED) eqn:E5; [|done].
  cbn. intros Hr. right. destruct (ok_committed _ _ Hok E1) as (H1 & H2 & _).
  destruct (hint_deleted n t Hok E5 E3) as (_ & Eu & _). rewrite Eu. split; [|done].
  destruct (ok_xmax_committed _ _ Hok E5) as [Hh Hc]. destruct (Hc E3) as (_ & Hc' & _).
  pose proof (holders_done n t Hh) as Hx. unfold vacuum_spec. rewrite H2, H1, (inserted_not_inserting n t H1). cbn [negb].
  rewrite Hx, Eu. by rewrite Hc'.
Qed.

(** The shortcut of index scans and pruning agrees with the full test:
    when [HeapTupleIsSurelyDead] says, from hint bits alone, that a row is
    dead, the row was never there or its deletion committed and everyone sees
    it, so that [HeapTupleSatisfiesNonVacuumable] with the same horizon calls
    it dead as well. *)
Theorem surely_dead_agrees kind n t d : tuple_ok n t ->
  (prun (HeapTupleIsSurelyDead kind) (MkVis t n d)).1 = true ->
  dead_at (be := be) (fun x => GlobalVisTestIsRemovableXid_at n kind x = true) n t /\
  v_tuple (prun (HeapTupleIsSurelyDead kind) (MkVis t n d)).2 = t /\
  forall snap m, vistest snap = kind -> (n <= m)%nat ->
    (forall k x, (n <= k)%nat -> GlobalVisTestIsRemovableXid_at n kind x = true -> GlobalVisTestIsRemovableXid_at k kind x = true) ->
    (HeapTupleSatisfiesNonVacuumable be snap (MkVis t m d)).1 = false.
Proof.
  intros Hok Hr. pose proof (surely_dead_at kind n t d Hok Hr) as Hd. split_and!; [done| |].
  - unfold HeapTupleIsSurelyDead, prun, pbind, pget, ask, preturn. cbn [v_tuple]. by repeat case_match; simplify_eq/=.
  - intros snap m <- Hm Hmono. assert (tuple_ok m t) as Hokm by by eapply tuple_ok_later.
    unfold HeapTupleSatisfiesNonVacuumable. pose proof (vacuum_ok m t d Hokm) as H.
    destruct (prun (HeapTupleSatisfiesVacuumHorizon be) _) as [[res dead_after] s]. destruct H as (_ & _ & _ & k & Hk & Hv).
    destruct (dead_later _ n k t ltac:(lia) Hok Hd) as [Hd'|[Hd' Hrem]]; rewrite Hd' in Hv; simplify_eq; [done|].
    destruct (decide _) as [_|]; [|done]. by rewrite Hmono by (done || lia).
Qed.
End surely_dead.

(** ** A world on which they apply

    Transaction 13 asks; 11 has committed, 12 has aborted, 10 commits at
    moment 8 and 14 starts at moment 9.  Multixact 5 is 10 updating while 11
    held a share lock. *)

#[local] Instance demo_world : World := {|
  TransactionIdIsInProgress_at n x := (x =? 13) || (x =? 10) && (n <? 8)%nat || (x =? 14) && (9 <=? n)%nat;
  TransactionIdDidCommit_at n x := (x =? 11) || (x =? 10) && (8 <=? n)%nat;
  TransactionIdGetCommitLSN_at _ x := if x =? 11 then 100 else 200;
  XLogNeedsFlush_at _ lsn := 150 <? lsn;
  BufferGetLSNAtomic_at _ := 120;
  GetMultiXactIdMembers_at _ multi _ :=
    if multi =? 5 then [MkMember 11 MultiXactStatusForShare; MkMember 10 MultiXactStatusUpdate] else [];
  GlobalVisTestIsRemovableXid_at _ _ x := x <? 12;
  BufferIsPermanent := true;
|}.

Definition demo_asker : Asker := MkAsker (fun x => x =? 13) (MkComboCidState None ∅ 0 0) id.

#[local] Program Instance demo_laws : WorldLaws demo_world demo_asker := {|
  multi_members multi :=
    if multi =? 5 then [MkMember 11 MultiXactStatusForShare; MkMember 10 MultiXactStatusUpdate] else [];
  record_lsn x := if x =? 11 then 100 else 200;
  flushed _ := 150;
  assigned x := x <> 14;
|}.
Next Obligation.
  intros n m x Hx Hle. cbn. rewrite (proj2 (Z.eqb_neq _ _) Hx). cbn [andb]. rewrite !orb_false_r.
  intros [-> H]%orb_false_iff. destruct (x =? 10); [|done]. cbn in *. apply Nat.leb_gt in H. apply Nat.leb_gt. lia.
Qed.
Next Obligation.
  intros n m x Hx Hle. cbn. intros [[_ H]%orb_false_iff _]%orb_false_iff. destruct (x =? 10); [|done]. cbn in *. apply Nat.leb_gt in H.
  assert (forall k, (8 <= k)%nat -> (8 <=? k)%nat = true) as H8 by (intros k; apply Nat.leb_le).
  pose proof (H8 n ltac:(lia)) as E1. pose proof (H8 m ltac:(lia)) as E2. cbn in E1, E2. by rewrite E1, E2.
Qed.
Next Obligation. done. Qed.
Next Obligation. intros n x. cbn. by intros ->%Z.eqb_eq. Qed.
Next Obligation. done. Qed.
Next Obligation. done. Qed.
Next Obligation. done. Qed.
Next Obligation. intros n multi. by left. Qed.
Next Obligation. done. Qed.
Next Obligation. intros n lsn. cbn. intros ?%Z.ltb_ge. lia. Qed.
Next Obligation. intros n x _. left. done. Qed.
Next Obligation. done. Qed.

(** Inserted by 11 and deleted by 10, no hints. *)
Definition demo_tuple : HeapTupleHeaderData := MkHeapTupleHeader 11 10 0 (MkItemPointer 0 7) 0 0.
Definition demo_snapshot : SnapshotData := MkSnapshot SNAPSHOT_MVCC 10 14 [10] [] false false 0 0 VISHORIZON_DATA 0.

Lemma demo_tuple_ok n : tuple_ok (be := demo_asker) n demo_tuple.
Proof.
  split; try (by vm_compute). by intros h ->%list_elem_of_singleton.
Qed.

Lemma demo_snap_ok n : snap_ok (be := demo_asker) demo_snapshot n demo_tuple.
Proof. split; by vm_compute. Qed.

(** ** The theorems at work *)

Abbreviation demo_mvcc t n := (prun (HeapTupleSatisfiesMVCC demo_asker demo_snapshot) (MkVis t n false)).

Lemma mvcc_exact_witness :
  at_one_moment (be := demo_asker) 0 demo_tuple (fun _ r => r = mvcc_spec (be := demo_asker) demo_snapshot 0 demo_tuple) (demo_mvcc demo_tuple 0) /\
  (demo_mvcc demo_tuple 0).1 = true.
Proof. split; [apply mvcc_exact; [apply demo_tuple_ok|apply demo_snap_ok]|by vm_compute]. Defined.

(** The deleter commits, a scan leaves a hint, and the snapshot still sees the row. *)
Lemma mvcc_repeatable_witness :
  (demo_mvcc (add_flags demo_tuple HEAP_XMIN_COMMITTED) 9).1 = (demo_mvcc demo_tuple 0).1.
Proof.
  assert (xmin_open demo_tuple) as Ho by by vm_compute.
  destruct (add_xmin_committed (be := demo_asker) 9 demo_tuple (demo_tuple_ok 9) Ho) as [Hok Hs];
    [by vm_compute|by vm_compute|intros _ _; left; by vm_compute|].
  apply mvcc_repeatable; [apply demo_tuple_ok|apply demo_snap_ok|lia|exact Hs|exact Hok].
Defined.

Lemma update_exact_witness :
  let call n := prun (HeapTupleSatisfiesUpdate demo_asker (MkItemPointer 0 7) 1) (MkVis demo_tuple n false) in
  at_one_moment (be := demo_asker) 0 demo_tuple (fun k r => r = update_spec (be := demo_asker) 1 (MkItemPointer 0 7) k demo_tuple) (call 0%nat) /\
  (call 0%nat).1 = TM_BeingModified /\ (call 8%nat).1 = TM_Deleted.
Proof. split_and!; [apply update_exact; apply demo_tuple_ok|by vm_compute..]. Defined.

Lemma dirty_exact_witness :
  let call := prun (HeapTupleSatisfiesDirty demo_asker demo_snapshot) (MkVis demo_tuple 0 false) in
  at_one_moment (be := demo_asker) 0 demo_tuple
    (fun k r => r = dirty_spec (be := demo_asker) (dirty_snapshot demo_snapshot InvalidTransactionId InvalidTransactionId 0) k demo_tuple) call /\
  call.1.1 = true /\ snap_xmax call.1.2 = 10.
Proof. split_and!; [apply dirty_exact; apply demo_tuple_ok|by vm_compute..]. Defined.

Lemma self_exact_witness :
  let call n := prun (HeapTupleSatisfiesSelf demo_asker) (MkVis demo_tuple n false) in
  at_one_moment (be := demo_asker) 0 demo_tuple (fun k r => r = self_spec (be := demo_asker) k demo_tuple) (call 0%nat) /\
  (call 0%nat).1 = true /\ (call 8%nat).1 = false.
Proof. split_and!; [apply self_exact; apply demo_tuple_ok|by vm_compute..]. Defined.

Lemma vacuum_exact_witness :
  let call n := prun (HeapTupleSatisfiesVacuumHorizon demo_asker) (MkVis demo_tuple n false) in
  at_one_moment (be := demo_asker) 0 demo_tuple (fun k r => r = vacuum_spec (be := demo_asker) k demo_tuple) (call 0%nat) /\
  (call 0%nat).1 = (HEAPTUPLE_DELETE_IN_PROGRESS, 0) /\ (call 8%nat).1 = (HEAPTUPLE_RECENTLY_DEAD, 10).
Proof. split_and!; [apply vacuum_exact; apply demo_tuple_ok|by vm_compute..]. Defined.

(** Once 10 has committed, nobody with an xmin of at least 12 sees the row. *)
Definition demo_newer : SnapshotData := MkSnapshot SNAPSHOT_MVCC 13 14 [] [] false false 0 0 VISHORIZON_DATA 0.

Lemma demo_goes_on n m : (n <= m)%nat -> goes_on demo_laws n demo_laws m.
Proof. intros Hle. split; [intros x Hx Ha; by apply (finished_law n)|intros x Hx Ha; by apply (fate_law n)|done]. Qed.

Lemma vacuum_dead_invisible_witness :
  (HeapTupleSatisfiesVacuum demo_asker 12 (MkVis demo_tuple 9 false)).1 = HEAPTUPLE_DEAD /\
  (prun (HeapTupleSatisfiesMVCC demo_asker demo_newer) (MkVis demo_tuple 20 false)).1 = false.
Proof.
  split; [by vm_compute|].
  assert (forall x, 3 <= x < 100 -> in_use 3 x) as Huse.
  { intros x Hx. unfold in_use, TransactionIdIsNormal, FirstNormalTransactionId, xid_rank. split_and!; cint. }
  eapply (vacuum_dead_invisible (L1 := demo_laws) (L2 := demo_laws) 3 12 demo_newer 9 demo_tuple false _ 20 demo_tuple false).
  - apply demo_tuple_ok.
  - by vm_compute.
  - apply demo_goes_on. vm_compute. lia.
  - done.
  - apply demo_tuple_ok.
  - split; by vm_compute.
  - apply Huse. lia.
  - apply Huse. split; by vm_compute.
  - by vm_compute.
  - intros _. apply Huse. split; by vm_compute.
Defined.

Lemma surely_dead_agrees_witness :
  (HeapTupleSatisfiesNonVacuumable demo_asker demo_newer
     (MkVis (MkHeapTupleHeader 12 0 0 (MkItemPointer 0 7) 0 (Z.lor HEAP_XMIN_INVALID HEAP_XMAX_INVALID)) 4 false)).1 = false.
Proof.
  apply (surely_dead_agrees (be := demo_asker) VISHORIZON_DATA 3 _ false); [|by vm_compute|done|lia|done].
  split; try (by vm_compute).
  - intros _. split; [by intros h ->%list_elem_of_singleton|done].
  - by intros h ->%list_elem_of_singleton.
Defined.
