(* ===== verification/System.v ===== *)
(** * The components together

    The array of running transactions, the commit log and the visibility
    routines in one system: backends take the steps of [Running], a
    transaction tree is recorded as committed while it still runs (its record
    is atomic for onlookers, see [Transam]), and one backend asks about rows.
    The laws that the visibility routines rely on hold in every such run, so
    their guarantees do, and what a statement sees is the state of the
    database at the moment it took its snapshot. *)

From stdpp Require Import relations.
From S2P Require Import Prelude.
From S2P Require Import Search.
From S2P Require Import TransactionId.
From S2P Require Import Varsup.
From S2P Require Import HeapTuple.
From S2P Require Import ComboCid.
From S2P Require Import Snapshot.
From S2P Require Import ProcArray.
From S2P Require Import Running.
From S2P Require Import RunningSteps.
From S2P Require Import SnapshotTheorems.
From S2P Require Import Visibility.
From S2P Require Import VisibilitySpec.
From S2P Require Import VisibilityTheorems.

Record SysState := MkSys {
  sys_aborted : Z -> bool;
  sys_pa : ProcArrayStruct;
  sys_committed : Z -> bool;
}.

(** What the components outside this development contribute to a call: the
    members of multixacts, the WAL positions and the page. *)
Record Environment := MkEnv {
  env_members : Z -> list MultiXactMember;
  env_forgotten : nat -> Z -> bool;
  env_record_lsn : Z -> Z;
  env_commit_lsn : nat -> Z -> Z;
  env_flushed : nat -> Z;
  env_page_lsn : nat -> Z;
  env_removable : nat -> GlobalVisHorizonKind -> Z -> bool;
  env_permanent : bool;
}.

Section system.
Context (lo : Z) (topmost : Z -> Z).

Abbreviation rank := (xid_rank lo).
Abbreviation in_use := (in_use lo).
Abbreviation finished s x := (RunningSteps.finished lo topmost (sys_aborted s) (sys_pa s) x).
Abbreviation runs s x := (Running.runs topmost (sys_aborted s) (sys_pa s) x).
Abbreviation arr s := (sys_aborted s, sys_pa s).

Inductive sys_step : SysState -> SysState -> Prop :=
  | sys_array s aborted' pa' :
      pa_step lo topmost (arr s) (aborted', pa') -> (forall x, sys_committed s x = true -> aborted' x = false) ->
      sys_step s (MkSys aborted' pa' (sys_committed s))
  | sys_commit s (xs : list Z) :
      (forall x, x ∈ xs -> Running.assigned lo (sys_pa s) x /\ runs s x /\ sys_aborted s x = false) ->
      sys_step s (MkSys (sys_aborted s) (sys_pa s) (fun x => sys_committed s x || bool_decide (x ∈ xs))).

Record sys_ok (s : SysState) : Prop := {
  sys_pa_ok : pa_ok lo topmost (sys_aborted s) (sys_pa s);
  sys_fates : forall x, sys_committed s x = true -> Running.assigned lo (sys_pa s) x /\ sys_aborted s x = false;
}.

Context (Htop : topmost_ok lo topmost).

Lemma sys_step_ok s s' : sys_ok s -> sys_step s s' -> sys_ok s'.
Proof.
  intros [Hpa Hf] Hs. destruct Hs as [s aborted' pa' Hstep Hab|s xs Hxs]; split; cbn.
  - by apply (step_ok lo topmost Htop (arr s) (aborted', pa')).
  - intros x Hx. split; [|by apply Hab]. destruct (Hf x Hx) as [[Hu Hr] _]. split; [done|].
    destruct (step_effect lo topmost Htop (arr s) (aborted', pa') Hpa Hstep) as (_ & _ & Hn). cbn in Hn. lia.
  - done.
  - intros x [Hx|Hx%bool_decide_eq_true]%orb_true_iff; [by apply Hf|]. destruct (Hxs x Hx) as (? & _ & ?). done.
Qed.

(** A finished transaction stays finished and keeps its fate. *)
Lemma sys_step_finished s s' x : sys_ok s -> sys_step s s' -> finished s x ->
  finished s' x /\ sys_committed s' x = sys_committed s x.
Proof.
  intros Hok Hs Hx. destruct Hs as [s aborted' pa' Hstep Hab|s xs Hxs]; cbn.
  - split; [|done]. by apply (finished_step lo topmost Htop (arr s) (aborted', pa') x (sys_pa_ok _ Hok)).
  - split; [done|]. rewrite bool_decide_false; [apply orb_false_r|]. intros Hin. destruct (Hxs x Hin) as (_ & Hr & _).
    by destruct Hx as (_ & _ & ?).
Qed.

Lemma sys_steps_ok s s' : sys_ok s -> rtc sys_step s s' -> sys_ok s'.
Proof. intros Hok. induction 1 as [|s1 s2 s3 Hs _ IH]; [done|]. apply IH. by eapply sys_step_ok. Qed.

Lemma sys_steps_finished s s' x : sys_ok s -> rtc sys_step s s' -> finished s x ->
  finished s' x /\ sys_committed s' x = sys_committed s x.
Proof.
  intros Hok Hs. revert Hok. induction Hs as [|s1 s2 s3 Hs _ IH]; [done|]. intros Hok Hx.
  destruct (sys_step_finished s1 s2 x Hok Hs Hx) as [Hx2 E2]. rewrite <- E2. apply IH; [by eapply sys_step_ok|done].
Qed.

Lemma sys_steps_assigned s s' x : sys_ok s -> rtc sys_step s s' -> Running.assigned lo (sys_pa s) x ->
  Running.assigned lo (sys_pa s') x.
Proof.
  intros Hok Hs. revert Hok. induction Hs as [|s1 s2 s3 Hs _ IH]; [done|]. intros Hok [Hu Hr].
  apply IH; [by eapply sys_step_ok|]. split; [done|]. destruct Hs as [s aborted' pa' Hstep _|s xs _]; cbn; [|done].
  destruct (step_effect lo topmost Htop (arr s) (aborted', pa') (sys_pa_ok _ Hok) Hstep) as (_ & _ & Hn). cbn in Hn. lia.
Qed.

Lemma sys_steps_latest s s' : sys_ok s -> rtc sys_step s s' -> rank (latest (sys_pa s)) <= rank (latest (sys_pa s')).
Proof.
  intros Hok Hs. revert Hok. induction Hs as [|s1 s2 s3 Hs _ IH]; [done|]. intros Hok.
  specialize (IH ltac:(by eapply sys_step_ok)). destruct Hs as [s aborted' pa' Hstep _|]; [|done].
  destruct (step_effect lo topmost Htop (arr s) (aborted', pa') (sys_pa_ok _ Hok) Hstep) as (_ & Hn & _). cbn in *. lia.
Qed.

(** ** One call

    The states of the system during a call of backend [bk], which is in the
    middle of a transaction: [is_current] are its own ids. *)

Section call.
Context (trace : nat -> SysState) (bk : BackendState) (be : Asker) (env : Environment).

Abbreviation is_current := (TransactionIdIsCurrentTransactionId be).
Abbreviation my := (my_pgxactoff bk).

Record run_ok : Prop := {
  run_start : sys_ok (trace 0%nat);
  run_steps : forall n, rtc sys_step (trace n) (trace (S n));
  run_normal : forall n, RecoveryInProgress (sys_pa (trace n)) = false;
  run_backend : backend_ok lo topmost is_current (sys_aborted (trace 0%nat)) (sys_pa (trace 0%nat)) bk;
  (* the entry of the backend shows its own ids *)
  run_own : forall n p x, procs (sys_pa (trace n)) !! my = Some p -> runs_in topmost (sys_aborted (trace n)) p x -> is_current x = true;
  run_current : forall n x, is_current x = true -> in_use x /\ sys_committed (trace n) x = false;
}.

(** What the other components promise. *)
Record env_ok : Prop := {
  env_no_members : env_members env InvalidTransactionId = [];
  env_forgets : forall n multi m, env_forgotten env n multi = true -> m ∈ env_members env multi ->
    (ProcArray.TransactionIdIsInProgress is_current (sys_aborted (trace n)) topmost (sys_pa (trace n)) bk (mem_xid m)).1 = false;
  env_flushed_mono : forall n m, (n <= m)%nat -> env_flushed env n <= env_flushed env m;
  env_page_mono : forall n m, (n <= m)%nat -> env_page_lsn env n <= env_page_lsn env m;
  env_commit : forall n x, sys_committed (trace n) x = true ->
    env_record_lsn env x <= env_commit_lsn env n x \/ env_record_lsn env x <= env_flushed env n;
  env_permanent_ids : forall x, x < FirstNormalTransactionId -> forall n, env_record_lsn env x <= env_flushed env n;
}.

Definition system_world : World := {|
  TransactionIdIsInProgress_at n x :=
    (ProcArray.TransactionIdIsInProgress is_current (sys_aborted (trace n)) topmost (sys_pa (trace n)) bk x).1;
  TransactionIdDidCommit_at n x :=
    if TransactionIdIsNormal x then sys_committed (trace n) x
    else (x =? BootstrapTransactionId) || (x =? FrozenTransactionId);
  TransactionIdGetCommitLSN_at n x := env_commit_lsn env n x;
  XLogNeedsFlush_at n lsn := env_flushed env n <? lsn;
  BufferGetLSNAtomic_at n := env_page_lsn env n;
  GetMultiXactIdMembers_at n multi isLockOnly :=
    if isLockOnly && env_forgotten env n multi then [] else env_members env multi;
  GlobalVisTestIsRemovableXid_at n kind x := env_removable env n kind x;
  BufferIsPermanent := env_permanent env;
|}.

(** Permanent ids and ids handed out before the call. *)
Definition known (x : Z) : Prop :=
  0 <= x < FirstNormalTransactionId \/ Running.assigned lo (sys_pa (trace 0%nat)) x.

Context (Hrun : run_ok) (Henv : env_ok).

Lemma run_reach n m : (n <= m)%nat -> rtc sys_step (trace n) (trace m).
Proof. induction 1 as [|m _ IH]; [done|]. etrans; [done|apply Hrun]. Qed.

Lemma run_ok_at n : sys_ok (trace n).
Proof. eapply sys_steps_ok; [apply Hrun|apply (run_reach 0); lia]. Qed.

Abbreviation cr n x := (considered_running lo topmost is_current (sys_aborted (trace n)) (sys_pa (trace n)) my x).

(** Not considered running is the same as finished. *)
Lemma not_running_finished n x : Running.assigned lo (sys_pa (trace n)) x -> ~ cr n x -> is_current x = false /\ finished (trace n) x.
Proof.
  intros Ha Hn. assert (is_current x = false) as Hc.
  { destruct (is_current x) eqn:E; [|done]. exfalso. apply Hn. by left. }
  split; [done|]. split_and!; [done| |].
  - destruct (Z.le_gt_cases (rank x) (rank (latest (sys_pa (trace n))))); [done|]. exfalso. apply Hn. right. by left.
  - intros (p & [k Hk]%list_elem_of_lookup & Hr). destruct (decide (k = my)) as [->|Hne].
    + by rewrite (run_own Hrun n p x Hk Hr) in Hc.
    + apply Hn. right. right. by exists k, p.
Qed.

Lemma finished_not_running n x : is_current x = false -> finished (trace n) x -> ~ cr n x.
Proof.
  intros Hc (_ & Hl & Hn) [|[|(k & p & _ & Hk & Hr)]]; [congruence|lia|]. apply Hn. exists p. split; [by eapply list_elem_of_lookup_2|done].
Qed.

Lemma below_latest_assigned n x : in_use x -> rank x <= rank (latest (sys_pa (trace n))) -> Running.assigned lo (sys_pa (trace n)) x.
Proof. intros Hu Hl. split; [done|]. destruct (pk_next _ _ _ _ (sys_pa_ok _ (run_ok_at n))) as (_ & _ & ?). lia. Qed.

Lemma idle_stays n m x : (n <= m)%nat -> in_use x -> ~ cr n x -> ~ cr m x /\ Running.assigned lo (sys_pa (trace n)) x.
Proof.
  intros Hle Hu Hn. assert (Running.assigned lo (sys_pa (trace n)) x) as Ha.
  { apply below_latest_assigned; [done|]. destruct (Z.le_gt_cases (rank x) (rank (latest (sys_pa (trace n))))); [done|].
    exfalso. apply Hn. right. by left. }
  destruct (not_running_finished n x Ha Hn) as [Hc Hf]. split; [|done]. apply finished_not_running; [done|].
  by apply (sys_steps_finished (trace n)); [apply run_ok_at|apply run_reach|].
Qed.

Lemma run_backend_at n : backend_ok lo topmost is_current (sys_aborted (trace n)) (sys_pa (trace n)) bk.
Proof.
  destruct (run_backend Hrun) as [H1 H2 H3]. split; [done| |].
  - intros x Hx Hlt. apply (idle_stays 0); [lia|done|by apply H2].
  - intros Hc. apply (idle_stays 0); [lia|done|by apply H3].
Qed.

Lemma in_progress_at n x : in_use x -> TransactionIdIsInProgress_at (World := system_world) n x = true <-> cr n x.
Proof.
  intros Hx. by apply in_progress_spec; [|apply (run_ok_at n)|apply run_backend_at|apply Hrun|].
Qed.

Lemma permanent_idle n x : 0 <= x < FirstNormalTransactionId -> TransactionIdIsInProgress_at (World := system_world) n x = false.
Proof.
  intros Hx. cbn. unfold ProcArray.TransactionIdIsInProgress, TransactionIdPrecedes.
  destruct (bk_xmin _ _ _ _ _ _ (run_backend Hrun)) as (_ & Hn & _).
  assert (TransactionIdIsNormal x = false) as -> by (unfold TransactionIdIsNormal; lia). cbn [negb orb].
  unfold TransactionIdIsNormal in Hn. by rewrite (proj2 (Z.ltb_lt _ _)) by lia.
Qed.

#[export] Program Instance system_laws : WorldLaws system_world be := {|
  multi_members := env_members env;
  record_lsn := env_record_lsn env;
  flushed := env_flushed env;
  assigned := known;
|}.
Next Obligation.
  intros n m x [Hx|Hx] Hle Hn; [by apply permanent_idle|].
  destruct (TransactionIdIsInProgress_at m x) eqn:E; [|done]. apply in_progress_at in E; [|apply Hx].
  assert (~ cr n x) as Hcr by (rewrite <- in_progress_at by apply Hx; by rewrite Hn).
  destruct (idle_stays n m x Hle (proj1 Hx) Hcr) as [? _]. done.
Qed.
Next Obligation.
  intros n m x [Hx|Hx] Hle Hn; cbn.
  { by assert (TransactionIdIsNormal x = false) as -> by (unfold TransactionIdIsNormal; lia). }
  destruct (TransactionIdIsNormal x); [|done].
  assert (~ cr n x) as Hcr by (rewrite <- in_progress_at by apply Hx; by rewrite Hn).
  assert (Running.assigned lo (sys_pa (trace n)) x) as Ha by (by apply (idle_stays n n x); [|apply Hx|]).
  destruct (not_running_finished n x Ha Hcr) as [_ Hf].
  by apply (sys_steps_finished (trace n)); [apply run_ok_at|apply run_reach|].
Qed.
Next Obligation. left. unfold InvalidTransactionId, FirstNormalTransactionId. lia. Qed.
Next Obligation.
  intros n x Hc. destruct (run_current Hrun n x Hc) as [Hu Hd]. split; [apply in_progress_at; [done|by left]|].
  cbn. destruct Hu as (_ & -> & _). done.
Qed.
Next Obligation.
  intros n. split; [|done]. apply permanent_idle. unfold InvalidTransactionId, FirstNormalTransactionId. lia.
Qed.
Next Obligation. intros n multi. done. Qed.
Next Obligation. apply Henv. Qed.
Next Obligation.
  intros n multi. cbn. destruct (env_forgotten env n multi) eqn:E; [right|by left]. split; [done|].
  intros m Hm. by eapply (env_forgets Henv).
Qed.
Next Obligation. apply Henv. Qed.
Next Obligation. intros n lsn. cbn. intros ?%Z.ltb_ge. lia. Qed.
Next Obligation.
  intros n x. cbn. destruct (TransactionIdIsNormal x) eqn:E; [apply (env_commit Henv)|]. intros _. right.
  apply (env_permanent_ids Henv). unfold TransactionIdIsNormal in E. lia.
Qed.
Next Obligation. apply Henv. Qed.

(** ** What a statement sees *)

(** As of a state, the transaction has committed. *)
Definition took_effect (s : SysState) (x : Z) : Prop := sys_committed s x = true /\ ~ runs s x.

(** An entry that a snapshot does not list (the taker's own, and those of lazy
    VACUUM and logical decoding) runs nothing that may turn out committed
    later: it is our own, or it has ended without committing. *)
Definition unlisted_ok (s : SysState) (x : Z) : Prop :=
  forall k p, procs (sys_pa s) !! k = Some p -> runs_in topmost (sys_aborted s) p x ->
  is_current x = true \/ (finished (trace 0%nat) x /\ sys_committed (trace 0%nat) x = false) \/ (k <> my /\ unflagged p = true).

Lemma runs_before s s' x : sys_ok s -> rtc sys_step s s' -> Running.assigned lo (sys_pa s) x -> runs s' x -> runs s x.
Proof.
  intros Hok Hs. revert Hok. induction Hs as [|s1 s2 s3 Hs Hr IH]; [done|]. intros Hok Ha Hx.
  assert (runs s2 x) as Hx2.
  { apply IH; [by eapply sys_step_ok| |done]. eapply sys_steps_assigned; [done|by apply rtc_once|done]. }
  destruct Hs as [s aborted' pa' Hstep _|s xs _]; [|done].
  by apply (step_effect lo topmost Htop (arr s) (aborted', pa') (sys_pa_ok _ Hok) Hstep).
Qed.

Section seen.
Context (s0 : SysState) (snap : SnapshotData).
Context (Hs0 : sys_ok s0) (Hreach : rtc sys_step s0 (trace 0%nat)) (Htopmost : SubTransGetTopmostTransaction be = topmost).
Context (Hsnap : snapshot_valid lo topmost (sys_aborted s0) (sys_pa s0) my snap).

Abbreviation InSnapshot := (XidInMVCCSnapshot (SubTransGetTopmostTransaction be)).

Lemma reach_at n : rtc sys_step s0 (trace n).
Proof. etrans; [exact Hreach|]. apply run_reach. lia. Qed.

Lemma out_assigned x : in_use x -> InSnapshot x snap = false -> Running.assigned lo (sys_pa s0) x /\ rank x <= rank (latest (sys_pa s0)).
Proof.
  rewrite Htopmost. intros Hu Hi. assert (rank x <= rank (latest (sys_pa s0))) as Hl.
  { destruct (Z.le_gt_cases (rank x) (rank (latest (sys_pa s0)))) as [|Hl]; [done|].
    by rewrite (sv_future _ _ _ _ _ _ Hsnap x Hu Hl) in Hi. }
  split; [|done]. split; [done|]. destruct (pk_next _ _ _ _ (sys_pa_ok _ Hs0)) as (_ & _ & ?). lia.
Qed.

(** What the snapshot leaves out has finished. *)
Lemma out_finished n x : in_use x -> is_current x = false -> InSnapshot x snap = false -> unlisted_ok s0 x ->
  TransactionIdIsInProgress_at (World := system_world) n x = false.
Proof.
  intros Hu Hc Hi Hun. destruct (out_assigned x Hu Hi) as [Ha Hl].
  destruct (TransactionIdIsInProgress_at n x) eqn:E; [|done]. apply in_progress_at in E; [|done]. exfalso.
  assert (sys_ok (trace n)) as Hokn by apply run_ok_at.
  assert (~ runs (trace n) x -> ~ cr n x) as Hidle.
  { intros Hnr. apply finished_not_running; [done|]. split_and!; [by eapply sys_steps_assigned; [|apply reach_at|]| |done].
    pose proof (sys_steps_latest s0 (trace n) Hs0 (reach_at n)). lia. }
  apply Hidle; [|done]. intros Hr. pose proof (runs_before s0 (trace n) x Hs0 (reach_at n) Ha Hr) as (p & [k Hk]%list_elem_of_lookup & Hp).
  destruct (Hun k p Hk Hp) as [|[[Hf _]|[Hne Hfl]]]; [congruence| |].
  - destruct (sys_steps_finished (trace 0%nat) (trace n) x) as [(_ & _ & Hnr) _]; [apply run_ok_at|apply run_reach; lia|done|done].
  - rewrite Htopmost in Hi. rewrite (sv_running _ _ _ _ _ _ Hsnap) in Hi; [done|done|]. by exists k, p.
Qed.

(** What the snapshot and the log make of a transaction is what had happened
    when the snapshot was taken. *)
Lemma seen_took_effect n x : in_use x -> is_current x = false -> unlisted_ok s0 x ->
  negb (InSnapshot x snap) && TransactionIdDidCommit_at (World := system_world) n x = true <-> took_effect s0 x.
Proof.
  intros Hu Hc Hun. assert (TransactionIdIsNormal x = true) as Hnorm by apply Hu. cbn. rewrite Hnorm.
  assert (finished s0 x -> sys_committed (trace n) x = sys_committed s0 x) as Hfate.
  { intros Hf. by apply (sys_steps_finished s0 (trace n) x Hs0 (reach_at n)). }
  rewrite andb_true_iff, negb_true_iff. split.
  - intros [Hi Hd]. assert (finished s0 x) as Hf; [|by rewrite Hfate in Hd by done; destruct Hf as (_ & _ & ?)].
    destruct (out_assigned x Hu Hi) as [Ha Hl]. split_and!; [done..|]. intros (p & [k Hk]%list_elem_of_lookup & Hp).
    destruct (Hun k p Hk Hp) as [|[[Hf Hnc]|[Hne Hfl]]]; [congruence| |].
    + destruct (sys_steps_finished (trace 0%nat) (trace n) x) as [_ E]; [apply run_ok_at|apply run_reach; lia|done|congruence].
    + rewrite Htopmost in Hi. rewrite (sv_running _ _ _ _ _ _ Hsnap) in Hi; [done|done|]. by exists k, p.
  - intros [Hd Hnr]. destruct (sys_fates _ Hs0 x Hd) as [Ha Hab].
    assert (rank x <= rank (latest (sys_pa s0))) as Hl.
    { destruct (Z.le_gt_cases (rank x) (rank (latest (sys_pa s0)))) as [|Hl]; [done|].
      destruct (pk_completed _ _ _ _ (sys_pa_ok _ Hs0) x Ha Hl); [done|congruence]. }
    split; [|rewrite Hfate; [done|by split_and!]]. destruct (InSnapshot x snap) eqn:Ei; [|done]. rewrite Htopmost in Ei.
    destruct (sv_done _ _ _ _ _ _ Hsnap x Hu Ei) as [|[(k & p & _ & Hk & Hr)|]]; [lia| |congruence].
    exfalso. apply Hnr. exists p. split; [by eapply list_elem_of_lookup_2|done].
Qed.

Abbreviation mvcc_call n t d := (prun (HeapTupleSatisfiesMVCC (W := system_world) be snap) (MkVis t n d)).

(** The ids in a header that the routine may ask about. *)
Record ids_ok (t : HeapTupleHeaderData) : Prop := {
  ids_moved : moved t = false;
  ids_xmin : frozen t = false -> in_use (t_xmin t) /\ unlisted_ok s0 (t_xmin t);
  ids_updater : TransactionIdIsValid (updater (L := system_laws) t) = true ->
    in_use (updater (L := system_laws) t) /\ unlisted_ok s0 (updater (L := system_laws) t);
}.

Lemma no_updater n t : TransactionIdIsValid (updater (L := system_laws) t) = false ->
  TransactionIdIsInProgress_at (World := system_world) n (updater (L := system_laws) t) = false /\
  TransactionIdDidCommit_at (World := system_world) n (updater (L := system_laws) t) = false.
Proof.
  unfold TransactionIdIsValid. intros ->%negb_false_iff%Z.eqb_eq. split; [|done].
  apply permanent_idle. unfold InvalidTransactionId, FirstNormalTransactionId. lia.
Qed.

Lemma snapshot_serves n t : ids_ok t -> snap_ok (L := system_laws) snap n t.
Proof.
  intros [H1 H2 H3]. split; [| |congruence].
  - intros Hf _ Hc Hi. destruct (H2 Hf) as [Hu Hun]. by apply out_finished.
  - intros Hc Hi. destruct (TransactionIdIsValid (updater (L := system_laws) t)) eqn:Ev; [|by apply no_updater].
    destruct (H3 eq_refl) as [Hu Hun]. by apply out_finished.
Qed.

Lemma seen_updater n t : ids_ok t -> is_current (updater (L := system_laws) t) = false ->
  negb (InSnapshot (updater (L := system_laws) t) snap) && TransactionIdDidCommit_at (World := system_world) n (updater (L := system_laws) t) = true
  <-> took_effect s0 (updater (L := system_laws) t).
Proof.
  intros Hids Hc. destruct (TransactionIdIsValid (updater (L := system_laws) t)) eqn:Ev.
  - destruct (ids_updater _ Hids Ev) as [Hu Hun]. by apply seen_took_effect.
  - destruct (no_updater n t Ev) as [_ ->]. rewrite andb_false_r. split; [done|]. intros [Hd _].
    unfold TransactionIdIsValid in Ev. apply negb_false_iff, Z.eqb_eq in Ev. rewrite Ev in Hd.
    by destruct (sys_fates _ Hs0 _ Hd) as [[(_ & Hn & _) _] _].
Qed.
End seen.

(** C1. A statement sees the database as it was when it took its snapshot.
    Let [GetSnapshotData] take (or reuse) a snapshot, let any number of
    transactions start, commit and abort in any order before and during a
    call of [HeapTupleSatisfiesMVCC]: the row is shown exactly if its inserter
    had committed and left the array by the time of the snapshot and its
    deleter had not, where the transaction's own changes count by command. *)
Theorem rows_as_of_snapshot s0 bk0 old cid n t d : sys_ok s0 -> rtc sys_step s0 (trace 0%nat) ->
  RecoveryInProgress (sys_pa s0) = false -> my_pgxactoff bk0 = my -> (exists p, procs (sys_pa s0) !! my_pgxactoff bk0 = Some p) ->
  reusable lo topmost (sys_aborted s0) (sys_pa s0) (my_pgxactoff bk0) old -> SubTransGetTopmostTransaction be = topmost ->
  tuple_ok (L := system_laws) n t -> ids_ok s0 t ->
  let snap := (GetSnapshotData cid old (sys_pa s0) bk0).1 in
  (prun (HeapTupleSatisfiesMVCC (W := system_world) be snap) (MkVis t n d)).1 = true <->
  (if own be t then HeapTupleHeaderGetCmin (comboState be) t < cid else frozen t = true \/ took_effect s0 (t_xmin t)) /\
  ~ (if is_current (updater (L := system_laws) t) then HeapTupleHeaderGetCmax (comboState be) t < cid
     else took_effect s0 (updater (L := system_laws) t)).
Proof.
  intros Hs0 Hreach Hrec Emy Hmy Hold Htm Hok Hids snap.
  destruct (get_snapshot_valid lo topmost (sys_aborted s0) (sys_pa s0) bk0 old cid Htop (sys_pa_ok _ Hs0) Hrec Hmy Hold) as (Hv & Hcid & _).
  fold snap in Hv, Hcid. rewrite Emy in Hv. pose proof (snapshot_serves s0 snap Hs0 Hreach Htm Hv n t Hids) as Hsn.
  pose proof (mvcc_ok (L := system_laws) snap n t d Hok Hsn) as H. destruct (prun _ _) as [r s]. destruct H as (_ & _ & _ & _ & _ & ->).
  cbn [fst]. unfold mvcc_spec. rewrite andb_true_iff, negb_true_iff, <- not_true_iff_false. f_equiv.
  - unfold mvcc_inserted. rewrite Hcid. destruct (own be t) eqn:Eo; [rewrite negb_true_iff; lia|].
    rewrite (ids_moved _ _ Hids), orb_false_r. destruct (frozen t) eqn:Ef; [unfold inserted; rewrite Ef; tauto|].
    destruct (ids_xmin _ _ Hids Ef) as [Hu Hun].
    assert (is_current (t_xmin t) = false) as Hc by (unfold own in Eo; by rewrite Ef, (ids_moved _ _ Hids) in Eo).
    rewrite (seen_took_effect s0 snap Hs0 Hreach Htm Hv n) by done. intuition congruence.
  - f_equiv. unfold mvcc_deleted. rewrite Hcid. destruct (is_current (updater (L := system_laws) t)) eqn:Ec; [rewrite negb_true_iff; lia|].
    by apply seen_updater.
Qed.
End call.
End system.

(** ** A run on which it applies

    On the array of [SnapshotTheorems], after the snapshot transaction 10 and
    its child 12 commit and leave; the row was inserted by 11 and deleted
    by 10. *)

Definition demo_sys : SysState := MkSys no_aborts demo_pa (fun x => x =? 11).
Definition demo_recorded : SysState := MkSys no_aborts demo_pa (fun x => (x =? 11) || bool_decide (x ∈ [10; 12])).
Definition demo_after : SysState :=
  MkSys no_aborts (ProcArrayEndTransactionInternal 1 12 demo_pa) (sys_committed demo_recorded).
Definition demo_trace (n : nat) : SysState := demo_after.
Definition demo_outsider : Asker := MkAsker no_aborts (MkComboCidState None ∅ 0 0) demo_top.
Definition demo_env : Environment :=
  MkEnv (fun _ => []) (fun _ _ => false) (fun _ => 0) (fun _ _ => 0) (fun _ => 0) (fun _ => 0) (fun _ _ _ => false) true.
Definition demo_row : HeapTupleHeaderData := MkHeapTupleHeader 11 10 0 (MkItemPointer 0 7) 0 0.

Lemma demo_sys_ok : sys_ok 3 demo_top demo_sys.
Proof. split; [apply demo_pa_ok|]. intros x ->%Z.eqb_eq. split; [|done]. split; [by apply demo_in_use|by vm_compute]. Qed.

Lemma demo_sys_steps : rtc (sys_step 3 demo_top) demo_sys demo_after.
Proof.
  apply (rtc_l _ _ demo_recorded).
  - apply (sys_commit 3 demo_top demo_sys [10; 12]). intros x Hx.
    split_and!; [split; [apply demo_in_use|]| |done].
    + apply elem_of_cons in Hx as [-> | ->%list_elem_of_singleton]; lia.
    + by apply elem_of_cons in Hx as [-> | ->%list_elem_of_singleton]; vm_compute.
    + exists (MkPGPROC 1 101 10 10 [12] false 0 5). split; [by right; left|]. split; [done|].
      apply elem_of_cons in Hx as [->|Hx]; [by left|right; by left].
  - apply rtc_once. apply (sys_array 3 demo_top demo_recorded); [apply demo_end_step|done].
Qed.

Lemma demo_run_ok : run_ok 3 demo_top demo_trace demo_be demo_outsider.
Proof.
  split; try done.
  - eapply sys_steps_ok; [apply demo_topmost_ok|apply demo_sys_ok|apply demo_sys_steps].
  - split; [by apply demo_in_use| |].
    + intros x _ Hr. change (xid_rank 3 (RecentXmin demo_be)) with 0 in Hr. unfold xid_rank in Hr. pose proof (u32_range (x - 3)) as [? _]. lia.
    + by intros (_ & [=] & _).
  - intros n p x [= <-] (? & _). done.
Qed.

Lemma demo_env_ok : env_ok demo_top demo_trace demo_be demo_outsider demo_env.
Proof. split; try done. by left. Qed.

Abbreviation demo_system := (system_world demo_top demo_trace demo_be demo_outsider demo_env).
Abbreviation demo_system_laws :=
  (system_laws 3 demo_top demo_topmost_ok demo_trace demo_be demo_outsider demo_env demo_run_ok demo_env_ok).

Lemma demo_row_ok n : tuple_ok (L := demo_system_laws) n demo_row.
Proof.
  assert (forall x, 3 <= x < 13 -> known 3 demo_trace x) as Hk.
  { intros x Hx. right. split; [apply demo_in_use; lia|]. rewrite demo_rank by lia.
    change (xid_rank 3 (next (sys_pa (demo_trace 0)))) with 13. lia. }
  split; try done.
  - intros _ _. apply Hk. cbn. lia.
  - intros h ->%list_elem_of_singleton. apply Hk. cbn. lia.
Qed.

(** 10 has committed by now, but not when the snapshot was taken. *)
Lemma rows_as_of_snapshot_witness :
  sys_committed (demo_trace 0) 10 = true /\
  (prun (HeapTupleSatisfiesMVCC (W := demo_system) demo_outsider (GetSnapshotData 1 demo_old demo_pa demo_be).1)
     (MkVis demo_row 5 false)).1 = true.
Proof.
  split; [by vm_compute|].
  apply (rows_as_of_snapshot 3 demo_top demo_topmost_ok demo_trace demo_be demo_outsider demo_env demo_run_ok demo_env_ok
    demo_sys demo_be demo_old 1 5 demo_row false demo_sys_ok demo_sys_steps eq_refl eq_refl demo_my_entry demo_old_reusable
    eq_refl (demo_row_ok 5)).
  - assert (forall x, x = 10 \/ x = 11 -> unlisted_ok 3 demo_top demo_trace demo_be demo_outsider demo_sys x) as Hun.
    { intros x Hx k p Hk Hr. right. right. destruct k as [|[|[|k]]]; simpl in Hk; simplify_eq; [by destruct Hr|done..]. }
    split; [done|intros _; split; [by apply demo_in_use|apply Hun; by right]|].
    intros _. split; [by apply demo_in_use|apply Hun; by left].
  - cbn. split; [right|].
    + split; [done|]. intros (p & [k Hk]%list_elem_of_lookup & Hv & Hr).
      destruct k as [|[|[|k]]]; simpl in Hk; simplify_eq; simpl in Hr; try done.
      * destruct Hr as [|[?%list_elem_of_singleton|(? & _)]]; done.
      * destruct Hr as [|[?%not_elem_of_nil|(? & _)]]; done.
    + by intros [[=] _].
Defined.
